(* ===== verification/_CoqProject ===== *)
-Q . S2P
Prelude.v
GoText.v
GoEncoding.v
GoJson.v
ActionAbi.v
ActionAbiFacts.v
HostConfirmation.v
HostConfirmationFacts.v
JobTypes.v
JobSanitize.v
JobAction.v
JobJournal.v
JobCompaction.v
JobReceipts.v
JobStore.v
JobOps.v
JobActionOps.v
JobDemo.v
JobTypesFacts.v
JobSanitizeFacts.v
JobJournalFacts.v
JobEventsFacts.v
JobHistoryFacts.v
JobRecoveryFacts.v
JobReceiptsFacts.v
JobStoreFacts.v
JobCrashFacts.v
JobInvariants.v
JobServiceFacts.v
JobOpsFacts.v
GoNet.v
AuthOrigin.v
AuthTypes.v
AuthState.v
AuthStore.v
AuthFiles.v
AuthLocal.v
AuthBootstrap.v
AuthEnrollment.v
AuthProxy.v
AuthCapability.v
AuthCommit.v
AuthLogic.v
AuthOps.v
AuthDemo.v
AuthFilesFacts.v
AuthOpsFacts.v
AuthLocalFacts.v
AuthSessionFacts.v
AuthCapabilityFacts.v
AuthLive.v
AuthProtocol.v
AuthCommitFacts.v
HostLedger.v
HostLedgerLogic.v
HostLedgerFacts.v
HostLedgerLive.v
GoStrings.v
ConfigSchema.v
ConfigSchemaFacts.v
RunnerTypes.v
RunnerBind.v
RunnerSelect.v
RunnerOrder.v
RunnerSortFacts.v
RunnerSelectFacts.v
RunnerOrderFacts.v
RunnerResolve.v
RunnerScope.v
RunnerScopeFacts.v
ComputeNet.v
RuntimeIssues.v
ComputePorts.v
ComputePortsFacts.v
GoJsonFacts.v
AuditJournal.v
AuditFacts.v
AuditWriter.v
AuditWriterFacts.v
AuditClaims.v
