(* ===== verification/Prelude.v ===== *)
(** * ANAS durable control plane: a verification development

    ANAS (the repository under src/) is a NAS service launcher written in Go.
    Its management daemon records every privileged operation as a durable job;
    a root helper, anas-hostd, carries out the operations that change the host;
    a web console authenticates the people who ask for them; the runner decides
    which modules a deployment has, what each may read and write, and which host
    ports its compute leases get.  This library models the control plane and
    these decisions, and proves what keeps them safe when requests are repeated,
    files are torn, locks are lost and processes die.

    ** The parts and how they interact

    A request enters through the console, whose session, origin and step-up
    proof are checked by internal/consoleauth; how far the console may go is the
    capability state of internal/consolestate.  A host action is planned, and
    the plan is confirmed once through internal/hostconfirmation.  The job store
    internal/consolejobs accepts the request under an idempotency key, ties it
    to the confirmation, queues it against the other jobs of its workspace and
    records every step in an append-only journal.  The executor of an action
    speaks the frame protocol of internal/actionabi.  For a host action that
    executor is anas-hostd, internal/hostaction, which keeps its own ledger so
    that an invocation runs once and its outcome can be asked for later.

    What a job usually runs is the launcher itself, internal/runner.  It reads
    the module manifests and the configuration, whose values are checked by
    internal/configschema; resolves the modules, their order and the provider of
    each dependency; calls every module's calculate Hook and commits the answer;
    and freezes the networks of compute leases (internal/computenet), recording
    conditions for the operator in internal/runtimeissues.

    Console, deployments and jobs report what they did to the audit log,
    internal/audit, which any number of processes append to.

    ** Files and sources

    - Prelude (this file): results and Go notations, [uint64], tactics, the hint
      databases [go], [go_bool] and [go_maps], lemmas on lists and maps.
    - GoText (with regular expressions), GoEncoding (SHA-256, base64), GoJson,
      GoNet: what the program uses of Go's standard library, executable.
      GoJsonFacts: encoding and then parsing gives the value back.
    - ActionAbi, ActionAbiFacts: internal/actionabi (types.go, json.go, codec.go,
      stream.go, confirmation.go, module_cancellation.go).
    - HostConfirmation, HostConfirmationFacts: internal/hostconfirmation/store.go.
    - JobTypes, JobSanitize, JobAction, JobJournal, JobCompaction, JobReceipts,
      JobStore, JobOps, JobActionOps: internal/consolejobs, one file per group of
      source files, named in each header.  [storeState] is the replayed state,
      [Store] the open store with its cached state, journal file and gate.
    - JobDemo: concrete journals for examples and witnesses.
      JobTypesFacts, JobSanitizeFacts, JobJournalFacts, JobEventsFacts,
      JobHistoryFacts, JobRecoveryFacts, JobReceiptsFacts, JobStoreFacts,
      JobCrashFacts, JobInvariants, JobServiceFacts, JobOpsFacts: the theorems
      about jobs.
    - AuthOrigin, AuthTypes, AuthState, AuthStore, AuthFiles, AuthLocal,
      AuthBootstrap, AuthEnrollment, AuthProxy, AuthCommit: internal/consoleauth;
      AuthCapability: internal/consolestate.  [World] holds the state files, the
      journals, the capability state and the logs; an operation is a computation
      [M] over it.  AuthLogic, AuthOps, AuthLive, AuthProtocol are the proof
      rules; AuthDemo a console from first start to login; AuthFilesFacts,
      AuthOpsFacts, AuthLocalFacts, AuthSessionFacts,
      AuthCapabilityFacts, AuthCommitFacts the theorems.
    - HostLedger: internal/hostaction (registry.go, admission.go,
      invocation_ledger.go, invocation_ledger_linux.go and the release identity
      of installation.go).  HostLedgerLogic, HostLedgerFacts, HostLedgerLive: the
      proof rules, the theorems and concrete runs.
    - GoStrings: package strings on UTF-8 text.  ConfigSchema, ConfigSchemaFacts:
      internal/configschema (schema.go, json.go) and the formats of
      internal/localization.
    - RunnerTypes: the data of internal/runner and the key names of
      internal/config.  RunnerBind (envscope.go's sensitivity, config_cli.go,
      config_validate.go), RunnerSelect (capability.go, contracts.go,
      dynamicdns.go, provider choice in runner.go), RunnerOrder ([resolveOrder],
      [stableModuleOrder]), RunnerScope (envscope.go, secrets.go,
      credential_manifest.go, [calculate] after a Hook's answer, the identity
      checks of capability.go).  [Deployment] is what is read only, [App] the
      mutable fields of [app].  RunnerSortFacts, RunnerSelectFacts,
      RunnerOrderFacts, RunnerResolve, RunnerScopeFacts are the theorems; their
      modules [RunnerDemo] and [RunnerScopeDemo] hold a deployment of five
      modules.
    - ComputeNet (internal/computenet), RuntimeIssues (internal/runtimeissues),
      ComputePorts (runner/compute_network.go), with ComputePortsFacts.
    - AuditJournal: the records of internal/audit, their encoding and decoding,
      recovery, retention and checkpoints (journal.go, compaction.go) and the lock
      file (metadata.go).  AuditWriter: redact.go, writer.go and the file handling
      of the others.  [disk] is the shared directory, [Writer] the state of one
      process, [M] the computations of an operation, [system] the processes
      together.  AuditFacts: what recovery computes; AuditWriterFacts: the
      invariant [J] of the directory with its proof rules; AuditClaims: the
      theorems and concrete runs.

    ** How effects are modelled

    - Job store: explicit state passing.  The outcome of every commit, compaction,
      lock and clock reading is an argument, so a theorem about all histories is
      about all such outcomes.
    - Authentication: the class [Env] answers every question an operation asks of
      its surroundings (clock, randomness, file and audit calls) and may end the
      process at any question.  How a state file is replaced is modelled call by
      call in AuthFiles; that model refines the whole-file changes the
      operations use.
    - Host ledger: a process is a tree of system calls, and [step] lets any number
      of processes take turns, fail and die.  [happening]s record the history.
    - Audit log: a computation consumes one answer per system call, in the order
      of the code: success, failure, or the end of the process, and how many
      bytes of a write reached the file.  The directory knows which lines and
      which names are on stable storage; a loss of power keeps those and any
      part of the rest.  Operations run under the directory's exclusive lock, so
      those of different processes take turns as a whole.
    - Runner: a state and error monad that keeps the changes made before a
      failure.  The order in which a Go map is visited is an argument wherever
      the outcome could depend on it.
    - Host ports: the class [HostPorts] answers the questions of a run one by one.

    Parameters are the code outside the repository: Argon2id (class [Argon2], its
    key length), Unicode case and space tables (classes [UnicodeTables] and
    [CaseTables]), the regular expression compiler, time zone database, language
    tags and YAML decoder that parameter checks use (class [SchemaLibs], what is
    relied on in [SchemaLaws]), the operating system.  Go's JSON, SHA-256, base64, regular expressions, IP and
    URL parsing are definitions.

    ** What the theorems show

    - C2, C4, C15, C22, C25: what the audit log acknowledged stays readable
      through failures, crashes and losses of power; a writer never takes over a
      journal that lost or altered what it had; a query shows every acknowledged
      event; nothing under a sensitive key reaches the log; retention drops what
      it must.  One example shows an event that closes the writer.
    - C1: an executor's outcome is believed only on evidence.
    - C7, C8: a confirmation is issued, consumed and claimed once; lapsed
      approvals can exhaust the ledger for good.
    - C13, C14, C20, C21: the journal never rolls a job back, recovers exactly
      what was accepted, keeps event logs ordered and survives a crash at any
      point of a commit.
    - C16-C19: one mutating job per workspace, nothing forgotten, idempotent
      creation, single use of confirmations.
    - C26-C31: authentication states stay valid, a pending recovery blocks every
      operation, audit comes before effect, sessions and proofs live and die as
      documented.
    - C32-C37: both enrollment protocols are atomic under failure and death and
      recover, the capability state only advances, files change as a whole,
      stored passwords verify.
    - C38-C40: under every interleaving an invocation runs at most once and under
      its lock, the answer to a status query is backed by the history, and a
      finished invocation is reported.  Two interleavings show where the answer
      "lost" and the probe of a query go beyond their documentation.
    - C9: a configuration value that passes has the declared type.
    - C3, C10, C11, C24: resolving modules always ends; the order holds what was
      asked for with dependencies first; every provider binding is justified; the
      sort equals a greedy reference.
    - C6, C12: a secret reaches only its audience; a module's Hook takes over
      neither keys nor secrets of others.
    - C5, C23: host ports are distinct and within bounds, frozen networks replay,
      and applying again moves no port.  Two examples show ports that are not
      kept apart or not kept.

    ** Bounds and fuel

    Machine integers that the code lets wrap or overflow keep their width
    ([u64], Unix seconds, JSON numbers); lengths and limits are the source's
    constants.  Parsers of text take the length of their input as fuel and
    consume at least a byte per step; [drain] of ActionAbi takes any fuel and
    [drain_terminates] gives the amount that suffices.  Programs of the host
    ledger are finite trees.  The traversal and the second pass of module
    resolution have fuel for one more step than there are modules, which C3 shows
    is never used up; the sort has twice the number of modules, which C11 covers;
    [depClosure] has the number of recorded dependencies, and
    [depClosure_is_reachability] shows it exact.  A host port is drawn at most 64
    times, as in the code.

    ** Not modelled

    Goroutines and cancellation inside one process; directory opening and
    ownership checks, which are answers of the environment; in the job journal,
    the bytes torn writes leave other than a cut last line; the decoders of manifests, locks and configuration documents,
    which are YAML and whose library is outside the repository.  The rest of the
    program drives other programs and services: Hook processes, Docker, Incus,
    DNS servers, TLS and HTTP, file copies for backup and restore, package
    stores, web pages.  Its decisions depend on answers and file formats that the
    source does not define, so a model of it would be a list of assumptions.
    Modelled in part are the parts PROJECT.json marks so, with what is left out.

    This file is the prelude of the library.  It holds the notations, the
    tactics and the generic lemmas the component files share. *)

From Stdlib Require Import Ascii.
From Stdlib Require Export ZArith Lia.
From stdpp Require Export base numbers gmap strings list fin_maps sorting.

#[global] Open Scope Z_scope.

(** ** Fallible code

    A Go function that returns [(T, error)] is a function into [result E T];
    [E] is the error type of its package. *)

Inductive result (E A : Type) : Type :=
| Ok (a : A)
| Err (e : E).
Arguments Ok {E A} a.
Arguments Err {E A} e.

Definition result_bind {E A B} (c : result E A) (k : A -> result E B) : result E B :=
  match c with Ok a => k a | Err e => Err e end.

Definition is_ok {E A} (c : result E A) : bool :=
  match c with Ok _ => true | Err _ => false end.

Definition map_err {E F A} (f : E -> F) (c : result E A) : result F A :=
  match c with Ok a => Ok a | Err e => Err (f e) end.

Declare Scope go_scope.
Delimit Scope go_scope with go.
#[global] Open Scope go_scope.

(** [let? x := c in k] is Go's [x, err := c; if err != nil { return err }]. *)
Notation "'let?' x ':=' c 'in' k" := (result_bind c (fun x => k))
  (at level 10, x name, c at level 99, k at level 200) : go_scope.
Notation "'let?' ' p ':=' c 'in' k" := (result_bind c (fun x => match x with p => k end))
  (at level 10, p pattern, c at level 99, k at level 200) : go_scope.
Notation "'do!' c ';;' k" := (result_bind c (fun _ => k))
  (at level 10, c at level 99, k at level 200) : go_scope.
(** [reject b with e ;; k] is Go's [if b { return e }]. *)
Notation "'reject' b 'with' e ';;' k" := (if (b : bool) then Err e else k)
  (at level 10, b at level 99, e at level 99, k at level 200) : go_scope.

(** Go's [==] and [!=] on comparable values. *)
Notation "a ==? b" := (bool_decide (a = b)) (at level 70, no associativity) : go_scope.
Notation "a !=? b" := (negb (bool_decide (a = b))) (at level 70, no associativity) : go_scope.

(** ** Machine integers *)

(** Go's [uint64] arithmetic wraps around. *)
Definition u64_max : Z := 2 ^ 64 - 1.
Definition u64 (x : Z) : Z := x mod 2 ^ 64.
Definition u64_succ (x : Z) : Z := u64 (x + 1).
Definition is_u64 (x : Z) : Prop := 0 <= x <= u64_max.
Definition int64_max : Z := 2 ^ 63 - 1.

(** A map read that falls back to Go's zero value. *)
Definition Zat (m : gmap string Z) (k : string) : Z := default 0 (m !! k).
Definition listat {A} (m : gmap string (list A)) (k : string) : list A := default [] (m !! k).

Create HintDb go.
Create Rewrite HintDb go_bool.
Create Rewrite HintDb go_maps.

Lemma u64_succ_small x : is_u64 x -> x <> u64_max -> u64_succ x = x + 1.
Proof. unfold is_u64, u64_succ, u64, u64_max. intros H1 H2. apply Z.mod_small. lia. Qed.

Lemma u64_succ_max : u64_succ u64_max = 0.
Proof. reflexivity. Qed.

Lemma u64_range x : is_u64 (u64 x).
Proof.
  unfold is_u64, u64, u64_max.
  pose proof (Z.mod_pos_bound x (2 ^ 64) eq_refl). lia.
Qed.

Lemma u64_succ_range x : is_u64 (u64_succ x).
Proof. apply u64_range. Qed.

Lemma u64_succ_pos x : is_u64 x -> u64_succ x <> 0 -> u64_succ x = x + 1.
Proof.
  intros Hx Hn. destruct (decide (x = u64_max)) as [->|Hne].
  - by rewrite u64_succ_max in Hn.
  - by apply u64_succ_small.
Qed.

#[export] Hint Resolve u64_range u64_succ_range : go.

(** ** Boolean tests as propositions *)

#[export] Hint Rewrite
  andb_true_iff andb_false_iff orb_true_iff orb_false_iff negb_true_iff negb_false_iff
  Z.eqb_eq Z.eqb_neq Z.ltb_lt Z.ltb_ge Z.leb_le Z.leb_gt : go_bool.
#[export] Hint Rewrite bool_decide_eq_true bool_decide_eq_false : go_bool.

(** Turn every boolean test of the context into the proposition it decides. *)
Ltac breflect := autorewrite with go_bool in *.
Ltac breflect_in H := autorewrite with go_bool in H.

(** Decide the tests between two literal strings. *)
Ltac literal_test a b tac :=
  match a with String _ _ => idtac | EmptyString => idtac end;
  match b with String _ _ => idtac | EmptyString => idtac end;
  let v := eval vm_compute in (bool_decide (a = b)) in
  match v with true => idtac | false => idtac end; tac v.
Ltac literals :=
  repeat match goal with
  | H : context [@bool_decide (?a = ?b) ?d] |- _ =>
      literal_test a b ltac:(fun v => change (@bool_decide (a = b) d) with v in H; cbn iota in H)
  | |- context [@bool_decide (?a = ?b) ?d] =>
      literal_test a b ltac:(fun v => change (@bool_decide (a = b) d) with v; cbn iota)
  end.

(** Follow the successful path of a fallible computation: every rejection and
    every failing call in a hypothesis [_ = Ok _] is discharged. *)
Ltac ok_step H :=
  match type of H with
  | result_bind ?c _ = Ok _ =>
      let E := fresh "E" in destruct c eqn:E; cbn [result_bind] in H; [|discriminate H]
  | (if ?b then Err _ else _) = Ok _ =>
      let E := fresh "E" in destruct b eqn:E; [discriminate H|]
  | (if ?b then _ else Err _) = Ok _ =>
      let E := fresh "E" in destruct b eqn:E; [|discriminate H]
  | match ?c with _ => _ end = Ok _ =>
      let E := fresh "E" in destruct c eqn:E; try discriminate H
  end.
Ltac ok_path H := repeat (ok_step H; cbn [result_bind] in H); try (injection H as H).

Lemma result_bind_ok {E A B} (c : result E A) (k : A -> result E B) b :
  result_bind c k = Ok b <-> exists a, c = Ok a /\ k a = Ok b.
Proof. destruct c; cbn; naive_solver. Qed.

(** ** Maps *)

Lemma Zat_insert_eq m k v : Zat (<[k:=v]> m) k = v.
Proof. unfold Zat. by rewrite lookup_insert_eq. Qed.

Lemma Zat_insert_ne m k k' v : k <> k' -> Zat (<[k:=v]> m) k' = Zat m k'.
Proof. intros. unfold Zat. by rewrite lookup_insert_ne. Qed.

Lemma listat_insert_eq {A} (m : gmap string (list A)) k v : listat (<[k:=v]> m) k = v.
Proof. unfold listat. by rewrite lookup_insert_eq. Qed.

Lemma listat_insert_ne {A} (m : gmap string (list A)) k k' v :
  k <> k' -> listat (<[k:=v]> m) k' = listat m k'.
Proof. intros. unfold listat. by rewrite lookup_insert_ne. Qed.

#[export] Hint Rewrite Zat_insert_eq @listat_insert_eq : go_maps.

(** ** Folding a fallible step over a list *)

Fixpoint result_fold {E S A} (f : S -> A -> result E S) (s : S) (l : list A) : result E S :=
  match l with
  | [] => Ok s
  | a :: l' => let? s' := f s a in result_fold f s' l'
  end.

Lemma result_fold_app {E S A} (f : S -> A -> result E S) s l1 l2 :
  result_fold f s (l1 ++ l2) = (let? s' := result_fold f s l1 in result_fold f s' l2).
Proof.
  revert s. induction l1 as [|a l1 IH]; intros s; [done|]. cbn.
  destruct (f s a); cbn; [apply IH | done].
Qed.

Lemma result_fold_inv {E S A} (f : S -> A -> result E S) (P : S -> Prop) l :
  (forall s a s', P s -> f s a = Ok s' -> P s') ->
  forall s s', P s -> result_fold f s l = Ok s' -> P s'.
Proof.
  intros Hstep. induction l as [|a l IH]; intros s s' Hs H; cbn in H.
  - by simplify_eq.
  - ok_step H. eapply IH; [|exact H]. by eapply Hstep.
Qed.

(** Check every element, in order; the first failure is the answer. *)
Fixpoint check_all {E A} (f : A -> result E unit) (l : list A) : result E unit :=
  match l with
  | [] => Ok tt
  | a :: l' => do! f a ;; check_all f l'
  end.

Lemma check_all_ok {E A} (f : A -> result E unit) l :
  check_all f l = Ok tt <-> Forall (fun a => f a = Ok tt) l.
Proof.
  induction l as [|a l IH]; cbn; [by split|].
  rewrite Forall_cons. destruct (f a) as [[]|e]; cbn; [rewrite IH; tauto|].
  split; [discriminate|]. intros [H _]. discriminate H.
Qed.

(** ** [sort.Search]

    The binary search of package [sort]: the loop halves [i, j) until it is
    empty, so [n] rounds are enough. *)
Fixpoint search_loop (fuel i j : nat) (f : nat -> bool) : nat :=
  match fuel with
  | O => i
  | S k =>
      if (i <? j)%nat then
        let h := Nat.div2 (i + j) in
        if f h then search_loop k i h f else search_loop k (S h) j f
      else i
  end.
Definition Search (n : nat) (f : nat -> bool) : nat := search_loop n 0 n f.

(** On a predicate that is false below a bound and true from it on, the search
    finds the bound. *)
Lemma search_loop_spec f b : forall fuel i j,
  (j - i <= fuel)%nat -> (i <= b)%nat -> (b <= j)%nat ->
  (forall k, (k < b)%nat -> f k = false) -> (forall k, (b <= k < j)%nat -> f k = true) ->
  search_loop fuel i j f = b.
Proof.
  induction fuel as [|fuel IH]; intros i j Hf Hi Hj H0 H1; cbn [search_loop]; [lia|].
  destruct (i <? j)%nat eqn:Hlt; [apply Nat.ltb_lt in Hlt | apply Nat.ltb_ge in Hlt; lia].
  set (h := Nat.div2 (i + j)).
  assert (Hh : (i <= h < j)%nat).
  { unfold h. pose proof (Nat.div2_odd (i + j)) as Ho. destruct (Nat.odd (i + j)); cbn [Nat.b2n] in Ho; lia. }
  destruct (decide (h < b)%nat).
  - rewrite H0 by done. apply IH; auto; lia.
  - rewrite H1 by lia. apply IH; auto; try lia. intros k Hk. apply H1. lia.
Qed.

Lemma Search_spec n f b :
  (b <= n)%nat -> (forall k, (k < b)%nat -> f k = false) -> (forall k, (b <= k < n)%nat -> f k = true) -> Search n f = b.
Proof. intros. apply search_loop_spec; auto; lia. Qed.
