(* ===== verification/GoText.v ===== *)
(** * Go strings: bytes, UTF-8 and hexadecimal digits

    A Go [string] is a sequence of bytes, modelled by Rocq's [string] of
    [ascii].  This file models what the program uses of the packages
    [strings], [unicode/utf8] and [encoding/hex]. *)

From Stdlib Require Import Ascii.
From S2P Require Import Prelude.

(** ** Bytes *)

Definition byte_val (c : ascii) : Z := Z.of_N (N_of_ascii c).
Definition byte_chr (z : Z) : ascii := ascii_of_N (Z.to_N z).
Definition slen (s : string) : Z := Z.of_nat (String.length s).
Definition quote : ascii := "034"%char.
Definition newline : ascii := "010"%char.
Definition squote : string := String quote EmptyString.

Definition between (lo hi : Z) (c : ascii) : bool := (lo <=? byte_val c) && (byte_val c <=? hi).
Definition is_digit (c : ascii) : bool := between 48 57 c.
Definition is_lower (c : ascii) : bool := between 97 122 c.
Definition is_upper (c : ascii) : bool := between 65 90 c.
Definition is_hex_lower (c : ascii) : bool := is_digit c || between 97 102 c.
Definition is_word (c : ascii) : bool := is_digit c || is_lower c || is_upper c || (c ==? "_"%char).
Definition is_space (c : ascii) : bool := between 9 10 c || between 12 13 c || (c ==? " "%char).

Definition ascii_lower (c : ascii) : ascii := if is_upper c then byte_chr (byte_val c + 32) else c.
Definition ascii_upper (c : ascii) : ascii := if is_lower c then byte_chr (byte_val c - 32) else c.

Fixpoint smap (f : ascii -> ascii) (s : string) : string :=
  match s with EmptyString => EmptyString | String c s' => String (f c) (smap f s') end.

Fixpoint sall (p : ascii -> bool) (s : string) : bool :=
  match s with EmptyString => true | String c s' => p c && sall p s' end.
Lemma sall_app p s t : sall p (s +:+ t) = sall p s && sall p t.
Proof. induction s as [|a s IH]; [done|]. change (p a && sall p (s +:+ t) = p a && sall p s && sall p t). rewrite IH. by destruct (p a). Qed.

Fixpoint sany (p : ascii -> bool) (s : string) : bool :=
  match s with EmptyString => false | String c s' => p c || sany p s' end.

Fixpoint sdrop (n : nat) (s : string) : string :=
  match n, s with
  | S n', String _ s' => sdrop n' s'
  | _, _ => s
  end.

(** [strings.HasPrefix], [strings.CutPrefix], [strings.HasSuffix]. *)
Fixpoint HasPrefix (s p : string) : bool :=
  match p, s with
  | EmptyString, _ => true
  | String a p', String b s' => (a ==? b) && HasPrefix s' p'
  | _, _ => false
  end.

Definition CutPrefix (s p : string) : option string :=
  if HasPrefix s p then Some (sdrop (String.length p) s) else None.

Fixpoint Contains (s sub : string) : bool :=
  HasPrefix s sub || match s with EmptyString => false | String _ s' => Contains s' sub end.

Definition HasSuffix (s suf : string) : bool :=
  (slen suf <=? slen s) && (sdrop (String.length s - String.length suf) s ==? suf).

Definition TrimSuffix (s suf : string) : string :=
  if HasSuffix s suf then String.substring 0 (String.length s - String.length suf) s else s.

(** [strings.Cut] at a one-byte separator: text before and after its first
    occurrence. *)
Fixpoint CutAt (c : ascii) (s : string) : option (string * string) :=
  match s with
  | EmptyString => None
  | String a s' =>
      if a ==? c then Some (EmptyString, s')
      else match CutAt c s' with
           | Some (x, y) => Some (String a x, y)
           | None => None
           end
  end.

(** ** Lower-case hexadecimal, as [encoding/hex] prints it *)

Definition hex_digit (n : Z) : ascii := byte_chr (if n <? 10 then 48 + n else 87 + n).

Fixpoint hex_encode (bs : list Z) : string :=
  match bs with
  | [] => EmptyString
  | b :: bs' => String (hex_digit (b / 16)) (String (hex_digit (b mod 16)) (hex_encode bs'))
  end.

(** The pattern [^[0-9a-f]{64}$] of [hexDigestPattern]. *)
Definition hex64 (s : string) : bool := (slen s =? 64) && sall is_hex_lower s.

(** ** UTF-8, as [unicode/utf8] decodes it *)

Definition cont (c : ascii) : bool := between 128 191 c.
Definition rune_error : Z := 65533.

(** The rune at the front of a non-empty string and its width; an invalid
    encoding is [(RuneError, 1)]. *)
Definition DecodeRune (s : string) : Z * nat :=
  match s with
  | EmptyString => (rune_error, 0%nat)
  | String a s1 =>
      let b0 := byte_val a in
      if b0 <? 128 then (b0, 1%nat) else
      match s1 with
      | EmptyString => (rune_error, 1%nat)
      | String b s2 =>
          let b1 := byte_val b in
          if between 194 223 a && cont b then (Z.land b0 31 * 64 + Z.land b1 63, 2%nat) else
          match s2 with
          | EmptyString => (rune_error, 1%nat)
          | String c s3 =>
              let b2 := byte_val c in
              let lo := if b0 =? 224 then 160 else 128 in
              let hi := if b0 =? 237 then 159 else 191 in
              if between 224 239 a && between lo hi b && cont c
              then (Z.land b0 15 * 4096 + Z.land b1 63 * 64 + Z.land b2 63, 3%nat) else
              match s3 with
              | EmptyString => (rune_error, 1%nat)
              | String d _ =>
                  let b3 := byte_val d in
                  let lo4 := if b0 =? 240 then 144 else 128 in
                  let hi4 := if b0 =? 244 then 143 else 191 in
                  if between 240 244 a && between lo4 hi4 b && cont c && cont d
                  then (Z.land b0 7 * 262144 + Z.land b1 63 * 4096 + Z.land b2 63 * 64 + Z.land b3 63, 4%nat)
                  else (rune_error, 1%nat)
              end
          end
      end
  end.

(** An invalid encoding at the front of [s]. *)
Definition invalid_front (s : string) : bool :=
  match s with
  | EmptyString => false
  | String a _ => (128 <=? byte_val a) && (snd (DecodeRune s) =? 1)%nat
  end.

Fixpoint valid_from (skip : nat) (s : string) : bool :=
  match s with
  | EmptyString => true
  | String _ s' =>
      match skip with
      | S k => valid_from k s'
      | O => if invalid_front s then false else valid_from (snd (DecodeRune s) - 1) s'
      end
  end.
Definition ValidString (s : string) : bool := valid_from 0 s.

(** The runes a [for range] loop over a string visits. *)
Fixpoint runes_from (skip : nat) (s : string) : list Z :=
  match s with
  | EmptyString => []
  | String _ s' =>
      match skip with
      | S k => runes_from k s'
      | O => fst (DecodeRune s) :: runes_from (snd (DecodeRune s) - 1) s'
      end
  end.
Definition runes (s : string) : list Z := runes_from 0 s.

Definition replacement : string := String "239"%char (String "191"%char (String "189"%char EmptyString)).

(** [strings.ToValidUTF8(s, RuneError)]: every run of invalid bytes becomes
    one replacement character. *)
Fixpoint to_valid (skip : nat) (inv : bool) (s : string) : string :=
  match s with
  | EmptyString => EmptyString
  | String a s' =>
      match skip with
      | S k => String a (to_valid k false s')
      | O =>
          if invalid_front s
          then (if inv then EmptyString else replacement) +:+ to_valid 0 true s'
          else String a (to_valid (snd (DecodeRune s) - 1) false s')
      end
  end.
Definition ToValidUTF8 (s : string) : string := to_valid 0 false s.

(** [unicode.IsControl]: the C0 and C1 ranges and DEL. *)
Definition IsControl (r : Z) : bool := (r <? 32) || ((127 <=? r) && (r <? 160)).

(** [unicode.IsSpace]. *)
Definition IsSpace (r : Z) : bool :=
  ((9 <=? r) && (r <=? 13)) || (r =? 32) || (r =? 133) || (r =? 160) || (r =? 5760) || ((8192 <=? r) && (r <=? 8202)) ||
  (r =? 8232) || (r =? 8233) || (r =? 8239) || (r =? 8287) || (r =? 12288).

(** [strings.TrimSpace(s) == s]: no space rune at either end. *)
Definition trimmed (s : string) : bool :=
  match runes s with
  | [] => true
  | r :: rs => negb (IsSpace r) && negb (IsSpace (List.last rs r))
  end.

(** The generated tables of package [unicode]: which non-ASCII runes are
    letters or decimal digits, and which are their own simple upper case.
    Every theorem holds for any such tables. *)
Class UnicodeTables := {
  uni_letter_or_digit : Z -> bool;
  uni_is_upper : Z -> bool
}.

(** ** Byte order of strings and [sort.Strings] *)

Fixpoint sleb (a b : string) : bool :=
  match a, b with
  | EmptyString, _ => true
  | String _ _, EmptyString => false
  | String x a', String y b' =>
      (byte_val x <? byte_val y) || ((byte_val x =? byte_val y) && sleb a' b')
  end.
Definition sltb (a b : string) : bool := sleb a b && (a !=? b).
Definition sle (a b : string) : Prop := sleb a b = true.
#[export] Instance sle_dec : RelDecision sle := fun a b => decide (sleb a b = true).
Definition SortStrings (l : list string) : list string := merge_sort sle l.

Lemma byte_val_inj a b : byte_val a = byte_val b -> a = b.
Proof.
  unfold byte_val. intros H%N2Z.inj. rewrite <- (ascii_N_embedding a), <- (ascii_N_embedding b).
  by rewrite H.
Qed.

Lemma sleb_refl a : sleb a a = true.
Proof. induction a as [|x a IH]; cbn; [done|]. rewrite Z.ltb_irrefl, Z.eqb_refl, IH. done. Qed.

#[export] Instance sle_preorder : PreOrder sle.
Proof.
  split; [exact sleb_refl|]. unfold sle.
  intros a; induction a as [|x a IH]; intros [|y b] [|z c]; cbn; try done.
  rewrite !orb_true_iff, !andb_true_iff, !Z.ltb_lt, !Z.eqb_eq.
  intros [?|[??]] [?|[??]]; first [by left; lia | right; split; [lia|eauto]].
Qed.

#[export] Instance sle_total : Total sle.
Proof.
  unfold sle. intros a; induction a as [|x a IH]; intros [|y b]; cbn; auto.
  rewrite !orb_true_iff, !andb_true_iff, !Z.ltb_lt, !Z.eqb_eq.
  destruct (IH b), (Z.lt_trichotomy (byte_val x) (byte_val y)) as [|[]]; eauto 6 with lia.
Qed.

#[export] Instance sle_antisymm : AntiSymm eq sle.
Proof.
  unfold sle. intros a; induction a as [|x a IH]; intros [|y b]; cbn; try done.
  rewrite !orb_true_iff, !andb_true_iff, !Z.ltb_lt, !Z.eqb_eq.
  intros [?|[Hx ?]] [?|[Hy ?]]; try lia. f_equal; [by apply byte_val_inj | by apply IH].
Qed.

Lemma SortStrings_perm l : SortStrings l ≡ₚ l.
Proof. apply merge_sort_Permutation. Qed.

Lemma SortStrings_sorted l : StronglySorted sle (SortStrings l).
Proof. apply Sorted_StronglySorted; [apply _|]. apply Sorted_merge_sort. apply _. Qed.

Lemma elem_of_SortStrings x l : x ∈ SortStrings l <-> x ∈ l.
Proof. by rewrite SortStrings_perm. Qed.

(** ** Regular expressions

    The syntax covers the operators of the program's patterns.  Matching works
    on bytes: every pattern of the program only tests ASCII bytes or the
    complement of a set of ASCII bytes, so on valid UTF-8 the byte positions
    of a match are the rune positions package [regexp] computes. *)

Inductive re : Type :=
| REps
| RClass (p : ascii -> bool)
| RSeq (r1 r2 : re)
| RAlt (r1 r2 : re)
| RStar (r : re)
| RBound
| RGroup (i : nat) (r : re).

(** A position: the byte before it, the text after it, and the captures. *)
Record pos := mkPos {
  p_prev : option ascii;
  p_rest : string;
  p_caps : list (nat * string)
}.

Definition word_opt (c : option ascii) : bool := match c with Some a => is_word a | None => false end.
Definition head_opt (s : string) : option ascii := match s with String a _ => Some a | EmptyString => None end.

(** The text between a position and a later one. *)
Definition consumed (s t : pos) : string :=
  String.substring 0 (String.length (p_rest s) - String.length (p_rest t)) (p_rest s).

(** Try the alternatives in the order the pattern prefers them; [k] is the
    rest of the pattern.  A starred group only repeats after consuming text,
    so the length of the remaining text bounds its iterations. *)
Fixpoint match_at (r : re) (s : pos) (k : pos -> option pos) : option pos :=
  match r with
  | REps => k s
  | RClass p =>
      match p_rest s with
      | String a rest => if p a then k (mkPos (Some a) rest (p_caps s)) else None
      | EmptyString => None
      end
  | RSeq r1 r2 => match_at r1 s (fun t => match_at r2 t k)
  | RAlt r1 r2 => match match_at r1 s k with Some t => Some t | None => match_at r2 s k end
  | RStar r1 =>
      (fix loop (n : nat) (s : pos) : option pos :=
         match n with
         | O => k s
         | S n' =>
             match match_at r1 s (fun t =>
               if (String.length (p_rest t) <? String.length (p_rest s))%nat then loop n' t else None) with
             | Some t => Some t
             | None => k s
             end
         end) (String.length (p_rest s)) s
  | RBound =>
      if xorb (word_opt (p_prev s)) (word_opt (head_opt (p_rest s))) then k s else None
  | RGroup i r1 =>
      match_at r1 s (fun t => k (mkPos (p_prev t) (p_rest t) ((i, consumed s t) :: p_caps t)))
  end.

Definition cap (i : nat) (t : pos) : string :=
  match List.find (fun c => (fst c =? i)%nat) (p_caps t) with Some (_, x) => x | None => EmptyString end.

Fixpoint last_byte (prev : option ascii) (s : string) : option ascii :=
  match s with EmptyString => prev | String a s' => last_byte (Some a) s' end.

(** [ReplaceAllStringFunc]: replace the successive non-overlapping leftmost
    matches; [rep] sees the matched text and the captures. *)
Fixpoint replace_from (r : re) (rep : string -> pos -> string) (skip : nat) (prev : option ascii) (s : string) : string :=
  match s with
  | EmptyString => EmptyString
  | String a s' =>
      match skip with
      | S n => replace_from r rep n (Some a) s'
      | O =>
          let here := mkPos prev s [] in
          match match_at r here Some with
          | Some t =>
              let m := consumed here t in
              match m with
              | EmptyString => String a (replace_from r rep 0 (Some a) s')
              | String _ m' => rep m t +:+ replace_from r rep (String.length m') (Some a) s'
              end
          | None => String a (replace_from r rep 0 (Some a) s')
          end
      end
  end.
Definition ReplaceAll (r : re) (rep : string -> pos -> string) (s : string) : string :=
  replace_from r rep 0 None s.

(** ** Pattern syntax *)

Definition RPlus (r : re) : re := RSeq r (RStar r).
Definition ROpt (r : re) : re := RAlt r REps.

Fixpoint RLit (s : string) : re :=
  match s with
  | EmptyString => REps
  | String a s' => RSeq (RClass (fun c => c ==? a)) (RLit s')
  end.

(** One letter under the flag [i]: both cases, and the two non-ASCII runes
    whose simple folding is an ASCII letter (U+017F for s, U+212A for k). *)
Definition long_s : string := String "197"%char (String "191"%char EmptyString).
Definition kelvin : string := String "226"%char (String "132"%char (String "170"%char EmptyString)).

Definition RFold (a : ascii) : re :=
  let both := RClass (fun c => ascii_lower c ==? a) in
  if a ==? "s"%char then RAlt both (RLit long_s)
  else if a ==? "k"%char then RAlt both (RLit kelvin)
  else both.

(** A literal under the flag [i], written in lower case. *)
Fixpoint RLitFold (s : string) : re :=
  match s with
  | EmptyString => REps
  | String a s' => RSeq (RFold a) (RLitFold s')
  end.

(** A class that contains a-z, under the flag [i]. *)
Definition RClassFold (p : ascii -> bool) : re :=
  RAlt (RClass (fun c => p (ascii_lower c))) (RAlt (RLit long_s) (RLit kelvin)).

Fixpoint RAlts (l : list re) : re :=
  match l with
  | [] => RClass (fun _ => false)
  | [r] => r
  | r :: l' => RAlt r (RAlts l')
  end.

Definition one_of (s : string) (c : ascii) : bool := sany (fun a => a ==? c) s.
