(* ===== verification/GoEncoding.v ===== *)
(** * Package [crypto/sha256]

    The compression function on 32-bit words kept as [Z], and
    [hex.EncodeToString(sha256.Sum256(body))], which the program uses for every
    digest it stores. *)

From Stdlib Require Import Ascii.
From S2P Require Import Prelude GoText.

Definition w32 (x : Z) : Z := Z.land x 4294967295.
Definition add32 (x y : Z) : Z := w32 (x + y).
Definition rotr (n x : Z) : Z := Z.lor (Z.shiftr x n) (w32 (Z.shiftl x (32 - n))).

Definition sha_k : list Z :=
  [1116352408; 1899447441; 3049323471; 3921009573; 961987163; 1508970993; 2453635748; 2870763221;
   3624381080; 310598401; 607225278; 1426881987; 1925078388; 2162078206; 2614888103; 3248222580;
   3835390401; 4022224774; 264347078; 604807628; 770255983; 1249150122; 1555081692; 1996064986;
   2554220882; 2821834349; 2952996808; 3210313671; 3336571891; 3584528711; 113926993; 338241895;
   666307205; 773529912; 1294757372; 1396182291; 1695183700; 1986661051; 2177026350; 2456956037;
   2730485921; 2820302411; 3259730800; 3345764771; 3516065817; 3600352804; 4094571909; 275423344;
   430227734; 506948616; 659060556; 883997877; 958139571; 1322822218; 1537002063; 1747873779;
   1955562222; 2024104815; 2227730452; 2361852424; 2428436474; 2756734187; 3204031479; 3329325298].

Definition sha_h0 : list Z :=
  [1779033703; 3144134277; 1013904242; 2773480762; 1359893119; 2600822924; 528734635; 1541459225].

Definition small_sigma0 (x : Z) : Z := Z.lxor (Z.lxor (rotr 7 x) (rotr 18 x)) (Z.shiftr x 3).
Definition small_sigma1 (x : Z) : Z := Z.lxor (Z.lxor (rotr 17 x) (rotr 19 x)) (Z.shiftr x 10).
Definition big_sigma0 (x : Z) : Z := Z.lxor (Z.lxor (rotr 2 x) (rotr 13 x)) (rotr 22 x).
Definition big_sigma1 (x : Z) : Z := Z.lxor (Z.lxor (rotr 6 x) (rotr 11 x)) (rotr 25 x).
Definition sha_ch (x y z : Z) : Z := Z.lxor (Z.land x y) (Z.land (w32 (Z.lnot x)) z).
Definition sha_maj (x y z : Z) : Z := Z.lxor (Z.lxor (Z.land x y) (Z.land x z)) (Z.land y z).

(** The message schedule: the words computed so far, latest first. *)
Fixpoint sha_extend (n : nat) (w : list Z) : list Z :=
  match n with
  | O => w
  | S n' =>
      let t := add32 (add32 (small_sigma1 (nth 1 w 0)) (nth 6 w 0)) (add32 (small_sigma0 (nth 14 w 0)) (nth 15 w 0)) in
      sha_extend n' (t :: w)
  end.

Definition sha_round (v : list Z) (kw : Z * Z) : list Z :=
  match v with
  | [a; b; c; d; e; f; g; h] =>
      let t1 := add32 (add32 (add32 h (big_sigma1 e)) (add32 (sha_ch e f g) (fst kw))) (snd kw) in
      let t2 := add32 (big_sigma0 a) (sha_maj a b c) in
      [add32 t1 t2; a; b; c; add32 d t1; e; f; g]
  | _ => v
  end.

Definition sha_block (h : list Z) (m : list Z) : list Z :=
  let w := rev (sha_extend 48 (rev m)) in
  let v := fold_left sha_round (zip sha_k w) h in
  zip_with add32 h v.

Fixpoint be_words (n : nat) (bs : list Z) : list Z :=
  match n, bs with
  | S n', a :: b :: c :: d :: rest => (((a * 256 + b) * 256 + c) * 256 + d) :: be_words n' rest
  | _, _ => []
  end.

Fixpoint sha_blocks (n : nat) (h : list Z) (bs : list Z) : list Z :=
  match n with
  | O => h
  | S n' => sha_blocks n' (sha_block h (be_words 16 (take 64 bs))) (drop 64 bs)
  end.

Definition be_bytes (n : nat) (x : Z) : list Z :=
  map (fun i => Z.land (Z.shiftr x (8 * Z.of_nat i)) 255) (rev (seq 0 n)).

Definition sha_pad (bs : list Z) : list Z :=
  let len := Z.of_nat (length bs) in
  let zeros := (55 - len) mod 64 in
  bs ++ [128] ++ replicate (Z.to_nat zeros) 0 ++ be_bytes 8 (len * 8).

Fixpoint string_bytes (s : string) : list Z :=
  match s with EmptyString => [] | String a s' => byte_val a :: string_bytes s' end.

Definition Sum256 (bs : list Z) : list Z :=
  let p := sha_pad bs in
  sha_blocks (length p / 64) sha_h0 p ≫= be_bytes 4.

(** [hex.EncodeToString(sha256.Sum256([]byte(s)))]. *)
Definition sha256_hex (s : string) : string := hex_encode (Sum256 (string_bytes s)).
#[global] Arguments sha256_hex : simpl never.

(** ** The digest is always 64 lower-case hexadecimal digits *)

Lemma sha_round_length v kw : length (sha_round v kw) = length v.
Proof. unfold sha_round. repeat (case_match; try done). Qed.

Lemma sha_rounds_length l v : length (fold_left sha_round l v) = length v.
Proof. revert v. induction l as [|kw l IH]; intros v; cbn; [done|]. by rewrite IH, sha_round_length. Qed.

Lemma sha_block_length h m : length (sha_block h m) = length h.
Proof. unfold sha_block. rewrite length_zip_with, sha_rounds_length. lia. Qed.

Lemma sha_blocks_length n h bs : length (sha_blocks n h bs) = length h.
Proof. revert h bs. induction n as [|n IH]; intros; cbn; [done|]. by rewrite IH, sha_block_length. Qed.

Lemma be_bytes_length n x : length (be_bytes n x) = n.
Proof. unfold be_bytes. by rewrite length_map, length_rev, length_seq. Qed.

Lemma be_bytes_range n x : Forall (fun b => 0 <= b < 256) (be_bytes n x).
Proof.
  unfold be_bytes. apply Forall_forall. intros b [i [-> _]]%list_elem_of_fmap.
  change 255 with (Z.ones 8). rewrite Z.land_ones by lia. apply Z.mod_pos_bound. lia.
Qed.

Lemma hex_encode_length bs : slen (hex_encode bs) = 2 * Z.of_nat (length bs).
Proof. unfold slen. induction bs as [|b bs IH]; [done|]. cbn [hex_encode String.length length]. lia. Qed.

Lemma hex_digit_ok n : 0 <= n < 16 -> is_hex_lower (hex_digit n) = true.
Proof.
  intros H. assert (Hall : Forall (fun k => is_hex_lower (hex_digit (Z.of_nat k)) = true) (seq 0 16)) by (repeat constructor).
  rewrite Forall_forall in Hall. rewrite <- (Z2Nat.id n) by lia. apply Hall, elem_of_seq. lia.
Qed.

Lemma hex_encode_digits bs :
  Forall (fun b => 0 <= b < 256) bs -> sall is_hex_lower (hex_encode bs) = true.
Proof.
  induction 1 as [|b bs Hb _ IH]; [done|]. cbn.
  rewrite IH, !hex_digit_ok; [done| |].
  - apply Z.mod_pos_bound. lia.
  - split; [apply Z.div_pos; lia | apply Z.div_lt_upper_bound; lia].
Qed.

Lemma mbind_be_bytes_length n (l : list Z) : length (l ≫= be_bytes n) = (length l * n)%nat.
Proof.
  induction l as [|x l IH]; [done|]. rewrite bind_cons, length_app, be_bytes_length, IH. cbn. lia.
Qed.

Lemma sha256_hex_hex64 s : hex64 (sha256_hex s) = true.
Proof.
  unfold hex64, sha256_hex, Sum256. rewrite andb_true_iff, Z.eqb_eq. split.
  - rewrite hex_encode_length, mbind_be_bytes_length, sha_blocks_length. done.
  - apply hex_encode_digits, Forall_forall. intros b [x [Hb _]]%list_elem_of_bind.
    exact (proj1 (Forall_forall _ _) (be_bytes_range 4 x) b Hb).
Qed.
#[export] Hint Resolve sha256_hex_hex64 : go.

Example sha256_abc :
  sha256_hex "abc" = "ba7816bf8f01cfea414140de5dae2223b00361a396177a9cb410ff61f20015ad".
Proof. vm_compute. reflexivity. Qed.

Example sha256_empty :
  sha256_hex "" = "e3b0c44298fc1c149afbf4c8996fb92427ae41e4649b934ca495991b7852b855".
Proof. vm_compute. reflexivity. Qed.

(** ** Base64

    The URL-safe alphabet of [base64.RawURLEncoding], the standard alphabet of
    [base64.RawStdEncoding], and the strict decoder of the latter. *)

Definition b64_char (n : Z) : ascii :=
  byte_chr (if n <? 26 then 65 + n else if n <? 52 then 71 + n else if n <? 62 then n - 4
            else if n =? 62 then 45 else 95).
Definition b64std_char (n : Z) : ascii :=
  byte_chr (if n <? 26 then 65 + n else if n <? 52 then 71 + n else if n <? 62 then n - 4
            else if n =? 62 then 43 else 47).

Fixpoint b64_encode_with (ch : Z -> ascii) (bs : list Z) : string :=
  match bs with
  | a :: b :: c :: rest =>
      String (ch (a / 4)) (String (ch ((a mod 4) * 16 + b / 16))
        (String (ch ((b mod 16) * 4 + c / 64)) (String (ch (c mod 64)) (b64_encode_with ch rest))))
  | [a; b] =>
      String (ch (a / 4)) (String (ch ((a mod 4) * 16 + b / 16))
        (String (ch ((b mod 16) * 4)) EmptyString))
  | [a] => String (ch (a / 4)) (String (ch ((a mod 4) * 16)) EmptyString)
  | [] => EmptyString
  end.

(** [base64.RawURLEncoding.EncodeToString] and its standard counterpart. *)
Definition b64_encode : list Z -> string := b64_encode_with b64_char.
Definition b64std_encode : list Z -> string := b64_encode_with b64std_char.

(** The decoder skips line breaks. *)
Fixpoint strip_breaks (s : string) : string :=
  match s with
  | EmptyString => EmptyString
  | String a s' => if (a ==? newline) || (a ==? "013"%char) then strip_breaks s' else String a (strip_breaks s')
  end.

Definition b64std_val (c : ascii) : option Z :=
  if is_upper c then Some (byte_val c - 65)
  else if is_lower c then Some (byte_val c - 71)
  else if is_digit c then Some (byte_val c + 4)
  else if c ==? "+"%char then Some 62
  else if c ==? "/"%char then Some 63
  else None.

(** Whole quanta of four characters give three bytes; two or three characters
    at the end give one or two, and their unused bits must be zero. *)
Fixpoint b64std_quanta (s : string) : option (list Z) :=
  match s with
  | EmptyString => Some []
  | String a (String b EmptyString) =>
      match b64std_val a, b64std_val b with
      | Some a, Some b => if b mod 16 =? 0 then Some [a * 4 + b / 16] else None
      | _, _ => None
      end
  | String a (String b (String c EmptyString)) =>
      match b64std_val a, b64std_val b, b64std_val c with
      | Some a, Some b, Some c =>
          if c mod 4 =? 0 then Some [a * 4 + b / 16; (b mod 16) * 16 + c / 4] else None
      | _, _, _ => None
      end
  | String a (String b (String c (String d r))) =>
      match b64std_val a, b64std_val b, b64std_val c, b64std_val d, b64std_quanta r with
      | Some a, Some b, Some c, Some d, Some l =>
          Some (a * 4 + b / 16 :: (b mod 16) * 16 + c / 4 :: (c mod 4) * 64 + d :: l)
      | _, _, _, _, _ => None
      end
  | _ => None
  end.

(** [base64.RawStdEncoding.Strict().DecodeString]. *)
Definition b64std_decode (s : string) : option (list Z) := b64std_quanta (strip_breaks s).

(** ** What encoding yields *)

Definition is_byte (b : Z) : Prop := 0 <= b < 256.

Lemma b64_quotients a b c :
  is_byte a -> is_byte b -> is_byte c ->
  0 <= a / 4 < 64 /\ 0 <= (a mod 4) * 16 + b / 16 < 64 /\ 0 <= (b mod 16) * 4 + c / 64 < 64 /\ 0 <= c mod 64 < 64 /\
  0 <= (a mod 4) * 16 < 64 /\ 0 <= (b mod 16) * 4 < 64.
Proof.
  unfold is_byte. intros.
  pose proof (Z.mod_pos_bound a 4 eq_refl). pose proof (Z.mod_pos_bound b 16 eq_refl).
  pose proof (Z.mod_pos_bound c 64 eq_refl).
  assert (0 <= a / 4 < 64) by (split; [apply Z.div_pos | apply Z.div_lt_upper_bound]; lia).
  assert (0 <= b / 16 < 16) by (split; [apply Z.div_pos | apply Z.div_lt_upper_bound]; lia).
  assert (0 <= c / 64 < 4) by (split; [apply Z.div_pos | apply Z.div_lt_upper_bound]; lia).
  lia.
Qed.

(** Every character of an encoding is the image of a 6-bit number. *)
Lemma b64_encode_chars ch (P : ascii -> bool) bs :
  (forall n, 0 <= n < 64 -> P (ch n) = true) -> Forall is_byte bs -> sall P (b64_encode_with ch bs) = true.
Proof.
  intros HP. remember (length bs) as n eqn:Hn. revert bs Hn.
  induction (lt_wf n) as [n _ IH]. intros bs -> Hb.
  destruct bs as [|a [|b [|c bs]]]; [done| | |]; decompose_Forall_hyps; cbn [b64_encode_with sall].
  - destruct (b64_quotients a a a) as (? & ? & ? & ? & ? & ?); [done..|]. by rewrite !HP by lia.
  - destruct (b64_quotients a b b) as (? & ? & ? & ? & ? & ?); [done..|]. by rewrite !HP by lia.
  - destruct (b64_quotients a b c) as (? & ? & ? & ? & ? & ?); [done..|]. rewrite !HP by lia. cbn.
    eapply IH; [|done|done]. cbn. lia.
Qed.

Lemma below_64 (P : Z -> Prop) : Forall (fun k => P (Z.of_nat k)) (seq 0 64) -> forall n, 0 <= n < 64 -> P n.
Proof.
  intros H n Hn. rewrite <- (Z2Nat.id n) by lia. rewrite Forall_forall in H. apply H, elem_of_seq. lia.
Qed.

Lemma b64std_val_char n : 0 <= n < 64 -> b64std_val (b64std_char n) = Some n.
Proof. revert n. apply below_64. repeat constructor. Qed.

Definition no_break (c : ascii) : bool := (c !=? newline) && (c !=? "013"%char).

Lemma strip_breaks_id s : sall no_break s = true -> strip_breaks s = s.
Proof.
  induction s as [|a s IH]; [done|]. cbn. unfold no_break at 1. intros [[H1 H2]%andb_true_iff H3]%andb_true_iff.
  apply negb_true_iff in H1, H2. rewrite H1, H2. cbn. by rewrite IH.
Qed.

(** ** Round trip *)

Lemma b64_join a b c :
  is_byte a -> is_byte b -> is_byte c ->
  a / 4 * 4 + ((a mod 4) * 16 + b / 16) / 16 = a /\
  (((a mod 4) * 16 + b / 16) mod 16) * 16 + ((b mod 16) * 4 + c / 64) / 4 = b /\
  (((b mod 16) * 4 + c / 64) mod 4) * 64 + c mod 64 = c /\
  a / 4 * 4 + ((a mod 4) * 16) / 16 = a /\
  (((a mod 4) * 16 + b / 16) mod 16) * 16 + ((b mod 16) * 4) / 4 = b.
Proof. unfold is_byte. intros. repeat split; Z.to_euclidean_division_equations; lia. Qed.

Lemma b64std_quanta_encode bs : Forall is_byte bs -> b64std_quanta (b64std_encode bs) = Some bs.
Proof.
  unfold b64std_encode. remember (length bs) as n eqn:Hn. revert bs Hn.
  induction (lt_wf n) as [n _ IH]. intros bs -> Hb.
  destruct bs as [|a [|b [|c bs]]]; [done| | |]; decompose_Forall_hyps; cbn [b64_encode_with b64std_quanta].
  - destruct (b64_quotients a a a) as (? & ? & ? & ? & ? & ?); [done..|].
    destruct (b64_join a a a) as (? & ? & ? & J1 & ?); [done..|].
    rewrite !b64std_val_char by lia. rewrite J1, Z.mod_mul by lia. done.
  - destruct (b64_quotients a b b) as (? & ? & ? & ? & ? & ?); [done..|].
    destruct (b64_join a b b) as (J1 & ? & ? & ? & J2); [done..|].
    rewrite !b64std_val_char by lia. rewrite J1, J2, Z.mod_mul by lia. done.
  - destruct (b64_quotients a b c) as (? & ? & ? & ? & ? & ?); [done..|].
    destruct (b64_join a b c) as (J1 & J2 & J3 & ? & ?); [done..|].
    rewrite !b64std_val_char by lia. rewrite (IH (length bs)) by (cbn; done || lia). by rewrite J1, J2, J3.
Qed.

Lemma b64std_chars (P : ascii -> bool) bs :
  Forall (fun k => P (b64std_char (Z.of_nat k)) = true) (seq 0 64) -> Forall is_byte bs -> sall P (b64std_encode bs) = true.
Proof. intros H. apply b64_encode_chars. by apply below_64. Qed.

(** The strict decoder inverts the encoder on every byte sequence. *)
Lemma b64std_decode_encode bs : Forall is_byte bs -> b64std_decode (b64std_encode bs) = Some bs.
Proof.
  intros Hb. unfold b64std_decode. rewrite strip_breaks_id; [by apply b64std_quanta_encode|].
  apply b64std_chars; [repeat constructor | done].
Qed.
