(* ===== verification/GoJson.v ===== *)
(** * Package [encoding/json] and the time encoding it uses

    JSON values as the decoder with [UseNumber] yields them (numbers keep their
    literal), the encoder [json.Marshal] with its HTML escaping, a parser of
    JSON texts, and the RFC 3339 form of [time.Time].  A Go [map[string]any] is
    an object whose keys are strictly sorted, the order in which the encoder
    prints it; equality of such values is [reflect.DeepEqual]. *)

From Stdlib Require Import Ascii.
From S2P Require Import Prelude GoText.

Inductive json : Type :=
| JNull
| JBool (b : bool)
| JNumber (lit : string)
| JString (s : string)
| JArray (l : list json)
| JObject (m : list (string * json)).

(** A [map[string]any] variable: [None] is the nil map. *)
Abbreviation payload := (option (list (string * json))).

(** ** Induction and decidable equality *)

Section JsonInd.
Context (P : json -> Prop).
Context (Hnull : P JNull) (Hbool : forall b, P (JBool b)) (Hnum : forall s, P (JNumber s)).
Context (Hstr : forall s, P (JString s)) (Harr : forall l, Forall P l -> P (JArray l)).
Context (Hobj : forall m, Forall (fun kv => P (snd kv)) m -> P (JObject m)).

Fixpoint json_ind' (v : json) : P v :=
  match v with
  | JNull => Hnull
  | JBool b => Hbool b
  | JNumber s => Hnum s
  | JString s => Hstr s
  | JArray l =>
      Harr l ((fix go (l : list json) : Forall P l :=
        match l with
        | [] => @List.Forall_nil _ P
        | x :: l' => @List.Forall_cons _ P x l' (json_ind' x) (go l')
        end) l)
  | JObject m =>
      Hobj m ((fix go (m : list (string * json)) : Forall (fun kv => P (snd kv)) m :=
        match m with
        | [] => @List.Forall_nil _ _
        | x :: m' => @List.Forall_cons _ (fun kv => P (snd kv)) x m' (json_ind' (snd x)) (go m')
        end) m)
  end.
End JsonInd.

Fixpoint json_eqb (a b : json) : bool :=
  match a, b with
  | JNull, JNull => true
  | JBool x, JBool y => Bool.eqb x y
  | JNumber x, JNumber y => x ==? y
  | JString x, JString y => x ==? y
  | JArray l, JArray l' =>
      (fix go (l l' : list json) : bool :=
         match l, l' with
         | [], [] => true
         | x :: l, y :: l' => json_eqb x y && go l l'
         | _, _ => false
         end) l l'
  | JObject m, JObject m' =>
      (fix go (m m' : list (string * json)) : bool :=
         match m, m' with
         | [], [] => true
         | (k, x) :: m, (k', y) :: m' => (k ==? k') && json_eqb x y && go m m'
         | _, _ => false
         end) m m'
  | _, _ => false
  end.

Lemma json_eqb_eq a b : json_eqb a b = true <-> a = b.
Proof.
  revert b. induction a as [|x|x|x|l IH|m IH] using json_ind'; intros b; destruct b as [|y|y|y|l'|m'];
    cbn; try (split; [discriminate|congruence]); try (split; congruence).
  - rewrite Bool.eqb_true_iff. split; congruence.
  - breflect. split; congruence.
  - breflect. split; congruence.
  - transitivity (l = l'); [|split; congruence].
    revert l'. induction IH as [|x l Hx _ IHl]; intros [|y l']; try (split; congruence).
    rewrite andb_true_iff, Hx, IHl. split; [intros [-> ->]; done | intros [= -> ->]; done].
  - transitivity (m = m'); [|split; congruence].
    revert m'. induction IH as [|[k x] m Hx _ IHm]; intros [|[k' y] m']; try (split; congruence).
    cbn in Hx. rewrite !andb_true_iff, bool_decide_eq_true, Hx, IHm.
    split; [intros [[-> ->] ->]; done | intros [= -> -> ->]; done].
Qed.

#[export] Instance json_eq_dec : EqDecision json.
Proof.
  intros a b. destruct (json_eqb a b) eqn:E.
  - left. by apply json_eqb_eq.
  - right. intros H. apply json_eqb_eq in H. congruence.
Defined.

(** ** Objects as sorted association lists *)

Fixpoint obj_get (k : string) (m : list (string * json)) : option json :=
  match m with
  | [] => None
  | (k', v) :: m' => if k ==? k' then Some v else obj_get k m'
  end.

(** [m[k] = v] on a sorted object. *)
Fixpoint obj_set (k : string) (v : json) (m : list (string * json)) : list (string * json) :=
  match m with
  | [] => [(k, v)]
  | (k', v') :: m' =>
      if k ==? k' then (k, v) :: m'
      else if sleb k k' then (k, v) :: (k', v') :: m'
      else (k', v') :: obj_set k v m'
  end.

Definition pget (k : string) (p : payload) : option json := p ≫= obj_get k.

(** [x, _ := m[k].(string)]: the zero value unless the entry is a string. *)
Definition pget_string (k : string) (p : payload) : string :=
  match pget k p with Some (JString s) => s | _ => EmptyString end.

(** A decoded object: later duplicates win, keys end up sorted. *)
Fixpoint jcanon (v : json) : json :=
  match v with
  | JArray l => JArray (map jcanon l)
  | JObject m =>
      JObject ((fix go (m : list (string * json)) (acc : list (string * json)) : list (string * json) :=
        match m with
        | [] => acc
        | (k, x) :: m' => go m' (obj_set k (jcanon x) acc)
        end) m [])
  | _ => v
  end.

(** ** Encoding *)

Definition hex2 (z : Z) : string := String (hex_digit (z / 16)) (String (hex_digit (z mod 16)) EmptyString).

Definition esc_byte (a : ascii) : string :=
  let z := byte_val a in
  if (z =? 34) || (z =? 92) then String "\" (String a EmptyString)
  else if z =? 8 then "\b" else if z =? 12 then "\f" else if z =? 10 then "\n"
  else if z =? 13 then "\r" else if z =? 9 then "\t"
  else if (z <? 32) || (z =? 60) || (z =? 62) || (z =? 38) then "\u00" +:+ hex2 z
  else String a EmptyString.

(** The body of an encoded string.  Invalid UTF-8 becomes an escaped
    replacement character; U+2028 and U+2029 are escaped. *)
Fixpoint enc_chars (skip : nat) (keep : bool) (s : string) : string :=
  match s with
  | EmptyString => EmptyString
  | String a s' =>
      match skip with
      | S k => if keep then String a (enc_chars k keep s') else enc_chars k keep s'
      | O =>
          if byte_val a <? 128 then esc_byte a +:+ enc_chars 0 true s'
          else if invalid_front s then "\ufffd" +:+ enc_chars 0 true s'
          else
            let '(r, w) := DecodeRune s in
            if r =? 8232 then "\u2028" +:+ enc_chars (w - 1) false s'
            else if r =? 8233 then "\u2029" +:+ enc_chars (w - 1) false s'
            else String a (enc_chars (w - 1) true s')
      end
  end.
Definition enc_string (s : string) : string := String quote (enc_chars 0 true s +:+ String quote EmptyString).

Fixpoint join (sep : string) (l : list string) : string :=
  match l with
  | [] => EmptyString
  | [x] => x
  | x :: l' => x +:+ sep +:+ join sep l'
  end.

Fixpoint marshal (v : json) : string :=
  match v with
  | JNull => "null"
  | JBool true => "true"
  | JBool false => "false"
  | JNumber lit => lit
  | JString s => enc_string s
  | JArray l => "[" +:+ join "," (map marshal l) +:+ "]"
  | JObject m => "{" +:+ join "," (map (fun kv => enc_string (fst kv) +:+ ":" +:+ marshal (snd kv)) m) +:+ "}"
  end.

Definition marshal_payload (p : payload) : string :=
  match p with Some m => marshal (JObject m) | None => "null" end.

(** A struct: its fields in declaration order, each already encoded; a field
    left out by [omitempty] is [None]. *)
Definition enc_struct (fields : list (option (string * string))) : string :=
  "{" +:+ join "," (omap (fun f => match f with
    | Some (k, v) => Some (enc_string k +:+ ":" +:+ v)
    | None => None
    end) fields) +:+ "}".
Definition fld (k v : string) : option (string * string) := Some (k, v).

(** Decimal digits, as [strconv] prints an integer. *)
Fixpoint dec_aux (fuel : nat) (n : Z) (acc : string) : string :=
  match fuel with
  | O => acc
  | S f =>
      let acc' := String (byte_chr (48 + n mod 10)) acc in
      if n <? 10 then acc' else dec_aux f (n / 10) acc'
  end.
Definition enc_int (n : Z) : string :=
  if n <? 0 then "-" +:+ dec_aux 25 (- n) EmptyString else dec_aux 25 n EmptyString.

(** ** Parsing *)

Definition is_ws (c : ascii) : bool := (c ==? " "%char) || (c ==? "009"%char) || (c ==? "010"%char) || (c ==? "013"%char).

Fixpoint skip_ws (s : string) : string :=
  match s with
  | String a s' => if is_ws a then skip_ws s' else s
  | EmptyString => EmptyString
  end.

Definition hex_value (c : ascii) : option Z :=
  if is_digit c then Some (byte_val c - 48)
  else if between 97 102 c then Some (byte_val c - 87)
  else if between 65 70 c then Some (byte_val c - 55)
  else None.

Definition hex4 (s : string) : option (Z * string) :=
  match s with
  | String a (String b (String c (String d rest))) =>
      match hex_value a, hex_value b, hex_value c, hex_value d with
      | Some w, Some x, Some y, Some z => Some (((w * 16 + x) * 16 + y) * 16 + z, rest)
      | _, _, _, _ => None
      end
  | _ => None
  end.

Definition enc_rune (r : Z) : string :=
  if r <? 128 then String (byte_chr r) EmptyString
  else if r <? 2048 then
    String (byte_chr (192 + r / 64)) (String (byte_chr (128 + r mod 64)) EmptyString)
  else if r <? 65536 then
    String (byte_chr (224 + r / 4096)) (String (byte_chr (128 + (r / 64) mod 64))
      (String (byte_chr (128 + r mod 64)) EmptyString))
  else
    String (byte_chr (240 + r / 262144)) (String (byte_chr (128 + (r / 4096) mod 64))
      (String (byte_chr (128 + (r / 64) mod 64)) (String (byte_chr (128 + r mod 64)) EmptyString))).

Definition surrogate (r : Z) : bool := (55296 <=? r) && (r <? 57344).

(** The rest of a string literal after its opening quote. *)
Fixpoint parse_chars (fuel : nat) (s : string) : option (string * string) :=
  match fuel with
  | O => None
  | S f =>
      let more (pre : string) (rest : string) :=
        match parse_chars f rest with Some (x, r) => Some (pre +:+ x, r) | None => None end in
      match s with
      | EmptyString => None
      | String a s1 =>
          if a ==? quote then Some (EmptyString, s1)
          else if byte_val a <? 32 then None
          else if a ==? "\"%char then
            match s1 with
            | EmptyString => None
            | String e s2 =>
                if (e ==? quote) || (e ==? "\"%char) || (e ==? "/"%char) then more (String e EmptyString) s2
                else if e ==? "b"%char then more (String "008"%char EmptyString) s2
                else if e ==? "f"%char then more (String "012"%char EmptyString) s2
                else if e ==? "n"%char then more (String "010"%char EmptyString) s2
                else if e ==? "r"%char then more (String "013"%char EmptyString) s2
                else if e ==? "t"%char then more (String "009"%char EmptyString) s2
                else if e ==? "u"%char then
                  match hex4 s2 with
                  | None => None
                  | Some (hi, s3) =>
                      if surrogate hi then
                        match s3 with
                        | String "\" (String "u" s4) =>
                            match hex4 s4 with
                            | Some (lo, s5) =>
                                if (hi <? 56320) && (56320 <=? lo) && (lo <? 57344)
                                then more (enc_rune ((hi - 55296) * 1024 + (lo - 56320) + 65536)) s5
                                else more replacement s3
                            | None => more replacement s3
                            end
                        | _ => more replacement s3
                        end
                      else more (enc_rune hi) s3
                  end
                else None
            end
          else if invalid_front s then more replacement s1
          else
            let w := snd (DecodeRune s) in
            more (String.substring 0 w s) (sdrop w s)
      end
  end.

Fixpoint span (p : ascii -> bool) (s : string) : string * string :=
  match s with
  | String a s' => if p a then let '(x, r) := span p s' in (String a x, r) else (EmptyString, s)
  | EmptyString => (EmptyString, EmptyString)
  end.

(** A JSON number literal and the text after it. *)
Definition parse_number (s : string) : option (string * string) :=
  let '(sign, s1) := match s with String "-" r => ("-", r) | _ => (EmptyString, s) end in
  match s1 with
  | EmptyString => None
  | String a r =>
      let int_part :=
        if a ==? "0"%char then Some ("0", r)
        else if is_digit a then Some (span is_digit s1) else None in
      match int_part with
      | None => None
      | Some (i, s2) =>
          let frac :=
            match s2 with
            | String "." r2 => let '(d, r3) := span is_digit r2 in
                if d ==? EmptyString then None else Some ("." +:+ d, r3)
            | _ => Some (EmptyString, s2)
            end in
          match frac with
          | None => None
          | Some (fr, s3) =>
              match s3 with
              | String e r3 =>
                  if (e ==? "e"%char) || (e ==? "E"%char) then
                    let '(sg, r4) := match r3 with
                      | String "+" r' => ("+", r') | String "-" r' => ("-", r') | _ => (EmptyString, r3) end in
                    let '(d, r5) := span is_digit r4 in
                    if d ==? EmptyString then None
                    else Some (sign +:+ i +:+ fr +:+ String e (sg +:+ d), r5)
                  else Some (sign +:+ i +:+ fr, s3)
              | EmptyString => Some (sign +:+ i +:+ fr, s3)
              end
          end
      end
  end.

(** One value and the text after it.  Every recursive call consumes a byte,
    so the length of the text is enough fuel. *)
Fixpoint parse_value (fuel : nat) (s0 : string) : option (json * string) :=
  match fuel with
  | O => None
  | S f =>
      let s := skip_ws s0 in
      match s with
      | EmptyString => None
      | String a s1 =>
          if a ==? "{"%char then
            match skip_ws s1 with
            | String "}" r => Some (JObject [], r)
            | _ =>
                (fix members (n : nat) (s : string) (acc : list (string * json)) : option (json * string) :=
                   match n with
                   | O => None
                   | S n' =>
                       match skip_ws s with
                       | String q r =>
                           if q ==? quote then
                             match parse_chars f r with
                             | Some (k, r1) =>
                                 match skip_ws r1 with
                                 | String ":" r2 =>
                                     match parse_value f r2 with
                                     | Some (v, r3) =>
                                         match skip_ws r3 with
                                         | String "," r4 => members n' r4 (acc ++ [(k, v)])
                                         | String "}" r4 => Some (JObject (acc ++ [(k, v)]), r4)
                                         | _ => None
                                         end
                                     | None => None
                                     end
                                 | _ => None
                                 end
                             | None => None
                             end
                           else None
                       | EmptyString => None
                       end
                   end) f s1 []
            end
          else if a ==? "["%char then
            match skip_ws s1 with
            | String "]" r => Some (JArray [], r)
            | _ =>
                (fix items (n : nat) (s : string) (acc : list json) : option (json * string) :=
                   match n with
                   | O => None
                   | S n' =>
                       match parse_value f s with
                       | Some (v, r) =>
                           match skip_ws r with
                           | String "," r' => items n' r' (acc ++ [v])
                           | String "]" r' => Some (JArray (acc ++ [v]), r')
                           | _ => None
                           end
                       | None => None
                       end
                   end) f s1 []
            end
          else if a ==? quote then
            match parse_chars f s1 with Some (x, r) => Some (JString x, r) | None => None end
          else match CutPrefix s "null" with Some r => Some (JNull, r) | None =>
          match CutPrefix s "true" with Some r => Some (JBool true, r) | None =>
          match CutPrefix s "false" with Some r => Some (JBool false, r) | None =>
          match parse_number s with Some (l, r) => Some (JNumber l, r) | None => None end end end end
      end
  end.

(** A complete text: one value, then only white space. *)
Definition parse (s : string) : option json :=
  match parse_value (S (String.length s)) s with
  | Some (v, r) => if skip_ws r ==? EmptyString then Some v else None
  | None => None
  end.

(** ** [time.Time]

    An instant is the number of nanoseconds since the zero value of
    [time.Time] (year 1); [IsZero] is equality with 0.  All stored times are
    in UTC. *)

Definition ns_per_s : Z := 1000000000.
Definition minute_ns : Z := 60 * ns_per_s.
Definition hour_ns : Z := 3600 * ns_per_s.

(** Calendar date of a day number (day 0 is 0001-01-01). *)
Definition civil (days : Z) : Z * Z * Z :=
  let z := days + 306 in
  let era := z / 146097 in
  let doe := z mod 146097 in
  let yoe := (doe - doe / 1460 + doe / 36524 - doe / 146096) / 365 in
  let doy := doe - (365 * yoe + yoe / 4 - yoe / 100) in
  let mp := (5 * doy + 2) / 153 in
  let d := doy - (153 * mp + 2) / 5 + 1 in
  let m := if mp <? 10 then mp + 3 else mp - 9 in
  (yoe + era * 400 + (if m <=? 2 then 1 else 0), m, d).

Fixpoint pad_dec (width : nat) (n : Z) : string :=
  match width with
  | O => EmptyString
  | S w => pad_dec w (n / 10) +:+ String (byte_chr (48 + n mod 10)) EmptyString
  end.

Fixpoint trim_zeros (n : nat) (width : nat) (x : Z) : string :=
  match n with
  | O => pad_dec width x
  | S n' => if x mod 10 =? 0 then trim_zeros n' (width - 1) (x / 10) else pad_dec width x
  end.

(** The layout [time.RFC3339Nano] in UTC. *)
Definition format_rfc3339 (t : Z) : string :=
  let secs := t / ns_per_s in
  let ns := t mod ns_per_s in
  let '(y, m, d) := civil (secs / 86400) in
  let sod := secs mod 86400 in
  pad_dec 4 y +:+ "-" +:+ pad_dec 2 m +:+ "-" +:+ pad_dec 2 d +:+ "T" +:+
  pad_dec 2 (sod / 3600) +:+ ":" +:+ pad_dec 2 ((sod / 60) mod 60) +:+ ":" +:+ pad_dec 2 (sod mod 60) +:+
  (if ns =? 0 then EmptyString else "." +:+ trim_zeros 8 9 ns) +:+ "Z".
Definition enc_time (t : Z) : string := enc_string (format_rfc3339 t).

(** [time.Parse(time.RFC3339Nano, s)]: date, time, an optional fraction of any
    length of which nine digits count, and Z or a numeric offset. *)
Definition digit_value (c : ascii) : option Z := if is_digit c then Some (byte_val c - 48) else None.

(** Exactly [n] digits. *)
Fixpoint take_digits (n : nat) (acc : Z) (s : string) : option (Z * string) :=
  match n with
  | O => Some (acc, s)
  | S k => match s with
           | String c s' => d ← digit_value c; take_digits k (10 * acc + d) s'
           | EmptyString => None
           end
  end.
Definition take_char (c : ascii) (s : string) : option string :=
  match s with String a s' => if a ==? c then Some s' else None | EmptyString => None end.

(** The value of the first [n] digits of a fraction, scaled, and its length. *)
Fixpoint fraction (n : nat) (scale : Z) (s : string) : Z :=
  match n, s with
  | S k, String c s' => (byte_val c - 48) * scale + fraction k (scale / 10) s'
  | _, _ => 0
  end.

Definition leap (y : Z) : bool := (y mod 4 =? 0) && (negb (y mod 100 =? 0) || (y mod 400 =? 0)).
Definition days_in (y m : Z) : Z :=
  if m =? 2 then (if leap y then 29 else 28) else if (m =? 4) || (m =? 6) || (m =? 9) || (m =? 11) then 30 else 31.

(** The day number of a date (day 0 is 0001-01-01). *)
Definition days_from_civil (y m d : Z) : Z :=
  let y' := if m <=? 2 then y - 1 else y in
  let era := y' / 400 in
  let yoe := y' mod 400 in
  let mp := (m + 9) mod 12 in
  let doy := (153 * mp + 2) / 5 + d - 1 in
  era * 146097 + yoe * 365 + yoe / 4 - yoe / 100 + doy - 306.

Definition parse_rfc3339 (s : string) : option Z :=
  '(y, s) ← take_digits 4 0 s; s ← take_char "-" s; '(mo, s) ← take_digits 2 0 s; s ← take_char "-" s;
  '(d, s) ← take_digits 2 0 s; s ← take_char "T" s; '(h, s) ← take_digits 2 0 s; s ← take_char ":" s;
  '(mi, s) ← take_digits 2 0 s; s ← take_char ":" s; '(sec, s) ← take_digits 2 0 s;
  let '(ns, s) :=
    match s with
    | String c s' =>
        if (c ==? "."%char) || (c ==? ","%char) then
          let '(digits, rest) := span is_digit s' in
          if digits ==? "" then (0, s) else (fraction 9 100000000 digits, rest)
        else (0, s)
    | EmptyString => (0, s)
    end in
  off ← match s with
        | String c rest =>
            if c ==? "Z"%char then (if rest ==? "" then Some 0 else None)
            else if (c ==? "+"%char) || (c ==? "-"%char) then
              '(oh, r) ← take_digits 2 0 rest; r ← take_char ":" r; '(om, r) ← take_digits 2 0 r;
              if (r ==? "") && (oh <=? 24) && (om <=? 60)
              then Some ((if c ==? "-"%char then -1 else 1) * (oh * 3600 + om * 60)) else None
            else None
        | EmptyString => None
        end;
  if (1 <=? mo) && (mo <=? 12) && (1 <=? d) && (d <=? days_in y mo) && (h <? 24) && (mi <? 60) && (sec <? 60)
  then Some ((days_from_civil y mo d * 86400 + h * 3600 + mi * 60 + sec - off) * ns_per_s + ns) else None.

Example parse_time_ex : parse_rfc3339 "2024-02-29T12:34:56.12Z" = Some ((62135596800 + 1709210096) * ns_per_s + 120000000).
Proof. vm_compute. reflexivity. Qed.
Example parse_time_offset : parse_rfc3339 "1970-01-01T02:00:00+02:00" = Some (62135596800 * ns_per_s).
Proof. vm_compute. reflexivity. Qed.

Example format_epoch : format_rfc3339 (62135596800 * ns_per_s) = "1970-01-01T00:00:00Z".
Proof. vm_compute. reflexivity. Qed.
Example format_leap : format_rfc3339 ((62135596800 + 1709210096) * ns_per_s + 120000000) = "2024-02-29T12:34:56.12Z".
Proof. vm_compute. reflexivity. Qed.

Example marshal_html : marshal (JObject [("a<b", JString ("x" +:+ squote +:+ "&"))]) =
  "{" +:+ squote +:+ "a\u003cb" +:+ squote +:+ ":" +:+ squote +:+ "x\" +:+ squote +:+ "\u0026" +:+ squote +:+ "}".
Proof. vm_compute. reflexivity. Qed.
Example parse_marshal_ex :
  let v := JObject [("a", JArray [JNumber "-1.5e3"; JNull; JBool true]); ("b<", JString ("q" +:+ squote))] in
  parse (marshal v) = Some v.
Proof. vm_compute. reflexivity. Qed.
