(* ===== verification/ActionAbi.v ===== *)
(** * Package [internal/actionabi]: executor frames, streams and confirmations

    The bounded [anas.action/v1] protocol between the daemon and an action
    executor: requests, events, their validation, the strict JSON codec, the
    stream validator and the confirmation binding. *)

From Stdlib Require Import Ascii.
From S2P Require Import Prelude GoText GoJson GoEncoding.

Definition Version : string := "anas.action/v1".
Definition MaxFrameBytes : Z := 65536.
Definition MaxObjectBytes : Z := 32768.

Inductive abi_err := ErrProtocol | ErrUnknownOutcome | ErrConfirmation | ErrEOF.
#[export] Instance abi_err_eq_dec : EqDecision abi_err.
Proof. solve_decision. Defined.

(** ** Data (types.go) *)

Record Request := mkRequest {
  req_ABI : string;
  req_JobID : string;
  req_InvocationID : string;
  req_Action : string;
  req_Parameters : string (* json.RawMessage *)
}.

(** [Outcome] is a string type with four named values; the zero value [""]
    means that there is no outcome yet. *)
Inductive Outcome := NoOutcome | Succeeded | Failed | Cancelled | Unknown | OtherOutcome (s : string).
#[export] Instance Outcome_eq_dec : EqDecision Outcome.
Proof. solve_decision. Defined.

Definition outcome_string (o : Outcome) : string :=
  match o with
  | NoOutcome => "" | Succeeded => "succeeded" | Failed => "failed"
  | Cancelled => "cancelled" | Unknown => "unknown" | OtherOutcome s => s
  end.
Definition outcome_of (s : string) : Outcome :=
  if s ==? "" then NoOutcome else if s ==? "succeeded" then Succeeded
  else if s ==? "failed" then Failed else if s ==? "cancelled" then Cancelled
  else if s ==? "unknown" then Unknown else OtherOutcome s.

Record Progress := mkProgress {
  pr_Phase : string;
  pr_Current : option Z;
  pr_Total : option Z;
  pr_TotalEstimated : option Z;
  pr_Unit : string
}.
Record Warning := mkWarning { wn_Code : string; wn_Message : string }.
Record Result := mkResult {
  rs_Outcome : Outcome;
  rs_Changed : option bool;
  rs_Value : string (* json.RawMessage; empty when absent *)
}.
Record Failure := mkFailure { fl_Outcome : Outcome; fl_Code : string; fl_Message : string }.
Record Truncated := mkTruncated { tr_FromSeq : Z; tr_ThroughSeq : Z }.

Record AEvent := mkAEvent {
  ae_ABI : string;
  ae_JobID : string;
  ae_InvocationID : string;
  ae_Seq : Z;
  ae_Type : string;
  ae_Progress : option Progress;
  ae_Warning : option Warning;
  ae_Result : option Result;
  ae_Error : option Failure;
  ae_Truncated : option Truncated
}.

#[export] Instance Progress_eq_dec : EqDecision Progress. Proof. solve_decision. Defined.
#[export] Instance Warning_eq_dec : EqDecision Warning. Proof. solve_decision. Defined.
#[export] Instance Result_eq_dec : EqDecision Result. Proof. solve_decision. Defined.
#[export] Instance Failure_eq_dec : EqDecision Failure. Proof. solve_decision. Defined.
#[export] Instance Truncated_eq_dec : EqDecision Truncated. Proof. solve_decision. Defined.
#[export] Instance AEvent_eq_dec : EqDecision AEvent. Proof. solve_decision. Defined.

Definition ae_with_Seq (e : AEvent) (seq : Z) : AEvent :=
  mkAEvent (ae_ABI e) (ae_JobID e) (ae_InvocationID e) seq (ae_Type e)
    (ae_Progress e) (ae_Warning e) (ae_Result e) (ae_Error e) (ae_Truncated e).

(** ** Identifiers (types.go) *)

Definition alnum (c : ascii) : bool := is_digit c || is_lower c || is_upper c.
Definition opaque_char (c : ascii) : bool :=
  alnum c || (c ==? "."%char) || (c ==? "_"%char) || (c ==? ":"%char) || (c ==? "-"%char).
Definition label_char (c : ascii) : bool := is_lower c || is_digit c || (c ==? "_"%char) || (c ==? "-"%char).

(** [^[A-Za-z0-9][A-Za-z0-9._:-]{0,127}$] *)
Definition opaqueID (s : string) : bool :=
  match s with
  | String a r => alnum a && sall opaque_char r && (slen r <=? 127)
  | EmptyString => false
  end.

(** [^[a-z][a-z0-9_-]{0,62}$] *)
Definition labelID (s : string) : bool :=
  match s with
  | String a r => is_lower a && sall label_char r && (slen r <=? 62)
  | EmptyString => false
  end.

(** Dot-separated segments, each a lower-case letter followed by lower-case
    letters, digits, underscores and dashes; [start] holds at the first byte of
    a segment. *)
Fixpoint action_from (start : bool) (s : string) : bool :=
  match s with
  | EmptyString => negb start
  | String a r =>
      if start then is_lower a && action_from false r
      else if a ==? "."%char then action_from true r
      else label_char a && action_from false r
  end.
Definition actionID (s : string) : bool := action_from true s.

Definition validMessage (m : string) : bool :=
  (1 <=? slen m) && (slen m <=? 4096) && ValidString m && forallb (fun r => negb (IsControl r)) (runes m).

(** ** Strict JSON (json.go) *)

(** [uniqueJSONValue]: no object has a duplicate key and no value lies deeper
    than 16 levels. *)
Fixpoint unique_value (depth : nat) (v : json) : bool :=
  (depth <=? 16)%nat &&
  match v with
  | JArray l => forallb (unique_value (S depth)) l
  | JObject m => bool_decide (NoDup (map fst m)) && forallb (fun kv => unique_value (S depth) (snd kv)) m
  | _ => true
  end.

Definition boundedObject (raw : string) : bool :=
  (1 <=? slen raw) && (slen raw <=? MaxObjectBytes) && ValidString raw &&
  match parse raw with
  | Some v => unique_value 0 v && match v with JObject _ => true | _ => false end
  | None => false
  end.

(** The members of an object text with the raw text of every value. *)
Fixpoint raw_members (n : nat) (fuel : nat) (s : string) (acc : list (string * (string * json)))
  : option (list (string * (string * json)) * string) :=
  match n with
  | O => None
  | S n' =>
      match skip_ws s with
      | String q r =>
          if q ==? quote then
            match parse_chars fuel r with
            | Some (k, r1) =>
                match skip_ws r1 with
                | String ":" r2 =>
                    let r2 := skip_ws r2 in
                    match parse_value fuel r2 with
                    | Some (v, r3) =>
                        let raw := String.substring 0 (String.length r2 - String.length r3) r2 in
                        match skip_ws r3 with
                        | String "," r4 => raw_members n' fuel r4 (acc ++ [(k, (raw, v))])
                        | String "}" r4 => Some (acc ++ [(k, (raw, v))], r4)
                        | _ => None
                        end
                    | None => None
                    end
                | _ => None
                end
            | None => None
            end
          else None
      | EmptyString => None
      end
  end.

Abbreviation members := (list (string * (string * json))).

Definition object_members (s : string) : option members :=
  match skip_ws s with
  | String "{" r =>
      match skip_ws r with
      | String "}" r' => if skip_ws r' ==? EmptyString then Some [] else None
      | _ =>
          match raw_members (S (String.length s)) (S (String.length s)) r [] with
          | Some (m, r') => if skip_ws r' ==? EmptyString then Some m else None
          | None => None
          end
      end
  | _ => None
  end.

Fixpoint member (k : string) (m : members) : option (string * json) :=
  match m with
  | [] => None
  | (k', v) :: m' => if k ==? k' then Some v else member k m'
  end.

(** [exactShape] at one struct: the required fields are present, every member
    is a known field, and no field is an explicit null. *)
Definition shape (required optional : list string) (m : members) : bool :=
  forallb (fun k => match member k m with Some _ => true | None => false end) required &&
  forallb (fun kv => bool_decide (fst kv ∈ required ++ optional) && (snd (snd kv) !=? JNull)) m.

Definition get_string (k : string) (m : members) : option string :=
  match member k m with
  | Some (_, JString s) => Some s
  | Some _ => None
  | None => Some EmptyString
  end.

(** A decimal literal as [strconv.ParseUint] reads it into a uint64. *)
Fixpoint dec_value (acc : Z) (s : string) : option Z :=
  match s with
  | EmptyString => Some acc
  | String a s' => if is_digit a then dec_value (acc * 10 + (byte_val a - 48)) s' else None
  end.
Definition parse_uint64 (lit : string) : option Z :=
  match lit with
  | EmptyString => None
  | _ => match dec_value 0 lit with
         | Some z => if z <=? u64_max then Some z else None
         | None => None
         end
  end.

(** An optional uint64 field: absent is [Some None]. *)
Definition get_uint (k : string) (m : members) : option (option Z) :=
  match member k m with
  | Some (_, JNumber l) => match parse_uint64 l with Some z => Some (Some z) | None => None end
  | Some _ => None
  | None => Some None
  end.

(** The raw text of an object-valued field; other values are refused by
    [exactShape]. *)
Definition get_raw_object (k : string) (m : members) : option (option string) :=
  match member k m with
  | Some (raw, JObject _) => Some (Some raw)
  | Some _ => None
  | None => Some None
  end.

(** ** Validation (types.go) *)

Definition request_validate (r : Request) : result abi_err unit :=
  reject (req_ABI r !=? Version) || negb (opaqueID (req_JobID r)) || negb (opaqueID (req_InvocationID r)) ||
         (128 <? slen (req_Action r)) || negb (actionID (req_Action r)) || negb (boundedObject (req_Parameters r))
    with ErrProtocol ;;
  Ok tt.

Definition present {A} (o : option A) : bool := match o with Some _ => true | None => false end.
Definition count_true (l : list bool) : Z := Z.of_nat (length (filter (fun b : bool => b = true) l)).

Definition validate_progress (p : Progress) : bool :=
  labelID (pr_Phase p) && negb (present (pr_Total p) && present (pr_TotalEstimated p)) &&
  match pr_Current p with
  | None => negb (present (pr_Total p)) && negb (present (pr_TotalEstimated p)) && (pr_Unit p ==? "")
  | Some c => labelID (pr_Unit p) && match pr_Total p with Some t => c <=? t | None => true end
  end.

Definition validate_result (r : Result) : bool :=
  match rs_Outcome r with
  | Succeeded => present (rs_Changed r) && boundedObject (rs_Value r)
  | Cancelled => negb (present (rs_Changed r)) && (rs_Value r ==? "")
  | _ => false
  end.

Definition validate_error (f : Failure) : bool :=
  ((fl_Outcome f ==? Failed) || (fl_Outcome f ==? Unknown)) && labelID (fl_Code f) && validMessage (fl_Message f).

Definition validate_truncated (seq : Z) (t : Truncated) : bool :=
  (tr_FromSeq t !=? 0) && (tr_FromSeq t <=? tr_ThroughSeq t) && (tr_ThroughSeq t !=? u64_max) &&
  (seq ==? u64_succ (tr_ThroughSeq t)).

Definition event_validate (e : AEvent) : result abi_err unit :=
  reject (ae_ABI e !=? Version) || negb (opaqueID (ae_JobID e)) || negb (opaqueID (ae_InvocationID e))
    with ErrProtocol ;;
  reject count_true [present (ae_Progress e); present (ae_Warning e); present (ae_Result e);
                     present (ae_Error e); present (ae_Truncated e)] !=? 1
    with ErrProtocol ;;
  let ok :=
    if ae_Type e ==? "progress" then match ae_Progress e with Some p => validate_progress p | None => false end
    else if ae_Type e ==? "warning" then
      match ae_Warning e with Some w => labelID (wn_Code w) && validMessage (wn_Message w) | None => false end
    else if ae_Type e ==? "result" then match ae_Result e with Some r => validate_result r | None => false end
    else if ae_Type e ==? "error" then match ae_Error e with Some f => validate_error f | None => false end
    else if ae_Type e ==? "truncated" then
      match ae_Truncated e with Some t => validate_truncated (ae_Seq e) t | None => false end
    else false in
  if ok then Ok tt else Err ErrProtocol.

(** ** Encoding a frame (codec.go) *)

(** The encoder compacts a [RawMessage]: white space outside strings goes, and
    the HTML characters and U+2028/U+2029 are escaped. *)
Fixpoint compact (skip : nat) (keep instr esc : bool) (s : string) : string :=
  match s with
  | EmptyString => EmptyString
  | String a s' =>
      match skip with
      | S k => if keep then String a (compact k keep instr esc s') else compact k keep instr esc s'
      | O =>
          let z := byte_val a in
          let instr' := if instr then (if esc then true else negb (a ==? quote)) else (a ==? quote) in
          let esc' := instr && negb esc && (a ==? "\"%char) in
          if negb instr && is_ws a then compact 0 true instr false s'
          else if (z =? 60) || (z =? 62) || (z =? 38) then "\u00" +:+ hex2 z +:+ compact 0 true instr' esc' s'
          else if fst (DecodeRune s) =? 8232 then "\u2028" +:+ compact 2 false instr' esc' s'
          else if fst (DecodeRune s) =? 8233 then "\u2029" +:+ compact 2 false instr' esc' s'
          else String a (compact 0 true instr' esc' s')
      end
  end.

(** [RawMessage.MarshalJSON] then [compact]; the nil message prints null and
    text that is not JSON is an encoding error. *)
Definition enc_raw (raw : string) : option string :=
  if raw ==? "" then Some "null"
  else match parse raw with Some _ => Some (compact 0 true false false raw) | None => None end.

Definition omit_uint (k : string) (v : option Z) : option (string * string) :=
  match v with Some z => fld k (enc_int z) | None => None end.
Definition omit_str (k v : string) : option (string * string) :=
  if v ==? "" then None else fld k (enc_string v).

Definition enc_progress (p : Progress) : string :=
  enc_struct [fld "phase" (enc_string (pr_Phase p)); omit_uint "current" (pr_Current p);
              omit_uint "total" (pr_Total p); omit_uint "total_estimated" (pr_TotalEstimated p);
              omit_str "unit" (pr_Unit p)].
Definition enc_warning (w : Warning) : string :=
  enc_struct [fld "code" (enc_string (wn_Code w)); fld "message" (enc_string (wn_Message w))].
Definition enc_failure (f : Failure) : string :=
  enc_struct [fld "outcome" (enc_string (outcome_string (fl_Outcome f)));
              fld "code" (enc_string (fl_Code f)); fld "message" (enc_string (fl_Message f))].
Definition enc_truncated (t : Truncated) : string :=
  enc_struct [fld "from_seq" (enc_int (tr_FromSeq t)); fld "through_seq" (enc_int (tr_ThroughSeq t))].
Definition enc_result (r : Result) : option string :=
  let changed := match rs_Changed r with
    | Some b => fld "changed" (if b then "true" else "false") | None => None end in
  let build value := enc_struct [fld "outcome" (enc_string (outcome_string (rs_Outcome r))); changed; value] in
  if rs_Value r ==? "" then Some (build None)
  else match enc_raw (rs_Value r) with Some v => Some (build (fld "value" v)) | None => None end.

Definition omit_enc {A} (k : string) (f : A -> string) (o : option A) : option (string * string) :=
  match o with Some a => fld k (f a) | None => None end.

(** [json.Marshal(event)]. *)
Definition enc_event (e : AEvent) : option string :=
  let build res := enc_struct
    [fld "abi" (enc_string (ae_ABI e)); fld "job_id" (enc_string (ae_JobID e));
     fld "invocation_id" (enc_string (ae_InvocationID e));
     (if ae_Seq e =? 0 then None else fld "seq" (enc_int (ae_Seq e)));
     fld "type" (enc_string (ae_Type e));
     omit_enc "progress" enc_progress (ae_Progress e); omit_enc "warning" enc_warning (ae_Warning e);
     res; omit_enc "error" enc_failure (ae_Error e); omit_enc "truncated" enc_truncated (ae_Truncated e)] in
  match ae_Result e with
  | None => Some (build None)
  | Some r => match enc_result r with Some t => Some (build (fld "result" t)) | None => None end
  end.

Definition enc_request (r : Request) : option string :=
  match enc_raw (req_Parameters r) with
  | Some p => Some (enc_struct [fld "abi" (enc_string (req_ABI r)); fld "job_id" (enc_string (req_JobID r));
      fld "invocation_id" (enc_string (req_InvocationID r)); fld "action" (enc_string (req_Action r));
      fld "parameters" p])
  | None => None
  end.

Definition encodeFrame (body : option string) : result abi_err string :=
  match body with
  | Some b => if MaxFrameBytes <? slen b + 1 then Err ErrProtocol else Ok (b +:+ String newline EmptyString)
  | None => Err ErrProtocol
  end.

(** ** Decoding a frame (codec.go) *)

Definition frameBody (frame : string) : result abi_err string :=
  let n := String.length frame in
  let body := String.substring 0 (n - 1) frame in
  reject (slen frame <? 3) || (MaxFrameBytes <? slen frame) ||
         (sdrop (n - 1) frame !=? String newline EmptyString) with ErrProtocol ;;
  reject sany (fun c => (c ==? newline) || (c ==? "013"%char)) body with ErrProtocol ;;
  Ok body.

(** The part of [strictObject] before the typed decoding. *)
Definition strictObject (body : string) : option members :=
  if (slen body =? 0) || (MaxFrameBytes <=? slen body) || negb (ValidString body) then None
  else match parse body with
       | Some v => if unique_value 0 v then object_members body else None
       | None => None
       end.

Definition dec_sub {A} (k : string) (m : members) (dec : members -> option A) : option (option A) :=
  match get_raw_object k m with
  | Some (Some raw) =>
      match object_members raw with
      | Some m' => match dec m' with Some a => Some (Some a) | None => None end
      | None => None
      end
  | Some None => Some None
  | None => None
  end.

Definition dec_progress (m : members) : option Progress :=
  if shape ["phase"] ["current"; "total"; "total_estimated"; "unit"] m then
    phase ← get_string "phase" m; cur ← get_uint "current" m; tot ← get_uint "total" m;
    est ← get_uint "total_estimated" m; unit ← get_string "unit" m;
    Some (mkProgress phase cur tot est unit)
  else None.

Definition dec_warning (m : members) : option Warning :=
  if shape ["code"; "message"] [] m then
    c ← get_string "code" m; t ← get_string "message" m; Some (mkWarning c t)
  else None.

Definition dec_failure (m : members) : option Failure :=
  if shape ["outcome"; "code"; "message"] [] m then
    o ← get_string "outcome" m; c ← get_string "code" m; t ← get_string "message" m;
    Some (mkFailure (outcome_of o) c t)
  else None.

Definition dec_truncated (m : members) : option Truncated :=
  if shape ["from_seq"; "through_seq"] [] m then
    a ← get_uint "from_seq" m; b ← get_uint "through_seq" m;
    Some (mkTruncated (default 0 a) (default 0 b))
  else None.

Definition dec_result (m : members) : option Result :=
  if shape ["outcome"] ["changed"; "value"] m then
    o ← get_string "outcome" m;
    ch ← match member "changed" m with
         | Some (_, JBool b) => Some (Some b) | Some _ => None | None => Some None end;
    v ← get_raw_object "value" m;
    Some (mkResult (outcome_of o) ch (default "" v))
  else None.

Definition dec_event (m : members) : option AEvent :=
  if shape ["abi"; "job_id"; "invocation_id"; "type"]
           ["seq"; "progress"; "warning"; "result"; "error"; "truncated"] m then
    abi ← get_string "abi" m; job ← get_string "job_id" m; inv ← get_string "invocation_id" m;
    seq ← get_uint "seq" m; ty ← get_string "type" m;
    p ← dec_sub "progress" m dec_progress; w ← dec_sub "warning" m dec_warning;
    r ← dec_sub "result" m dec_result; f ← dec_sub "error" m dec_failure;
    t ← dec_sub "truncated" m dec_truncated;
    Some (mkAEvent abi job inv (default 0 seq) ty p w r f t)
  else None.

Definition dec_request (m : members) : option Request :=
  if shape ["abi"; "job_id"; "invocation_id"; "action"; "parameters"] [] m then
    abi ← get_string "abi" m; job ← get_string "job_id" m; inv ← get_string "invocation_id" m;
    act ← get_string "action" m; p ← get_raw_object "parameters" m;
    Some (mkRequest abi job inv act (default "" p))
  else None.

Definition DecodeRequest (frame : string) : result abi_err Request :=
  let? body := frameBody frame in
  match strictObject body ≫= dec_request with
  | Some r => do! request_validate r ;; Ok r
  | None => Err ErrProtocol
  end.

Definition decodeEvent (frame : string) : result abi_err AEvent :=
  let? body := frameBody frame in
  match strictObject body ≫= dec_event with
  | Some e => do! event_validate e ;; Ok e
  | None => Err ErrProtocol
  end.

Definition has_seq_field (frame : string) : bool :=
  match object_members frame with Some m => present (member "seq" m) | None => true end.

Definition DecodeExecutorEvent (frame : string) : result abi_err AEvent :=
  let? e := decodeEvent frame in
  reject (ae_Seq e !=? 0) || (ae_Type e ==? "truncated") || has_seq_field frame with ErrProtocol ;;
  Ok e.

Definition DecodeJournalEvent (frame : string) : result abi_err AEvent :=
  let? e := decodeEvent frame in
  reject ae_Seq e ==? 0 with ErrProtocol ;;
  Ok e.

Definition EncodeRequest (r : Request) : result abi_err string :=
  do! request_validate r ;;
  let? frame := encodeFrame (enc_request r) in
  do! DecodeRequest frame ;;
  Ok frame.

Definition EncodeExecutorEvent (e : AEvent) : result abi_err string :=
  do! event_validate e ;;
  reject (ae_Seq e !=? 0) || (ae_Type e ==? "truncated") with ErrProtocol ;;
  let? frame := encodeFrame (enc_event e) in
  do! DecodeExecutorEvent frame ;;
  Ok frame.

Definition EncodeJournalEvent (e : AEvent) : result abi_err string :=
  do! event_validate e ;;
  reject ae_Seq e ==? 0 with ErrProtocol ;;
  let? frame := encodeFrame (enc_event e) in
  do! DecodeJournalEvent frame ;;
  Ok frame.

(** ** Reading frames one at a time (codec.go, [Decoder]) *)

(** A reader delivers [rd_pending] and then either EOF or a read error. *)
Record Reader := mkReader { rd_pending : string; rd_error : bool }.

Record Decoder := mkDecoder {
  d_reader : Reader;
  d_replay : bool;
  d_failed : bool;
  d_eof : bool
}.

Definition newDecoder (r : Reader) (replay : bool) : Decoder := mkDecoder r replay false false.

(** [ReadSlice] of a buffer of [MaxFrameBytes] bytes: a complete line that fits,
    the end of an empty input, or a failure. *)
Inductive slice := Line (l : string) (rest : string) | AtEOF | Broken.

Definition ReadSlice (r : Reader) : slice :=
  match CutAt newline (rd_pending r) with
  | Some (l, rest) => if slen l + 1 <=? MaxFrameBytes then Line (l +:+ String newline EmptyString) rest else Broken
  | None => if (rd_pending r ==? "") && negb (rd_error r) then AtEOF else Broken
  end.

Definition decoder_next (d : Decoder) : Decoder * result abi_err AEvent :=
  if d_failed d then (d, Err ErrProtocol)
  else if d_eof d then (d, Err ErrEOF)
  else match ReadSlice (d_reader d) with
       | AtEOF => (mkDecoder (d_reader d) (d_replay d) false true, Err ErrEOF)
       | Broken => (mkDecoder (d_reader d) (d_replay d) true false, Err ErrProtocol)
       | Line frame rest =>
           let r := mkReader rest (rd_error (d_reader d)) in
           match (if d_replay d then DecodeJournalEvent frame else DecodeExecutorEvent frame) with
           | Ok e => (mkDecoder r (d_replay d) false false, Ok e)
           | Err x => (mkDecoder r (d_replay d) true false, Err x)
           end
       end.

(** ** The stream validator (stream.go) *)

Record StreamValidator := mkStream {
  sv_jobID : string;
  sv_invocationID : string;
  sv_lastSeq : Z;
  sv_replay : bool;
  sv_failed : bool;
  sv_terminal : bool;
  sv_finished : bool;
  sv_outcome : Outcome
}.

Definition newStream (jobID invocationID : string) (fromSeq : Z) (replay : bool) : result abi_err StreamValidator :=
  reject negb (opaqueID jobID) || negb (opaqueID invocationID) with ErrProtocol ;;
  Ok (mkStream jobID invocationID fromSeq replay false false false NoOutcome).

Definition NewExecutorStream (jobID invocationID : string) := newStream jobID invocationID 0 false.
Definition NewReplayStream (jobID invocationID : string) (fromSeq : Z) := newStream jobID invocationID fromSeq true.

Definition stream_fail (s : StreamValidator) : StreamValidator :=
  mkStream (sv_jobID s) (sv_invocationID s) (sv_lastSeq s) (sv_replay s) true (sv_terminal s) (sv_finished s) (sv_outcome s).

Definition stream_seq (s : StreamValidator) (seq : Z) : StreamValidator :=
  mkStream (sv_jobID s) (sv_invocationID s) seq (sv_replay s) (sv_failed s) (sv_terminal s) (sv_finished s) (sv_outcome s).

Definition stream_end (s : StreamValidator) (o : Outcome) : StreamValidator :=
  mkStream (sv_jobID s) (sv_invocationID s) (sv_lastSeq s) (sv_replay s) (sv_failed s) true (sv_finished s) o.

(** The sequence rule of a replayed event: it follows the last one, except that
    a truncation marker may cover the missing range. *)
Definition seq_follows (last : Z) (e : AEvent) : bool :=
  let next := u64_succ last in
  if ae_Type e ==? "truncated" then
    match ae_Truncated e with
    | Some t => negb ((ae_Seq e <? next) ||
                      ((next <? ae_Seq e) && ((next <? tr_FromSeq t) || (tr_ThroughSeq t <? next))))
    | None => false
    end
  else ae_Seq e ==? next.

Definition stream_terminal (s : StreamValidator) (e : AEvent) : StreamValidator :=
  if ae_Type e ==? "result" then match ae_Result e with Some r => stream_end s (rs_Outcome r) | None => s end
  else if ae_Type e ==? "error" then match ae_Error e with Some f => stream_end s (fl_Outcome f) | None => s end
  else s.

Definition stream_accept (s : StreamValidator) (e : AEvent) : StreamValidator * result abi_err unit :=
  if sv_failed s || sv_terminal s || sv_finished s || (ae_JobID e !=? sv_jobID s) ||
     (ae_InvocationID e !=? sv_invocationID s)
  then (stream_fail s, Err ErrProtocol)
  else if sv_replay s then
    if negb (is_ok (EncodeJournalEvent e)) || (sv_lastSeq s ==? u64_max) || negb (seq_follows (sv_lastSeq s) e)
    then (stream_fail s, Err ErrProtocol)
    else (stream_terminal (stream_seq s (ae_Seq e)) e, Ok tt)
  else if negb (is_ok (EncodeExecutorEvent e)) then (stream_fail s, Err ErrProtocol)
  else (stream_terminal s e, Ok tt).

Record ExitState := mkExit {
  x_ProcessExited : bool;
  x_StreamEOF : bool;
  x_Forced : bool;
  x_ExitCode : Z;
  x_CancelRequested : bool
}.

Definition stream_finish (s : StreamValidator) (x : ExitState) : StreamValidator * (Outcome * option abi_err) :=
  if sv_replay s || sv_finished s then (s, (Unknown, Some ErrProtocol))
  else
    let s' := mkStream (sv_jobID s) (sv_invocationID s) (sv_lastSeq s) (sv_replay s) (sv_failed s)
                (sv_terminal s) true (sv_outcome s) in
    (s', if sv_failed s || negb (sv_terminal s) || negb (x_ProcessExited x) || negb (x_StreamEOF x) || x_Forced x
         then (Unknown, Some ErrUnknownOutcome)
         else match sv_outcome s with
              | Succeeded => if x_ExitCode x =? 0 then (Succeeded, None) else (Unknown, Some ErrUnknownOutcome)
              | Failed => if 0 <? x_ExitCode x then (Failed, None) else (Unknown, Some ErrUnknownOutcome)
              | Cancelled =>
                  if x_CancelRequested x && (x_ExitCode x =? 0) then (Cancelled, None)
                  else (Unknown, Some ErrUnknownOutcome)
              | _ => (Unknown, Some ErrUnknownOutcome)
              end).

(** ** The process adapter's reader (stream.go, [ExecutionReader]) *)

Record ExecutionReader := mkExec { xr_decoder : Decoder; xr_stream : StreamValidator }.

Definition NewExecutionReader (r : Reader) (jobID invocationID : string) : result abi_err ExecutionReader :=
  let? s := NewExecutorStream jobID invocationID in
  Ok (mkExec (newDecoder r false) s).

Definition exec_next (x : ExecutionReader) : ExecutionReader * result abi_err AEvent :=
  let '(d, r) := decoder_next (xr_decoder x) in
  match r with
  | Err e => (mkExec d (xr_stream x), Err e)
  | Ok ev =>
      let '(s, a) := stream_accept (xr_stream x) ev in
      (mkExec d s, match a with Ok _ => Ok ev | Err e => Err e end)
  end.

Definition exec_finish (x : ExecutionReader) (exit : ExitState) : ExecutionReader * (Outcome * option abi_err) :=
  let exit' := mkExit (x_ProcessExited exit) (d_eof (xr_decoder x) && negb (d_failed (xr_decoder x)))
                 (x_Forced exit) (x_ExitCode exit) (x_CancelRequested exit) in
  let '(s, r) := stream_finish (xr_stream x) exit' in
  (mkExec (xr_decoder x) s, r).

(** Call [Next] until it fails, collecting the accepted events. *)
Fixpoint drain (fuel : nat) (x : ExecutionReader) : ExecutionReader * list AEvent * option abi_err :=
  match fuel with
  | O => (x, [], None)
  | S f =>
      match exec_next x with
      | (x', Err e) => (x', [], Some e)
      | (x', Ok ev) => let '(x'', l, e) := drain f x' in (x'', ev :: l, e)
      end
  end.

(** ** Confirmation bindings (confirmation.go) *)

Definition ConfirmationTTL : Z := 5 * minute_ns.

Record ConfirmationBinding := mkBinding {
  cb_ABI : string;
  cb_PlanJobID : string;
  cb_PlanInvocationID : string;
  cb_Action : string;
  cb_WorkspaceID : string;
  cb_Actor : string;
  cb_ParametersDigest : string;
  cb_StateDigest : string;
  cb_SummaryDigest : string;
  cb_ReleaseDigest : string;
  cb_PlannedAt : Z;
  cb_PlannedAtUTC : bool (* the location of PlannedAt is time.UTC *)
}.
#[export] Instance ConfirmationBinding_eq_dec : EqDecision ConfirmationBinding. Proof. solve_decision. Defined.

Definition binding_validate (b : ConfirmationBinding) : result abi_err unit :=
  reject (cb_ABI b !=? Version) || negb (opaqueID (cb_PlanJobID b)) || negb (opaqueID (cb_PlanInvocationID b)) ||
         negb (actionID (cb_Action b)) || (128 <? slen (cb_Action b)) || negb (opaqueID (cb_WorkspaceID b)) ||
         negb (opaqueID (cb_Actor b)) || (cb_PlannedAt b ==? 0) || negb (cb_PlannedAtUTC b) with ErrConfirmation ;;
  reject negb (forallb hex64 [cb_ParametersDigest b; cb_StateDigest b; cb_SummaryDigest b; cb_ReleaseDigest b])
    with ErrConfirmation ;;
  Ok tt.

Definition enc_binding (b : ConfirmationBinding) : string :=
  enc_struct [fld "abi" (enc_string (cb_ABI b)); fld "plan_job_id" (enc_string (cb_PlanJobID b));
    fld "plan_invocation_id" (enc_string (cb_PlanInvocationID b)); fld "action" (enc_string (cb_Action b));
    fld "workspace_id" (enc_string (cb_WorkspaceID b)); fld "actor" (enc_string (cb_Actor b));
    fld "parameters_digest" (enc_string (cb_ParametersDigest b)); fld "state_digest" (enc_string (cb_StateDigest b));
    fld "summary_digest" (enc_string (cb_SummaryDigest b)); fld "release_digest" (enc_string (cb_ReleaseDigest b));
    fld "planned_at" (enc_time (cb_PlannedAt b))].

(** [time.Time.MarshalJSON] refuses a year outside [0, 9999]. *)
Definition year_encodable (t : Z) : bool :=
  let '(y, _, _) := civil (t / ns_per_s / 86400) in (0 <=? y) && (y <=? 9999).

Definition binding_digest (b : ConfirmationBinding) : result abi_err string :=
  reject negb (is_ok (binding_validate b)) with ErrConfirmation ;;
  reject negb (year_encodable (cb_PlannedAt b)) with ErrConfirmation ;;
  Ok (sha256_hex (enc_binding b)).

Definition ExpiresAt (b : ConfirmationBinding) : Z := cb_PlannedAt b + ConfirmationTTL.

Definition ValidAt (b : ConfirmationBinding) (now : Z) : bool :=
  is_ok (binding_validate b) && negb (now <? cb_PlannedAt b) && (now <? ExpiresAt b).

(** ** Module cancellation pipe (module_cancellation.go)

    The results of successive [Read] calls on the one-byte buffer. *)
Inductive read_result := ReadByte | ReadEmpty | ReadEOF | ReadErr.

Fixpoint read_cancellation (n : nat) (reads : list read_result) : result abi_err unit :=
  match n with
  | O => Err ErrProtocol
  | S n' =>
      match reads with
      | ReadEOF :: _ => Ok tt
      | ReadEmpty :: rest => read_cancellation n' rest
      | _ => Err ErrProtocol
      end
  end.
Definition ReadModuleCancellation (reads : list read_result) : result abi_err unit := read_cancellation 100 reads.
