(* ===== verification/ActionAbiFacts.v ===== *)
(** * Package [internal/actionabi]: what the protocol guarantees

    Validated events carry exactly the payload of their type; an accepted
    replay has no silent gap and nothing after its terminal event; a drained
    executor only reports an outcome it has evidence for. *)

From Stdlib Require Import Ascii.
From S2P Require Import Prelude GoText GoJson GoEncoding ActionAbi.

(** ** Lemmas on validation *)

Lemma request_validate_ok r :
  request_validate r = Ok tt ->
  req_ABI r = Version /\ opaqueID (req_JobID r) = true /\ opaqueID (req_InvocationID r) = true /\
  actionID (req_Action r) = true /\ slen (req_Action r) <= 128 /\ boundedObject (req_Parameters r) = true.
Proof. unfold request_validate. intros H. ok_path H. breflect. tauto. Qed.

(** The payload slots of an event that are filled. *)
Definition payload_slots (e : AEvent) : list (string * bool) :=
  [("progress", present (ae_Progress e)); ("warning", present (ae_Warning e)); ("result", present (ae_Result e));
   ("error", present (ae_Error e)); ("truncated", present (ae_Truncated e))].

Lemma event_validate_slots e :
  event_validate e = Ok tt -> forall k b, (k, b) ∈ payload_slots e -> b = (k ==? ae_Type e).
Proof.
  unfold event_validate, payload_slots. intros H. ok_path H. breflect. intros k b Hk.
  unfold count_true in E0.
  destruct (ae_Progress e), (ae_Warning e), (ae_Result e), (ae_Error e), (ae_Truncated e);
    cbn in E0; try done; cbn [present] in Hk;
    repeat (case_bool_decide; [match goal with Hx : ae_Type e = _ |- _ => rewrite Hx end; try done;
      rewrite !elem_of_cons, elem_of_nil in Hk; destruct_or?; by simplify_eq/=|]); done.
Qed.

Lemma event_validate_truncated e :
  event_validate e = Ok tt -> ae_Type e = "truncated" ->
  exists t, ae_Truncated e = Some t /\ tr_FromSeq t <> 0 /\ tr_FromSeq t <= tr_ThroughSeq t /\
            tr_ThroughSeq t <> u64_max /\ ae_Seq e = u64_succ (tr_ThroughSeq t).
Proof.
  intros H Hty. unfold event_validate in H. ok_path H. rewrite Hty in E1. literals.
  destruct (ae_Truncated e) as [t|]; [|done]. exists t. unfold validate_truncated in E1.
  breflect. tauto.
Qed.

Lemma EncodeJournalEvent_ok e f :
  EncodeJournalEvent e = Ok f -> event_validate e = Ok tt /\ ae_Seq e <> 0.
Proof.
  unfold EncodeJournalEvent. intros H. ok_path H. destruct a. breflect. done.
Qed.

Lemma EncodeExecutorEvent_ok e f :
  EncodeExecutorEvent e = Ok f -> event_validate e = Ok tt /\ ae_Seq e = 0 /\ ae_Type e <> "truncated".
Proof.
  unfold EncodeExecutorEvent. intros H. ok_path H. destruct a. breflect. tauto.
Qed.

Lemma DecodeExecutorEvent_ok f e :
  DecodeExecutorEvent f = Ok e -> event_validate e = Ok tt /\ ae_Seq e = 0 /\ ae_Type e <> "truncated".
Proof.
  unfold DecodeExecutorEvent, decodeEvent. intros H. repeat ok_step H. simplify_eq.
  repeat ok_step E. simplify_eq. destruct a1. breflect. tauto.
Qed.

(** ** Lemmas on streams *)

Definition event_terminal (e : AEvent) : bool := (ae_Type e ==? "result") || (ae_Type e ==? "error").

Fixpoint accept_all (s : StreamValidator) (es : list AEvent) : option StreamValidator :=
  match es with
  | [] => Some s
  | e :: es' => match stream_accept s e with (s', Ok _) => accept_all s' es' | (_, Err _) => None end
  end.

(** Event [e] follows sequence number [last] without a silent gap: it is the
    next one, or a marker that covers the missing range up to its own number. *)
Definition covers (last : Z) (e : AEvent) : Prop :=
  ae_Seq e = last + 1 \/
  exists t, ae_Type e = "truncated" /\ ae_Truncated e = Some t /\
            tr_FromSeq t <= last + 1 <= tr_ThroughSeq t /\ ae_Seq e = tr_ThroughSeq t + 1.

Fixpoint seq_chain (last : Z) (es : list AEvent) : Prop :=
  match es with
  | [] => True
  | e :: es' => covers last e /\ seq_chain (ae_Seq e) es'
  end.

(** Nothing follows a terminal event. *)
Fixpoint terminal_last (es : list AEvent) : Prop :=
  match es with
  | [] => True
  | e :: es' => (event_terminal e = true -> es' = []) /\ terminal_last es'
  end.

Lemma stream_accept_inv s e s' :
  stream_accept s e = (s', Ok tt) ->
  sv_failed s = false /\ sv_terminal s = false /\ sv_finished s = false /\
  ae_JobID e = sv_jobID s /\ ae_InvocationID e = sv_invocationID s /\ event_validate e = Ok tt.
Proof.
  unfold stream_accept. intros H.
  destruct (sv_failed s || _ || _ || _ || _) eqn:E; [discriminate|]. breflect.
  destruct_and?. repeat split; try done.
  destruct (sv_replay s).
  - destruct (EncodeJournalEvent e) eqn:E2; [|done]. by apply EncodeJournalEvent_ok in E2 as [].
  - destruct (EncodeExecutorEvent e) eqn:E2; [|done]. by apply EncodeExecutorEvent_ok in E2 as [].
Qed.

Lemma stream_terminal_fields s e :
  sv_jobID (stream_terminal s e) = sv_jobID s /\ sv_invocationID (stream_terminal s e) = sv_invocationID s /\
  sv_lastSeq (stream_terminal s e) = sv_lastSeq s /\ sv_replay (stream_terminal s e) = sv_replay s /\
  sv_failed (stream_terminal s e) = sv_failed s /\ sv_finished (stream_terminal s e) = sv_finished s.
Proof. unfold stream_terminal. repeat case_match; done. Qed.

Lemma slot_present {e k b} : event_validate e = Ok tt -> (k, b) ∈ payload_slots e -> ae_Type e = k -> b = true.
Proof. intros H1 H2 H3. rewrite (event_validate_slots e H1 k b H2). by apply bool_decide_eq_true. Qed.

Lemma result_present e : event_validate e = Ok tt -> ae_Type e = "result" -> is_Some (ae_Result e).
Proof.
  intros Hv Ht.
  pose proof (slot_present (k:="result") (b:=present (ae_Result e)) Hv) as Hp. unfold payload_slots in Hp.
  destruct (ae_Result e); [by eexists|]. discriminate Hp; [|done]. do 2 apply list_elem_of_further. left.
Qed.

Lemma error_present e : event_validate e = Ok tt -> ae_Type e = "error" -> is_Some (ae_Error e).
Proof.
  intros Hv Ht.
  pose proof (slot_present (k:="error") (b:=present (ae_Error e)) Hv) as Hp. unfold payload_slots in Hp.
  destruct (ae_Error e); [by eexists|]. discriminate Hp; [|done]. do 3 apply list_elem_of_further. left.
Qed.

Lemma stream_terminal_ended s e :
  event_validate e = Ok tt -> sv_terminal s = false ->
  sv_terminal (stream_terminal s e) = event_terminal e.
Proof.
  intros Hv Hs. unfold stream_terminal, event_terminal.
  case_bool_decide as H1; [|case_bool_decide as H2; [|done]].
  - by destruct (result_present e Hv H1) as [r ->].
  - by destruct (error_present e Hv H2) as [r ->].
Qed.

(** The uint64 fields of an event are uint64 values. *)
Definition event_u64 (e : AEvent) : Prop :=
  is_u64 (ae_Seq e) /\
  match ae_Truncated e with Some t => is_u64 (tr_FromSeq t) /\ is_u64 (tr_ThroughSeq t) | None => True end.

(** One accepted replay event advances the sequence without a gap. *)
Lemma replay_accept_step s e s' :
  sv_replay s = true -> is_u64 (sv_lastSeq s) -> event_u64 e -> stream_accept s e = (s', Ok tt) ->
  covers (sv_lastSeq s) e /\ sv_lastSeq s' = ae_Seq e /\ sv_replay s' = true /\ sv_terminal s' = event_terminal e.
Proof.
  intros Hr Hu [Hseq64 Htr64] H. destruct (stream_accept_inv _ _ _ H) as (Hf & Ht & Hfin & _ & _ & Hv).
  unfold stream_accept in H. destruct (sv_failed s || _ || _ || _ || _); [done|]. rewrite Hr in H.
  destruct (negb _ || _ || _) eqn:E; [done|]. simplify_eq. breflect. destruct E as [[_ Hmax] Hfol].
  destruct (stream_terminal_fields (stream_seq s (ae_Seq e)) e) as (_ & _ & -> & -> & _).
  rewrite stream_terminal_ended by done. split; [|done].
  unfold seq_follows in Hfol. rewrite (u64_succ_small _ Hu Hmax) in Hfol. unfold covers.
  destruct (bool_decide (ae_Type e = _)) eqn:Htr; breflect; [|by left].
  destruct (event_validate_truncated e Hv Htr) as (t & Ht' & Hfrom & Hle & Hne & Hseq). rewrite Ht' in Hfol.
  breflect. destruct (decide (ae_Seq e = sv_lastSeq s + 1)); [by left|]. right. exists t.
  destruct Hfol as [Hge [?|[??]]]; [lia|].
  rewrite Ht' in Htr64. rewrite u64_succ_small in Hseq by naive_solver.
  repeat split; try done; lia.
Qed.

Lemma accept_all_replay s es s' :
  sv_replay s = true -> is_u64 (sv_lastSeq s) -> Forall event_u64 es -> accept_all s es = Some s' ->
  seq_chain (sv_lastSeq s) es /\ terminal_last es.
Proof.
  revert s. induction es as [|e es IH]; intros s Hr Hu Hes H; cbn in *; [done|].
  apply Forall_cons in Hes as [He Hes].
  destruct (stream_accept s e) as [s1 [[]|x]] eqn:E; [|done].
  destruct (replay_accept_step _ _ _ Hr Hu He E) as (Hc & Hlast & Hr1 & Ht1).
  destruct (IH s1 Hr1 ltac:(rewrite Hlast; apply He) Hes H) as [IH1 IH2].
  rewrite Hlast in IH1. repeat split; try done. intros Hterm. destruct es as [|e2 es]; [done|].
  cbn in H. destruct (stream_accept s1 e2) as [s2 [[]|]] eqn:E2; [|done].
  apply stream_accept_inv in E2 as (_ & Hbad & _). congruence.
Qed.

(** ** Lemmas on the process adapter *)

(** What a reader that has accepted [acc] knows about its stream. *)
Definition exec_inv (jobID invocationID : string) (x : ExecutionReader) (acc : list AEvent) : Prop :=
  let s := xr_stream x in
  sv_jobID s = jobID /\ sv_invocationID s = invocationID /\ sv_replay s = false /\ sv_finished s = false /\
  Forall (fun e => ae_JobID e = jobID /\ ae_InvocationID e = invocationID /\ event_validate e = Ok tt) acc /\
  (sv_failed s = false -> terminal_last acc /\
    sv_terminal s = match last acc with Some e => event_terminal e | None => false end /\
    (sv_terminal s = true -> exists e, last acc = Some e /\
       (option_map rs_Outcome (ae_Result e) = Some (sv_outcome s) \/
        option_map fl_Outcome (ae_Error e) = Some (sv_outcome s)))).

Lemma stream_terminal_outcome s e :
  event_validate e = Ok tt -> event_terminal e = true ->
  option_map rs_Outcome (ae_Result e) = Some (sv_outcome (stream_terminal s e)) \/
  option_map fl_Outcome (ae_Error e) = Some (sv_outcome (stream_terminal s e)).
Proof.
  intros Hv Ht. unfold event_terminal in Ht. unfold stream_terminal. breflect.
  destruct (decide (ae_Type e = "result")) as [Hty|Hty].
  - rewrite bool_decide_eq_true_2 by done.
    destruct (result_present e Hv Hty) as [r ->]. by left.
  - rewrite bool_decide_eq_false_2 by done. destruct Ht as [?|Hty2]; [done|].
    rewrite bool_decide_eq_true_2 by done.
    destruct (error_present e Hv Hty2) as [r ->]. by right.
Qed.

Lemma terminal_last_snoc acc e :
  terminal_last acc -> match last acc with Some x => event_terminal x | None => false end = false ->
  terminal_last (acc ++ [e]).
Proof.
  induction acc as [|a acc IH]; cbn; [done|]. intros [H1 H2] Hl. destruct acc as [|b acc].
  - cbn in *. split; [|done]. intros Ht. congruence.
  - split; [intros Ht; by specialize (H1 Ht)|]. by apply IH.
Qed.

Lemma exec_next_ok j i x acc x' e :
  exec_inv j i x acc -> exec_next x = (x', Ok e) ->
  exec_inv j i x' (acc ++ [e]) /\ sv_failed (xr_stream x') = false.
Proof.
  intros (Hj & Hi & Hr & Hfin & Hacc & Hok) H. unfold exec_next in H.
  destruct (decoder_next (xr_decoder x)) as [d [ev|]]; [|done].
  destruct (stream_accept (xr_stream x) ev) as [s [[]|]] eqn:E; [|done]. simplify_eq.
  destruct (stream_accept_inv _ _ _ E) as (Hf & Ht & _ & Hje & Hie & Hv).
  destruct (Hok Hf) as (Hlast & Hterm & _). rewrite Ht in Hterm.
  unfold stream_accept in E. destruct (sv_failed _ || _ || _ || _ || _); [done|]. rewrite Hr in E.
  destruct (negb (is_ok _)); [done|]. simplify_eq. unfold exec_inv. cbn [xr_stream].
  destruct (stream_terminal_fields (xr_stream x) e) as (-> & -> & _ & -> & -> & ->).
  split; [|done]. repeat split; try done.
  - apply Forall_app. split; [done|]. repeat constructor; congruence.
  - apply terminal_last_snoc; [done|]. by rewrite <- Hterm.
  - rewrite last_snoc. by rewrite stream_terminal_ended.
  - intros Hend. exists e. rewrite last_snoc. split; [done|].
    rewrite stream_terminal_ended in Hend by done. by apply stream_terminal_outcome.
Qed.

Lemma exec_next_err j i x acc x' r :
  exec_inv j i x acc -> exec_next x = (x', Err r) -> exec_inv j i x' acc.
Proof.
  intros (Hj & Hi & Hr & Hfin & Hacc & Hok) H. unfold exec_next in H.
  destruct (decoder_next (xr_decoder x)) as [d [ev|]]; [|by simplify_eq].
  destruct (stream_accept (xr_stream x) ev) as [s [[]|]] eqn:E; [done|]. simplify_eq.
  unfold stream_accept in E. rewrite Hr in E. cbn zeta in E.
  repeat (case_match; simplify_eq); unfold exec_inv, stream_fail; cbn; repeat split; done.
Qed.

Lemma drain_inv j i fuel x acc x' l r :
  exec_inv j i x acc -> drain fuel x = (x', l, r) -> exec_inv j i x' (acc ++ l).
Proof.
  revert x acc x' l r. induction fuel as [|f IH]; intros x acc x' l r Hx H; cbn in H.
  - simplify_eq. by rewrite app_nil_r.
  - destruct (exec_next x) as [x1 [ev|]] eqn:E.
    + destruct (drain f x1) as [[x2 l2] r2] eqn:E2. simplify_eq.
      destruct (exec_next_ok _ _ _ _ _ _ Hx E) as [Hx1 _].
      specialize (IH _ _ _ _ _ Hx1 E2). by rewrite <- app_assoc in IH.
    + simplify_eq. rewrite app_nil_r. by eapply exec_next_err.
Qed.

Lemma exec_inv_new r j i x : NewExecutionReader r j i = Ok x -> exec_inv j i x [].
Proof.
  unfold NewExecutionReader, NewExecutorStream, newStream. intros H. repeat ok_step H. ok_step E. by simplify_eq.
Qed.

(** Every call of [Next] consumes a byte of the input or ends the drain. *)
Lemma exec_next_progress x x' e :
  exec_next x = (x', Ok e) ->
  (String.length (rd_pending (d_reader (xr_decoder x'))) < String.length (rd_pending (d_reader (xr_decoder x))))%nat.
Proof.
  unfold exec_next, decoder_next, ReadSlice. intros H.
  assert (Hcut : forall s l rest, CutAt newline s = Some (l, rest) -> (String.length rest < String.length s)%nat).
  { clear. induction s as [|a s IH]; intros l rest H; cbn in H; [done|]. case_bool_decide; simplify_eq; cbn; [lia|].
    destruct (CutAt newline s) as [[]|]; simplify_eq. specialize (IH _ _ eq_refl). lia. }
  repeat (case_match; simplify_eq/=; eauto).
Qed.

(** The decoder only reports EOF when the whole input has been consumed. *)
Definition eof_inv (d : Decoder) : Prop :=
  d_eof d = true -> rd_pending (d_reader d) = "" /\ rd_error (d_reader d) = false.

Lemma decoder_next_eof d d' r : eof_inv d -> decoder_next d = (d', r) -> eof_inv d'.
Proof.
  unfold eof_inv, decoder_next, ReadSlice. intros Hd H. repeat (case_match; simplify_eq/=; try done).
  - intros _. by apply Hd.
  - intros _. breflect. tauto.
Qed.

Lemma drain_eof fuel x x' l r :
  eof_inv (xr_decoder x) -> drain fuel x = (x', l, r) -> eof_inv (xr_decoder x').
Proof.
  revert x l r. induction fuel as [|f IH]; intros x l r Hx H; cbn in H; [by simplify_eq|].
  destruct (exec_next x) as [x1 res] eqn:E.
  assert (Hx1 : eof_inv (xr_decoder x1)).
  { unfold exec_next in E. destruct (decoder_next (xr_decoder x)) as [d q] eqn:Ed.
    apply decoder_next_eof in Ed; [|done].
    destruct q as [ev|q]; [destruct (stream_accept (xr_stream x) ev)|]; by simplify_eq. }
  destruct res as [ev|e]; [|by simplify_eq].
  destruct (drain f x1) as [[x2 l2] r2] eqn:E2. simplify_eq. by eapply IH.
Qed.

(** What an exit state must show for each confirmed outcome. *)
Definition exit_confirms (o : Outcome) (exit : ExitState) : Prop :=
  match o with
  | Succeeded => x_ExitCode exit = 0
  | Failed => 0 < x_ExitCode exit
  | Cancelled => x_CancelRequested exit = true /\ x_ExitCode exit = 0
  | _ => False
  end.

Definition event_outcome (e : AEvent) : option Outcome :=
  match ae_Result e with
  | Some r => Some (rs_Outcome r)
  | None => option_map fl_Outcome (ae_Error e)
  end.

Lemma event_outcome_terminal e o :
  event_validate e = Ok tt ->
  option_map rs_Outcome (ae_Result e) = Some o \/ option_map fl_Outcome (ae_Error e) = Some o ->
  event_outcome e = Some o.
Proof.
  intros Hv. unfold event_outcome. destruct (ae_Result e) as [r|] eqn:Er; [|intros [?|?]; done].
  intros [H|H]; [by simplify_eq/=|]. exfalso.
  destruct (ae_Error e) as [f|] eqn:Ef; [|done].
  pose proof (event_validate_slots e Hv "result" true) as H1.
  pose proof (event_validate_slots e Hv "error" true) as H2.
  unfold payload_slots in *. rewrite Er, Ef in *. cbn [present] in *.
  specialize (H1 ltac:(do 2 apply list_elem_of_further; left)).
  specialize (H2 ltac:(do 3 apply list_elem_of_further; left)).
  symmetry in H1, H2. breflect. congruence.
Qed.

Lemma stream_finish_ok s x s' o :
  stream_finish s x = (s', (o, None)) ->
  sv_failed s = false /\ sv_terminal s = true /\ x_ProcessExited x = true /\ x_StreamEOF x = true /\
  x_Forced x = false /\ sv_outcome s = o /\ exit_confirms o x.
Proof.
  unfold stream_finish. intros H. destruct (sv_replay s || sv_finished s); [done|].
  destruct (sv_failed s || _ || _ || _ || _) eqn:E; [done|]. breflect.
  destruct E as [[[[-> ->] ->] ->] ->]. unfold exit_confirms.
  repeat (case_match; simplify_eq/=; breflect; try done). all: repeat split; try done; try lia; tauto.
Qed.

(** C1: an executor run is reported with a confirmed outcome only on complete
    evidence.  When the output of an executor is drained to its end and
    [Finish] confirms the outcome [o], then the process exited, was not killed
    and its exit status agrees with [o]; the whole output was consumed and
    ended in a clean EOF; every event belongs to this job and invocation and is
    valid; the last event, and only the last one, is terminal and it carries
    exactly the outcome [o], which is never unknown. *)
Theorem executor_outcome_evidence fuel input jobID invocationID x x1 events reason exit x2 o :
  NewExecutionReader input jobID invocationID = Ok x ->
  drain fuel x = (x1, events, reason) ->
  exec_finish x1 exit = (x2, (o, None)) ->
  x_ProcessExited exit = true /\ x_Forced exit = false /\ exit_confirms o exit /\
  rd_pending (d_reader (xr_decoder x1)) = "" /\ rd_error (d_reader (xr_decoder x1)) = false /\
  Forall (fun e => ae_JobID e = jobID /\ ae_InvocationID e = invocationID /\ event_validate e = Ok tt) events /\
  terminal_last events /\
  exists e, last events = Some e /\ event_terminal e = true /\ event_outcome e = Some o.
Proof.
  intros Hnew Hdrain Hfin.
  assert (Heof : eof_inv (xr_decoder x)).
  { unfold NewExecutionReader in Hnew. ok_step Hnew. by simplify_eq. }
  pose proof (drain_inv _ _ _ _ _ _ _ _ (exec_inv_new _ _ _ _ Hnew) Hdrain) as (_ & _ & _ & _ & Hall & Hok).
  apply (drain_eof _ _ _ _ _ Heof) in Hdrain. cbn [app] in *.
  unfold exec_finish in Hfin. destruct (stream_finish _ _) as [s r] eqn:E. simplify_eq.
  apply stream_finish_ok in E as (Hf & Ht & Hx & He & Hforced & Ho & Hconf). cbn in *.
  destruct (Hok Hf) as (Hlast & Hterm & Hend). destruct (Hend Ht) as (e & Hle & Hoc).
  breflect. destruct He as [He _]. destruct (Hdrain He) as [Hp Hre]. rewrite Hle, Ht in Hterm.
  assert (Hv : event_validate e = Ok tt).
  { apply last_Some_elem_of in Hle. exact (proj2 (proj2 (proj1 (Forall_forall _ _) Hall e Hle))). }
  repeat split; try done. exists e. repeat split; [done|by symmetry|].
  rewrite Ho in Hoc. by apply event_outcome_terminal.
Qed.

(** A replayed event stream has no silent gap.  When a replay from sequence
    number [from] accepts the events [es], then every event is the direct
    successor of what was consumed before it or a truncation marker that covers
    the missing range, and nothing follows a terminal event. *)
Theorem replay_no_gap jobID invocationID from s es s' :
  NewReplayStream jobID invocationID from = Ok s -> is_u64 from -> Forall event_u64 es ->
  accept_all s es = Some s' ->
  seq_chain from es /\ terminal_last es.
Proof.
  unfold NewReplayStream, newStream. intros Hnew Hu Hes H. ok_step Hnew. simplify_eq.
  by apply (accept_all_replay _ _ _ (eq_refl : sv_replay (mkStream _ _ _ true _ _ _ _) = true) Hu Hes H).
Qed.

(** Draining an executor always ends.  With one more call than the input
    has bytes, [Next] has reported EOF or a protocol failure. *)
Theorem drain_terminates x fuel :
  (String.length (rd_pending (d_reader (xr_decoder x))) < fuel)%nat -> snd (drain fuel x) <> None.
Proof.
  revert x. induction fuel as [|f IH]; intros x Hlen; [lia|]. cbn.
  destruct (exec_next x) as [x1 [ev|e]] eqn:E; [|done].
  pose proof (exec_next_progress _ _ _ E).
  specialize (IH x1 ltac:(lia)). by destruct (drain f x1) as [[]].
Qed.

(** ** Witnesses *)

Definition wit_progress : AEvent :=
  mkAEvent Version "job1" "inv1" 0 "progress" (Some (mkProgress "copy" (Some 3) None (Some 9) "bytes"))
    None None None None.
Definition wit_done : AEvent :=
  mkAEvent Version "job1" "inv1" 0 "result" None None (Some (mkResult Succeeded (Some true) "{}")) None None.
Definition wit_frame (e : AEvent) : string := match EncodeExecutorEvent e with Ok f => f | Err _ => "" end.
Definition wit_input : Reader := mkReader (wit_frame wit_progress +:+ wit_frame wit_done) false.
Definition wit_reader : ExecutionReader :=
  mkExec (newDecoder wit_input false) (mkStream "job1" "inv1" 0 false false false false NoOutcome).
Definition wit_exit : ExitState := mkExit true false false 0 false.

Lemma executor_outcome_evidence_witness :
  exists e, last (snd (fst (drain 400 wit_reader))) = Some e /\ event_terminal e = true /\ event_outcome e = Some Succeeded.
Proof.
  refine (proj2 (proj2 (proj2 (proj2 (proj2 (proj2 (proj2
    (executor_outcome_evidence 400 wit_input "job1" "inv1" wit_reader
       (fst (fst (drain 400 wit_reader))) (snd (fst (drain 400 wit_reader))) (snd (drain 400 wit_reader))
       wit_exit (fst (exec_finish (fst (fst (drain 400 wit_reader))) wit_exit)) Succeeded _ _ _)))))))).
  - reflexivity.
  - by destruct (drain 400 wit_reader) as [[]].
  - vm_compute. reflexivity.
Defined.

Definition wit_replay : list AEvent :=
  [mkAEvent Version "job1" "inv1" 5 "truncated" None None None None (Some (mkTruncated 1 4));
   ae_with_Seq wit_progress 6; ae_with_Seq wit_done 7].

Lemma replay_no_gap_witness : seq_chain 2 wit_replay /\ terminal_last wit_replay.
Proof.
  apply (replay_no_gap "job1" "inv1" 2 (mkStream "job1" "inv1" 2 true false false false NoOutcome) wit_replay
           (mkStream "job1" "inv1" 7 true false true false Succeeded)).
  - reflexivity.
  - unfold is_u64, u64_max. lia.
  - repeat constructor; unfold is_u64, u64_max; cbn; lia.
  - vm_compute. reflexivity.
Defined.

Lemma drain_terminates_witness : snd (drain 400 wit_reader) <> None.
Proof. apply drain_terminates. vm_compute. lia. Defined.
