(* ===== verification/HostConfirmation.v ===== *)
(** * Package [internal/hostconfirmation]: the one-time confirmation ledger

    A host action is only applied after a confirmation that was issued for one
    plan, consumed by one apply job and claimed by one execution.  The ledger is
    an append-only journal; every operation replays it under the lock, decides
    and appends.  Both indexes of the replayed state hold pointers to the same
    entries, so the model keeps the entries in a heap and the indexes as
    addresses. *)

From Stdlib Require Import Ascii.
From S2P Require Import Prelude GoText GoJson GoEncoding ActionAbi.

Definition schemaVersion : Z := 1.
Definition defaultCapacity : Z := 4096.
Definition maximumRecordBytes : Z := 65536.

Inductive hc_err := HUnavailable | HInvalid | HConsumed | HExpired | HConflict | HCapacity | HAudit.
#[export] Instance hc_err_eq_dec : EqDecision hc_err. Proof. solve_decision. Defined.

(** ** Data *)

(** [recordKind]; a decoded record may carry any other string. *)
Inductive hcKind := recordIssued | recordConsumed | recordClaimed | recordExpired | recordOther.
Inductive approvalState := stateIssued | stateConsumed | stateClaimed | stateExpired.
#[export] Instance hcKind_eq_dec : EqDecision hcKind. Proof. solve_decision. Defined.
#[export] Instance approvalState_eq_dec : EqDecision approvalState. Proof. solve_decision. Defined.

Record ledgerRecord := mkLedgerRecord {
  lr_SchemaVersion : Z;
  lr_Kind : hcKind;
  lr_RecordedAt : Z;
  lr_TokenDigest : string;
  lr_BindingDigest : string;
  lr_PlanJobID : string;
  lr_PlanInvocationID : string;
  lr_Action : string;
  lr_Actor : string;
  lr_WorkspaceID : string;
  lr_ParametersDigest : string;
  lr_StateDigest : string;
  lr_SummaryDigest : string;
  lr_ReleaseDigest : string;
  lr_PlannedAt : Z;
  lr_ExpiresAt : Z;
  lr_ApplyJobID : string;
  lr_InvocationID : string
}.

Record ledgerEntry := mkEntry {
  le_State : approvalState;
  le_TokenDigest : string;
  le_BindingDigest : string;
  le_PlanJobID : string;
  le_PlanInvocationID : string;
  le_Action : string;
  le_Actor : string;
  le_WorkspaceID : string;
  le_ParametersDigest : string;
  le_StateDigest : string;
  le_SummaryDigest : string;
  le_ReleaseDigest : string;
  le_PlannedAt : Z;
  le_ExpiresAt : Z;
  le_ApplyJobID : string;
  le_InvocationID : string
}.

(** The heap of entries and the two indexes into it. *)
Record ledgerState := mkLedger {
  ls_entries : list ledgerEntry;
  ls_byToken : gmap string nat;
  ls_byBinding : gmap string nat
}.
Definition ledger_empty : ledgerState := mkLedger [] ∅ ∅.

Definition token_entry (st : ledgerState) (t : string) : option (nat * ledgerEntry) :=
  i ← ls_byToken st !! t; e ← ls_entries st !! i; Some (i, e).
Definition binding_entry (st : ledgerState) (b : string) : option (nat * ledgerEntry) :=
  i ← ls_byBinding st !! b; e ← ls_entries st !! i; Some (i, e).

Definition entry_with_State (e : ledgerEntry) (s : approvalState) : ledgerEntry :=
  mkEntry s (le_TokenDigest e) (le_BindingDigest e) (le_PlanJobID e) (le_PlanInvocationID e) (le_Action e)
    (le_Actor e) (le_WorkspaceID e) (le_ParametersDigest e) (le_StateDigest e) (le_SummaryDigest e)
    (le_ReleaseDigest e) (le_PlannedAt e) (le_ExpiresAt e) (le_ApplyJobID e) (le_InvocationID e).
Definition entry_consumed (e : ledgerEntry) (job invocation : string) : ledgerEntry :=
  mkEntry stateConsumed (le_TokenDigest e) (le_BindingDigest e) (le_PlanJobID e) (le_PlanInvocationID e) (le_Action e)
    (le_Actor e) (le_WorkspaceID e) (le_ParametersDigest e) (le_StateDigest e) (le_SummaryDigest e)
    (le_ReleaseDigest e) (le_PlannedAt e) (le_ExpiresAt e) job invocation.

Definition set_entry (st : ledgerState) (i : nat) (e : ledgerEntry) : ledgerState :=
  mkLedger (<[i := e]> (ls_entries st)) (ls_byToken st) (ls_byBinding st).

(** [digestPattern]: 64 hexadecimal digits without upper-case letters. *)
Definition digestPattern (s : string) : bool := hex64 s.

(** ** Replaying one record ([ledgerState.apply]) *)

Definition issued_entry (r : ledgerRecord) : ledgerEntry :=
  mkEntry stateIssued (lr_TokenDigest r) (lr_BindingDigest r) (lr_PlanJobID r) (lr_PlanInvocationID r) (lr_Action r)
    (lr_Actor r) (lr_WorkspaceID r) (lr_ParametersDigest r) (lr_StateDigest r) (lr_SummaryDigest r)
    (lr_ReleaseDigest r) (lr_PlannedAt r) (lr_ExpiresAt r) "" "".

Definition ledger_apply (st : ledgerState) (r : ledgerRecord) : result hc_err ledgerState :=
  reject (lr_SchemaVersion r !=? schemaVersion) || (lr_RecordedAt r ==? 0) || negb (digestPattern (lr_BindingDigest r))
    with HInvalid ;;
  match lr_Kind r with
  | recordIssued =>
      reject negb (digestPattern (lr_TokenDigest r)) || (lr_PlanJobID r ==? "") || (lr_PlanInvocationID r ==? "") ||
             (lr_Action r ==? "") || (lr_Actor r ==? "") || (lr_WorkspaceID r ==? "") ||
             negb (digestPattern (lr_ParametersDigest r)) || negb (digestPattern (lr_StateDigest r)) ||
             negb (digestPattern (lr_SummaryDigest r)) || negb (digestPattern (lr_ReleaseDigest r)) ||
             (lr_PlannedAt r ==? 0) || (lr_ExpiresAt r !=? lr_PlannedAt r + ConfirmationTTL)
        with HInvalid ;;
      reject present (token_entry st (lr_TokenDigest r)) ||
             match binding_entry st (lr_BindingDigest r) with
             | Some (_, e) => le_State e !=? stateExpired
             | None => false
             end
        with HConflict ;;
      let i := length (ls_entries st) in
      Ok (mkLedger (ls_entries st ++ [issued_entry r])
            (<[lr_TokenDigest r := i]> (ls_byToken st)) (<[lr_BindingDigest r := i]> (ls_byBinding st)))
  | recordConsumed =>
      match token_entry st (lr_TokenDigest r) with
      | Some (i, e) =>
          reject (le_BindingDigest e !=? lr_BindingDigest r) || (le_State e !=? stateIssued) ||
                 (lr_ApplyJobID r ==? "") || (lr_InvocationID r ==? "") with HInvalid ;;
          Ok (set_entry st i (entry_consumed e (lr_ApplyJobID r) (lr_InvocationID r)))
      | None => Err HInvalid
      end
  | recordClaimed =>
      match binding_entry st (lr_BindingDigest r) with
      | Some (i, e) =>
          reject (le_State e !=? stateConsumed) || (le_ApplyJobID e !=? lr_ApplyJobID r) ||
                 (le_InvocationID e !=? lr_InvocationID r) with HInvalid ;;
          Ok (set_entry st i (entry_with_State e stateClaimed))
      | None => Err HInvalid
      end
  | recordExpired =>
      match binding_entry st (lr_BindingDigest r) with
      | Some (i, e) =>
          reject le_State e !=? stateIssued with HInvalid ;;
          Ok (set_entry st i (entry_with_State e stateExpired))
      | None => Err HInvalid
      end
  | recordOther => Err HInvalid
  end.

(** The entries reachable from [byBinding], in the map's iteration order. *)
Definition binding_entries (st : ledgerState) : list ledgerEntry :=
  omap (fun kv => ls_entries st !! snd kv) (map_to_list (ls_byBinding st)).

Definition liveIssued (st : ledgerState) : Z :=
  Z.of_nat (length (filter (fun e => le_State e = stateIssued) (binding_entries st))).

Definition expired_record (now : Z) (binding : string) : ledgerRecord :=
  mkLedgerRecord schemaVersion recordExpired now "" binding "" "" "" "" "" "" "" "" "" 0 0 "" "".

Definition expiredCleanupRecords (st : ledgerState) (now : Z) : list ledgerRecord :=
  map (fun e => expired_record now (le_BindingDigest e))
    (filter (fun e => le_State e = stateIssued /\ le_ExpiresAt e <= now) (binding_entries st)).

(** ** The durable journal *)

(** A line of the journal file: a record that decodes, or bytes that do not
    (a torn write, a foreign line). *)
Inductive jline := JRec (r : ledgerRecord) | JTorn.

Definition apply_line (st : ledgerState) (l : jline) : result hc_err ledgerState :=
  match l with JRec r => ledger_apply st r | JTorn => Err HInvalid end.

Definition recoverLocked (journal : list jline) : result hc_err ledgerState :=
  result_fold apply_line ledger_empty journal.

(** How an append ends: that many lines reached the file, then perhaps a torn
    one, before the failure. *)
Inductive append_io := AppendOk | AppendFails (complete : nat) (torn : bool).

(** What the environment answers during one call. *)
Record hc_io := mkIO {
  io_gate : bool;   (* the in-process gate is acquired *)
  io_lock : bool;   (* the file lock is acquired *)
  io_paths : bool;  (* the opened files still name their paths *)
  io_ctx : bool;    (* the context is still live after recovery *)
  io_audit : bool;  (* the audit sink accepts the event *)
  io_unlock : bool; (* the file lock is released *)
  io_append : append_io
}.

Record HStore := mkHStore {
  hs_journal : list jline;
  hs_unavailable : bool;
  hs_closed : bool;
  hs_capacity : Z
}.

Definition hs_fail (s : HStore) : HStore := mkHStore (hs_journal s) true (hs_closed s) (hs_capacity s).
Definition hs_with_journal (s : HStore) (j : list jline) : HStore :=
  mkHStore j (hs_unavailable s) (hs_closed s) (hs_capacity s).

(** [appendRecordsLocked]: on any write or sync failure the store becomes
    unavailable, whatever part of the records reached the file. *)
Definition appendRecordsLocked (io : hc_io) (s : HStore) (rs : list ledgerRecord) : HStore * result hc_err unit :=
  match io_append io with
  | AppendOk => (hs_with_journal s (hs_journal s ++ map JRec rs), Ok tt)
  | AppendFails n torn =>
      (hs_fail (hs_with_journal s (hs_journal s ++ map JRec (take n rs) ++ (if torn then [JTorn] else []))),
       Err HUnavailable)
  end.

(** [withState]. *)
Definition withState {A} (io : hc_io) (s : HStore)
    (action : HStore -> ledgerState -> HStore * result hc_err A) : HStore * result hc_err A :=
  if negb (io_gate io) then (s, Err HUnavailable)
  else if hs_closed s || hs_unavailable s then (s, Err HUnavailable)
  else if negb (io_lock io) then (s, Err HUnavailable)
  else
    let '(s', r) :=
      if negb (io_paths io) then (hs_fail s, Err HUnavailable)
      else match recoverLocked (hs_journal s) with
           | Err _ => (hs_fail s, Err HUnavailable)
           | Ok st => if negb (io_ctx io) then (s, Err HUnavailable) else action s st
           end in
    (if io_unlock io then s' else hs_fail s', r).

(** ** Tokens *)

Definition is_b64 (c : ascii) : bool := alnum c || (c ==? "-"%char) || (c ==? "_"%char).

(** The number of bytes [base64.RawURLEncoding.DecodeString] yields. *)
Definition b64_decoded_length (s : string) : option Z :=
  let s := strip_breaks s in
  if sall is_b64 s && negb (slen s mod 4 =? 1) then Some (slen s * 6 / 8) else None.

Definition newToken (random : list Z) : string * string :=
  let token := "hcnf_" +:+ b64_encode random in (token, sha256_hex token).

Definition validRawToken (token : string) : bool :=
  match CutPrefix token "hcnf_" with
  | Some raw => b64_decoded_length raw ==? Some 32
  | None => false
  end.

Definition digestToken (token : string) : string := sha256_hex token.

Definition validID (s : string) : bool :=
  (s !=? "") && (slen s <=? 128) && sall (fun c => between 33 126 c && (c !=? quote) && (c !=? "\"%char)) s.

(** ** Operations *)

Record IssueResult := mkIssueResult { ir_Token : string; ir_BindingDigest : string; ir_ExpiresAt : Z }.
Record ConsumeRequest := mkConsumeRequest {
  cr_Token : string; cr_Binding : ConfirmationBinding; cr_ApplyJobID : string; cr_InvocationID : string
}.
Record ConsumeReceipt := mkConsumeReceipt {
  cx_BindingDigest : string; cx_TokenDigest : string; cx_PlanJobID : string; cx_ApplyJobID : string;
  cx_InvocationID : string; cx_ExpiresAt : Z
}.
Record ClaimRequest := mkClaimRequest {
  cl_BindingDigest : string; cl_ApplyJobID : string; cl_InvocationID : string
}.
(** The claimed entry, with the claim's own fields. *)
Record ClaimReceipt := mkClaimReceipt { cc_Entry : ledgerEntry; cc_ClaimedAt : Z }.

Definition issue_record (now : Z) (tokenDigest bindingDigest : string) (b : ConfirmationBinding) : ledgerRecord :=
  mkLedgerRecord schemaVersion recordIssued now tokenDigest bindingDigest (cb_PlanJobID b) (cb_PlanInvocationID b)
    (cb_Action b) (cb_Actor b) (cb_WorkspaceID b) (cb_ParametersDigest b) (cb_StateDigest b) (cb_SummaryDigest b)
    (cb_ReleaseDigest b) (cb_PlannedAt b) (ExpiresAt b) "" "".

Definition Issue (io : hc_io) (now : Z) (random : list Z) (b : ConfirmationBinding) (s : HStore)
  : HStore * result hc_err IssueResult :=
  match binding_digest b with
  | Err _ => (s, Err HInvalid)
  | Ok bindingDigest =>
      if negb (ValidAt b now) then (s, Err HExpired)
      else
        let '(token, tokenDigest) := newToken random in
        let record := issue_record now tokenDigest bindingDigest b in
        withState io s (fun s st =>
          match binding_entry st bindingDigest with
          | Some (_, e) => (s, Err (if le_State e ==? stateExpired then HExpired else HConflict))
          | None =>
              let cleanup := expiredCleanupRecords st now in
              if hs_capacity s <? liveIssued st + 1 then (s, Err HCapacity)
              else if negb (io_audit io) then (s, Err HAudit)
              else
                let '(s', r) := appendRecordsLocked io s (cleanup ++ [record]) in
                (s', do! r ;; Ok (mkIssueResult token bindingDigest (ExpiresAt b)))
          end)
  end.

Definition consume_record (now : Z) (tokenDigest bindingDigest : string) (b : ConfirmationBinding)
    (job invocation : string) : ledgerRecord :=
  mkLedgerRecord schemaVersion recordConsumed now tokenDigest bindingDigest (cb_PlanJobID b) (cb_PlanInvocationID b)
    (cb_Action b) (cb_Actor b) (cb_WorkspaceID b) "" "" "" "" 0 (ExpiresAt b) job invocation.

(** The recorded entry is the one the binding describes. *)
Definition entry_matches (e : ledgerEntry) (b : ConfirmationBinding) : bool :=
  (le_PlanJobID e ==? cb_PlanJobID b) && (le_PlanInvocationID e ==? cb_PlanInvocationID b) &&
  (le_Action e ==? cb_Action b) && (le_Actor e ==? cb_Actor b) && (le_WorkspaceID e ==? cb_WorkspaceID b) &&
  (le_ParametersDigest e ==? cb_ParametersDigest b) && (le_StateDigest e ==? cb_StateDigest b) &&
  (le_SummaryDigest e ==? cb_SummaryDigest b) && (le_ReleaseDigest e ==? cb_ReleaseDigest b) &&
  (le_PlannedAt e ==? cb_PlannedAt b).

Definition Consume (io : hc_io) (now : Z) (req : ConsumeRequest) (s : HStore) : HStore * result hc_err ConsumeReceipt :=
  let b := cr_Binding req in
  if negb (is_ok (binding_validate b)) then (s, Err HInvalid)
  else if negb (validRawToken (cr_Token req)) || negb (validID (cr_ApplyJobID req)) || negb (validID (cr_InvocationID req))
  then (s, Err HInvalid)
  else match binding_digest b with
  | Err _ => (s, Err HInvalid)
  | Ok bindingDigest =>
      let tokenDigest := digestToken (cr_Token req) in
      if negb (ValidAt b now) then (s, Err HExpired)
      else
        let record := consume_record now tokenDigest bindingDigest b (cr_ApplyJobID req) (cr_InvocationID req) in
        withState io s (fun s st =>
          match token_entry st tokenDigest with
          | None => (s, Err HInvalid)
          | Some (_, e) =>
              if le_BindingDigest e !=? bindingDigest then (s, Err HInvalid)
              else if le_State e !=? stateIssued then (s, Err HConsumed)
              else if negb (now <? le_ExpiresAt e) then (s, Err HExpired)
              else if negb (entry_matches e b) then (s, Err HInvalid)
              else if negb (io_audit io) then (s, Err HAudit)
              else
                let '(s', r) := appendRecordsLocked io s [record] in
                (s', do! r ;; Ok (mkConsumeReceipt bindingDigest tokenDigest (cb_PlanJobID b) (cr_ApplyJobID req)
                                    (cr_InvocationID req) (le_ExpiresAt e)))
          end)
  end.

Definition claim_record (now : Z) (req : ClaimRequest) : ledgerRecord :=
  mkLedgerRecord schemaVersion recordClaimed now "" (cl_BindingDigest req) "" "" "" "" "" "" "" "" "" 0 0
    (cl_ApplyJobID req) (cl_InvocationID req).

Definition Claim (io : hc_io) (now : Z) (req : ClaimRequest) (s : HStore) : HStore * result hc_err ClaimReceipt :=
  if negb (digestPattern (cl_BindingDigest req)) || negb (validID (cl_ApplyJobID req)) || negb (validID (cl_InvocationID req))
  then (s, Err HInvalid)
  else
    withState io s (fun s st =>
      match binding_entry st (cl_BindingDigest req) with
      | None => (s, Err HInvalid)
      | Some (_, e) =>
          if (le_State e !=? stateConsumed) || (le_ApplyJobID e !=? cl_ApplyJobID req) ||
             (le_InvocationID e !=? cl_InvocationID req)
          then (s, Err (if le_State e ==? stateClaimed then HConsumed else HInvalid))
          else if negb (now <? le_ExpiresAt e) then (s, Err HExpired)
          else if negb (io_audit io) then (s, Err HAudit)
          else
            let '(s', r) := appendRecordsLocked io s [claim_record now req] in
            (s', do! r ;; Ok (mkClaimReceipt e now))
      end).

(** [Close] closes the descriptors once; afterwards every operation fails. *)
Definition Close (s : HStore) : HStore := mkHStore (hs_journal s) (hs_unavailable s) true (hs_capacity s).
