(* ===== verification/HostConfirmationFacts.v ===== *)
(** * Package [internal/hostconfirmation]: what the ledger guarantees

    The replayed ledger is well formed, a token is consumed at most once, a
    binding is claimed at most once and only by the job that consumed it, and
    the issue, consume, claim sequence of a fresh binding succeeds. *)

From Stdlib Require Import Ascii.
From S2P Require Import Prelude GoText GoJson GoEncoding ActionAbi HostConfirmation.

(** ** Well-formed ledgers *)

(** Every entry is reachable from its token; every entry that has not expired
    is the current one of its binding; the indexes only hold addresses of
    entries with their key. *)
Record ledger_wf (st : ledgerState) : Prop := {
  lw_token t i : ls_byToken st !! t = Some i -> exists e, ls_entries st !! i = Some e /\ le_TokenDigest e = t;
  lw_binding b i : ls_byBinding st !! b = Some i -> exists e, ls_entries st !! i = Some e /\ le_BindingDigest e = b;
  lw_by_token i e : ls_entries st !! i = Some e -> ls_byToken st !! le_TokenDigest e = Some i;
  lw_current i e : ls_entries st !! i = Some e -> le_State e <> stateExpired ->
                   ls_byBinding st !! le_BindingDigest e = Some i
}.

Lemma token_entry_Some st t i e :
  token_entry st t = Some (i, e) <-> ls_byToken st !! t = Some i /\ ls_entries st !! i = Some e.
Proof.
  unfold token_entry. destruct (ls_byToken st !! t) as [j|]; cbn; [|naive_solver].
  destruct (ls_entries st !! j) eqn:E; cbn; naive_solver.
Qed.

Lemma binding_entry_Some st b i e :
  binding_entry st b = Some (i, e) <-> ls_byBinding st !! b = Some i /\ ls_entries st !! i = Some e.
Proof.
  unfold binding_entry. destruct (ls_byBinding st !! b) as [j|]; cbn; [|naive_solver].
  destruct (ls_entries st !! j) eqn:E; cbn; naive_solver.
Qed.

Lemma token_entry_None st t : ledger_wf st -> token_entry st t = None -> ls_byToken st !! t = None.
Proof.
  intros Hwf H. destruct (ls_byToken st !! t) as [i|] eqn:E; [|done].
  destruct (lw_token st Hwf t i E) as (e & He & _). exfalso.
  assert (token_entry st t = Some (i, e)) by (by apply token_entry_Some). congruence.
Qed.

Lemma binding_entry_None st b : ledger_wf st -> binding_entry st b = None -> ls_byBinding st !! b = None.
Proof.
  intros Hwf H. destruct (ls_byBinding st !! b) as [i|] eqn:E; [|done].
  destruct (lw_binding st Hwf b i E) as (e & He & _). exfalso.
  assert (binding_entry st b = Some (i, e)) by (by apply binding_entry_Some). congruence.
Qed.

Lemma ledger_empty_wf : ledger_wf ledger_empty.
Proof. split; cbn; intros *; rewrite ?lookup_empty, ?lookup_nil; done. Qed.

(** Replacing an entry by one with the same keys keeps the indexes right,
    unless it revives an expired entry. *)
Lemma set_entry_wf st i e e' :
  ledger_wf st -> ls_entries st !! i = Some e ->
  le_TokenDigest e' = le_TokenDigest e -> le_BindingDigest e' = le_BindingDigest e ->
  le_State e <> stateExpired -> ledger_wf (set_entry st i e').
Proof.
  intros [H1 H2 H3 H4] Hi Ht Hb Hs. assert (i < length (ls_entries st))%nat by (by eapply lookup_lt_Some).
  split; cbn; intros k j Hk.
  - destruct (H1 k j Hk) as (x & Hx & Hk'). destruct (decide (i = j)) as [<-|].
    + exists e'. rewrite list_lookup_insert_eq by done. split; congruence.
    + exists x. by rewrite list_lookup_insert_ne.
  - destruct (H2 k j Hk) as (x & Hx & Hk'). destruct (decide (i = j)) as [<-|].
    + exists e'. rewrite list_lookup_insert_eq by done. split; congruence.
    + exists x. by rewrite list_lookup_insert_ne.
  - destruct (decide (i = k)) as [<-|].
    + rewrite list_lookup_insert_eq in Hk by done. simplify_eq. rewrite Ht. by apply H3.
    + rewrite list_lookup_insert_ne in Hk by done. by apply H3.
  - intros Hne. destruct (decide (i = k)) as [<-|].
    + rewrite list_lookup_insert_eq in Hk by done. simplify_eq. rewrite Hb. by apply H4.
    + rewrite list_lookup_insert_ne in Hk by done. by apply H4.
Qed.

(** A new entry of a fresh token, for a binding without a live entry. *)
Lemma add_entry_wf st e :
  ledger_wf st -> ls_byToken st !! le_TokenDigest e = None ->
  (forall i x, ls_byBinding st !! le_BindingDigest e = Some i -> ls_entries st !! i = Some x -> le_State x = stateExpired) ->
  ledger_wf (mkLedger (ls_entries st ++ [e]) (<[le_TokenDigest e := length (ls_entries st)]> (ls_byToken st))
               (<[le_BindingDigest e := length (ls_entries st)]> (ls_byBinding st))).
Proof.
  intros [H1 H2 H3 H4] Ht Hb. split; cbn; intros k j Hk.
  - destruct (decide (le_TokenDigest e = k)) as [<-|].
    + rewrite lookup_insert_eq in Hk. simplify_eq. exists e. by rewrite list_lookup_middle.
    + rewrite lookup_insert_ne in Hk by done. destruct (H1 k j Hk) as (x & Hx & ?). exists x.
      by rewrite (lookup_app_l_Some _ _ _ _ Hx).
  - destruct (decide (le_BindingDigest e = k)) as [<-|].
    + rewrite lookup_insert_eq in Hk. simplify_eq. exists e. by rewrite list_lookup_middle.
    + rewrite lookup_insert_ne in Hk by done. destruct (H2 k j Hk) as (x & Hx & ?). exists x.
      by rewrite (lookup_app_l_Some _ _ _ _ Hx).
  - apply lookup_app_Some in Hk as [Hk|[Hge Hk]].
    + specialize (H3 k j Hk). rewrite lookup_insert_ne; [done|]. congruence.
    + apply list_lookup_singleton_Some in Hk as [Hk <-].
      rewrite lookup_insert_eq. f_equal. lia.
  - intros Hne. apply lookup_app_Some in Hk as [Hk|[Hge Hk]].
    + specialize (H4 k j Hk Hne). rewrite lookup_insert_ne; [done|]. intros Heq. rewrite <- Heq in H4.
      by specialize (Hb _ _ H4 Hk).
    + apply list_lookup_singleton_Some in Hk as [Hk <-]. rewrite lookup_insert_eq. f_equal. lia.
Qed.

Lemma ledger_apply_wf st r st' : ledger_wf st -> ledger_apply st r = Ok st' -> ledger_wf st'.
Proof.
  intros Hwf H. unfold ledger_apply in H. ok_step H. destruct (lr_Kind r) eqn:Ek; [| | | |discriminate H].
  - do 2 ok_step H. simplify_eq. breflect. apply (add_entry_wf st (issued_entry r)); [done| |]; cbn.
    + apply token_entry_None; [done|]. by destruct (token_entry _ _); [destruct E1|].
    + intros i x Hi Hx. destruct E1 as [_ E1]. rewrite (proj2 (binding_entry_Some _ _ _ _) (conj Hi Hx)) in E1.
      by breflect.
  - destruct (token_entry st (lr_TokenDigest r)) as [[i e]|] eqn:Et; [|done]. ok_step H. simplify_eq. breflect.
    apply token_entry_Some in Et as [_ Hi]. eapply set_entry_wf; try done. destruct_and?; congruence.
  - destruct (binding_entry st (lr_BindingDigest r)) as [[i e]|] eqn:Et; [|done]. ok_step H. simplify_eq. breflect.
    apply binding_entry_Some in Et as [_ Hi]. eapply set_entry_wf; try done. destruct_and?; congruence.
  - destruct (binding_entry st (lr_BindingDigest r)) as [[i e]|] eqn:Et; [|done]. ok_step H. simplify_eq. breflect.
    apply binding_entry_Some in Et as [_ Hi]. eapply set_entry_wf; try done. congruence.
Qed.

Lemma apply_line_wf st l st' : ledger_wf st -> apply_line st l = Ok st' -> ledger_wf st'.
Proof. destruct l; [apply ledger_apply_wf | done]. Qed.

Lemma recover_wf j st : recoverLocked j = Ok st -> ledger_wf st.
Proof. apply result_fold_inv; [apply apply_line_wf | apply ledger_empty_wf]. Qed.
#[export] Hint Resolve ledger_apply_wf apply_line_wf recover_wf : go.

Lemma recover_snoc j l st :
  recoverLocked (j ++ [l]) = Ok st <-> exists st0, recoverLocked j = Ok st0 /\ apply_line st0 l = Ok st.
Proof.
  unfold recoverLocked. rewrite result_fold_app, result_bind_ok. cbn.
  split; intros (st0 & H1 & H2); exists st0; split; try done; [by ok_path H2; subst | by rewrite H2].
Qed.

Lemma recover_prefix j1 j2 st :
  recoverLocked (j1 ++ j2) = Ok st -> exists st0, recoverLocked j1 = Ok st0 /\ result_fold apply_line st0 j2 = Ok st.
Proof. unfold recoverLocked. by rewrite result_fold_app, result_bind_ok. Qed.

(** ** Spent bindings *)

(** The current entry of binding [b] is in one of the states [P]. *)
Definition binding_in (P : approvalState -> Prop) (st : ledgerState) (b : string) : Prop :=
  exists i e, binding_entry st b = Some (i, e) /\ P (le_State e).
Definition spent (s : approvalState) : Prop := s = stateConsumed \/ s = stateClaimed.

(** What applying a record does to the current entry of a binding. *)
Lemma binding_entry_set st i e b :
  (i < length (ls_entries st))%nat ->
  binding_entry (set_entry st i e) b =
  match binding_entry st b with Some (j, x) => Some (j, if decide (i = j) then e else x) | None => None end.
Proof.
  intros Hi. unfold binding_entry, set_entry; cbn. destruct (ls_byBinding st !! b) as [j|]; [|done]. cbn.
  destruct (decide (i = j)) as [<-|].
  - rewrite list_lookup_insert_eq by done. destruct (lookup_lt_is_Some_2 _ _ Hi) as [x ->]. cbn.
    by rewrite decide_True.
  - rewrite list_lookup_insert_ne by done. destruct (ls_entries st !! j); [|done]. cbn. by rewrite decide_False.
Qed.

(** The ledger as a transition relation: what an accepted record does. *)
Inductive ledger_step (st : ledgerState) (r : ledgerRecord) : ledgerState -> Prop :=
| step_issued :
    lr_Kind r = recordIssued -> token_entry st (lr_TokenDigest r) = None ->
    (forall i e, binding_entry st (lr_BindingDigest r) = Some (i, e) -> le_State e = stateExpired) ->
    ledger_step st r (mkLedger (ls_entries st ++ [issued_entry r])
                        (<[lr_TokenDigest r := length (ls_entries st)]> (ls_byToken st))
                        (<[lr_BindingDigest r := length (ls_entries st)]> (ls_byBinding st)))
| step_consumed i e :
    lr_Kind r = recordConsumed -> token_entry st (lr_TokenDigest r) = Some (i, e) ->
    le_BindingDigest e = lr_BindingDigest r -> le_State e = stateIssued ->
    ledger_step st r (set_entry st i (entry_consumed e (lr_ApplyJobID r) (lr_InvocationID r)))
| step_claimed i e :
    lr_Kind r = recordClaimed -> binding_entry st (lr_BindingDigest r) = Some (i, e) ->
    le_State e = stateConsumed -> le_ApplyJobID e = lr_ApplyJobID r -> le_InvocationID e = lr_InvocationID r ->
    ledger_step st r (set_entry st i (entry_with_State e stateClaimed))
| step_expired i e :
    lr_Kind r = recordExpired -> binding_entry st (lr_BindingDigest r) = Some (i, e) -> le_State e = stateIssued ->
    ledger_step st r (set_entry st i (entry_with_State e stateExpired)).

Lemma ledger_apply_step st r st' : ledger_apply st r = Ok st' -> ledger_step st r st'.
Proof.
  intros H. unfold ledger_apply in H. ok_step H. clear E. destruct (lr_Kind r) eqn:Ek; [| | | |discriminate H].
  - do 2 ok_step H. simplify_eq. breflect. destruct E0 as [Et Eb]. apply step_issued; [done| |].
    + by destruct (token_entry _ _).
    + intros i e Hb. rewrite Hb in Eb. by breflect.
  - destruct (token_entry st (lr_TokenDigest r)) as [[i e]|] eqn:Et; [|done]. ok_step H. simplify_eq. breflect.
    destruct_and?. by econstructor.
  - destruct (binding_entry st (lr_BindingDigest r)) as [[i e]|] eqn:Et; [|done]. ok_step H. simplify_eq. breflect.
    destruct_and?. by apply step_claimed.
  - destruct (binding_entry st (lr_BindingDigest r)) as [[i e]|] eqn:Et; [|done]. ok_step H. simplify_eq. breflect.
    by apply step_expired.
Qed.

Lemma binding_entry_lt st b i e : binding_entry st b = Some (i, e) -> (i < length (ls_entries st))%nat.
Proof. intros [_ H]%binding_entry_Some. by eapply lookup_lt_Some. Qed.

Lemma token_entry_lt st t i e : token_entry st t = Some (i, e) -> (i < length (ls_entries st))%nat.
Proof. intros [_ H]%token_entry_Some. by eapply lookup_lt_Some. Qed.
#[export] Hint Resolve binding_entry_lt token_entry_lt : go.

Lemma binding_entry_key st b i e : ledger_wf st -> binding_entry st b = Some (i, e) -> le_BindingDigest e = b.
Proof. intros Hwf [H1 H2]%binding_entry_Some. destruct (lw_binding st Hwf b i H1) as (x & ? & ?). congruence. Qed.

Lemma token_entry_key st t i e : ledger_wf st -> token_entry st t = Some (i, e) -> le_TokenDigest e = t.
Proof. intros Hwf [H1 H2]%token_entry_Some. destruct (lw_token st Hwf t i H1) as (x & ? & ?). congruence. Qed.

(** The entry of a token, while it has not expired, is the one of its binding. *)
Lemma token_entry_current st t i e :
  ledger_wf st -> token_entry st t = Some (i, e) -> le_State e <> stateExpired ->
  binding_entry st (le_BindingDigest e) = Some (i, e).
Proof.
  intros Hwf [H1 H2]%token_entry_Some Hs. apply binding_entry_Some. split; [|done].
  by apply (lw_current st Hwf).
Qed.

(** A new entry leaves the entries of the other bindings alone. *)
Lemma binding_entry_other st x t bt bb b i e :
  b <> bb -> binding_entry st b = Some (i, e) ->
  binding_entry (mkLedger (ls_entries st ++ [x]) (<[t := bt]> (ls_byToken st)) (<[bb := bt]> (ls_byBinding st))) b
  = Some (i, e).
Proof.
  intros Hne [H1 H2]%binding_entry_Some. apply binding_entry_Some; cbn. rewrite lookup_insert_ne by done.
  by rewrite (lookup_app_l_Some _ _ _ _ H2).
Qed.

(** A spent binding stays spent: it is never issued, consumed or expired
    again. *)
Lemma spent_step st r st' b :
  ledger_wf st -> ledger_step st r st' -> binding_in spent st b ->
  binding_in spent st' b /\ (lr_BindingDigest r = b -> lr_Kind r = recordClaimed).
Proof.
  intros Hwf Hstep (i & e & Hb & Hs).
  assert (Hne : le_State e <> stateExpired) by (destruct Hs; congruence).
  destruct Hstep as [Hk Ht Hx | j x Hk Ht Hxb Hxs | j x Hk Hxb Hxs _ _ | j x Hk Hxb Hxs].
  - assert (b <> lr_BindingDigest r) by (intros ->; by apply Hne, (Hx i)).
    split; [|congruence]. exists i, e. split; [|done]. by apply binding_entry_other.
  - pose proof (token_entry_current st _ _ _ Hwf Ht ltac:(congruence)) as Hc. rewrite Hxb in Hc.
    assert (b <> lr_BindingDigest r) by (intros ->; destruct Hs; congruence).
    split; [|congruence]. exists i, e. rewrite binding_entry_set by eauto with go. rewrite Hb.
    rewrite decide_False; [done|]. intros <-.
    apply binding_entry_Some in Hb as [_ Hb]. apply token_entry_Some in Ht as [_ Ht]. destruct Hs; congruence.
  - split; [|done]. exists i. rewrite binding_entry_set by eauto with go. rewrite Hb.
    destruct (decide (j = i)); eexists; (split; [done|]); [by right | done].
  - assert (b <> lr_BindingDigest r) by (intros ->; destruct Hs; congruence).
    split; [|congruence]. exists i, e. rewrite binding_entry_set by eauto with go. rewrite Hb.
    rewrite decide_False; [done|]. intros <-. apply binding_entry_Some in Hb as [_ Hb], Hxb as [_ Hxb].
    destruct Hs; congruence.
Qed.

(** A claimed binding stays claimed and no further record of it is accepted. *)
Lemma claimed_step st r st' b :
  ledger_wf st -> ledger_step st r st' -> binding_in (eq stateClaimed) st b ->
  binding_in (eq stateClaimed) st' b /\ lr_BindingDigest r <> b.
Proof.
  intros Hwf Hstep (i & e & Hb & Hs).
  assert (Hsp : binding_in spent st b) by (exists i, e; split; [done|]; by right).
  destruct (spent_step _ _ _ _ Hwf Hstep Hsp) as [_ Hr].
  assert (Hnb : lr_BindingDigest r <> b).
  { intros <-. specialize (Hr eq_refl). inversion Hstep; congruence. }
  split; [|done]. apply binding_entry_Some in Hb as Hb'. destruct Hb' as [_ Hi].
  destruct Hstep as [Hk Ht Hx | j x Hk Ht Hxb Hxs | j x Hk Hxb Hxs _ _ | j x Hk Hxb Hxs].
  - exists i, e. split; [|done]. apply binding_entry_other; [congruence|done].
  - apply token_entry_Some in Ht as Ht'. exists i, e. rewrite binding_entry_set by eauto with go.
    rewrite Hb, decide_False; [done|]. intros <-. destruct Ht'. congruence.
  - apply binding_entry_Some in Hxb as Ht'. exists i, e. rewrite binding_entry_set by eauto with go.
    rewrite Hb, decide_False; [done|]. intros <-. destruct Ht'. congruence.
  - apply binding_entry_Some in Hxb as Ht'. exists i, e. rewrite binding_entry_set by eauto with go.
    rewrite Hb, decide_False; [done|]. intros <-. destruct Ht'. congruence.
Qed.

(** After a record, in any extension of the journal that still recovers. *)
Lemma spent_forever j : forall st st' b,
  ledger_wf st -> result_fold apply_line st j = Ok st' -> binding_in spent st b ->
  binding_in spent st' b /\ (forall r, JRec r ∈ j -> lr_BindingDigest r = b -> lr_Kind r = recordClaimed).
Proof.
  induction j as [|l j IH]; intros st st' b Hwf H Hs; cbn in H.
  - simplify_eq. split; [done|]. by intros r Hr%not_elem_of_nil.
  - ok_step H. destruct l as [r|]; [|done]. cbn in E.
    destruct (spent_step _ _ _ _ Hwf (ledger_apply_step _ _ _ E) Hs) as [Hs' Hr].
    destruct (IH _ _ b (ledger_apply_wf _ _ _ Hwf E) H Hs') as [Hs'' Hr']. split; [done|].
    intros x [?|Hx]%elem_of_cons; [simplify_eq; apply Hr | by apply Hr'].
Qed.

Lemma claimed_forever j : forall st st' b,
  ledger_wf st -> result_fold apply_line st j = Ok st' -> binding_in (eq stateClaimed) st b ->
  binding_in (eq stateClaimed) st' b /\ (forall r, JRec r ∈ j -> lr_BindingDigest r <> b).
Proof.
  induction j as [|l j IH]; intros st st' b Hwf H Hs; cbn in H.
  - simplify_eq. split; [done|]. by intros r Hr%not_elem_of_nil.
  - ok_step H. destruct l as [r|]; [|done]. cbn in E.
    destruct (claimed_step _ _ _ _ Hwf (ledger_apply_step _ _ _ E) Hs) as [Hs' Hr].
    destruct (IH _ _ b (ledger_apply_wf _ _ _ Hwf E) H Hs') as [Hs'' Hr']. split; [done|].
    intros x [?|Hx]%elem_of_cons; [simplify_eq; apply Hr | by apply Hr'].
Qed.

(** A spent token stays spent, and no later record consumes or issues it. *)
Definition token_spent (st : ledgerState) (t : string) : Prop :=
  exists i e, token_entry st t = Some (i, e) /\ spent (le_State e).

Lemma token_entry_set st i e t :
  (i < length (ls_entries st))%nat ->
  token_entry (set_entry st i e) t =
  match token_entry st t with Some (j, x) => Some (j, if decide (i = j) then e else x) | None => None end.
Proof.
  intros Hi. unfold token_entry, set_entry; cbn. destruct (ls_byToken st !! t) as [j|]; [|done]. cbn.
  destruct (decide (i = j)) as [<-|].
  - rewrite list_lookup_insert_eq by done. destruct (lookup_lt_is_Some_2 _ _ Hi) as [x ->]. cbn.
    by rewrite decide_True.
  - rewrite list_lookup_insert_ne by done. destruct (ls_entries st !! j); [|done]. cbn. by rewrite decide_False.
Qed.

Lemma token_spent_step st r st' t :
  ledger_step st r st' -> token_spent st t ->
  token_spent st' t /\ (lr_Kind r = recordConsumed -> lr_TokenDigest r <> t).
Proof.
  intros Hstep (i & e & Hb & Hs). apply token_entry_Some in Hb as Hb'. destruct Hb' as [H1 H2].
  destruct Hstep as [Hk Ht Hx | j x Hk Ht Hxb Hxs | j x Hk Hxb Hxs _ _ | j x Hk Hxb Hxs].
  - split; [|congruence]. assert (t <> lr_TokenDigest r) by congruence. exists i, e. split; [|done].
    apply token_entry_Some; cbn. rewrite lookup_insert_ne by done. by rewrite (lookup_app_l_Some _ _ _ _ H2).
  - apply token_entry_Some in Ht as Ht'. destruct Ht' as [H3 H4]. split.
    + exists i, e. rewrite token_entry_set by eauto with go. rewrite Hb, decide_False; [done|].
      intros <-. destruct Hs; congruence.
    + intros _ <-. destruct Hs; congruence.
  - split; [|congruence]. exists i. rewrite token_entry_set by eauto with go. rewrite Hb.
    destruct (decide (j = i)); eexists; (split; [done|]); [by right | done].
  - split; [|congruence]. apply binding_entry_Some in Hxb as Ht'. exists i, e.
    rewrite token_entry_set by eauto with go. rewrite Hb, decide_False; [done|].
    intros <-. destruct Ht', Hs; congruence.
Qed.

Lemma token_spent_forever j : forall st st' t,
  result_fold apply_line st j = Ok st' -> token_spent st t ->
  token_spent st' t /\ (forall r, JRec r ∈ j -> lr_Kind r = recordConsumed -> lr_TokenDigest r <> t).
Proof.
  induction j as [|l j IH]; intros st st' t H Hs; cbn in H.
  - simplify_eq. split; [done|]. by intros r Hr%not_elem_of_nil.
  - ok_step H. destruct l as [r|]; [|done]. cbn in E.
    destruct (token_spent_step _ _ _ _ (ledger_apply_step _ _ _ E) Hs) as [Hs' Hr].
    destruct (IH _ _ t H Hs') as [Hs'' Hr']. split; [done|].
    intros x [?|Hx]%elem_of_cons; [simplify_eq; apply Hr | by apply Hr'].
Qed.

(** ** Where the entries come from *)

(** Every entry was issued by a record of the journal, and a spent one was
    consumed by a record that names its job and invocation. *)
Definition issued_by (j : list jline) (e : ledgerEntry) : Prop :=
  exists r, JRec r ∈ j /\ lr_Kind r = recordIssued /\
            issued_entry r = entry_with_State (entry_consumed e "" "") stateIssued.
Definition consumed_by (j : list jline) (e : ledgerEntry) : Prop :=
  exists r, JRec r ∈ j /\ lr_Kind r = recordConsumed /\ lr_TokenDigest r = le_TokenDigest e /\
            lr_BindingDigest r = le_BindingDigest e /\ lr_ApplyJobID r = le_ApplyJobID e /\
            lr_InvocationID r = le_InvocationID e.
Definition provenance (j : list jline) (e : ledgerEntry) : Prop :=
  issued_by j e /\ (spent (le_State e) -> consumed_by j e).

Lemma provenance_mono j l e : provenance j e -> provenance (j ++ [l]) e.
Proof.
  intros [(r & Hr & H) Hc]. split.
  - exists r. split; [apply elem_of_app; by left | done].
  - intros Hs. destruct (Hc Hs) as (q & Hq & H'). exists q. split; [apply elem_of_app; by left | done].
Qed.

Lemma Forall_set_entry (P : ledgerEntry -> Prop) st i e :
  Forall P (ls_entries st) -> P e -> Forall P (ls_entries (set_entry st i e)).
Proof. intros. by apply Forall_insert. Qed.

Lemma recover_provenance j st : recoverLocked j = Ok st -> Forall (provenance j) (ls_entries st).
Proof.
  revert st. induction j as [|l j IH] using rev_ind; intros st H.
  - unfold recoverLocked in H. cbn in H. simplify_eq. apply Forall_nil. done.
  - apply recover_snoc in H as (st0 & H0 & H1). specialize (IH _ H0) as Hp.
    apply (Forall_impl _ (provenance (j ++ [l]))) in Hp; [|intros; by apply provenance_mono].
    assert (Hlast : l ∈ j ++ [l]) by (apply elem_of_app; right; by apply list_elem_of_singleton).
    pose proof (recover_wf _ _ H0) as Hwf.
    destruct l as [r|]; [|done]. cbn in H1. apply ledger_apply_step in H1.
    destruct H1 as [Hk Ht Hx | i x Hk Ht Hxb Hxs | i x Hk Hxb Hxs _ _ | i x Hk Hxb Hxs].
    + apply Forall_app. split; [done|]. apply Forall_singleton. split; [by exists r|]. intros [|]; done.
    + pose proof (token_entry_key _ _ _ _ Hwf Ht) as Hkey.
      apply token_entry_Some in Ht as [_ Hi]. pose proof (proj1 (Forall_lookup _ _) Hp _ _ Hi) as [(q & ? & ? & Hq) _].
      apply Forall_set_entry; [done|]. split; [by exists q|]. intros _. by exists r.
    + apply binding_entry_Some in Hxb as [_ Hi]. pose proof (proj1 (Forall_lookup _ _) Hp _ _ Hi) as [(q & ? & ? & Hq) Hc].
      apply Forall_set_entry; [done|]. split; [by exists q|]. intros _. apply Hc. by left.
    + apply binding_entry_Some in Hxb as [_ Hi]. pose proof (proj1 (Forall_lookup _ _) Hp _ _ Hi) as [(q & ? & ? & Hq) Hc].
      apply Forall_set_entry; [done|]. split; [by exists q|]. intros [|]; done.
Qed.

Lemma consumed_now_spent st r st' :
  ledger_wf st -> ledger_step st r st' -> lr_Kind r = recordConsumed ->
  token_spent st' (lr_TokenDigest r) /\ binding_in spent st' (lr_BindingDigest r).
Proof.
  intros Hwf Hstep Hk. inversion Hstep as [|i e _ Ht Hb Hs| |]; try congruence. subst.
  pose proof (token_entry_current _ _ _ _ Hwf Ht ltac:(congruence)) as Hc. rewrite Hb in Hc. split.
  - exists i. rewrite token_entry_set, Ht, decide_True by eauto with go. eexists. split; [done|]. by left.
  - exists i. rewrite binding_entry_set, Hc, decide_True by eauto with go. eexists. split; [done|]. by left.
Qed.

Lemma claimed_now_claimed st r st' :
  ledger_step st r st' -> lr_Kind r = recordClaimed -> binding_in (eq stateClaimed) st' (lr_BindingDigest r).
Proof.
  intros Hstep Hk. inversion Hstep as [| |i e _ Hb Hs|]; try congruence. subst.
  exists i. rewrite binding_entry_set, Hb, decide_True by eauto with go. by eexists.
Qed.

(** Split the recovery of a journal at one of its records. *)
Lemma recover_split j1 r j2 st :
  recoverLocked (j1 ++ JRec r :: j2) = Ok st ->
  exists st0 st1, recoverLocked j1 = Ok st0 /\ ledger_wf st0 /\ ledger_step st0 r st1 /\ ledger_wf st1 /\
                  result_fold apply_line st1 j2 = Ok st.
Proof.
  intros (st0 & H0 & H)%recover_prefix. cbn in H. ok_step H. pose proof (recover_wf _ _ H0).
  exists st0, a. repeat split_and!; eauto with go. by apply ledger_apply_step.
Qed.

(** A consumption is the only one of its token and of its binding after it. *)
Lemma consume_unique_after j1 r j2 st :
  recoverLocked (j1 ++ JRec r :: j2) = Ok st -> lr_Kind r = recordConsumed ->
  forall q, JRec q ∈ j2 -> lr_Kind q = recordConsumed ->
  lr_TokenDigest q <> lr_TokenDigest r /\ lr_BindingDigest q <> lr_BindingDigest r.
Proof.
  intros (st0 & st1 & H0 & Hwf & Hstep & Hwf1 & H2)%recover_split Hk q Hq Hqk.
  destruct (consumed_now_spent _ _ _ Hwf Hstep Hk) as [Ht Hb].
  destruct (token_spent_forever _ _ _ _ H2 Ht) as [_ Hnt].
  destruct (spent_forever _ _ _ _ Hwf1 H2 Hb) as [_ Hnb].
  split; [by apply Hnt|]. intros Heq. specialize (Hnb q Hq Heq). congruence.
Qed.

Lemma claim_unique_after j1 r j2 st :
  recoverLocked (j1 ++ JRec r :: j2) = Ok st -> lr_Kind r = recordClaimed ->
  forall q, JRec q ∈ j2 -> lr_BindingDigest q <> lr_BindingDigest r.
Proof.
  intros (st0 & st1 & H0 & Hwf & Hstep & Hwf1 & H2)%recover_split Hk.
  by apply (claimed_forever _ _ _ _ Hwf1 H2 (claimed_now_claimed _ _ _ Hstep Hk)).
Qed.

(** In every journal the ledger accepts, a consumption follows the issue of
    its token for its binding and is the only consumption of that token and of
    that binding; a claim follows the consumption of its binding by the same
    apply job and invocation, and is the only claim of that binding. *)
Theorem confirmation_single_use j1 r j2 st (H : recoverLocked (j1 ++ JRec r :: j2) = Ok st) :
  (lr_Kind r = recordConsumed ->
     (exists q, JRec q ∈ j1 /\ lr_Kind q = recordIssued /\ lr_TokenDigest q = lr_TokenDigest r /\
                lr_BindingDigest q = lr_BindingDigest r) /\
     (forall q, JRec q ∈ j1 ++ j2 -> lr_Kind q = recordConsumed ->
                lr_TokenDigest q <> lr_TokenDigest r /\ lr_BindingDigest q <> lr_BindingDigest r)) /\
  (lr_Kind r = recordClaimed ->
     (exists q, JRec q ∈ j1 /\ lr_Kind q = recordConsumed /\ lr_BindingDigest q = lr_BindingDigest r /\
                lr_ApplyJobID q = lr_ApplyJobID r /\ lr_InvocationID q = lr_InvocationID r) /\
     (forall q, JRec q ∈ j1 ++ j2 -> lr_Kind q = recordClaimed -> lr_BindingDigest q <> lr_BindingDigest r)).
Proof.
  destruct (recover_split _ _ _ _ H) as (st0 & st1 & H0 & Hwf & Hstep & Hwf1 & H2).
  pose proof (recover_provenance _ _ H0) as Hp. rewrite Forall_lookup in Hp.
  split; intros Hk; split.
  - inversion Hstep as [|i e _ Ht Hb Hs| |]; try congruence.
    pose proof (token_entry_key _ _ _ _ Hwf Ht) as Hkey. apply token_entry_Some in Ht as [_ Hi].
    destruct (Hp _ _ Hi) as [(q & Hq & Hqk & Heq) _]. exists q. injection Heq. intros. repeat split; congruence.
  - intros q [Hq|Hq]%elem_of_app Hqk; [|by eapply consume_unique_after].
    apply list_elem_of_split in Hq as (a & b & ->). rewrite <- app_assoc in H. cbn in H.
    destruct (consume_unique_after _ _ _ _ H Hqk r) as [? ?]; [|done|by split].
    apply elem_of_app. right. by left.
  - inversion Hstep as [| |i e _ Hb Hs Hj Hi|]; try congruence.
    pose proof (binding_entry_key _ _ _ _ Hwf Hb) as Hkey. apply binding_entry_Some in Hb as [_ Hx].
    destruct (Hp _ _ Hx) as [_ (q & Hq & Hqk & ? & ? & ? & ?)]; [by left|]. exists q. repeat split; congruence.
  - intros q [Hq|Hq]%elem_of_app Hqk; [|by eapply claim_unique_after].
    apply list_elem_of_split in Hq as (a & b & ->). rewrite <- app_assoc in H. cbn in H.
    intros Heq. apply (claim_unique_after _ _ _ _ H Hqk r); [|done]. apply elem_of_app. right. by left.
Qed.

(** ** What the operations append *)

(** The digests of the ledger's entries are digests. *)
Definition digests_ok (st : ledgerState) : Prop :=
  Forall (fun e => digestPattern (le_BindingDigest e) = true) (ls_entries st).

Lemma digests_lookup st i e : digests_ok st -> ls_entries st !! i = Some e -> digestPattern (le_BindingDigest e) = true.
Proof. intros Hd Hi. exact (proj1 (Forall_lookup _ _) Hd i e Hi). Qed.

Lemma ledger_apply_digests st l st' : digests_ok st -> apply_line st l = Ok st' -> digests_ok st'.
Proof.
  unfold digests_ok. intros Hd H. destruct l as [r|]; [|done]. cbn in H. pose proof (ledger_apply_step _ _ _ H) as Hs.
  unfold ledger_apply in H. ok_step H. clear H. breflect. destruct E as [_ Hr].
  destruct Hs as [Hk Ht Hx | i x Hk Hx Hxb Hxs | i x Hk Hx Hxs _ _ | i x Hk Hx Hxs]; cbn.
  - apply Forall_app. split; [done|]. by apply Forall_singleton.
  - apply token_entry_Some in Hx as [_ Hi]. apply Forall_insert; [done|].
    exact (digests_lookup st i x Hd Hi).
  - apply binding_entry_Some in Hx as [_ Hi]. apply Forall_insert; [done|].
    exact (digests_lookup st i x Hd Hi).
  - apply binding_entry_Some in Hx as [_ Hi]. apply Forall_insert; [done|].
    exact (digests_lookup st i x Hd Hi).
Qed.

Lemma recover_digests j st : recoverLocked j = Ok st -> digests_ok st.
Proof. apply result_fold_inv; [apply ledger_apply_digests | by apply Forall_nil]. Qed.

(** The expiry record of an issued binding is accepted. *)
Lemma apply_expired_record st now b i e :
  now <> 0 -> digestPattern b = true -> binding_entry st b = Some (i, e) -> le_State e = stateIssued ->
  ledger_apply st (expired_record now b) = Ok (set_entry st i (entry_with_State e stateExpired)).
Proof.
  intros Hn Hd Hb Hs. unfold ledger_apply, expired_record. cbn. rewrite Hd, Hb, Hs. cbn.
  rewrite (bool_decide_eq_false_2 (now = 0)) by done. done.
Qed.

(** Expiring distinct issued bindings one after the other succeeds, and leaves
    the indexes alone. *)
Lemma expire_all now l : now <> 0 -> forall st,
  ledger_wf st -> digests_ok st -> NoDup (map le_BindingDigest l) ->
  (forall e, e ∈ l -> le_State e = stateIssued /\ exists i, binding_entry st (le_BindingDigest e) = Some (i, e)) ->
  exists st', result_fold apply_line st (map (fun e => JRec (expired_record now (le_BindingDigest e))) l) = Ok st' /\
              ls_byToken st' = ls_byToken st /\ ls_byBinding st' = ls_byBinding st /\
              length (ls_entries st') = length (ls_entries st).
Proof.
  intros Hn. induction l as [|e l IH]; intros st Hwf Hd Hnd Hl; [by exists st|].
  cbn in Hnd. apply NoDup_cons in Hnd as [Hni Hnd].
  destruct (Hl e (list_elem_of_here _ _)) as [Hs [i Hb]].
  pose proof (binding_entry_lt _ _ _ _ Hb) as Hlt. apply binding_entry_Some in Hb as Hb'. destruct Hb' as [Hbi Hi].
  assert (Hde : digestPattern (le_BindingDigest e) = true) by (exact (digests_lookup st i e Hd Hi)).
  pose proof (apply_expired_record st now _ i e Hn Hde Hb Hs) as Happ.
  destruct (IH (set_entry st i (entry_with_State e stateExpired))) as (st' & Hst' & Ht & Hbb & Hlen);
    [by eapply ledger_apply_wf | by eapply (ledger_apply_digests st (JRec _)) | done | |].
  - intros x Hx. destruct (Hl x (list_elem_of_further _ _ _ Hx)) as [Hxs [k Hk]]. split; [done|]. exists k.
    rewrite binding_entry_set by done. rewrite Hk, decide_False; [done|]. intros ->. apply Hni.
    apply binding_entry_Some in Hk as [_ Hk]. assert (x = e) by congruence. subst x.
    apply list_elem_of_fmap. by exists e.
  - exists st'. cbn [map result_fold apply_line]. rewrite Happ. cbn. split_and!; try done.
    rewrite Hlen. cbn. by rewrite length_insert.
Qed.

Lemma binding_entries_keys st :
  ledger_wf st -> map le_BindingDigest (binding_entries st) = map fst (map_to_list (ls_byBinding st)).
Proof.
  intros Hwf. unfold binding_entries.
  assert (Hall : Forall (fun kv => exists e, ls_entries st !! kv.2 = Some e /\ le_BindingDigest e = kv.1)
                   (map_to_list (ls_byBinding st))).
  { apply Forall_forall. intros [k i] Hk%elem_of_map_to_list. by apply (lw_binding st Hwf). }
  induction Hall as [|[k i] l (e & He & Hk) _ IH]; [done|]. cbn in *. rewrite He. cbn. by rewrite Hk, IH.
Qed.

Lemma elem_of_binding_entries st e :
  ledger_wf st -> e ∈ binding_entries st -> exists i, binding_entry st (le_BindingDigest e) = Some (i, e).
Proof.
  intros Hwf. unfold binding_entries. rewrite list_elem_of_omap. intros ([k i] & Hk%elem_of_map_to_list & He).
  exists i. apply binding_entry_Some. cbn in He. split; [|done].
  destruct (lw_binding st Hwf k i Hk) as (x & Hx & <-). congruence.
Qed.

Lemma NoDup_map_filter {A B} (f : A -> B) (P : A -> Prop) `{!forall x, Decision (P x)} l :
  NoDup (map f l) -> NoDup (map f (filter P l)).
Proof. intros Hnd. eapply sublist_NoDup; [exact Hnd|]. by apply fmap_sublist, sublist_filter. Qed.

(** The records of one [Issue]: the expiries of the bindings it found, then the
    new approval. *)
Lemma cleanup_recovers st now :
  now <> 0 -> ledger_wf st -> digests_ok st ->
  exists st', result_fold apply_line st (map JRec (expiredCleanupRecords st now)) = Ok st' /\
              ls_byToken st' = ls_byToken st /\ ls_byBinding st' = ls_byBinding st /\
              length (ls_entries st') = length (ls_entries st).
Proof.
  intros Hn Hwf Hd. unfold expiredCleanupRecords. rewrite map_map. apply expire_all; [done..| |].
  - apply NoDup_map_filter. rewrite binding_entries_keys by done. apply NoDup_fst_map_to_list.
  - intros e [[He _] Hin]%list_elem_of_filter. split; [done|]. by apply elem_of_binding_entries.
Qed.

Lemma opaqueID_nonempty s : opaqueID s = true -> s <> "".
Proof. intros H ->. vm_compute in H. discriminate. Qed.

Lemma actionID_nonempty s : actionID s = true -> s <> "".
Proof. intros H ->. vm_compute in H. discriminate. Qed.

Lemma binding_digest_ok b d :
  binding_digest b = Ok d -> binding_validate b = Ok tt /\ digestPattern d = true.
Proof.
  unfold binding_digest. intros H. ok_path H. subst d. split; [|apply sha256_hex_hex64].
  by destruct (binding_validate b) as [[]|].
Qed.

(** A valid binding whose token is new and which has no entry is recorded. *)
Lemma apply_issue_record st now b t d :
  now <> 0 -> binding_validate b = Ok tt -> digestPattern d = true -> digestPattern t = true ->
  token_entry st t = None -> binding_entry st d = None ->
  exists st', ledger_apply st (issue_record now t d b) = Ok st' /\
    token_entry st' t = Some (length (ls_entries st), issued_entry (issue_record now t d b)) /\
    binding_entry st' d = Some (length (ls_entries st), issued_entry (issue_record now t d b)).
Proof.
  intros Hn Hv Hd Ht Hte Hbe. unfold binding_validate in Hv. do 2 ok_step Hv. cbn in E0. breflect. destruct_and?.
  eexists. split.
  - unfold ledger_apply. cbn. rewrite Hd, Ht, Hte, Hbe. cbn.
    rewrite (bool_decide_eq_false_2 (now = 0)) by done. cbn. unfold digestPattern.
    repeat match goal with
    | H : opaqueID ?s = true |- _ => rewrite (bool_decide_eq_false_2 (s = "")) by (by apply opaqueID_nonempty); clear H
    | H : actionID ?s = true |- _ => rewrite (bool_decide_eq_false_2 (s = "")) by (by apply actionID_nonempty); clear H
    | H : hex64 _ = true |- _ => rewrite H; clear H
    end. cbn.
    rewrite (bool_decide_eq_false_2 (cb_PlannedAt b = 0)) by done. cbn.
    unfold ExpiresAt. rewrite !bool_decide_eq_true_2 by done. reflexivity.
  - split.
    + apply token_entry_Some; cbn. by rewrite lookup_insert_eq, list_lookup_middle.
    + apply binding_entry_Some; cbn. by rewrite lookup_insert_eq, list_lookup_middle.
Qed.

(** ** Operations on the store *)

(** Every answer of the environment is favourable. *)
Definition io_ok (io : hc_io) : Prop :=
  io_gate io = true /\ io_lock io = true /\ io_paths io = true /\ io_ctx io = true /\ io_audit io = true /\
  io_unlock io = true /\ io_append io = AppendOk.
Definition hs_open (s : HStore) : Prop := hs_closed s = false /\ hs_unavailable s = false.

(** A successful call ran its action on the recovered ledger. *)
Lemma withState_Ok {A} io s (act : HStore -> ledgerState -> HStore * result hc_err A) s' a :
  withState io s act = (s', Ok a) ->
  exists st s1, recoverLocked (hs_journal s) = Ok st /\ act s st = (s1, Ok a) /\ hs_journal s' = hs_journal s1.
Proof.
  unfold withState. intros H.
  destruct (negb (io_gate io)); [done|]. destruct (hs_closed s || hs_unavailable s); [done|].
  destruct (negb (io_lock io)); [done|]. destruct (negb (io_paths io)); [done|].
  destruct (recoverLocked (hs_journal s)) as [st|]; [|done]. destruct (negb (io_ctx io)); [done|].
  destruct (act s st) as [s1 r] eqn:E. simplify_eq. exists st, s1. by destruct (io_unlock io).
Qed.

Lemma withState_run {A} io s (act : HStore -> ledgerState -> HStore * result hc_err A) st :
  io_ok io -> hs_open s -> recoverLocked (hs_journal s) = Ok st -> withState io s act = act s st.
Proof.
  intros (H1 & H2 & H3 & H4 & H5 & H6 & H7) (H8 & H9) Hr. unfold withState.
  rewrite H1, H2, H3, H4, H6, H8, H9, Hr. cbn. by destruct (act s st).
Qed.

Lemma withState_prefix {A} io s (act : HStore -> ledgerState -> HStore * result hc_err A) :
  (forall st, hs_journal s `prefix_of` hs_journal (fst (act s st))) ->
  hs_journal s `prefix_of` hs_journal (fst (withState io s act)).
Proof.
  intros Hact. unfold withState.
  destruct (negb (io_gate io)); [done|]. destruct (hs_closed s || hs_unavailable s); [done|].
  destruct (negb (io_lock io)); [done|]. destruct (negb (io_paths io)); [by destruct (io_unlock io)|].
  destruct (recoverLocked (hs_journal s)) as [st|]; [|by destruct (io_unlock io)].
  destruct (negb (io_ctx io)); [by destruct (io_unlock io)|]. specialize (Hact st).
  destruct (act s st). by destruct (io_unlock io).
Qed.

Lemma append_prefix io s rs : hs_journal s `prefix_of` hs_journal (fst (appendRecordsLocked io s rs)).
Proof. unfold appendRecordsLocked. destruct (io_append io); cbn; by eexists. Qed.

Lemma append_Ok io s rs s' : appendRecordsLocked io s rs = (s', Ok tt) -> hs_journal s' = hs_journal s ++ map JRec rs.
Proof. unfold appendRecordsLocked. destruct (io_append io); intros; by simplify_eq. Qed.

Lemma append_run io s rs :
  io_ok io -> appendRecordsLocked io s rs = (hs_with_journal s (hs_journal s ++ map JRec rs), Ok tt).
Proof. intros (_ & _ & _ & _ & _ & _ & H). unfold appendRecordsLocked. by rewrite H. Qed.

Lemma validID_nonempty x : validID x = true -> x <> "".
Proof. by intros H ->. Qed.

(** A successful [Consume] appended exactly its record. *)
Lemma Consume_Ok io now req s s' rc :
  Consume io now req s = (s', Ok rc) ->
  exists d, binding_digest (cr_Binding req) = Ok d /\
    hs_journal s' = hs_journal s ++ [JRec (consume_record now (digestToken (cr_Token req)) d (cr_Binding req)
                                             (cr_ApplyJobID req) (cr_InvocationID req))] /\
    exists st i e, recoverLocked (hs_journal s) = Ok st /\ token_entry st (digestToken (cr_Token req)) = Some (i, e) /\
      le_BindingDigest e = d /\ le_State e = stateIssued /\ now < le_ExpiresAt e /\ entry_matches e (cr_Binding req) = true /\
      cr_ApplyJobID req <> "" /\ cr_InvocationID req <> "".
Proof.
  unfold Consume. intros H.
  destruct (negb (is_ok (binding_validate (cr_Binding req)))); [done|].
  destruct (negb (validRawToken (cr_Token req)) || _ || _) eqn:Ev; [done|].
  destruct (binding_digest (cr_Binding req)) as [d|]; [|done].
  destruct (negb (ValidAt (cr_Binding req) now)); [done|].
  apply withState_Ok in H as (st & s1 & Hr & H & Hj). exists d. split; [done|].
  destruct (token_entry st (digestToken (cr_Token req))) as [[i e]|] eqn:Et; [|done].
  destruct (le_BindingDigest e !=? d) eqn:E1; [done|]. destruct (le_State e !=? stateIssued) eqn:E2; [done|].
  destruct (negb (now <? le_ExpiresAt e)) eqn:E3; [done|]. destruct (negb (entry_matches e (cr_Binding req))) eqn:E4; [done|].
  destruct (negb (io_audit io)); [done|]. destruct (appendRecordsLocked io s _) as [s2 [[]|]] eqn:Ea; [|done].
  apply append_Ok in Ea. simplify_eq. split; [by rewrite Hj, Ea|]. exists st, i, e. breflect.
  destruct_and?. by split_and!; try apply validID_nonempty.
Qed.

Lemma Claim_Ok io now req s s' rc :
  Claim io now req s = (s', Ok rc) ->
  hs_journal s' = hs_journal s ++ [JRec (claim_record now req)] /\
  exists st i e, recoverLocked (hs_journal s) = Ok st /\ binding_entry st (cl_BindingDigest req) = Some (i, e) /\
    le_State e = stateConsumed /\ le_ApplyJobID e = cl_ApplyJobID req /\ le_InvocationID e = cl_InvocationID req /\
    now < le_ExpiresAt e /\ rc = mkClaimReceipt e now /\ digestPattern (cl_BindingDigest req) = true.
Proof.
  unfold Claim. intros H.
  destruct (negb (digestPattern (cl_BindingDigest req)) || _ || _) eqn:Ev; [done|].
  apply withState_Ok in H as (st & s1 & Hr & H & Hj).
  destruct (binding_entry st (cl_BindingDigest req)) as [[i e]|] eqn:Et; [|done].
  destruct ((le_State e !=? stateConsumed) || _ || _) eqn:E1; [done|].
  destruct (negb (now <? le_ExpiresAt e)) eqn:E3; [done|].
  destruct (negb (io_audit io)); [done|]. destruct (appendRecordsLocked io s _) as [s2 [[]|]] eqn:Ea; [|done].
  apply append_Ok in Ea. simplify_eq. split; [by rewrite Hj, Ea|]. exists st, i, e. breflect.
  destruct_and?. cbn in *. split_and!; congruence.
Qed.

Lemma Issue_prefix io now random b s : hs_journal s `prefix_of` hs_journal (fst (Issue io now random b s)).
Proof.
  unfold Issue. destruct (binding_digest b); [|done]. destruct (negb _); [done|]. destruct (newToken random).
  apply withState_prefix. intros st. destruct (binding_entry st _) as [[? e]|]; [done|].
  destruct (_ <? _); [done|]. destruct (negb _); [done|].
  pose proof (append_prefix io s (expiredCleanupRecords st now ++ [issue_record now s1 a b])).
  by destruct (appendRecordsLocked io s _).
Qed.

Lemma Consume_prefix io now req s : hs_journal s `prefix_of` hs_journal (fst (Consume io now req s)).
Proof.
  unfold Consume. destruct (negb _); [done|]. destruct (_ || _); [done|]. destruct (binding_digest _); [|done].
  destruct (negb _); [done|]. apply withState_prefix. intros st. destruct (token_entry st _) as [[? e]|]; [|done].
  do 5 (destruct (negb _); [done|]).
  match goal with |- context [appendRecordsLocked io s ?rs] =>
    pose proof (append_prefix io s rs); by destruct (appendRecordsLocked io s rs) end.
Qed.

Lemma Claim_prefix io now req s : hs_journal s `prefix_of` hs_journal (fst (Claim io now req s)).
Proof.
  unfold Claim. destruct (_ || _); [done|]. apply withState_prefix. intros st.
  destruct (binding_entry st _) as [[? e]|]; [|done]. destruct (_ || _); [done|]. do 2 (destruct (negb _); [done|]).
  match goal with |- context [appendRecordsLocked io s ?rs] =>
    pose proof (append_prefix io s rs); by destruct (appendRecordsLocked io s rs) end.
Qed.

(** The life of the ledger between two observations of one process: its own
    calls, and anything other processes append under the file lock. *)
Inductive hs_step : HStore -> HStore -> Prop :=
| do_Issue io now random b s : hs_step s (fst (Issue io now random b s))
| do_Consume io now req s : hs_step s (fst (Consume io now req s))
| do_Claim io now req s : hs_step s (fst (Claim io now req s))
| do_Close s : hs_step s (Close s)
| do_reopen s capacity : hs_step s (mkHStore (hs_journal s) false false capacity)
| do_peer ls s : hs_step s (hs_with_journal s (hs_journal s ++ ls)).

Lemma hs_steps_prefix s s' : rtc hs_step s s' -> hs_journal s `prefix_of` hs_journal s'.
Proof.
  induction 1 as [s|s s1 s' Hstep _ IH]; [done|]. etrans; [|exact IH].
  destruct Hstep; [apply Issue_prefix | apply Consume_prefix | apply Claim_prefix | done | done | by eexists].
Qed.

(** A confirmation token is consumed at most once.  After a successful
    [Consume], whatever happens to the ledger (other calls, other processes,
    reopening), no [Consume] of the same token and no [Consume] of the same
    binding ever succeeds again. *)
Theorem consume_once io now req s s1 rc s2 (H1 : Consume io now req s = (s1, Ok rc)) (H2 : rtc hs_step s1 s2)
    io' now' req'
    (Hsame : cr_Token req' = cr_Token req \/ cr_Binding req' = cr_Binding req) :
  is_ok (snd (Consume io' now' req' s2)) = false.
Proof.
  destruct (Consume io' now' req' s2) as [s3 [rc'|]] eqn:H3; [|done]. exfalso.
  apply hs_steps_prefix in H2 as [ext Hext].
  destruct (Consume_Ok _ _ _ _ _ _ H1) as (d & Hd & Hj & _).
  destruct (Consume_Ok _ _ _ _ _ _ H3) as (d' & Hd' & _ & st & i & e & Hr & Ht & Hb & Hs & _).
  rewrite Hext, Hj, <- app_assoc in Hr. cbn in Hr.
  destruct (recover_split _ _ _ _ Hr) as (st0 & st1 & _ & Hwf & Hstep & Hwf1 & Hf).
  destruct (consumed_now_spent _ _ _ Hwf Hstep eq_refl) as [Hts Hbs].
  cbn [lr_TokenDigest lr_BindingDigest consume_record] in Hts, Hbs.
  destruct Hsame as [Heq|Heq].
  - rewrite Heq in Ht. destruct (token_spent_forever _ _ _ _ Hf Hts) as [(? & ? & Hx & Hxs) _].
    destruct Hxs; congruence.
  - destruct (spent_forever _ _ _ _ Hwf1 Hf Hbs) as [(? & x & Hx & Hxs) _].
    apply (token_entry_current st _ _ _ (recover_wf _ _ Hr)) in Ht; [|congruence].
    rewrite Heq in Hd'. destruct Hxs; congruence.
Qed.

(** A consumed confirmation is claimed at most once.  After a successful
    [Claim] of a binding no later [Claim] of it succeeds. *)
Theorem claim_once io now req s s1 rc s2 (H1 : Claim io now req s = (s1, Ok rc)) (H2 : rtc hs_step s1 s2)
    io' now' req' (Hsame : cl_BindingDigest req' = cl_BindingDigest req) :
  is_ok (snd (Claim io' now' req' s2)) = false.
Proof.
  destruct (Claim io' now' req' s2) as [s3 [rc'|]] eqn:H3; [|done]. exfalso.
  apply hs_steps_prefix in H2 as [ext Hext].
  destruct (Claim_Ok _ _ _ _ _ _ H1) as (Hj & _).
  destruct (Claim_Ok _ _ _ _ _ _ H3) as (_ & st & i & e & Hr & Ht & Hs & _).
  rewrite Hext, Hj, <- app_assoc in Hr. cbn in Hr.
  destruct (recover_split _ _ _ _ Hr) as (st0 & st1 & _ & Hwf & Hstep & Hwf1 & Hf).
  pose proof (claimed_now_claimed _ _ _ Hstep eq_refl) as Hc.
  destruct (claimed_forever _ _ _ _ Hwf1 Hf Hc) as [(? & x & Hx & Hxs) _]. cbn in Hx.
  rewrite Hsame in Ht. congruence.
Qed.

(** ** The successful sequence *)

Lemma b64_char_ok n : 0 <= n < 64 -> is_b64 (b64_char n) = true /\ b64_char n <> newline /\ b64_char n <> "013"%char.
Proof.
  intros Hn. rewrite <- (Z2Nat.id n) by lia. assert (Z.to_nat n < 64)%nat as Hm by lia. revert Hm.
  generalize (Z.to_nat n). clear n Hn. intros n Hn. do 64 (destruct n as [|n]; [by vm_compute|]). lia.
Qed.

(** The encoding of bytes: the base64 alphabet, no line break. *)
Definition b64_text (s : string) : Prop := sall is_b64 s = true /\ strip_breaks s = s.

Lemma b64_encode_text bs : Forall is_byte bs -> b64_text (b64_encode bs).
Proof.
  intros Hb. split; [|apply strip_breaks_id]; apply b64_encode_chars; try done; intros n (H1 & H2 & H3)%b64_char_ok; [done|].
  unfold no_break. by rewrite !bool_decide_eq_false_2.
Qed.

Lemma CutPrefix_append p s : CutPrefix (p +:+ s) p = Some s.
Proof.
  unfold CutPrefix. assert (HasPrefix (p +:+ s) p = true /\ sdrop (String.length p) (p +:+ s) = s) as [-> ->]; [|done].
  induction p as [|a p [IH1 IH2]]; [by destruct s|].
  change (String a p +:+ s) with (String a (p +:+ s)). cbn. rewrite bool_decide_eq_true_2 by done. by rewrite IH1, IH2.
Qed.

(** A freshly drawn token has the shape [Consume] asks for. *)
Lemma newToken_valid random :
  length random = 32%nat -> Forall is_byte random -> validRawToken (fst (newToken random)) = true.
Proof.
  intros Hl Hb. unfold newToken, validRawToken. cbn [fst]. rewrite CutPrefix_append.
  destruct (b64_encode_text random Hb) as [H1 H2]. unfold b64_decoded_length. rewrite H2, H1.
  assert (slen (b64_encode random) = 43) as ->; [|done].
  clear -Hl. do 32 (destruct random as [|? random]; [done|]). destruct random; [done|discriminate].
Qed.

Lemma recover_app j st l st' :
  recoverLocked j = Ok st -> result_fold apply_line st l = Ok st' -> recoverLocked (j ++ l) = Ok st'.
Proof. unfold recoverLocked. intros H1 H2. by rewrite result_fold_app, H1. Qed.

(** An open store whose journal recovers to a ledger in which the token and the
    binding name the same entry. *)
Definition holds (s : HStore) (t d : string) (e : ledgerEntry) : Prop :=
  hs_open s /\ exists st i, recoverLocked (hs_journal s) = Ok st /\
    token_entry st t = Some (i, e) /\ binding_entry st d = Some (i, e).

Lemma Issue_succeeds io now random b s st d :
  io_ok io -> hs_open s -> recoverLocked (hs_journal s) = Ok st -> binding_digest b = Ok d ->
  now <> 0 -> ValidAt b now = true -> binding_entry st d = None -> liveIssued st + 1 <= hs_capacity s ->
  token_entry st (snd (newToken random)) = None ->
  exists s1, Issue io now random b s = (s1, Ok (mkIssueResult (fst (newToken random)) d (ExpiresAt b))) /\
    holds s1 (snd (newToken random)) d (issued_entry (issue_record now (snd (newToken random)) d b)).
Proof.
  intros Hio Hopen Hr Hd Hn Hv Hbe Hcap Hte. destruct (binding_digest_ok _ _ Hd) as [Hval Hhex].
  pose proof (recover_wf _ _ Hr) as Hwf.
  destruct (cleanup_recovers st now Hn Hwf (recover_digests _ _ Hr)) as (st' & Hst' & Ht' & Hb' & _).
  destruct (apply_issue_record st' now b (snd (newToken random)) d) as (st2 & Ha & Ht2 & Hb2);
    [done..|apply sha256_hex_hex64| | |].
  { unfold token_entry. rewrite Ht'. by rewrite (token_entry_None st). }
  { unfold binding_entry. rewrite Hb'. by rewrite (binding_entry_None st). }
  eexists. split.
  - unfold Issue. rewrite Hd, Hv. cbn [negb newToken]. rewrite (withState_run _ _ _ st) by done. rewrite Hbe.
    rewrite (proj2 (Z.ltb_ge _ _)) by lia. destruct Hio as (? & ? & ? & ? & Haud & ?). rewrite Haud. cbn [negb].
    rewrite append_run by done. reflexivity.
  - split; [done|]. exists st2. eexists. split; [|by split]. cbn. rewrite map_app. cbn.
    eapply recover_app; [done|]. rewrite result_fold_app, Hst'. cbn [result_bind result_fold apply_line].
    unfold newToken in Ha. cbn [snd] in Ha. by rewrite Ha.
Qed.

Lemma entry_matches_issue now t d b : entry_matches (issued_entry (issue_record now t d b)) b = true.
Proof. unfold entry_matches. cbn. by rewrite !bool_decide_eq_true_2 by done. Qed.

Lemma Consume_succeeds io now now0 req s d :
  io_ok io -> binding_digest (cr_Binding req) = Ok d -> now <> 0 -> ValidAt (cr_Binding req) now = true ->
  validRawToken (cr_Token req) = true -> validID (cr_ApplyJobID req) = true -> validID (cr_InvocationID req) = true ->
  let t := digestToken (cr_Token req) in
  let e := issued_entry (issue_record now0 t d (cr_Binding req)) in
  holds s t d e ->
  exists s1, Consume io now req s = (s1, Ok (mkConsumeReceipt d t (cb_PlanJobID (cr_Binding req)) (cr_ApplyJobID req)
                                         (cr_InvocationID req) (ExpiresAt (cr_Binding req)))) /\
    holds s1 t d (entry_consumed e (cr_ApplyJobID req) (cr_InvocationID req)).
Proof.
  intros Hio Hd Hn Hv Hraw Hjob Hinv t e (Hopen & st & i & Hr & Ht & Hb).
  destruct (binding_digest_ok _ _ Hd) as [Hval Hhex].
  assert (Hexp : now <? ExpiresAt (cr_Binding req) = true) by (unfold ValidAt in Hv; by breflect; destruct_and?).
  eexists. split.
  - unfold Consume. rewrite Hval, Hraw, Hjob, Hinv, Hd, Hv. cbn [negb is_ok orb].
    rewrite (withState_run _ _ _ st) by done. fold t. rewrite Ht. cbn [issued_entry le_BindingDigest le_State le_ExpiresAt].
    subst e. rewrite entry_matches_issue. cbn. rewrite !bool_decide_eq_true_2, Hexp by done.
    destruct Hio as (? & ? & ? & ? & Haud & ?). rewrite Haud. cbn [negb]. by rewrite append_run.
  - split; [done|]. exists (set_entry st i (entry_consumed e (cr_ApplyJobID req) (cr_InvocationID req))), i. split.
    + eapply recover_app; [done|]. cbn [result_fold map apply_line]. unfold ledger_apply.
      cbn [lr_Kind consume_record lr_TokenDigest lr_SchemaVersion lr_RecordedAt lr_BindingDigest lr_ApplyJobID lr_InvocationID].
      rewrite Hhex, Ht. subst e. cbn. rewrite (bool_decide_eq_false_2 (now = 0)), (bool_decide_eq_true_2 (d = d)) by done. cbn.
      by rewrite (bool_decide_eq_false_2 (cr_ApplyJobID req = "")), (bool_decide_eq_false_2 (cr_InvocationID req = ""))
        by (by apply validID_nonempty).
    + rewrite token_entry_set, binding_entry_set, Ht, Hb by eauto with go. by rewrite decide_True.
Qed.

Lemma Claim_succeeds io now req s t e :
  io_ok io -> now <> 0 -> digestPattern (cl_BindingDigest req) = true -> now < le_ExpiresAt e ->
  validID (cl_ApplyJobID req) = true -> validID (cl_InvocationID req) = true ->
  le_State e = stateConsumed -> le_ApplyJobID e = cl_ApplyJobID req -> le_InvocationID e = cl_InvocationID req ->
  holds s t (cl_BindingDigest req) e ->
  exists s1, Claim io now req s = (s1, Ok (mkClaimReceipt e now)) /\
    holds s1 t (cl_BindingDigest req) (entry_with_State e stateClaimed).
Proof.
  intros Hio Hn Hhex Hexp Hjob Hinv Hs Hj Hi (Hopen & st & i & Hr & Ht & Hb).
  eexists. split.
  - unfold Claim. rewrite Hhex, Hjob, Hinv. cbn [negb orb]. rewrite (withState_run _ _ _ st) by done.
    rewrite Hb, Hs, Hj, Hi, (proj2 (Z.ltb_lt _ _)) by done. rewrite !bool_decide_eq_true_2 by done. cbn [negb orb].
    destruct Hio as (? & ? & ? & ? & Haud & ?). rewrite Haud. cbn [negb]. by rewrite append_run.
  - split; [done|]. exists (set_entry st i (entry_with_State e stateClaimed)), i. split.
    + eapply recover_app; [done|]. cbn [result_fold map apply_line]. unfold ledger_apply.
      cbn [lr_Kind claim_record lr_TokenDigest lr_SchemaVersion lr_RecordedAt lr_BindingDigest lr_ApplyJobID lr_InvocationID].
      rewrite Hhex, Hb, Hs, Hj, Hi, (bool_decide_eq_false_2 (now = 0)) by done. cbn.
      by rewrite !bool_decide_eq_true_2 by done.
    + rewrite token_entry_set, binding_entry_set, Ht, Hb by eauto with go. by rewrite decide_True.
Qed.



(** ** A concrete run *)

Definition demo_io : hc_io := mkIO true true true true true true AppendOk.
Definition demo_t0 : Z := 63900000000 * ns_per_s.
Definition demo_digest : string := "0123456789abcdef0123456789abcdef0123456789abcdef0123456789abcdef".
Definition demo_binding : ConfirmationBinding :=
  mkBinding Version "job_plan" "inv_plan" "host.disk.format" "main" "admin"
    demo_digest demo_digest demo_digest demo_digest demo_t0 true.
Definition demo_random : list Z := map Z.of_nat (seq 1 32).
Definition demo_empty : HStore := mkHStore [] false false defaultCapacity.
Definition demo_bd : string := match binding_digest demo_binding with Ok d => d | Err _ => "" end.
Definition demo_token : string := fst (newToken demo_random).
Definition demo_consume : ConsumeRequest := mkConsumeRequest demo_token demo_binding "job_apply" "inv_apply".
Definition demo_claim : ClaimRequest := mkClaimRequest demo_bd "job_apply" "inv_apply".
Definition demo_issued : HStore := fst (Issue demo_io demo_t0 demo_random demo_binding demo_empty).
Definition demo_consumed : HStore := fst (Consume demo_io (demo_t0 + 1) demo_consume demo_issued).
Definition demo_claimed : HStore := fst (Claim demo_io (demo_t0 + 2) demo_claim demo_consumed).

(** The state a journal recovers to, for the concrete runs. *)
Definition recovered (s : HStore) : ledgerState :=
  match recoverLocked (hs_journal s) with Ok st => st | Err _ => ledger_empty end.

Lemma result_eta {E A} (c : result E A) d : is_ok c = true -> c = Ok (match c with Ok a => a | Err _ => d end).
Proof. by destruct c. Qed.

Lemma demo_issue_record_accepted :
  recoverLocked (hs_journal demo_claimed) = Ok (recovered demo_claimed) /\ length (hs_journal demo_claimed) = 3%nat.
Proof. split; [apply result_eta|]; vm_compute; reflexivity. Qed.

Lemma confirmation_single_use_witness :
  exists q, JRec q ∈ take 1 (hs_journal demo_claimed) /\ lr_Kind q = recordIssued.
Proof.
  set (r := consume_record (demo_t0 + 1) (digestToken demo_token) demo_bd demo_binding "job_apply" "inv_apply").
  assert (Hj : hs_journal demo_claimed = take 1 (hs_journal demo_claimed) ++ JRec r :: drop 2 (hs_journal demo_claimed))
    by (vm_compute; reflexivity).
  assert (H : recoverLocked (take 1 (hs_journal demo_claimed) ++ JRec r :: drop 2 (hs_journal demo_claimed))
              = Ok (recovered demo_claimed))
    by (rewrite <- Hj; apply demo_issue_record_accepted).
  destruct (confirmation_single_use _ _ _ _ H) as [Hc _].
  destruct (Hc eq_refl) as [(q & Hq & Hk & _) _]. exists q. exact (conj Hq Hk).
Defined.

Lemma consume_once_witness :
  is_ok (snd (Consume demo_io (demo_t0 + 1) demo_consume demo_issued)) = true /\
  is_ok (snd (Consume demo_io (demo_t0 + 2) demo_consume demo_claimed)) = false.
Proof.
  assert (Hok : is_ok (snd (Consume demo_io (demo_t0 + 1) demo_consume demo_issued)) = true) by (vm_compute; reflexivity).
  split; [exact Hok|].
  destruct (Consume demo_io (demo_t0 + 1) demo_consume demo_issued) as [s1 [rc|]] eqn:H1; [|discriminate Hok].
  apply (consume_once demo_io (demo_t0 + 1) demo_consume demo_issued s1 rc demo_claimed H1).
  - unfold demo_claimed, demo_consumed. rewrite H1. apply rtc_once. apply do_Claim.
  - left. reflexivity.
Defined.

Lemma claim_once_witness :
  is_ok (snd (Claim demo_io (demo_t0 + 2) demo_claim demo_consumed)) = true /\
  is_ok (snd (Claim demo_io (demo_t0 + 3) demo_claim demo_claimed)) = false.
Proof.
  assert (Hok : is_ok (snd (Claim demo_io (demo_t0 + 2) demo_claim demo_consumed)) = true) by (vm_compute; reflexivity).
  split; [exact Hok|].
  destruct (Claim demo_io (demo_t0 + 2) demo_claim demo_consumed) as [s1 [rc|]] eqn:H1; [|discriminate Hok].
  apply (claim_once demo_io (demo_t0 + 2) demo_claim demo_consumed s1 rc demo_claimed H1).
  - unfold demo_claimed. rewrite H1. apply rtc_refl.
  - reflexivity.
Defined.


(** A ledger for one approval, whose approval lapses: a minute, a day, a year
    later the next binding is still refused. *)
Definition demo_full : HStore :=
  fst (Issue demo_io demo_t0 demo_random demo_binding (mkHStore [] false false 1)).

