(* ===== verification/JobTypes.v ===== *)
(** * Package [internal/consolejobs]: data (types.go, errors.go, action.go,
    action_control.go, action_invocations.go)

    Jobs, events, the action state a job carries, the inputs of the store's
    operations and the principals of transaction-scoped jobs.  A Go value that
    is deep-copied by [cloneJob], [cloneEvent] or [cloneActionState] is a value
    of the model, so the copies need no counterpart.  A nil and an empty slice
    of warnings or retry keys encode and compare alike, and are both []; a nil
    map is [None], an empty map is [Some []]. *)

From Stdlib Require Import Ascii.
From S2P Require Import Prelude GoText GoJson GoEncoding ActionAbi HostConfirmation.

Definition JournalVersion : Z := 1.
Definition DefaultEventCapacity : Z := 1024.
Definition DefaultEventRetention : Z := 7 * 24 * hour_ns.
Definition DefaultMaxQueuedJobs : Z := 1024.
Definition DefaultMaxRunningJobs : Z := 32.
Definition DefaultLockTimeout : Z := 30 * ns_per_s.
Definition DefaultJournalCompactionThreshold : Z := 67108864.
Definition ActionJobKind : string := "action.invoke".
Definition ActionKeyRetention : Z := hour_ns.
Definition MaxActionRetryKeys : Z := 64.

(** ** Transaction principals *)

Inductive PrincipalKind := PrincipalBootstrap | PrincipalEnrollment | PrincipalOther (s : string).
#[export] Instance PrincipalKind_eq_dec : EqDecision PrincipalKind. Proof. solve_decision. Defined.

Definition principal_string (k : PrincipalKind) : string :=
  match k with PrincipalBootstrap => "bootstrap" | PrincipalEnrollment => "enrollment" | PrincipalOther s => s end.
Definition principal_of (s : string) : PrincipalKind :=
  if s ==? "bootstrap" then PrincipalBootstrap else if s ==? "enrollment" then PrincipalEnrollment else PrincipalOther s.

(** [^[A-Za-z0-9._-]{1,128}$] *)
Definition transactionPrincipalIDPattern (s : string) : bool :=
  (1 <=? slen s) && (slen s <=? 128) &&
  sall (fun c => alnum c || (c ==? "."%char) || (c ==? "_"%char) || (c ==? "-"%char)) s.

Definition TransactionPrincipal (kind : PrincipalKind) (transactionID : string) : option string :=
  if (kind !=? PrincipalBootstrap) && (kind !=? PrincipalEnrollment) then None
  else if negb (transactionPrincipalIDPattern transactionID) then None
  else Some (principal_string kind +:+ ":" +:+ transactionID).

Definition ParseTransactionPrincipal (value : string) : option (PrincipalKind * string) :=
  match CutAt ":"%char value with
  | None => None
  | Some (kindText, transactionID) =>
      if negb (transactionPrincipalIDPattern transactionID) then None
      else
        let kind := principal_of kindText in
        if (kind !=? PrincipalBootstrap) && (kind !=? PrincipalEnrollment) then None
        else Some (kind, transactionID)
  end.

(** ** Status *)

Inductive Status :=
  StatusQueued | StatusRunning | StatusSucceeded | StatusFailed | StatusCanceled | StatusInterrupted
| StatusOther (s : string).
#[export] Instance Status_eq_dec : EqDecision Status. Proof. solve_decision. Defined.

Definition status_string (s : Status) : string :=
  match s with
  | StatusQueued => "queued" | StatusRunning => "running" | StatusSucceeded => "succeeded"
  | StatusFailed => "failed" | StatusCanceled => "canceled" | StatusInterrupted => "interrupted"
  | StatusOther x => x
  end.

Definition status_valid (s : Status) : bool := match s with StatusOther _ => false | _ => true end.
Definition terminal (s : Status) : bool :=
  match s with
  | StatusSucceeded | StatusFailed | StatusCanceled | StatusInterrupted => true
  | _ => false
  end.

(** ** Jobs *)

Record JobError := mkJobError {
  er_Code : string;
  er_Message : string;
  er_Detail : option (list string) (* JobErrorDetail.Blocked *)
}.
#[export] Instance JobError_eq_dec : EqDecision JobError. Proof. solve_decision. Defined.

Inductive ActionConcurrency := ActionCoalesce | ActionReject | ActionQueue | ConcurrencyOther (s : string).
#[export] Instance ActionConcurrency_eq_dec : EqDecision ActionConcurrency. Proof. solve_decision. Defined.

Definition concurrency_string (c : ActionConcurrency) : string :=
  match c with
  | ActionCoalesce => "coalesce" | ActionReject => "reject" | ActionQueue => "queue" | ConcurrencyOther s => s
  end.

Record ActionRetryBinding := mkRetry { rb_Digest : string; rb_BoundAt : Z }.
#[export] Instance ActionRetryBinding_eq_dec : EqDecision ActionRetryBinding. Proof. solve_decision. Defined.

Record ActionInvocationPolicy := mkPolicy {
  ap_Concurrency : ActionConcurrency;
  ap_RequestDigest : string;
  ap_RetryKeys : list ActionRetryBinding
}.
#[export] Instance ActionInvocationPolicy_eq_dec : EqDecision ActionInvocationPolicy. Proof. solve_decision. Defined.

Record ActionCancellation := mkCancellation { ac_Actor : string; ac_RequestedAt : Z }.
#[export] Instance ActionCancellation_eq_dec : EqDecision ActionCancellation. Proof. solve_decision. Defined.

Record ActionState := mkAction {
  as_Cancellation : option ActionCancellation;
  as_ABI : string;
  as_Name : string;
  as_InvocationID : string;
  as_LastSeq : Z;
  as_Outcome : Outcome;
  as_Policy : option ActionInvocationPolicy
}.
#[export] Instance ActionState_eq_dec : EqDecision ActionState. Proof. solve_decision. Defined.

Record Job := mkJob {
  j_ID : string;
  j_Kind : string;
  j_WorkspaceID : string;
  j_Mutating : bool;
  j_Status : Status;
  j_CreatedBy : string;
  j_CreatedAt : Z;
  j_StartedAt : option Z;
  j_FinishedAt : option Z;
  j_Request : payload;
  j_Progress : Z;
  j_Warnings : list string;
  j_Result : payload;
  j_Error : option JobError;
  j_NeedsCompensationCheck : bool;
  j_Revision : Z;
  j_Action : option ActionState
}.
#[export] Instance Job_eq_dec : EqDecision Job. Proof. solve_decision. Defined.

Definition j_with_Status (j : Job) (v : Status) : Job :=
  mkJob (j_ID j) (j_Kind j) (j_WorkspaceID j) (j_Mutating j) v (j_CreatedBy j) (j_CreatedAt j) (j_StartedAt
    j) (j_FinishedAt j) (j_Request j) (j_Progress j) (j_Warnings j) (j_Result j) (j_Error j)
    (j_NeedsCompensationCheck j) (j_Revision j) (j_Action j).
Definition j_with_StartedAt (j : Job) (v : option Z) : Job :=
  mkJob (j_ID j) (j_Kind j) (j_WorkspaceID j) (j_Mutating j) (j_Status j) (j_CreatedBy j) (j_CreatedAt j) v
    (j_FinishedAt j) (j_Request j) (j_Progress j) (j_Warnings j) (j_Result j) (j_Error j)
    (j_NeedsCompensationCheck j) (j_Revision j) (j_Action j).
Definition j_with_FinishedAt (j : Job) (v : option Z) : Job :=
  mkJob (j_ID j) (j_Kind j) (j_WorkspaceID j) (j_Mutating j) (j_Status j) (j_CreatedBy j) (j_CreatedAt j)
    (j_StartedAt j) v (j_Request j) (j_Progress j) (j_Warnings j) (j_Result j) (j_Error j)
    (j_NeedsCompensationCheck j) (j_Revision j) (j_Action j).
Definition j_with_Request (j : Job) (v : payload) : Job :=
  mkJob (j_ID j) (j_Kind j) (j_WorkspaceID j) (j_Mutating j) (j_Status j) (j_CreatedBy j) (j_CreatedAt j)
    (j_StartedAt j) (j_FinishedAt j) v (j_Progress j) (j_Warnings j) (j_Result j) (j_Error j)
    (j_NeedsCompensationCheck j) (j_Revision j) (j_Action j).
Definition j_with_Progress (j : Job) (v : Z) : Job :=
  mkJob (j_ID j) (j_Kind j) (j_WorkspaceID j) (j_Mutating j) (j_Status j) (j_CreatedBy j) (j_CreatedAt j)
    (j_StartedAt j) (j_FinishedAt j) (j_Request j) v (j_Warnings j) (j_Result j) (j_Error j)
    (j_NeedsCompensationCheck j) (j_Revision j) (j_Action j).
Definition j_with_Warnings (j : Job) (v : list string) : Job :=
  mkJob (j_ID j) (j_Kind j) (j_WorkspaceID j) (j_Mutating j) (j_Status j) (j_CreatedBy j) (j_CreatedAt j)
    (j_StartedAt j) (j_FinishedAt j) (j_Request j) (j_Progress j) v (j_Result j) (j_Error j)
    (j_NeedsCompensationCheck j) (j_Revision j) (j_Action j).
Definition j_with_Result (j : Job) (v : payload) : Job :=
  mkJob (j_ID j) (j_Kind j) (j_WorkspaceID j) (j_Mutating j) (j_Status j) (j_CreatedBy j) (j_CreatedAt j)
    (j_StartedAt j) (j_FinishedAt j) (j_Request j) (j_Progress j) (j_Warnings j) v (j_Error j)
    (j_NeedsCompensationCheck j) (j_Revision j) (j_Action j).
Definition j_with_Error (j : Job) (v : option JobError) : Job :=
  mkJob (j_ID j) (j_Kind j) (j_WorkspaceID j) (j_Mutating j) (j_Status j) (j_CreatedBy j) (j_CreatedAt j)
    (j_StartedAt j) (j_FinishedAt j) (j_Request j) (j_Progress j) (j_Warnings j) (j_Result j) v
    (j_NeedsCompensationCheck j) (j_Revision j) (j_Action j).
Definition j_with_NeedsCompensationCheck (j : Job) (v : bool) : Job :=
  mkJob (j_ID j) (j_Kind j) (j_WorkspaceID j) (j_Mutating j) (j_Status j) (j_CreatedBy j) (j_CreatedAt j)
    (j_StartedAt j) (j_FinishedAt j) (j_Request j) (j_Progress j) (j_Warnings j) (j_Result j) (j_Error j) v
    (j_Revision j) (j_Action j).
Definition j_with_Revision (j : Job) (v : Z) : Job :=
  mkJob (j_ID j) (j_Kind j) (j_WorkspaceID j) (j_Mutating j) (j_Status j) (j_CreatedBy j) (j_CreatedAt j)
    (j_StartedAt j) (j_FinishedAt j) (j_Request j) (j_Progress j) (j_Warnings j) (j_Result j) (j_Error j)
    (j_NeedsCompensationCheck j) v (j_Action j).
Definition j_with_Action (j : Job) (v : option ActionState) : Job :=
  mkJob (j_ID j) (j_Kind j) (j_WorkspaceID j) (j_Mutating j) (j_Status j) (j_CreatedBy j) (j_CreatedAt j)
    (j_StartedAt j) (j_FinishedAt j) (j_Request j) (j_Progress j) (j_Warnings j) (j_Result j) (j_Error j)
    (j_NeedsCompensationCheck j) (j_Revision j) v.

Definition as_with_Cancellation (a : ActionState) (c : ActionCancellation) : ActionState :=
  mkAction (Some c) (as_ABI a) (as_Name a) (as_InvocationID a) (as_LastSeq a) (as_Outcome a) (as_Policy a).
Definition as_after (a : ActionState) (seq : Z) (o : Outcome) : ActionState :=
  mkAction (as_Cancellation a) (as_ABI a) (as_Name a) (as_InvocationID a) seq o (as_Policy a).
Definition as_with_Policy (a : ActionState) (p : option ActionInvocationPolicy) : ActionState :=
  mkAction (as_Cancellation a) (as_ABI a) (as_Name a) (as_InvocationID a) (as_LastSeq a) (as_Outcome a) p.
Definition ap_with_RetryKeys (p : ActionInvocationPolicy) (ks : list ActionRetryBinding) : ActionInvocationPolicy :=
  mkPolicy (ap_Concurrency p) (ap_RequestDigest p) ks.

(** The policy of a job's action, when it has both. *)
Definition job_policy (j : Job) : option (ActionState * ActionInvocationPolicy) :=
  a ← j_Action j; p ← as_Policy a; Some (a, p).

(** [Event]. *)
Record Event := mkEvent {
  ev_ID : Z;
  ev_JobID : string;
  ev_Timestamp : Z;
  ev_Kind : string;
  ev_Data : payload;
  ev_Action : option AEvent
}.
#[export] Instance Event_eq_dec : EqDecision Event. Proof. solve_decision. Defined.

(** ** Inputs and outputs of the operations *)

Record IdempotencyInput := mkIdem {
  ii_Principal : string; ii_Method : string; ii_CanonicalPath : string; ii_Key : string; ii_RequestDigest : string
}.
Record CreateSpec := mkSpec {
  cs_Kind : string; cs_WorkspaceID : string; cs_Mutating : bool; cs_Request : payload;
  cs_Idempotency : IdempotencyInput; cs_action : option ActionState
}.
Definition cs_with_Request (s : CreateSpec) (r : payload) : CreateSpec :=
  mkSpec (cs_Kind s) (cs_WorkspaceID s) (cs_Mutating s) r (cs_Idempotency s) (cs_action s).

Record CreateResult := mkCreateResult { cres_Job : Job; cres_Existing : bool }.

Inductive JobCommitOperation :=
  JobCommitCreate | JobCommitStart | JobCommitTransition | JobCommitActionJoin | JobCommitCancelRequest.
Record JobCommitIntent := mkIntent {
  in_Actor : string; in_Operation : JobCommitOperation; in_Previous : option Job; in_Next : Job;
  in_PlanJobID : string; in_ConfirmationDigest : string
}.

Record StepUpInput := mkStepUp {
  su_Token : string; su_SessionDigest : string; su_TargetID : string; su_StateDigest : string
}.
Record ConfirmationInput := mkConfirmation {
  ci_PlanJobID : string; ci_PlanKind : string; ci_Token : string; ci_Actor : string; ci_IdentitySource : string;
  ci_TransactionID : string; ci_Action : string; ci_WorkspaceID : string; ci_ConfigValidator : string;
  ci_PlanDigest : string; ci_StepUp : option StepUpInput
}.

Definition ConfirmationDigestRequestKey := "_confirmation_digest".
Definition ConfirmationPlanJobRequestKey := "_confirmation_plan_job_id".
Definition ConfirmationIdentitySourceRequestKey := "_confirmation_identity_source".
Definition ConfirmationTransactionRequestKey := "_confirmation_transaction_id".
Definition ConfirmationActionRequestKey := "_confirmation_action".
Definition StepUpDigestRequestKey := "_step_up_digest".

Record TransitionInput := mkTransition {
  ti_Progress : option Z; ti_Warnings : list string; ti_Result : payload; ti_Error : option JobError;
  ti_NeedsCompensationCheck : bool
}.
Record ProgressUpdate := mkProgressUpdate { pu_Progress : option Z; pu_Warnings : list string }.
Record EventInput := mkEventInput { ei_Kind : string; ei_Data : payload }.
Record ReplayOptions := mkReplay { ro_AfterID : option Z; ro_Limit : Z }.
Record EventPage := mkPage { pg_Events : list Event; pg_LatestID : Z; pg_PrunedThrough : Z }.
Record ActionEventPage := mkActionPage { apg_Events : list AEvent; apg_LatestSeq : Z; apg_Outcome : Outcome }.

(** ** Errors *)

(** The sentinel errors a caller can test for with [errors.Is], the structured
    errors with their fields; [EInternal] is any error without a sentinel. *)
Inductive job_err :=
| EUnavailable | EExecutionRetained | EInvalid | ENotFound | EConflict
| EIdempotencyConflict (existing : string)
| EEventGap (job : string) (after pruned oldest latest : Z)
| EWorkspaceBusy (workspace running : string)
| ECompensationRequired (workspace : string) (jobs : list string)
| ECapacity (resource : string) (limit current : Z)
| EConfirmationInvalid | EConfirmationConsumed | EStepUpInvalid | EStepUpConsumed
| EActionExecutionBlocked (jobs : list string)
| EActionInFlight (existing : string) (policy : ActionConcurrency)
| EHost (e : hc_err)
| EObserver
| EInternal.
#[export] Instance job_err_eq_dec : EqDecision job_err. Proof. solve_decision. Defined.

(** ** Options *)

Record Options := mkOptions {
  op_EventCapacity : Z;
  op_EventRetention : Z;
  op_MaxQueuedJobs : Z;
  op_MaxRunningJobs : Z;
  op_LockTimeout : Z;
  op_JournalCompactionThreshold : Z
}.

Definition or_default (v d : Z) : Z := if v =? 0 then d else v.

Definition withDefaults (o : Options) : result job_err Options :=
  reject (op_EventCapacity o <? 0) || (op_EventRetention o <? 0) || (op_MaxQueuedJobs o <? 0) ||
         (op_MaxRunningJobs o <? 0) || (op_LockTimeout o <? 0) || (op_JournalCompactionThreshold o <? 0) with EInvalid ;;
  Ok (mkOptions (or_default (op_EventCapacity o) DefaultEventCapacity)
        (or_default (op_EventRetention o) DefaultEventRetention)
        (or_default (op_MaxQueuedJobs o) DefaultMaxQueuedJobs)
        (or_default (op_MaxRunningJobs o) DefaultMaxRunningJobs)
        (or_default (op_LockTimeout o) DefaultLockTimeout)
        (or_default (op_JournalCompactionThreshold o) DefaultJournalCompactionThreshold)).

Definition DigestRequest (body : string) : string := sha256_hex body.
