(* ===== verification/JobSanitize.v ===== *)
(** * Package [internal/consolejobs]: redaction and input validation (sanitize.go) *)

From Stdlib Require Import Ascii.
From S2P Require Import Prelude GoText GoJson GoEncoding ActionAbi HostConfirmation JobTypes.

Definition maximumPayloadBytes : Z := 1048576.
Definition maximumPayloadDepth : nat := 64.
Definition redactedValue : string := "<redacted>".
Definition redactedKey : string := "<redacted-key>".

(** ** The three patterns *)

Definition r_space : re := RStar (RClass is_space).
Definition r_sep : re := RClass (one_of ":=").

Definition headerSecretPattern : re :=
  RSeq RBound (RSeq (RAlts [RLitFold "authorization"; RLitFold "proxy-authorization"; RLitFold "cookie"; RLitFold "set-cookie"])
    (RSeq r_space (RSeq r_sep (RSeq r_space (RPlus (RClass (fun c => (c !=? newline) && (c !=? "013"%char)))))))).

Definition schemeSecretPattern : re :=
  RSeq RBound (RSeq (RGroup 1 (RAlt (RLitFold "bearer") (RLitFold "basic")))
    (RSeq (RPlus (RClass is_space))
      (RPlus (RClassFold (fun c => is_lower c || is_digit c || one_of "._~+/=-" c))))).

Definition r_name : re := RStar (RClassFold (fun c => is_lower c || is_digit c || one_of "_.-" c)).
Definition r_dash : re := ROpt (RClass (one_of "_.-")).

(** A quoted text: an escaped character other than a line break, or any other
    character except the quote and the backslash. *)
Definition r_quoted (q : ascii) : re :=
  RSeq (RClass (fun c => c ==? q))
    (RSeq (RStar (RAlt (RSeq (RClass (fun c => c ==? "\"%char)) (RClass (fun c => c !=? newline)))
                       (RClass (fun c => (c !=? q) && (c !=? "\"%char)))))
          (RClass (fun c => c ==? q))).

Definition assignmentSecretPattern : re :=
  RSeq RBound (RSeq
    (RGroup 1 (RSeq r_name (RSeq
      (RAlts [RLitFold "authorization"; RLitFold "cookie"; RLitFold "token"; RLitFold "password"; RLitFold "passwd";
              RLitFold "pwd"; RLitFold "passphrase"; RLitFold "secret"; RLitFold "csrf"; RLitFold "xsrf";
              RLitFold "handoff"; RLitFold "credential"; RLitFold "session"; RLitFold "otp"; RLitFold "assertion";
              RSeq (RLitFold "api") (RSeq r_dash (RLitFold "key"));
              RSeq (RLitFold "private") (RSeq r_dash (RLitFold "key"))]) r_name)))
    (RSeq RBound (RSeq
      (RGroup 2 (RSeq (ROpt (RClass (fun c => (c ==? quote) || (c ==? "'"%char)))) (RSeq r_space (RSeq r_sep r_space))))
      (RAlts [r_quoted quote; r_quoted "'"%char;
              RPlus (RClass (fun c => negb (one_of "&,;}]" c) && (c !=? newline) && (c !=? "013"%char)))])))).

(** The text up to and including the first separator. *)
Fixpoint through_sep (s : string) : option string :=
  match s with
  | EmptyString => None
  | String a s' =>
      if one_of ":=" a then Some (String a EmptyString)
      else match through_sep s' with Some p => Some (String a p) | None => None end
  end.

Definition sanitizeText (value : string) : string :=
  let value := ToValidUTF8 value in
  let value := ReplaceAll headerSecretPattern (fun m _ =>
    match through_sep m with Some p => p +:+ " " +:+ redactedValue | None => redactedValue end) value in
  let value := ReplaceAll schemeSecretPattern (fun _ t => cap 1 t +:+ " " +:+ redactedValue) value in
  ReplaceAll assignmentSecretPattern (fun _ t => cap 1 t +:+ cap 2 t +:+ redactedValue) value.

(** ** Payloads *)

Section Sanitize.
Context {U : UnicodeTables}.

(** The letters and digits of a key, in lower case.  A rune outside ASCII is
    only of interest when its lower case is an ASCII letter; any other letter
    or digit is kept as a byte that no marker contains. *)
Definition key_rune (r : Z) : string :=
  if r =? 8490 then "k" else if r =? 304 then "i"
  else if r <? 128 then
    let c := ascii_lower (byte_chr r) in if is_lower c || is_digit c then String c EmptyString else EmptyString
  else if uni_letter_or_digit r then String "255"%char EmptyString else EmptyString.

Definition sensitive_markers : list string :=
  ["authorization"; "cookie"; "token"; "password"; "passwd"; "pwd"; "passphrase"; "secret"; "csrf"; "xsrf";
   "handoff"; "credential"; "session"; "otp"; "assertion"; "apikey"; "privatekey"].

Definition isSensitiveKey (key : string) : bool :=
  let value := join "" (map key_rune (runes key)) in
  existsb (fun marker => Contains value marker) sensitive_markers.

(** The suffixes "#2", "#3", ... are tried in turn; one of the first
    [length used + 1] is free. *)
Fixpoint free_suffix (fuel : nat) (suffix : Z) (candidate : string) (used : list string) : string :=
  let unique := candidate +:+ "#" +:+ enc_int suffix in
  match fuel with
  | O => unique
  | S f => if bool_decide (unique ∈ used) then free_suffix f (suffix + 1) candidate used else unique
  end.
Definition uniqueSanitizedKey (candidate : string) (used : list string) : string :=
  if bool_decide (candidate ∈ used) then free_suffix (length used) 2 candidate used else candidate.

(** [sanitizeJSONValue].  The members of an object are visited in the order of
    their keys, which is the order a decoded object has here. *)
Fixpoint sanitizeJSONValue (depth : nat) (v : json) : result job_err json :=
  reject (maximumPayloadDepth <? depth)%nat with EInternal ;;
  match v with
  | JNull | JBool _ | JNumber _ => Ok v
  | JString s => Ok (JString (sanitizeText s))
  | JArray l =>
      let? l' := (fix go (l : list json) : result job_err (list json) :=
        match l with
        | [] => Ok []
        | x :: rest => let? x' := sanitizeJSONValue (S depth) x in let? rest' := go rest in Ok (x' :: rest')
        end) l in
      Ok (JArray l')
  | JObject m =>
      let? m' := (fix go (m : list (string * json)) (acc : list (string * json)) (used : list string)
          : result job_err (list (string * json)) :=
        match m with
        | [] => Ok acc
        | (key, x) :: rest =>
            if isSensitiveKey key then
              let candidate := uniqueSanitizedKey redactedKey used in
              go rest (obj_set candidate (JString redactedValue) acc) (candidate :: used)
            else
              let? x' := sanitizeJSONValue (S depth) x in
              let candidate := uniqueSanitizedKey (ToValidUTF8 (sanitizeText key)) used in
              go rest (obj_set candidate x' acc) (candidate :: used)
        end) m [] [] in
      Ok (JObject m')
  end.

Definition sanitizePayload (input : payload) : result job_err payload :=
  match input with
  | None => Ok None
  | Some m =>
      let body := marshal (JObject m) in
      reject maximumPayloadBytes <? slen body with EInvalid ;;
      match parse body with
      | None => Err EInvalid
      | Some v =>
          match sanitizeJSONValue 0 (jcanon v) with
          | Err _ => Err EInvalid
          | Ok (JObject m') => Ok (Some m')
          | Ok _ => Err EInvalid
          end
      end
  end.

Definition payloadIsSanitized (value : payload) : bool :=
  match value with
  | None => true
  | Some _ => match sanitizePayload value with Ok s => value ==? s | Err _ => false end
  end.

End Sanitize.

(** ** Identifiers *)

Definition validateIdentifier (value : string) (maximum : Z) : result job_err unit :=
  reject value ==? "" with EInvalid ;;
  reject maximum <? slen value with EInvalid ;;
  reject negb (ValidString value) with EInvalid ;;
  reject existsb IsControl (runes value) with EInvalid ;;
  reject sanitizeText value !=? value with EInvalid ;;
  Ok tt.

(** [strings.ToUpper(s) == s] on valid UTF-8. *)
Definition is_upper_text `{UnicodeTables} (s : string) : bool :=
  forallb (fun r => if r <? 128 then negb (is_lower (byte_chr r)) else uni_is_upper r) (runes s).

(** [path.Clean(p) = p] for a rooted path: no empty, "." or ".." element and no
    slash at the end. *)
Fixpoint path_elements (cur : string) (s : string) : list string :=
  match s with
  | EmptyString => [cur]
  | String a s' =>
      if a ==? "/"%char then cur :: path_elements EmptyString s'
      else path_elements (cur +:+ String a EmptyString) s'
  end.
Definition rooted_clean (p : string) : bool :=
  match p with
  | String a rest =>
      (a ==? "/"%char) &&
      ((rest ==? "") ||
       forallb (fun e => (e !=? "") && (e !=? ".") && (e !=? "..")) (path_elements EmptyString rest))
  | EmptyString => false
  end.
Definition canonical_path (p : string) : bool := rooted_clean p && negb (sany (one_of "?#") p).

Section Validate.
Context {U : UnicodeTables}.

Definition validateIdempotency (workspaceID : string) (input : IdempotencyInput) : result job_err unit :=
  do! validateIdentifier (ii_Principal input) 256 ;;
  do! validateIdentifier (ii_Method input) 16 ;;
  reject negb (is_upper_text (ii_Method input)) with EInvalid ;;
  do! validateIdentifier (ii_CanonicalPath input) 1024 ;;
  reject negb (canonical_path (ii_CanonicalPath input)) with EInvalid ;;
  do! validateIdentifier (ii_Key input) 256 ;;
  reject negb (hex64 (ii_RequestDigest input)) with EInvalid ;;
  validateIdentifier workspaceID 256.

Definition sanitizeJobError (input : option JobError) : result job_err (option JobError) :=
  match input with
  | None => Ok None
  | Some e =>
      do! validateIdentifier (er_Code e) 128 ;;
      reject 4096 <? slen (er_Message e) with EInvalid ;;
      let? detail := match er_Detail e with
        | None => Ok None
        | Some blocked =>
            reject (Z.of_nat (length blocked) =? 0) || (256 <? Z.of_nat (length blocked)) with EInvalid ;;
            reject existsb (fun item => (slen item =? 0) || (4096 <? slen item)) blocked with EInvalid ;;
            Ok (Some (map sanitizeText blocked))
        end in
      Ok (Some (mkJobError (er_Code e) (sanitizeText (er_Message e)) detail))
  end.

Definition sanitizeWarnings (input : list string) : result job_err (list string) :=
  reject 256 <? Z.of_nat (length input) with EInvalid ;;
  reject existsb (fun w => 4096 <? slen w) input with EInvalid ;;
  Ok (map sanitizeText input).

End Validate.
