(* ===== verification/JobAction.v ===== *)
(** * Package [internal/consolejobs]: action jobs (action.go, action_control.go,
    action_invocations.go)

    The functions that decide how an action event advances its job, what a
    persisted action job and event look like, and who owns a retry key.

    The [Value] of a result frame is kept in the compact form [json.Marshal]
    gives a [RawMessage] whenever a frame is written or copied, so
    [cloneActionEvent] is the identity on the frames of the model.  The
    functions below are applied to frames that passed [event_validate]; on a
    frame whose outcome has no payload the code would panic where the model
    returns an error. *)

From Stdlib Require Import Ascii.
From S2P Require Import Prelude GoText GoJson GoEncoding ActionAbi HostConfirmation JobTypes JobSanitize.

Definition actionNotStartedCode : string := "action_not_started".
Definition actionNotStartedMessage : string := "Action preflight failed; execution was not started".
Definition ActionContainmentCode : string := "execution_containment_lost".

(** The abbreviation of an event frame without payload. *)
Definition bare_event (job invocation typ : string) : AEvent :=
  mkAEvent Version job invocation 0 typ None None None None None.
Definition error_event (job invocation : string) (f : Failure) : AEvent :=
  mkAEvent Version job invocation 0 "error" None None None (Some f) None.
Definition result_event (job invocation : string) (r : Result) : AEvent :=
  mkAEvent Version job invocation 0 "result" None None (Some r) None None.
Definition truncated_event (job invocation : string) (t : Truncated) : AEvent :=
  mkAEvent Version job invocation 0 "truncated" None None None None (Some t).

Definition interruptedActionEvent (id invocation : string) : AEvent :=
  error_event id invocation
    (mkFailure Unknown "daemon_restarted" "Action execution state was lost during daemon restart").

Definition actionOutcome (e : AEvent) : Outcome :=
  match ae_Result e with
  | Some r => rs_Outcome r
  | None => match ae_Error e with Some f => fl_Outcome f | None => NoOutcome end
  end.

Definition isActionNotStarted (e : AEvent) : bool :=
  (ae_Type e ==? "error") &&
  match ae_Error e with
  | Some f => (fl_Outcome f ==? Failed) && (fl_Code f ==? actionNotStartedCode) && (fl_Message f ==? actionNotStartedMessage)
  | None => false
  end.

Definition ActionContainmentLost (j : Job) : bool :=
  present (j_Action j) && (j_Status j ==? StatusInterrupted) &&
  match j_Error j with Some e => er_Code e ==? ActionContainmentCode | None => false end.

(** ** Bindings and policies *)

Definition sameActionInvocationPolicy (l r : option ActionInvocationPolicy) : bool :=
  match l, r with
  | Some a, Some b => (ap_Concurrency a ==? ap_Concurrency b) && (ap_RequestDigest a ==? ap_RequestDigest b)
  | None, None => true
  | _, _ => false
  end.

Definition sameActionBinding (l r : option ActionState) : bool :=
  match l, r with
  | Some a, Some b =>
      (as_ABI a ==? as_ABI b) && (as_Name a ==? as_Name b) && (as_InvocationID a ==? as_InvocationID b) &&
      sameActionInvocationPolicy (as_Policy a) (as_Policy b)
  | None, None => true
  | _, _ => false
  end.

Definition sameActionCreate (j : Job) (spec : CreateSpec) : bool :=
  match j_Action j, cs_action spec with
  | Some a, Some b =>
      (as_ABI a ==? as_ABI b) && (as_Name a ==? as_Name b) && sameActionInvocationPolicy (as_Policy a) (as_Policy b) &&
      (j_Mutating j ==? cs_Mutating spec) && (j_WorkspaceID j ==? cs_WorkspaceID spec) && (j_Request j ==? cs_Request spec)
  | None, None => true
  | _, _ => false
  end.

Definition validActionConcurrency (c : ActionConcurrency) : bool :=
  (c ==? ActionCoalesce) || (c ==? ActionReject) || (c ==? ActionQueue).

Definition actionRequestDigest (name workspace : string) (mutating : bool) (policy : ActionConcurrency) (request : payload)
  : string :=
  DigestRequest (enc_struct [fld "abi" (enc_string Version); fld "name" (enc_string name);
    fld "workspace" (enc_string workspace); fld "mutating" (marshal (JBool mutating));
    fld "concurrency" (enc_string (concurrency_string policy)); fld "parameters" (marshal_payload request)]).

(** The request frame an action's parameters must fit in. *)
Definition action_request_ok (abi job invocation name : string) (request : payload) : bool :=
  is_ok (EncodeRequest (mkRequest abi job invocation name (marshal_payload request))).

Definition validateActionCreate (spec : CreateSpec) : result job_err unit :=
  match cs_action spec with
  | Some a =>
      reject negb (action_request_ok (as_ABI a) "pending" (as_InvocationID a) (as_Name a) (cs_Request spec)) with EInvalid ;;
      Ok tt
  | None => Ok tt
  end.

Definition time_before (a b : Z) : bool := a <? b.
Definition actionJobBefore (l r : Job) : bool :=
  (j_CreatedAt l <? j_CreatedAt r) || ((j_CreatedAt l =? j_CreatedAt r) && sltb (j_ID l) (j_ID r)).

Definition actionRetryKeyLive (j : Job) (now : Z) : bool :=
  negb (terminal (j_Status j)) ||
  match j_FinishedAt j with None => true | Some f => now <? f + ActionKeyRetention end.

(** ** How an event advances its job *)

Definition actionJobAfterEvent (previous : Job) (event : AEvent) (now : Z) : result job_err Job :=
  match j_Action previous with
  | None => Err EConflict
  | Some a =>
      reject (ae_JobID event !=? j_ID previous) || (ae_InvocationID event !=? as_InvocationID a) ||
             terminal (j_Status previous) || (ae_Type event ==? "truncated") with EConflict ;;
      reject (if j_Status previous ==? StatusQueued
              then (actionOutcome event !=? Cancelled) && negb (isActionNotStarted event)
              else (j_Status previous !=? StatusRunning) || isActionNotStarted event ||
                   ((actionOutcome event ==? Cancelled) && negb (present (as_Cancellation a)))) with EConflict ;;
      reject j_Revision previous ==? u64_max with EInvalid ;;
      let outcome := actionOutcome event in
      let next := j_with_Action (j_with_Revision previous (u64_succ (j_Revision previous)))
                    (Some (as_after a (ae_Seq event) outcome)) in
      let finished := j_with_FinishedAt next (Some now) in
      match outcome with
      | NoOutcome => Ok next
      | Succeeded =>
          match ae_Result event with
          | Some r =>
              match parse (rs_Value r), rs_Changed r with
              | Some (JObject m), Some changed =>
                  Ok (j_with_Result (j_with_Progress (j_with_Status finished StatusSucceeded) 100)
                        (Some [("changed", JBool changed); ("value", jcanon (JObject m))]))
              | _, _ => Err EInvalid
              end
          | None => Err EInvalid
          end
      | Cancelled => Ok (j_with_Status finished StatusCanceled)
      | Failed | Unknown =>
          match ae_Error event with
          | Some f =>
              Ok (j_with_NeedsCompensationCheck
                    (j_with_Error (j_with_Status finished (if outcome ==? Unknown then StatusInterrupted else StatusFailed))
                       (Some (mkJobError (fl_Code f) (fl_Message f) None)))
                    (j_Mutating previous && (j_Status previous ==? StatusRunning)))
          | None => Err EInvalid
          end
      | OtherOutcome _ => Err EInvalid
      end
  end.

(** Ordinary updates may start an action, acknowledge compensation, or add
    exactly one cancel intent. *)
Definition validActionJobUpdate (previous next : Job) : bool :=
  match j_Action previous, j_Action next with
  | Some p, Some n =>
      if p ==? n then
        (j_Status previous ==? j_Status next) || ((j_Status previous ==? StatusQueued) && (j_Status next ==? StatusRunning))
      else match as_Cancellation p, as_Cancellation n with
           | None, Some c =>
               (j_Status previous ==? StatusRunning) && (j_Status next ==? StatusRunning) &&
               (j_with_Action (j_with_Revision previous (j_Revision next)) (Some (as_with_Cancellation p c)) ==? next)
           | _, _ => false
           end
  | _, _ => false
  end.

(** ** Persisted action jobs and events *)

Section Validate.
Context {U : UnicodeTables}.

Definition validateActionInvocationPolicy (j : Job) (a : ActionState) : result job_err unit :=
  match as_Policy a with
  | None => Ok tt
  | Some p =>
      reject negb (validActionConcurrency (ap_Concurrency p)) || (MaxActionRetryKeys <? Z.of_nat (length (ap_RetryKeys p)))
        with EInternal ;;
      reject actionRequestDigest (as_Name a) (j_WorkspaceID j) (j_Mutating j) (ap_Concurrency p) (j_Request j)
             !=? ap_RequestDigest p with EInternal ;;
      reject negb (forallb (fun b =>
                     hex64 (rb_Digest b) && (rb_BoundAt b !=? 0) && negb (rb_BoundAt b <? j_CreatedAt j) &&
                     match j_FinishedAt j with Some f => negb (f <? rb_BoundAt b) | None => true end) (ap_RetryKeys p)) ||
             negb (bool_decide (NoDup (map rb_Digest (ap_RetryKeys p)))) with EInternal ;;
      Ok tt
  end.

Definition validateActionControl (j : Job) (a : ActionState) : result job_err unit :=
  reject match as_Cancellation a with
         | Some c => negb (present (j_StartedAt j)) || (ac_RequestedAt c ==? 0) ||
                     negb (is_ok (validateIdentifier (ac_Actor c) 256))
         | None => false
         end with EInternal ;;
  if negb (terminal (j_Status j)) then Ok tt
  else
    reject match j_StartedAt j with
           | None =>
               j_NeedsCompensationCheck j ||
               ((j_Status j !=? StatusCanceled) &&
                ((j_Status j !=? StatusFailed) ||
                 match j_Error j with
                 | None => true
                 | Some e => (er_Code e !=? actionNotStartedCode) || (er_Message e !=? actionNotStartedMessage)
                 end))
           | Some _ =>
               match j_Error j with Some e => er_Code e ==? actionNotStartedCode | None => false end ||
               ((j_Status j ==? StatusCanceled) && negb (present (as_Cancellation a)))
           end with EInternal ;;
    Ok tt.

(** The outcome an action job has in each status. *)
Definition status_outcome (s : Status) : Outcome :=
  match s with
  | StatusSucceeded => Succeeded | StatusFailed => Failed | StatusCanceled => Cancelled
  | StatusInterrupted => Unknown | _ => NoOutcome
  end.

Definition validateActionJob (j : Job) : result job_err unit :=
  match j_Action j with
  | None => reject j_Kind j ==? ActionJobKind with EInternal ;; Ok tt
  | Some a =>
      reject j_Kind j !=? ActionJobKind with EInternal ;;
      do! validateActionInvocationPolicy j a ;;
      do! validateActionControl j a ;;
      reject negb (terminal (j_Status j)) &&
             (present (j_Result j) || present (j_Error j) || j_NeedsCompensationCheck j) with EInternal ;;
      reject ((j_Status j ==? StatusSucceeded) && (j_Progress j !=? 100)) ||
             ((j_Status j !=? StatusSucceeded) && (j_Progress j !=? 0)) with EInternal ;;
      reject negb (action_request_ok (as_ABI a) (j_ID j) (as_InvocationID a) (as_Name a) (j_Request j)) with EInternal ;;
      reject (as_Outcome a !=? status_outcome (j_Status j)) || ((j_Status j ==? StatusQueued) && (as_LastSeq a !=? 0)) ||
             (terminal (j_Status j) && (as_LastSeq a ==? 0)) with EInternal ;;
      Ok tt
  end.

(** [sanitizeActionEvent]: the frame is encoded, redacted as an object and
    decoded again. *)
Definition sanitizeActionEvent (event : AEvent) : result job_err AEvent :=
  match EncodeExecutorEvent event with
  | Err _ => Err EInvalid
  | Ok frame =>
      match parse frame with
      | Some (JObject m) =>
          match jcanon (JObject m) with
          | JObject m' =>
              let? public := sanitizePayload (Some m') in
              map_err (fun _ => EInvalid) (DecodeExecutorEvent (marshal_payload public +:+ String newline EmptyString))
          | _ => Err EInvalid
          end
      | _ => Err EInvalid
      end
  end.

Definition validateActionEvent (event : Event) : result job_err unit :=
  match ev_Action event with
  | None => Ok tt
  | Some frame =>
      reject present (ev_Data event) || (ev_Kind event !=? "action." +:+ ae_Type frame) || (ev_JobID event !=? ae_JobID frame)
        with EInternal ;;
      reject negb (is_ok (EncodeJournalEvent frame)) with EInternal ;;
      if ae_Type frame ==? "truncated" then Ok tt
      else
        let candidate := ae_with_Seq frame 0 in
        match sanitizeActionEvent candidate with
        | Ok public => reject public !=? candidate with EInternal ;; Ok tt
        | Err _ => Err EInternal
        end
  end.

End Validate.
