(* ===== verification/JobJournal.v ===== *)
(** * Package [internal/consolejobs]: the job journal (journal.go,
    journal_receipts.go's file identity apart, action_journal.go,
    action_retry_history.go and the journal part of action_invocations.go)

    The journal is a list of records.  Replaying it rebuilds the state of the
    store: jobs, idempotency identities, retained events and event cursors.
    Every record is validated against the state before it changes it. *)

From Stdlib Require Import Ascii.
From S2P Require Import Prelude GoText GoJson GoEncoding ActionAbi HostConfirmation JobTypes JobSanitize.
From S2P Require Import JobAction.

Definition maximumJournalRecordBytes : Z := 2097152.
Definition maximumJournalTransactionBytes : Z := 67108864.

(** ** Records *)

Inductive recordKind :=
  recordStoreInitialized | recordJobCreated | recordJobUpdated | recordEventAdded | recordActionEvent
| recordActionKeyBound | recordEventsPruned | recordSnapshotBegin | recordJobSnapshot | recordIdempotencyState
| recordEventCursor | recordEventSnapshot | recordSnapshotEnd | recordUnknown (s : string).
#[export] Instance recordKind_eq_dec : EqDecision recordKind. Proof. solve_decision. Defined.

Definition kind_string (k : recordKind) : string :=
  match k with
  | recordStoreInitialized => "store_initialized" | recordJobCreated => "job_created"
  | recordJobUpdated => "job_updated" | recordEventAdded => "event_added" | recordActionEvent => "action_event"
  | recordActionKeyBound => "action_key_bound" | recordEventsPruned => "events_pruned"
  | recordSnapshotBegin => "snapshot_begin" | recordJobSnapshot => "job_state"
  | recordIdempotencyState => "idempotency_state" | recordEventCursor => "event_cursor"
  | recordEventSnapshot => "event_state" | recordSnapshotEnd => "snapshot_end" | recordUnknown s => s
  end.

Record persistedIdempotency := mkPI {
  pi_Identity : string; pi_Principal : string; pi_Method : string; pi_CanonicalPath : string;
  pi_WorkspaceID : string; pi_KeyDigest : string; pi_RequestDigest : string; pi_JobID : string
}.
#[export] Instance persistedIdempotency_eq_dec : EqDecision persistedIdempotency. Proof. solve_decision. Defined.

Record eventPrune := mkPrune { ep_JobID : string; ep_Through : Z; ep_Reason : string }.
Record eventCursor := mkCursor { ec_JobID : string; ec_PrunedThrough : Z; ec_LatestEventID : Z }.
Record snapshotBoundary := mkBoundary {
  sb_Generation : Z; sb_SourceSequence : Z; sb_LastEventID : Z; sb_JobCount : Z; sb_IdempotencyCount : Z;
  sb_EventCount : Z; sb_Digest : string
}.
#[export] Instance eventPrune_eq_dec : EqDecision eventPrune. Proof. solve_decision. Defined.
#[export] Instance eventCursor_eq_dec : EqDecision eventCursor. Proof. solve_decision. Defined.
#[export] Instance snapshotBoundary_eq_dec : EqDecision snapshotBoundary. Proof. solve_decision. Defined.

Record journalRecord := mkRecord {
  r_SchemaVersion : Z;
  r_Sequence : Z;
  r_Kind : recordKind;
  r_RecordedAt : Z;
  r_StoreID : string;
  r_Job : option Job;
  r_Idempotency : option persistedIdempotency;
  r_Event : option Event;
  r_Prune : option eventPrune;
  r_Cursor : option eventCursor;
  r_Snapshot : option snapshotBoundary;
  r_ActionEvents : option (list Event)
}.
#[export] Instance journalRecord_eq_dec : EqDecision journalRecord. Proof. solve_decision. Defined.

(** The records the operations build; version and sequence are filled in when
    the transaction is prepared. *)
Definition rec_initialized (at_ : Z) (storeID : string) : journalRecord :=
  mkRecord 0 0 recordStoreInitialized at_ storeID None None None None None None None.
Definition rec_created (at_ : Z) (j : Job) (i : persistedIdempotency) : journalRecord :=
  mkRecord 0 0 recordJobCreated at_ "" (Some j) (Some i) None None None None None.
Definition rec_job (k : recordKind) (at_ : Z) (j : Job) : journalRecord :=
  mkRecord 0 0 k at_ "" (Some j) None None None None None None.
Definition rec_event (k : recordKind) (at_ : Z) (e : Event) : journalRecord :=
  mkRecord 0 0 k at_ "" None None (Some e) None None None None.
Definition rec_prune (at_ : Z) (p : eventPrune) : journalRecord :=
  mkRecord 0 0 recordEventsPruned at_ "" None None None (Some p) None None None.
Definition rec_action (at_ : Z) (j : Job) (p : option eventPrune) (es : list Event) : journalRecord :=
  mkRecord 0 0 recordActionEvent at_ "" (Some j) None None p None None (Some es).
Definition rec_idempotency (at_ : Z) (i : persistedIdempotency) : journalRecord :=
  mkRecord 0 0 recordIdempotencyState at_ "" None (Some i) None None None None None.
Definition rec_cursor (at_ : Z) (c : eventCursor) : journalRecord :=
  mkRecord 0 0 recordEventCursor at_ "" None None None None (Some c) None None.
Definition rec_boundary (k : recordKind) (at_ : Z) (b : snapshotBoundary) : journalRecord :=
  mkRecord 0 0 k at_ "" None None None None None (Some b) None.
Definition r_numbered (r : journalRecord) (seq at_ : Z) : journalRecord :=
  mkRecord JournalVersion seq (r_Kind r) at_ (r_StoreID r) (r_Job r) (r_Idempotency r) (r_Event r) (r_Prune r)
    (r_Cursor r) (r_Snapshot r) (r_ActionEvents r).

(** ** State *)

Record snapshotProgress := mkProgressState {
  sp_boundary : snapshotBoundary;
  sp_jobCount : Z;
  sp_idempotencyCount : Z;
  sp_eventCount : Z;
  sp_lastRetainedEventID : Z;
  sp_digest : list Z;
  sp_cursors : gset string;
  sp_idempotencyJobs : gset string
}.

Record storeState := mkState {
  st_initialized : bool;
  st_compacted : bool;
  st_hasObsoleteHistory : bool;
  st_obsoleteRevision : Z;
  st_storeID : string;
  st_generation : Z;
  st_lastRecordSequence : Z;
  st_lastEventID : Z;
  st_jobs : gmap string Job;
  st_idempotency : gmap string persistedIdempotency;
  st_events : gmap string (list Event);
  st_prunedThrough : gmap string Z;
  st_latestEventByJob : gmap string Z;
  st_snapshot : option snapshotProgress
}.

Definition newStoreState : storeState :=
  mkState false false false 0 "" 0 0 0 ∅ ∅ ∅ ∅ ∅ None.

Definition st_with_lastRecordSequence (s : storeState) (v : Z) : storeState :=
  mkState (st_initialized s) (st_compacted s) (st_hasObsoleteHistory s) (st_obsoleteRevision s) (st_storeID
    s) (st_generation s) v (st_lastEventID s) (st_jobs s) (st_idempotency s) (st_events s) (st_prunedThrough
    s) (st_latestEventByJob s) (st_snapshot s).
Definition st_with_lastEventID (s : storeState) (v : Z) : storeState :=
  mkState (st_initialized s) (st_compacted s) (st_hasObsoleteHistory s) (st_obsoleteRevision s) (st_storeID
    s) (st_generation s) (st_lastRecordSequence s) v (st_jobs s) (st_idempotency s) (st_events s)
    (st_prunedThrough s) (st_latestEventByJob s) (st_snapshot s).
Definition st_with_jobs (s : storeState) (v : gmap string Job) : storeState :=
  mkState (st_initialized s) (st_compacted s) (st_hasObsoleteHistory s) (st_obsoleteRevision s) (st_storeID
    s) (st_generation s) (st_lastRecordSequence s) (st_lastEventID s) v (st_idempotency s) (st_events s)
    (st_prunedThrough s) (st_latestEventByJob s) (st_snapshot s).
Definition st_with_idempotency (s : storeState) (v : gmap string persistedIdempotency) : storeState :=
  mkState (st_initialized s) (st_compacted s) (st_hasObsoleteHistory s) (st_obsoleteRevision s) (st_storeID
    s) (st_generation s) (st_lastRecordSequence s) (st_lastEventID s) (st_jobs s) v (st_events s)
    (st_prunedThrough s) (st_latestEventByJob s) (st_snapshot s).
Definition st_with_events (s : storeState) (v : gmap string (list Event)) : storeState :=
  mkState (st_initialized s) (st_compacted s) (st_hasObsoleteHistory s) (st_obsoleteRevision s) (st_storeID
    s) (st_generation s) (st_lastRecordSequence s) (st_lastEventID s) (st_jobs s) (st_idempotency s) v
    (st_prunedThrough s) (st_latestEventByJob s) (st_snapshot s).
Definition st_with_prunedThrough (s : storeState) (v : gmap string Z) : storeState :=
  mkState (st_initialized s) (st_compacted s) (st_hasObsoleteHistory s) (st_obsoleteRevision s) (st_storeID
    s) (st_generation s) (st_lastRecordSequence s) (st_lastEventID s) (st_jobs s) (st_idempotency s)
    (st_events s) v (st_latestEventByJob s) (st_snapshot s).
Definition st_with_latestEventByJob (s : storeState) (v : gmap string Z) : storeState :=
  mkState (st_initialized s) (st_compacted s) (st_hasObsoleteHistory s) (st_obsoleteRevision s) (st_storeID
    s) (st_generation s) (st_lastRecordSequence s) (st_lastEventID s) (st_jobs s) (st_idempotency s)
    (st_events s) (st_prunedThrough s) v (st_snapshot s).
Definition st_with_snapshot (s : storeState) (v : option snapshotProgress) : storeState :=
  mkState (st_initialized s) (st_compacted s) (st_hasObsoleteHistory s) (st_obsoleteRevision s) (st_storeID
    s) (st_generation s) (st_lastRecordSequence s) (st_lastEventID s) (st_jobs s) (st_idempotency s)
    (st_events s) (st_prunedThrough s) (st_latestEventByJob s) v.
(** [state.hasObsoleteHistory = true] and the saturating revision counter. *)
Definition st_obsolete (s : storeState) : storeState :=
  mkState (st_initialized s) (st_compacted s) true
    (if st_obsoleteRevision s ==? u64_max then u64_max else u64_succ (st_obsoleteRevision s))
    (st_storeID s) (st_generation s) (st_lastRecordSequence s) (st_lastEventID s) (st_jobs s) (st_idempotency s)
    (st_events s) (st_prunedThrough s) (st_latestEventByJob s) (st_snapshot s).
Definition st_put_job (s : storeState) (j : Job) : storeState := st_with_jobs s (<[j_ID j := j]> (st_jobs s)).
Definition st_put_events (s : storeState) (id : string) (es : list Event) : storeState :=
  st_with_events s (<[id := es]> (st_events s)).
Definition st_put_latest (s : storeState) (id : string) (n : Z) : storeState :=
  st_with_latestEventByJob s (<[id := n]> (st_latestEventByJob s)).
Definition st_put_pruned (s : storeState) (id : string) (n : Z) : storeState :=
  st_with_prunedThrough s (<[id := n]> (st_prunedThrough s)).

Definition hasSnapshotFields (r : journalRecord) : bool := present (r_Cursor r) || present (r_Snapshot r).
Definition isSnapshotContinuation (k : recordKind) : bool :=
  match k with
  | recordJobSnapshot | recordIdempotencyState | recordEventCursor | recordEventSnapshot | recordSnapshotEnd => true
  | _ => false
  end.

(** ** Encoding ([json.Marshal] of the record types) *)

Definition enc_bool (b : bool) : string := if b then "true" else "false".
Definition omit_opt {A} (k : string) (f : A -> string) (o : option A) : option (string * string) :=
  match o with Some a => fld k (f a) | None => None end.
(** [omitempty] leaves out a nil and an empty map. *)
Definition omit_map (k : string) (p : payload) : option (string * string) :=
  match p with Some (_ :: _) => fld k (marshal_payload p) | _ => None end.
Definition enc_array {A} (f : A -> string) (l : list A) : string := "[" +:+ join "," (map f l) +:+ "]".
Definition omit_array {A} (k : string) (f : A -> string) (l : list A) : option (string * string) :=
  match l with [] => None | _ => fld k (enc_array f l) end.

Definition enc_job_error (e : JobError) : string :=
  enc_struct [fld "code" (enc_string (er_Code e)); fld "message" (enc_string (er_Message e));
    omit_opt "detail" (fun blocked => enc_struct [fld "blocked" (enc_array enc_string blocked)]) (er_Detail e)].

Definition enc_retry (b : ActionRetryBinding) : string :=
  enc_struct [fld "digest" (enc_string (rb_Digest b)); fld "bound_at" (enc_time (rb_BoundAt b))].
Definition enc_policy (p : ActionInvocationPolicy) : string :=
  enc_struct [fld "concurrency" (enc_string (concurrency_string (ap_Concurrency p)));
    fld "request_digest" (enc_string (ap_RequestDigest p)); omit_array "retry_keys" enc_retry (ap_RetryKeys p)].
Definition enc_cancellation (c : ActionCancellation) : string :=
  enc_struct [fld "actor" (enc_string (ac_Actor c)); fld "requested_at" (enc_time (ac_RequestedAt c))].
Definition enc_action_state (a : ActionState) : string :=
  enc_struct [omit_opt "cancellation" enc_cancellation (as_Cancellation a); fld "abi" (enc_string (as_ABI a));
    fld "name" (enc_string (as_Name a)); fld "invocation_id" (enc_string (as_InvocationID a));
    fld "last_seq" (enc_int (as_LastSeq a)); omit_str "outcome" (outcome_string (as_Outcome a));
    omit_opt "policy" enc_policy (as_Policy a)].

Definition enc_job (j : Job) : string :=
  enc_struct [fld "id" (enc_string (j_ID j)); fld "kind" (enc_string (j_Kind j));
    fld "workspace_id" (enc_string (j_WorkspaceID j)); fld "mutating" (enc_bool (j_Mutating j));
    fld "status" (enc_string (status_string (j_Status j))); fld "created_by" (enc_string (j_CreatedBy j));
    fld "created_at" (enc_time (j_CreatedAt j)); omit_opt "started_at" enc_time (j_StartedAt j);
    omit_opt "finished_at" enc_time (j_FinishedAt j); omit_map "request" (j_Request j);
    fld "progress" (enc_int (j_Progress j)); omit_array "warnings" enc_string (j_Warnings j);
    omit_map "result" (j_Result j); omit_opt "error" enc_job_error (j_Error j);
    fld "needs_compensation_check" (enc_bool (j_NeedsCompensationCheck j)); fld "revision" (enc_int (j_Revision j));
    omit_opt "action" enc_action_state (j_Action j)].

Definition enc_idempotency (i : persistedIdempotency) : string :=
  enc_struct [fld "identity" (enc_string (pi_Identity i)); fld "principal" (enc_string (pi_Principal i));
    fld "method" (enc_string (pi_Method i)); fld "canonical_path" (enc_string (pi_CanonicalPath i));
    fld "workspace_id" (enc_string (pi_WorkspaceID i)); fld "key_digest" (enc_string (pi_KeyDigest i));
    fld "request_digest" (enc_string (pi_RequestDigest i)); fld "job_id" (enc_string (pi_JobID i))].

(** A frame that cannot be encoded makes the whole record an error, see
    [encodable]. *)
Definition enc_frame (e : AEvent) : string := default "null" (enc_event e).
Definition enc_job_event (e : Event) : string :=
  enc_struct [fld "id" (enc_int (ev_ID e)); fld "job_id" (enc_string (ev_JobID e));
    fld "timestamp" (enc_time (ev_Timestamp e)); fld "kind" (enc_string (ev_Kind e)); omit_map "data" (ev_Data e);
    omit_opt "action" enc_frame (ev_Action e)].

Definition enc_prune (p : eventPrune) : string :=
  enc_struct [fld "job_id" (enc_string (ep_JobID p)); fld "through" (enc_int (ep_Through p));
    fld "reason" (enc_string (ep_Reason p))].
Definition enc_cursor (c : eventCursor) : string :=
  enc_struct [fld "job_id" (enc_string (ec_JobID c)); fld "pruned_through" (enc_int (ec_PrunedThrough c));
    fld "latest_event_id" (enc_int (ec_LatestEventID c))].
Definition enc_boundary (b : snapshotBoundary) : string :=
  enc_struct [fld "generation" (enc_int (sb_Generation b)); fld "source_sequence" (enc_int (sb_SourceSequence b));
    fld "last_event_id" (enc_int (sb_LastEventID b)); fld "job_count" (enc_int (sb_JobCount b));
    fld "idempotency_count" (enc_int (sb_IdempotencyCount b)); fld "event_count" (enc_int (sb_EventCount b));
    omit_str "digest" (sb_Digest b)].

Definition enc_record (r : journalRecord) : string :=
  enc_struct [fld "schema_version" (enc_int (r_SchemaVersion r)); fld "sequence" (enc_int (r_Sequence r));
    fld "kind" (enc_string (kind_string (r_Kind r))); fld "recorded_at" (enc_time (r_RecordedAt r));
    omit_str "store_id" (r_StoreID r); omit_opt "job" enc_job (r_Job r);
    omit_opt "idempotency" enc_idempotency (r_Idempotency r); omit_opt "event" enc_job_event (r_Event r);
    omit_opt "prune" enc_prune (r_Prune r); omit_opt "cursor" enc_cursor (r_Cursor r);
    omit_opt "snapshot" enc_boundary (r_Snapshot r);
    match r_ActionEvents r with Some es => omit_array "action_events" enc_job_event es | None => None end].

(** [json.Marshal] fails on a year outside [0, 9999] and on a raw message that
    is not JSON. *)
Definition opt_all {A} (f : A -> bool) (o : option A) : bool := match o with Some a => f a | None => true end.
Definition encodable_job (j : Job) : bool :=
  year_encodable (j_CreatedAt j) && opt_all year_encodable (j_StartedAt j) && opt_all year_encodable (j_FinishedAt j) &&
  opt_all (fun a => opt_all (fun c => year_encodable (ac_RequestedAt c)) (as_Cancellation a) &&
                    opt_all (fun p => forallb (fun b => year_encodable (rb_BoundAt b)) (ap_RetryKeys p)) (as_Policy a))
    (j_Action j).
Definition encodable_event (e : Event) : bool :=
  year_encodable (ev_Timestamp e) && opt_all (fun f => present (enc_event f)) (ev_Action e).
Definition encodable (r : journalRecord) : bool :=
  year_encodable (r_RecordedAt r) && opt_all encodable_job (r_Job r) && opt_all encodable_event (r_Event r) &&
  opt_all (forallb encodable_event) (r_ActionEvents r).

(** What a record reads back as: an empty map was left out by [omitempty] and
    is nil afterwards. *)
Definition reread_map (p : payload) : payload := match p with Some [] => None | _ => p end.
Definition reread_job (j : Job) : Job :=
  j_with_Result (j_with_Request j (reread_map (j_Request j))) (reread_map (j_Result j)).
Definition reread_event (e : Event) : Event :=
  mkEvent (ev_ID e) (ev_JobID e) (ev_Timestamp e) (ev_Kind e) (reread_map (ev_Data e)) (ev_Action e).
Definition reread (r : journalRecord) : journalRecord :=
  mkRecord (r_SchemaVersion r) (r_Sequence r) (r_Kind r) (r_RecordedAt r) (r_StoreID r)
    (reread_job <$> r_Job r) (r_Idempotency r) (reread_event <$> r_Event r) (r_Prune r) (r_Cursor r) (r_Snapshot r)
    (match r_ActionEvents r with Some ((_ :: _) as es) => Some (map reread_event es) | _ => None end).

(** [advanceSnapshotDigest]: the chained SHA-256 of the semantic fields. *)
Definition digest_zero : list Z := repeat 0 32.
Definition advanceSnapshotDigest (current : list Z) (r : journalRecord) : result job_err (list Z) :=
  reject negb (opt_all encodable_job (r_Job r) && opt_all encodable_event (r_Event r)) with EInternal ;;
  Ok (Sum256 (current ++ string_bytes
    (enc_struct [fld "kind" (enc_string (kind_string (r_Kind r))); omit_opt "job" enc_job (r_Job r);
       omit_opt "idempotency" enc_idempotency (r_Idempotency r); omit_opt "event" enc_job_event (r_Event r);
       omit_opt "cursor" enc_cursor (r_Cursor r); omit_opt "snapshot" enc_boundary (r_Snapshot r)]))).
#[global] Arguments advanceSnapshotDigest : simpl never.

Definition idempotencyIdentity (principal method canonicalPath workspaceID keyDigest : string) : string :=
  sha256_hex (enc_array enc_string [principal; method; canonicalPath; workspaceID; keyDigest]).

(** ** Validation of persisted values *)

Section Journal.
Context {U : UnicodeTables}.

Definition validatePersistedEvent (e : Event) : result job_err unit :=
  reject (ev_ID e ==? 0) || (ev_Timestamp e ==? 0) with EInternal ;;
  do! validateIdentifier (ev_JobID e) 256 ;;
  do! validateIdentifier (ev_Kind e) 128 ;;
  reject negb (payloadIsSanitized (ev_Data e)) with EInternal ;;
  validateActionEvent e.

Definition validatePersistedJob (j : Job) : result job_err unit :=
  do! check_all (fun v => validateIdentifier v 256) [j_ID j; j_Kind j; j_WorkspaceID j; j_CreatedBy j] ;;
  reject negb (status_valid (j_Status j)) with EInternal ;;
  reject (j_CreatedAt j ==? 0) || (j_Revision j ==? 0) || (j_Progress j <? 0) || (100 <? j_Progress j) with EInternal ;;
  reject match j_Status j with
         | StatusQueued => present (j_StartedAt j) || present (j_FinishedAt j)
         | StatusRunning => negb (present (j_StartedAt j)) || present (j_FinishedAt j)
         | _ => negb (present (j_FinishedAt j))
         end with EInternal ;;
  reject (j_Status j ==? StatusSucceeded) && present (j_Error j) with EInternal ;;
  reject (j_Status j ==? StatusFailed) && negb (present (j_Error j)) with EInternal ;;
  reject j_NeedsCompensationCheck j && (j_Status j !=? StatusFailed) && (j_Status j !=? StatusCanceled) &&
         (j_Status j !=? StatusInterrupted) with EInternal ;;
  reject negb (payloadIsSanitized (j_Request j)) || negb (payloadIsSanitized (j_Result j)) with EInternal ;;
  reject existsb (fun w => sanitizeText w !=? w) (j_Warnings j) with EInternal ;;
  reject negb (opt_all (fun e => sanitizeText (er_Message e) ==? er_Message e) (j_Error j)) with EInternal ;;
  validateActionJob j.

Definition sameImmutableJobFields (l r : Job) : bool :=
  (j_ID l ==? j_ID r) && (j_Kind l ==? j_Kind r) && (j_WorkspaceID l ==? j_WorkspaceID r) &&
  (j_Mutating l ==? j_Mutating r) && (j_CreatedBy l ==? j_CreatedBy r) && (j_CreatedAt l ==? j_CreatedAt r) &&
  (j_Request l ==? j_Request r) && sameActionBinding (j_Action l) (j_Action r).

(** The previous job with its compensation acknowledged. *)
Definition acknowledged (previous next : Job) : Job :=
  j_with_Warnings (j_with_NeedsCompensationCheck (j_with_Revision previous (j_Revision next)) false) (j_Warnings next).

Definition validPersistedJobUpdate (previous next : Job) : bool :=
  if j_Status previous ==? j_Status next then
    if j_Status previous ==? StatusRunning then
      match j_StartedAt next, j_StartedAt previous with
      | Some n, Some p => (n ==? p) && negb (present (j_FinishedAt next)) && negb (present (j_Error next)) &&
                          negb (present (j_Result next)) && negb (j_NeedsCompensationCheck next)
      | _, _ => false
      end
    else if ((j_Status previous ==? StatusInterrupted) || (j_Status previous ==? StatusFailed) ||
             (j_Status previous ==? StatusCanceled)) && j_NeedsCompensationCheck previous &&
            negb (j_NeedsCompensationCheck next)
    then acknowledged previous next ==? next
    else false
  else if j_Status previous ==? StatusQueued then
    (j_Status next ==? StatusRunning) || (j_Status next ==? StatusCanceled) ||
    ((j_Status next ==? StatusFailed) && negb (present (j_StartedAt next)) && present (j_Error next) &&
     negb (j_NeedsCompensationCheck next) && negb (present (j_Result next)) && (j_Progress next ==? j_Progress previous))
  else (j_Status previous ==? StatusRunning) && terminal (j_Status next).

Definition validatePersistedIdempotency (v : persistedIdempotency) (j : Job) : result job_err unit :=
  reject (pi_JobID v !=? j_ID j) || (pi_WorkspaceID v !=? j_WorkspaceID j) || (pi_Principal v !=? j_CreatedBy j)
    with EInternal ;;
  reject negb (hex64 (pi_KeyDigest v)) || negb (hex64 (pi_RequestDigest v)) || negb (hex64 (pi_Identity v)) with EInternal ;;
  do! check_all (fun f => validateIdentifier f 1024) [pi_Principal v; pi_Method v; pi_CanonicalPath v; pi_WorkspaceID v] ;;
  reject negb (is_upper_text (pi_Method v)) || negb (canonical_path (pi_CanonicalPath v)) with EInternal ;;
  reject pi_Identity v !=?
         idempotencyIdentity (pi_Principal v) (pi_Method v) (pi_CanonicalPath v) (pi_WorkspaceID v) (pi_KeyDigest v)
    with EInternal ;;
  Ok tt.

(** ** Retry keys (action_invocations.go, action_retry_history.go) *)

(** The bindings of key [digest] of action [name], job by job in the map's
    iteration order. *)
Definition job_bindings (name digest : string) (j : Job) : list (Job * Z) :=
  match job_policy j with
  | Some (a, p) =>
      if as_Name a ==? name
      then map (fun b => (j, rb_BoundAt b)) (filter (fun b => rb_Digest b = digest) (ap_RetryKeys p))
      else []
  | None => []
  end.
Definition key_bindings (s : storeState) (name digest : string) : list (Job * Z) :=
  concat (map (fun kv => job_bindings name digest (snd kv)) (map_to_list (st_jobs s))).

Definition latest_step (acc : option (Job * Z)) (b : Job * Z) : result job_err (option (Job * Z)) :=
  match acc with
  | None => Ok (Some b)
  | Some (_, boundAt) =>
      reject snd b ==? boundAt with EInternal ;;
      if boundAt <? snd b then Ok (Some b) else Ok acc
  end.
Definition latestActionRetry (s : storeState) (name digest : string) : result job_err (option (Job * Z)) :=
  result_fold latest_step None (key_bindings s name digest).

Definition validateActionKeyAssignment (s : storeState) (name : string) (b : ActionRetryBinding) (now : Z)
  : result job_err unit :=
  reject rb_BoundAt b !=? now with EInternal ;;
  let? latest := latestActionRetry s name (rb_Digest b) in
  match latest with
  | None => Ok tt
  | Some (previous, assigned) =>
      reject actionRetryKeyLive previous now || negb (assigned <? now) with EInternal ;; Ok tt
  end.

(** All owners of retry keys, each with its key's identity. *)
Definition retry_owners (s : storeState) : list ((string * string) * (Job * Z)) :=
  concat (map (fun kv => match job_policy (snd kv) with
    | Some (a, p) => map (fun b => ((as_Name a, rb_Digest b), (snd kv, rb_BoundAt b))) (ap_RetryKeys p)
    | None => []
    end) (map_to_list (st_jobs s))).

Definition bound_le (x y : Job * Z) : Prop := snd x <= snd y.
#[export] Instance bound_le_dec : RelDecision bound_le := fun x y => decide (snd x <= snd y).

Fixpoint handovers_ok (l : list (Job * Z)) : bool :=
  match l with
  | (previous, at0) :: (((_, at1) :: _) as rest) =>
      match j_FinishedAt previous with
      | Some f => terminal (j_Status previous) && (at0 <? at1) && negb (at1 <? f + ActionKeyRetention)
      | None => false
      end && handovers_ok rest
  | _ => true
  end.

Definition owners_of (l : list ((string * string) * (Job * Z))) (k : string * string) : list (Job * Z) :=
  merge_sort bound_le (map snd (filter (fun o => fst o = k) l)).

Definition validateActionRetryHistory (s : storeState) : result job_err unit :=
  let owners := retry_owners s in
  reject negb (forallb (fun k => handovers_ok (owners_of owners k)) (map fst owners)) with EInternal ;; Ok tt.

(** ** Action histories (action_journal.go) *)

(** Feed the retained frames of a job to a replay stream; the last sequence and
    outcome come out. *)
Fixpoint history_stream (first : bool) (sv : StreamValidator) (lastSeq : Z) (outcome : Outcome) (es : list Event)
  : result job_err (Z * Outcome) :=
  match es with
  | [] => Ok (lastSeq, outcome)
  | e :: rest =>
      match ev_Action e with
      | None => Err EInternal
      | Some frame =>
          reject (ae_Type frame ==? "truncated") && negb first with EInternal ;;
          let '(sv', r) := stream_accept sv frame in
          match r with
          | Err _ => Err EInternal
          | Ok _ => history_stream false sv' (ae_Seq frame) (actionOutcome frame) rest
          end
      end
  end.

Definition frame_type (e : Event) : string := match ev_Action e with Some f => ae_Type f | None => "" end.

Definition validate_job_history (s : storeState) (jobID : string) (j : Job) : result job_err unit :=
  let events := listat (st_events s) jobID in
  match j_Action j with
  | None => reject existsb (fun e => present (ev_Action e)) events with EInternal ;; Ok tt
  | Some a =>
      match NewReplayStream (j_ID j) (as_InvocationID a) 0 with
      | Err _ => Err EInternal
      | Ok stream =>
          let? '(lastSeq, outcome) := history_stream true stream 0 NoOutcome events in
          reject (lastSeq !=? as_LastSeq a) || (outcome !=? as_Outcome a) with EInternal ;;
          match last events, head events with
          | Some lst, Some first =>
              reject frame_type lst ==? "truncated" with EInternal ;;
              reject (ev_ID lst !=? Zat (st_latestEventByJob s) jobID) ||
                     (bool_decide (frame_type first = "truncated") !=? (0 <? Zat (st_prunedThrough s) jobID)) with EInternal ;;
              if outcome ==? NoOutcome then Ok tt
              else
                let base := j_with_Revision
                  (j_with_Error (j_with_Result
                     (j_with_Status j (match j_StartedAt j with None => StatusQueued | Some _ => StatusRunning end)) None) None) 1 in
                match ev_Action lst with
                | None => Err EInternal
                | Some frame =>
                    match actionJobAfterEvent base frame (ev_Timestamp lst) with
                    | Err _ => Err EInternal
                    | Ok expected =>
                        reject (j_Result expected !=? j_Result j) || (j_Error expected !=? j_Error j) ||
                               (j_FinishedAt j !=? Some (ev_Timestamp lst)) with EInternal ;;
                        Ok tt
                    end
                end
          | _, _ =>
              reject (Zat (st_latestEventByJob s) jobID !=? 0) || (Zat (st_prunedThrough s) jobID !=? 0) with EInternal ;;
              Ok tt
          end
      end
  end.

Definition validateActionHistory (s : storeState) : result job_err unit :=
  do! validateActionRetryHistory s ;;
  check_all (fun kv => validate_job_history s (fst kv) (snd kv)) (map_to_list (st_jobs s)).

(** ** Applying one record *)

Definition prune_reason_ok (reason : string) : bool :=
  (reason ==? "capacity") || (reason ==? "retention") || (reason ==? "capacity+retention").

(** The record carries none of the fields in the list. *)
Definition no_fields (l : list bool) : bool := negb (existsb (fun b => b) l).

Definition applyInitialized (s : storeState) (r : journalRecord) : result job_err storeState :=
  reject st_initialized s || (r_Sequence r !=? 1) ||
         negb (no_fields [present (r_Job r); present (r_Idempotency r); present (r_Event r); present (r_Prune r);
                          hasSnapshotFields r]) with EInternal ;;
  reject negb (hex64 (r_StoreID r)) with EInternal ;;
  Ok (mkState true (st_compacted s) (st_hasObsoleteHistory s) (st_obsoleteRevision s) (r_StoreID r) (st_generation s)
        (st_lastRecordSequence s) (st_lastEventID s) (st_jobs s) (st_idempotency s) (st_events s) (st_prunedThrough s)
        (st_latestEventByJob s) (st_snapshot s)).

Definition applyJobCreated (s : storeState) (r : journalRecord) : result job_err storeState :=
  reject negb (no_fields [present (r_Event r); present (r_Prune r); hasSnapshotFields r]) with EInternal ;;
  match r_Job r, r_Idempotency r with
  | Some j, Some i =>
      do! validatePersistedJob j ;;
      reject (j_Status j !=? StatusQueued) || (j_Revision j !=? 1) with EInternal ;;
      reject match j_Action j with Some a => as_LastSeq a !=? 0 | None => false end with EInternal ;;
      do! match job_policy j with
          | Some (a, p) =>
              reject 1 <? Z.of_nat (length (ap_RetryKeys p)) with EInternal ;;
              check_all (fun b => validateActionKeyAssignment s (as_Name a) b (r_RecordedAt r)) (ap_RetryKeys p)
          | None => Ok tt
          end ;;
      reject present (st_jobs s !! j_ID j) with EInternal ;;
      do! validatePersistedIdempotency i j ;;
      reject present (st_idempotency s !! pi_Identity i) with EInternal ;;
      Ok (st_with_idempotency (st_put_job s j) (<[pi_Identity i := i]> (st_idempotency s)))
  | _, _ => Err EInternal
  end.

Definition applyJobUpdated (s : storeState) (r : journalRecord) : result job_err storeState :=
  reject negb (no_fields [present (r_Idempotency r); present (r_Event r); present (r_Prune r); hasSnapshotFields r])
    with EInternal ;;
  match r_Job r with
  | None => Err EInternal
  | Some next =>
      do! validatePersistedJob next ;;
      match st_jobs s !! j_ID next with
      | None => Err EInternal
      | Some previous =>
          reject j_Revision next !=? u64_succ (j_Revision previous) with EInternal ;;
          reject negb (sameImmutableJobFields previous next) with EInternal ;;
          reject present (j_Action previous) && negb (validActionJobUpdate previous next) with EInternal ;;
          reject negb (validPersistedJobUpdate previous next) with EInternal ;;
          Ok (st_obsolete (st_put_job s next))
      end
  end.

Definition applyEvent (s : storeState) (r : journalRecord) : result job_err storeState :=
  reject negb (no_fields [present (r_Job r); present (r_Idempotency r); present (r_Prune r); hasSnapshotFields r])
    with EInternal ;;
  match r_Event r with
  | None => Err EInternal
  | Some e =>
      match st_jobs s !! ev_JobID e with
      | None => Err EInternal
      | Some j =>
          reject present (j_Action j) || present (ev_Action e) with EInternal ;;
          reject terminal (j_Status j) with EInternal ;;
          reject (ev_ID e ==? 0) || (ev_ID e !=? u64_succ (st_lastEventID s)) with EInternal ;;
          do! validatePersistedEvent e ;;
          Ok (st_put_latest
                (st_with_lastEventID
                   (st_put_events s (ev_JobID e) (listat (st_events s) (ev_JobID e) ++ [e])) (ev_ID e))
                (ev_JobID e) (ev_ID e))
      end
  end.

(** The events of a job after the prune watermark, found by binary search. *)
Definition retained_after (es : list Event) (through : Z) : list Event :=
  drop (Search (length es) (fun i => match es !! i with Some e => through <? ev_ID e | None => false end)) es.

Definition applyPrune (s : storeState) (r : journalRecord) : result job_err storeState :=
  reject negb (no_fields [present (r_Job r); present (r_Idempotency r); present (r_Event r); hasSnapshotFields r])
    with EInternal ;;
  match r_Prune r with
  | None => Err EInternal
  | Some p =>
      match st_jobs s !! ep_JobID p with
      | None => Err EInternal
      | Some j =>
          reject present (j_Action j) with EInternal ;;
          reject (ep_Through p <=? Zat (st_prunedThrough s) (ep_JobID p)) ||
                 (Zat (st_latestEventByJob s) (ep_JobID p) <? ep_Through p) with EInternal ;;
          reject negb (prune_reason_ok (ep_Reason p)) with EInternal ;;
          Ok (st_obsolete
                (st_put_pruned
                   (st_put_events s (ep_JobID p) (retained_after (listat (st_events s) (ep_JobID p)) (ep_Through p)))
                   (ep_JobID p) (ep_Through p)))
      end
  end.

(** [applyActionEvent]: one or two frames, the job they lead to and an optional
    truncation, in one record. *)
Fixpoint action_frames (at_ : Z) (jobID : string) (id : Z) (sv : StreamValidator) (es : list Event) : result job_err Z :=
  match es with
  | [] => Ok id
  | e :: rest =>
      reject (id ==? u64_max) || (ev_ID e !=? u64_succ id) || (ev_JobID e !=? jobID) || (ev_Timestamp e !=? at_)
        with EInternal ;;
      match ev_Action e with
      | None => Err EInternal
      | Some frame =>
          do! validatePersistedEvent e ;;
          let '(sv', res) := stream_accept sv frame in
          match res with
          | Err _ => Err EInternal
          | Ok _ => action_frames at_ jobID (ev_ID e) sv' rest
          end
      end
  end.

Definition truncation_ok (s : storeState) (previous : Job) (lastSeq : Z) (p : eventPrune) (es : list Event) : bool :=
  match es with
  | [e; _] =>
      match ev_Action e with
      | Some marker =>
          (ae_Type marker ==? "truncated") &&
          match ae_Truncated marker with
          | Some t => (tr_FromSeq t ==? 1) && (tr_ThroughSeq t ==? lastSeq)
          | None => false
          end &&
          (ep_JobID p ==? j_ID previous) && (ep_Through p ==? Zat (st_latestEventByJob s) (j_ID previous)) &&
          negb (ep_Through p <=? Zat (st_prunedThrough s) (j_ID previous)) && prune_reason_ok (ep_Reason p)
      | None => false
      end
  | _ => false
  end.

Definition applyActionEvent (s : storeState) (r : journalRecord) : result job_err storeState :=
  reject negb (no_fields [present (r_Event r); present (r_Idempotency r); hasSnapshotFields r]) with EInternal ;;
  let es := default [] (r_ActionEvents r) in
  reject (Z.of_nat (length es) <? 1) || (2 <? Z.of_nat (length es)) with EInternal ;;
  match r_Job r with
  | None => Err EInternal
  | Some next =>
      match st_jobs s !! j_ID next with
      | None => Err EInternal
      | Some previous =>
          match j_Action previous with
          | None => Err EInternal
          | Some a =>
              reject terminal (j_Status previous) with EInternal ;;
              do! validatePersistedJob next ;;
              match NewReplayStream (j_ID previous) (as_InvocationID a) (as_LastSeq a) with
              | Err _ => Err EInternal
              | Ok stream =>
                  let? id := action_frames (r_RecordedAt r) (j_ID previous) (st_lastEventID s) stream es in
                  reject match r_Prune r with
                         | None => match es with [e] => frame_type e ==? "truncated" | _ => true end
                         | Some p => negb (truncation_ok s previous (as_LastSeq a) p es)
                         end with EInternal ;;
                  match last es ≫= ev_Action with
                  | None => Err EInternal
                  | Some lst =>
                      match actionJobAfterEvent previous lst (r_RecordedAt r) with
                      | Err _ => Err EInternal
                      | Ok expected =>
                          reject expected !=? next with EInternal ;;
                          let s1 := match r_Prune r with
                                    | Some p => st_put_pruned (st_put_events s (j_ID previous) []) (j_ID previous) (ep_Through p)
                                    | None => s
                                    end in
                          let s2 := st_put_events s1 (j_ID previous) (listat (st_events s1) (j_ID previous) ++ es) in
                          Ok (st_obsolete (st_put_job (st_put_latest (st_with_lastEventID s2 id) (j_ID previous) id) next))
                      end
                  end
              end
          end
      end
  end.

Definition applyActionKeyBound (s : storeState) (r : journalRecord) : result job_err storeState :=
  reject negb (no_fields [present (r_Idempotency r); present (r_Event r); present (r_Prune r); hasSnapshotFields r;
                          present (r_ActionEvents r) && negb (length (default [] (r_ActionEvents r)) =? 0)%nat])
    with EInternal ;;
  match r_Job r with
  | None => Err EInternal
  | Some next =>
      match st_jobs s !! j_ID next with
      | None => Err EInternal
      | Some previous =>
          match job_policy previous, job_policy next with
          | Some (pa, pp), Some (_, np) =>
              reject terminal (j_Status previous) || (j_Revision previous ==? u64_max) ||
                     (ap_Concurrency pp !=? ActionCoalesce) with EInternal ;;
              do! validatePersistedJob next ;;
              reject (length (ap_RetryKeys np) !=? S (length (ap_RetryKeys pp)))%nat with EInternal ;;
              match last (ap_RetryKeys np) with
              | None => Err EInternal
              | Some b =>
                  do! validateActionKeyAssignment s (as_Name pa) b (r_RecordedAt r) ;;
                  let expected := j_with_Action (j_with_Revision previous (u64_succ (j_Revision previous)))
                        (Some (as_with_Policy pa (Some (ap_with_RetryKeys pp (ap_RetryKeys pp ++ [b]))))) in
                  reject expected !=? next with EInternal ;;
                  Ok (st_obsolete (st_put_job s next))
              end
          | _, _ => Err EInternal
          end
      end
  end.

(** ** Snapshot records *)

Definition applySnapshotBegin (s : storeState) (r : journalRecord) : result job_err storeState :=
  reject negb (no_fields [present (r_Job r); present (r_Idempotency r); present (r_Event r); present (r_Prune r);
                          present (r_Cursor r)]) with EInternal ;;
  match r_Snapshot r with
  | None => Err EInternal
  | Some b =>
      reject present (st_snapshot s) || st_compacted s || (r_Sequence r !=? 2) || negb (size (st_jobs s) =? 0)%nat ||
             negb (size (st_idempotency s) =? 0)%nat || negb (size (st_events s) =? 0)%nat with EInternal ;;
      reject (sb_Generation b ==? 0) || (sb_SourceSequence b ==? 0) || (sb_Digest b !=? "") with EInternal ;;
      let? digest := advanceSnapshotDigest digest_zero r in
      Ok (st_with_snapshot s (Some (mkProgressState b 0 0 0 0 digest ∅ ∅)))
  end.

Definition applyJobSnapshot (s : storeState) (r : journalRecord) : result job_err storeState :=
  reject negb (no_fields [present (r_Idempotency r); present (r_Event r); present (r_Prune r); hasSnapshotFields r])
    with EInternal ;;
  match st_snapshot s, r_Job r with
  | Some sp, Some j =>
      do! validatePersistedJob j ;;
      reject present (st_jobs s !! j_ID j) with EInternal ;;
      reject sb_JobCount (sp_boundary sp) <=? sp_jobCount sp with EInternal ;;
      let? digest := advanceSnapshotDigest (sp_digest sp) r in
      Ok (st_with_snapshot (st_put_job s j)
            (Some (mkProgressState (sp_boundary sp) (u64_succ (sp_jobCount sp)) (sp_idempotencyCount sp) (sp_eventCount sp)
                     (sp_lastRetainedEventID sp) digest (sp_cursors sp) (sp_idempotencyJobs sp))))
  | _, _ => Err EInternal
  end.

Definition applyIdempotencySnapshot (s : storeState) (r : journalRecord) : result job_err storeState :=
  reject negb (no_fields [present (r_Job r); present (r_Event r); present (r_Prune r); hasSnapshotFields r])
    with EInternal ;;
  match st_snapshot s, r_Idempotency r with
  | Some sp, Some i =>
      match st_jobs s !! pi_JobID i with
      | None => Err EInternal
      | Some j =>
          do! validatePersistedIdempotency i j ;;
          reject present (st_idempotency s !! pi_Identity i) with EInternal ;;
          reject bool_decide (pi_JobID i ∈ sp_idempotencyJobs sp) with EInternal ;;
          reject sb_IdempotencyCount (sp_boundary sp) <=? sp_idempotencyCount sp with EInternal ;;
          let? digest := advanceSnapshotDigest (sp_digest sp) r in
          Ok (st_with_snapshot (st_with_idempotency s (<[pi_Identity i := i]> (st_idempotency s)))
                (Some (mkProgressState (sp_boundary sp) (sp_jobCount sp) (u64_succ (sp_idempotencyCount sp)) (sp_eventCount sp)
                         (sp_lastRetainedEventID sp) digest (sp_cursors sp) ({[pi_JobID i]} ∪ sp_idempotencyJobs sp))))
      end
  | _, _ => Err EInternal
  end.

Definition applyEventCursor (s : storeState) (r : journalRecord) : result job_err storeState :=
  reject negb (no_fields [present (r_Job r); present (r_Idempotency r); present (r_Event r); present (r_Prune r);
                          present (r_Snapshot r)]) with EInternal ;;
  match st_snapshot s, r_Cursor r with
  | Some sp, Some c =>
      reject negb (present (st_jobs s !! ec_JobID c)) with EInternal ;;
      reject bool_decide (ec_JobID c ∈ sp_cursors sp) with EInternal ;;
      reject (ec_LatestEventID c <? ec_PrunedThrough c) || (sb_LastEventID (sp_boundary sp) <? ec_LatestEventID c)
        with EInternal ;;
      reject (ec_LatestEventID c ==? 0) && (ec_PrunedThrough c !=? 0) with EInternal ;;
      let? digest := advanceSnapshotDigest (sp_digest sp) r in
      Ok (st_with_snapshot
            (st_put_latest (st_put_pruned s (ec_JobID c) (ec_PrunedThrough c)) (ec_JobID c) (ec_LatestEventID c))
            (Some (mkProgressState (sp_boundary sp) (sp_jobCount sp) (sp_idempotencyCount sp) (sp_eventCount sp)
                     (sp_lastRetainedEventID sp) digest ({[ec_JobID c]} ∪ sp_cursors sp) (sp_idempotencyJobs sp))))
  | _, _ => Err EInternal
  end.

Definition applyEventSnapshot (s : storeState) (r : journalRecord) : result job_err storeState :=
  reject negb (no_fields [present (r_Job r); present (r_Idempotency r); present (r_Prune r); hasSnapshotFields r])
    with EInternal ;;
  match st_snapshot s, r_Event r with
  | Some sp, Some e =>
      reject negb (present (st_jobs s !! ev_JobID e)) with EInternal ;;
      reject negb (bool_decide (ev_JobID e ∈ sp_cursors sp)) with EInternal ;;
      do! validatePersistedEvent e ;;
      reject (ev_ID e <=? sp_lastRetainedEventID sp) || (sb_LastEventID (sp_boundary sp) <? ev_ID e) with EInternal ;;
      reject (ev_ID e <=? Zat (st_prunedThrough s) (ev_JobID e)) || (Zat (st_latestEventByJob s) (ev_JobID e) <? ev_ID e)
        with EInternal ;;
      reject sb_EventCount (sp_boundary sp) <=? sp_eventCount sp with EInternal ;;
      let? digest := advanceSnapshotDigest (sp_digest sp) r in
      Ok (st_with_snapshot (st_put_events s (ev_JobID e) (listat (st_events s) (ev_JobID e) ++ [e]))
            (Some (mkProgressState (sp_boundary sp) (sp_jobCount sp) (sp_idempotencyCount sp) (u64_succ (sp_eventCount sp))
                     (ev_ID e) digest (sp_cursors sp) (sp_idempotencyJobs sp))))
  | _, _ => Err EInternal
  end.

(** The retained events of a job end at its cursor. *)
Definition cursor_complete (s : storeState) (jobID : string) : bool :=
  let latest := Zat (st_latestEventByJob s) jobID in
  match last (listat (st_events s) jobID) with
  | None => negb ((latest !=? 0) && (Zat (st_prunedThrough s) jobID !=? latest))
  | Some e => ev_ID e ==? latest
  end.

Definition latest_global (s : storeState) : Z :=
  fold_right (fun kv acc => Z.max (Zat (st_latestEventByJob s) (fst kv)) acc) 0 (map_to_list (st_jobs s)).

Definition sealed_by (started completed : snapshotBoundary) (digest : string) : bool :=
  (sb_Generation completed ==? sb_Generation started) && (sb_SourceSequence completed ==? sb_SourceSequence started) &&
  (sb_LastEventID completed ==? sb_LastEventID started) && (sb_JobCount completed ==? sb_JobCount started) &&
  (sb_IdempotencyCount completed ==? sb_IdempotencyCount started) && (sb_EventCount completed ==? sb_EventCount started) &&
  hex64 (sb_Digest completed) && (sb_Digest completed ==? digest).

Definition applySnapshotEnd (s : storeState) (r : journalRecord) : result job_err storeState :=
  reject negb (no_fields [present (r_Job r); present (r_Idempotency r); present (r_Event r); present (r_Prune r);
                          present (r_Cursor r)]) with EInternal ;;
  match st_snapshot s, r_Snapshot r with
  | Some sp, Some completed =>
      let started := sp_boundary sp in
      reject negb (sealed_by started completed (hex_encode (sp_digest sp))) with EInternal ;;
      reject (sp_jobCount sp !=? sb_JobCount started) || (sp_idempotencyCount sp !=? sb_IdempotencyCount started) ||
             (sp_eventCount sp !=? sb_EventCount started) with EInternal ;;
      reject (Z.of_nat (size (sp_cursors sp)) !=? sb_JobCount started) ||
             (Z.of_nat (size (sp_idempotencyJobs sp)) !=? sb_JobCount started) ||
             (sb_IdempotencyCount started !=? sb_JobCount started) with EInternal ;;
      reject negb (forallb (fun kv => cursor_complete s (fst kv)) (map_to_list (st_jobs s))) with EInternal ;;
      reject latest_global s !=? sb_LastEventID started with EInternal ;;
      do! validateActionHistory s ;;
      Ok (mkState (st_initialized s) true false 0 (st_storeID s) (sb_Generation started) (st_lastRecordSequence s)
            (sb_LastEventID started) (st_jobs s) (st_idempotency s) (st_events s) (st_prunedThrough s)
            (st_latestEventByJob s) None)
  | _, _ => Err EInternal
  end.

(** ** [storeState.apply] *)

Definition apply_kind (s : storeState) (r : journalRecord) : result job_err storeState :=
  match r_Kind r with
  | recordStoreInitialized => applyInitialized s r
  | recordJobCreated => applyJobCreated s r
  | recordJobUpdated => applyJobUpdated s r
  | recordEventAdded => applyEvent s r
  | recordActionEvent => applyActionEvent s r
  | recordActionKeyBound => applyActionKeyBound s r
  | recordEventsPruned => applyPrune s r
  | recordSnapshotBegin => applySnapshotBegin s r
  | recordJobSnapshot => applyJobSnapshot s r
  | recordIdempotencyState => applyIdempotencySnapshot s r
  | recordEventCursor => applyEventCursor s r
  | recordEventSnapshot => applyEventSnapshot s r
  | recordSnapshotEnd => applySnapshotEnd s r
  | recordUnknown _ => Err EInternal
  end.

Definition state_apply (s : storeState) (r : journalRecord) : result job_err storeState :=
  reject (r_Kind r !=? recordActionEvent) && present (r_ActionEvents r) with EInternal ;;
  reject r_SchemaVersion r !=? JournalVersion with EInternal ;;
  let wantSequence := u64_succ (st_lastRecordSequence s) in
  reject (wantSequence ==? 0) || (r_Sequence r !=? wantSequence) with EInternal ;;
  reject r_RecordedAt r ==? 0 with EInternal ;;
  reject present (st_snapshot s) && negb (isSnapshotContinuation (r_Kind r)) with EInternal ;;
  reject (r_Kind r !=? recordStoreInitialized) && (negb (st_initialized s) || (r_StoreID r !=? "")) with EInternal ;;
  let? s' := apply_kind s r in
  Ok (st_with_lastRecordSequence s' (r_Sequence r)).

Definition validateRecovered (s : storeState) : result job_err unit :=
  reject present (st_snapshot s) with EInternal ;;
  reject (st_lastRecordSequence s !=? 0) && negb (st_initialized s) with EInternal ;;
  validateActionHistory s.

(** ** The journal file

    A file is its complete lines and a flag for an unterminated tail.  A line
    holds a record or text that does not decode; a record line is read back as
    [reread] says, and a number that does not fit its [uint64] field does not
    decode.  The tail is the only part recovery may cut off. *)
Inductive jl := JLine (r : journalRecord) | JCorrupt | JTooLong.
Record JFile := mkJFile { jf_lines : list jl; jf_tail : bool }.

Definition u64b (z : Z) : bool := (0 <=? z) && (z <=? u64_max).
Definition typed_job (j : Job) : bool := u64b (j_Revision j) && opt_all (fun a => u64b (as_LastSeq a)) (j_Action j).
Definition typed_event (e : Event) : bool := u64b (ev_ID e) && opt_all (fun f => u64b (ae_Seq f)) (ev_Action e).
Definition typed (r : journalRecord) : bool :=
  u64b (r_Sequence r) && opt_all typed_job (r_Job r) && opt_all typed_event (r_Event r) &&
  opt_all (fun p => u64b (ep_Through p)) (r_Prune r) &&
  opt_all (fun c => u64b (ec_PrunedThrough c) && u64b (ec_LatestEventID c)) (r_Cursor r) &&
  opt_all (fun b => u64b (sb_Generation b) && u64b (sb_SourceSequence b) && u64b (sb_LastEventID b) && u64b (sb_JobCount b) &&
                    u64b (sb_IdempotencyCount b) && u64b (sb_EventCount b)) (r_Snapshot r) &&
  opt_all (forallb typed_event) (r_ActionEvents r).

Definition apply_jl (s : storeState) (l : jl) : result job_err storeState :=
  match l with
  | JLine r => reject negb (typed r) with EInternal ;; state_apply s (reread r)
  | JCorrupt | JTooLong => Err EInternal
  end.

(** [applyJournalTail]: every complete line is applied; an unterminated tail is
    truncated.  When recovery fails the cut is not recorded, which a later
    recovery cannot tell. *)
Definition applyJournalTail (f : JFile) (from : nat) (s : storeState) : result job_err (JFile * storeState) :=
  let? s' := result_fold apply_jl s (drop from (jf_lines f)) in
  Ok (mkJFile (jf_lines f) false, s').

Definition recoverJournal (f : JFile) : result job_err (JFile * storeState) :=
  let? '(f', s) := applyJournalTail f 0 newStoreState in
  do! validateRecovered s ;;
  Ok (f', s).

End Journal.
