(* ===== verification/JobCompaction.v ===== *)
(** * Package [internal/consolejobs]: compaction (compaction.go)

    A compacted generation is a sealed snapshot of the state: the jobs, the
    idempotency identities, the event cursors and the retained events, between
    two boundary records, the last of which carries a chained digest. *)

From Stdlib Require Import Ascii.
From S2P Require Import Prelude GoText GoJson GoEncoding ActionAbi HostConfirmation JobTypes JobSanitize.
From S2P Require Import JobAction JobJournal.

(** ** Journal sizes *)

Definition line_bytes (r : journalRecord) : Z := slen (enc_record r) + 1.

Definition validateJournalAppendSize (transactionBytes recordBytes : Z) : result job_err unit :=
  reject (recordBytes <? 0) || (maximumJournalRecordBytes <? recordBytes) with EInvalid ;;
  reject (transactionBytes <? 0) || (maximumJournalTransactionBytes - recordBytes <? transactionBytes) with EInvalid ;;
  Ok tt.

(** ** When to compact *)

(** [advanceCompactionBoundary]: the next multiple of the threshold above
    [current]; Go's remainder has the sign of the dividend. *)
Definition advanceCompactionBoundary (threshold current : Z) : Z :=
  if threshold <=? 0 then int64_max
  else
    let delta := threshold - Z.rem current threshold in
    if (delta <=? 0) || (int64_max - delta <? current) then int64_max else current + delta.

Definition resetCompactionBoundary (threshold current : Z) (compacted : bool) : Z :=
  if threshold <=? 0 then int64_max
  else if negb compacted && (threshold <=? current) then current
  else advanceCompactionBoundary threshold current.

Definition minimumCompactionSavings (threshold : Z) : Z :=
  let minimum := Z.quot threshold 8 in if minimum <? 1 then 1 else minimum.

Definition shouldCompactBeforeAppend (initialized : bool) (nextCompactionBytes completeBytes recordBytes : Z) : bool :=
  if negb initialized || (recordBytes <? 0) || (nextCompactionBytes <=? 0) then false
  else if int64_max - completeBytes <? recordBytes then true
  else nextCompactionBytes <=? completeBytes + recordBytes.

(** [projectedBytes] saturates. *)
Definition projected_bytes (completeBytes recordBytes : Z) : Z :=
  if int64_max - completeBytes <? recordBytes then int64_max else completeBytes + recordBytes.

(** ** Merging the retained events

    [container/heap] pops the least item; the items have distinct job IDs, so
    the least one is unique. *)

Record heapItem := mkItem { hi_jobID : string; hi_events : list Event }.

Definition item_id (i : heapItem) : Z := match hi_events i with e :: _ => ev_ID e | [] => 0 end.
Definition item_less (a b : heapItem) : bool :=
  if item_id a =? item_id b then sltb (hi_jobID a) (hi_jobID b) else item_id a <? item_id b.

(** [heap.Pop]: the least item and the others. *)
Fixpoint pop_least (i : heapItem) (l : list heapItem) : heapItem * list heapItem :=
  match l with
  | [] => (i, [])
  | x :: l' =>
      if item_less x i
      then let '(m, rest) := pop_least x l' in (m, i :: rest)
      else let '(m, rest) := pop_least i l' in (m, x :: rest)
  end.

(** Pop, emit, push back the rest of the item's events.  Every round emits one
    event. *)
Fixpoint merge_loop (fuel : nat) (heap : list heapItem) : list Event :=
  match fuel with
  | O => []
  | S f =>
      match heap with
      | [] => []
      | i :: l =>
          let '(m, rest) := pop_least i l in
          match hi_events m with
          | [] => merge_loop f rest
          | e :: es => e :: merge_loop f (match es with [] => rest | _ => mkItem (hi_jobID m) es :: rest end)
          end
      end
  end.

Definition newRetainedEventHeap (s : storeState) (jobIDs : list string) : list heapItem :=
  omap (fun id => match listat (st_events s) id with [] => None | es => Some (mkItem id es) end) jobIDs.

Definition heap_size (h : list heapItem) : nat := sum_list (map (fun i => length (hi_events i)) h).

Definition retainedEvents (s : storeState) (jobIDs : list string) : list Event :=
  let h := newRetainedEventHeap s jobIDs in merge_loop (heap_size h) h.

(** ** Streaming a snapshot *)

Section Compaction.
Context {U : UnicodeTables}.

Definition sortedJobIDs (s : storeState) : list string := SortStrings (map fst (map_to_list (st_jobs s))).
Definition sortedIdentities (s : storeState) : list string := SortStrings (map fst (map_to_list (st_idempotency s))).

Definition event_count (s : storeState) : Z :=
  fold_right (fun kv acc => Z.of_nat (length (snd kv)) + acc) 0 (map_to_list (st_events s)).

Definition snapshot_boundary (s : storeState) : snapshotBoundary :=
  mkBoundary (u64_succ (st_generation s)) (st_lastRecordSequence s) (st_lastEventID s)
    (Z.of_nat (size (st_jobs s))) (Z.of_nat (size (st_idempotency s))) (event_count s) "".

(** The records between the boundaries, in the order they are written. *)
Definition snapshot_body (s : storeState) (at_ : Z) : list journalRecord :=
  omap (fun id => rec_job recordJobSnapshot at_ <$> st_jobs s !! id) (sortedJobIDs s) ++
  omap (fun k => rec_idempotency at_ <$> st_idempotency s !! k) (sortedIdentities s) ++
  map (fun id => rec_cursor at_ (mkCursor id (Zat (st_prunedThrough s) id) (Zat (st_latestEventByJob s) id)))
    (sortedJobIDs s) ++
  map (rec_event recordEventSnapshot at_) (retainedEvents s (sortedJobIDs s)).

(** [writeRecord]: number the record, apply it to the verification state, check
    its size, write it. *)
Record stream_state := mkSS { ss_state : storeState; ss_bytes : Z; ss_written : list journalRecord }.

Definition writeRecord (at_ : Z) (w : stream_state) (r : journalRecord) : result job_err stream_state :=
  let r' := r_numbered r (u64_succ (st_lastRecordSequence (ss_state w))) at_ in
  let? v := state_apply (ss_state w) r' in
  reject negb (encodable r') with EInternal ;;
  do! validateJournalAppendSize 0 (line_bytes r') ;;
  reject int64_max - ss_bytes w <? line_bytes r' with EInternal ;;
  Ok (mkSS v (ss_bytes w + line_bytes r') (ss_written w ++ [r'])).

Definition streamCompactedRecords (source : storeState) (at_ : Z) : result job_err (stream_state * snapshotBoundary) :=
  reject u64_max <? event_count source with EInternal ;;
  let boundary := snapshot_boundary source in
  let? w := result_fold (writeRecord at_) (mkSS newStoreState 0 [])
              (rec_initialized at_ (st_storeID source) :: rec_boundary recordSnapshotBegin at_ boundary ::
               snapshot_body source at_) in
  match st_snapshot (ss_state w) with
  | None => Err EInternal
  | Some sp =>
      let completed := mkBoundary (sb_Generation boundary) (sb_SourceSequence boundary) (sb_LastEventID boundary)
        (sb_JobCount boundary) (sb_IdempotencyCount boundary) (sb_EventCount boundary) (hex_encode (sp_digest sp)) in
      let? w' := writeRecord at_ w (rec_boundary recordSnapshotEnd at_ completed) in
      Ok (w', boundary)
  end.

Definition measureCompactedJournal (source : storeState) (at_ : Z) : result job_err Z :=
  let? '(w, _) := streamCompactedRecords source at_ in Ok (ss_bytes w).

Definition semanticStateEqual (l r : storeState) : bool :=
  (st_initialized l ==? st_initialized r) && (st_storeID l ==? st_storeID r) && (st_lastEventID l ==? st_lastEventID r) &&
  bool_decide (st_jobs l = st_jobs r) && bool_decide (st_idempotency l = st_idempotency r) &&
  forallb (fun kv => let id := fst kv in
    (Zat (st_prunedThrough l) id ==? Zat (st_prunedThrough r) id) &&
    (Zat (st_latestEventByJob l) id ==? Zat (st_latestEventByJob r) id) &&
    bool_decide (listat (st_events l) id = listat (st_events r) id)) (map_to_list (st_jobs l)).

(** [writeCompactedJournal]: the file that was written is recovered and
    compared with its source before anything is replaced. *)
Definition writeCompactedJournal (source : storeState) (at_ : Z) : result job_err (JFile * storeState) :=
  let? '(w, boundary) := streamCompactedRecords source at_ in
  let? '(f, recovered) := recoverJournal (mkJFile (map JLine (ss_written w)) false) in
  reject negb (semanticStateEqual source (ss_state w)) || negb (semanticStateEqual source recovered) ||
         (st_generation recovered !=? sb_Generation boundary) with EInternal ;;
  Ok (f, recovered).

(** ** Adopting a generation another store wrote *)

Fixpoint warningsHavePrefix (previous next : list string) : bool :=
  match previous, next with
  | [], _ => true
  | p :: ps, n :: ns => (p ==? n) && warningsHavePrefix ps ns
  | _ :: _, [] => false
  end.

(** A recorded time stays as it is. *)
Definition time_kept (previous next : option Z) : bool :=
  match previous with Some p => next ==? Some p | None => true end.

Definition validPersistedJobAdvance (previous next : Job) : bool :=
  match j_Action previous with
  | Some p =>
      match j_Action next with
      | Some n => (as_LastSeq p <=? as_LastSeq n) && (negb (terminal (j_Status previous)) || (p ==? n))
      | None => false
      end
  | None => true
  end &&
  (j_Revision previous <? j_Revision next) && warningsHavePrefix (j_Warnings previous) (j_Warnings next) &&
  time_kept (j_StartedAt previous) (j_StartedAt next) && time_kept (j_FinishedAt previous) (j_FinishedAt next) &&
  match j_Status previous with
  | StatusQueued =>
      if (j_Status next ==? StatusRunning) || (j_Status next ==? StatusCanceled) then validPersistedJobUpdate previous next
      else terminal (j_Status next) && present (j_StartedAt next) && (2 <=? j_Revision next - j_Revision previous)
  | StatusRunning => validPersistedJobUpdate previous next
  | _ =>
      (j_Status next ==? j_Status previous) && j_NeedsCompensationCheck previous && negb (j_NeedsCompensationCheck next) &&
      (j_Revision next ==? u64_succ (j_Revision previous)) && (acknowledged previous next ==? next)
  end.

(** A retained event of the previous state is still there unless the next one
    pruned it. *)
Definition event_kept (next : list Event) (pruned : Z) (e : Event) : bool :=
  (ev_ID e <=? pruned) ||
  match next !! Search (length next) (fun i => match next !! i with Some x => ev_ID e <=? ev_ID x | None => false end) with
  | Some x => x ==? e
  | None => false
  end.

Definition job_advances (previous next : storeState) (jobID : string) (old : Job) : bool :=
  match st_jobs next !! jobID with
  | None => false
  | Some new =>
      negb (j_Revision new <? j_Revision old) &&
      (if j_Revision new =? j_Revision old then new ==? old
       else sameImmutableJobFields old new && validPersistedJobAdvance old new) &&
      negb (Zat (st_prunedThrough next) jobID <? Zat (st_prunedThrough previous) jobID) &&
      negb (Zat (st_latestEventByJob next) jobID <? Zat (st_latestEventByJob previous) jobID) &&
      forallb (event_kept (listat (st_events next) jobID) (Zat (st_prunedThrough next) jobID))
        (listat (st_events previous) jobID)
  end.

Definition stateAdvances (previous next : storeState) : result job_err unit :=
  reject st_storeID previous !=? st_storeID next with EInternal ;;
  reject st_generation next <=? st_generation previous with EInternal ;;
  reject st_lastEventID next <? st_lastEventID previous with EInternal ;;
  reject negb (forallb (fun kv => bool_decide (st_idempotency next !! fst kv = Some (snd kv)))
                 (map_to_list (st_idempotency previous))) with EInternal ;;
  reject negb (forallb (fun kv => job_advances previous next (fst kv) (snd kv)) (map_to_list (st_jobs previous)))
    with EInternal ;;
  Ok tt.

End Compaction.
