(* ===== verification/JobReceipts.v ===== *)
(** * Package [internal/consolejobs]: append receipts (journal_receipts.go) and
    the execution lease (execution_lease.go) *)

From S2P Require Import Prelude GoText JobTypes ActionAbi HostConfirmation.

(** ** Journal snapshots and receipts *)

(** [journalSnapshot] holds what [Stat] reports; two snapshots are equal when
    their keys are, and the key has the same fields. *)
Record journalSnapshot := mkSnap {
  sn_completeBytes : Z;
  sn_modTime : Z;
  sn_change : option (Z * Z) (* change time, where the platform has it *)
}.
#[export] Instance journalSnapshot_eq_dec : EqDecision journalSnapshot. Proof. solve_decision. Defined.
#[export] Instance journalSnapshot_countable : Countable journalSnapshot.
Proof.
  refine (inj_countable' (fun s => (sn_completeBytes s, sn_modTime s, sn_change s))
            (fun t => mkSnap (fst (fst t)) (snd (fst t)) (snd t)) _).
  by intros [].
Defined.

Definition journalAppendReceiptsLimit : nat := 1024.

Record journalAppendReceipt := mkReceipt { ra_after : journalSnapshot; ra_serial : Z }.
Record journalAppendReceiptIndex := mkIndex { ri_before : journalSnapshot; ri_serial : Z }.

Definition zero_snap : journalSnapshot := mkSnap 0 0 None.
Definition zero_index : journalAppendReceiptIndex := mkIndex zero_snap 0.

(** [order] is a ring of [journalAppendReceiptsLimit] slots. *)
Record journalReceiptLog := mkLog {
  lg_receipts : gmap journalSnapshot journalAppendReceipt;
  lg_order : list journalAppendReceiptIndex;
  lg_next : nat;
  lg_count : nat;
  lg_nextSerial : Z
}.

Definition newJournalReceiptLog : journalReceiptLog :=
  mkLog ∅ (repeat zero_index journalAppendReceiptsLimit) 0 0 0.

Definition log_record (log : journalReceiptLog) (before after : journalSnapshot) : journalReceiptLog :=
  if sn_completeBytes after <=? sn_completeBytes before then log
  else
    let serial := u64_succ (lg_nextSerial log) in
    let log1 := if serial ==? 0 then mkLog ∅ (repeat zero_index journalAppendReceiptsLimit) 0 0 1
                else mkLog (lg_receipts log) (lg_order log) (lg_next log) (lg_count log) serial in
    let '(receipts, count) :=
      if (lg_count log1 =? journalAppendReceiptsLimit)%nat then
        match lg_order log1 !! lg_next log1 with
        | Some evicted =>
            match lg_receipts log1 !! ri_before evicted with
            | Some current =>
                (if ra_serial current ==? ri_serial evicted then delete (ri_before evicted) (lg_receipts log1)
                 else lg_receipts log1, lg_count log1)
            | None => (lg_receipts log1, lg_count log1)
            end
        | None => (lg_receipts log1, lg_count log1)
        end
      else (lg_receipts log1, S (lg_count log1)) in
    mkLog (<[before := mkReceipt after (lg_nextSerial log1)]> receipts)
      (<[lg_next log1 := mkIndex before (lg_nextSerial log1)]> (lg_order log1))
      (S (lg_next log1) mod journalAppendReceiptsLimit)%nat count (lg_nextSerial log1).

(** The loop of [confirmsAppendChain]. *)
Fixpoint follow (steps : nat) (receipts : gmap journalSnapshot journalAppendReceipt) (current after : journalSnapshot) : bool :=
  match steps with
  | O => false
  | S n =>
      match receipts !! current with
      | None => false
      | Some receipt =>
          if (sn_completeBytes (ra_after receipt) <=? sn_completeBytes current) ||
             (sn_completeBytes after <? sn_completeBytes (ra_after receipt)) then false
          else if ra_after receipt ==? after then true
          else follow n receipts (ra_after receipt) after
      end
  end.

Definition confirmsAppendChain (log : journalReceiptLog) (before after : journalSnapshot) : bool :=
  if sn_completeBytes after <=? sn_completeBytes before then false
  else follow journalAppendReceiptsLimit (lg_receipts log) before after.

(** ** The execution lease

    [el_live] are the guards handed out by [Retain] that have not been
    released; each is released at most once. *)
Record ExecutionLease := mkLease {
  el_directory : string;
  el_closed : bool;
  el_retained : Z;
  el_issued : nat;
  el_live : list nat
}.

(** [verified]: the directory and the lease file still name their paths. *)
Definition withOwnership {S A} (lease : option ExecutionLease) (directory : string) (verified : bool) (s : S)
    (action : S -> S * result job_err A) : S * result job_err A :=
  match lease with
  | None => (s, Err EUnavailable)
  | Some l =>
      if el_closed l || (el_directory l !=? directory) then (s, Err EUnavailable)
      else if negb verified then (s, Err EUnavailable)
      else action s
  end.

Definition Retain (verified : bool) (l : ExecutionLease) : ExecutionLease * result job_err nat :=
  if el_closed l then (l, Err EUnavailable)
  else if negb verified then (l, Err EUnavailable)
  else (mkLease (el_directory l) false (el_retained l + 1) (S (el_issued l)) (el_issued l :: el_live l), Ok (el_issued l)).

(** The function [Retain] returns; [sync.Once] makes a second call a no-op. *)
Definition Release (guard : nat) (l : ExecutionLease) : ExecutionLease :=
  if bool_decide (guard ∈ el_live l)
  then mkLease (el_directory l) (el_closed l) (el_retained l - 1) (el_issued l) (list_difference (el_live l) [guard])
  else l.

Definition LeaseClose (verified unlocked : bool) (l : ExecutionLease) : ExecutionLease * result job_err unit :=
  if el_closed l then (l, Ok tt)
  else if el_retained l !=? 0 then (l, Err EExecutionRetained)
  else (mkLease (el_directory l) true (el_retained l) (el_issued l) (el_live l),
        if verified && unlocked then Ok tt else Err EInternal).
