(* ===== verification/JobStore.v ===== *)
(** * Package [internal/consolejobs]: the store's engine (store.go, the store
    methods of compaction.go, refreshJournal of journal.go)

    Every operation runs under the in-process gate and the cross-process file
    lock: the journal on disk is refreshed into the cached state, expired
    events are pruned, the operation decides on the refreshed state, and its
    records are prepared against a copy of the state and committed with one
    append (or with one compaction that already contains them).

    What the operating system answers is an argument: [jenv] for one call of
    [withState], [cenv] for one call of [persistRecords]. *)

From Stdlib Require Import Ascii.
From S2P Require Import Prelude GoText GoJson GoEncoding ActionAbi HostConfirmation JobTypes JobSanitize.
From S2P Require Import JobAction JobJournal JobCompaction JobReceipts.

(** ** The store *)

(** The journal file on disk and what [Stat] reports of it. *)
Record DFile := mkDFile { df_file : JFile; df_stat : journalSnapshot }.

Record Store := mkStore {
  js_directory : string;
  js_options : Options;
  js_file : DFile;
  js_state : storeState;
  js_journal : journalSnapshot;
  js_receipts : journalReceiptLog;
  js_nextCompactionBytes : Z;
  js_checkedObsoleteRevision : Z;
  js_nextPruneAt : Z;
  js_unavailable : bool;
  js_closed : bool
}.

Definition js_with_file (s : Store) (v : DFile) : Store :=
  mkStore (js_directory s) (js_options s) v (js_state s) (js_journal s) (js_receipts s)
    (js_nextCompactionBytes s) (js_checkedObsoleteRevision s) (js_nextPruneAt s) (js_unavailable s)
    (js_closed s).
Definition js_with_state (s : Store) (v : storeState) : Store :=
  mkStore (js_directory s) (js_options s) (js_file s) v (js_journal s) (js_receipts s)
    (js_nextCompactionBytes s) (js_checkedObsoleteRevision s) (js_nextPruneAt s) (js_unavailable s)
    (js_closed s).
Definition js_with_journal (s : Store) (v : journalSnapshot) : Store :=
  mkStore (js_directory s) (js_options s) (js_file s) (js_state s) v (js_receipts s)
    (js_nextCompactionBytes s) (js_checkedObsoleteRevision s) (js_nextPruneAt s) (js_unavailable s)
    (js_closed s).
Definition js_with_receipts (s : Store) (v : journalReceiptLog) : Store :=
  mkStore (js_directory s) (js_options s) (js_file s) (js_state s) (js_journal s) v (js_nextCompactionBytes
    s) (js_checkedObsoleteRevision s) (js_nextPruneAt s) (js_unavailable s) (js_closed s).
Definition js_with_nextCompactionBytes (s : Store) (v : Z) : Store :=
  mkStore (js_directory s) (js_options s) (js_file s) (js_state s) (js_journal s) (js_receipts s) v
    (js_checkedObsoleteRevision s) (js_nextPruneAt s) (js_unavailable s) (js_closed s).
Definition js_with_checkedObsoleteRevision (s : Store) (v : Z) : Store :=
  mkStore (js_directory s) (js_options s) (js_file s) (js_state s) (js_journal s) (js_receipts s)
    (js_nextCompactionBytes s) v (js_nextPruneAt s) (js_unavailable s) (js_closed s).
Definition js_with_nextPruneAt (s : Store) (v : Z) : Store :=
  mkStore (js_directory s) (js_options s) (js_file s) (js_state s) (js_journal s) (js_receipts s)
    (js_nextCompactionBytes s) (js_checkedObsoleteRevision s) v (js_unavailable s) (js_closed s).
Definition js_with_unavailable (s : Store) (v : bool) : Store :=
  mkStore (js_directory s) (js_options s) (js_file s) (js_state s) (js_journal s) (js_receipts s)
    (js_nextCompactionBytes s) (js_checkedObsoleteRevision s) (js_nextPruneAt s) v (js_closed s).
Definition js_with_closed (s : Store) (v : bool) : Store :=
  mkStore (js_directory s) (js_options s) (js_file s) (js_state s) (js_journal s) (js_receipts s)
    (js_nextCompactionBytes s) (js_checkedObsoleteRevision s) (js_nextPruneAt s) (js_unavailable s) v.

(** A method of the store: it may change the store and may fail. *)
Definition M (A : Type) : Type := Store -> Store * result job_err A.
Definition ret {A} (a : A) : M A := fun s => (s, Ok a).
Definition fail {A} (e : job_err) : M A := fun s => (s, Err e).
Definition bind {A B} (m : M A) (k : A -> M B) : M B :=
  fun s => match m s with (s', Ok a) => k a s' | (s', Err e) => (s', Err e) end.
Definition lift {A} (r : result job_err A) : M A := fun s => (s, r).
Definition get : M Store := fun s => (s, Ok s).
Definition modify (f : Store -> Store) : M unit := fun s => (f s, Ok tt).
(** [markUnavailable]: the store fails closed. *)
Definition markUnavailable {A} : M A := fun s => (js_with_unavailable s true, Err EUnavailable).

Notation "'let!' x ':=' m 'in' k" := (bind m (fun x => k))
  (at level 10, x name, m at level 99, k at level 200) : go_scope.
Notation "'let!' ' p ':=' m 'in' k" := (bind m (fun x => match x with p => k end))
  (at level 10, p pattern, m at level 99, k at level 200) : go_scope.
Notation "'run!' m ';;' k" := (bind m (fun _ => k)) (at level 10, m at level 99, k at level 200) : go_scope.
Notation "'refuse' b 'with' e ';;' k" := (if (b : bool) then fail e else k)
  (at level 10, b at level 99, e at level 99, k at level 200) : go_scope.

(** ** Answers of the environment *)

(** How one append ends: refused before anything was written, that many
    complete lines and perhaps a torn one, everything written but not
    confirmed, or durable with the reported times. *)
Inductive commit_io :=
| CommitRefused
| CommitPartial (complete : nat) (torn : bool) (stat : journalSnapshot)
| CommitUnconfirmed (stat : journalSnapshot)
| CommitOk (modTime : Z) (change : option (Z * Z)).

(** How one compaction ends: an error before the rename, or the rename took
    place, the directory was or was not synced, the new file could or could
    not be verified, and removing the old generation did or did not succeed. *)
Inductive compact_io :=
| CompactFails
| CompactRenamed (synced verified cleaned : bool) (modTime : Z) (change : option (Z * Z)).

Record cenv := mkCenv {
  ce_ctx : bool;         (* the context is live *)
  ce_fill : Z;           (* the clock, for a record without a time *)
  ce_compact_at : Z;     (* the clock when compaction is considered *)
  ce_commit : commit_io;
  ce_compact : compact_io
}.

Inductive lock_io := LockOk | LockCanceled | LockFails.

(** What the canonical path names: the opened file, a file another store put in
    its place, or neither could be established. *)
Inductive canonical_io :=
| CanonicalSame
| CanonicalReplaced (f : DFile) (log : journalReceiptLog) (closed : bool)
| CanonicalError.

Record jenv := mkEnv {
  en_gate : bool;            (* the in-process gate is acquired *)
  en_ctx : bool;             (* the context is live *)
  en_lock : lock_io;
  en_stable : bool;          (* directory and lock file name their paths *)
  en_canonical : canonical_io;
  en_stat : bool;            (* the journal can be inspected *)
  en_times : Z * option (Z * Z); (* the file times after a truncated tail *)
  en_paths : bool;           (* the paths still hold after the refresh *)
  en_ctx_refresh : bool;
  en_now : Z;                (* the clock, for pruning *)
  en_prune : cenv;           (* the commit of the prune records *)
  en_ctx_begin : bool;
  en_paths_end : bool;
  en_unlock : bool
}.

Section Store.
Context {U : UnicodeTables}.

(** ** Pruning *)

Fixpoint expired_prefix (cutoff : Z) (es : list Event) : nat :=
  match es with
  | e :: rest => if ev_Timestamp e <? cutoff then S (expired_prefix cutoff rest) else 0
  | [] => 0
  end.

(** The prune record of one job, if any of its events must go. *)
Definition prune_job (o : Options) (st : storeState) (now : Z) (jobID : string) : option journalRecord :=
  if match st_jobs st !! jobID with Some j => present (j_Action j) | None => false end then None
  else
    let events := listat (st_events st) jobID in
    let retentionCount := expired_prefix (now - op_EventRetention o) events in
    let capacityCount := (length events - Z.to_nat (op_EventCapacity o))%nat in
    let removeCount := Nat.max retentionCount capacityCount in
    match removeCount with
    | O => None
    | S k =>
        let reason := if (0 <? capacityCount)%nat && (0 <? retentionCount)%nat then "capacity+retention"
                      else if (0 <? capacityCount)%nat then "capacity" else "retention" in
        match events !! k with
        | None => None
        | Some e =>
            if ev_ID e <=? Zat (st_prunedThrough st) jobID then None
            else Some (rec_prune now (mkPrune jobID (ev_ID e) reason))
        end
    end.

Definition pruneRecords (o : Options) (st : storeState) (now : Z) : list journalRecord :=
  omap (prune_job o st now) (SortStrings (map fst (map_to_list (st_events st)))).

(** The earliest time at which an event of an ordinary job expires; 0 when
    there is none. *)
Definition next_prune_at (o : Options) (st : storeState) : Z :=
  fold_left (fun acc kv =>
    if match st_jobs st !! fst kv with Some j => present (j_Action j) | None => false end then acc
    else match snd kv with
         | [] => acc
         | e :: _ =>
             let candidate := ev_Timestamp e + op_EventRetention o in
             if (acc =? 0) || (candidate <? acc) then candidate else acc
         end) (map_to_list (st_events st)) 0.

Definition updateNextPruneAt : M unit :=
  modify (fun s => js_with_nextPruneAt s (next_prune_at (js_options s) (js_state s))).

Definition resetBoundary : M unit :=
  modify (fun s => js_with_checkedObsoleteRevision
    (js_with_nextCompactionBytes s
       (resetCompactionBoundary (op_JournalCompactionThreshold (js_options s)) (sn_completeBytes (js_journal s))
          (st_compacted (js_state s)))) 0).

(** ** Committing *)

(** [prepareJournalRecords]: number and apply the records one after the other
    to a copy of the state; the total size comes with them. *)
Fixpoint prepare (fill : Z) (st : storeState) (bytes : Z) (rs : list journalRecord)
  : result job_err (storeState * list journalRecord * Z) :=
  match rs with
  | [] => Ok (st, [], bytes)
  | r :: rest =>
      let seq := u64_succ (st_lastRecordSequence st) in
      reject seq ==? 0 with EInternal ;;
      let r' := r_numbered r seq (if r_RecordedAt r ==? 0 then fill else r_RecordedAt r) in
      let? st' := state_apply st r' in
      reject negb (encodable r') with EInternal ;;
      do! validateJournalAppendSize bytes (line_bytes r') ;;
      let? '(st2, rs', total) := prepare fill st' (bytes + line_bytes r') rest in
      Ok (st2, r' :: rs', total)
  end.
Definition prepareJournalRecords (fill : Z) (st : storeState) (rs : list journalRecord) :=
  prepare fill st 0 rs.

Definition file_append (f : JFile) (rs : list journalRecord) (torn : bool) : JFile :=
  mkJFile (jf_lines f ++ map JLine rs) torn.

(** [commitJournalAppendLocked]. *)
Definition commitJournalAppendLocked (io : commit_io) (prospective : storeState) (rs : list journalRecord) (bytes : Z) : M unit :=
  fun s =>
    let f := df_file (js_file s) in
    if js_journal s !=? df_stat (js_file s) then (s, Err EInternal)
    else match io with
    | CommitRefused => (s, Err EInternal)
    | CommitPartial n torn stat => (js_with_file s (mkDFile (file_append f (take n rs) torn) stat), Err EInternal)
    | CommitUnconfirmed stat => (js_with_file s (mkDFile (file_append f rs false) stat), Err EInternal)
    | CommitOk modTime change =>
        let stat := mkSnap (sn_completeBytes (js_journal s) + bytes) modTime change in
        let s1 := js_with_file s (mkDFile (file_append f rs false) stat) in
        let s2 := js_with_journal (js_with_state s1 prospective) stat in
        updateNextPruneAt (js_with_receipts s2 (log_record (js_receipts s2) (js_journal s) stat))
    end.

(** [compactJournalStateLocked]: whether the source state is durable under the
    canonical path, and the error of the call. *)
Definition compactJournalStateLocked (io : compact_io) (source : storeState) (at_ : Z)
  : Store -> Store * (bool * option job_err) :=
  fun s =>
    if negb (st_initialized source) || (st_generation source ==? u64_max) then (s, (false, Some EInternal))
    else match writeCompactedJournal source at_ with
    | Err e => (s, (false, Some e))
    | Ok (f, compactedState) =>
        match io with
        | CompactFails => (s, (false, Some EInternal))
        | CompactRenamed synced verified cleaned modTime change =>
            let bytes := fold_right (fun l acc => match l with JLine r => line_bytes r + acc | _ => acc end) 0 (jf_lines f) in
            let stat := mkSnap bytes modTime change in
            let s1 := js_with_file s (mkDFile f stat) in
            if negb verified then (js_with_unavailable s1 true, (synced, Some EUnavailable))
            else
              let s2 := js_with_receipts (js_with_journal (js_with_state s1 compactedState) stat) newJournalReceiptLog in
              let s3 := fst (updateNextPruneAt s2) in
              let s4 := fst (resetBoundary s3) in
              if negb synced then (js_with_unavailable s4 true, (false, Some EUnavailable))
              else (s4, (true, if cleaned then None else Some EInternal))
        end
    end.

Definition persistRecords (ce : cenv) (rs : list journalRecord) : M unit :=
  match rs with
  | [] => ret tt
  | _ =>
      refuse negb (ce_ctx ce) with EUnavailable ;;
      let! s := get in
      match prepareJournalRecords (ce_fill ce) (js_state s) rs with
      | Err EInvalid => fail EInvalid
      | Err _ => markUnavailable
      | Ok (prospective, body, bytes) =>
          let commit : M unit := fun s =>
            match commitJournalAppendLocked (ce_commit ce) prospective body bytes s with
            | (s', Ok _) => (s', Ok tt)
            | (s', Err _) => markUnavailable s'
            end in
          let completeBytes := sn_completeBytes (js_journal s) in
          if shouldCompactBeforeAppend (st_initialized (js_state s)) (js_nextCompactionBytes s) completeBytes bytes then
            let projected := projected_bytes completeBytes bytes in
            let threshold := op_JournalCompactionThreshold (js_options s) in
            let advance_and_commit : M unit :=
              run! modify (fun s => js_with_nextCompactionBytes s (advanceCompactionBoundary threshold projected)) ;;
              commit in
            if st_hasObsoleteHistory prospective && (st_obsoleteRevision prospective !=? js_checkedObsoleteRevision s) then
              match measureCompactedJournal prospective (ce_compact_at ce) with
              | Err _ => fail EUnavailable
              | Ok compactedBytes =>
                  if (compactedBytes <? projected) && (minimumCompactionSavings threshold <=? projected - compactedBytes) then
                    fun s =>
                      let '(s', (committed, err)) :=
                        compactJournalStateLocked (ce_compact ce) prospective (ce_compact_at ce) s in
                      if committed then (s', Ok tt)
                      else match err with Some _ => (s', Err EUnavailable) | None => (s', Ok tt) end
                  else
                    run! modify (fun s => js_with_checkedObsoleteRevision s (st_obsoleteRevision prospective)) ;;
                    advance_and_commit
              end
            else advance_and_commit
          else commit
      end
  end.

(** ** Refreshing *)

(** The file and its snapshot after recovery cut a torn tail off. *)
Definition settle (times : Z * option (Z * Z)) (f : DFile) (f' : JFile) : DFile :=
  if jf_tail (df_file f)
  then mkDFile f' (mkSnap (fold_right (fun l acc => match l with JLine r => line_bytes r + acc | _ => acc end) 0 (jf_lines f'))
                     (fst times) (snd times))
  else mkDFile f' (df_stat f).

(** [refreshJournal]: the new state, the file, its snapshot, and whether the
    state was rebuilt. *)
Definition refreshJournal (times : Z * option (Z * Z)) (f : DFile) (st : storeState) (snapshot : journalSnapshot)
    (receipts : journalReceiptLog) : result job_err (DFile * storeState * bool) :=
  let current := df_stat f in
  let full :=
    let? '(f', fresh) := recoverJournal (df_file f) in Ok (settle times f f', fresh, true) in
  reject sn_completeBytes current <? sn_completeBytes snapshot with EInternal ;;
  if sn_completeBytes current =? sn_completeBytes snapshot then
    (if snapshot ==? current then Ok (f, st, false) else full)
  else if negb (confirmsAppendChain receipts snapshot current) then full
  else
    let? '(f', fresh) := applyJournalTail (df_file f) (Z.to_nat (st_lastRecordSequence st)) st in
    do! validateRecovered fresh ;;
    (* a tail that was cut off changes the size *)
    reject jf_tail (df_file f) with EInternal ;;
    Ok (mkDFile f' current, fresh, true).

(** [ensureCanonicalJournalLocked]. *)
Definition ensureCanonicalJournalLocked (en : jenv) : M unit :=
  match en_canonical en with
  | CanonicalError => fail EInternal
  | CanonicalSame => ret tt
  | CanonicalReplaced f log closed =>
      let! '(f', fresh) := lift (recoverJournal (df_file f)) in
      refuse negb (st_compacted fresh) with EInternal ;;
      let! s := get in
      run! lift (stateAdvances (js_state s) fresh) ;;
      let d := settle (en_times en) f f' in
      run! modify (fun s => js_with_receipts (js_with_journal (js_with_state (js_with_file s d) fresh) (df_stat d)) log) ;;
      run! updateNextPruneAt ;;
      run! resetBoundary ;;
      refuse negb closed with EInternal ;;
      ret tt
  end.

(** A failure of the environment or of the journal that makes the store fail
    closed. *)
Definition or_unavailable {A} (m : M A) : M A :=
  fun s => match m s with (s', Ok a) => (s', Ok a) | (s', Err _) => markUnavailable s' end.

Definition refresh (en : jenv) : M bool :=
  or_unavailable (
    refuse negb (en_stable en) with EInternal ;;
    run! ensureCanonicalJournalLocked en ;;
    refuse negb (en_stat en) with EInternal ;;
    let! s := get in
    let! '(f, fresh, changed) :=
      lift (refreshJournal (en_times en) (js_file s) (js_state s) (js_journal s) (js_receipts s)) in
    refuse negb (en_paths en) with EInternal ;;
    run! modify (fun s => js_with_journal (js_with_state (js_with_file s f) fresh) (df_stat f)) ;;
    ret changed).

Definition auto_prune (en : jenv) (changed : bool) : M unit :=
  let! s := get in
  if changed || (negb (js_nextPruneAt s =? 0) && (js_nextPruneAt s <? en_now en)) then
    persistRecords (en_prune en) (pruneRecords (js_options s) (js_state s) (en_now en))
  else ret tt.

(** ** [withState]

    What happens before the operation runs: it may be turned away before the
    file lock is held, or under it. *)
Inductive entry := Entered | TurnedAway (e : job_err) | LockedOut (e : job_err).

Definition under_lock (en : jenv) : M unit :=
  let! changed := refresh en in
  run! (if (changed : bool) then updateNextPruneAt else ret tt) ;;
  refuse negb (en_ctx_refresh en) with EUnavailable ;;
  run! auto_prune en changed ;;
  refuse negb (en_ctx_begin en) with EUnavailable ;;
  ret tt.

Definition enterState (en : jenv) (s : Store) : Store * entry :=
  if negb (en_gate en) then (s, TurnedAway EUnavailable)
  else if js_closed s then (s, TurnedAway EUnavailable)
  else if js_unavailable s then (s, TurnedAway EUnavailable)
  else if negb (en_ctx en) then (s, TurnedAway EUnavailable)
  else match en_lock en with
  | LockCanceled => (s, TurnedAway EUnavailable)
  | LockFails => (js_with_unavailable s true, TurnedAway EUnavailable)
  | LockOk =>
      match under_lock en s with
      | (s', Ok _) => (s', Entered)
      | (s', Err e) => (s', LockedOut e)
      end
  end.

(** A failed check fails the store closed; an earlier error is kept. *)
Definition check_or_fail {A} (ok : bool) (s : Store) (r : result job_err A) : Store * result job_err A :=
  if ok then (s, r) else (js_with_unavailable s true, match r with Ok _ => Err EUnavailable | Err e => Err e end).

Definition withJobState {A} (en : jenv) (action : M A) : M A := fun s =>
  match enterState en s with
  | (s', TurnedAway e) => (s', Err e)
  | (s', LockedOut e) => check_or_fail (en_unlock en) s' (Err e)
  | (s', Entered) =>
      let '(s2, r) := action s' in
      let '(s3, r') := check_or_fail (en_paths_end en) s2 r in
      check_or_fail (en_unlock en) s3 r'
  end.

(** The same for an operation that also changes the confirmation ledger. *)
Definition withJobStateAnd {H A} (en : jenv) (action : Store -> H -> (Store * H) * result job_err A) (s : Store) (h : H)
  : (Store * H) * result job_err A :=
  match enterState en s with
  | (s', TurnedAway e) => ((s', h), Err e)
  | (s', LockedOut e) => let '(s2, r) := check_or_fail (en_unlock en) s' (Err e) in ((s2, h), r)
  | (s', Entered) =>
      let '((s2, h'), r) := action s' h in
      let '(s3, r') := check_or_fail (en_paths_end en) s2 r in
      let '(s4, r2) := check_or_fail (en_unlock en) s3 r' in
      ((s4, h'), r2)
  end.

End Store.
