(* ===== verification/JobOps.v ===== *)
(** * Package [internal/consolejobs]: the operations of the store (store.go,
    action_admission.go)

    Creation with idempotency and confirmation, start and claim, progress,
    transitions, cancellation and rejection of queued jobs, compensation,
    events and their replay, recovery of interrupted jobs. *)

From Stdlib Require Import Ascii.
From S2P Require Import Prelude GoText GoJson GoEncoding ActionAbi HostConfirmation JobTypes JobSanitize.
From S2P Require Import JobAction JobJournal JobCompaction JobReceipts JobStore.

(** What the environment answers during one operation. *)
Record oenv := mkOenv {
  oe_state : jenv;
  oe_commit : cenv;
  oe_now : Z;            (* the clock when the records are built *)
  oe_checks : Z * Z;     (* the clock at the two expiry checks *)
  oe_random : list (list Z) (* the random bytes of successive job IDs *)
}.

(** [JobCommitObserver]: nil, or a function that may refuse the commit. *)
Definition observer := option (JobCommitIntent -> option job_err).
Definition observeJobCommit (obs : observer) (intent : JobCommitIntent) : result job_err unit :=
  match obs with
  | None => Ok tt
  | Some f => match f intent with None => Ok tt | Some e => Err e end
  end.

Definition intent_of (op : JobCommitOperation) (previous : option Job) (next : Job) : JobCommitIntent :=
  mkIntent "" op previous next "" "".

Definition all_jobs (st : storeState) : list Job := map snd (map_to_list (st_jobs st)).
Definition count_status (st : storeState) (x : Status) : Z :=
  Z.of_nat (length (filter (fun j => j_Status j = x) (all_jobs st))).

(** ** Admission (canStart, action_admission.go, actionQueueBarrier) *)

Definition blocks_execution (j : Job) : bool :=
  present (j_Action j) && (j_Status j ==? StatusInterrupted) &&
  match j_Error j with
  | Some e => (er_Code e ==? ActionContainmentCode) || (er_Code e ==? "daemon_restarted")
  | None => false
  end.

Definition actionExecutionBarrier (st : storeState) : result job_err unit :=
  match map j_ID (filter (fun j => blocks_execution j = true) (all_jobs st)) with
  | [] => Ok tt
  | blocked => Err (EActionExecutionBlocked (SortStrings blocked))
  end.

(** The first of the jobs in creation order. *)
Definition earliest (l : list Job) : option Job :=
  fold_left (fun acc j => match acc with
    | None => Some j
    | Some f => if actionJobBefore j f then Some j else acc
    end) l None.

Definition actionQueueBarrier (st : storeState) (candidate : Job) : result job_err unit :=
  match job_policy candidate with
  | Some (ca, cp) =>
      if ap_Concurrency cp !=? ActionQueue then Ok tt
      else
        let rivals := filter (fun j =>
          (j_ID j !=? j_ID candidate) && negb (terminal (j_Status j)) && (j_WorkspaceID j ==? j_WorkspaceID candidate) &&
          match job_policy j with
          | Some (a, p) => (as_Name a ==? as_Name ca) && (ap_RequestDigest p ==? ap_RequestDigest cp)
          | None => false
          end && ((j_Status j ==? StatusRunning) || actionJobBefore j candidate) = true) (all_jobs st) in
        match earliest rivals with
        | Some j => Err (EActionInFlight (j_ID j) ActionQueue)
        | None => Ok tt
        end
  | None => Ok tt
  end.

Definition canStart (o : Options) (st : storeState) (candidate : Job) : result job_err unit :=
  do! actionExecutionBarrier st ;;
  do! actionQueueBarrier st candidate ;;
  let running := count_status st StatusRunning in
  reject op_MaxRunningJobs o <=? running with ECapacity "running jobs" (op_MaxRunningJobs o) running ;;
  if negb (j_Mutating candidate) then Ok tt
  else
    let here := filter (fun j => j_WorkspaceID j = j_WorkspaceID candidate) (all_jobs st) in
    match filter (fun j => (j_Mutating j && (j_Status j ==? StatusRunning)) = true) here with
    | j :: _ => Err (EWorkspaceBusy (j_WorkspaceID candidate) (j_ID j))
    | [] =>
        match map j_ID (filter (fun j => j_NeedsCompensationCheck j = true) here) with
        | [] => Ok tt
        | ids => Err (ECompensationRequired (j_WorkspaceID candidate) (SortStrings ids))
        end
    end.

Section Ops.
Context {U : UnicodeTables}.

(** ** Creation *)

Definition prepareCreate (spec : CreateSpec) : result job_err (CreateSpec * persistedIdempotency) :=
  reject bool_decide (cs_Kind spec = ActionJobKind) !=? present (cs_action spec) with EInvalid ;;
  do! validateIdentifier (cs_Kind spec) 128 ;;
  do! validateIdempotency (cs_WorkspaceID spec) (cs_Idempotency spec) ;;
  let? request := sanitizePayload (cs_Request spec) in
  let spec := cs_with_Request spec request in
  do! validateActionCreate spec ;;
  let i := cs_Idempotency spec in
  let keyDigest := DigestRequest (ii_Key i) in
  Ok (spec, mkPI (idempotencyIdentity (ii_Principal i) (ii_Method i) (ii_CanonicalPath i) (cs_WorkspaceID spec) keyDigest)
              (ii_Principal i) (ii_Method i) (ii_CanonicalPath i) (cs_WorkspaceID spec) keyDigest (ii_RequestDigest i) "").

Definition pi_with_JobID (i : persistedIdempotency) (id : string) : persistedIdempotency :=
  mkPI (pi_Identity i) (pi_Principal i) (pi_Method i) (pi_CanonicalPath i) (pi_WorkspaceID i) (pi_KeyDigest i)
    (pi_RequestDigest i) id.

(** [newJobID]: up to four random candidates. *)
Fixpoint newJobID (attempts : nat) (random : list (list Z)) (st : storeState) : result job_err string :=
  match attempts with
  | O => Err EInternal
  | S n =>
      match random with
      | [] => Err EUnavailable
      | bytes :: rest =>
          let candidate := "job_" +:+ hex_encode bytes in
          if present (st_jobs st !! candidate) then newJobID n rest st else Ok candidate
      end
  end.

(** The retry keys of a new job are bound at its creation time. *)
Definition bind_keys_at (now : Z) (a : ActionState) : ActionState :=
  match as_Policy a with
  | Some p => as_with_Policy a (Some (ap_with_RetryKeys p (map (fun b => mkRetry (rb_Digest b) now) (ap_RetryKeys p))))
  | None => a
  end.

Definition new_job (jobID : string) (spec : CreateSpec) (now : Z) : Job :=
  mkJob jobID (cs_Kind spec) (cs_WorkspaceID spec) (cs_Mutating spec) StatusQueued (ii_Principal (cs_Idempotency spec)) now
    None None (cs_Request spec) 0 [] None None false 1 (bind_keys_at now <$> cs_action spec).

(** [createOrGetPreparedWithJobHook].  [h] is the state the job hook works on
    (the confirmation ledger, or nothing). *)
Definition createOrGetPreparedWithJobHook {H} (oe : oenv) (prepared : CreateSpec) (idempotency : persistedIdempotency)
    (beforeCreate : storeState -> CreateSpec -> result job_err CreateSpec)
    (beforeCommit : Job -> H -> H * result job_err unit)
    (obs : observer) (decorateIntent : CreateSpec -> JobCommitIntent -> JobCommitIntent) (s : Store) (h : H)
  : (Store * H) * result job_err CreateResult :=
  let st := js_state s in
  match st_idempotency st !! pi_Identity idempotency with
  | Some existing =>
      match st_jobs st !! pi_JobID existing with
      | None => ((js_with_unavailable s true, h), Err EUnavailable)
      | Some job =>
          ((s, h),
           reject pi_RequestDigest existing !=? pi_RequestDigest idempotency with EIdempotencyConflict (pi_JobID existing) ;;
           reject negb (sameActionCreate job prepared) with EIdempotencyConflict (pi_JobID existing) ;;
           Ok (mkCreateResult job true))
      end
  | None =>
      match beforeCreate st prepared with
      | Err e => ((s, h), Err e)
      | Ok spec =>
          let queued := count_status st StatusQueued in
          let limit := op_MaxQueuedJobs (js_options s) in
          if limit <=? queued then ((s, h), Err (ECapacity "queued jobs" limit queued))
          else match newJobID 4 (oe_random oe) st with
          | Err EUnavailable => ((s, h), Err EUnavailable)
          | Err _ => ((js_with_unavailable s true, h), Err EUnavailable)
          | Ok jobID =>
              let now := oe_now oe in
              let job := new_job jobID spec now in
              match beforeCommit job h with
              | (h', Err e) => ((s, h'), Err e)
              | (h', Ok _) =>
                  match observeJobCommit obs (decorateIntent spec (intent_of JobCommitCreate None job)) with
                  | Err e => ((s, h'), Err e)
                  | Ok _ =>
                      match persistRecords (oe_commit oe) [rec_created now job (pi_with_JobID idempotency jobID)] s with
                      | (s', Err e) => ((s', h'), Err e)
                      | (s', Ok _) => ((s', h'), Ok (mkCreateResult job false))
                      end
                  end
              end
          end
      end
  end.

Definition no_hook (_ : Job) (_ : unit) : unit * result job_err unit := (tt, Ok tt).
Definition plain_intent (_ : CreateSpec) (i : JobCommitIntent) : JobCommitIntent := i.

Definition createOrGetPrepared (oe : oenv) (prepared : CreateSpec) (idempotency : persistedIdempotency)
    (beforeCreate : storeState -> CreateSpec -> result job_err CreateSpec) (obs : observer)
    (decorateIntent : CreateSpec -> JobCommitIntent -> JobCommitIntent) : M CreateResult := fun s =>
  let '((s', _), r) := createOrGetPreparedWithJobHook oe prepared idempotency beforeCreate no_hook obs decorateIntent s tt in
  (s', r).

Definition CreateOrGetObserved (oe : oenv) (spec : CreateSpec) (obs : observer) : M CreateResult :=
  let! '(prepared, idempotency) := lift (prepareCreate spec) in
  withJobState (oe_state oe) (createOrGetPrepared oe prepared idempotency (fun _ spec => Ok spec) obs plain_intent).

Definition LookupIdempotency (oe : oenv) (workspaceID : string) (input : IdempotencyInput) : M (option Job) :=
  let! '(_, idempotency) := lift (prepareCreate (mkSpec "idempotency.lookup" workspaceID false None input None)) in
  withJobState (oe_state oe) (fun s =>
    match st_idempotency (js_state s) !! pi_Identity idempotency with
    | None => (s, Ok None)
    | Some existing =>
        if pi_RequestDigest existing !=? pi_RequestDigest idempotency then (s, Err (EIdempotencyConflict (pi_JobID existing)))
        else match st_jobs (js_state s) !! pi_JobID existing with
             | None => (js_with_unavailable s true, Err EUnavailable)
             | Some job => (s, Ok (Some job))
             end
    end).

(** ** Confirmed creation *)

(** [strings.TrimSpace(s) == ""]. *)
Definition blank (s : string) : bool := forallb IsSpace (runes s).

Definition validConfirmationProof (value : string) : bool :=
  (slen value =? 68) && match CutPrefix value "cnf_" with Some raw => hex64 raw | None => false end.
Definition validStepUpProof (value : string) : bool :=
  match CutPrefix value "sup_" with Some raw => b64_decoded_length raw ==? Some 32 | None => false end.

Definition validateConfirmationInput (input : ConfirmationInput) (workspaceID : string) : result job_err unit :=
  reject existsb (fun v => blank v || (512 <? slen v))
    [ci_PlanJobID input; ci_PlanKind input; ci_Token input; ci_Actor input; ci_IdentitySource input; ci_Action input;
     ci_WorkspaceID input; ci_ConfigValidator input; ci_PlanDigest input] with EConfirmationInvalid ;;
  reject ci_WorkspaceID input !=? workspaceID with EConfirmationInvalid ;;
  reject negb (validConfirmationProof (ci_Token input)) with EConfirmationInvalid ;;
  reject negb (hex64 (ci_PlanDigest input)) with EConfirmationInvalid ;;
  reject match CutPrefix (ci_ConfigValidator input) "cfgv-" with Some d => negb (hex64 d) | None => true end
    with EConfirmationInvalid ;;
  reject 256 <? slen (ci_TransactionID input) with EConfirmationInvalid ;;
  match ci_StepUp input with
  | None => Ok tt
  | Some su =>
      reject negb (validStepUpProof (su_Token su)) || negb (hex64 (su_SessionDigest su)) || negb (hex64 (su_StateDigest su)) ||
             (256 <? slen (su_TargetID su)) with EStepUpInvalid ;;
      Ok tt
  end.

(** [nestedStringMap]: the object under [key], when all its members are
    strings. *)
Fixpoint string_members (m : list (string * json)) : option (list (string * string)) :=
  match m with
  | [] => Some []
  | (k, JString v) :: m' => match string_members m' with Some l => Some ((k, v) :: l) | None => None end
  | _ => None
  end.
Definition nestedStringMap (parent : payload) (key : string) : option (list (string * string)) :=
  match pget key parent with Some (JObject m) => string_members m | _ => None end.
(** [binding[key]], "" when absent. *)
Fixpoint field (m : list (string * string)) (key : string) : string :=
  match m with [] => "" | (k, v) :: m' => if k ==? key then v else field m' key end.
Definition fields_match (m want : list (string * string)) : bool :=
  forallb (fun kv => field m (fst kv) ==? snd kv) want.

(** A job whose request already carries the digest under the key. *)
Definition digest_used (st : storeState) (key digest : string) : bool :=
  existsb (fun j => pget_string key (j_Request j) ==? digest) (all_jobs st).

(** The time is in the future at [now]. *)
Definition not_expired (text : string) (now : Z) : bool :=
  match parse_rfc3339 text with Some t => now <? t | None => false end.

Definition validateConfirmationLocked (checks : Z * Z) (st : storeState) (input : ConfirmationInput) : result job_err string :=
  match st_jobs st !! ci_PlanJobID input with
  | None => Err EConfirmationInvalid
  | Some plan =>
      reject (j_Kind plan !=? ci_PlanKind input) || (j_Status plan !=? StatusSucceeded) ||
             (j_WorkspaceID plan !=? ci_WorkspaceID input) with EConfirmationInvalid ;;
      let tokenDigest := DigestRequest (ci_Token input) in
      match nestedStringMap (j_Result plan) "confirmation" with
      | None => Err EConfirmationInvalid
      | Some binding =>
          reject negb (fields_match binding
            [("proof_digest", tokenDigest); ("actor", ci_Actor input); ("identity_source", ci_IdentitySource input);
             ("transaction_id", ci_TransactionID input); ("action", ci_Action input); ("workspace_id", ci_WorkspaceID input);
             ("config_validator", ci_ConfigValidator input); ("plan_digest", ci_PlanDigest input)]) with EConfirmationInvalid ;;
          do! match ci_StepUp input with
              | None => reject field binding "step_up_digest" !=? "" with EStepUpInvalid ;; Ok tt
              | Some su =>
                  let stepUpDigest := DigestRequest (su_Token su) in
                  reject negb (fields_match binding
                    [("step_up_digest", stepUpDigest); ("step_up_principal_digest", su_SessionDigest su);
                     ("step_up_action", ci_Action input); ("step_up_workspace_id", ci_WorkspaceID input);
                     ("step_up_target_id", su_TargetID su); ("step_up_state_digest", su_StateDigest su)]) with EStepUpInvalid ;;
                  reject negb (not_expired (field binding "step_up_expires_at") (fst checks)) with EStepUpInvalid ;;
                  reject digest_used st StepUpDigestRequestKey stepUpDigest with EStepUpConsumed ;;
                  Ok tt
              end ;;
          reject negb (not_expired (field binding "expires_at") (snd checks)) with EConfirmationInvalid ;;
          reject digest_used st ConfirmationDigestRequestKey tokenDigest with EConfirmationConsumed ;;
          Ok tokenDigest
      end
  end.

Definition reserved_keys : list string :=
  [ConfirmationDigestRequestKey; ConfirmationPlanJobRequestKey; ConfirmationIdentitySourceRequestKey;
   ConfirmationTransactionRequestKey; ConfirmationActionRequestKey; StepUpDigestRequestKey].

(** The proof's digest and its binding, added to the job's request. *)
Definition confirmed_request (request : payload) (digest : string) (c : ConfirmationInput) : payload :=
  let m := default [] request in
  let m := obj_set ConfirmationDigestRequestKey (JString digest) m in
  let m := obj_set ConfirmationPlanJobRequestKey (JString (ci_PlanJobID c)) m in
  let m := obj_set ConfirmationIdentitySourceRequestKey (JString (ci_IdentitySource c)) m in
  let m := obj_set ConfirmationTransactionRequestKey (JString (ci_TransactionID c)) m in
  let m := obj_set ConfirmationActionRequestKey (JString (ci_Action c)) m in
  Some (match ci_StepUp c with
        | Some su => obj_set StepUpDigestRequestKey (JString (DigestRequest (su_Token su))) m
        | None => m
        end).

Definition CreateOrGetConfirmedObserved (oe : oenv) (spec : CreateSpec) (c : ConfirmationInput) (obs : observer) : M CreateResult :=
  refuse existsb (fun k => present (pget k (cs_Request spec))) reserved_keys with EInvalid ;;
  let! '(prepared, idempotency) := lift (prepareCreate spec) in
  run! lift (validateConfirmationInput c (cs_WorkspaceID prepared)) ;;
  refuse negb (cs_Mutating prepared) || (ci_Actor c !=? ii_Principal (cs_Idempotency prepared)) ||
         (ci_Action c !=? cs_Kind prepared) with EConfirmationInvalid ;;
  withJobState (oe_state oe)
    (createOrGetPrepared oe prepared idempotency
       (fun st spec =>
          let? digest := validateConfirmationLocked (oe_checks oe) st c in
          Ok (cs_with_Request spec (confirmed_request (cs_Request spec) digest c)))
       obs
       (fun spec i => mkIntent (in_Actor i) (in_Operation i) (in_Previous i) (in_Next i) (ci_PlanJobID c)
                        (pget_string ConfirmationDigestRequestKey (cs_Request spec)))).

(** ** Reading *)

Definition Get (oe : oenv) (jobID : string) : M Job :=
  run! lift (validateIdentifier jobID 256) ;;
  withJobState (oe_state oe) (fun s =>
    match st_jobs (js_state s) !! jobID with Some j => (s, Ok j) | None => (s, Err ENotFound) end).

Definition created_le (a b : Job) : Prop := actionJobBefore b a = false.
#[export] Instance created_le_dec : RelDecision created_le := fun a b => decide (actionJobBefore b a = false).

Definition ListJobs (oe : oenv) : M (list Job) :=
  withJobState (oe_state oe) (fun s => (s, Ok (merge_sort created_le (all_jobs (js_state s))))).

Definition id_le (a b : Job) : Prop := sle (j_ID a) (j_ID b).
#[export] Instance id_le_dec : RelDecision id_le := fun a b => decide (sleb (j_ID a) (j_ID b) = true).

Definition PendingCompensations (oe : oenv) : M (list Job) :=
  withJobState (oe_state oe) (fun s =>
    (s, Ok (merge_sort id_le (filter (fun j => j_NeedsCompensationCheck j = true) (all_jobs (js_state s)))))).

(** ** Starting *)

Definition started_job (j : Job) (now : Z) : Job :=
  j_with_Revision (j_with_StartedAt (j_with_Status j StatusRunning) (Some now)) (u64_succ (j_Revision j)).

(** Observe, then commit one updated job. *)
Definition commit_update (oe : oenv) (obs : observer) (op : JobCommitOperation) (previous next : Job) : M Job :=
  run! lift (observeJobCommit obs (intent_of op (Some previous) next)) ;;
  run! persistRecords (oe_commit oe) [rec_job recordJobUpdated (oe_now oe) next] ;;
  ret next.

(** The job with that ID in the refreshed state. *)
Definition lookup_job (jobID : string) : M Job := fun s =>
  match st_jobs (js_state s) !! jobID with Some j => (s, Ok j) | None => (s, Err ENotFound) end.

Definition startObserved (oe : oenv) (jobID : string) (obs : observer) (action : bool) : M Job :=
  run! lift (validateIdentifier jobID 256) ;;
  withJobState (oe_state oe) (
    let! job := lookup_job jobID in
    refuse present (j_Action job) !=? action with EConflict ;;
    refuse j_Status job !=? StatusQueued with EConflict ;;
    let! s := get in
    run! lift (canStart (js_options s) (js_state s) job) ;;
    commit_update oe obs JobCommitStart job (started_job job (oe_now oe))).
Definition StartObserved (oe : oenv) (jobID : string) (obs : observer) : M Job := startObserved oe jobID obs false.

(** The oldest queued ordinary mutating job of the workspace. *)
Definition claim_candidate (st : storeState) (workspaceID : string) : option Job :=
  earliest (filter (fun j =>
    (negb (present (j_Action j)) && (j_WorkspaceID j ==? workspaceID) && j_Mutating j && (j_Status j ==? StatusQueued)) = true)
    (all_jobs st)).

Definition ClaimNextObserved (oe : oenv) (workspaceID : string) (obs : observer) : M (option Job) :=
  run! lift (validateIdentifier workspaceID 256) ;;
  withJobState (oe_state oe) (
    let! s := get in
    match claim_candidate (js_state s) workspaceID with
    | None => ret None
    | Some candidate =>
        run! lift (canStart (js_options s) (js_state s) candidate) ;;
        let! next := commit_update oe obs JobCommitStart candidate (started_job candidate (oe_now oe)) in
        ret (Some next)
    end).

(** ** Progress and completion *)

Definition progress_ok (p : option Z) : bool := opt_all (fun v => (0 <=? v) && (v <=? 100)) p.
Definition set_progress (j : Job) (p : option Z) : Job := match p with Some v => j_with_Progress j v | None => j end.

Definition UpdateRunning (oe : oenv) (jobID : string) (update : ProgressUpdate) : M Job :=
  run! lift (validateIdentifier jobID 256) ;;
  let! warnings := lift (sanitizeWarnings (pu_Warnings update)) in
  refuse negb (present (pu_Progress update)) && (length warnings =? 0)%nat with EInvalid ;;
  refuse negb (progress_ok (pu_Progress update)) with EInvalid ;;
  withJobState (oe_state oe) (
    let! job := lookup_job jobID in
    refuse present (j_Action job) with EConflict ;;
    refuse j_Status job !=? StatusRunning with EConflict ;;
    let j1 := set_progress job (pu_Progress update) in
    let updated := j_with_Revision (j_with_Warnings j1 (j_Warnings j1 ++ warnings)) (u64_succ (j_Revision job)) in
    run! persistRecords (oe_commit oe) [rec_job recordJobUpdated (oe_now oe) updated] ;;
    ret updated).

(** The job with the fields of a transition filled in. *)
Definition finished_job (job : Job) (status : Status) (progress : option Z) (warnings : list string) (payload : payload)
    (e : option JobError) (needs : bool) (now : Z) : Job :=
  let j1 := set_progress (j_with_Status job status) progress in
  j_with_Revision
    (j_with_FinishedAt
       (j_with_NeedsCompensationCheck (j_with_Error (j_with_Result (j_with_Warnings j1 (j_Warnings j1 ++ warnings)) payload) e)
          needs) (Some now)) (u64_succ (j_Revision job)).

Definition TransitionObserved (oe : oenv) (jobID : string) (target : Status) (input : TransitionInput) (obs : observer) : M Job :=
  run! lift (validateIdentifier jobID 256) ;;
  refuse negb (terminal target) with EInvalid ;;
  refuse negb (progress_ok (ti_Progress input)) with EInvalid ;;
  let! warnings := lift (sanitizeWarnings (ti_Warnings input)) in
  let! resultPayload := lift (sanitizePayload (ti_Result input)) in
  let! jobError := lift (sanitizeJobError (ti_Error input)) in
  refuse (target ==? StatusFailed) && negb (present jobError) with EInvalid ;;
  refuse (target ==? StatusSucceeded) && present jobError with EInvalid ;;
  refuse ti_NeedsCompensationCheck input && (target !=? StatusFailed) && (target !=? StatusCanceled) &&
         (target !=? StatusInterrupted) with EInvalid ;;
  withJobState (oe_state oe) (
    let! job := lookup_job jobID in
    refuse present (j_Action job) with EConflict ;;
    refuse j_Status job !=? StatusRunning with EConflict ;;
    commit_update oe obs JobCommitTransition job
      (finished_job job target (ti_Progress input) warnings resultPayload jobError
         (ti_NeedsCompensationCheck input || (target ==? StatusInterrupted)) (oe_now oe))).

(** ** Events *)

(** The state with one more event, as a preview for pruning. *)
Definition preview_event (st : storeState) (e : Event) : storeState :=
  st_put_latest
    (st_with_lastEventID (st_put_events st (ev_JobID e) (listat (st_events st) (ev_JobID e) ++ [e])) (ev_ID e))
    (ev_JobID e) (ev_ID e).

Definition event_records (o : Options) (st : storeState) (e : Event) (now : Z) : list journalRecord :=
  rec_event recordEventAdded now e :: pruneRecords o (preview_event st e) now.

Definition AppendEvent (oe : oenv) (jobID : string) (input : EventInput) : M Event :=
  run! lift (validateIdentifier jobID 256) ;;
  run! lift (validateIdentifier (ei_Kind input) 128) ;;
  let! data := lift (sanitizePayload (ei_Data input)) in
  withJobState (oe_state oe) (
    let! job := lookup_job jobID in
    refuse present (j_Action job) with EConflict ;;
    refuse terminal (j_Status job) with EConflict ;;
    let! s := get in
    if st_lastEventID (js_state s) ==? u64_max then markUnavailable
    else
      let now := oe_now oe in
      let event := mkEvent (u64_succ (st_lastEventID (js_state s))) jobID now (ei_Kind input) data None in
      run! persistRecords (oe_commit oe) (event_records (js_options s) (js_state s) event now) ;;
      ret event).

Definition finishQueuedObserved (oe : oenv) (jobID : string) (status : Status) (input : TransitionInput)
    (eventInput : EventInput) (obs : observer) : M Job :=
  run! lift (validateIdentifier jobID 256) ;;
  run! lift (validateIdentifier (ei_Kind eventInput) 128) ;;
  refuse negb (progress_ok (ti_Progress input)) with EInvalid ;;
  let! warnings := lift (sanitizeWarnings (ti_Warnings input)) in
  let! resultPayload := lift (sanitizePayload (ti_Result input)) in
  let! jobError := lift (sanitizeJobError (ti_Error input)) in
  let! eventData := lift (sanitizePayload (ei_Data eventInput)) in
  withJobState (oe_state oe) (
    let! job := lookup_job jobID in
    refuse present (j_Action job) with EConflict ;;
    refuse j_Status job !=? StatusQueued with EConflict ;;
    let! s := get in
    if st_lastEventID (js_state s) ==? u64_max then markUnavailable
    else
      let now := oe_now oe in
      let updated := finished_job job status (ti_Progress input) warnings resultPayload jobError
                       (ti_NeedsCompensationCheck input) now in
      run! lift (observeJobCommit obs (intent_of JobCommitTransition (Some job) updated)) ;;
      let event := mkEvent (u64_succ (st_lastEventID (js_state s))) jobID now (ei_Kind eventInput) eventData None in
      run! persistRecords (oe_commit oe)
             (event_records (js_options s) (js_state s) event now ++ [rec_job recordJobUpdated now updated]) ;;
      ret updated).

Definition CancelQueuedObserved (oe : oenv) (jobID : string) (input : TransitionInput) (eventInput : EventInput)
    (obs : observer) : M Job :=
  finishQueuedObserved oe jobID StatusCanceled input eventInput obs.

Definition RejectQueuedObserved (oe : oenv) (jobID : string) (input : TransitionInput) (eventInput : EventInput)
    (obs : observer) : M Job :=
  refuse negb (present obs) || negb (present (ti_Error input)) || ti_NeedsCompensationCheck input ||
         present (ti_Result input) || present (ti_Progress input) with EInvalid ;;
  finishQueuedObserved oe jobID StatusFailed input eventInput obs.

(** [Replay] on the refreshed state. *)
Definition replay_page (st : storeState) (jobID : string) (after : option Z) (limit : nat) : result job_err EventPage :=
  match st_jobs st !! jobID with
  | None => Err ENotFound
  | Some _ =>
      let latest := Zat (st_latestEventByJob st) jobID in
      let pruned := Zat (st_prunedThrough st) jobID in
      let events := listat (st_events st) jobID in
      do! match after with
          | Some a =>
              reject a <? pruned with
                EEventGap jobID a pruned (match events with e :: _ => ev_ID e | [] => 0 end) latest ;;
              Ok tt
          | None => Ok tt
          end ;;
      let start := Search (length events)
        (fun i => match events !! i with Some e => default 0 after <? ev_ID e | None => false end) in
      Ok (mkPage (take limit (drop start events)) latest pruned)
  end.

Definition Replay (oe : oenv) (jobID : string) (options : ReplayOptions) : M EventPage :=
  run! lift (validateIdentifier jobID 256) ;;
  refuse (ro_Limit options <? 0) || (1000 <? ro_Limit options) with EInvalid ;;
  let limit := if ro_Limit options =? 0 then 100 else ro_Limit options in
  withJobState (oe_state oe) (fun s => (s, replay_page (js_state s) jobID (ro_AfterID options) (Z.to_nat limit))).

(** ** Compensation *)

Definition nonEmptyStrings (value : string) : list string := if blank value then [] else [value].

Definition AcknowledgeCompensation (oe : oenv) (jobID warning : string) : M Job :=
  run! lift (validateIdentifier jobID 256) ;;
  let! warnings := lift (sanitizeWarnings (nonEmptyStrings warning)) in
  withJobState (oe_state oe) (
    let! job := lookup_job jobID in
    refuse negb (j_NeedsCompensationCheck job) ||
           ((j_Status job !=? StatusInterrupted) && (j_Status job !=? StatusFailed) && (j_Status job !=? StatusCanceled))
      with EConflict ;;
    let updated := j_with_Revision (j_with_Warnings (j_with_NeedsCompensationCheck job false) (j_Warnings job ++ warnings))
                     (u64_succ (j_Revision job)) in
    run! persistRecords (oe_commit oe) [rec_job recordJobUpdated (oe_now oe) updated] ;;
    ret updated).

(** ** Action records (actionEventRecord of action_journal.go) *)

(** One journal record for an event of an action job: when the retained prefix
    is full or too old it is replaced by a cumulative marker. *)
Definition actionEventRecord (o : Options) (st : storeState) (job : Job) (event : AEvent) (now : Z)
  : result job_err journalRecord :=
  match j_Action job with
  | None => Err EInvalid
  | Some a =>
      reject op_EventCapacity o <? 2 with EInvalid ;;
      let events := listat (st_events st) (j_ID job) in
      let capacity := op_EventCapacity o <=? Z.of_nat (length events) in
      let retention := match events with e :: _ => ev_Timestamp e <? now - op_EventRetention o | [] => false end in
      let count := if capacity || retention then 2 else 1 in
      reject (u64_max - count <? st_lastEventID st) || (u64_max - count <? as_LastSeq a) with EInvalid ;;
      let frame (n : Z) (f : AEvent) :=
        mkEvent (st_lastEventID st + n) (j_ID job) now ("action." +:+ ae_Type f) None (Some (ae_with_Seq f (as_LastSeq a + n))) in
      let marker := truncated_event (j_ID job) (as_InvocationID a) (mkTruncated 1 (as_LastSeq a)) in
      let '(prune, frames) :=
        if capacity || retention then
          let reason := if capacity && retention then "capacity+retention" else if capacity then "capacity" else "retention" in
          (Some (mkPrune (j_ID job) (Zat (st_latestEventByJob st) (j_ID job)) reason), [frame 1 marker; frame 2 event])
        else (None, [frame 1 event]) in
      let? next := actionJobAfterEvent job (ae_with_Seq event (as_LastSeq a + count)) now in
      Ok (rec_action now next prune frames)
  end.

(** ** Recovery of interrupted jobs *)

Definition interrupted_job (j : Job) (now : Z) : Job :=
  j_with_Revision
    (j_with_NeedsCompensationCheck
       (j_with_Error (j_with_FinishedAt (j_with_Status j StatusInterrupted) (Some now))
          (Some (mkJobError "daemon_restarted" "job execution state was lost during daemon restart" None))) true)
    (u64_succ (j_Revision j)).

(** Records for the running jobs, in the order of their IDs; the records of
    action jobs are previewed so that their event IDs follow each other. *)
Fixpoint interruption_loop (o : Options) (now : Z) (jobs : gmap string Job) (preview : storeState) (ids : list string)
  : result job_err (list journalRecord) :=
  match ids with
  | [] => Ok []
  | id :: rest =>
      match jobs !! id with
      | None => interruption_loop o now jobs preview rest
      | Some job =>
          match j_Action job with
          | Some a =>
              let? record := actionEventRecord o preview job (interruptedActionEvent (j_ID job) (as_InvocationID a)) now in
              let? preview' := applyActionEvent preview record in
              let? records := interruption_loop o now jobs preview' rest in
              Ok (record :: records)
          | None =>
              let? records := interruption_loop o now jobs preview rest in
              Ok (rec_job recordJobUpdated now (interrupted_job job now) :: records)
          end
      end
  end.

Definition running_ids (st : storeState) : list string :=
  SortStrings (map fst (filter (fun kv => j_Status (snd kv) = StatusRunning) (map_to_list (st_jobs st)))).

Definition interruptionRecords (o : Options) (st : storeState) (now : Z) : result job_err (list journalRecord) :=
  interruption_loop o now (st_jobs st) st (running_ids st).

Fixpoint observe_interruptions (obs : observer) (records : list journalRecord) : M unit :=
  match records with
  | [] => ret tt
  | r :: rest =>
      match r_Job r with
      | None => markUnavailable
      | Some next =>
          refuse present (j_Action next) && negb (present obs) with EUnavailable ;;
          let! s := get in
          match st_jobs (js_state s) !! j_ID next with
          | None => markUnavailable
          | Some previous =>
              run! lift (observeJobCommit obs (intent_of JobCommitTransition (Some previous) next)) ;;
              observe_interruptions obs rest
          end
      end
  end.

Definition RecoverInterruptedJobsObserved (oe : oenv) (lease : option ExecutionLease) (verified : bool) (obs : observer) : M unit :=
  fun s => withOwnership lease (js_directory s) verified s (withJobState (oe_state oe) (
    let! s := get in
    let! records := lift (interruptionRecords (js_options s) (js_state s) (oe_now oe)) in
    run! observe_interruptions obs records ;;
    persistRecords (oe_commit oe) records)).

(** ** Compaction, opening and closing *)

Definition Compact (oe : oenv) : M unit :=
  withJobState (oe_state oe) (fun s =>
    let '(s', (_, err)) := compactJournalStateLocked (ce_compact (oe_commit oe)) (js_state s) (oe_now oe) s in
    (s', match err with Some _ => Err EUnavailable | None => Ok tt end)).

(** Answers of the environment while a store is opened. *)
Record openenv := mkOpenEnv {
  ov_ready : bool;       (* directory, lock file, lock and journal are open *)
  ov_times : Z * option (Z * Z);
  ov_storeID : list Z;   (* random bytes of a new store *)
  ov_now : Z;
  ov_init : commit_io;
  ov_metadata : bool;    (* the lock metadata can be written *)
  ov_now_prune : Z;
  ov_prune : commit_io;
  ov_registered : bool;  (* the paths and the journal are unchanged at the end *)
  ov_log : journalReceiptLog
}.

(** [appendRecordsLocked]. *)
Definition appendJobRecordsLocked (fill : Z) (io : commit_io) (rs : list journalRecord) : M unit :=
  let! s := get in
  let! '(prospective, body, bytes) := lift (prepareJournalRecords fill (js_state s) rs) in
  commitJournalAppendLocked io prospective body bytes.

(** The journal on disk and the store ID in the lock file, before and after;
    [""] is a lock file without metadata. *)
Definition OpenContext (ov : openenv) (directory : string) (options : Options) (f : DFile) (lockStoreID : string)
  : (DFile * string) * result job_err Store :=
  match withDefaults options with
  | Err e => ((f, lockStoreID), Err e)
  | Ok resolved =>
      if directory ==? "" then ((f, lockStoreID), Err EInvalid)
      else if negb (ov_ready ov) then ((f, lockStoreID), Err EUnavailable)
      else match recoverJournal (df_file f) with
      | Err _ => ((f, lockStoreID), Err EUnavailable)
      | Ok (f', state) =>
          let d := settle (ov_times ov) f f' in
          let store := mkStore directory resolved d state (df_stat d) newJournalReceiptLog 0 0 0 false false in
          let initialized : (Store * string) * result job_err unit :=
            if st_initialized state then
              if (lockStoreID !=? "") && (lockStoreID !=? st_storeID state) then ((store, lockStoreID), Err EUnavailable)
              else if (lockStoreID ==? "") && negb (ov_metadata ov) then ((store, lockStoreID), Err EUnavailable)
              else ((store, st_storeID state), Ok tt)
            else if lockStoreID !=? "" then ((store, lockStoreID), Err EUnavailable)
            else
              let storeID := hex_encode (ov_storeID ov) in
              match appendJobRecordsLocked (ov_now ov) (ov_init ov) [rec_initialized (ov_now ov) storeID] store with
              | (s1, Err _) => ((s1, lockStoreID), Err EUnavailable)
              | (s1, Ok _) => if ov_metadata ov then ((s1, storeID), Ok tt) else ((s1, lockStoreID), Err EUnavailable)
              end in
          match initialized with
          | ((s1, lock), Err e) => ((js_file s1, lock), Err e)
          | ((s1, lock), Ok _) =>
              let pruned := match pruneRecords (js_options s1) (js_state s1) (ov_now_prune ov) with
                            | [] => (s1, Ok tt)
                            | rs => appendJobRecordsLocked (ov_now_prune ov) (ov_prune ov) rs s1
                            end in
              match pruned with
              | (s2, Err _) => ((js_file s2, lock), Err EUnavailable)
              | (s2, Ok _) =>
                  let s3 := fst (resetBoundary (fst (updateNextPruneAt s2))) in
                  if ov_registered ov then ((js_file s3, lock), Ok (js_with_receipts s3 (ov_log ov)))
                  else ((js_file s3, lock), Err EUnavailable)
              end
          end
      end
  end.

(** [Close]: afterwards every operation is refused. *)
Definition StoreClose (verified closed : bool) (s : Store) : Store * result job_err unit :=
  if js_closed s then (s, Ok tt)
  else
    let s1 := js_with_closed s true in
    if negb verified then (js_with_unavailable s1 true, Err EUnavailable)
    else (s1, if closed then Ok tt else Err EInternal).

End Ops.
