(* ===== verification/JobActionOps.v ===== *)
(** * Package [internal/consolejobs]: action operations (action.go,
    action_control.go, action_invocations.go, action_confirmation.go,
    action_execution_binding.go)

    Creating, starting, reporting, cancelling and completing action jobs, and
    the operations that tie a job to the confirmation ledger. *)

From Stdlib Require Import Ascii.
From S2P Require Import Prelude GoText GoJson GoEncoding ActionAbi HostConfirmation JobTypes JobSanitize.
From S2P Require Import JobAction JobJournal JobCompaction JobReceipts JobStore JobOps.

Definition ActionConfirmationPlanResultKey := "action_confirmation".
Definition ActionConfirmationBindingDigestRequestKey := "_action_confirmation_binding_digest".
Definition ActionConfirmationPlanInvocationRequestKey := "_action_confirmation_plan_invocation_id".
Definition ActionConfirmationReleaseDigestRequestKey := "_action_confirmation_release_digest".
Definition ActionConfirmationStateDigestRequestKey := "_action_confirmation_state_digest".
Definition ActionConfirmationSummaryDigestRequestKey := "_action_confirmation_summary_digest".
Definition ActionConfirmationParametersDigestRequestKey := "_action_confirmation_parameters_digest".

Section ActionOps.
Context {U : UnicodeTables}.

(** The spec with the fields a dispatcher fills in. *)
Definition action_spec (spec : CreateSpec) (request : payload) (i : IdempotencyInput) (a : ActionState) : CreateSpec :=
  mkSpec ActionJobKind (cs_WorkspaceID spec) (cs_Mutating spec) request i (Some a).

Definition CreateActionObserved (oe : oenv) (spec : CreateSpec) (name invocationID : string) (obs : observer) : M CreateResult :=
  refuse negb (present obs) with EUnavailable ;;
  let! s := get in
  refuse op_EventCapacity (js_options s) <? 2 with EInvalid ;;
  refuse negb (action_request_ok Version "pending" invocationID name (cs_Request spec)) with EInvalid ;;
  CreateOrGetObserved oe
    (action_spec spec (cs_Request spec) (cs_Idempotency spec) (mkAction None Version name invocationID 0 NoOutcome None)) obs.

Definition StartActionObserved (oe : oenv) (jobID : string) (lease : option ExecutionLease) (verified : bool) (obs : observer)
  : M Job :=
  refuse negb (present obs) with EUnavailable ;;
  fun s => withOwnership lease (js_directory s) verified s (startObserved oe jobID obs true).

(** ** Events of an action *)

Definition writeActionEvent (oe : oenv) (lease : option ExecutionLease) (verified : bool) (event : AEvent) (obs : observer)
    (queued : bool) : M Job :=
  let! public := lift (sanitizeActionEvent event) in
  let write : M Job := withJobState (oe_state oe) (
    let! job := lookup_job (ae_JobID public) in
    refuse negb (present (j_Action job)) || (queued && (j_Status job !=? StatusQueued)) ||
           (negb queued && (j_Status job !=? StatusRunning)) with EConflict ;;
    let! s := get in
    let! record := lift (actionEventRecord (js_options s) (js_state s) job public (oe_now oe)) in
    match r_Job record with
    | None => fail EInternal
    | Some next =>
        run! (if terminal (j_Status next)
              then lift (observeJobCommit obs (intent_of JobCommitTransition (Some job) next)) else ret tt) ;;
        run! persistRecords (oe_commit oe) [record] ;;
        ret next
    end) in
  if queued then write
  else fun s => withOwnership lease (js_directory s) verified s write.

Definition AppendActionEvent (oe : oenv) (lease : option ExecutionLease) (verified : bool) (event : AEvent) : M Job :=
  refuse (ae_Type event !=? "progress") && (ae_Type event !=? "warning") with EInvalid ;;
  writeActionEvent oe lease verified event None false.

Definition CompleteActionObserved (oe : oenv) (lease : option ExecutionLease) (verified : bool) (event : AEvent) (obs : observer)
  : M Job :=
  refuse negb (present obs) with EUnavailable ;;
  refuse (ae_Type event !=? "result") && (ae_Type event !=? "error") with EInvalid ;;
  writeActionEvent oe lease verified event obs false.

Definition CancelQueuedActionObserved (oe : oenv) (jobID invocationID : string) (obs : observer) : M Job :=
  refuse negb (present obs) with EUnavailable ;;
  writeActionEvent oe None false (result_event jobID invocationID (mkResult Cancelled None "")) obs true.

Definition RejectQueuedActionObserved (oe : oenv) (jobID invocationID : string) (obs : observer) : M Job :=
  refuse negb (present obs) with EUnavailable ;;
  writeActionEvent oe None false
    (error_event jobID invocationID (mkFailure Failed actionNotStartedCode actionNotStartedMessage)) obs true.

Definition RequestActionCancelObserved (oe : oenv) (jobID invocationID actor : string) (obs : observer) : M Job :=
  refuse negb (present obs) with EUnavailable ;;
  refuse negb (is_ok (validateIdentifier actor 256)) with EInvalid ;;
  withJobState (oe_state oe) (
    let! job := lookup_job jobID in
    match j_Action job with
    | None => fail EConflict
    | Some a =>
        refuse (as_InvocationID a !=? invocationID) || (j_Status job !=? StatusRunning) with EConflict ;;
        if present (as_Cancellation a) then ret job
        else
          refuse j_Revision job ==? u64_max with EInvalid ;;
          let next := j_with_Action (j_with_Revision job (u64_succ (j_Revision job)))
                        (Some (as_with_Cancellation a (mkCancellation actor (oe_now oe)))) in
          commit_update oe obs JobCommitCancelRequest job next
    end).

(** [ReplayAction] on the refreshed state. *)
Definition replay_action_page (st : storeState) (jobID : string) (fromSeq : Z) (limit : nat) : result job_err ActionEventPage :=
  match st_jobs st !! jobID with
  | None => Err ENotFound
  | Some job =>
      match j_Action job with
      | None => Err EInvalid
      | Some a =>
          reject as_LastSeq a <? fromSeq with EInvalid ;;
          let events := listat (st_events st) jobID in
          let start := Search (length events)
            (fun i => match events !! i ≫= ev_Action with Some f => fromSeq <? ae_Seq f | None => false end) in
          Ok (mkActionPage (omap ev_Action (take limit (drop start events))) (as_LastSeq a) (as_Outcome a))
      end
  end.

Definition ReplayAction (oe : oenv) (jobID : string) (fromSeq limit : Z) : M ActionEventPage :=
  refuse (limit <? 0) || (1000 <? limit) with EInvalid ;;
  let limit := if limit =? 0 then 100 else limit in
  withJobState (oe_state oe) (fun s => (s, replay_action_page (js_state s) jobID fromSeq (Z.to_nat limit))).

(** ** Retry keys *)

Definition bindActionRetryKey (oe : oenv) (job : Job) (digest caller : string) (obs : observer) (now : Z) : M Job :=
  if digest ==? "" then ret job
  else match job_policy job with
  | None => fail EInternal
  | Some (a, p) =>
      let n := Z.of_nat (length (ap_RetryKeys p)) in
      refuse MaxActionRetryKeys <=? n with ECapacity "action retry keys" MaxActionRetryKeys n ;;
      refuse (j_Revision job ==? u64_max) || (now <? j_CreatedAt job) with EInvalid ;;
      let next := j_with_Action (j_with_Revision job (u64_succ (j_Revision job)))
                    (Some (as_with_Policy a (Some (ap_with_RetryKeys p (ap_RetryKeys p ++ [mkRetry digest now]))))) in
      run! lift (observeJobCommit obs (mkIntent caller JobCommitActionJoin (Some job) next "" "")) ;;
      run! persistRecords (oe_commit oe) [rec_job recordActionKeyBound now next] ;;
      ret next
  end.

(** The non-terminal job of the same action and frozen request that was created
    first. *)
Definition active_duplicate (st : storeState) (name digest : string) : option Job :=
  earliest (filter (fun j =>
    match job_policy j with
    | Some (a, p) => (as_Name a ==? name) && negb (terminal (j_Status j)) && (ap_RequestDigest p ==? digest)
    | None => false
    end = true) (all_jobs st)).

(** The parameters, decoded again from their encoding. *)
Definition canonical_request (request : payload) : option payload :=
  match parse (marshal_payload request) with
  | Some JNull => Some None
  | Some (JObject m) => match jcanon (JObject m) with JObject m' => Some (Some m') | _ => None end
  | _ => None
  end.

Definition CreateActionWithPolicyObserved (oe : oenv) (spec : CreateSpec) (name invocationID : string)
    (policy : ActionConcurrency) (obs : observer) : M CreateResult :=
  refuse negb (present obs) with EUnavailable ;;
  let! s0 := get in
  refuse negb (validActionConcurrency policy) || (op_EventCapacity (js_options s0) <? 2) with EInvalid ;;
  let key := ii_Key (cs_Idempotency spec) in
  run! (if key ==? "" then ret tt else lift (validateIdentifier key 256)) ;;
  refuse negb (action_request_ok Version "pending" invocationID name (cs_Request spec)) with EInvalid ;;
  match canonical_request (cs_Request spec) with
  | None => fail EInvalid
  | Some request =>
      let digest := actionRequestDigest name (cs_WorkspaceID spec) (cs_Mutating spec) policy request in
      let keyDigest := if key ==? "" then "" else DigestRequest key in
      let keys := if key ==? "" then [] else [mkRetry keyDigest 0] in
      let principal := ii_Principal (cs_Idempotency spec) in
      let spec' := action_spec spec request (mkIdem principal "POST" ("/internal/actions/" +:+ name) invocationID digest)
                     (mkAction None Version name invocationID 0 NoOutcome (Some (mkPolicy policy digest keys))) in
      let! '(prepared, receipt) := lift (prepareCreate spec') in
      refuse cs_Request prepared !=? request with EInvalid ;;
      withJobState (oe_state oe) (
        let now := fst (oe_checks oe) in
        let! s := get in
        let st := js_state s in
        let! retry := (if keyDigest ==? "" then ret None
                       else match latestActionRetry st name keyDigest with
                            | Ok r => ret r
                            | Err _ => markUnavailable
                            end) in
        match match retry with Some (j, _) => if actionRetryKeyLive j now then Some j else None | None => None end with
        | Some j =>
            refuse negb (sameActionCreate j prepared) with EIdempotencyConflict (j_ID j) ;;
            ret (mkCreateResult j true)
        | None =>
            run! lift (actionExecutionBarrier st) ;;
            let fresh : M CreateResult :=
              refuse present (st_idempotency st !! pi_Identity receipt) with EConflict ;;
              createOrGetPrepared oe prepared receipt (fun _ spec => Ok spec) obs plain_intent in
            match active_duplicate st name digest with
            | None => fresh
            | Some active =>
                match policy with
                | ActionReject => fail (EActionInFlight (j_ID active) policy)
                | ActionCoalesce =>
                    refuse negb (sameActionCreate active prepared) with EConflict ;;
                    let! joined := bindActionRetryKey oe active keyDigest principal obs now in
                    ret (mkCreateResult joined true)
                | _ => fresh
                end
            end
        end)
  end.

(** ** Confirmations *)

Record ActionConfirmationIssueInput := mkIssueInput {
  ai_PlanJobID : string; ai_Action : string; ai_Actor : string; ai_WorkspaceID : string
}.
Record ActionConfirmationApplyInput := mkApplyInput {
  aa_Token : string; aa_Binding : ConfirmationBinding; aa_ObservedParametersDigest : string; aa_ObservedStateDigest : string;
  aa_ObservedSummaryDigest : string; aa_ObservedReleaseDigest : string
}.

Definition actionConfirmationPlanDigests (plan : Job) : option (list (string * string)) :=
  match nestedStringMap (j_Result plan) ActionConfirmationPlanResultKey with
  | Some d => Some d
  | None =>
      match pget "value" (j_Result plan) with
      | Some (JObject m) => nestedStringMap (Some m) ActionConfirmationPlanResultKey
      | _ => None
      end
  end.

Definition plan_binding (plan : Job) (invocation : string) (i : ActionConfirmationIssueInput) (d : list (string * string))
  : ConfirmationBinding :=
  mkBinding Version (j_ID plan) invocation (ai_Action i) (ai_WorkspaceID i) (ai_Actor i) (field d "parameters_digest")
    (field d "state_digest") (field d "summary_digest") (field d "release_digest") (j_CreatedAt plan) true.

(** [host] is the outcome of the ledger's call, as an error of this package. *)
Definition host_result {A} (r : result hc_err A) : result job_err A := map_err EHost r.

Definition IssueActionConfirmation (oe : oenv) (io : hc_io) (random : list Z) (i : ActionConfirmationIssueInput)
    (s : Store) (h : HStore) : (Store * HStore) * result job_err IssueResult :=
  match do! validateIdentifier (ai_PlanJobID i) 256 ;; do! validateIdentifier (ai_Action i) 128 ;;
        do! validateIdentifier (ai_Actor i) 256 ;; validateIdentifier (ai_WorkspaceID i) 256 with
  | Err e => ((s, h), Err e)
  | Ok _ =>
      withJobStateAnd (oe_state oe) (fun s h =>
        match st_jobs (js_state s) !! ai_PlanJobID i with
        | None => ((s, h), Err EConfirmationInvalid)
        | Some plan =>
            match j_Action plan with
            | None => ((s, h), Err EConfirmationInvalid)
            | Some a =>
                if (j_Status plan !=? StatusSucceeded) || (as_InvocationID a ==? "") ||
                   (j_WorkspaceID plan !=? ai_WorkspaceID i) || (j_CreatedBy plan !=? ai_Actor i)
                then ((s, h), Err EConfirmationInvalid)
                else if negb (HasSuffix (as_Name a) ".plan") || (TrimSuffix (as_Name a) ".plan" !=? ai_Action i)
                then ((s, h), Err EConfirmationInvalid)
                else match actionConfirmationPlanDigests plan with
                | None => ((s, h), Err EConfirmationInvalid)
                | Some d =>
                    let b := plan_binding plan (as_InvocationID a) i d in
                    if negb (is_ok (binding_validate b)) then ((s, h), Err EConfirmationInvalid)
                    else let '(h', r) := Issue io (oe_now oe) random b h in ((s, h'), host_result r)
                end
            end
        end) s h
  end.

Definition action_reserved_keys : list string :=
  [ActionConfirmationBindingDigestRequestKey; ConfirmationPlanJobRequestKey; ConfirmationActionRequestKey;
   ActionConfirmationPlanInvocationRequestKey; ActionConfirmationReleaseDigestRequestKey;
   ActionConfirmationStateDigestRequestKey; ActionConfirmationSummaryDigestRequestKey;
   ActionConfirmationParametersDigestRequestKey].

Definition bound_request (request : payload) (b : ConfirmationBinding) (bindingDigest : string) : payload :=
  let m := default [] request in
  let m := obj_set ConfirmationPlanJobRequestKey (JString (cb_PlanJobID b)) m in
  let m := obj_set ConfirmationActionRequestKey (JString (cb_Action b)) m in
  let m := obj_set ActionConfirmationPlanInvocationRequestKey (JString (cb_PlanInvocationID b)) m in
  let m := obj_set ActionConfirmationBindingDigestRequestKey (JString bindingDigest) m in
  let m := obj_set ActionConfirmationParametersDigestRequestKey (JString (cb_ParametersDigest b)) m in
  let m := obj_set ActionConfirmationStateDigestRequestKey (JString (cb_StateDigest b)) m in
  let m := obj_set ActionConfirmationSummaryDigestRequestKey (JString (cb_SummaryDigest b)) m in
  Some (obj_set ActionConfirmationReleaseDigestRequestKey (JString (cb_ReleaseDigest b)) m).

(** Everything [CreateConfirmedActionObserved] checks before it takes the lock:
    the prepared spec, its receipt and the binding's digest. *)
Definition prepare_confirmed (o : Options) (spec : CreateSpec) (name invocationID : string) (c : ActionConfirmationApplyInput)
  : result job_err (CreateSpec * persistedIdempotency * string) :=
  let b := aa_Binding c in
  reject op_EventCapacity o <? 2 with EInvalid ;;
  reject existsb (fun k => present (pget k (cs_Request spec))) action_reserved_keys with EInvalid ;;
  reject negb (is_ok (binding_validate b)) || (cb_Action b !=? name) ||
         (cb_Actor b !=? ii_Principal (cs_Idempotency spec)) || (cb_WorkspaceID b !=? cs_WorkspaceID spec) ||
         negb (cs_Mutating spec) with EConfirmationInvalid ;;
  reject (aa_ObservedParametersDigest c !=? cb_ParametersDigest b) || (aa_ObservedStateDigest c !=? cb_StateDigest b) ||
         (aa_ObservedSummaryDigest c !=? cb_SummaryDigest b) || (aa_ObservedReleaseDigest c !=? cb_ReleaseDigest b)
    with EConfirmationInvalid ;;
  reject DigestRequest (marshal_payload (cs_Request spec)) !=? cb_ParametersDigest b with EConfirmationInvalid ;;
  reject negb (action_request_ok Version "pending" invocationID name (cs_Request spec)) with EInvalid ;;
  match canonical_request (cs_Request spec) with
  | None => Err EInvalid
  | Some canonical =>
      match binding_digest b with
      | Err _ => Err EConfirmationInvalid
      | Ok bindingDigest =>
          let request := bound_request canonical b bindingDigest in
          let digest := actionRequestDigest name (cs_WorkspaceID spec) (cs_Mutating spec) ActionReject request in
          let i := cs_Idempotency spec in
          let spec' := action_spec spec request
                         (mkIdem (ii_Principal i) "POST" ("/internal/actions/" +:+ name) (ii_Key i) digest)
                         (mkAction None Version name invocationID 0 NoOutcome (Some (mkPolicy ActionReject digest []))) in
          let? '(prepared, receipt) := prepareCreate spec' in
          reject cs_Request prepared !=? request with EInvalid ;;
          Ok (prepared, receipt, bindingDigest)
      end
  end.

(** The confirmation is consumed for the new job before the job is recorded. *)
Definition CreateConfirmedActionObserved (oe : oenv) (io : hc_io) (spec : CreateSpec) (name invocationID : string)
    (c : ActionConfirmationApplyInput) (obs : observer) (s : Store) (h : HStore) : (Store * HStore) * result job_err CreateResult :=
  if negb (present obs) then ((s, h), Err EUnavailable)
  else match prepare_confirmed (js_options s) spec name invocationID c with
  | Err e => ((s, h), Err e)
  | Ok (prepared, receipt, bindingDigest) =>
      withJobStateAnd (oe_state oe)
        (createOrGetPreparedWithJobHook oe prepared receipt (fun _ spec => Ok spec)
           (fun job h =>
              let '(h', r) := Consume io (fst (oe_checks oe))
                                (mkConsumeRequest (aa_Token c) (aa_Binding c) (j_ID job) invocationID) h in
              (h', do! host_result r ;; Ok tt))
           obs
           (fun _ i => mkIntent (in_Actor i) (in_Operation i) (in_Previous i) (in_Next i) (cb_PlanJobID (aa_Binding c)) bindingDigest))
        s h
  end.

Definition ClaimActionConfirmationForExecution (oe : oenv) (io : hc_io) (jobID invocationID bindingDigest : string)
    (s : Store) (h : HStore) : (Store * HStore) * result job_err ClaimReceipt :=
  match do! validateIdentifier jobID 256 ;; validateIdentifier invocationID 256 with
  | Err e => ((s, h), Err e)
  | Ok _ =>
      if negb (hex64 bindingDigest) then ((s, h), Err EConfirmationInvalid)
      else withJobStateAnd (oe_state oe) (fun s h =>
        match st_jobs (js_state s) !! jobID with
        | None => ((s, h), Err EConflict)
        | Some job =>
            match j_Action job with
            | None => ((s, h), Err EConflict)
            | Some a =>
                if (j_Kind job !=? ActionJobKind) || (j_Status job !=? StatusRunning) || (as_InvocationID a !=? invocationID) ||
                   (as_Outcome a !=? NoOutcome)
                then ((s, h), Err EConflict)
                else if pget_string ActionConfirmationBindingDigestRequestKey (j_Request job) !=? bindingDigest
                then ((s, h), Err EConfirmationInvalid)
                else let '(h', r) := Claim io (oe_now oe) (mkClaimRequest bindingDigest jobID invocationID) h in
                     ((s, h'), host_result r)
            end
        end) s h
  end.

(** [RetainActionExecution]: a guard on the lease for a running job; the guard
    is released again when the job does not qualify. *)
Definition RetainActionExecution (oe : oenv) (lease : ExecutionLease) (retainable verified live : bool)
    (jobID invocationID : string) (s : Store) : (Store * ExecutionLease) * result job_err (Job * nat) :=
  if (jobID ==? "") || (invocationID ==? "") then ((s, lease), Err EUnavailable)
  else if negb (en_ctx (oe_state oe)) then ((s, lease), Err EUnavailable)
  else match Retain retainable lease with
  | (lease', Err e) => ((s, lease'), Err e)
  | (lease', Ok guard) =>
      let '(s', r) := withOwnership (Some lease') (js_directory s) verified s (
        let! job := Get oe jobID in
        refuse (j_Kind job !=? ActionJobKind) || (j_Status job !=? StatusRunning) || negb (present (j_StartedAt job)) ||
               match j_Action job with
               | None => true
               | Some a => (as_InvocationID a !=? invocationID) || (as_Outcome a !=? NoOutcome)
               end with EConflict ;;
        refuse negb live with EUnavailable ;;
        ret job) in
      match r with
      | Err e => ((s', Release guard lease'), Err e)
      | Ok job => ((s', lease'), Ok (job, guard))
      end
  end.

End ActionOps.
