(* ===== verification/JobDemo.v ===== *)
(** * A small journal

    Concrete values the examples and the witnesses of the job theorems share:
    a store with one mutating job and one event. *)

From Stdlib Require Import Ascii.
From S2P Require Import Prelude GoText GoJson GoEncoding ActionAbi HostConfirmation JobTypes JobSanitize.
From S2P Require Import JobAction JobJournal JobCompaction JobReceipts JobStore JobOps JobActionOps.

(** Tables for texts in ASCII, where they are not consulted. *)
#[export] Instance demo_unicode : UnicodeTables := {| uni_letter_or_digit := fun _ => true; uni_is_upper := fun _ => false |}.

Definition demo_now : Z := 63900000000 * ns_per_s.
Definition demo_store_id : string := "0123456789abcdef0123456789abcdef0123456789abcdef0123456789abcdef".
Definition demo_idempotency : IdempotencyInput :=
  mkIdem "admin" "POST" "/api/modules/update" "key-1" demo_store_id.
Definition demo_spec : CreateSpec :=
  mkSpec "module.update" "main" true (Some [("module", JString "nextcloud")]) demo_idempotency None.

Definition demo_queued : Job := new_job "job_01" demo_spec demo_now.
Definition demo_running : Job := started_job demo_queued (demo_now + 1).
Definition demo_succeeded : Job :=
  finished_job demo_running StatusSucceeded (Some 100) [] (Some [("ok", JBool true)]) None false (demo_now + 3).
Definition demo_identity : persistedIdempotency :=
  match prepareCreate demo_spec with Ok (_, i) => pi_with_JobID i "job_01" | Err _ => mkPI "" "" "" "" "" "" "" "" end.
Definition demo_event : Event := mkEvent 1 "job_01" (demo_now + 2) "module.progress" (Some [("step", JString "pull")]) None.

Definition demo_created_records : list journalRecord :=
  [r_numbered (rec_initialized demo_now demo_store_id) 1 demo_now;
   r_numbered (rec_created demo_now demo_queued demo_identity) 2 demo_now].
Definition demo_later_records : list journalRecord :=
  [r_numbered (rec_job recordJobUpdated (demo_now + 1) demo_running) 3 (demo_now + 1);
   r_numbered (rec_event recordEventAdded (demo_now + 2) demo_event) 4 (demo_now + 2);
   r_numbered (rec_job recordJobUpdated (demo_now + 3) demo_succeeded) 5 (demo_now + 3)].

(** The state a list of records leads to. *)
Definition replayed (rs : list journalRecord) : storeState :=
  match result_fold state_apply newStoreState rs with Ok s => s | Err _ => newStoreState end.
Definition demo_created : storeState := replayed demo_created_records.
Definition demo_final : storeState := replayed (demo_created_records ++ demo_later_records).

Definition result_get {E A} (d : A) (r : result E A) : A := match r with Ok a => a | Err _ => d end.
Lemma result_get_ok {E A} (d : A) (r : result E A) : is_ok r = true -> r = Ok (result_get d r).
Proof. by destruct r. Qed.

(** A call that succeeded, taken apart. *)
Lemma call_ok {S E A} (d : A) (m : S * result E A) : is_ok (snd m) = true -> m = (fst m, Ok (result_get d (snd m))).
Proof. by destruct m as [? []]. Qed.

Lemma demo_records_accepted :
  is_ok (result_fold state_apply newStoreState (demo_created_records ++ demo_later_records)) = true.
Proof. vm_compute. reflexivity. Qed.

(** The journal file of these records, with a torn line at its end. *)
Definition demo_file : JFile := mkJFile (map JLine (demo_created_records ++ demo_later_records)) true.
Definition demo_recovery : JFile * storeState :=
  result_get (demo_file, newStoreState) (recoverJournal demo_file).
Lemma demo_file_recovers : recoverJournal demo_file = Ok (fst demo_recovery, snd demo_recovery).
Proof.
  unfold demo_recovery. rewrite <- surjective_pairing. apply result_get_ok. vm_compute. reflexivity.
Qed.

(** A store on the journal of the created job, in an environment where every
    system call succeeds. *)
Definition demo_options : Options := mkOptions 1024 DefaultEventRetention 1024 32 1 DefaultJournalCompactionThreshold.
Definition demo_stat : journalSnapshot := mkSnap 2048 demo_now None.
Definition demo_store : Store :=
  mkStore "/var/lib/anas/jobs" demo_options (mkDFile (mkJFile (map JLine demo_created_records) false) demo_stat)
    demo_created demo_stat newJournalReceiptLog DefaultJournalCompactionThreshold 0 0 false false.
Definition demo_cenv (now : Z) : cenv := mkCenv true now now (CommitOk now None) CompactFails.
Definition demo_jenv (now : Z) : jenv :=
  mkEnv true true LockOk true CanonicalSame true (now, None) true true now (demo_cenv now) true true true.
Definition demo_oenv (now : Z) : oenv := mkOenv (demo_jenv now) (demo_cenv now) now (now, now) [map Z.of_nat (seq 1 16)].
Definition demo_started : Store := fst (StartObserved (demo_oenv (demo_now + 1)) "job_01" None demo_store).

(** A second request on the same store. *)
Definition demo_spec2 : CreateSpec :=
  mkSpec "module.remove" "main" true None (mkIdem "admin" "POST" "/api/modules/remove" "key-2" demo_store_id) None.

(** A finished plan with a confirmation, and the request it confirms. *)
Definition demo_proof : string := "cnf_" +:+ demo_store_id.
Definition demo_cfgv : string := "cfgv-" +:+ demo_store_id.
Definition demo_plan_spec : CreateSpec :=
  mkSpec "module.plan" "main" false None (mkIdem "admin" "POST" "/api/modules/plan" "key-3" demo_store_id) None.
Definition demo_plan_result : payload :=
  Some [("confirmation", JObject
    [("action", JString "module.apply"); ("actor", JString "admin"); ("config_validator", JString demo_cfgv);
     ("expires_at", JString "2090-01-01T00:00:00Z"); ("identity_source", JString "local");
     ("plan_digest", JString demo_store_id); ("proof_digest", JString (DigestRequest demo_proof));
     ("transaction_id", JString "tx-1"); ("workspace_id", JString "main")])].
Definition demo_plan_queued : Job := new_job "job_02" demo_plan_spec demo_now.
Definition demo_plan_running : Job := started_job demo_plan_queued (demo_now + 1).
Definition demo_plan_done : Job :=
  finished_job demo_plan_running StatusSucceeded None [] demo_plan_result None false (demo_now + 2).
Definition demo_plan_identity : persistedIdempotency :=
  match prepareCreate demo_plan_spec with Ok (_, i) => pi_with_JobID i "job_02" | Err _ => mkPI "" "" "" "" "" "" "" "" end.
Definition demo_plan_records : list journalRecord :=
  [r_numbered (rec_created demo_now demo_plan_queued demo_plan_identity) 3 demo_now;
   r_numbered (rec_job recordJobUpdated (demo_now + 1) demo_plan_running) 4 (demo_now + 1);
   r_numbered (rec_job recordJobUpdated (demo_now + 2) demo_plan_done) 5 (demo_now + 2)].
Definition demo_plan_store : Store :=
  js_with_file (js_with_state demo_store (replayed (demo_created_records ++ demo_plan_records)))
    (mkDFile (mkJFile (map JLine (demo_created_records ++ demo_plan_records)) false) demo_stat).
Definition demo_confirmation : ConfirmationInput :=
  mkConfirmation "job_02" "module.plan" demo_proof "admin" "local" "tx-1" "module.apply" "main" demo_cfgv demo_store_id None.
Definition demo_apply_spec (key : string) : CreateSpec :=
  mkSpec "module.apply" "main" true (Some [("module", JString "nextcloud")])
    (mkIdem "admin" "POST" "/api/modules/apply" key demo_store_id) None.
Definition demo_apply (now : Z) (key : string) : Store -> Store * result job_err CreateResult :=
  CreateOrGetConfirmedObserved (demo_oenv now) (demo_apply_spec key) demo_confirmation None.

(** ** Actions

    Concrete values: one action is created with a retry key, joined under a
    second key, started, reported on and completed, and after the retention
    period its first key is used for a new job. *)


Definition demo_lease : ExecutionLease := mkLease "/var/lib/anas/jobs" false 0 0 [].
Definition demo_observer : observer := Some (fun _ => None).
Definition demo_action_env (i now : Z) : oenv :=
  mkOenv (demo_jenv now) (demo_cenv now) now (now, now) [map (fun n => i * 16 + Z.of_nat n) (seq 1 16)].
Definition demo_action (i now : Z) (invocation key : string) : Store -> Store * result job_err CreateResult :=
  CreateActionWithPolicyObserved (demo_action_env i now)
    (mkSpec ActionJobKind "backup" false (Some [("volume", JString "tank")]) (mkIdem "admin" "" "" key "") None)
    "storage.scrub" invocation ActionCoalesce demo_observer.
Definition demo_action_id : string := "job_1112131415161718191a1b1c1d1e1f20".
Definition demo_progress : AEvent :=
  mkAEvent Version demo_action_id "inv-1" 0 "progress" (Some (mkProgress "scrub" (Some 1) (Some 3) None "blocks"))
    None None None None.
Definition demo_result : AEvent :=
  result_event demo_action_id "inv-1"
    (mkResult Succeeded (Some false) (marshal_payload (Some [("errors", JNumber "0")]))).

Definition demo_action_created := demo_action 1 demo_now "inv-1" "k1" demo_store.
Definition demo_action_joined := demo_action 2 (demo_now + 1) "inv-2" "k2" (fst demo_action_created).
Definition demo_action_started :=
  StartActionObserved (demo_action_env 3 (demo_now + 2)) demo_action_id (Some demo_lease) true demo_observer (fst demo_action_joined).
Definition demo_action_reported :=
  AppendActionEvent (demo_action_env 4 (demo_now + 3)) (Some demo_lease) true demo_progress (fst demo_action_started).
Definition demo_action_completed :=
  CompleteActionObserved (demo_action_env 5 (demo_now + 4)) (Some demo_lease) true demo_result demo_observer (fst demo_action_reported).
Definition demo_action_reused :=
  demo_action 6 (demo_now + 5 + ActionKeyRetention) "inv-3" "k1" (fst demo_action_completed).

(** Every step succeeds; joining returns the first job and reusing the key makes
    a second one. *)
Lemma demo_action_runs :
  (is_ok (snd demo_action_created) && is_ok (snd demo_action_joined) && is_ok (snd demo_action_started) &&
   is_ok (snd demo_action_reported) && is_ok (snd demo_action_completed) && is_ok (snd demo_action_reused) &&
   (length (all_jobs (js_state (fst demo_action_reused))) =? 3)%nat)%bool = true.
Proof. vm_compute. reflexivity. Qed.

Definition demo_action_lines : list jl := jf_lines (df_file (js_file (fst demo_action_reused))).
