(* ===== verification/JobTypesFacts.v ===== *)
(** * Package [internal/consolejobs]: principals, options and redaction, proved *)

From Stdlib Require Import Ascii.
From S2P Require Import Prelude GoText GoJson GoEncoding ActionAbi HostConfirmation JobTypes JobSanitize.
From S2P Require Import JobAction JobJournal JobDemo.

(** ** Principals *)

Lemma CutAt_first c a b : sany (fun x => x ==? c) a = false -> CutAt c (a +:+ String c b) = Some (a, b).
Proof.
  induction a as [|x a IH]; intros H.
  - change ("" +:+ String c b) with (String c b). cbn. by rewrite bool_decide_eq_true_2.
  - change (String x a +:+ String c b) with (String x (a +:+ String c b)). cbn in *.
    apply orb_false_iff in H as [Hx Ha]. by rewrite Hx, IH.
Qed.

Lemma CutAt_split c s a b : CutAt c s = Some (a, b) -> s = a +:+ String c b.
Proof.
  revert a b. induction s as [|x s IH]; intros a b H; cbn in H; [done|].
  destruct (x ==? c) eqn:E.
  - breflect. simplify_eq. done.
  - destruct (CutAt c s) as [[u v]|] eqn:Ec; [|done]. simplify_eq.
    change (String x u +:+ String c b) with (String x (u +:+ String c b)). by rewrite (IH u b).
Qed.

Lemma principal_of_string k :
  k = PrincipalBootstrap \/ k = PrincipalEnrollment -> principal_of (principal_string k) = k.
Proof. by intros [-> | ->]. Qed.

Lemma principal_string_of s : principal_string (principal_of s) = s.
Proof. unfold principal_of. repeat case_bool_decide; by subst. Qed.

(** The printed form of a transaction principal parses back to its kind and
    transaction, and only printed forms parse: the parser accepts exactly the
    values the constructor emits. *)
Theorem principal_round_trip value kind id :
  ParseTransactionPrincipal value = Some (kind, id) <-> TransactionPrincipal kind id = Some value.
Proof.
  unfold ParseTransactionPrincipal, TransactionPrincipal. split.
  - destruct (CutAt ":" value) as [[a b]|] eqn:Ec; [|done]. apply CutAt_split in Ec as ->.
    destruct (transactionPrincipalIDPattern b) eqn:Ep; cbn [negb]; [|done].
    destruct ((principal_of a !=? PrincipalBootstrap) && (principal_of a !=? PrincipalEnrollment)) eqn:Ek; [done|].
    intros [= <- <-]. rewrite Ek, Ep. cbn [negb]. by rewrite principal_string_of.
  - destruct ((kind !=? PrincipalBootstrap) && (kind !=? PrincipalEnrollment)) eqn:Ek; [done|].
    destruct (transactionPrincipalIDPattern id) eqn:Ep; cbn [negb]; [|done]. intros [= <-].
    assert (Hk : kind = PrincipalBootstrap \/ kind = PrincipalEnrollment).
    { apply andb_false_iff in Ek as [Ek|Ek]; breflect; auto. }
    change (":" +:+ id) with (String ":" id). rewrite CutAt_first by (by destruct Hk as [-> | ->]).
    rewrite Ep. cbn [negb]. rewrite principal_of_string, Ek by done. done.
Qed.

(** ** Options *)

(** Defaults fill exactly the zero fields and leave every limit positive. *)
Lemma withDefaults_positive o o' :
  withDefaults o = Ok o' ->
  0 < op_EventCapacity o' /\ 0 < op_EventRetention o' /\ 0 < op_MaxQueuedJobs o' /\ 0 < op_MaxRunningJobs o' /\
  0 < op_LockTimeout o' /\ 0 < op_JournalCompactionThreshold o'.
Proof.
  unfold withDefaults. intros H. ok_path H. subst o'. breflect. destruct_and?. unfold or_default. cbn.
  repeat case_match; breflect; repeat split; try lia; done.
Qed.

(** ** Redaction *)

(** A quoted secret followed by more text: the first pass keeps the text after
    the quotes, the second takes it for part of the secret. *)
Definition quoted_warning : string := "token=" +:+ squote +:+ "abc" +:+ squote +:+ " failed".

Lemma sanitizeText_twice :
  sanitizeText quoted_warning = "token=<redacted> failed" /\
  sanitizeText (sanitizeText quoted_warning) = "token=<redacted>".
Proof. by vm_compute. Qed.

(** The redaction of free text is not idempotent, so a warning that
    [sanitizeWarnings] accepts and redacts can still fail the check of
    [validatePersistedJob] that stored warnings are redacted: the input checks
    pass it and the journal refuses it as an internal error. *)
Theorem accepted_warning_refused_by_journal `{U : UnicodeTables} j w
    (Hw : sanitizeWarnings [quoted_warning] = Ok w) :
  validatePersistedJob (j_with_Warnings j (j_Warnings j ++ w)) <> Ok tt.
Proof.
  unfold sanitizeWarnings in Hw. ok_path Hw. intros H. unfold validatePersistedJob in H.
  do 9 (ok_step H). match goal with X : existsb _ _ = false |- _ => revert X end.
  cbn [j_Warnings j_with_Warnings]. rewrite existsb_app, orb_false_iff. intros [_ Hr]. subst w.
  vm_compute in Hr. discriminate Hr.
Qed.

Definition demo_job : Job :=
  mkJob "job_1" "module.update" "main" true StatusRunning "admin" 1 (Some 2) None None 0 [] None None false 2 None.

Lemma accepted_warning_refused_by_journal_witness :
  validatePersistedJob demo_job = Ok tt /\
  validatePersistedJob (j_with_Warnings demo_job ["token=<redacted> failed"]) <> Ok tt.
Proof.
  split; [vm_compute; reflexivity|].
  apply (accepted_warning_refused_by_journal demo_job ["token=<redacted> failed"]). vm_compute. reflexivity.
Defined.
