(* ===== verification/JobSanitizeFacts.v ===== *)
(** * Package [internal/consolejobs]: redaction, proved

    What [sanitizeJSONValue] lets through: nothing of a value stored under a
    sensitive key, and every member of an object under a name of its own. *)

From Stdlib Require Import Ascii.
From S2P Require Import Prelude GoText GoJson GoEncoding ActionAbi HostConfirmation JobTypes JobSanitize JobDemo.

(** ** Decimal numbers *)

Lemma byte_val_chr n : 0 <= n < 256 -> byte_val (byte_chr n) = n.
Proof.
  intros H. unfold byte_val, byte_chr. rewrite N_ascii_embedding by lia. lia.
Qed.

(** The number a string of digits stands for, after the digits of [acc]. *)
Fixpoint undec (s : string) (acc : Z) : Z :=
  match s with
  | EmptyString => acc
  | String c r => undec r (acc * 10 + (byte_val c - 48))
  end.

Lemma undec_dec : forall f n s, 0 <= n < 10 ^ Z.of_nat f -> undec (dec_aux f n s) 0 = undec s n.
Proof.
  induction f as [|f IH]; intros n s Hn.
  - cbn in Hn. assert (n = 0) as -> by lia. done.
  - pose proof (Z.mod_pos_bound n 10 ltac:(lia)). cbn [dec_aux]. destruct (n <? 10) eqn:E; breflect.
    + cbn [undec]. rewrite byte_val_chr by lia. f_equal. rewrite Z.mod_small by lia. lia.
    + rewrite IH.
      * cbn [undec]. rewrite byte_val_chr by lia. f_equal. pose proof (Z.div_mod n 10 ltac:(lia)). lia.
      * rewrite Nat2Z.inj_succ, Z.pow_succ_r in Hn by lia. split; [apply Z.div_pos; lia|]. apply Z.div_lt_upper_bound; lia.
Qed.

Lemma enc_int_inj a b : 0 <= a < 10 ^ 25 -> 0 <= b < 10 ^ 25 -> enc_int a = enc_int b -> a = b.
Proof.
  intros Ha Hb. unfold enc_int. replace (a <? 0) with false by lia. replace (b <? 0) with false by lia. intros H.
  pose proof (undec_dec 25 a EmptyString Ha) as H1. pose proof (undec_dec 25 b EmptyString Hb) as H2. cbn [undec] in *. congruence.
Qed.

(** ** Unique keys *)

Definition suffixed (candidate : string) (n : Z) : string := candidate +:+ "#" +:+ enc_int n.

Lemma suffixed_inj c a b : 0 <= a < 10 ^ 25 -> 0 <= b < 10 ^ 25 -> suffixed c a = suffixed c b -> a = b.
Proof. intros Ha Hb H. unfold suffixed in H. apply (inj _) in H. apply (inj _) in H. by apply enc_int_inj. Qed.

(** The search stops at a free key, or all the keys before the last were taken. *)
Lemma free_suffix_search c used : forall f n,
  exists k, (k <= f)%nat /\ free_suffix f n c used = suffixed c (n + Z.of_nat k) /\
    (free_suffix f n c used ∉ used \/ k = f /\ forall i, (i < f)%nat -> suffixed c (n + Z.of_nat i) ∈ used).
Proof.
  induction f as [|f IH]; intros n.
  - exists 0%nat. split; [lia|]. cbn. split; [by rewrite Z.add_0_r|]. right. split; [done|lia].
  - cbn [free_suffix]. case_bool_decide as Hin.
    + destruct (IH (n + 1)) as (k & Hk & He & Hor). exists (S k). split; [lia|].
      replace (n + Z.of_nat (S k)) with (n + 1 + Z.of_nat k) by lia. split; [done|].
      destruct Hor as [?|[-> Hall]]; [by left|]. right. split; [done|]. intros [|i] Hi; [by rewrite Z.add_0_r|].
      replace (n + Z.of_nat (S i)) with (n + 1 + Z.of_nat i) by lia. apply Hall. lia.
    + exists 0%nat. split; [lia|]. split; [by rewrite Z.add_0_r|by left].
Qed.

Lemma free_suffix_fresh c used : Z.of_nat (length used) < 10 ^ 18 -> free_suffix (length used) 2 c used ∉ used.
Proof.
  intros Hlen Hin. destruct (free_suffix_search c used (length used) 2) as (k & _ & He & [Hno|[-> Hall]]); [done|].
  rewrite He in Hin. set (l := map (fun i => suffixed c (2 + Z.of_nat i)) (seq 0 (S (length used)))).
  assert (Hnd : NoDup l).
  { apply NoDup_fmap_2_strong; [|apply NoDup_seq]. intros x y Hx%elem_of_seq Hy%elem_of_seq E.
    apply suffixed_inj in E; lia. }
  assert (Hsub : l ⊆ used).
  { intros x (i & -> & Hi%elem_of_seq)%list_elem_of_fmap. destruct (decide (i = length used)) as [->|Hne]; [done|]. apply Hall. lia. }
  assert (Hl : (length l <= length used)%nat) by (by apply submseteq_length, NoDup_submseteq).
  unfold l in Hl. rewrite length_map, length_seq in Hl. lia.
Qed.

Lemma unique_fresh c used : Z.of_nat (length used) < 10 ^ 18 -> uniqueSanitizedKey c used ∉ used.
Proof. intros H. unfold uniqueSanitizedKey. case_bool_decide; [by apply free_suffix_fresh|done]. Qed.

(** ** Members *)

Lemma obj_set_keys k v m x : x ∈ map fst (obj_set k v m) -> x = k \/ x ∈ map fst m.
Proof.
  induction m as [|[k' v'] m IH]; cbn; [set_solver|]. destruct (k ==? k'); [cbn; set_solver|].
  destruct (sleb k k'); cbn; [set_solver|]. rewrite !elem_of_cons. naive_solver.
Qed.

Lemma obj_set_length k v m : k ∉ map fst m -> length (obj_set k v m) = S (length m).
Proof.
  induction m as [|[k' v'] m IH]; cbn; [done|]. rewrite not_elem_of_cons. intros [Hne Hm].
  rewrite bool_decide_eq_false_2 by done. destruct (sleb k k'); [done|]. cbn. by rewrite IH.
Qed.

Section Redaction.
Context {U : UnicodeTables}.

(** The members of an object, sanitized one after the other: the loop of
    [sanitizeJSONValue]. *)
Fixpoint sanitize_members (depth : nat) (m acc : list (string * json)) (used : list string)
  : result job_err (list (string * json)) :=
  match m with
  | [] => Ok acc
  | (key, x) :: rest =>
      if isSensitiveKey key then
        let candidate := uniqueSanitizedKey redactedKey used in
        sanitize_members depth rest (obj_set candidate (JString redactedValue) acc) (candidate :: used)
      else
        let? x' := sanitizeJSONValue (S depth) x in
        let candidate := uniqueSanitizedKey (ToValidUTF8 (sanitizeText key)) used in
        sanitize_members depth rest (obj_set candidate x' acc) (candidate :: used)
  end.
Fixpoint sanitize_items (depth : nat) (l : list json) : result job_err (list json) :=
  match l with
  | [] => Ok []
  | x :: rest =>
      let? x' := sanitizeJSONValue (S depth) x in
      let? rest' := sanitize_items depth rest in
      Ok (x' :: rest')
  end.

Lemma sanitize_object depth m :
  sanitizeJSONValue depth (JObject m) =
  (reject (maximumPayloadDepth <? depth)%nat with EInternal ;; let? m' := sanitize_members depth m [] [] in Ok (JObject m')).
Proof.
  cbn [sanitizeJSONValue]. destruct (maximumPayloadDepth <? depth)%nat; [done|]. f_equal.
  match goal with |- ?f m [] [] = _ => assert (H : forall m acc used, f m acc used = sanitize_members depth m acc used) end; [|apply H].
  clear m. induction m as [|[k x] m IH]; intros acc used; [done|]. cbn [sanitize_members]. destruct (isSensitiveKey k); [apply IH|].
  destruct (sanitizeJSONValue (S depth) x); [apply IH|done].
Qed.
Lemma sanitize_array depth l :
  sanitizeJSONValue depth (JArray l) =
  (reject (maximumPayloadDepth <? depth)%nat with EInternal ;; let? l' := sanitize_items depth l in Ok (JArray l')).
Proof.
  cbn [sanitizeJSONValue]. destruct (maximumPayloadDepth <? depth)%nat; [done|]. f_equal.
  induction l as [|x l IH]; [done|]. cbn [sanitize_items]. by rewrite IH.
Qed.

Lemma sanitize_members_keep depth : forall m acc used m',
  Z.of_nat (length m + length used) < 10 ^ 18 -> (forall x, x ∈ map fst acc -> x ∈ used) ->
  sanitize_members depth m acc used = Ok m' -> length m' = (length m + length acc)%nat.
Proof.
  induction m as [|[key x] m IH]; intros acc used m' Hlen Hkeys H; cbn [sanitize_members] in H.
  { by simplify_eq. }
  assert (Hstep : forall c v, c ∉ used -> sanitize_members depth m (obj_set c v acc) (c :: used) = Ok m' ->
            length m' = (length ((key, x) :: m) + length acc)%nat).
  { intros c v Hc Hm. apply IH in Hm; [| |].
    - rewrite Hm, obj_set_length; [cbn; lia|]. intros Hin. by apply Hc, Hkeys.
    - cbn in *. lia.
    - intros y [->|Hy]%obj_set_keys; [left|]. right. by apply Hkeys. }
  assert (Hused : Z.of_nat (length used) < 10 ^ 18) by (cbn in Hlen; lia).
  destruct (isSensitiveKey key); [by eapply Hstep, H; apply unique_fresh|]. ok_step H. by eapply Hstep, H; apply unique_fresh.
Qed.

(** The value without what its sensitive keys hold. *)
Fixpoint without_secrets (v : json) : json :=
  match v with
  | JArray l => JArray (map without_secrets l)
  | JObject m =>
      JObject ((fix go (m : list (string * json)) := match m with
        | [] => []
        | (k, x) :: rest => (k, if isSensitiveKey k then JNull else without_secrets x) :: go rest
        end) m)
  | _ => v
  end.

Lemma sanitize_without_secrets v : forall depth, sanitizeJSONValue depth (without_secrets v) = sanitizeJSONValue depth v.
Proof.
  induction v as [|x|x|x|l IH|m IH] using json_ind'; intros depth; try done.
  - cbn [without_secrets]. rewrite !sanitize_array. f_equal.
    assert (Hl : sanitize_items depth (map without_secrets l) = sanitize_items depth l).
    { induction IH as [|x l Hx _ IHl]; [done|]. cbn. by rewrite Hx, IHl. }
    by rewrite Hl.
  - cbn [without_secrets]. rewrite !sanitize_object. f_equal.
    assert (Hm : forall acc used, sanitize_members depth ((fix go (m : list (string * json)) := match m with
        | [] => []
        | (k, x) :: rest => (k, if isSensitiveKey k then JNull else without_secrets x) :: go rest
        end) m) acc used = sanitize_members depth m acc used).
    { induction IH as [|[k x] m Hx _ IHm]; intros acc used; [done|]. cbn [sanitize_members]. cbn [snd] in Hx.
      destruct (isSensitiveKey k); [by apply IHm|]. rewrite Hx. destruct (sanitizeJSONValue (S depth) x); [|done]. cbn. by apply IHm. }
    by rewrite Hm.
Qed.

(** Redaction leaks nothing that is stored under a sensitive key.  Two
    values that differ only in what their sensitive keys hold, at any depth and
    in whatever shape, are sanitized to the same value or refused alike: the
    sanitized value carries nothing of the secret, not even its type. *)
Theorem redaction_hides_secrets (v w : json) (depth : nat) (H : without_secrets v = without_secrets w) :
  sanitizeJSONValue depth v = sanitizeJSONValue depth w.
Proof. by rewrite <- (sanitize_without_secrets v), <- (sanitize_without_secrets w), H. Qed.

(** Redaction loses no member of an object.  Keys that become equal when
    they are sanitized (all sensitive keys become one placeholder) get suffixes
    that are free, so the sanitized object has as many members as the original
    one; the bound on the number of members is far above what a payload of
    [maximumPayloadBytes] can hold. *)
Theorem redaction_keeps_members (m m' : list (string * json)) (depth : nat)
  (Hlen : Z.of_nat (length m) < 10 ^ 18) (H : sanitizeJSONValue depth (JObject m) = Ok (JObject m')) : length m' = length m.
Proof.
  rewrite sanitize_object in H. ok_step H. ok_step H. simplify_eq. rewrite (sanitize_members_keep depth m [] [] m'); [cbn; lia|cbn; lia| |done].
  by intros x Hx.
Qed.
End Redaction.

Definition demo_secret (pin : string) : json :=
  JObject [("api_token", JString pin); ("module", JString "nextcloud");
           ("options", JObject [("Admin-Password", JArray [JString pin]); ("session", JNull)])].

Lemma redaction_hides_secrets_witness :
  demo_secret "1234" <> demo_secret "0000" /\
  sanitizeJSONValue 0 (demo_secret "1234") = sanitizeJSONValue 0 (demo_secret "0000") /\
  is_ok (sanitizeJSONValue 0 (demo_secret "1234")) = true.
Proof.
  split; [discriminate|]. split; [|vm_compute; reflexivity].
  apply (redaction_hides_secrets (demo_secret "1234") (demo_secret "0000") 0). vm_compute. reflexivity.
Defined.

Lemma redaction_keeps_members_witness :
  exists m', sanitizeJSONValue 0 (JObject [("api_token", JNull); ("password", JNull); ("secret", JNull)]) = Ok (JObject m') /\
    map fst m' = ["<redacted-key>"; "<redacted-key>#2"; "<redacted-key>#3"] /\ length m' = 3%nat.
Proof.
  eexists. split; [vm_compute; reflexivity|]. split; [reflexivity|].
  refine (redaction_keeps_members [("api_token", JNull); ("password", JNull); ("secret", JNull)] _ 0 _ _);
    [vm_compute; reflexivity|vm_compute; reflexivity].
Defined.
