(* ===== verification/JobJournalFacts.v ===== *)
(** * Package [internal/consolejobs]: what replaying the journal guarantees

    Inversion lemmas for every kind of record, the invariants of the replayed
    state, and the life of a job in the journal: revisions grow by one,
    immutable fields stay, a terminal job only has its compensation
    acknowledged. *)

From Stdlib Require Import Ascii.
From S2P Require Import Prelude GoText GoJson GoEncoding ActionAbi HostConfirmation JobTypes JobSanitize.
From S2P Require Import JobAction JobJournal JobDemo.

Section Facts.
Context {U : UnicodeTables}.

Lemma present_false {A} (o : option A) : present o = false <-> o = None.
Proof. by destruct o. Qed.
Lemma present_true {A} (o : option A) : present o = true <-> exists a, o = Some a.
Proof. destruct o; cbn; split; try done; [by eexists | by intros [? ?]]. Qed.

(** ** Inversion of an accepted record *)

Lemma state_apply_inv s r s' :
  state_apply s r = Ok s' ->
  exists s1, apply_kind s r = Ok s1 /\ s' = st_with_lastRecordSequence s1 (r_Sequence r) /\
    r_Sequence r = u64_succ (st_lastRecordSequence s) /\ r_Sequence r <> 0 /\ r_RecordedAt r <> 0 /\
    (present (st_snapshot s) = true -> isSnapshotContinuation (r_Kind r) = true) /\
    (r_Kind r <> recordStoreInitialized -> st_initialized s = true).
Proof.
  unfold state_apply. intros H. do 7 ok_step H. simplify_eq. exists a. split; [done|]. split; [done|].
  breflect. split_and!; try congruence; try (destruct_and?; congruence).
  - intros Hp. destruct E3; congruence.
  - intros Hk. by destruct E4 as [E4|[E4 _]].
Qed.

Lemma applyJobCreated_inv s r s' :
  applyJobCreated s r = Ok s' ->
  exists j i, r_Job r = Some j /\ r_Idempotency r = Some i /\ validatePersistedJob j = Ok tt /\
    j_Status j = StatusQueued /\ j_Revision j = 1 /\ (forall a, j_Action j = Some a -> as_LastSeq a = 0) /\
    (forall a p, job_policy j = Some (a, p) ->
       (length (ap_RetryKeys p) <= 1)%nat /\
       Forall (fun b => validateActionKeyAssignment s (as_Name a) b (r_RecordedAt r) = Ok tt) (ap_RetryKeys p)) /\
    st_jobs s !! j_ID j = None /\ validatePersistedIdempotency i j = Ok tt /\ st_idempotency s !! pi_Identity i = None /\
    s' = st_with_idempotency (st_put_job s j) (<[pi_Identity i := i]> (st_idempotency s)).
Proof.
  unfold applyJobCreated. intros H. ok_step H. destruct (r_Job r) as [j|]; [|done]. destruct (r_Idempotency r) as [i|]; [|done].
  ok_path H. subst s'. exists j, i. breflect. rewrite !present_false in *.
  repeat match goal with x : unit |- _ => destruct x end. destruct_and?. split_and!; try done.
  - intros a Ha. rewrite Ha in *. by breflect.
  - intros a p Hp. rewrite Hp in *.
    match goal with X : (if _ then _ else _) = Ok tt |- _ => ok_step X; apply check_all_ok in X; split; [|exact X] end.
    breflect. lia.
Qed.

Lemma applyJobUpdated_inv s r s' :
  applyJobUpdated s r = Ok s' ->
  exists next previous, r_Job r = Some next /\ validatePersistedJob next = Ok tt /\ st_jobs s !! j_ID next = Some previous /\
    j_Revision next = u64_succ (j_Revision previous) /\ sameImmutableJobFields previous next = true /\
    (present (j_Action previous) = true -> validActionJobUpdate previous next = true) /\
    validPersistedJobUpdate previous next = true /\ s' = st_obsolete (st_put_job s next).
Proof.
  unfold applyJobUpdated. intros H. ok_step H. destruct (r_Job r) as [next|]; [|done]. ok_path H. subst s'.
  repeat match goal with x : unit |- _ => destruct x end. exists next, j. breflect. split_and!; try done.
  intros Hp. match goal with X : _ \/ _ |- _ => destruct X; congruence end.
Qed.

Lemma applyEvent_inv s r s' :
  applyEvent s r = Ok s' ->
  exists e j, r_Event r = Some e /\ st_jobs s !! ev_JobID e = Some j /\ j_Action j = None /\ ev_Action e = None /\
    terminal (j_Status j) = false /\ ev_ID e <> 0 /\ ev_ID e = u64_succ (st_lastEventID s) /\ validatePersistedEvent e = Ok tt /\
    s' = st_put_latest (st_with_lastEventID
           (st_put_events s (ev_JobID e) (listat (st_events s) (ev_JobID e) ++ [e])) (ev_ID e)) (ev_JobID e) (ev_ID e).
Proof.
  unfold applyEvent. intros H. ok_step H. destruct (r_Event r) as [e|]; [|done]. ok_path H. subst s'.
  repeat match goal with x : unit |- _ => destruct x end. breflect. rewrite !present_false in *. exists e, j. by destruct_and?.
Qed.

Lemma applyPrune_inv s r s' :
  applyPrune s r = Ok s' ->
  exists p j, r_Prune r = Some p /\ st_jobs s !! ep_JobID p = Some j /\ j_Action j = None /\
    Zat (st_prunedThrough s) (ep_JobID p) < ep_Through p <= Zat (st_latestEventByJob s) (ep_JobID p) /\
    s' = st_obsolete (st_put_pruned
           (st_put_events s (ep_JobID p) (retained_after (listat (st_events s) (ep_JobID p)) (ep_Through p)))
           (ep_JobID p) (ep_Through p)).
Proof.
  unfold applyPrune. intros H. ok_step H. destruct (r_Prune r) as [p|]; [|done]. ok_path H. subst s'.
  breflect. rewrite !present_false in *. exists p, j. destruct_and?. by split_and!.
Qed.

Lemma applyActionEvent_inv s r s' :
  applyActionEvent s r = Ok s' ->
  exists es next previous a stream id lst,
    r_ActionEvents r = Some es /\ (1 <= length es <= 2)%nat /\ r_Job r = Some next /\
    st_jobs s !! j_ID next = Some previous /\ j_Action previous = Some a /\ terminal (j_Status previous) = false /\
    validatePersistedJob next = Ok tt /\
    NewReplayStream (j_ID previous) (as_InvocationID a) (as_LastSeq a) = Ok stream /\
    action_frames (r_RecordedAt r) (j_ID previous) (st_lastEventID s) stream es = Ok id /\
    match r_Prune r with
    | None => exists e, es = [e] /\ frame_type e <> "truncated"
    | Some p => truncation_ok s previous (as_LastSeq a) p es = true
    end /\
    last es ≫= ev_Action = Some lst /\ actionJobAfterEvent previous lst (r_RecordedAt r) = Ok next /\
    s' = (let s1 := match r_Prune r with
                    | Some p => st_put_pruned (st_put_events s (j_ID previous) []) (j_ID previous) (ep_Through p)
                    | None => s
                    end in
          let s2 := st_put_events s1 (j_ID previous) (listat (st_events s1) (j_ID previous) ++ es) in
          st_obsolete (st_put_job (st_put_latest (st_with_lastEventID s2 id) (j_ID previous) id) next)).
Proof.
  unfold applyActionEvent. intros H. do 2 ok_step H. destruct (r_Job r) as [next|]; [|done].
  destruct (st_jobs s !! j_ID next) as [previous|] eqn:Ep; [|done]. destruct (j_Action previous) as [a|] eqn:Ea; [|done].
  do 2 ok_step H. destruct (NewReplayStream _ _ _) as [stream|] eqn:Es; [|done]. ok_step H.
  ok_step H. destruct (last _ ≫= ev_Action) as [lst|] eqn:El; [|done].
  destruct (actionJobAfterEvent previous lst _) as [expected|] eqn:Ee; [|done]. ok_step H. injection H as <-.
  breflect. subst expected. destruct (r_ActionEvents r) as [es|] eqn:Er; [|cbn in *; lia].
  change (default [] (Some es)) with es in *.
  exists es, next, previous, a, stream, a1, lst. repeat match goal with x : unit |- _ => destruct x end.
  split_and!; try done; try lia.
  match goal with X : (match r_Prune r with _ => _ end) = false |- _ => rename X into Xp end.
  destruct (r_Prune r) as [p|]; [by breflect|].
  destruct es as [|e [|? ?]]; try done. exists e. split; [done|]. by breflect.
Qed.

Lemma applyActionKeyBound_inv s r s' :
  applyActionKeyBound s r = Ok s' ->
  exists next previous pa pp b, r_Job r = Some next /\ st_jobs s !! j_ID next = Some previous /\
    job_policy previous = Some (pa, pp) /\ terminal (j_Status previous) = false /\ j_Revision previous <> u64_max /\
    ap_Concurrency pp = ActionCoalesce /\ validatePersistedJob next = Ok tt /\
    validateActionKeyAssignment s (as_Name pa) b (r_RecordedAt r) = Ok tt /\
    next = j_with_Action (j_with_Revision previous (u64_succ (j_Revision previous)))
             (Some (as_with_Policy pa (Some (ap_with_RetryKeys pp (ap_RetryKeys pp ++ [b]))))) /\
    s' = st_obsolete (st_put_job s next).
Proof.
  unfold applyActionKeyBound. intros H. ok_step H. destruct (r_Job r) as [next|]; [|done].
  destruct (st_jobs s !! j_ID next) as [previous|] eqn:Ep; [|done].
  destruct (job_policy previous) as [[pa pp]|] eqn:Epp; [|done]. destruct (job_policy next) as [[na np]|]; [|done].
  do 3 ok_step H. destruct (last (ap_RetryKeys np)) as [b|] eqn:El; [|done]. do 2 ok_step H. injection H as <-.
  exists next, previous, pa, pp, b. breflect. repeat match goal with x : unit |- _ => destruct x end. destruct_and?.
  split_and!; try done.
Qed.

(** ** The life of a job *)

Lemma validatePersistedJob_fields j :
  validatePersistedJob j = Ok tt ->
  status_valid (j_Status j) = true /\ j_CreatedAt j <> 0 /\ j_Revision j <> 0 /\ 0 <= j_Progress j <= 100 /\
  (j_Status j = StatusQueued -> j_StartedAt j = None /\ j_FinishedAt j = None) /\
  (j_Status j = StatusRunning -> j_StartedAt j <> None /\ j_FinishedAt j = None) /\
  (terminal (j_Status j) = true -> j_FinishedAt j <> None) /\ validateActionJob j = Ok tt.
Proof.
  unfold validatePersistedJob. intros H. do 10 ok_step H. breflect. destruct_and?. split_and!; try done; try lia.
  - intros Hs. rewrite Hs in *. breflect. by rewrite !present_false in *.
  - intros Hs. rewrite Hs in *. breflect. rewrite !present_false in *. destruct_and?.
    split; [|done]. match goal with X : present (j_StartedAt j) = true |- _ => apply present_true in X as [? ->] end. done.
  - intros Ht Hn. destruct (j_Status j); cbn in Ht; try done; rewrite Hn in *; done.
Qed.

Definition status_rank (s : Status) : Z :=
  match s with StatusQueued => 0 | StatusRunning => 1 | _ => 2 end.

(** How a job may differ from an earlier version of itself. *)
Definition job_evolves (old new : Job) : Prop :=
  old = new \/
  (j_Revision old < j_Revision new /\ sameImmutableJobFields old new = true /\
   (status_rank (j_Status old) < status_rank (j_Status new) \/ j_Status old = j_Status new) /\
   (terminal (j_Status old) = true ->
      j_NeedsCompensationCheck old = true /\ j_NeedsCompensationCheck new = false /\ acknowledged old new = new)).

Lemma sameImmutable_spec l r :
  sameImmutableJobFields l r = true <->
  j_ID l = j_ID r /\ j_Kind l = j_Kind r /\ j_WorkspaceID l = j_WorkspaceID r /\ j_Mutating l = j_Mutating r /\
  j_CreatedBy l = j_CreatedBy r /\ j_CreatedAt l = j_CreatedAt r /\ j_Request l = j_Request r /\
  sameActionBinding (j_Action l) (j_Action r) = true.
Proof. unfold sameImmutableJobFields. breflect. tauto. Qed.

Lemma sameActionBinding_trans a b c :
  sameActionBinding a b = true -> sameActionBinding b c = true -> sameActionBinding a c = true.
Proof.
  destruct a as [a|], b as [b|], c as [c|]; cbn; try done. breflect. intros (((-> & ->) & ->) & H1) (((-> & ->) & ->) & H2).
  repeat split. destruct (as_Policy a), (as_Policy b), (as_Policy c); cbn in *; try done. breflect.
  destruct H1 as [-> ->], H2 as [-> ->]. done.
Qed.

Lemma sameActionBinding_refl a : sameActionBinding a a = true.
Proof.
  destruct a as [a|]; [|done]. cbn. breflect. repeat split. destruct (as_Policy a); [|done]. cbn. by breflect.
Qed.

Lemma sameImmutable_trans a b c :
  sameImmutableJobFields a b = true -> sameImmutableJobFields b c = true -> sameImmutableJobFields a c = true.
Proof.
  rewrite !sameImmutable_spec. intros H1 H2. destruct_and?. split_and!; try congruence. by eapply sameActionBinding_trans.
Qed.

#[export] Instance job_evolves_preorder : PreOrder job_evolves.
Proof.
  split; [by left|]. intros a b c [->|(H1 & H2 & H3 & H4)]; [done|].
  intros [<-|(G1 & G2 & G3 & G4)]; [by right|]. right. split; [lia|]. split; [by eapply sameImmutable_trans|].
  split; [destruct H3 as [?| ->], G3 as [?| <-]; auto; left; lia|].
  intros Ht. destruct (H4 Ht) as (? & Hn & Hack). exfalso.
  assert (Hs : j_Status b = j_Status a) by (rewrite <- Hack; done). rewrite <- Hs in Ht. destruct (G4 Ht). congruence.
Qed.

Lemma rank_nonterminal s : status_valid s = true -> terminal s = false -> s = StatusQueued \/ s = StatusRunning.
Proof. destruct s; auto; done. Qed.

Lemma update_evolves previous next :
  is_u64 (j_Revision previous) -> j_Revision next <> 0 -> j_Revision next = u64_succ (j_Revision previous) ->
  sameImmutableJobFields previous next = true -> status_valid (j_Status previous) = true ->
  validPersistedJobUpdate previous next = true -> job_evolves previous next.
Proof.
  intros Hu Hn Hr Hi Hv H. right. split; [pose proof (u64_succ_pos (j_Revision previous) Hu); lia|]. split; [done|].
  unfold validPersistedJobUpdate in H. case_bool_decide as Hs.
  - split; [by right|]. intros Ht. case_bool_decide as Hrun; [by rewrite Hrun in Ht|].
    case_match eqn:E; [|done]. breflect. by destruct_and?.
  - case_bool_decide as Hq.
    + rewrite Hq. breflect. split; [left|done]. destruct H as [[->| ->]|H]; [done..|]. destruct_and?.
      match goal with X : j_Status next = StatusFailed |- _ => by rewrite X end.
    + breflect. destruct H as [-> Ht]. split; [left|done]. by destruct (j_Status next).
Qed.

(** What an event changes of its job: not the identity, and a non-terminal
    status only moves forward. *)
Lemma actionJobAfterEvent_inv previous e now next :
  actionJobAfterEvent previous e now = Ok next ->
  exists a, j_Action previous = Some a /\ terminal (j_Status previous) = false /\ ae_JobID e = j_ID previous /\
    ae_InvocationID e = as_InvocationID a /\ ae_Type e <> "truncated" /\ j_Revision previous <> u64_max /\
    j_Revision next = u64_succ (j_Revision previous) /\ sameImmutableJobFields previous next = true /\
    j_Action next = Some (as_after a (ae_Seq e) (actionOutcome e)) /\ j_StartedAt next = j_StartedAt previous /\
    (if actionOutcome e ==? NoOutcome then j_Status next = j_Status previous else terminal (j_Status next) = true).
Proof.
  unfold actionJobAfterEvent. destruct (j_Action previous) as [a|] eqn:Ea; [|done]. intros H. do 3 ok_step H. breflect.
  destruct_and?. exists a.
  assert (Hnext : sameImmutableJobFields previous next = true /\ j_Revision next = u64_succ (j_Revision previous) /\
            j_Action next = Some (as_after a (ae_Seq e) (actionOutcome e)) /\ j_StartedAt next = j_StartedAt previous /\
            (if actionOutcome e ==? NoOutcome then j_Status next = j_Status previous else terminal (j_Status next) = true)).
  { rewrite sameImmutable_spec.
    destruct (actionOutcome e) eqn:Eo; cbn in H; try discriminate H; ok_path H; subst next; cbn; rewrite Ea; split_and!; try done;
      try (apply (sameActionBinding_refl (Some a))). }
  destruct_and?. split_and!; try done.
Qed.

(** ** The jobs of a replayed state *)

Definition job_wf (id : string) (j : Job) : Prop :=
  j_ID j = id /\ validatePersistedJob j = Ok tt /\ is_u64 (j_Revision j).
Definition jobs_wf (s : storeState) : Prop := map_Forall job_wf (st_jobs s).

(** The jobs after a record, and how each of them evolved. *)
Definition jobs_step (r : journalRecord) (s s' : storeState) : Prop :=
  st_jobs s' = st_jobs s \/
  exists j, r_Job r = Some j /\ st_jobs s' = <[j_ID j := j]> (st_jobs s) /\ validatePersistedJob j = Ok tt /\ is_u64 (j_Revision j) /\
    match st_jobs s !! j_ID j with
    | Some old => job_evolves old j
    | None => r_Kind r = recordJobCreated \/ r_Kind r = recordJobSnapshot
    end.

Lemma key_bound_evolves previous pa pp b :
  is_u64 (j_Revision previous) -> j_Revision previous <> u64_max -> terminal (j_Status previous) = false ->
  job_policy previous = Some (pa, pp) ->
  job_evolves previous (j_with_Action (j_with_Revision previous (u64_succ (j_Revision previous)))
    (Some (as_with_Policy pa (Some (ap_with_RetryKeys pp (ap_RetryKeys pp ++ [b])))))).
Proof.
  intros Hu Hm Ht Hp. unfold job_policy in Hp. destruct (j_Action previous) as [a|] eqn:Ea; cbn in Hp; [|done].
  destruct (as_Policy a) as [p|] eqn:Epol; cbn in Hp; [|done]. simplify_eq. right. cbn.
  rewrite u64_succ_small by done. split; [lia|]. split.
  - apply sameImmutable_spec. cbn. split_and!; try done. rewrite Ea. cbn. rewrite Epol. cbn. by breflect.
  - split; [by right|]. congruence.
Qed.

Lemma action_evolves previous e now next :
  is_u64 (j_Revision previous) -> status_valid (j_Status previous) = true ->
  actionJobAfterEvent previous e now = Ok next -> job_evolves previous next.
Proof.
  intros Hu Hv (a & Ha & Ht & _ & _ & _ & Hm & Hr & Hi & _ & _ & Hs)%actionJobAfterEvent_inv. right.
  rewrite Hr, u64_succ_small by done. split; [lia|]. split; [done|]. split; [|congruence].
  case_bool_decide; [by right|]. left. destruct (rank_nonterminal _ Hv Ht) as [-> | ->]; by destruct (j_Status next).
Qed.

(** A record that is not part of a snapshot changes at most one job. *)
Lemma state_apply_jobs_step s r s' :
  jobs_wf s -> (r_Kind r = recordJobSnapshot -> opt_all typed_job (r_Job r) = true) -> state_apply s r = Ok s' -> jobs_step r s s'.
Proof.
  intros Hwf Hty (s1 & Hk & -> & _)%state_apply_inv. unfold jobs_step. cbn [st_jobs st_with_lastRecordSequence].
  unfold apply_kind in Hk. destruct (r_Kind r).
  - left. unfold applyInitialized in Hk. ok_path Hk. by subst.
  - apply applyJobCreated_inv in Hk as (j & i & Hj & _ & Hv & _ & Hr & _ & _ & Hn & _ & _ & ->). right. exists j. cbn.
    rewrite Hn, Hr. split_and!; try done. by left.
  - apply applyJobUpdated_inv in Hk as (j & p & Hj & Hv & Hp & Hr & Hi & _ & Hu & ->). right. exists j. cbn. rewrite Hp.
    destruct (Hwf _ _ Hp) as (Hid & Hvp & Hup). split_and!; try done; [rewrite Hr; apply u64_succ_range|].
    apply update_evolves; try done; [apply (validatePersistedJob_fields j Hv)|apply (validatePersistedJob_fields p Hvp)].
  - apply applyEvent_inv in Hk as (e & j & _ & _ & _ & _ & _ & _ & _ & _ & ->). by left.
  - apply applyActionEvent_inv in Hk as (es & j & p & a & sv & id & lst & _ & _ & Hj & Hp & _ & _ & Hv & _ & _ & _ & _ & Ha & ->).
    right. exists j. destruct (Hwf _ _ Hp) as (Hid & Hvp & Hup). cbn zeta. rewrite Hp.
    split_and!; [done|by destruct (r_Prune r)|done| |by eapply action_evolves, Ha; [|apply (validatePersistedJob_fields p Hvp)]].
    apply actionJobAfterEvent_inv in Ha as (? & ? & ? & ? & ? & ? & ? & -> & ?). apply u64_succ_range.
  - apply applyActionKeyBound_inv in Hk as (j & p & pa & pp & b & Hrj & Hp & Hpol & Ht & Hm & _ & Hv & _ & Hj & ->).
    right. exists j. cbn. rewrite Hp. destruct (Hwf _ _ Hp) as (Hid & Hvp & Hup). split_and!; try done.
    + rewrite Hj. apply u64_succ_range.
    + rewrite Hj. by apply key_bound_evolves.
  - apply applyPrune_inv in Hk as (p & j & _ & _ & _ & _ & ->). by left.
  - unfold applySnapshotBegin in Hk. ok_path Hk. subst. by left.
  - right. unfold applyJobSnapshot in Hk. ok_step Hk. destruct (st_snapshot s) as [sp|]; [|done].
    destruct (r_Job r) as [j|]; [|done]. specialize (Hty eq_refl). ok_path Hk. subst s1. breflect.
    rewrite present_false in *. exists j. cbn.
    match goal with X : st_jobs s !! _ = None |- _ => rewrite X end.
    repeat match goal with x : unit |- _ => destruct x end. split_and!; try done; [|by right].
    cbn in Hty. unfold typed_job, u64b in Hty. breflect. destruct_and?. by split.
  - unfold applyIdempotencySnapshot in Hk. ok_path Hk. subst. by left.
  - unfold applyEventCursor in Hk. ok_path Hk. subst. by left.
  - unfold applyEventSnapshot in Hk. ok_path Hk. subst. by left.
  - unfold applySnapshotEnd in Hk. ok_path Hk. subst. by left.
  - done.
Qed.

Lemma jobs_step_wf r s s' : jobs_wf s -> jobs_step r s s' -> jobs_wf s'.
Proof.
  intros Hwf [Heq|(j & _ & Heq & Hv & Hu & _)]; unfold jobs_wf; rewrite Heq; [done|]. by apply map_Forall_insert_2.
Qed.

Lemma jobs_step_evolves r s s' id old :
  jobs_step r s s' -> st_jobs s !! id = Some old -> exists new, st_jobs s' !! id = Some new /\ job_evolves old new.
Proof.
  intros [Heq|(j & _ & Heq & _ & _ & Hev)] Hold; rewrite Heq; [by exists old|].
  destruct (decide (j_ID j = id)) as [<-|Hne].
  - rewrite Hold in Hev. exists j. by rewrite lookup_insert_eq.
  - exists old. by rewrite lookup_insert_ne.
Qed.

(** C13: no record of the journal rolls a job back.  After any further records
    a job that exists still exists, its immutable fields are the same, its
    revision has not decreased and only equals the old one if nothing changed,
    its status only moves from queued to running to terminal, and a terminal
    job never changes again except that a pending compensation check is
    acknowledged. *)
Theorem journal_never_rolls_back s rs s' id old
    (Hwf : jobs_wf s) (Hty : Forall (fun r => opt_all typed_job (r_Job r) = true) rs)
    (H : result_fold state_apply s rs = Ok s') (Hold : st_jobs s !! id = Some old) :
  exists new, st_jobs s' !! id = Some new /\ job_evolves old new.
Proof.
  revert s old Hwf H Hold. induction Hty as [|r rs Hr _ IH]; intros s old Hwf H Hold; cbn in H.
  - simplify_eq. by exists old.
  - ok_step H. rename a into s1. pose proof (state_apply_jobs_step _ _ _ Hwf (fun _ => Hr) E) as Hstep.
    destruct (jobs_step_evolves _ _ _ _ _ Hstep Hold) as (mid & Hmid & Hev).
    destruct (IH s1 mid) as (new & Hnew & Hev'); [by eapply jobs_step_wf|done..|].
    exists new. split; [done|]. by etrans.
Qed.

Lemma fold_jobs_wf s rs s' :
  Forall (fun r => opt_all typed_job (r_Job r) = true) rs -> jobs_wf s -> result_fold state_apply s rs = Ok s' -> jobs_wf s'.
Proof.
  intros Hty. revert s. induction Hty as [|r rs Hr _ IH]; intros s Hwf H; cbn in H; [by simplify_eq|].
  ok_step H. eapply IH, H. eapply jobs_step_wf, state_apply_jobs_step; eauto.
Qed.

End Facts.

Lemma replayed_wf rs : Forall (fun r => opt_all typed_job (r_Job r) = true) rs -> jobs_wf (replayed rs).
Proof.
  intros Hty. unfold replayed. destruct (result_fold state_apply newStoreState rs) as [s|] eqn:E; [|apply map_Forall_empty].
  eapply fold_jobs_wf, E; [done|apply map_Forall_empty].
Qed.

Lemma demo_created_wf : jobs_wf demo_created.
Proof. apply replayed_wf. repeat constructor. Qed.

Lemma journal_never_rolls_back_witness :
  st_jobs demo_created !! "job_01" = Some demo_queued /\
  exists new, st_jobs demo_final !! "job_01" = Some new /\ job_evolves demo_queued new.
Proof.
  split; [vm_compute; reflexivity|].
  apply (journal_never_rolls_back demo_created demo_later_records demo_final "job_01" demo_queued).
  - exact demo_created_wf.
  - repeat constructor.
  - vm_compute. reflexivity.
  - vm_compute. reflexivity.
Defined.
