(* ===== verification/JobEventsFacts.v ===== *)
(** * Package [internal/consolejobs]: the event log of the journal, proved

    The retained events of every job are strictly ordered, belong to the job
    and lie between the prune watermark and the job's cursor; the invariant
    survives every record, a sealed snapshot included.  Replay pages over such
    a log are consecutive pieces of it. *)

From Stdlib Require Import Ascii.
From S2P Require Import Prelude GoText GoJson GoEncoding ActionAbi HostConfirmation JobTypes JobSanitize.
From S2P Require Import JobAction JobJournal JobCompaction JobReceipts JobStore JobOps JobDemo JobJournalFacts.

(** ** Ordered logs *)

Definition ordered (es : list Event) : Prop := StronglySorted (fun a b => ev_ID a < ev_ID b) es.

Lemma ordered_app a b :
  ordered (a ++ b) <-> ordered a /\ ordered b /\ (forall x y, x ∈ a -> y ∈ b -> ev_ID x < ev_ID y).
Proof.
  unfold ordered. induction a as [|x a IH]; cbn.
  - split; [intros H; split_and!; [constructor|done|]|by intros (_ & H & _)]. intros x y Hx. by apply not_elem_of_nil in Hx.
  - split.
    + intros H. apply StronglySorted_inv in H as [H Hx]. apply IH in H as (Ha & Hb & Hab). rewrite Forall_app in Hx.
      destruct Hx as [Hxa Hxb]. split_and!; [by constructor|done|]. intros u v Hu Hv.
      apply elem_of_cons in Hu as [-> |Hu]; [|by apply Hab]. rewrite Forall_forall in Hxb. by apply Hxb.
    + intros (Ha & Hb & Hab). apply StronglySorted_inv in Ha as [Ha Hx]. constructor.
      * apply IH. split_and!; try done. intros u v Hu Hv. apply Hab; [by apply list_elem_of_further|done].
      * rewrite Forall_app. split; [done|]. apply Forall_forall. intros v Hv. apply Hab; [apply list_elem_of_here|done].
Qed.

(** A watermark cuts an ordered log in two. *)
Lemma ordered_split t es :
  ordered es -> exists a b, es = a ++ b /\ Forall (fun e => ev_ID e <= t) a /\ Forall (fun e => t < ev_ID e) b.
Proof.
  intros H. induction es as [|e es IH]; [by exists [], []|].
  apply StronglySorted_inv in H as [H He]. destruct (decide (ev_ID e <= t)).
  - destruct (IH H) as (a & b & -> & Ha & Hb). exists (e :: a), b. split_and!; [done|by constructor|done].
  - exists [], (e :: es). split_and!; [done|constructor|]. constructor; [lia|].
    eapply Forall_impl; [exact He|]. cbn. intros. lia.
Qed.

(** The binary search of the code finds the cut. *)
Lemma search_split {A} (p : A -> bool) a b :
  Forall (fun x => p x = false) a -> Forall (fun x => p x = true) b ->
  Search (length (a ++ b)) (fun i => match (a ++ b) !! i with Some x => p x | None => false end) = length a.
Proof.
  intros Ha Hb. rewrite Forall_lookup in Ha, Hb. apply Search_spec.
  - rewrite length_app. lia.
  - intros k Hk. rewrite lookup_app_l by done. destruct (lookup_lt_is_Some_2 a k Hk) as [x Hx]. rewrite Hx. eauto.
  - intros k Hk. rewrite length_app in Hk. rewrite lookup_app_r by lia.
    destruct (lookup_lt_is_Some_2 b (k - length a)) as [x Hx]; [lia|]. rewrite Hx. eauto.
Qed.

Lemma filter_all {A} (P : A -> Prop) `{!forall x, Decision (P x)} l : Forall P l -> filter P l = l.
Proof.
  induction 1 as [|x l Hx _ IH]; [done|]. rewrite filter_cons_True by done. by rewrite IH.
Qed.
Lemma filter_none {A} (P : A -> Prop) `{!forall x, Decision (P x)} l : Forall (fun x => ~ P x) l -> filter P l = [].
Proof. induction 1 as [|x l Hx _ IH]; [done|]. by rewrite filter_cons_False. Qed.

Lemma filter_split t a b :
  Forall (fun e => ev_ID e <= t) a -> Forall (fun e => t < ev_ID e) b -> filter (fun e => t < ev_ID e) (a ++ b) = b.
Proof.
  intros Ha Hb. rewrite filter_app, (filter_all _ b), (filter_none _ a); [done| |done].
  eapply Forall_impl; [exact Ha|]. cbn. lia.
Qed.

(** Seeking in an ordered log is filtering. *)
Lemma search_after es t :
  ordered es ->
  drop (Search (length es) (fun i => match es !! i with Some e => t <? ev_ID e | None => false end)) es =
  filter (fun e => t < ev_ID e) es.
Proof.
  intros H. destruct (ordered_split t es H) as (a & b & -> & Ha & Hb).
  rewrite (search_split (fun e => t <? ev_ID e)), drop_app_length, filter_split; try done;
    (eapply Forall_impl; [eassumption|]); intros e He; cbn in He.
  - by apply Z.ltb_ge.
  - by apply Z.ltb_lt.
Qed.

(** ** The log of one job *)

(** The retained events [es] of job [id], its prune watermark and its cursor,
    when no event has an ID above [bound]. *)
Record log_ok (bound : Z) (id : string) (es : list Event) (pruned latest : Z) : Prop := {
  lo_watermarks : 0 <= pruned <= latest /\ latest <= bound;
  lo_ordered : ordered es;
  lo_events : Forall (fun e => ev_JobID e = id /\ pruned < ev_ID e <= latest) es
}.

(** The log ends at its cursor. *)
Definition log_complete (es : list Event) (pruned latest : Z) : Prop :=
  match last es with None => pruned = latest | Some e => ev_ID e = latest end.

Lemma log_ok_weaken bound bound' id es p l : bound <= bound' -> log_ok bound id es p l -> log_ok bound' id es p l.
Proof. intros Hb [H1 H2 H3]. split; [lia|done|done]. Qed.

Lemma log_ok_empty bound id : 0 <= bound -> log_ok bound id [] 0 0.
Proof. intros. split; [lia|constructor|constructor]. Qed.

Lemma log_ok_append bound bound' id es p l e :
  log_ok bound id es p l -> l < ev_ID e <= bound' -> ev_JobID e = id -> log_ok bound' id (es ++ [e]) p (ev_ID e).
Proof.
  intros [H1 H2 H3] He Hid. rewrite Forall_forall in H3. split; [lia| |].
  - apply ordered_app. split_and!; [done|repeat constructor|]. intros x y Hx Hy. apply list_elem_of_singleton in Hy as ->.
    destruct (H3 _ Hx). lia.
  - apply Forall_app. split; [|constructor; [split; [done|lia]|constructor]]. apply Forall_forall. intros x Hx. destruct (H3 _ Hx).
    split; [done|lia].
Qed.

Lemma log_complete_append es p e : log_complete (es ++ [e]) p (ev_ID e).
Proof. unfold log_complete. by rewrite last_snoc. Qed.

(** Pruning keeps exactly the events after the new watermark. *)
Lemma retained_after_filter es t : ordered es -> retained_after es t = filter (fun e => t < ev_ID e) es.
Proof. apply search_after. Qed.

Lemma log_ok_prune bound id es p l t :
  log_ok bound id es p l -> p < t <= l -> log_ok bound id (retained_after es t) t l.
Proof.
  intros [H1 H2 H3] Ht. rewrite retained_after_filter by done. destruct (ordered_split t es H2) as (a & b & -> & Ha & Hb).
  rewrite filter_split by done. split; [lia| |].
  - by apply ordered_app in H2 as (_ & ? & _).
  - rewrite Forall_app in H3. destruct H3 as [_ H3]. rewrite Forall_forall in H3, Hb. apply Forall_forall. intros x Hx.
    destruct (H3 _ Hx). specialize (Hb _ Hx). cbn in Hb. split; [done|lia].
Qed.

Lemma log_complete_prune bound id es p l t :
  log_ok bound id es p l -> p < t <= l -> log_complete es p l -> log_complete (retained_after es t) t l.
Proof.
  intros [H1 H2 H3] Ht Hc. rewrite retained_after_filter by done. destruct (ordered_split t es H2) as (a & b & -> & Ha & Hb).
  rewrite filter_split by done. unfold log_complete in *. rewrite last_app in Hc. destruct (last b); [done|].
  destruct (last a) eqn:E; [|lia]. rewrite Forall_forall in Ha. apply last_Some_elem_of, Ha in E. lia.
Qed.

(** ** The invariant of a replayed state *)

(** The log of a job: its retained events, prune watermark and cursor. *)
Definition log_of (s : storeState) (id : string) : list Event * Z * Z :=
  (listat (st_events s) id, Zat (st_prunedThrough s) id, Zat (st_latestEventByJob s) id).

(** Reading the log of a job after an update of the state. *)
Ltac log_simpl :=
  unfold log_of, st_put_latest, st_put_pruned, st_put_events, st_obsolete, st_put_job; cbn;
  repeat first [rewrite Zat_insert_eq | rewrite @listat_insert_eq | rewrite Zat_insert_ne by done
               | rewrite @listat_insert_ne by done].

Section Events.
Context {U : UnicodeTables}.

(** No event has a higher ID: while a snapshot is read the bound is the one it
    declares. *)
Definition event_bound (s : storeState) : Z :=
  match st_snapshot s with Some sp => sb_LastEventID (sp_boundary sp) | None => st_lastEventID s end.

Definition phase_ok (s : storeState) : Prop :=
  match st_snapshot s with
  | Some sp =>
      is_u64 (sb_LastEventID (sp_boundary sp)) /\
      (forall id, Forall (fun e => ev_ID e <= sp_lastRetainedEventID sp) (listat (st_events s) id)) /\
      (forall id, id ∉ sp_cursors sp -> listat (st_events s) id = [])
  | None =>
      (forall id, log_complete (listat (st_events s) id) (Zat (st_prunedThrough s) id) (Zat (st_latestEventByJob s) id)) /\
      (st_lastEventID s = 0 \/ exists id, Zat (st_latestEventByJob s) id = st_lastEventID s)
  end.

Record events_inv (s : storeState) : Prop := {
  ei_range : is_u64 (st_lastEventID s);
  ei_absent : forall id, st_jobs s !! id = None -> log_of s id = ([], 0, 0);
  ei_logs : forall id, log_ok (event_bound s) id (listat (st_events s) id) (Zat (st_prunedThrough s) id)
                         (Zat (st_latestEventByJob s) id);
  ei_phase : phase_ok s
}.

Lemma events_inv_init : events_inv newStoreState.
Proof.
  split; [by unfold is_u64| | |].
  - intros id _. unfold log_of, listat, Zat. cbn. by rewrite !lookup_empty.
  - intros id. unfold listat, Zat. cbn. rewrite !lookup_empty. by apply log_ok_empty.
  - split; [|by left]. intros id. unfold listat, Zat. cbn. by rewrite !lookup_empty.
Qed.

(** A record that leaves the logs alone and drops no job keeps the invariant. *)
Lemma events_inv_frame s s' :
  events_inv s -> (forall id, st_jobs s' !! id = None -> st_jobs s !! id = None) ->
  st_events s' = st_events s -> st_prunedThrough s' = st_prunedThrough s ->
  st_latestEventByJob s' = st_latestEventByJob s -> st_lastEventID s' = st_lastEventID s ->
  match st_snapshot s, st_snapshot s' with
  | Some a, Some b => sp_boundary a = sp_boundary b /\ sp_lastRetainedEventID a = sp_lastRetainedEventID b /\
                      sp_cursors a = sp_cursors b
  | None, None => True
  | _, _ => False
  end -> events_inv s'.
Proof.
  intros [H1 H2 H3 H4] Hj He Hp Hl Hi Hs.
  assert (Hb : event_bound s' = event_bound s).
  { unfold event_bound. destruct (st_snapshot s), (st_snapshot s'); try done. by destruct Hs as (-> & _). }
  split.
  - by rewrite Hi.
  - intros id Hid. specialize (H2 id (Hj id Hid)). unfold log_of in *. by rewrite He, Hp, Hl.
  - intros id. by rewrite He, Hp, Hl, Hb.
  - unfold phase_ok in *. rewrite He, Hp, Hl, Hi. destruct (st_snapshot s), (st_snapshot s'); try done.
    destruct Hs as (<- & <- & <-). done.
Qed.

(** Outside a snapshot, a record that replaces the log of one job [k]. *)
Lemma events_inv_put s s' k es p l :
  events_inv s -> st_snapshot s = None -> st_snapshot s' = None ->
  (forall id, st_jobs s' !! id = None -> st_jobs s !! id = None /\ id <> k) ->
  log_of s' k = (es, p, l) -> (forall id, id <> k -> log_of s' id = log_of s id) ->
  st_lastEventID s <= st_lastEventID s' <= u64_max ->
  log_ok (st_lastEventID s') k es p l -> log_complete es p l ->
  (st_lastEventID s' = st_lastEventID s /\ l = Zat (st_latestEventByJob s) k) \/ l = st_lastEventID s' ->
  events_inv s'.
Proof.
  intros [H1 H2 H3 H4] Hs Hs' Hj Hk Hne Hi Hlog Hc Hl. unfold is_u64, event_bound, phase_ok in *. rewrite Hs in H3, H4.
  destruct H4 as [H4 H5].
  split.
  - unfold is_u64. lia.
  - intros id Hid. destruct (Hj id Hid) as [? ?]. rewrite Hne by done. by apply H2.
  - intros id. unfold event_bound. rewrite Hs'. destruct (decide (id = k)) as [->|Hid]; [by injection Hk as -> -> ->|].
    specialize (Hne id Hid). injection Hne as -> -> ->. eapply log_ok_weaken, H3. lia.
  - unfold phase_ok. rewrite Hs'. split.
    + intros id. destruct (decide (id = k)) as [->|Hid]; [by injection Hk as -> -> ->|].
      specialize (Hne id Hid). injection Hne as -> -> ->. apply H4.
    + injection Hk as Hke Hkp Hkl. destruct Hl as [[-> Hl]|Hl]; [|right; exists k; congruence].
      destruct H5 as [H5|[id H5]]; [by left|]. right. exists id. destruct (decide (id = k)) as [->|Hid]; [congruence|].
      specialize (Hne id Hid). injection Hne as _ _ Hn. congruence.
Qed.

Lemma put_job_none s j id : (<[j_ID j := j]> (st_jobs s)) !! id = None -> st_jobs s !! id = None /\ id <> j_ID j.
Proof.
  destruct (decide (j_ID j = id)) as [<-|Hne]; [by rewrite lookup_insert_eq|rewrite lookup_insert_ne by done]. auto.
Qed.

Lemma applyEvent_inv_events s r s' :
  events_inv s -> st_snapshot s = None -> applyEvent s r = Ok s' -> events_inv s'.
Proof.
  intros H Hs (e & j & _ & Hj & _ & _ & _ & Hn & Hid & _ & ->)%applyEvent_inv.
  pose proof (ei_range _ H) as Hu. pose proof (ei_logs _ H (ev_JobID e)) as Hlog. unfold event_bound in Hlog. rewrite Hs in Hlog.
  assert (Hid' : ev_ID e = st_lastEventID s + 1) by (rewrite Hid in *; by apply u64_succ_pos).
  assert (ev_ID e <= u64_max) by (rewrite Hid; apply u64_succ_range).
  apply (events_inv_put s _ (ev_JobID e) (listat (st_events s) (ev_JobID e) ++ [e]) (Zat (st_prunedThrough s) (ev_JobID e))
           (ev_ID e)); try done.
  - cbn. intros id Hnone. split; [done|congruence].
  - by log_simpl.
  - intros id Hne. by log_simpl.
  - cbn. lia.
  - cbn. eapply log_ok_append; [exact Hlog| |done]. pose proof (lo_watermarks _ _ _ _ _ Hlog). lia.
  - apply log_complete_append.
  - by right.
Qed.

Lemma applyPrune_inv_events s r s' :
  events_inv s -> st_snapshot s = None -> applyPrune s r = Ok s' -> events_inv s'.
Proof.
  intros H Hs (p & j & _ & Hj & _ & Ht & ->)%applyPrune_inv.
  pose proof (ei_range _ H) as Hu. pose proof (ei_logs _ H (ep_JobID p)) as Hlog. unfold event_bound in Hlog. rewrite Hs in Hlog.
  apply (events_inv_put s _ (ep_JobID p) (retained_after (listat (st_events s) (ep_JobID p)) (ep_Through p)) (ep_Through p)
           (Zat (st_latestEventByJob s) (ep_JobID p))); try done.
  - cbn. intros id Hnone. split; [done|congruence].
  - by log_simpl.
  - intros id Hne. by log_simpl.
  - cbn. unfold is_u64 in Hu. lia.
  - by eapply log_ok_prune.
  - eapply log_complete_prune; [done|done|]. pose proof (ei_phase _ H) as Hp. unfold phase_ok in Hp. rewrite Hs in Hp. apply Hp.
  - by left.
Qed.

(** The frames of an action record are numbered consecutively. *)
Lemma action_frames_log at_ jobID : forall es id sv id' p l log,
  action_frames at_ jobID id sv es = Ok id' -> is_u64 id -> log_ok id jobID log p l -> es <> [] ->
  is_u64 id' /\ id < id' /\ log_ok id' jobID (log ++ es) p id' /\ log_complete (log ++ es) p id'.
Proof.
  induction es as [|e es IH]; intros id sv id' p l log H Hu Hlog Hne; [done|]. cbn in H. ok_step H.
  destruct (ev_Action e) as [f|]; [|done]. ok_step H. destruct (stream_accept sv f) as [sv' [[]|]]; [|done].
  breflect. destruct_and?. 
  assert (Hid : ev_ID e = id + 1) by (match goal with X : ev_ID e = _ |- _ => rewrite X end; by apply u64_succ_small).
  assert (Hu' : is_u64 (ev_ID e)) by (match goal with X : ev_ID e = u64_succ _ |- _ => rewrite X end; apply u64_succ_range).
  assert (Hlog' : log_ok (ev_ID e) jobID (log ++ [e]) p (ev_ID e)).
  { eapply log_ok_append; [exact Hlog| |done]. pose proof (lo_watermarks _ _ _ _ _ Hlog). lia. }
  destruct es as [|e2 es].
  - cbn in H. simplify_eq. split_and!; [done|lia|done|apply log_complete_append].
  - destruct (IH _ _ _ _ _ (log ++ [e]) H Hu' Hlog') as (G1 & G2 & G3 & G4); [done|].
    rewrite <- app_assoc in G3, G4. split_and!; try done. lia.
Qed.

(** The log that a truncation leaves behind. *)
Lemma log_ok_truncated bound id es p l t :
  log_ok bound id es p l -> p < t -> t = l -> log_ok bound id [] t l.
Proof. intros [H1 H2 H3] Hp ->. split; [lia|constructor|constructor]. Qed.

Lemma truncation_ok_inv s previous lastSeq p es :
  truncation_ok s previous lastSeq p es = true ->
  ep_JobID p = j_ID previous /\ ep_Through p = Zat (st_latestEventByJob s) (j_ID previous) /\
  Zat (st_prunedThrough s) (j_ID previous) < ep_Through p.
Proof.
  unfold truncation_ok. destruct es as [|e [|? [|? ?]]]; try done. destruct (ev_Action e); [|done]. intros H. breflect.
  destruct_and?. split_and!; try done.
Qed.

Lemma applyActionEvent_inv_events s r s' :
  jobs_wf s -> events_inv s -> st_snapshot s = None -> applyActionEvent s r = Ok s' -> events_inv s'.
Proof.
  intros Hwf H Hs (es & next & prev & a & sv & id' & lst & _ & Hlen & _ & Hp & _ & _ & _ & _ & Hf & Hpr & _ & Ha & ->)%applyActionEvent_inv.
  assert (Hnext : j_ID next = j_ID prev) by (destruct (Hwf _ _ Hp) as [? _]; congruence).
  pose proof (ei_range _ H) as Hu. pose proof (ei_logs _ H (j_ID prev)) as Hlog. unfold event_bound in Hlog. rewrite Hs in Hlog.
  set (log := match r_Prune r with Some _ => [] | None => listat (st_events s) (j_ID prev) end).
  set (pr := match r_Prune r with Some p => ep_Through p | None => Zat (st_prunedThrough s) (j_ID prev) end).
  assert (Hlog' : log_ok (st_lastEventID s) (j_ID prev) log pr (Zat (st_latestEventByJob s) (j_ID prev))).
  { unfold log, pr. destruct (r_Prune r) as [p|]; [|done]. apply truncation_ok_inv in Hpr as (_ & Ht & Hlt).
    eapply log_ok_truncated; [exact Hlog|exact Hlt|exact Ht]. }
  destruct (action_frames_log _ _ _ _ _ _ _ _ _ Hf Hu Hlog') as (G1 & G2 & G3 & G4); [by destruct es; cbn in Hlen; [lia|]|].
  apply (events_inv_put s _ (j_ID prev) (log ++ es) pr id'); try done.
  - destruct (r_Prune r); done.
  - intros id. destruct (r_Prune r); cbn; intros [? ?]%put_job_none; by rewrite <- Hnext.
  - unfold log, pr. destruct (r_Prune r); by log_simpl.
  - intros id Hne. destruct (r_Prune r); by log_simpl.
  - destruct (r_Prune r); cbn; unfold is_u64 in *; lia.
  - right. by destruct (r_Prune r).
Qed.

(** ** Snapshot records *)

Lemma applySnapshotBegin_inv s r s' :
  applySnapshotBegin s r = Ok s' ->
  exists b d, r_Snapshot r = Some b /\ st_snapshot s = None /\ st_jobs s = ∅ /\
    s' = st_with_snapshot s (Some (mkProgressState b 0 0 0 0 d ∅ ∅)).
Proof.
  unfold applySnapshotBegin. intros H. ok_step H. destruct (r_Snapshot r) as [b|]; [|done]. ok_path H. subst s'.
  breflect. destruct_and?. exists b, a. rewrite present_false in *. split_and!; try done. apply map_size_empty_iff.
  by apply Nat.eqb_eq.
Qed.

Lemma applyEventCursor_inv s r s' :
  applyEventCursor s r = Ok s' ->
  exists sp c d, st_snapshot s = Some sp /\ r_Cursor r = Some c /\ st_jobs s !! ec_JobID c <> None /\
    ec_JobID c ∉ sp_cursors sp /\ ec_PrunedThrough c <= ec_LatestEventID c <= sb_LastEventID (sp_boundary sp) /\
    s' = st_with_snapshot
           (st_put_latest (st_put_pruned s (ec_JobID c) (ec_PrunedThrough c)) (ec_JobID c) (ec_LatestEventID c))
           (Some (mkProgressState (sp_boundary sp) (sp_jobCount sp) (sp_idempotencyCount sp) (sp_eventCount sp)
                    (sp_lastRetainedEventID sp) d ({[ec_JobID c]} ∪ sp_cursors sp) (sp_idempotencyJobs sp))).
Proof.
  unfold applyEventCursor. intros H. ok_step H. destruct (st_snapshot s) as [sp|]; [|done].
  destruct (r_Cursor r) as [c|]; [|done]. ok_path H. subst s'. breflect. destruct_and?. exists sp, c, a.
  rewrite present_true in *. split_and!; try done; try lia. by destruct E0 as [? ->].
Qed.

Lemma applyEventSnapshot_inv s r s' :
  applyEventSnapshot s r = Ok s' ->
  exists sp e d, st_snapshot s = Some sp /\ r_Event r = Some e /\ st_jobs s !! ev_JobID e <> None /\
    ev_JobID e ∈ sp_cursors sp /\ sp_lastRetainedEventID sp < ev_ID e <= sb_LastEventID (sp_boundary sp) /\
    Zat (st_prunedThrough s) (ev_JobID e) < ev_ID e <= Zat (st_latestEventByJob s) (ev_JobID e) /\
    validatePersistedEvent e = Ok tt /\
    s' = st_with_snapshot (st_put_events s (ev_JobID e) (listat (st_events s) (ev_JobID e) ++ [e]))
           (Some (mkProgressState (sp_boundary sp) (sp_jobCount sp) (sp_idempotencyCount sp) (u64_succ (sp_eventCount sp))
                    (ev_ID e) d (sp_cursors sp) (sp_idempotencyJobs sp))).
Proof.
  unfold applyEventSnapshot. intros H. ok_step H. destruct (st_snapshot s) as [sp|]; [|done].
  destruct (r_Event r) as [e|]; [|done]. ok_path H. subst s'. breflect. destruct_and?.
  repeat match goal with x : unit |- _ => destruct x end. eexists sp, e, _.
  rewrite present_true in *. split_and!; try done; try lia. by destruct E0 as [? ->].
Qed.

Lemma applySnapshotEnd_inv s r s' :
  applySnapshotEnd s r = Ok s' ->
  exists sp, st_snapshot s = Some sp /\ forallb (fun kv => cursor_complete s (fst kv)) (map_to_list (st_jobs s)) = true /\
    latest_global s = sb_LastEventID (sp_boundary sp) /\ validateActionHistory s = Ok tt /\
    s' = mkState (st_initialized s) true false 0 (st_storeID s) (sb_Generation (sp_boundary sp)) (st_lastRecordSequence s)
            (sb_LastEventID (sp_boundary sp)) (st_jobs s) (st_idempotency s) (st_events s) (st_prunedThrough s)
            (st_latestEventByJob s) None.
Proof.
  unfold applySnapshotEnd. intros H. ok_step H. destruct (st_snapshot s) as [sp|]; [|done].
  destruct (r_Snapshot r) as [c|]; [|done]. ok_path H. subst s'. breflect. destruct_and?.
  repeat match goal with x : unit |- _ => destruct x end. exists sp. split_and!; try done.
Qed.

Lemma begin_inv_events s r s' :
  opt_all (fun b => u64b (sb_LastEventID b)) (r_Snapshot r) = true ->
  events_inv s -> applySnapshotBegin s r = Ok s' -> events_inv s'.
Proof.
  intros Hty H (b & d & Hb & Hs & Hj & ->)%applySnapshotBegin_inv. rewrite Hb in Hty. cbn in Hty.
  assert (Hu : is_u64 (sb_LastEventID b)) by (unfold u64b in Hty; breflect; exact Hty).
  assert (Hempty : forall id, log_of s id = ([], 0, 0)) by (intros id; apply (ei_absent _ H); by rewrite Hj).
  split; cbn.
  - apply (ei_range _ H).
  - intros id _. apply Hempty.
  - intros id. specialize (Hempty id). injection Hempty as -> -> ->. apply log_ok_empty. cbn. unfold is_u64 in Hu. lia.
  - unfold phase_ok. cbn. split_and!; [done| |]; intros id; specialize (Hempty id); injection Hempty as -> _ _;
      [constructor|done].
Qed.

Lemma cursor_inv_events s r s' :
  opt_all (fun c => u64b (ec_PrunedThrough c)) (r_Cursor r) = true ->
  events_inv s -> applyEventCursor s r = Ok s' -> events_inv s'.
Proof.
  intros Hty [H1 H2 H3 H4] (sp & c & d & Hs & Hc & Hj & Hn & Hle & ->)%applyEventCursor_inv. rewrite Hc in Hty. cbn in Hty.
  assert (Hu : is_u64 (ec_PrunedThrough c)) by (unfold u64b in Hty; breflect; exact Hty).
  unfold phase_ok, event_bound in *. rewrite Hs in *. destruct H4 as (G1 & G2 & G3).
  split; [done| | |].
  - intros id Hid. cbn in Hid. assert (id <> ec_JobID c) by congruence. log_simpl. by apply H2.
  - intros id. unfold event_bound. cbn [st_snapshot st_with_snapshot sp_boundary].
    destruct (decide (id = ec_JobID c)) as [->|Hne].
    + log_simpl. rewrite (G3 _ Hn). split; [unfold is_u64 in Hu; lia|constructor|constructor].
    + log_simpl. apply H3.
  - unfold phase_ok. cbn. split_and!; [done|done|]. intros id Hid. apply G3. set_solver.
Qed.

Lemma event_state_inv_events s r s' : events_inv s -> applyEventSnapshot s r = Ok s' -> events_inv s'.
Proof.
  intros [H1 H2 H3 H4] (sp & e & d & Hs & _ & Hj & Hin & Hret & Hle & _ & ->)%applyEventSnapshot_inv.
  unfold phase_ok, event_bound in *. rewrite Hs in *. destruct H4 as (G1 & G2 & G3).
  split; [done| | |].
  - intros id Hid. cbn in Hid. assert (id <> ev_JobID e) by congruence. log_simpl. by apply H2.
  - intros id. unfold event_bound. cbn [st_snapshot st_with_snapshot sp_boundary].
    destruct (decide (id = ev_JobID e)) as [->|Hne]; [|log_simpl; apply H3].
    log_simpl. destruct (H3 (ev_JobID e)) as [K1 K2 K3]. specialize (G2 (ev_JobID e)). rewrite Forall_forall in G2.
    split; [done| |].
    + apply ordered_app. split_and!; [done|repeat constructor|]. intros x y Hx ->%list_elem_of_singleton.
      specialize (G2 _ Hx). cbn in G2. lia.
    + apply Forall_app. split; [done|]. constructor; [by split|constructor].
  - unfold phase_ok. cbn. split_and!; [done| |].
    + intros id. destruct (decide (id = ev_JobID e)) as [->|Hne]; log_simpl; [apply Forall_app; split|];
        [|constructor; [lia|constructor]|]; (eapply Forall_impl; [apply G2|]); cbn; lia.
    + intros id Hid. assert (id <> ev_JobID e) by congruence. log_simpl. by apply G3.
Qed.

Lemma cursor_complete_log s id :
  0 <= Zat (st_prunedThrough s) id <= Zat (st_latestEventByJob s) id -> cursor_complete s id = true ->
  log_complete (listat (st_events s) id) (Zat (st_prunedThrough s) id) (Zat (st_latestEventByJob s) id).
Proof.
  unfold cursor_complete, log_complete. intros Hp H. destruct (last _); breflect; [done|]. destruct H; lia.
Qed.

(** The highest cursor is the cursor of some job, or 0. *)
Lemma latest_global_attained s :
  latest_global s = 0 \/ exists id, Zat (st_latestEventByJob s) id = latest_global s.
Proof.
  unfold latest_global. induction (map_to_list (st_jobs s)) as [|[k v] l IH]; cbn; [by left|].
  destruct (Z.max_spec (Zat (st_latestEventByJob s) k)
     (fold_right (fun kv acc => Z.max (Zat (st_latestEventByJob s) (fst kv)) acc) 0 l)) as [[_ ->]|[_ ->]]; [done|eauto].
Qed.

Lemma end_inv_events s r s' : events_inv s -> applySnapshotEnd s r = Ok s' -> events_inv s'.
Proof.
  intros [H1 H2 H3 H4] (sp & Hs & Hc & Hg & _ & ->)%applySnapshotEnd_inv.
  unfold phase_ok, event_bound in *. rewrite Hs in *. destruct H4 as (G1 & G2 & G3).
  split; [done|done|done|]. unfold phase_ok. cbn. split.
  - intros id. destruct (st_jobs s !! id) as [j|] eqn:Ej.
    + apply cursor_complete_log; [apply (H3 id)|]. rewrite forallb_forall in Hc. apply (Hc (id, j)).
      apply list_elem_of_In, elem_of_map_to_list, Ej.
    + specialize (H2 id Ej). by injection H2 as -> -> ->.
  - rewrite <- Hg. apply latest_global_attained.
Qed.

(** ** Every record, every journal *)

Definition state_inv (s : storeState) : Prop := jobs_wf s /\ events_inv s.

Lemma jobs_step_none r s s' id : jobs_step r s s' -> st_jobs s' !! id = None -> st_jobs s !! id = None.
Proof.
  intros [-> |(j & _ & -> & _)]; [done|]. intros [? _]%put_job_none. done.
Qed.

Lemma applyJobSnapshot_frame s r s' : events_inv s -> jobs_step r s s' -> applyJobSnapshot s r = Ok s' -> events_inv s'.
Proof.
  intros H Hstep. unfold applyJobSnapshot. intros Hk. ok_step Hk. destruct (st_snapshot s) as [sp|] eqn:Hs; [|done].
  destruct (r_Job r) as [j|]; [|done]. ok_path Hk. subst s'. eapply events_inv_frame; try done.
  - intros id. by eapply jobs_step_none.
  - cbn. by rewrite Hs.
Qed.

Lemma applyIdempotencySnapshot_frame s r s' : events_inv s -> applyIdempotencySnapshot s r = Ok s' -> events_inv s'.
Proof.
  intros H. unfold applyIdempotencySnapshot. intros Hk. ok_step Hk. destruct (st_snapshot s) as [sp|] eqn:Hs; [|done].
  destruct (r_Idempotency r) as [i|]; [|done]. destruct (st_jobs s !! pi_JobID i); [|done]. ok_path Hk. subst s'.
  eapply events_inv_frame; try done. cbn. by rewrite Hs.
Qed.

Lemma applyInitialized_frame s r s' : events_inv s -> applyInitialized s r = Ok s' -> events_inv s'.
Proof.
  intros H. unfold applyInitialized. intros Hk. ok_path Hk. subst s'. eapply events_inv_frame; try done. cbn.
  by destruct (st_snapshot s).
Qed.

Lemma put_job_frame s j i : events_inv s -> st_snapshot s = None -> events_inv (st_with_idempotency (st_put_job s j) i).
Proof.
  intros H Hs. eapply events_inv_frame; try done; [|cbn; by rewrite Hs]. cbn. by intros id [? _]%put_job_none.
Qed.
Lemma obsolete_job_frame s j : events_inv s -> st_snapshot s = None -> events_inv (st_obsolete (st_put_job s j)).
Proof.
  intros H Hs. eapply events_inv_frame; try done; [|cbn; by rewrite Hs]. cbn. by intros id [? _]%put_job_none.
Qed.

(** The numbers of a record fit their fields. *)
Definition numbers_fit (r : journalRecord) : Prop :=
  opt_all typed_job (r_Job r) = true /\ opt_all (fun c => u64b (ec_PrunedThrough c)) (r_Cursor r) = true /\
  opt_all (fun b => u64b (sb_LastEventID b)) (r_Snapshot r) = true.

Lemma opt_all_impl {A} (f g : A -> bool) o : (forall a, f a = true -> g a = true) -> opt_all f o = true -> opt_all g o = true.
Proof. destruct o; cbn; auto. Qed.

Lemma typed_numbers r : typed r = true -> numbers_fit r.
Proof.
  unfold typed, numbers_fit. intros H. rewrite !andb_true_iff in H. destruct_and!. split_and!; [done|..];
    (eapply opt_all_impl; [|eassumption]); intros a Ha; cbn in Ha; rewrite !andb_true_iff in Ha; by destruct_and!.
Qed.

Lemma apply_kind_events s r s' :
  jobs_wf s -> events_inv s -> numbers_fit r -> jobs_step r s s' -> apply_kind s r = Ok s' ->
  (present (st_snapshot s) = true -> isSnapshotContinuation (r_Kind r) = true) -> events_inv s'.
Proof.
  intros Hwf H (_ & Hc & Hb) Hstep Hk Hcont.
  assert (Hnone : isSnapshotContinuation (r_Kind r) = false -> st_snapshot s = None).
  { intros Hf. destruct (st_snapshot s); [|done]. rewrite Hcont in Hf; done. }
  unfold apply_kind in Hk. destruct (r_Kind r) eqn:Er; cbn in Hnone.
  - by eapply applyInitialized_frame.
  - apply applyJobCreated_inv in Hk as (j & i & _ & _ & _ & _ & _ & _ & _ & _ & _ & _ & ->). apply put_job_frame; auto.
  - apply applyJobUpdated_inv in Hk as (j & p & _ & _ & _ & _ & _ & _ & _ & ->). apply obsolete_job_frame; auto.
  - eapply applyEvent_inv_events; eauto.
  - eapply applyActionEvent_inv_events; eauto.
  - apply applyActionKeyBound_inv in Hk as (j & p & pa & pp & b & _ & _ & _ & _ & _ & _ & _ & _ & _ & ->).
    apply obsolete_job_frame; auto.
  - eapply applyPrune_inv_events; eauto.
  - by eapply begin_inv_events.
  - by eapply applyJobSnapshot_frame.
  - by eapply applyIdempotencySnapshot_frame.
  - by eapply cursor_inv_events.
  - by eapply event_state_inv_events.
  - by eapply end_inv_events.
  - done.
Qed.

Lemma state_apply_inv_preserved s r s' : state_inv s -> numbers_fit r -> state_apply s r = Ok s' -> state_inv s'.
Proof.
  intros [Hwf H] Hr Ha. pose proof (state_apply_jobs_step _ _ _ Hwf (fun _ => proj1 Hr) Ha) as Hstep.
  split; [by eapply jobs_step_wf|]. apply state_apply_inv in Ha as (s1 & Hk & -> & _ & _ & _ & Hcont & _).
  assert (Hev : events_inv s1) by (eapply apply_kind_events; eauto).
  eapply events_inv_frame; try done. cbn. by destruct (st_snapshot s1).
Qed.

Lemma state_inv_init : state_inv newStoreState.
Proof. split; [apply map_Forall_empty|apply events_inv_init]. Qed.

Lemma reread_numbers r : numbers_fit r -> numbers_fit (reread r).
Proof. unfold numbers_fit. cbn. by destruct (r_Job r). Qed.

Lemma apply_jl_inv s l s' : state_inv s -> apply_jl s l = Ok s' -> state_inv s'.
Proof.
  intros H Hl. destruct l as [r| |]; cbn in Hl; try done. ok_step Hl. breflect.
  eapply state_apply_inv_preserved; [done| |exact Hl]. by apply reread_numbers, typed_numbers.
Qed.

Lemma replay_inv ls s s' : state_inv s -> result_fold apply_jl s ls = Ok s' -> state_inv s'.
Proof. apply result_fold_inv. apply apply_jl_inv. Qed.

Lemma recoverJournal_inv f f' s :
  recoverJournal f = Ok (f', s) -> f' = mkJFile (jf_lines f) false /\ result_fold apply_jl newStoreState (jf_lines f) = Ok s /\
  state_inv s /\ st_snapshot s = None /\ validateActionHistory s = Ok tt.
Proof.
  unfold recoverJournal, applyJournalTail. intros H. ok_step H. ok_step E. simplify_eq. ok_step H. simplify_eq.
  change (drop 0 (jf_lines f)) with (jf_lines f) in *. destruct a. unfold validateRecovered in *.
  repeat match goal with X : (if _ then Err _ else _) = Ok tt |- _ => ok_step X end. rewrite present_false in *.
  split_and!; try done. eapply replay_inv; [apply state_inv_init|eassumption].
Qed.

(** C14: whatever a journal file holds, if recovery accepts it then the event
    log of every job is sound: the retained events belong to the job, their
    IDs strictly increase, they lie above the prune watermark and end exactly
    at the job's cursor, and no cursor is above the last event ID of the store. *)
Theorem recovered_event_logs f f' s id (H : recoverJournal f = Ok (f', s)) :
  let es := listat (st_events s) id in
  let pruned := Zat (st_prunedThrough s) id in
  let latest := Zat (st_latestEventByJob s) id in
  ordered es /\ Forall (fun e => ev_JobID e = id /\ pruned < ev_ID e <= latest) es /\
  0 <= pruned <= latest /\ latest <= st_lastEventID s <= u64_max /\
  match last es with Some e => ev_ID e = latest | None => pruned = latest end.
Proof.
  apply recoverJournal_inv in H as (_ & _ & [_ [H1 H2 H3 H4]] & Hs & _). unfold event_bound, phase_ok in *. rewrite Hs in *.
  destruct (H3 id) as [G1 G2 G3], H4 as [G4 _]. specialize (G4 id). unfold is_u64 in H1. cbn zeta.
  split_and!; try done; lia.
Qed.

(** ** Replay *)

Lemma filter_filter_after (es : list Event) a b :
  a <= b -> filter (fun e => b < ev_ID e) (filter (fun e => a < ev_ID e) es) = filter (fun e => b < ev_ID e) es.
Proof. intros Hab. apply list_filter_filter_l. intros x Hx. lia. Qed.

Lemma ordered_filter es t : ordered es -> ordered (filter (fun e => t < ev_ID e) es).
Proof.
  intros H. destruct (ordered_split t es H) as (a & b & -> & Ha & Hb). rewrite filter_split by done.
  by apply ordered_app in H as (_ & ? & _).
Qed.

(** What follows the first [n] events of an ordered log is what follows the
    last of them. *)
Lemma drop_after_last es n e :
  ordered es -> last (take n es) = Some e -> drop n es = filter (fun x => ev_ID e < ev_ID x) es.
Proof.
  intros H Hl. rewrite <- (take_drop n es) in H |- * at 2. apply ordered_app in H as (H1 & H2 & H3).
  symmetry. apply filter_split.
  - apply last_Some in Hl as [l Hl]. rewrite Hl in H1 |- *. apply ordered_app in H1 as (_ & _ & H1). apply Forall_app.
    split; [|constructor; [lia|constructor]]. apply Forall_forall. intros x Hx. specialize (H1 x e Hx).
    rewrite list_elem_of_singleton in H1. specialize (H1 eq_refl). lia.
  - apply Forall_forall. intros x Hx. apply H3; [|done]. by apply last_Some_elem_of.
Qed.

(** One page on a sound log. *)
Lemma replay_page_spec st id j after limit :
  st_jobs st !! id = Some j -> ordered (listat (st_events st) id) ->
  replay_page st id (Some after) limit =
    (reject after <? Zat (st_prunedThrough st) id with
       EEventGap id after (Zat (st_prunedThrough st) id) (match listat (st_events st) id with e :: _ => ev_ID e | [] => 0 end)
         (Zat (st_latestEventByJob st) id) ;;
     Ok (mkPage (take limit (filter (fun e => after < ev_ID e) (listat (st_events st) id)))
           (Zat (st_latestEventByJob st) id) (Zat (st_prunedThrough st) id))).
Proof.
  intros Hj Ho. unfold replay_page. rewrite Hj. rewrite <- (search_after _ after) by done.
  by destruct (after <? _).
Qed.

(** A reader that asks for the next page until one is empty. *)
Fixpoint read_all (fuel : nat) (st : storeState) (id : string) (after : Z) (limit : nat) : result job_err (list Event) :=
  match fuel with
  | O => Ok []
  | S f =>
      let? page := replay_page st id (Some after) limit in
      match last (pg_Events page) with
      | None => Ok []
      | Some e => let? rest := read_all f st id (ev_ID e) limit in Ok (pg_Events page ++ rest)
      end
  end.

Lemma read_all_spec st id j limit :
  st_jobs st !! id = Some j -> ordered (listat (st_events st) id) -> (0 < limit)%nat ->
  forall fuel after, (length (filter (fun e => (after < ev_ID e)%Z) (listat (st_events st) id)) <= fuel)%nat ->
  Zat (st_prunedThrough st) id <= after ->
  read_all fuel st id after limit = Ok (filter (fun e => after < ev_ID e) (listat (st_events st) id)).
Proof.
  intros Hj Ho Hlim. set (es := listat (st_events st) id) in *. induction fuel as [|fuel IH]; intros after Hlen Hp; cbn.
  - destruct (filter _ es); [done|cbn in Hlen; lia].
  - rewrite (replay_page_spec st id j) by done. rewrite (proj2 (Z.ltb_ge _ _)) by lia. cbn. fold es.
    pose proof (ordered_filter es after Ho) as Hof. remember (filter (fun e => after < ev_ID e) es) as rest eqn:Hr.
    destruct (last (take limit rest)) as [e|] eqn:El.
    + assert (He : after < ev_ID e).
      { assert (Hin : e ∈ rest) by (eapply (subseteq_take limit), last_Some_elem_of, El). rewrite Hr in Hin.
        apply list_elem_of_filter in Hin. lia. }
      assert (Hd : filter (fun x => ev_ID e < ev_ID x) es = drop limit rest).
      { rewrite (drop_after_last rest limit e Hof El), Hr. symmetry. apply filter_filter_after. lia. }
      rewrite IH; [|rewrite Hd, length_drop|lia].
      * cbn. by rewrite Hd, take_drop.
      * destruct rest; [by rewrite take_nil in El|cbn in *; lia].
    + apply last_None in El. destruct rest; [done|]. destruct limit; [lia|done].
Qed.

(** Reading a job's events page by page loses and repeats nothing.  On any
    recovered journal, a reader whose position is not behind the prune
    watermark gets, with any positive page size and as many rounds as there
    are events, exactly the retained events after its position in their order;
    and a reader behind the watermark is told about the gap instead of being
    given a partial answer. *)
Theorem replay_pages_complete f f' st id j after limit
    (Hr : recoverJournal f = Ok (f', st)) (Hj : st_jobs st !! id = Some j) (Hlim : (0 < limit)%nat) :
  (Zat (st_prunedThrough st) id <= after ->
   read_all (length (listat (st_events st) id)) st id after limit =
   Ok (filter (fun e => after < ev_ID e) (listat (st_events st) id))) /\
  (after < Zat (st_prunedThrough st) id ->
   exists oldest, replay_page st id (Some after) limit =
     Err (EEventGap id after (Zat (st_prunedThrough st) id) oldest (Zat (st_latestEventByJob st) id))).
Proof.
  apply recoverJournal_inv in Hr as (_ & _ & [_ Hev] & _). pose proof (lo_ordered _ _ _ _ _ (ei_logs _ Hev id)) as Ho.
  split; intros Ha.
  - eapply read_all_spec; eauto. apply length_filter.
  - rewrite (replay_page_spec st id j) by done. rewrite (proj2 (Z.ltb_lt _ _)) by done. by eexists.
Qed.

End Events.

Lemma recovered_event_logs_witness :
  map ev_ID (listat (st_events (snd demo_recovery)) "job_01") = [1] /\ ordered (listat (st_events (snd demo_recovery)) "job_01").
Proof.
  split; [vm_compute; reflexivity|].
  exact (proj1 (recovered_event_logs demo_file (fst demo_recovery) (snd demo_recovery) "job_01" demo_file_recovers)).
Defined.

Lemma replay_pages_complete_witness :
  read_all (length (listat (st_events (snd demo_recovery)) "job_01")) (snd demo_recovery) "job_01" 0 1 = Ok [demo_event].
Proof.
  destruct (replay_pages_complete demo_file (fst demo_recovery) (snd demo_recovery) "job_01" demo_succeeded 0 1
              demo_file_recovers) as [H _].
  - vm_compute. reflexivity.
  - lia.
  - rewrite H; [vm_compute; reflexivity|]. vm_compute. discriminate.
Defined.
