(* ===== verification/JobHistoryFacts.v ===== *)
(** * Package [internal/consolejobs]: accepted journals recover

    Recovery re-validates the whole history of action jobs and of retry keys.
    Every record that is accepted while the store runs keeps these histories
    valid, so a journal whose records were accepted one by one is never refused
    by a later recovery. *)

From Stdlib Require Import Ascii.
From S2P Require Import Prelude GoText GoJson GoEncoding ActionAbi HostConfirmation JobTypes JobSanitize JobAction.
From S2P Require Import JobJournal JobCompaction JobReceipts JobStore JobOps ActionAbiFacts JobJournalFacts JobEventsFacts JobDemo.

(** ** Replaying the frames of a job *)

(** A replay validator that has accepted everything up to [n] and no outcome. *)
Definition replay_at (jobID invocation : string) (n : Z) : StreamValidator :=
  mkStream jobID invocation n true false false false NoOutcome.

Lemma NewReplayStream_ok jobID invocation n sv :
  NewReplayStream jobID invocation n = Ok sv ->
  sv = replay_at jobID invocation n /\ opaqueID jobID = true /\ opaqueID invocation = true.
Proof. unfold NewReplayStream, newStream. intros H. ok_path H. breflect. by destruct_and?. Qed.

Lemma NewReplayStream_valid jobID invocation n :
  opaqueID jobID = true -> opaqueID invocation = true -> NewReplayStream jobID invocation n = Ok (replay_at jobID invocation n).
Proof. intros H1 H2. unfold NewReplayStream, newStream. by rewrite H1, H2. Qed.

(** A validated frame carries the payload of its type and no other. *)
Lemma event_result e : event_validate e = Ok tt -> ae_Type e = "result" -> exists r, ae_Result e = Some r /\ validate_result r = true.
Proof.
  intros H Hty. unfold event_validate in H. ok_path H. rewrite Hty in E1. literals. destruct (ae_Result e) as [r|]; [|done]. eauto.
Qed.
Lemma event_error e :
  event_validate e = Ok tt -> ae_Type e = "error" ->
  ae_Result e = None /\ exists f, ae_Error e = Some f /\ validate_error f = true.
Proof.
  intros H Hty. pose proof (event_validate_slots e H "result" (present (ae_Result e))) as Hs. split.
  - unfold payload_slots in Hs. rewrite Hty in Hs. destruct (ae_Result e); [|done]. discriminate Hs. do 2 apply list_elem_of_further. left.
  - unfold event_validate in H. ok_path H. rewrite Hty in E1. literals. destruct (ae_Error e) as [r|]; [|done]. eauto.
Qed.

(** A validated frame ends its stream exactly when it carries an outcome. *)
Lemma outcome_terminal e : event_validate e = Ok tt -> actionOutcome e = NoOutcome <-> event_terminal e = false.
Proof.
  intros Hv. unfold actionOutcome, event_terminal. destruct (decide (ae_Type e = "result")) as [H1|H1].
  - destruct (event_result e Hv H1) as (r & Hr & Hok). rewrite Hr, H1, bool_decide_eq_true_2 by done.
    unfold validate_result in Hok. cbn. by destruct (rs_Outcome r); try done; split.
  - destruct (decide (ae_Type e = "error")) as [H2|H2].
    + destruct (event_error e Hv H2) as (Hr & f & Hf & Hok). rewrite Hr, Hf, H2, (bool_decide_eq_true_2 ("error" = "error")), orb_true_r by done.
      unfold validate_error in Hok. breflect. split; [|done]. intros Ho. rewrite Ho in Hok. by destruct Hok as [[[?|?] _] _].
    + rewrite !bool_decide_eq_false_2 by done. split; [done|]. intros _.
      pose proof (event_validate_slots e Hv "result" (present (ae_Result e))) as Hr.
      pose proof (event_validate_slots e Hv "error" (present (ae_Error e))) as He.
      unfold payload_slots in Hr, He. rewrite bool_decide_eq_false_2 in Hr by congruence. rewrite bool_decide_eq_false_2 in He by congruence.
      destruct (ae_Result e); [discriminate Hr; do 2 apply list_elem_of_further; left|].
      destruct (ae_Error e); [discriminate He; do 3 apply list_elem_of_further; left|done].
Qed.

Lemma no_outcome_no_end sv e : event_validate e = Ok tt -> actionOutcome e = NoOutcome -> stream_terminal sv e = sv.
Proof.
  intros Hv Ho%(outcome_terminal e Hv). unfold event_terminal in Ho. unfold stream_terminal. breflect.
  destruct Ho as [H1 H2]. by rewrite !bool_decide_eq_false_2.
Qed.

(** What an accepting validator does with a frame. *)
Lemma accept_replay_at j i n f sv' :
  stream_accept (replay_at j i n) f = (sv', Ok tt) ->
  event_validate f = Ok tt /\ ae_Seq f <> 0 /\ sv' = stream_terminal (replay_at j i (ae_Seq f)) f.
Proof.
  unfold stream_accept, replay_at. cbn. destruct (negb _ || negb _) eqn:E0; [done|].
  destruct (negb _ || _ || _) eqn:E; [done|]. intros [= <-]. breflect. destruct E as [[He _] _].
  destruct (EncodeJournalEvent f) eqn:E2; [|done]. apply EncodeJournalEvent_ok in E2 as [? ?]. done.
Qed.

(** A history without an outcome can be continued by whatever a validator at
    its last sequence number accepts. *)
Lemma history_continue j i : forall es first n ls,
  history_stream first (replay_at j i n) n NoOutcome es = Ok (ls, NoOutcome) ->
  forall es2, history_stream first (replay_at j i n) n NoOutcome (es ++ es2) =
              history_stream (first && (match es with [] => true | _ => false end)) (replay_at j i ls) ls NoOutcome es2.
Proof.
  induction es as [|e es IH]; intros first n ls H es2; cbn in H |- *.
  - injection H as <-. by rewrite andb_true_r.
  - rewrite andb_false_r. destruct (ev_Action e) as [f|]; [|done]. ok_step H.
    destruct (stream_accept _ f) as [sv' [[]|x]] eqn:Ea; [|done].
    apply accept_replay_at in Ea as (Hv & _ & ->).
    destruct (decide (actionOutcome f = NoOutcome)) as [Ho|Ho].
    + rewrite Ho, no_outcome_no_end in * by done. rewrite (IH false (ae_Seq f) ls H es2). by destruct es.
    + exfalso. destruct es as [|e2 es]; cbn in H; [by simplify_eq|]. destruct (ev_Action e2) as [f2|]; [|done]. ok_step H.
      assert (Ht : event_terminal f = true).
      { destruct (event_terminal f) eqn:Et; [done|]. by apply (outcome_terminal f Hv) in Et. }
      pose proof (stream_terminal_ended (replay_at j i (ae_Seq f)) f Hv eq_refl) as Hterm. rewrite Ht in Hterm.
      unfold stream_accept in H. rewrite Hterm in H. by rewrite orb_true_r in H.
Qed.

(** ** The history of one job *)

Section History.
Context {U : UnicodeTables}.

(** Jobs to which an event does the same. *)
Record agree (b c : Job) : Prop := {
  ag_ID : j_ID b = j_ID c;
  ag_Status : j_Status b = j_Status c;
  ag_Result : j_Result b = j_Result c;
  ag_Error : j_Error b = j_Error c;
  ag_Action : match j_Action b, j_Action c with
              | Some p, Some q => as_InvocationID p = as_InvocationID q /\ present (as_Cancellation p) = present (as_Cancellation q)
              | _, _ => False
              end
}.

Lemma agree_after b c e now next :
  agree b c -> j_Revision c <> u64_max -> actionJobAfterEvent b e now = Ok next ->
  exists next', actionJobAfterEvent c e now = Ok next' /\ j_Result next' = j_Result next /\ j_Error next' = j_Error next.
Proof.
  intros [H1 H2 H3 H4 H5] Hrev H. unfold actionJobAfterEvent in *.
  destruct (j_Action b) as [p|]; [|done]. destruct (j_Action c) as [q|]; [|done]. destruct H5 as [H5 H6].
  rewrite H1, H2, H5, H6 in H. do 3 ok_step H. rewrite (bool_decide_eq_false_2 (j_Revision c = u64_max)) by done.
  destruct (actionOutcome e); cbn in H |- *; try done; repeat (case_match; try done); simplify_eq;
    (eexists; split_and!; [done|cbn; congruence..]).
Qed.

(** The job as it was when its outcome arrived. *)
Definition history_base (j : Job) : Job :=
  j_with_Revision
    (j_with_Error (j_with_Result
       (j_with_Status j (match j_StartedAt j with None => StatusQueued | Some _ => StatusRunning end)) None) None) 1.

(** What [validateActionHistory] asks of one job and its log. *)
Record history_ok (j : Job) (es : list Event) (pruned latest : Z) : Prop := {
  ho_plain : j_Action j = None -> Forall (fun e => ev_Action e = None) es;
  ho_action : forall a, j_Action j = Some a ->
    opaqueID (j_ID j) = true /\ opaqueID (as_InvocationID a) = true /\
    history_stream true (replay_at (j_ID j) (as_InvocationID a) 0) 0 NoOutcome es = Ok (as_LastSeq a, as_Outcome a) /\
    match last es, head es with
    | Some lst, Some first =>
        frame_type lst <> "truncated" /\ ev_ID lst = latest /\ (frame_type first = "truncated" <-> 0 < pruned) /\
        (as_Outcome a = NoOutcome \/
         exists frame expected, ev_Action lst = Some frame /\
           actionJobAfterEvent (history_base j) frame (ev_Timestamp lst) = Ok expected /\
           j_Result expected = j_Result j /\ j_Error expected = j_Error j /\ j_FinishedAt j = Some (ev_Timestamp lst))
    | _, _ => latest = 0 /\ pruned = 0
    end
}.

Lemma existsb_present es : existsb (fun e => present (ev_Action e)) es = false <-> Forall (fun e => ev_Action e = None) es.
Proof.
  induction es as [|e es IH]; cbn; [by split|]. rewrite orb_false_iff, Forall_cons, IH, present_false. done.
Qed.

Lemma validate_job_history_ok s id j :
  validate_job_history s id j = Ok tt <->
  history_ok j (listat (st_events s) id) (Zat (st_prunedThrough s) id) (Zat (st_latestEventByJob s) id).
Proof.
  unfold validate_job_history. destruct (j_Action j) as [a|] eqn:Ea.
  2:{ split.
      - intros H. ok_path H. split; [by rewrite existsb_present in *|congruence].
      - intros [H _]. rewrite (proj2 (existsb_present _) (H Ea)). done. }
  set (es := listat (st_events s) id). split.
  - intros H. destruct (NewReplayStream _ _ _) as [sv|] eqn:En; [|done].
    apply NewReplayStream_ok in En as (-> & H1 & H2). ok_step H. destruct a0 as [ls o]. ok_step H. breflect. destruct_and?. subst.
    split; [congruence|]. intros a' Ha'. rewrite Ea in Ha'. injection Ha' as <-. split_and!; try done.
    destruct (last es) as [lst|]; [|ok_path H; breflect; by destruct_and?].
    destruct (head es) as [fst|]; [|ok_path H; breflect; by destruct_and?].
    do 2 ok_step H. breflect. destruct_and?. split_and!; try done.
    + match goal with X : bool_decide (frame_type fst = "truncated") = (0 <? _) |- _ => rename X into Hx end.
      destruct (decide (frame_type fst = "truncated")) as [Ht|Ht].
      * rewrite bool_decide_eq_true_2 in Hx by done. symmetry in Hx. apply Z.ltb_lt in Hx. by split.
      * rewrite bool_decide_eq_false_2 in Hx by done. symmetry in Hx. apply Z.ltb_ge in Hx. split; [done|lia].
    + case_bool_decide; [by left|]. right. destruct (ev_Action lst) as [frame|]; [|done].
      fold (history_base j) in H. destruct (actionJobAfterEvent _ _ _) as [expected|] eqn:Ee; [|done]. ok_step H. breflect.
      destruct_and?. by exists frame, expected.
  - intros [_ H]. destruct (H a Ea) as (H1 & H2 & H3 & H4). rewrite NewReplayStream_valid by done. rewrite H3. cbn [result_bind].
    rewrite !bool_decide_eq_true_2 by done. cbn [negb orb].
    destruct (last es) as [lst|]; [|destruct H4 as [-> ->]; done].
    destruct (head es) as [fst|]; [|destruct H4 as [-> ->]; done].
    destruct H4 as (G1 & G2 & G3 & G4). rewrite (bool_decide_eq_false_2 (frame_type lst = "truncated")) by done.
    rewrite (bool_decide_eq_true_2 (ev_ID lst = _)) by done. cbn [negb orb].
    rewrite bool_decide_eq_true_2.
    2:{ destruct (0 <? Zat (st_prunedThrough s) id) eqn:Ez; [apply bool_decide_eq_true|apply bool_decide_eq_false].
        - apply G3. by apply Z.ltb_lt.
        - rewrite G3. by apply Z.ltb_nlt. }
    cbn [negb]. case_bool_decide; [done|]. destruct G4 as [?|(frame & expected & -> & G5 & G6 & G7 & G8)]; [done|].
    fold (history_base j). rewrite G5, G6, G7, G8. by rewrite !bool_decide_eq_true_2.
Qed.

Lemma action_request_ids abi job inv name request :
  action_request_ok abi job inv name request = true -> opaqueID job = true /\ opaqueID inv = true.
Proof.
  unfold action_request_ok, EncodeRequest. intros H.
  destruct (request_validate _) as [[]|] eqn:Er; [|done]. by apply request_validate_ok in Er as (_ & ? & ? & _).
Qed.

(** What a persisted action job looks like. *)
Lemma action_job_fields j a :
  validatePersistedJob j = Ok tt -> j_Action j = Some a ->
  opaqueID (j_ID j) = true /\ opaqueID (as_InvocationID a) = true /\ as_Outcome a = status_outcome (j_Status j) /\
  (terminal (j_Status j) = false -> j_Result j = None /\ j_Error j = None) /\
  validateActionInvocationPolicy j a = Ok tt.
Proof.
  intros Hv Ha. apply validatePersistedJob_fields in Hv as (_ & _ & _ & _ & _ & _ & _ & Hv). unfold validateActionJob in Hv.
  rewrite Ha in Hv. ok_path Hv. breflect. destruct_and?. repeat match goal with x : unit |- _ => destruct x end.
  match goal with X : action_request_ok _ _ _ _ _ = true |- _ => apply action_request_ids in X as [? ?] end.
  split_and!; try done. intros Ht. match goal with X : _ \/ _ |- _ => destruct X as [X|X]; [congruence|] end.
  rewrite !present_false in *. by destruct_and?.
Qed.

Lemma outcome_terminal_status s : status_outcome s = NoOutcome <-> terminal s = false.
Proof. by destruct s. Qed.

Lemma history_created j : validatePersistedJob j = Ok tt -> j_Status j = StatusQueued ->
  (forall a, j_Action j = Some a -> as_LastSeq a = 0) -> history_ok j [] 0 0.
Proof.
  intros Hv Hs Hl. split; [constructor|]. intros a Ha. destruct (action_job_fields j a Hv Ha) as (H1 & H2 & H3 & _).
  rewrite Hs in H3. cbn in H3. split_and!; try done. cbn. by rewrite (Hl a Ha), H3.
Qed.

(** A change of the job that leaves its stream position and, once it has an
    outcome, its terminal fields alone. *)
Lemma history_same j j' es p l :
  history_ok j es p l -> (j_Action j = None <-> j_Action j' = None) -> j_ID j' = j_ID j ->
  (forall a a', j_Action j = Some a -> j_Action j' = Some a' ->
     as_InvocationID a' = as_InvocationID a /\ as_LastSeq a' = as_LastSeq a /\ as_Outcome a' = as_Outcome a /\
     (as_Outcome a = NoOutcome \/
      (a' = a /\ j_StartedAt j' = j_StartedAt j /\ j_Result j' = j_Result j /\ j_Error j' = j_Error j /\
       j_FinishedAt j' = j_FinishedAt j))) ->
  history_ok j' es p l.
Proof.
  intros [H1 H2] Hnone Hid Hsame. split; [intros Hn; apply H1; by apply Hnone|]. intros a' Ha'.
  destruct (j_Action j) as [a|] eqn:Ea; [|by rewrite (proj1 Hnone eq_refl) in Ha'].
  destruct (Hsame a a' eq_refl Ha') as (Hi & Hl & Ho & Hrest). destruct (H2 a eq_refl) as (G1 & G2 & G3 & G4).
  rewrite Hid, Hi, Hl, Ho. split_and!; try done.
  destruct (last es) as [lst|]; [|done]. destruct (head es) as [fst|]; [|done]. destruct G4 as (K1 & K2 & K3 & K4).
  split_and!; try apply K3; try done. destruct K4 as [?|(frame & expected & F1 & F2 & F3 & F4 & F5)]; [by left|].
  destruct Hrest as [?|(-> & S1 & S2 & S3 & S4)]; [by left|]. right.
  destruct (agree_after (history_base j) (history_base j') frame (ev_Timestamp lst) expected) as (e' & E1 & E2 & E3); [|done|done|].
  - split; cbn; try done; [by rewrite S1|]. by rewrite Ea, Ha'.
  - exists frame, e'. split_and!; try done; congruence.
Qed.

Lemma sameActionBinding_none a b : sameActionBinding a b = true -> a = None <-> b = None.
Proof. by destruct a, b. Qed.

Lemma history_updated previous next es p l :
  validatePersistedJob previous = Ok tt -> sameImmutableJobFields previous next = true ->
  (present (j_Action previous) = true -> validActionJobUpdate previous next = true) ->
  validPersistedJobUpdate previous next = true -> history_ok previous es p l -> history_ok next es p l.
Proof.
  intros Hv Hi Ha Hu H. pose proof Hi as Hi'. apply sameImmutable_spec in Hi' as (Hid & _ & _ & _ & _ & _ & _ & Hb).
  eapply history_same; [exact H|by apply sameActionBinding_none|done|]. intros a a' Ea Ea'.
  rewrite Ea in Ha. specialize (Ha eq_refl). unfold validActionJobUpdate in Ha. rewrite Ea, Ea' in Ha.
  destruct (action_job_fields previous a Hv Ea) as (_ & _ & Ho & _).
  destruct (decide (a = a')) as [<-|Hne].
  - split_and!; try done. rewrite Ho. destruct (terminal (j_Status previous)) eqn:Et; [|left; by apply outcome_terminal_status].
    right. unfold validPersistedJobUpdate in Hu. rewrite bool_decide_eq_true_2 in Ha by done.
    assert (Hs : j_Status previous = j_Status next).
    { breflect. destruct Ha as [?|[Hq _]]; [done|]. by rewrite Hq in Et. }
    rewrite bool_decide_eq_true_2 in Hu by done. case_bool_decide as Hr; [by rewrite Hr in Et|].
    case_match; [|done]. breflect. rewrite <- Hu. done.
  - rewrite bool_decide_eq_false_2 in Ha by done. destruct (as_Cancellation a); [done|]. destruct (as_Cancellation a') as [c|] eqn:Ec; [|done].
    breflect. destruct Ha as [[Hr _] Hn]. rewrite <- Hn in Ea'. cbn in Ea'. injection Ea' as <-. split_and!; try done. left.
    by rewrite Ho, Hr.
Qed.

Lemma history_plain_append j es p l e l' :
  j_Action j = None -> ev_Action e = None -> history_ok j es p l -> history_ok j (es ++ [e]) p l'.
Proof.
  intros Hn He [H _]. split; [|congruence]. intros _. apply Forall_app. split; [by apply H|by repeat constructor].
Qed.

Lemma history_plain_prune j es p l t p' :
  j_Action j = None -> history_ok j es p l -> history_ok j (retained_after es t) p' l.
Proof.
  intros Hn [H _]. split; [|congruence]. intros _. unfold retained_after. apply Forall_drop. by apply H.
Qed.

Lemma job_policy_Some j a p : job_policy j = Some (a, p) <-> j_Action j = Some a /\ as_Policy a = Some p.
Proof.
  unfold job_policy. destruct (j_Action j) as [a'|]; cbn; [|naive_solver]. destruct (as_Policy a') as [p'|] eqn:E; cbn; naive_solver.
Qed.

Lemma history_key_bound previous pa pp b es p l :
  validatePersistedJob previous = Ok tt -> job_policy previous = Some (pa, pp) -> terminal (j_Status previous) = false ->
  history_ok previous es p l ->
  history_ok (j_with_Action (j_with_Revision previous (u64_succ (j_Revision previous)))
     (Some (as_with_Policy pa (Some (ap_with_RetryKeys pp (ap_RetryKeys pp ++ [b])))))) es p l.
Proof.
  intros Hv [Ha _]%job_policy_Some Ht H. eapply history_same; [exact H|cbn; by rewrite Ha|done|].
  intros a a' Ea Ea'. rewrite Ha in Ea. injection Ea as <-. cbn in Ea'. injection Ea' as <-. split_and!; try done. left.
  destruct (action_job_fields previous pa Hv Ha) as (_ & _ & -> & _). by apply outcome_terminal_status.
Qed.

(** ** Frames appended to an action *)

Lemma action_frames_cons at_ id lastID sv e rest id' :
  action_frames at_ id lastID sv (e :: rest) = Ok id' ->
  exists frame sv', ev_Action e = Some frame /\ ev_Timestamp e = at_ /\ stream_accept sv frame = (sv', Ok tt) /\
    action_frames at_ id (ev_ID e) sv' rest = Ok id'.
Proof.
  cbn. intros H. ok_step H. destruct (ev_Action e) as [frame|]; [|done]. ok_step H.
  destruct (stream_accept sv frame) as [sv' [[]|x]] eqn:Ea; [|done]. breflect. destruct_and?. by exists frame, sv'.
Qed.

(** A truncation marker that covers everything from the first frame restarts
    the history. *)
Lemma marker_restarts j i n f sv' t :
  stream_accept (replay_at j i n) f = (sv', Ok tt) -> ae_Type f = "truncated" -> ae_Truncated f = Some t -> tr_FromSeq t = 1 ->
  stream_accept (replay_at j i 0) f = (sv', Ok tt) /\ sv' = replay_at j i (ae_Seq f) /\ actionOutcome f = NoOutcome.
Proof.
  intros H Hty Ht Hf. pose proof H as (Hv & Hz & Hsv)%accept_replay_at.
  assert (Ho : actionOutcome f = NoOutcome). { apply (outcome_terminal f Hv). unfold event_terminal. by rewrite Hty. }
  rewrite no_outcome_no_end in Hsv by done. subst sv'. split_and!; try done.
  assert (Hseq : 1 <= ae_Seq f /\ 1 <= tr_ThroughSeq t).
  { unfold event_validate in Hv. ok_path Hv. rewrite Hty in *. literals. rewrite Ht in *.
    match goal with X : validate_truncated _ _ = _ |- _ => unfold validate_truncated in X end. breflect. destruct_and?.
    pose proof (u64_succ_range (tr_ThroughSeq t)) as [? ?]. lia. }
  unfold stream_accept, replay_at in *. cbn in *. destruct (negb _ || negb _) eqn:E0; [done|].
  match type of H with context [if ?c then _ else _] => destruct c eqn:E1; [done|] end. breflect. destruct E1 as [[E1 _] _]. rewrite E1. cbn [negb orb].
  unfold seq_follows. rewrite Hty, Ht, Hf. change (u64_succ 0) with 1. rewrite (bool_decide_eq_false_2 (0 = u64_max)) by done.
  rewrite (bool_decide_eq_true_2 ("truncated" = "truncated")) by done. replace (ae_Seq f <? 1) with false by lia.
  replace (tr_ThroughSeq t <? 1) with false by lia. rewrite andb_false_r. cbn [orb negb]. by rewrite no_outcome_no_end.
Qed.

(** A frame that is not a marker extends a history without an outcome. *)
Lemma history_extend j i log n e f sv' :
  history_stream true (replay_at j i 0) 0 NoOutcome log = Ok (n, NoOutcome) ->
  ev_Action e = Some f -> ae_Type f <> "truncated" -> stream_accept (replay_at j i n) f = (sv', Ok tt) ->
  history_stream true (replay_at j i 0) 0 NoOutcome (log ++ [e]) = Ok (ae_Seq f, actionOutcome f).
Proof.
  intros H He Hty Ha. rewrite (history_continue j i log true 0 n H [e]). cbn. rewrite He, bool_decide_eq_false_2 by done. cbn. by rewrite Ha.
Qed.

(** What the frames of one record make of a history that has no outcome. *)
Lemma history_frames at_ id lastID j i log n es s previous prune id' lst :
  history_stream true (replay_at j i 0) 0 NoOutcome log = Ok (n, NoOutcome) ->
  action_frames at_ id lastID (replay_at j i n) es = Ok id' ->
  match prune with
  | None => exists e, es = [e] /\ frame_type e <> "truncated"
  | Some p => truncation_ok s previous n p es = true
  end -> last es ≫= ev_Action = Some lst -> ae_Type lst <> "truncated" ->
  history_stream true (replay_at j i 0) 0 NoOutcome (match prune with Some _ => [] | None => log end ++ es) =
  Ok (ae_Seq lst, actionOutcome lst).
Proof.
  intros H Hf Hp Hl Hty. destruct prune as [p|].
  - unfold truncation_ok in Hp. destruct es as [|m [|e [|? ?]]]; try done. cbn in Hl.
    apply action_frames_cons in Hf as (fm & sv1 & Hm & _ & Am & Hf). rewrite Hm in Hp. breflect. destruct_and?.
    destruct (ae_Truncated fm) as [t|] eqn:Et; [|done]. breflect. destruct_and?.
    destruct (marker_restarts j i n fm sv1 t) as (R1 & -> & R2); try done.
    apply action_frames_cons in Hf as (f & sv2 & He & _ & Ae & _). rewrite Hl in He. injection He as <-.
    eapply (history_extend j i [m]); [|done..]. cbn. rewrite Hm. rewrite andb_false_r. by rewrite R1, R2.
  - destruct Hp as (e & -> & _). cbn in Hl.
    apply action_frames_cons in Hf as (f & sv' & He & _ & Ae & _). rewrite Hl in He. injection He as <-.
    by eapply history_extend.
Qed.

Lemma action_frames_last at_ id lastID sv es id' e :
  action_frames at_ id lastID sv es = Ok id' -> last es = Some e -> ev_Timestamp e = at_ /\ ev_ID e = id'.
Proof.
  revert lastID sv. induction es as [|x es IH]; intros lastID sv H Hl; [done|].
  apply action_frames_cons in H as (f & sv' & _ & Ht & _ & H). destruct es as [|y es].
  - cbn in *. simplify_eq. done.
  - by eapply IH.
Qed.

Lemma action_after_fields previous e now next :
  actionJobAfterEvent previous e now = Ok next -> actionOutcome e <> NoOutcome -> j_FinishedAt next = Some now.
Proof.
  unfold actionJobAfterEvent. intros H Ho. destruct (j_Action previous) as [a|]; [|done]. do 3 ok_step H.
  destruct (actionOutcome e); try done; repeat (case_match; try done); by simplify_eq.
Qed.

(** The job before its outcome, seen from the job after it. *)
Lemma agree_base previous a next e now :
  validatePersistedJob previous = Ok tt -> j_Action previous = Some a -> actionJobAfterEvent previous e now = Ok next ->
  agree previous (history_base next).
Proof.
  intros Hv Ha H. destruct (action_job_fields previous a Hv Ha) as (_ & _ & _ & Hr & _).
  pose proof H as (a' & Ha' & Ht & _ & _ & _ & _ & _ & Hi & Han & Hst & _)%actionJobAfterEvent_inv.
  destruct (Hr Ht) as [R1 R2]. apply validatePersistedJob_fields in Hv as (Hsv & _ & _ & _ & Hq & Hrun & _).
  apply sameImmutable_spec in Hi as (Hid & _). split; cbn; try congruence.
  - rewrite Hst. destruct (j_Status previous) eqn:Es; try done; [by destruct (Hq eq_refl) as [-> _]|].
    destruct (Hrun eq_refl) as [? _]. by destruct (j_StartedAt previous).
  - rewrite Han, Ha'. done.
Qed.

Lemma history_action at_ lastID previous a stream next s log p l es prune id lst :
  validatePersistedJob previous = Ok tt -> j_Action previous = Some a -> 0 <= Zat (st_prunedThrough s) (j_ID previous) ->
  history_ok previous log p l -> p = Zat (st_prunedThrough s) (j_ID previous) ->
  NewReplayStream (j_ID previous) (as_InvocationID a) (as_LastSeq a) = Ok stream ->
  action_frames at_ (j_ID previous) lastID stream es = Ok id ->
  match prune with
  | None => exists e, es = [e] /\ frame_type e <> "truncated"
  | Some p => truncation_ok s previous (as_LastSeq a) p es = true
  end -> last es ≫= ev_Action = Some lst -> actionJobAfterEvent previous lst at_ = Ok next ->
  history_ok next (match prune with Some _ => [] | None => log end ++ es)
    (match prune with Some q => ep_Through q | None => p end) id.
Proof.
  intros Hv Ha Hp0 [_ H] Hp Hs Hf Hpr Hl Hn. destruct (H a Ha) as (I1 & I2 & Hh & Hrest).
  pose proof Hn as (a' & Ha' & Ht & _ & _ & Hty & _ & _ & Hi & Han & _)%actionJobAfterEvent_inv.
  rewrite Ha in Ha'. injection Ha' as <-.
  destruct (action_job_fields previous a Hv Ha) as (_ & _ & Ho & _). apply outcome_terminal_status in Ht. rewrite Ht in Ho.
  rewrite Ho in Hh. apply NewReplayStream_ok in Hs as (-> & _).
  pose proof (history_frames _ _ _ _ _ _ _ _ _ _ _ _ _ Hh Hf Hpr Hl Hty) as Hh'.
  apply sameImmutable_spec in Hi as (Hid & _).
  split; [congruence|]. intros an Han'. rewrite Han in Han'. injection Han' as <-. rewrite <- Hid. cbn. split_and!; try done.
  destruct (last es) as [e|] eqn:El; [|done]. cbn in Hl. destruct (action_frames_last _ _ _ _ _ _ _ Hf El) as [Hts Hide].
  rewrite last_app, El. cbn.
  destruct (head (_ ++ es)) as [first|] eqn:Eh.
  2:{ exfalso. destruct es; [discriminate El|]. destruct prune, log; cbn in Eh; discriminate Eh. }
  split_and!; try done.
  - unfold frame_type. by rewrite Hl.
  - destruct prune as [q|].
    + unfold truncation_ok in Hpr. destruct es as [|m [|? [|? ?]]]; try done. cbn in Eh. injection Eh as <-.
      unfold frame_type. destruct (ev_Action m); [|done]. breflect. destruct_and?. split; [lia|done].
    + destruct Hpr as (e0 & -> & Hty0). destruct log as [|x log]; cbn in Eh; injection Eh as <-.
      * cbn in Hrest. split; [done|lia].
      * cbn in Hrest. destruct (last (x :: log)) eqn:Elast; [|by apply last_None in Elast]. by destruct Hrest as (_ & _ & ? & _).
  - destruct (decide (actionOutcome lst = NoOutcome)) as [?|Hne]; [by left|]. right.
    destruct (agree_after previous (history_base next) lst at_ next) as (x & X1 & X2 & X3); [by eapply agree_base|done..|].
    exists lst, x. split_and!; try done; [by rewrite Hts|]. rewrite Hts. by eapply action_after_fields.
Qed.
End History.
