(* ===== verification/JobRecoveryFacts.v ===== *)
(** * Package [internal/consolejobs]: accepted records never block a recovery

    [validateRecovered] refuses a journal whose action histories or retry-key
    histories are inconsistent.  The store checks each record only against the
    current state when it accepts it.  This file shows that the two agree: the
    histories stay consistent under every accepted record, so a journal that was
    written record by record is recovered to the state the store had. *)

From S2P Require Import Prelude GoText GoJson GoEncoding ActionAbi HostConfirmation JobTypes JobSanitize JobAction.
From S2P Require Import JobJournal JobCompaction JobReceipts JobStore JobOps ActionAbiFacts JobJournalFacts JobEventsFacts JobHistoryFacts JobActionOps JobDemo.

(** ** Ordered pairs of a list *)

Section Pairs.
Context {A : Type} (R : A -> A -> Prop).

Lemma FOP_app l k : ForallOrdPairs R (l ++ k) <-> ForallOrdPairs R l /\ ForallOrdPairs R k /\ Forall (fun x => Forall (R x) k) l.
Proof.
  induction l as [|x l IH]; cbn.
  - split; [intros H; by repeat constructor|by intros (_ & ? & _)].
  - split.
    + intros H. inversion H as [|? ? H1 H2]; subst. apply Forall_app in H1 as [? ?]. apply IH in H2 as (? & ? & ?).
      split_and!; by try constructor.
    + intros (H1 & H2 & H3). inversion H1; subst. inversion H3; subst. constructor; [by apply Forall_app|by apply IH].
Qed.

Lemma FOP_perm `{!Symmetric R} l k : l ≡ₚ k -> ForallOrdPairs R l -> ForallOrdPairs R k.
Proof.
  induction 1 as [|x l k Hp IH|x y l|l k m _ IH1 _ IH2]; intros H; [done| | |by auto].
  - inversion H; subst. constructor; [by rewrite <- Hp|by apply IH].
  - inversion H as [|? ? H1 H2]; subst. inversion H2; subst. inversion H1; subst.
    repeat constructor; try done; by symmetry.
Qed.

Lemma FOP_fmap {B} (S : B -> B -> Prop) (f : A -> B) l :
  (forall x y, R x y -> S (f x) (f y)) -> ForallOrdPairs R l -> ForallOrdPairs S (map f l).
Proof.
  intros Hf. induction 1 as [|x l H1 H2 IH]; cbn; constructor; [|done].
  apply Forall_forall. intros z (y & -> & Hy)%list_elem_of_fmap. rewrite Forall_forall in H1. auto.
Qed.

Lemma FOP_short l : (length l <= 1)%nat -> ForallOrdPairs R l.
Proof. destruct l as [|x [|? ?]]; cbn; [constructor|repeat constructor|lia]. Qed.
End Pairs.

(** ** Who held a retry key *)

(** The first binding ended long enough before the second began. *)
Definition handed (x y : Job * Z) : Prop :=
  snd x < snd y /\ exists f, j_FinishedAt (fst x) = Some f /\ terminal (j_Status (fst x)) = true /\ f + ActionKeyRetention <= snd y.
Definition exclusive (x y : Job * Z) : Prop := handed x y \/ handed y x.

#[export] Instance handed_trans : Transitive handed.
Proof. intros x y z [H1 (f & F1 & F2 & F3)] [H2 _]. split; [lia|]. exists f. split_and!; try done. lia. Qed.
#[export] Instance exclusive_sym : Symmetric exclusive.
Proof. intros x y [?|?]; [by right|by left]. Qed.

Lemma handovers_handed l : handovers_ok l = true <-> Sorted handed l.
Proof.
  induction l as [|[p t] l IH]; [by split|]. destruct l as [|[q u] l]; [split; repeat constructor|].
  change (handovers_ok ((p, t) :: (q, u) :: l)) with
    (match j_FinishedAt p with
     | Some f => terminal (j_Status p) && (t <? u) && negb (u <? f + ActionKeyRetention)
     | None => false end && handovers_ok ((q, u) :: l)).
  rewrite andb_true_iff, IH. split.
  - intros [H1 H2]. constructor; [done|]. constructor. split; destruct (j_FinishedAt p) as [f|] eqn:Ef; try done; breflect; destruct_and?; cbn; [lia|].
    by exists f.
  - intros H. inversion H as [|? ? H1 H2]; subst. inversion H2 as [|? ? [H3 (f & F1 & F2 & F3)]]; subst. cbn in *.
    split; [|done]. rewrite F1, F2. breflect. split_and!; try done; lia.
Qed.

(** The sorted list of owners hands the key over at every step exactly when all
    bindings exclude one another. *)
Lemma handovers_exclusive l : handovers_ok (merge_sort bound_le l) = true <-> ForallOrdPairs exclusive l.
Proof.
  rewrite handovers_handed. split.
  - intros H%(Sorted_StronglySorted _). apply (FOP_perm exclusive (merge_sort bound_le l)); [apply merge_sort_Permutation|].
    induction H; constructor; [|done]. eapply Forall_impl; [done|]. by left.
  - intros H. apply (FOP_perm exclusive l (merge_sort bound_le l)) in H; [|by rewrite merge_sort_Permutation].
    assert (Hs : StronglySorted bound_le (merge_sort bound_le l)).
    { apply StronglySorted_merge_sort; unfold bound_le; [intros x y z ? ?; lia|intros x y; lia]. }
    apply StronglySorted_Sorted. induction Hs as [|x k Hk IH Hx]; constructor; inversion H as [|? ? H1 H2]; subst; [by apply IH|].
    rewrite Forall_forall in *. intros y Hy. destruct (H1 y Hy) as [?|[? _]]; [done|]. specialize (Hx y Hy). unfold bound_le in Hx. lia.
Qed.

(** ** The bindings of a state *)

Definition keys_ok (s : storeState) : Prop := forall name digest, ForallOrdPairs exclusive (key_bindings s name digest).

Lemma owners_bindings s name digest :
  map snd (filter (fun o => fst o = (name, digest)) (retry_owners s)) = key_bindings s name digest.
Proof.
  unfold retry_owners, key_bindings. induction (map_to_list (st_jobs s)) as [|[id j] l IH]; [done|]. cbn.
  rewrite filter_app, map_app, IH. f_equal. unfold job_bindings. destruct (job_policy j) as [[a p]|]; [|done].
  case_bool_decide as Hn.
  - clear IH. subst name. induction (ap_RetryKeys p) as [|b ks IHk]; [done|]. cbn [map]. rewrite !filter_cons. cbn [fst snd].
    destruct (decide (rb_Digest b = digest)) as [->|Hd]; [rewrite decide_True by done; cbn; by rewrite IHk|].
    rewrite decide_False by congruence. done.
  - induction (ap_RetryKeys p) as [|b ks IHk]; [done|]. cbn [map].
    rewrite filter_cons, decide_False by (cbn; congruence). done.
Qed.

Lemma validateActionRetryHistory_ok s : validateActionRetryHistory s = Ok tt <-> keys_ok s.
Proof.
  unfold validateActionRetryHistory, owners_of. split.
  - intros H name digest. ok_step H. breflect. rewrite forallb_forall in *.
    destruct (key_bindings s name digest) as [|b l] eqn:Eb; [constructor|]. rewrite <- Eb, <- handovers_exclusive.
    rewrite <- owners_bindings. apply E. rewrite <- owners_bindings in Eb. clear E.
    induction (retry_owners s) as [|o os IH]; [done|]. rewrite filter_cons in Eb. destruct (decide _) as [<-|]; [by left|]. right. auto.
  - intros H. replace (forallb _ _) with true; [done|]. symmetry. apply forallb_forall. intros [name digest] _.
    rewrite handovers_exclusive, owners_bindings. apply H.
Qed.

(** The bindings outside one job. *)
Definition other_bindings (s : storeState) (id name digest : string) : list (Job * Z) :=
  concat (map (fun kv => job_bindings name digest (snd kv)) (map_to_list (delete id (st_jobs s)))).

Lemma bindings_split s id j name digest :
  st_jobs s !! id = Some j -> key_bindings s name digest ≡ₚ job_bindings name digest j ++ other_bindings s id name digest.
Proof.
  intros H. unfold key_bindings, other_bindings. rewrite <- (map_to_list_delete (st_jobs s) id j H). done.
Qed.

Lemma bindings_put s j name digest :
  key_bindings (st_put_job s j) name digest ≡ₚ job_bindings name digest j ++ other_bindings s (j_ID j) name digest.
Proof.
  rewrite (bindings_split (st_put_job s j) (j_ID j) j); [|cbn; apply lookup_insert_eq]. unfold other_bindings. cbn.
  by rewrite delete_insert_eq.
Qed.

Lemma bindings_fresh s id name digest : st_jobs s !! id = None -> other_bindings s id name digest = key_bindings s name digest.
Proof. intros H. unfold other_bindings. by rewrite delete_id. Qed.

(** When one job bound one key. *)
Definition job_times (name digest : string) (j : Job) : list Z :=
  match job_policy j with
  | Some (a, p) =>
      if as_Name a ==? name then map rb_BoundAt (filter (fun b => rb_Digest b = digest) (ap_RetryKeys p)) else []
  | None => []
  end.

Lemma job_bindings_times name digest j : job_bindings name digest j = map (pair j) (job_times name digest j).
Proof.
  unfold job_bindings, job_times. destruct (job_policy j) as [[a p]|]; [|done]. case_bool_decide; [|done]. by rewrite map_map.
Qed.

(** ** Bindings change only by handing the key on *)

(** A later version of a job: one that had finished stays as it was. *)
Definition settled (j j' : Job) : Prop :=
  terminal (j_Status j) = true -> j_Status j' = j_Status j /\ j_FinishedAt j' = j_FinishedAt j.

Lemma handed_settled j j' t y : settled j j' -> handed (j, t) y -> handed (j', t) y.
Proof.
  intros Hs [H1 (f & F1 & F2 & F3)]. cbn in *. destruct (Hs F2) as [E1 E2]. split; [done|]. exists f. cbn. by rewrite E1, E2.
Qed.

Lemma exclusive_settled j j' t y : settled j j' -> exclusive (j, t) y -> exclusive (j', t) y.
Proof. intros Hs [H|[H1 H2]]; [left; by eapply handed_settled|by right]. Qed.

(** One new version of a job with at most one new binding, to which every
    earlier holder of the key has handed over. *)
Lemma bindings_advance old j' B ts new :
  match old with Some j => settled j j' /\ ForallOrdPairs exclusive (map (pair j) ts ++ B) | None => ts = [] /\ ForallOrdPairs exclusive B end ->
  (length new <= 1)%nat ->
  (forall t y, t ∈ new -> y ∈ match old with Some j => map (pair j) ts | None => [] end ++ B -> handed y (j', t)) ->
  ForallOrdPairs exclusive (map (pair j') (ts ++ new) ++ B).
Proof.
  intros Hold Hlen Hnew. rewrite map_app.
  assert (Hp : map (pair j') new ++ (map (pair j') ts ++ B) ≡ₚ (map (pair j') ts ++ map (pair j') new) ++ B) by solve_Permutation.
  apply (FOP_perm exclusive _ _ Hp). apply FOP_app. split_and!.
  - apply FOP_short. by rewrite length_map.
  - destruct old as [j|]; [|by destruct Hold as [-> ?]]. destruct Hold as [Hs H]. apply FOP_app in H as (H1 & H2 & H3).
    apply FOP_app. split_and!; [|done|].
    + clear - H1 Hs. induction ts as [|t ts IH]; [constructor|]. inversion H1 as [|? ? H2 H3]; subst. cbn. constructor; [|by apply IH].
      apply Forall_forall. intros z (u & -> & Hu)%list_elem_of_fmap. rewrite Forall_forall in H2.
      apply (exclusive_settled j); [done|]. symmetry. apply (exclusive_settled j); [done|]. symmetry. apply H2, list_elem_of_fmap. eauto.
    + apply Forall_forall. intros z (u & -> & Hu)%list_elem_of_fmap. rewrite Forall_forall in H3.
      eapply Forall_impl; [apply (H3 (j, u)), list_elem_of_fmap; eauto|]. intros y. by apply exclusive_settled.
  - apply Forall_forall. intros z (t & -> & Ht)%list_elem_of_fmap. apply Forall_forall. intros y Hy. right.
    apply elem_of_app in Hy as [Hy|Hy]; [|by apply Hnew; [|apply elem_of_app; right]].
    destruct old as [j|]; [|by destruct Hold as [-> ?]; apply not_elem_of_nil in Hy].
    destruct Hold as [Hs _]. apply list_elem_of_fmap in Hy as (u & -> & Hu). apply (handed_settled j); [done|].
    apply Hnew; [done|]. apply elem_of_app. left. apply list_elem_of_fmap. eauto.
Qed.

Definition old_times (name digest : string) (old : option Job) : list Z :=
  match old with Some j => job_times name digest j | None => [] end.

Lemma keys_put s j' :
  keys_ok s -> (forall j, st_jobs s !! j_ID j' = Some j -> settled j j') ->
  (forall name digest, exists new,
     job_times name digest j' = old_times name digest (st_jobs s !! j_ID j') ++ new /\ (length new <= 1)%nat /\
     (forall t y, t ∈ new -> y ∈ key_bindings s name digest -> handed y (j', t))) ->
  keys_ok (st_put_job s j').
Proof.
  intros Hk Hs Hnew name digest. destruct (Hnew name digest) as (new & Ht & Hlen & Hh). specialize (Hk name digest).
  eapply FOP_perm; [apply _|symmetry; apply bindings_put|]. rewrite job_bindings_times, Ht.
  apply (bindings_advance (st_jobs s !! j_ID j')); [|done|].
  - destruct (st_jobs s !! j_ID j') as [j|] eqn:Ej; cbn.
    + split; [by apply Hs|]. rewrite <- job_bindings_times. eapply FOP_perm; [apply _|by apply bindings_split|done].
    + split; [done|]. by rewrite bindings_fresh.
  - intros t y Ht' Hy. apply Hh; [done|]. destruct (st_jobs s !! j_ID j') as [j|] eqn:Ej; cbn in *.
    + rewrite bindings_split by done. by rewrite job_bindings_times.
    + by rewrite <- (bindings_fresh s (j_ID j')).
Qed.

Lemma keys_update s j j' :
  keys_ok s -> st_jobs s !! j_ID j' = Some j -> settled j j' -> job_policy j' = job_policy j \/
    (exists a a' p, job_policy j = Some (a, p) /\ job_policy j' = Some (a', p) /\ as_Name a' = as_Name a) ->
  keys_ok (st_put_job s j').
Proof.
  intros Hk Hj Hs Hp. apply keys_put; [done| |].
  - intros k Hk'. rewrite Hj in Hk'. by injection Hk' as <-.
  - intros name digest. exists []. rewrite Hj, app_nil_r. cbn. split_and!; [|lia|intros t y []%not_elem_of_nil].
    unfold job_times. destruct Hp as [->|(a & a' & p & -> & -> & ->)]; done.
Qed.

(** ** A checked assignment *)

Lemma latest_spec l : forall acc o, result_fold latest_step acc l = Ok o ->
  match o with
  | None => acc = None /\ l = []
  | Some m => (m ∈ l \/ acc = Some m) /\ forall y, y ∈ l \/ acc = Some y -> snd y <= snd m
  end.
Proof.
  induction l as [|b l IH]; intros acc o H; cbn in H.
  - injection H as <-. destruct acc; [|done]. split; [by right|]. intros y [[]%not_elem_of_nil|[= ->]]. done.
  - ok_step H. apply IH in H. clear IH. unfold latest_step in E. destruct acc as [[k t]|].
    + ok_step E. breflect. destruct o as [m|]; [|destruct H as [-> _]; by case_match].
      destruct H as [H1 H2]. destruct (t <? snd b) eqn:El; injection E as <-; breflect.
      * split; [destruct H1 as [?|[= ->]]; left; [by right|by left]|]. pose proof (H2 b (or_intror eq_refl)).
        intros y [[->|?]%elem_of_cons|[= <-]]; [done|by apply H2; left|cbn; lia].
      * split; [destruct H1 as [?|?]; [left; by right|by right]|]. pose proof (H2 (k, t) (or_intror eq_refl)) as Hm. cbn in Hm.
        intros y [[->|?]%elem_of_cons|[= <-]]; [lia|by apply H2; left|done].
    + injection E as <-. destruct o as [m|]; [|naive_solver]. destruct H as [H1 H2].
      split; [destruct H1 as [?|[= ->]]; left; [by right|by left]|].
      intros y [[->|?]%elem_of_cons|?]; [by apply H2; right|by apply H2; left|done].
Qed.

Lemma key_assigned s name b now j :
  keys_ok s -> validateActionKeyAssignment s name b now = Ok tt ->
  rb_BoundAt b = now /\ forall y, y ∈ key_bindings s name (rb_Digest b) -> handed y (j, now).
Proof.
  intros Hk H. unfold validateActionKeyAssignment in H. do 2 ok_step H. breflect. split; [done|]. intros y Hy.
  unfold latestActionRetry in *. match goal with X : result_fold _ _ _ = Ok _ |- _ => apply latest_spec in X; rename X into Hl end.
  destruct a as [[m t]|]; [|destruct Hl as [_ Hl]; rewrite Hl in Hy; by apply not_elem_of_nil in Hy].
  destruct Hl as [[Hm|?] Hmax]; [|done]. ok_step H. breflect. destruct_and?.
  assert (Hh : handed (m, t) (j, now)).
  { match goal with X : actionRetryKeyLive m now = false |- _ => unfold actionRetryKeyLive in X end. breflect. destruct_and?.
    split; [cbn; lia|]. destruct (j_FinishedAt m) as [f|] eqn:Ef; [|done]. exists f. breflect. split_and!; try done. }
  destruct (ForallOrdPairs_In (Hk name (rb_Digest b)) y (m, t)) as [->|[Hx|Hx]]; try by apply list_elem_of_In.
  - done.
  - destruct Hx as [Hx|[Hx _]]; [by etrans|]. specialize (Hmax y (or_introl Hy)). cbn in *. lia.
  - destruct Hx as [[Hx _]|Hx]; [|by etrans]. specialize (Hmax y (or_introl Hy)). cbn in *. lia.
Qed.

(** ** The invariant *)

Section Histories.
Context {U : UnicodeTables}.

Definition history_at (s : storeState) (id : string) (j : Job) : Prop :=
  history_ok j (listat (st_events s) id) (Zat (st_prunedThrough s) id) (Zat (st_latestEventByJob s) id).

Record histories (s : storeState) : Prop := {
  hi_keys : keys_ok s;
  hi_jobs : forall id j, st_jobs s !! id = Some j -> history_at s id j
}.

Lemma validateActionHistory_ok s : validateActionHistory s = Ok tt <-> histories s.
Proof.
  unfold validateActionHistory. split.
  - intros H. ok_step H. destruct a. apply check_all_ok in H. split; [by apply validateActionRetryHistory_ok|].
    intros id j Hj. rewrite Forall_forall in H. apply validate_job_history_ok, (H (id, j)). by apply elem_of_map_to_list.
  - intros [H1 H2]. apply validateActionRetryHistory_ok in H1. rewrite H1. cbn [result_bind]. apply check_all_ok, Forall_forall.
    intros [id j] Hj%elem_of_map_to_list. apply validate_job_history_ok. by apply H2.
Qed.

(** A record that touches only job [k] and its log. *)
Lemma histories_put s s' k :
  histories s -> keys_ok s' -> (forall id, id <> k -> st_jobs s' !! id = st_jobs s !! id /\ log_of s' id = log_of s id) ->
  (forall j, st_jobs s' !! k = Some j -> history_at s' k j) -> histories s'.
Proof.
  intros [_ H] Hk Hne Hself. split; [done|]. intros id j Hj. destruct (decide (id = k)) as [->|Hid]; [by apply Hself|].
  destruct (Hne id Hid) as [He Hl]. unfold history_at. unfold log_of in Hl. injection Hl as -> -> ->. rewrite He in Hj. by apply H.
Qed.

Lemma histories_frame s s' :
  histories s -> st_jobs s' = st_jobs s -> (forall id, log_of s' id = log_of s id) -> histories s'.
Proof.
  intros [H1 H2] Hj Hl. split.
  - intros name digest. unfold key_bindings. rewrite Hj. apply H1.
  - intros id j. rewrite Hj. intros H%H2. unfold history_at in *. specialize (Hl id). unfold log_of in Hl. by injection Hl as -> -> ->.
Qed.

Lemma created_histories s r s' : events_inv s -> histories s -> applyJobCreated s r = Ok s' -> histories s'.
Proof.
  intros He H (j & i & _ & _ & Hv & Hst & _ & Hseq & Hpol & Hnone & _ & _ & ->)%applyJobCreated_inv.
  apply (histories_put s _ (j_ID j)); [done| | |].
  - apply keys_put; [apply H|congruence|]. intros name digest. exists (job_times name digest j). rewrite Hnone. split; [done|].
    unfold job_times. destruct (job_policy j) as [[a p]|] eqn:Ep; [|split; [cbn; lia|intros t y []%not_elem_of_nil]].
    destruct (Hpol a p eq_refl) as [Hlen Hall]. case_bool_decide as Hn; [|split; [cbn; lia|intros t y []%not_elem_of_nil]].
    split; [rewrite length_map; etrans; [apply length_filter|done]|].
    intros t y (b & -> & [Hd Hb]%list_elem_of_filter)%list_elem_of_fmap Hy. rewrite Forall_forall in Hall.
    destruct (key_assigned s (as_Name a) b (r_RecordedAt r) j (hi_keys _ H) (Hall b Hb)) as [-> Hh]. apply Hh. by rewrite Hn, Hd.
  - intros id Hid. split; [cbn; by rewrite lookup_insert_ne|done].
  - cbn. intros j' Hj'. rewrite lookup_insert_eq in Hj'. injection Hj' as <-. pose proof (ei_absent _ He _ Hnone) as Hl.
    unfold history_at. cbn. unfold log_of in Hl. injection Hl as -> -> ->. by apply history_created.
Qed.

Lemma evolved_settled old new : job_evolves old new -> settled old new.
Proof. intros [->|(_ & _ & _ & H)] Ht; [done|]. destruct (H Ht) as (_ & _ & <-). done. Qed.

Lemma running_settled old new : terminal (j_Status old) = false -> settled old new.
Proof. intros H. unfold settled. congruence. Qed.

(** What the policy of an action becomes when its job is updated. *)
Lemma updated_policy previous next :
  sameImmutableJobFields previous next = true -> (present (j_Action previous) = true -> validActionJobUpdate previous next = true) ->
  job_policy next = job_policy previous \/
  (exists a a' p, job_policy previous = Some (a, p) /\ job_policy next = Some (a', p) /\ as_Name a' = as_Name a).
Proof.
  intros (_ & _ & _ & _ & _ & _ & _ & Hb)%sameImmutable_spec Hu. unfold validActionJobUpdate in Hu.
  destruct (j_Action previous) as [a|] eqn:Ea, (j_Action next) as [a'|] eqn:Ea'; try done; [|left; unfold job_policy; by rewrite Ea, Ea'].
  specialize (Hu eq_refl). destruct (decide (a = a')) as [->|Hne]; [left; unfold job_policy; by rewrite Ea, Ea'|].
  rewrite bool_decide_eq_false_2 in Hu by done. destruct (as_Cancellation a); [done|]. destruct (as_Cancellation a') as [c|]; [|done].
  breflect. destruct Hu as [_ Hn]. rewrite <- Hn in Ea'. cbn in Ea'. injection Ea' as <-.
  destruct (as_Policy a) as [p|] eqn:Ep.
  - right. exists a, (as_with_Cancellation a c), p. split_and!; [by apply job_policy_Some| |done]. apply job_policy_Some. by rewrite <- Hn.
  - left. unfold job_policy. rewrite <- Hn, Ea. cbn. by rewrite Ep.
Qed.

Lemma updated_histories s r s' : jobs_wf s -> histories s -> applyJobUpdated s r = Ok s' -> histories s'.
Proof.
  intros Hwf H (next & previous & _ & Hv & Hp & Hr & Hi & Ha & Hu & ->)%applyJobUpdated_inv.
  destruct (Hwf _ _ Hp) as (Hid & Hvp & Hrev). pose proof (validatePersistedJob_fields _ Hv) as (_ & _ & Hr0 & _).
  pose proof (validatePersistedJob_fields _ Hvp) as (Hsv & _).
  assert (Hk : keys_ok (st_put_job s next)).
  { apply (keys_update s previous); [apply H|done| |by apply updated_policy]. by apply evolved_settled, update_evolves. }
  apply (histories_put s _ (j_ID next)); [done|done| |].
  - intros id Hne. split; [cbn; by rewrite lookup_insert_ne|done].
  - cbn. intros j' Hj'. rewrite lookup_insert_eq in Hj'. injection Hj' as <-. eapply history_updated; [done..|]. by apply (hi_jobs _ H).
Qed.

Lemma event_histories s r s' : histories s -> applyEvent s r = Ok s' -> histories s'.
Proof.
  intros H (e & j & _ & Hj & Hn & He & _ & _ & _ & _ & ->)%applyEvent_inv.
  apply (histories_put s _ (ev_JobID e)); [done|apply H| |].
  - intros id Hne. split; [done|]. by log_simpl.
  - cbn. intros j' Hj'. rewrite Hj in Hj'. injection Hj' as <-. unfold history_at. log_simpl.
    eapply history_plain_append; [done..|]. by apply (hi_jobs _ H).
Qed.

Lemma prune_histories s r s' : histories s -> applyPrune s r = Ok s' -> histories s'.
Proof.
  intros H (p & j & _ & Hj & Hn & _ & ->)%applyPrune_inv. apply (histories_put s _ (ep_JobID p)); [done|apply H| |].
  - intros id Hne. split; [done|]. by log_simpl.
  - cbn. intros j' Hj'. rewrite Hj in Hj'. injection Hj' as <-. unfold history_at. log_simpl.
    eapply history_plain_prune; [done|]. by apply (hi_jobs _ H).
Qed.

Lemma action_policy previous e now next :
  actionJobAfterEvent previous e now = Ok next ->
  job_policy next = job_policy previous \/
  (exists a a' p, job_policy previous = Some (a, p) /\ job_policy next = Some (a', p) /\ as_Name a' = as_Name a).
Proof.
  intros (a & Ha & _ & _ & _ & _ & _ & _ & _ & Han & _)%actionJobAfterEvent_inv. destruct (as_Policy a) as [p|] eqn:Ep.
  - right. exists a, (as_after a (ae_Seq e) (actionOutcome e)), p. rewrite !job_policy_Some. done.
  - left. unfold job_policy. rewrite Ha, Han. cbn. by rewrite Ep.
Qed.

Lemma action_histories s r s' :
  jobs_wf s -> events_inv s -> histories s -> applyActionEvent s r = Ok s' -> histories s'.
Proof.
  intros Hwf He H (es & next & prev & a & sv & id & lst & _ & _ & _ & Hp & Ha & Ht & _ & Hs & Hf & Hpr & Hl & Hn & ->)%applyActionEvent_inv.
  destruct (Hwf _ _ Hp) as (Hid & Hvp & _).
  assert (Hk : keys_ok (st_put_job s next)).
  { apply (keys_update s prev); [apply H|done|by apply running_settled|by eapply action_policy]. }
  apply (histories_put s _ (j_ID next)); [done|by destruct (r_Prune r)| |].
  - intros i Hne. rewrite Hid. destruct (r_Prune r); cbn zeta; log_simpl; by rewrite lookup_insert_ne.
  - cbn zeta. intros j' Hj'.
    assert (j' = next) as -> by (destruct (r_Prune r); cbn in Hj'; rewrite lookup_insert_eq in Hj'; by injection Hj').
    pose proof (hi_jobs _ H _ _ Hp) as Hold. unfold history_at in *. rewrite Hid.
    rewrite <- Hid in Hold |- *. pose proof (lo_watermarks _ _ _ _ _ (ei_logs _ He (j_ID prev))) as [[Hz _] _].
    pose proof (history_action _ _ _ _ _ _ s _ _ _ _ (r_Prune r) _ _ Hvp Ha Hz Hold eq_refl Hs Hf Hpr Hl Hn) as Hx.
    destruct (r_Prune r); log_simpl; exact Hx.
Qed.

Lemma bound_times previous next pa pp b name digest :
  job_policy previous = Some (pa, pp) ->
  next = j_with_Action (j_with_Revision previous (u64_succ (j_Revision previous)))
           (Some (as_with_Policy pa (Some (ap_with_RetryKeys pp (ap_RetryKeys pp ++ [b]))))) ->
  job_times name digest next =
  job_times name digest previous ++ (if (as_Name pa ==? name) && (rb_Digest b ==? digest) then [rb_BoundAt b] else []).
Proof.
  intros Hp ->. unfold job_times. rewrite Hp. cbn. case_bool_decide; [|done]. rewrite filter_app, map_app. f_equal.
  rewrite filter_cons. case_bool_decide as Hd; [by rewrite decide_True|by rewrite decide_False].
Qed.

Lemma key_bound_histories s r s' : jobs_wf s -> histories s -> applyActionKeyBound s r = Ok s' -> histories s'.
Proof.
  intros Hwf H (next & previous & pa & pp & b & _ & Hp & Hpol & Ht & _ & _ & _ & Hb & Hn & ->)%applyActionKeyBound_inv.
  destruct (Hwf _ _ Hp) as (Hid & Hvp & _).
  destruct (key_assigned s (as_Name pa) b (r_RecordedAt r) next (hi_keys _ H) Hb) as [Hat Hh].
  assert (Hk : keys_ok (st_put_job s next)).
  { apply keys_put; [apply H| |].
    - intros j Hj. rewrite Hp in Hj. injection Hj as <-. by apply running_settled.
    - intros name digest. eexists. rewrite Hp. split; [by eapply bound_times|].
      destruct (_ && _) eqn:E; [|split; [cbn; lia|intros t y []%not_elem_of_nil]]. split; [done|].
      breflect. destruct E as [<- <-]. intros t y ->%list_elem_of_singleton Hy. rewrite Hat. by apply Hh. }
  apply (histories_put s _ (j_ID next)); [done|done| |].
  - intros id Hne. split; [cbn; by rewrite lookup_insert_ne|done].
  - cbn. intros j' Hj'. rewrite lookup_insert_eq in Hj'. injection Hj' as <-. unfold history_at. cbn. rewrite Hn.
    apply history_key_bound; [done..|]. rewrite <- Hn. by apply (hi_jobs _ H).
Qed.

(** Everything recovery relies on. *)
Record recoverable (s : storeState) : Prop := {
  rc_inv : state_inv s;
  rc_histories : st_snapshot s = None -> histories s;
  rc_started : st_lastRecordSequence s = 0 \/ st_initialized s = true
}.

Lemma apply_kind_histories s r s' :
  state_inv s -> (st_snapshot s = None -> histories s) ->
  (present (st_snapshot s) = true -> isSnapshotContinuation (r_Kind r) = true) ->
  apply_kind s r = Ok s' -> st_snapshot s' = None -> histories s'.
Proof.
  intros [Hwf He] H Hcont Hk Hs'.
  assert (Hnone : isSnapshotContinuation (r_Kind r) = false -> histories s).
  { intros Hf. apply H. destruct (st_snapshot s); [|done]. rewrite Hcont in Hf; done. }
  unfold apply_kind in Hk. destruct (r_Kind r) eqn:Er; cbn in Hnone.
  - unfold applyInitialized in Hk. ok_path Hk. subst s'. by eapply histories_frame; [apply Hnone| |].
  - eapply created_histories; eauto.
  - eapply updated_histories; eauto.
  - eapply event_histories; eauto.
  - eapply action_histories; eauto.
  - eapply key_bound_histories; eauto.
  - eapply prune_histories; eauto.
  - apply applySnapshotBegin_inv in Hk as (b & d & _ & _ & _ & ->). done.
  - unfold applyJobSnapshot in Hk. ok_step Hk. destruct (st_snapshot s); [|done]. destruct (r_Job r); [|done]. ok_path Hk. by subst s'.
  - unfold applyIdempotencySnapshot in Hk. ok_step Hk. destruct (st_snapshot s); [|done]. destruct (r_Idempotency r); [|done].
    destruct (st_jobs s !! _); [|done]. ok_path Hk. by subst s'.
  - by apply applyEventCursor_inv in Hk as (sp & c & d & _ & _ & _ & _ & _ & ->).
  - by apply applyEventSnapshot_inv in Hk as (sp & e & d & _ & _ & _ & _ & _ & _ & _ & ->).
  - apply applySnapshotEnd_inv in Hk as (sp & _ & _ & _ & Hv & ->). apply validateActionHistory_ok in Hv.
    by eapply histories_frame.
  - done.
Qed.

Lemma apply_kind_initialized s r s' :
  apply_kind s r = Ok s' -> (r_Kind r <> recordStoreInitialized -> st_initialized s = true) -> st_initialized s' = true.
Proof.
  intros Hk Hi. unfold apply_kind in Hk. destruct (r_Kind r); try specialize (Hi ltac:(done)).
  - unfold applyInitialized in Hk. ok_path Hk. by subst.
  - by apply applyJobCreated_inv in Hk as (j & i & _ & _ & _ & _ & _ & _ & _ & _ & _ & _ & ->).
  - by apply applyJobUpdated_inv in Hk as (next & previous & _ & _ & _ & _ & _ & _ & _ & ->).
  - by apply applyEvent_inv in Hk as (e & j & _ & _ & _ & _ & _ & _ & _ & _ & ->).
  - apply applyActionEvent_inv in Hk as (es & next & prev & a & sv & id & lst & _ & _ & _ & _ & _ & _ & _ & _ & _ & _ & _ & _ & ->).
    by destruct (r_Prune r).
  - by apply applyActionKeyBound_inv in Hk as (next & previous & pa & pp & b & _ & _ & _ & _ & _ & _ & _ & _ & _ & ->).
  - by apply applyPrune_inv in Hk as (p & j & _ & _ & _ & _ & ->).
  - by apply applySnapshotBegin_inv in Hk as (b & d & _ & _ & _ & ->).
  - unfold applyJobSnapshot in Hk. ok_step Hk. destruct (st_snapshot s); [|done]. destruct (r_Job r); [|done]. ok_path Hk. by subst s'.
  - unfold applyIdempotencySnapshot in Hk. ok_step Hk. destruct (st_snapshot s); [|done]. destruct (r_Idempotency r); [|done].
    destruct (st_jobs s !! _); [|done]. ok_path Hk. by subst s'.
  - by apply applyEventCursor_inv in Hk as (sp & c & d & _ & _ & _ & _ & _ & ->).
  - by apply applyEventSnapshot_inv in Hk as (sp & e & d & _ & _ & _ & _ & _ & _ & _ & ->).
  - by apply applySnapshotEnd_inv in Hk as (sp & _ & _ & _ & _ & ->).
  - done.
Qed.

Lemma recoverable_init : recoverable newStoreState.
Proof.
  split; [apply state_inv_init| |by left]. intros _. split; [intros name digest; constructor|].
  intros id j. cbn. by rewrite lookup_empty.
Qed.

Lemma recoverable_apply s r s' : recoverable s -> numbers_fit r -> state_apply s r = Ok s' -> recoverable s'.
Proof.
  intros [H1 H2 H3] Hn Ha. pose proof (state_apply_inv_preserved s r s' H1 Hn Ha) as H1'.
  apply state_apply_inv in Ha as (s1 & Hk & -> & _ & _ & _ & Hcont & Hi). split; [done| |].
  - intros Hs. by eapply histories_frame; [exact (apply_kind_histories s r s1 H1 H2 Hcont Hk Hs)| |].
  - right. exact (apply_kind_initialized s r s1 Hk Hi).
Qed.

Lemma recoverable_line s l s' : recoverable s -> apply_jl s l = Ok s' -> recoverable s'.
Proof.
  intros H Hl. destruct l as [r| |]; cbn in Hl; try done. ok_step Hl. breflect.
  eapply recoverable_apply; [done| |exact Hl]. by apply reread_numbers, typed_numbers.
Qed.

Lemma recoverable_lines ls s s' : recoverable s -> result_fold apply_jl s ls = Ok s' -> recoverable s'.
Proof. apply result_fold_inv, recoverable_line. Qed.

Lemma recoverable_valid s : recoverable s -> st_snapshot s = None -> validateRecovered s = Ok tt.
Proof.
  intros [_ H1 H2] Hs. unfold validateRecovered. rewrite Hs. cbn [present]. rewrite (proj2 (validateActionHistory_ok s) (H1 Hs)).
  destruct H2 as [-> | ->]; [done|]. cbn [negb]. by rewrite andb_false_r.
Qed.

Lemma recovers ls tail st :
  result_fold apply_jl newStoreState ls = Ok st -> st_snapshot st = None -> recoverJournal (mkJFile ls tail) = Ok (mkJFile ls false, st).
Proof.
  intros H Hs. unfold recoverJournal, applyJournalTail. cbn [jf_lines]. change (drop 0 ls) with ls. rewrite H. cbn [result_bind].
  rewrite recoverable_valid; [done| |done]. exact (recoverable_lines _ _ _ recoverable_init H).
Qed.

(** C20: recovery accepts exactly the journals that were accepted record by
    record.  It re-validates more than the acceptance of a single record does:
    the frames of every action against a fresh stream validator, the recorded
    result and error against the last frame, and the successive owners of every
    retry key.  Yet whatever lines the file holds, recovery returns a state if
    and only if applying the lines one by one leads to that state with no
    snapshot left open; a torn last line is cut off and makes no difference. *)
Theorem recovery_accepts_accepted_journals (ls : list jl) (tail : bool) (f : JFile) (s : storeState) :
  recoverJournal (mkJFile ls tail) = Ok (f, s) <->
  f = mkJFile ls false /\ result_fold apply_jl newStoreState ls = Ok s /\ st_snapshot s = None.
Proof.
  split; [|intros (-> & H & Hs); by apply recovers]. intros (Hf & Hl & _ & Hs & _)%recoverJournal_inv. done.
Qed.
End Histories.

Lemma recovery_accepts_accepted_journals_witness :
  exists s, result_fold apply_jl newStoreState demo_action_lines = Ok s /\ length (all_jobs s) = 3%nat /\
    recoverJournal (mkJFile demo_action_lines true) = Ok (mkJFile demo_action_lines false, s).
Proof.
  assert (H : match result_fold apply_jl newStoreState demo_action_lines with
              | Ok s => negb (present (st_snapshot s)) && (length (all_jobs s) =? 3)%nat | Err _ => false end = true)
    by (vm_compute; reflexivity).
  destruct (result_fold apply_jl newStoreState demo_action_lines) as [s|] eqn:E; [|discriminate H].
  apply andb_true_iff in H as [H1 H2]. exists s. split; [reflexivity|]. split; [by apply Nat.eqb_eq|].
  apply recovery_accepts_accepted_journals. split; [done|]. split; [exact E|]. by destruct (st_snapshot s).
Defined.
