(* ===== verification/JobReceiptsFacts.v ===== *)
(** * Package [internal/consolejobs]: append receipts and the execution lease,
    proved *)

From S2P Require Import Prelude GoText JobTypes ActionAbi HostConfirmation JobReceipts.

(** ** Receipts *)

Definition growth : Type := journalSnapshot * journalSnapshot.

(** The log after a history of published appends. *)
Definition log_of (history : list growth) : journalReceiptLog :=
  fold_left (fun log p => log_record log (fst p) (snd p)) history newJournalReceiptLog.

(** Every receipt was published, and sits in one of the ring's used slots. *)
Record log_inv (history : list growth) (log : journalReceiptLog) : Prop := {
  li_published b r : lg_receipts log !! b = Some r -> (b, ra_after r) ∈ history;
  li_slot b r : lg_receipts log !! b = Some r ->
                exists k, (k < lg_count log)%nat /\ lg_order log !! k = Some (mkIndex b (ra_serial r));
  li_length : length (lg_order log) = journalAppendReceiptsLimit;
  li_count : (lg_count log <= journalAppendReceiptsLimit)%nat;
  li_next : (lg_next log < journalAppendReceiptsLimit)%nat;
  li_fresh : (lg_count log < journalAppendReceiptsLimit)%nat -> lg_next log = lg_count log
}.

Lemma empty_log_inv history serial :
  log_inv history (mkLog ∅ (repeat zero_index journalAppendReceiptsLimit) 0 0 serial).
Proof.
  split; cbn [lg_receipts lg_order lg_next lg_count].
  - intros b r Hb. by rewrite lookup_empty in Hb.
  - intros b r Hb. by rewrite lookup_empty in Hb.
  - apply repeat_length.
  - lia.
  - unfold journalAppendReceiptsLimit. lia.
  - done.
Qed.

Lemma log_inv_weaken history x log : log_inv history log -> log_inv (history ++ [x]) log.
Proof.
  intros [H1 H2 H3 H4 H5 H6]. split; try done. intros b r Hb. apply elem_of_app. left. by apply H1.
Qed.

(** Publishing into slot [next], once the slot's old receipt is gone. *)
Lemma publish_inv history receipts order next count count' serial before after :
  length order = journalAppendReceiptsLimit -> (next < journalAppendReceiptsLimit)%nat ->
  (count' <= journalAppendReceiptsLimit)%nat -> (next < count')%nat -> (count <= count')%nat ->
  (count' < journalAppendReceiptsLimit -> S next = count')%nat ->
  (forall b r, receipts !! b = Some r -> (b, ra_after r) ∈ history) ->
  (forall b r, receipts !! b = Some r ->
     exists k, (k < count)%nat /\ k <> next /\ order !! k = Some (mkIndex b (ra_serial r))) ->
  log_inv (history ++ [(before, after)])
    (mkLog (<[before := mkReceipt after serial]> receipts) (<[next := mkIndex before serial]> order)
       (S next mod journalAppendReceiptsLimit) count' serial).
Proof.
  intros Hlen Hnext Hcount Hused Hle Hfresh Hpub Hslot. split; cbn [lg_receipts lg_order lg_next lg_count].
  - intros b r Hb. apply elem_of_app. destruct (decide (before = b)) as [<-|Hne].
    + rewrite lookup_insert_eq in Hb. simplify_eq. right. by apply list_elem_of_singleton.
    + rewrite lookup_insert_ne in Hb by done. left. by apply Hpub.
  - intros b r Hb. destruct (decide (before = b)) as [<-|Hne].
    + rewrite lookup_insert_eq in Hb. simplify_eq. exists next. split; [done|].
      rewrite list_lookup_insert_eq; [done|lia].
    + rewrite lookup_insert_ne in Hb by done. destruct (Hslot b r Hb) as (k & Hk & Hkn & Ho).
      exists k. split; [lia|]. by rewrite list_lookup_insert_ne.
  - by rewrite length_insert.
  - done.
  - apply Nat.mod_upper_bound. done.
  - intros Hc. specialize (Hfresh Hc). rewrite Nat.mod_small; lia.
Qed.

Lemma log_record_inv history log before after :
  log_inv history log -> log_inv (history ++ [(before, after)]) (log_record log before after).
Proof.
  intros Hinv. unfold log_record. destruct (_ <=? _); [by apply log_inv_weaken|].
  set (log1 := if _ ==? 0 then _ else _).
  assert (H1 : log_inv history log1).
  { unfold log1. destruct (_ ==? 0); [apply empty_log_inv|]. by destruct Hinv; split. }
  destruct H1 as [Hpub Hslot Hlen Hcount Hnext Hfresh]. clearbody log1.
  destruct (lg_count log1 =? journalAppendReceiptsLimit)%nat eqn:Efull.
  - apply Nat.eqb_eq in Efull.
    destruct (lookup_lt_is_Some_2 (lg_order log1) (lg_next log1)) as [evicted Hev]; [lia|]. rewrite Hev.
    assert (Hkeep : forall b r, lg_receipts log1 !! b = Some r ->
              b <> ri_before evicted \/ ra_serial r <> ri_serial evicted ->
              exists k, (k < lg_count log1)%nat /\ k <> lg_next log1 /\ lg_order log1 !! k = Some (mkIndex b (ra_serial r))).
    { intros b r Hb Hd. destruct (Hslot b r Hb) as (k & Hk & Ho). exists k. split_and!; [done| |done].
      intros ->. rewrite Hev in Ho. simplify_eq. cbn in Hd. destruct Hd; congruence. }
    destruct (lg_receipts log1 !! ri_before evicted) as [current|] eqn:Ec.
    + case_bool_decide as Hs.
      * apply publish_inv with (count := lg_count log1); try done; try lia.
        -- intros b r Hb. apply lookup_delete_Some in Hb as [_ Hb]. by apply Hpub.
        -- intros b r [Hne Hb]%lookup_delete_Some. apply Hkeep; [done|]. by left.
      * apply publish_inv with (count := lg_count log1); try done; try lia.
        intros b r Hb. apply Hkeep; [done|]. destruct (decide (b = ri_before evicted)) as [->|]; [|by left].
        right. congruence.
    + apply publish_inv with (count := lg_count log1); try done; try lia.
      intros b r Hb. apply Hkeep; [done|]. left. intros ->. congruence.
  - apply Nat.eqb_neq in Efull. apply publish_inv with (count := lg_count log1); try done; try lia.
    intros b r Hb. destruct (Hslot b r Hb) as (k & Hk & Ho). exists k. split_and!; [done| |done]. lia.
Qed.

Lemma log_of_inv history : log_inv history (log_of history).
Proof.
  induction history as [|[b a] history IH] using rev_ind; [apply empty_log_inv|].
  unfold log_of. rewrite fold_left_app. cbn [fold_left fst snd]. by apply log_record_inv.
Qed.

(** A path of published appends, each of which grows the file. *)
Inductive append_chain (history : list growth) : journalSnapshot -> journalSnapshot -> Prop :=
| chain_one b a : (b, a) ∈ history -> sn_completeBytes b < sn_completeBytes a -> append_chain history b a
| chain_more b m a :
    (b, m) ∈ history -> sn_completeBytes b < sn_completeBytes m -> append_chain history m a -> append_chain history b a.

Lemma follow_sound history receipts n : forall b a,
  (forall k r, receipts !! k = Some r -> (k, ra_after r) ∈ history) ->
  follow n receipts b a = true -> append_chain history b a.
Proof.
  induction n as [|n IH]; intros b a Hpub H; cbn in H; [done|].
  destruct (receipts !! b) as [r|] eqn:Er; [|done]. apply Hpub in Er as Hin.
  destruct (_ || _) eqn:Eb; [done|]. breflect. destruct (ra_after r ==? a) eqn:Ea.
  - breflect. subst a. apply chain_one; [done|lia].
  - apply chain_more with (ra_after r); [done|lia|]. by apply IH.
Qed.

(** The receipt log never keeps more than its limit of receipts, and it
    confirms the growth from one snapshot to another only when the growth is a
    chain of appends that cooperating stores published, each of which grew the
    journal. *)
Theorem receipts_sound history before after :
  (size (lg_receipts (log_of history)) <= journalAppendReceiptsLimit)%nat /\
  (confirmsAppendChain (log_of history) before after = true -> append_chain history before after).
Proof.
  destruct (log_of_inv history) as [Hpub Hslot Hlen _ _ _]. split.
  - rewrite <- Hlen. rewrite <- (length_fmap ri_before (lg_order (log_of history))).
    rewrite <- size_dom. transitivity (size (list_to_set (C := gset _) (ri_before <$> lg_order (log_of history)))).
    + apply subseteq_size. intros b [r Hr]%elem_of_dom. apply elem_of_list_to_set.
      destruct (Hslot b r Hr) as (k & _ & Hk). apply list_elem_of_fmap. eexists. split; [|by eapply list_elem_of_lookup_2]. done.
    + generalize (ri_before <$> lg_order (log_of history)). intros l. induction l as [|x l IH]; cbn.
      * by rewrite size_empty.
      * rewrite size_union_alt, size_singleton.
        transitivity (1 + size (list_to_set (C := gset journalSnapshot) l))%nat; [|lia].
        apply Nat.add_le_mono_l, subseteq_size. intros y [Hy _]%elem_of_difference. done.
  - unfold confirmsAppendChain. destruct (_ <=? _); [done|]. by apply follow_sound.
Qed.

(** ** The execution lease *)

(** The counter is the number of guards that are still held. *)
Definition lease_inv (l : ExecutionLease) : Prop :=
  el_retained l = Z.of_nat (length (el_live l)) /\ NoDup (el_live l) /\ Forall (fun g => g < el_issued l)%nat (el_live l).

Definition new_lease (directory : string) : ExecutionLease := mkLease directory false 0 0 [].

Inductive lease_step : ExecutionLease -> ExecutionLease -> Prop :=
| lease_retain v l : lease_step l (fst (Retain v l))
| lease_release g l : lease_step l (Release g l)
| lease_close v u l : lease_step l (fst (LeaseClose v u l)).

Lemma Release_length (l : list nat) (g : nat) :
  NoDup l -> g ∈ l -> S (length (list_difference l [g])) = length l.
Proof.
  induction 1 as [|x l Hx _ IH]; intros Hg; [by apply not_elem_of_nil in Hg|]. cbn.
  destruct (decide_rel elem_of x [g]) as [Hin|Hin].
  - apply list_elem_of_singleton in Hin as ->. f_equal. clear IH Hg.
    induction l as [|y l IHl]; [done|]. cbn. apply not_elem_of_cons in Hx as [Hxy Hx].
    destruct (decide_rel elem_of y [g]) as [Hy%list_elem_of_singleton|]; [congruence|]. cbn. by rewrite IHl.
  - cbn. apply elem_of_cons in Hg as [->|Hg]; [|by rewrite IH]. exfalso. apply Hin. by apply list_elem_of_singleton.
Qed.

Lemma lease_step_inv l l' : lease_inv l -> lease_step l l' -> lease_inv l'.
Proof.
  intros (Hr & Hnd & Hf) Hstep. destruct Hstep as [v l|g l|v u l].
  - unfold Retain. destruct (el_closed l); [done|]. destruct (negb v); [done|]. split_and!; cbn.
    + rewrite Hr. lia.
    + apply NoDup_cons. split; [|done]. intros Hin. rewrite Forall_forall in Hf. specialize (Hf _ Hin). lia.
    + constructor; [lia|]. eapply Forall_impl; [exact Hf|]. cbn. lia.
  - unfold Release. case_bool_decide as Hg; [|done]. split_and!; cbn.
    + pose proof (Release_length _ _ Hnd Hg). rewrite Hr. lia.
    + by apply NoDup_list_difference.
    + apply Forall_forall. intros x [Hx _]%list_elem_of_difference. rewrite Forall_forall in Hf. by apply Hf.
  - unfold LeaseClose. destruct (el_closed l); [done|]. by destruct (el_retained l !=? 0).
Qed.

(** Execution ownership is never handed over while a supervised execution
    may be alive.  In every history of the lease, as long as one guard has not
    been released, [Close] is refused and the lease stays open. *)
Theorem lease_not_closed_while_retained directory l verified unlocked guard
    (Hl : rtc lease_step (new_lease directory) l) (Hopen : el_closed l = false) (Hg : guard ∈ el_live l) :
  LeaseClose verified unlocked l = (l, Err EExecutionRetained).
Proof.
  assert (Hinv : lease_inv l).
  { clear Hg Hopen. assert (H0 : lease_inv (new_lease directory)) by (split_and!; [done|by apply NoDup_nil|by apply Forall_nil]).
    revert H0. induction Hl as [|x y z Hxy _ IH]; intros H0; [done|]. by eapply IH, lease_step_inv. }
  destruct Hinv as (Hr & _ & _). unfold LeaseClose. rewrite Hopen.
  destruct (el_live l) as [|x rest]; [by apply not_elem_of_nil in Hg|]. cbn in Hr.
  rewrite bool_decide_eq_false_2 by lia. done.
Qed.

Lemma lease_not_closed_while_retained_witness :
  let l := fst (Retain true (new_lease "/var/lib/anas")) in
  LeaseClose true true l = (l, Err EExecutionRetained).
Proof.
  intros l. apply (lease_not_closed_while_retained "/var/lib/anas" l true true 0%nat).
  - apply rtc_once. apply lease_retain.
  - reflexivity.
  - apply list_elem_of_here.
Defined.
