(* ===== verification/JobStoreFacts.v ===== *)
(** * Package [internal/consolejobs]: the engine of the store, proved

    A weakest-precondition calculus for the methods of the store, what a
    successful and a failed commit leave behind, and what an operation sees
    when it runs. *)

From Stdlib Require Import Ascii.
From S2P Require Import Prelude GoText GoJson GoEncoding ActionAbi HostConfirmation JobTypes JobSanitize JobAction.
From S2P Require Import JobJournal JobCompaction JobReceipts JobStore JobOps JobDemo JobJournalFacts JobEventsFacts.

(** ** Weakest preconditions *)

Definition wp {A} (m : M A) (Q : Store -> result job_err A -> Prop) (s : Store) : Prop :=
  Q (fst (m s)) (snd (m s)).

Lemma wp_use {A} (m : M A) Q s s' r : wp m Q s -> m s = (s', r) -> Q s' r.
Proof. unfold wp. intros H E. rewrite E in H. exact H. Qed.
Lemma wp_intro {A} (m : M A) (Q : Store -> result job_err A -> Prop) s :
  (forall s' r, m s = (s', r) -> Q s' r) -> wp m Q s.
Proof. unfold wp. intros H. apply H. by destruct (m s). Qed.

Lemma wp_mono {A} (m : M A) (P Q : Store -> result job_err A -> Prop) s :
  wp m P s -> (forall s' r, P s' r -> Q s' r) -> wp m Q s.
Proof. unfold wp. auto. Qed.

Lemma wp_ret {A} (a : A) Q s : Q s (Ok a) -> wp (ret a) Q s.
Proof. done. Qed.
Lemma wp_fail {A} e Q s : Q s (Err e) -> wp (@fail A e) Q s.
Proof. done. Qed.
Lemma wp_lift {A} (r : result job_err A) Q s : Q s r -> wp (lift r) Q s.
Proof. done. Qed.
Lemma wp_get Q s : Q s (Ok s) -> wp get Q s.
Proof. done. Qed.
Lemma wp_modify f Q s : Q (f s) (Ok tt) -> wp (modify f) Q s.
Proof. done. Qed.
Lemma wp_markUnavailable {A} Q s : Q (js_with_unavailable s true) (Err EUnavailable) -> wp (@markUnavailable A) Q s.
Proof. done. Qed.

Lemma wp_bind {A B} (m : M A) (k : A -> M B) Q s :
  wp m (fun s' r => match r with Ok a => wp (k a) Q s' | Err e => Q s' (Err e) end) s -> wp (bind m k) Q s.
Proof. unfold wp, bind. destruct (m s) as [s' [a|e]]; done. Qed.

Lemma wp_if {A} (b : bool) (m1 m2 : M A) Q s :
  (b = true -> wp m1 Q s) -> (b = false -> wp m2 Q s) -> wp (if b then m1 else m2) Q s.
Proof. destruct b; auto. Qed.

(** One step of symbolic execution. *)
Ltac wp_step :=
  match goal with
  | |- wp (bind _ _) _ _ => apply wp_bind
  | |- wp (ret _) _ _ => apply wp_ret
  | |- wp (fail _) _ _ => apply wp_fail
  | |- wp (lift _) _ _ => apply wp_lift
  | |- wp get _ _ => apply wp_get
  | |- wp (modify _) _ _ => apply wp_modify
  | |- wp markUnavailable _ _ => apply wp_markUnavailable
  | |- wp (if _ then _ else _) _ _ => apply wp_if; intros
  | |- wp (match ?x with _ => _ end) _ _ => destruct x eqn:?
  | |- match ?x with Ok _ => wp _ _ _ | Err _ => _ end => destruct x eqn:?
  end.

(** ** The meaning of a state

    Compaction replaces the state by one that records the same: it forgets
    obsolete history and starts a new generation. *)
Record same_meaning (a b : storeState) : Prop := {
  sm_initialized : st_initialized a = st_initialized b;
  sm_storeID : st_storeID a = st_storeID b;
  sm_lastEventID : st_lastEventID a = st_lastEventID b;
  sm_jobs : st_jobs a = st_jobs b;
  sm_idempotency : st_idempotency a = st_idempotency b;
  sm_logs : forall id, st_jobs a !! id <> None -> log_of a id = log_of b id
}.

#[export] Instance same_meaning_equivalence : Equivalence same_meaning.
Proof.
  split.
  - intros a. by split.
  - intros a b [H1 H2 H3 H4 H5 H6]. split; try done. intros id Hid. symmetry. apply H6. by rewrite H4.
  - intros a b c [H1 H2 H3 H4 H5 H6] [G1 G2 G3 G4 G5 G6]. split; try congruence. intros id Hid.
    rewrite H6 by done. apply G6. by rewrite <- H4.
Qed.

Lemma semanticStateEqual_spec a b : semanticStateEqual a b = true -> same_meaning a b.
Proof.
  unfold semanticStateEqual. rewrite !andb_true_iff. intros (((((H1 & H2) & H3) & H4) & H5) & H6).
  apply bool_decide_eq_true in H1, H2, H3, H4, H5. split; try done. intros id Hid.
  destruct (st_jobs a !! id) as [j|] eqn:Ej; [|done]. rewrite forallb_forall in H6.
  specialize (H6 (id, j)). rewrite <- list_elem_of_In, elem_of_map_to_list in H6. specialize (H6 Ej). cbn in H6. breflect.
  destruct H6 as [[? ?] ?]. unfold log_of. congruence.
Qed.

Section StoreFacts.
Context {U : UnicodeTables}.

(** ** Committing *)

Definition lines_of (s : Store) : list jl := jf_lines (df_file (js_file s)).

(** What never changes while a store is open. *)
Definition same_store (s s' : Store) : Prop :=
  js_directory s' = js_directory s /\ js_options s' = js_options s /\ js_closed s' = js_closed s.

#[export] Instance same_store_preorder : PreOrder same_store.
Proof. split; [done|]. intros a b c (? & ? & ?) (? & ? & ?). unfold same_store. split_and!; congruence. Qed.

(** A commit appended the lines of [body] and the state is [next]. *)
Definition appended (s s' : Store) (next : storeState) (body : list journalRecord) : Prop :=
  js_state s' = next /\ lines_of s' = lines_of s ++ map JLine body /\ jf_tail (df_file (js_file s')) = false /\
  js_journal s' = df_stat (js_file s') /\ js_unavailable s' = js_unavailable s.

(** A commit replaced the journal by a snapshot of [next]. *)
Definition replaced (s s' : Store) (next : storeState) : Prop :=
  exists at_ f, writeCompactedJournal next at_ = Ok (f, js_state s') /\ df_file (js_file s') = f /\
    js_journal s' = df_stat (js_file s') /\ js_unavailable s' = js_unavailable s.

(** Nothing the store answers with has changed, but the journal on disk may
    have: the store is out of service. *)
Definition failed_closed (s s' : Store) : Prop := js_unavailable s' = true /\ js_state s' = js_state s.

(** The store and its journal are exactly as before. *)
Definition untouched (s s' : Store) : Prop :=
  js_state s' = js_state s /\ js_file s' = js_file s /\ js_journal s' = js_journal s /\ js_unavailable s' = js_unavailable s.

Lemma writeCompacted_meaning source at_ f st : writeCompactedJournal source at_ = Ok (f, st) -> same_meaning source st.
Proof.
  unfold writeCompactedJournal. intros H. ok_step H. destruct a as [w b]. ok_step H. destruct a as [f' st']. ok_step H.
  simplify_eq. breflect. destruct_and?. by apply semanticStateEqual_spec.
Qed.

Lemma commit_spec io next body bytes s :
  wp (commitJournalAppendLocked io next body bytes)
     (fun s' r => same_store s s' /\
        match r with
        | Ok _ => js_journal s = df_stat (js_file s) /\ appended s s' next body
        | Err _ => js_state s' = js_state s /\ js_unavailable s' = js_unavailable s
        end) s.
Proof.
  unfold wp, commitJournalAppendLocked. destruct (js_journal s !=? df_stat (js_file s)) eqn:E; [done|]. breflect.
  by destruct io.
Qed.

Lemma compact_spec io source at_ s s' committed err :
  compactJournalStateLocked io source at_ s = (s', (committed, err)) ->
  same_store s s' /\
  ((committed = false /\ err <> None /\ untouched s s') \/ failed_closed s s' \/
   (js_unavailable s' = true /\ committed = false /\ err <> None /\ same_meaning source (js_state s')) \/
   (committed = true /\ replaced s s' source)).
Proof.
  unfold compactJournalStateLocked. destruct (negb (st_initialized source) || _).
  { intros [= <- <- <-]. split; [done|]. by left. }
  destruct (writeCompactedJournal source at_) as [[f st]|] eqn:Ew.
  2:{ intros [= <- <- <-]. split; [done|]. by left. }
  destruct io as [|synced verified cleaned modTime change].
  { intros [= <- <- <-]. split; [done|]. by left. }
  destruct verified; cbn; [|intros [= <- <- <-]; split; [done|]; right; left; done].
  destruct synced; cbn; intros [= <- <- <-]; (split; [done|]); right; right.
  - right. split; [done|]. exists at_, f. done.
  - left. split_and!; try done. by eapply writeCompacted_meaning.
Qed.

(** How a call of [persistRecords] can end. *)
Definition persist_ends (ce : cenv) (rs : list journalRecord) (s s' : Store) (r : result job_err unit) : Prop :=
  same_store s s' /\
  match r with
  | Ok _ =>
      (rs = [] /\ s' = s) \/
      exists next body bytes, prepareJournalRecords (ce_fill ce) (js_state s) rs = Ok (next, body, bytes) /\
        (appended s s' next body \/ replaced s s' next \/ failed_closed s s')
  | Err _ =>
      untouched s s' \/ failed_closed s s' \/
      exists next body bytes, prepareJournalRecords (ce_fill ce) (js_state s) rs = Ok (next, body, bytes) /\
        js_unavailable s' = true /\ same_meaning next (js_state s')
  end.

Lemma untouched_appended s s0 s' next body : untouched s s0 -> appended s0 s' next body -> appended s s' next body.
Proof. intros (? & Hf & ? & ?) (? & ? & ? & ? & ?). unfold appended, lines_of in *. rewrite <- Hf. split_and!; congruence. Qed.

(** The commit inside [persistRecords], after bookkeeping that leaves the state
    and the journal alone. *)
Lemma persist_commit ce rs s s0 next body bytes :
  prepareJournalRecords (ce_fill ce) (js_state s) rs = Ok (next, body, bytes) -> same_store s s0 -> untouched s s0 ->
  wp (fun s => match commitJournalAppendLocked (ce_commit ce) next body bytes s with
               | (s', Ok _) => (s', Ok tt)
               | (s', Err _) => markUnavailable s'
               end) (persist_ends ce rs s) s0.
Proof.
  intros Hp Hs Hu. pose proof (commit_spec (ce_commit ce) next body bytes s0) as H. unfold wp in *.
  destruct (commitJournalAppendLocked _ _ _ _ s0) as [s' [[]|e]]; cbn in *; destruct H as [Hs' H].
  - destruct H as [_ H]. split; [by etrans|]. right. exists next, body, bytes. split; [done|]. left.
    by eapply untouched_appended.
  - split; [etrans; [exact Hs|]; by etrans|]. right. left. split; [done|]. cbn. destruct H as [-> _]. apply Hu.
Qed.

Lemma persistRecords_spec ce rs s : wp (persistRecords ce rs) (persist_ends ce rs s) s.
Proof.
  destruct rs as [|r0 rs0]; [by repeat first [wp_step|split; [done|left]]|].
  unfold persistRecords. set (rs := r0 :: rs0) in *. apply wp_if; intros Hctx; [apply wp_fail; split; [done|by left]|].
  apply wp_bind, wp_get.
  destruct (prepareJournalRecords (ce_fill ce) (js_state s) rs) as [[[next body] bytes]|e] eqn:Ep.
  2:{ destruct e; wp_step; split; try done; try (by left); right; by left. }
  cbn zeta. apply wp_if; intros _; [|by apply persist_commit].
  assert (Hadv : forall s0, same_store s s0 -> untouched s s0 ->
    wp (run! modify (fun s1 => js_with_nextCompactionBytes s1 (advanceCompactionBoundary
           (op_JournalCompactionThreshold (js_options s)) (projected_bytes (sn_completeBytes (js_journal s)) bytes))) ;;
        fun s => match commitJournalAppendLocked (ce_commit ce) next body bytes s with
               | (s', Ok _) => (s', Ok tt)
               | (s', Err _) => markUnavailable s'
               end) (persist_ends ce rs s) s0).
  { intros s0 H1 H2. apply wp_bind, wp_modify. by apply persist_commit. }
  apply wp_if; intros _; [|by apply Hadv]. destruct (measureCompactedJournal _ _) as [n|]; [|wp_step; split; [done|by left]].
  apply wp_if; intros _; [|apply wp_bind, wp_modify; by apply Hadv].
  unfold wp. destruct (compactJournalStateLocked _ _ _ _) as [s' [committed err]] eqn:Ec.
  apply compact_spec in Ec as [Hs Ec].
  destruct committed; cbn; (split; [by destruct err|]).
  - right. exists next, body, bytes. split; [done|]. destruct Ec as [(? & _)|[Hf|[(? & ? & _)|[_ Hr]]]]; try done; auto.
  - destruct err as [e|]; cbn.
    + destruct Ec as [(_ & _ & Hu)|[Hf|[(Hu & _ & _ & Hm)|[? _]]]]; try done; auto. right. right. by exists next, body, bytes.
    + destruct Ec as [(_ & ? & _)|[Hf|[(_ & _ & ? & _)|[? _]]]]; try done. right. exists next, body, bytes. auto.
Qed.

(** ** Preparing *)

(** The state a transaction leads to is the fold of its numbered records. *)
Lemma prepare_fold fill : forall rs st bytes next body total,
  prepare fill st bytes rs = Ok (next, body, total) ->
  result_fold state_apply st body = Ok next /\ length body = length rs /\ Forall (fun r => encodable r = true) body /\
  Forall2 (fun r r' => exists seq at_, r' = r_numbered r seq at_ /\ is_u64 seq) rs body.
Proof.
  induction rs as [|r rs IH]; intros st bytes next body total H; cbn in H.
  - simplify_eq. split_and!; try done; constructor.
  - do 5 ok_step H. destruct a1 as [[st2 rs'] tot]. simplify_eq.
    match goal with X : prepare _ _ _ _ = Ok _ |- _ => apply IH in X as (H1 & H2 & H3 & H4) end.
    cbn [result_fold]. match goal with X : state_apply _ _ = Ok _ |- _ => rewrite X end. cbn. breflect.
    split_and!; try done; [by rewrite H2|by constructor|]. constructor; [|done]. eexists _, _. split; [done|].
    apply u64_succ_range.
Qed.

(** ** Successful operations *)

Lemma check_or_fail_ok {A} ok s (r : result job_err A) s' a : check_or_fail ok s r = (s', Ok a) -> s' = s /\ r = Ok a.
Proof. unfold check_or_fail. destruct ok; [by intros [= <- <-]|]. by destruct r. Qed.

(** An operation that succeeds ran on the refreshed state, and its own result
    and store are the ones that come out. *)
Lemma withJobState_ok {A} en (action : M A) s s' a :
  withJobState en action s = (s', Ok a) -> exists s1, enterState en s = (s1, Entered) /\ action s1 = (s', Ok a).
Proof.
  unfold withJobState. destruct (enterState en s) as [s1 [|e|e]]; intros H.
  - exists s1. split; [done|]. destruct (action s1) as [s2 r]. destruct (check_or_fail _ s2 r) as [s3 r3] eqn:E3.
    apply check_or_fail_ok in H as [-> ->]. by apply check_or_fail_ok in E3 as [-> ->].
  - done.
  - by apply check_or_fail_ok in H as [_ ?].
Qed.

(** What a successful commit of one record leaves in service. *)
Lemma persist_one ce r s s' u :
  persistRecords ce [r] s = (s', Ok u) -> js_unavailable s' = false ->
  exists seq at_ next, state_apply (js_state s) (r_numbered r seq at_) = Ok next /\ same_meaning next (js_state s').
Proof.
  intros H Hu. pose proof (wp_use _ _ _ _ _ (persistRecords_spec ce [r] s) H) as [_ [[? _]|(next & body & bytes & Hp & Hc)]]; [done|].
  apply prepare_fold in Hp as (Hf & _ & _ & H2). inversion H2 as [|? ? ? ? (seq & at_ & -> & _) H3]; subst. inversion H3; subst.
  cbn in Hf. ok_step Hf. injection Hf as ->. exists seq, at_, next. split; [done|].
  destruct Hc as [(<- & _)|[(at2 & f & Hw & _)|[Hc _]]]; [done|by eapply writeCompacted_meaning|congruence].
Qed.

(** ** Properties of the state that every operation keeps *)

(** The state has the property [P], and while the store is in service no other
    store has touched the journal. *)
Definition holds (P : Options -> storeState -> Prop) (s : Store) : Prop :=
  P (js_options s) (js_state s) /\ (js_unavailable s = false -> js_journal s = df_stat (js_file s)).

(** The transaction [rs] keeps [P] when it starts in [st]. *)
Definition tx_keeps (P : Options -> storeState -> Prop) (o : Options) (st : storeState) (rs : list journalRecord) : Prop :=
  forall body next, Forall2 (fun r r' => exists seq at_, r' = r_numbered r seq at_ /\ is_u64 seq) rs body ->
    result_fold state_apply st body = Ok next -> P o st -> P o next.

Section Keeping.
Context (P : Options -> storeState -> Prop).
Hypothesis P_meaning : forall o a b, same_meaning a b -> P o a -> P o b.
Hypothesis P_prune : forall o st now rs, Forall (fun r => exists p, r = rec_prune now p) rs -> tx_keeps P o st rs.


Lemma holds_untouched s s' : holds P s -> same_store s s' -> untouched s s' -> holds P s'.
Proof.
  intros [HP H] (_ & Ho & _) (Hs & Hf & Hj & Hu). split; [by rewrite Ho, Hs|]. intros Hn. rewrite Hf, Hj. apply H. congruence.
Qed.

Lemma holds_closed s s' : holds P s -> same_store s s' -> failed_closed s s' -> holds P s'.
Proof. intros [HP H] (_ & Ho & _) [Hu Hs]. split; [by rewrite Ho, Hs|congruence].
Qed.

Lemma persist_holds ce rs s :
  holds P s -> tx_keeps P (js_options s) (js_state s) rs ->
  wp (persistRecords ce rs) (fun s' _ => holds P s' /\ same_store s s') s.
Proof.
  intros H Hk. eapply wp_mono; [apply persistRecords_spec|]. intros s' r [Hs Hr]. split; [|done].
  assert (Hnext : forall next body bytes, prepareJournalRecords (ce_fill ce) (js_state s) rs = Ok (next, body, bytes) ->
            P (js_options s') next).
  { intros next body bytes Hp. apply prepare_fold in Hp as (Hf & _ & _ & H2). destruct Hs as (_ & -> & _).
    by eapply Hk; [..|apply H]. }
  destruct r as [[]|e].
  - destruct Hr as [[_ ->]|(next & body & bytes & Hp & Hc)]; [done|]. specialize (Hnext _ _ _ Hp).
    destruct Hc as [(Hst & _ & _ & Hj & Hu')|[(at_ & f & Hw & _ & Hj & Hu')|Hc]]; [| |by eapply holds_closed].
    + split; [by rewrite Hst|done].
    + apply writeCompacted_meaning in Hw. split; [by eapply P_meaning|done].
  - destruct Hr as [Hr|[Hr|(next & body & bytes & Hp & Hu & Hm)]]; [by eapply holds_untouched|by eapply holds_closed|].
    split; [eapply P_meaning; [exact Hm|by eapply Hnext]|congruence].
Qed.

Lemma holds_unavailable s : holds P s -> holds P (js_with_unavailable s true).
Proof. intros [H _]. by split. Qed.

Lemma pruneRecords_prunes o st now : Forall (fun r => exists p, r = rec_prune now p) (pruneRecords o st now).
Proof.
  unfold pruneRecords. apply Forall_forall. intros r Hr. apply list_elem_of_omap in Hr as (id & _ & Hr).
  unfold prune_job in Hr. repeat case_match; simplify_eq; eauto.
Qed.

(** A store alone on its journal has nothing to read again. *)
Lemma refresh_holds en s :
  en_canonical en = CanonicalSame -> js_unavailable s = false -> holds P s -> wp (refresh en) (fun s' r => holds P s' /\ same_store s s') s.
Proof.
  intros Hc Hup H. apply wp_intro. intros s' r. unfold refresh, or_unavailable.
  destruct (negb (en_stable en)); [intros [= <- <-]; by split; [apply holds_unavailable|]|].
  unfold ensureCanonicalJournalLocked. rewrite Hc. cbn.
  destruct (negb (en_stat en)); [intros [= <- <-]; by split; [apply holds_unavailable|]|]. cbn.
  destruct (refreshJournal _ _ _ _ _) as [[[f st] changed]|e] eqn:Er; [|intros [= <- <-]; by split; [apply holds_unavailable|]].
  cbn. destruct (negb (en_paths en)); [intros [= <- <-]; by split; [apply holds_unavailable|]|]. cbn. intros [= <- <-].
  split; [|done]. destruct H as [HP Hj]. rewrite (Hj Hup) in Er.
  unfold refreshJournal in Er. rewrite Z.ltb_irrefl, Z.eqb_refl, bool_decide_eq_true_2 in Er by done. by simplify_eq.
Qed.

Lemma updateNextPruneAt_holds s : holds P s -> wp updateNextPruneAt (fun s' _ => holds P s' /\ same_store s s') s.
Proof. intros H. apply wp_modify. split; [|done]. exact H. Qed.

Lemma under_lock_holds en s :
  en_canonical en = CanonicalSame -> js_unavailable s = false -> holds P s -> wp (under_lock en) (fun s' _ => holds P s' /\ same_store s s') s.
Proof.
  intros Hc Hup H. unfold under_lock. apply wp_bind. eapply wp_mono; [by apply refresh_holds|]. cbn.
  intros s1 [changed|e] [H1 S1]; [|done]. apply wp_bind.
  apply wp_mono with (P := fun s' _ => holds P s' /\ same_store s s').
  { apply wp_if; intros _; [|by wp_step]. eapply wp_mono; [by apply updateNextPruneAt_holds|]. intros s2 r [H2 S2].
    split; [done|by etrans]. }
  intros s2 [[]|e] [H2 S2]; [|done]. apply wp_if; intros _; [by wp_step|]. apply wp_bind.
  apply wp_mono with (P := fun s' _ => holds P s' /\ same_store s s').
  { unfold auto_prune. apply wp_bind, wp_get, wp_if; intros _; [|by wp_step].
    eapply wp_mono; [apply persist_holds; [done|]|].
    - eapply P_prune, pruneRecords_prunes.
    - intros s3 r [H3 S3]. split; [done|by etrans]. }
  intros s3 [[]|e] H3; [|done]. apply wp_if; intros _; by wp_step.
Qed.

Lemma check_or_fail_holds {A} ok s (r : result job_err A) s' r' :
  check_or_fail ok s r = (s', r') -> holds P s -> holds P s' /\ same_store s s'.
Proof.
  unfold check_or_fail. destruct ok; intros [= <- <-] H; [done|]. split; [|done]. by apply holds_unavailable.
Qed.

(** What an operation finds when it runs. *)
Lemma entered_holds en s s1 :
  en_canonical en = CanonicalSame -> holds P s -> enterState en s = (s1, Entered) -> holds P s1 /\ same_store s s1.
Proof.
  intros Hc H. unfold enterState. destruct (negb (en_gate en)); [done|]. destruct (js_closed s); [done|].
  destruct (js_unavailable s) eqn:Hup; [done|]. destruct (negb (en_ctx en)); [done|]. destruct (en_lock en); try done.
  pose proof (under_lock_holds en s Hc Hup H) as Hl. unfold wp in Hl. destruct (under_lock en s) as [s2 [[]|e]]; [|done].
  by intros [= <-].
Qed.

(** The rule for a whole operation. *)
Lemma withJobState_holds {A} en (action : M A) s :
  en_canonical en = CanonicalSame -> holds P s ->
  (forall s1, holds P s1 -> same_store s s1 -> wp action (fun s' _ => holds P s' /\ same_store s s') s1) ->
  wp (withJobState en action) (fun s' _ => holds P s' /\ same_store s s') s.
Proof.
  intros Hc H Ha. apply wp_intro. intros s' r. unfold withJobState, enterState.
  destruct (negb (en_gate en)); [by intros [= <- <-]|]. destruct (js_closed s); [by intros [= <- <-]|].
  destruct (js_unavailable s) eqn:Hup; [by intros [= <- <-]|]. destruct (negb (en_ctx en)); [by intros [= <- <-]|].
  destruct (en_lock en); [|by intros [= <- <-]|intros [= <- <-]; by split; [apply holds_unavailable|]].
  pose proof (under_lock_holds en s Hc Hup H) as Hl. unfold wp in Hl. destruct (under_lock en s) as [s1 [[]|e]]; cbn in Hl;
    destruct Hl as [H1 S1].
  - specialize (Ha s1 H1 S1). unfold wp in Ha. destruct (action s1) as [s2 r2]; cbn in Ha. destruct Ha as [H2 S2].
    destruct (check_or_fail (en_paths_end en) s2 r2) as [s3 r3] eqn:E3. intros E4.
    destruct (check_or_fail_holds _ _ _ _ _ E3 H2) as [H3 S3].
    destruct (check_or_fail_holds _ _ _ _ _ E4 H3) as [H4 S4]. split; [done|]. etrans; [exact S2|]. by etrans.
  - intros E4. destruct (check_or_fail_holds _ _ _ _ _ E4 H1) as [H4 S4]. split; [done|]. by etrans.
Qed.

End Keeping.
End StoreFacts.
