(* ===== verification/JobCrashFacts.v ===== *)
(** * Package [internal/consolejobs]: commits survive a crash

    What the journal on disk recovers to after a call of [persistRecords],
    whatever the append or the compaction did: everything the call acknowledged,
    and otherwise a prefix of the transaction. *)

From S2P Require Import Prelude GoText GoJson GoEncoding ActionAbi HostConfirmation JobTypes JobSanitize JobAction.
From S2P Require Import JobJournal JobCompaction JobReceipts JobStore JobOps JobActionOps JobDemo.
From S2P Require Import JobJournalFacts JobEventsFacts JobHistoryFacts JobRecoveryFacts JobStoreFacts.

Section Crash.
Context {U : UnicodeTables}.

(** A record that reads back as it was written and starts no snapshot. *)
Definition faithful (r : journalRecord) : bool :=
  typed r && (reread r ==? r) && (r_Kind r !=? recordSnapshotBegin).

(** The journal replays to the state the store answers with. *)
Definition intact (s : Store) : Prop :=
  result_fold apply_jl newStoreState (lines_of s) = Ok (js_state s) /\ st_snapshot (js_state s) = None.

(** A store opened on the journal of [s] starts with the state [st]. *)
Definition reopens (s : Store) (st : storeState) : Prop :=
  recoverJournal (df_file (js_file s)) = Ok (mkJFile (lines_of s) false, st).

(** ** Where the files end up *)

Definition appended_lines (s s' : Store) (body : list journalRecord) (k : nat) : Prop :=
  lines_of s' = lines_of s ++ map JLine (take k body).

Definition compacted_file (s' : Store) (next st : storeState) : Prop :=
  exists at_, writeCompactedJournal next at_ = Ok (df_file (js_file s'), st).

Definition persist_files (ce : cenv) (rs : list journalRecord) (s s' : Store) (r : result job_err unit) : Prop :=
  (js_file s' = js_file s /\ js_state s' = js_state s /\ (is_ok r = true -> rs = [])) \/
  exists next body bytes, prepareJournalRecords (ce_fill ce) (js_state s) rs = Ok (next, body, bytes) /\
    ((exists k, appended_lines s s' body k /\ (is_ok r = true -> (length body <= k)%nat) /\
        (js_unavailable s' = false -> js_state s' = next /\ (length body <= k)%nat)) \/
     (exists st, compacted_file s' next st /\ (js_unavailable s' = false -> js_state s' = st))).

Lemma commit_files ce rs s s0 next body bytes :
  prepareJournalRecords (ce_fill ce) (js_state s) rs = Ok (next, body, bytes) -> js_file s0 = js_file s -> js_state s0 = js_state s ->
  wp (fun s => match commitJournalAppendLocked (ce_commit ce) next body bytes s with
               | (s', Ok _) => (s', Ok tt)
               | (s', Err _) => markUnavailable s'
               end) (persist_files ce rs s) s0.
Proof.
  intros Hp Hf Hs. unfold wp, commitJournalAppendLocked. destruct (js_journal s0 !=? df_stat (js_file s0)); [by left|].
  destruct (ce_commit ce) as [|n torn stat|stat|modTime change]; cbn; [by left|..]; right; exists next, body, bytes; (split; [done|]); left.
  - exists n. unfold appended_lines, lines_of. cbn. by rewrite Hf.
  - exists (length body). unfold appended_lines, lines_of. cbn. rewrite Hf, firstn_all. split_and!; [done|lia|done].
  - exists (length body). unfold appended_lines, lines_of. cbn. rewrite Hf, firstn_all. split_and!; [done|lia|]. intros _. split; [done|lia].
Qed.

Lemma compact_files io next at_ s s' committed err :
  compactJournalStateLocked io next at_ s = (s', (committed, err)) ->
  (committed = false /\ err <> None /\ js_file s' = js_file s /\ js_state s' = js_state s) \/
  exists st, compacted_file s' next st /\ (js_unavailable s' = false -> js_state s' = st).
Proof.
  unfold compactJournalStateLocked. destruct (negb (st_initialized next) || _); [intros [= <- <- <-]; by left|].
  destruct (writeCompactedJournal next at_) as [[f st]|] eqn:Ew; [|intros [= <- <- <-]; by left].
  destruct io as [|synced verified cleaned modTime change]; [intros [= <- <- <-]; by left|].
  destruct verified; cbn; [destruct synced; cbn|]; intros [= <- <- <-]; right; exists st; (split; [by exists at_|]); done.
Qed.

Lemma persistRecords_files ce rs s : wp (persistRecords ce rs) (persist_files ce rs s) s.
Proof.
  destruct rs as [|r0 rs0]; [by left|].
  unfold persistRecords. set (rs := r0 :: rs0) in *. apply wp_if; intros Hctx; [apply wp_fail; by left|].
  apply wp_bind, wp_get.
  destruct (prepareJournalRecords (ce_fill ce) (js_state s) rs) as [[[next body] bytes]|e] eqn:Ep; [|by destruct e; wp_step; left].
  cbn zeta. apply wp_if; intros _; [|by apply commit_files].
  apply wp_if; intros _; [|by apply wp_bind, wp_modify, commit_files].
  destruct (measureCompactedJournal _ _) as [n|]; [|wp_step; by left].
  apply wp_if; intros _; [|by apply wp_bind, wp_modify, wp_bind, wp_modify, commit_files].
  unfold wp. destruct (compactJournalStateLocked _ _ _ _) as [s' [committed err]] eqn:Ec. apply compact_files in Ec as [Ec|Ec].
  - destruct Ec as (-> & He & Hf & Hs). destruct err; [|done]. by left.
  - right. exists next, body, bytes. split; [done|]. right. by destruct committed, err.
Qed.

(** ** What the files recover to *)

Lemma faithful_line st r seq at_ :
  faithful r = true -> is_u64 seq -> apply_jl st (JLine (r_numbered r seq at_)) = state_apply st (r_numbered r seq at_).
Proof.
  unfold faithful. intros H Hseq. breflect. destruct H as [[Ht Hr] _]. cbn [apply_jl].
  replace (typed (r_numbered r seq at_)) with true.
  - cbn [negb]. f_equal. rewrite <- Hr at 2. done.
  - symmetry. unfold typed in *. cbn in *. breflect. destruct_and?. split_and!; try done. unfold u64b, is_u64 in *. breflect. lia.
Qed.

Lemma no_snapshot_kind st r st' : r_Kind r <> recordSnapshotBegin -> st_snapshot st = None -> state_apply st r = Ok st' -> st_snapshot st' = None.
Proof.
  intros Hk Hs (s1 & Ha & -> & _)%state_apply_inv. cbn. unfold apply_kind in Ha. destruct (r_Kind r); try done.
  - unfold applyInitialized in Ha. ok_path Ha. by subst.
  - by apply applyJobCreated_inv in Ha as (j & i & _ & _ & _ & _ & _ & _ & _ & _ & _ & _ & ->).
  - by apply applyJobUpdated_inv in Ha as (next & previous & _ & _ & _ & _ & _ & _ & _ & ->).
  - by apply applyEvent_inv in Ha as (e & j & _ & _ & _ & _ & _ & _ & _ & _ & ->).
  - apply applyActionEvent_inv in Ha as (es & next & prev & a & sv & id & lst & _ & _ & _ & _ & _ & _ & _ & _ & _ & _ & _ & _ & ->).
    by destruct (r_Prune r).
  - by apply applyActionKeyBound_inv in Ha as (next & previous & pa & pp & b & _ & _ & _ & _ & _ & _ & _ & _ & _ & ->).
  - by apply applyPrune_inv in Ha as (p & j & _ & _ & _ & _ & ->).
  - unfold applyJobSnapshot in Ha. ok_step Ha. by rewrite Hs in Ha.
  - unfold applyIdempotencySnapshot in Ha. ok_step Ha. by rewrite Hs in Ha.
  - apply applyEventCursor_inv in Ha as (sp & c & d & Hx & _). congruence.
  - apply applyEventSnapshot_inv in Ha as (sp & e & d & Hx & _). congruence.
  - apply applySnapshotEnd_inv in Ha as (sp & Hx & _). congruence.
Qed.

(** The lines of a transaction replay exactly as its records applied. *)
Lemma replay_body rs body :
  Forall2 (fun r r' => exists seq at_, r' = r_numbered r seq at_ /\ is_u64 seq) rs body -> forallb faithful rs = true ->
  forall st next, st_snapshot st = None -> result_fold state_apply st body = Ok next ->
  result_fold apply_jl st (map JLine body) = Ok next /\ st_snapshot next = None.
Proof.
  induction 1 as [|r r' rs body (seq & at_ & -> & Hseq) _ IH]; intros Hf st next Hs H.
  - cbn in *. simplify_eq. done.
  - cbn [forallb] in Hf. apply andb_true_iff in Hf as [Hr Hf]. cbn [map result_fold] in *. rewrite (faithful_line st r seq at_ Hr Hseq).
    ok_step H. cbn [result_bind]. apply IH; [done| |done].
    eapply no_snapshot_kind; [|exact Hs|done]. unfold faithful in Hr. breflect. cbn. by destruct_and?.
Qed.

Lemma take_fold {E S A} (f : S -> A -> result E S) l k : forall st next,
  result_fold f st l = Ok next -> exists st', result_fold f st (take k l) = Ok st'.
Proof.
  revert k. induction l as [|a l IH]; intros k st next H; [destruct k; by exists st|]. destruct k as [|k]; [by exists st|].
  cbn in *. ok_step H. cbn. by eapply IH.
Qed.

Lemma intact_reopens s : intact s -> reopens s (js_state s).
Proof.
  intros [H Hs]. unfold reopens, lines_of in *. destruct (df_file (js_file s)) as [ls tail]. cbn in *. by apply recovers.
Qed.

Lemma prefix_reopens s s' rs body next k :
  intact s -> forallb faithful rs = true ->
  Forall2 (fun r r' => exists seq at_, r' = r_numbered r seq at_ /\ is_u64 seq) rs body ->
  result_fold state_apply (js_state s) body = Ok next -> appended_lines s s' body k ->
  exists st, result_fold state_apply (js_state s) (take k body) = Ok st /\ reopens s' st /\
    result_fold apply_jl newStoreState (lines_of s') = Ok st /\ st_snapshot st = None.
Proof.
  intros [Hl Hs] Hf H2 Hb Ha. destruct (take_fold state_apply body k _ _ Hb) as [st Hst]. exists st. split; [done|].
  assert (Hk : Forall2 (fun r r' => exists seq at_, r' = r_numbered r seq at_ /\ is_u64 seq) (take k rs) (take k body)) by by apply Forall2_take.
  assert (Hfk : forallb faithful (take k rs) = true).
  { rewrite <- (take_drop k rs), forallb_app in Hf. by apply andb_true_iff in Hf as [? _]. }
  destruct (replay_body _ _ Hk Hfk _ _ Hs Hst) as [G1 G2].
  assert (Hall : result_fold apply_jl newStoreState (lines_of s') = Ok st).
  { rewrite Ha, result_fold_app, Hl. cbn [result_bind]. exact G1. }
  split_and!; try done. unfold reopens. unfold lines_of in *. destruct (df_file (js_file s')) as [ls tail]. cbn in *. by apply recovers.
Qed.

Lemma compacted_reopens s' next st : compacted_file s' next st -> reopens s' st /\ same_meaning next st /\
  result_fold apply_jl newStoreState (lines_of s') = Ok st /\ st_snapshot st = None.
Proof.
  intros [at_ Hw]. pose proof Hw as Hm%writeCompacted_meaning. unfold writeCompactedJournal in Hw. ok_step Hw. destruct a as [w b].
  ok_step Hw. destruct a as [f st2]. ok_step Hw. simplify_eq.
  match goal with X : recoverJournal _ = Ok _ |- _ => apply recoverJournal_inv in X as (Hfile & Hfold & _ & Hs & _) end. cbn in *.
  split_and!; try done; unfold reopens, lines_of; rewrite Hfile; [by apply recovers|done].
Qed.

End Crash.

(** An append of two records is torn after the first. *)
Definition demo_torn : cenv := mkCenv true demo_now demo_now (CommitPartial 1 true (mkSnap 2500 demo_now None)) CompactFails.
Definition demo_transaction : list journalRecord :=
  [rec_job recordJobUpdated (demo_now + 1) demo_running; rec_event recordEventAdded (demo_now + 2) demo_event].

