(* ===== verification/JobInvariants.v ===== *)
(** * Package [internal/consolejobs]: invariants of every history of a store

    A property of the state that survives three kinds of records (those that
    start no job, an admitted creation, an admitted start) survives every
    operation of the store, with every input and every answer of the
    environment.  The class [Kept] states what the operations ask of a
    property; its instances are the invariants of JobOpsFacts. *)

From Stdlib Require Import Ascii.
From S2P Require Import Prelude GoText GoJson GoEncoding ActionAbi HostConfirmation JobTypes JobSanitize JobAction.
From S2P Require Import JobJournal JobCompaction JobReceipts JobStore JobOps JobActionOps JobJournalFacts.
From S2P Require Import JobEventsFacts JobStoreFacts.

Lemma elem_all_jobs st j : j ∈ all_jobs st <-> exists id, st_jobs st !! id = Some j.
Proof.
  unfold all_jobs. rewrite list_elem_of_fmap. split.
  - intros ([id x] & -> & H). exists id. by apply elem_of_map_to_list in H.
  - intros [id H]. exists (id, j). by rewrite elem_of_map_to_list.
Qed.

Section OpsFacts.
Context {U : UnicodeTables}.

Lemma all_jobs_own st j : jobs_wf st -> j ∈ all_jobs st -> st_jobs st !! j_ID j = Some j.
Proof. intros Hwf [id Hid]%elem_all_jobs. by destruct (Hwf _ _ Hid) as [-> _]. Qed.

Lemma numbered_single (r : journalRecord) body :
  Forall2 (fun r r' => exists seq at_, r' = r_numbered r seq at_ /\ is_u64 seq) [r] body ->
  exists seq at_, body = [r_numbered r seq at_].
Proof. intros H. inversion H as [|? ? ? ? (seq & at_ & -> & _) H']. inversion H'. eauto. Qed.

(** ** Kinds of transactions *)

(** A record that creates no job and starts none. *)
Definition quiet (st : storeState) (r : journalRecord) : Prop :=
  r_Kind r <> recordJobSnapshot /\ r_Kind r <> recordJobCreated /\
  forall j, r_Job r = Some j -> j_Status j = StatusRunning ->
    exists old, st_jobs st !! j_ID j = Some old /\ j_Status old = StatusRunning.

(** A record that leaves no job running. *)
Definition silent (r : journalRecord) : Prop :=
  r_Kind r <> recordJobSnapshot /\ r_Kind r <> recordJobCreated /\
  forall j, r_Job r = Some j -> j_Status j <> StatusRunning.

Lemma silent_quiet st r : silent r -> quiet st r.
Proof. intros (Hk & Hc & Hs). split_and!; [done|done|]. intros j Hj Hr. by destruct (Hs j Hj). Qed.

(** What the operations ask of a property of the state. *)
Class Kept (P : Options -> storeState -> Prop) : Prop := {
  kept_meaning : forall o a b, same_meaning a b -> P o a -> P o b;
  kept_wf : forall o st, P o st -> jobs_wf st;
  kept_quiet : forall o st r st', P o st -> quiet st r -> state_apply st r = Ok st' -> P o st';
  kept_create : forall o st r st', P o st -> r_Kind r = recordJobCreated ->
    count_status st StatusQueued < op_MaxQueuedJobs o -> state_apply st r = Ok st' -> P o st';
  kept_start : forall o st r st' job now, P o st -> r_Kind r = recordJobUpdated -> r_Job r = Some (started_job job now) ->
    st_jobs st !! j_ID job = Some job -> j_Status job = StatusQueued -> canStart o st job = Ok tt ->
    state_apply st r = Ok st' -> P o st'
}.

(** ** All histories of a store

    Every call of an operation that can change the jobs, with every input and
    every answer of the environment; no other store writes the journal. *)
Inductive store_step : Store -> Store -> Prop :=
| do_Create oe spec obs s : en_canonical (oe_state oe) = CanonicalSame -> store_step s (fst (CreateOrGetObserved oe spec obs s))
| do_CreateConfirmed oe spec c obs s : en_canonical (oe_state oe) = CanonicalSame ->
    store_step s (fst (CreateOrGetConfirmedObserved oe spec c obs s))
| do_Start oe id obs s : en_canonical (oe_state oe) = CanonicalSame -> store_step s (fst (StartObserved oe id obs s))
| do_ClaimNext oe ws obs s : en_canonical (oe_state oe) = CanonicalSame -> store_step s (fst (ClaimNextObserved oe ws obs s))
| do_Update oe id u s : en_canonical (oe_state oe) = CanonicalSame -> store_step s (fst (UpdateRunning oe id u s))
| do_Transition oe id t i obs s : en_canonical (oe_state oe) = CanonicalSame ->
    store_step s (fst (TransitionObserved oe id t i obs s))
| do_AppendEvent oe id i s : en_canonical (oe_state oe) = CanonicalSame -> store_step s (fst (AppendEvent oe id i s))
| do_CancelQueued oe id i e obs s : en_canonical (oe_state oe) = CanonicalSame ->
    store_step s (fst (CancelQueuedObserved oe id i e obs s))
| do_RejectQueued oe id i e obs s : en_canonical (oe_state oe) = CanonicalSame ->
    store_step s (fst (RejectQueuedObserved oe id i e obs s))
| do_Acknowledge oe id w s : en_canonical (oe_state oe) = CanonicalSame -> store_step s (fst (AcknowledgeCompensation oe id w s))
| do_Compact oe s : en_canonical (oe_state oe) = CanonicalSame -> store_step s (fst (Compact oe s))
| do_Recover oe lease verified obs s : en_canonical (oe_state oe) = CanonicalSame ->
    store_step s (fst (RecoverInterruptedJobsObserved oe lease verified obs s))
| do_CreateAction oe spec name inv obs s : en_canonical (oe_state oe) = CanonicalSame ->
    store_step s (fst (CreateActionObserved oe spec name inv obs s))
| do_CreateWithPolicy oe spec name inv policy obs s : en_canonical (oe_state oe) = CanonicalSame ->
    store_step s (fst (CreateActionWithPolicyObserved oe spec name inv policy obs s))
| do_CreateConfirmedAction oe io spec name inv c obs s h : en_canonical (oe_state oe) = CanonicalSame ->
    store_step s (fst (fst (CreateConfirmedActionObserved oe io spec name inv c obs s h)))
| do_StartAction oe id lease verified obs s : en_canonical (oe_state oe) = CanonicalSame ->
    store_step s (fst (StartActionObserved oe id lease verified obs s))
| do_AppendAction oe lease verified e s : en_canonical (oe_state oe) = CanonicalSame ->
    store_step s (fst (AppendActionEvent oe lease verified e s))
| do_CompleteAction oe lease verified e obs s : en_canonical (oe_state oe) = CanonicalSame ->
    store_step s (fst (CompleteActionObserved oe lease verified e obs s))
| do_CancelQueuedAction oe id inv obs s : en_canonical (oe_state oe) = CanonicalSame ->
    store_step s (fst (CancelQueuedActionObserved oe id inv obs s))
| do_RejectQueuedAction oe id inv obs s : en_canonical (oe_state oe) = CanonicalSame ->
    store_step s (fst (RejectQueuedActionObserved oe id inv obs s))
| do_RequestCancel oe id inv actor obs s : en_canonical (oe_state oe) = CanonicalSame ->
    store_step s (fst (RequestActionCancelObserved oe id inv actor obs s)).

Section Kept.
Context (P : Options -> storeState -> Prop) `{!Kept P}.

Lemma tx_quiet o st r : quiet st r -> tx_keeps P o st [r].
Proof.
  intros Hq body next (seq & at_ & ->)%numbered_single H HP. cbn in H. ok_step H. simplify_eq.
  by eapply (kept_quiet o st (r_numbered r seq at_)).
Qed.

Lemma tx_silent o rs : forall st, Forall silent rs -> tx_keeps P o st rs.
Proof.
  induction rs as [|r rs IH]; intros st Hs body next H2 Hf HP; inversion H2 as [|? r' ? body' (seq & at_ & -> & _) H2']; subst.
  - cbn in Hf. by simplify_eq.
  - cbn in Hf. ok_step Hf. inversion Hs as [|? ? Hr Hs']; subst. eapply (IH _ Hs' body' next H2' Hf).
    eapply (kept_quiet o st (r_numbered r seq at_)); [done| |done]. by apply silent_quiet.
Qed.

Lemma tx_create o st now job i :
  count_status st StatusQueued < op_MaxQueuedJobs o -> tx_keeps P o st [rec_created now job i].
Proof.
  intros Hq body next (seq & at_ & ->)%numbered_single H HP. cbn in H. ok_step H. simplify_eq.
  by eapply (kept_create o st (r_numbered (rec_created now job i) seq at_)).
Qed.

Lemma tx_start o st job now at_ :
  st_jobs st !! j_ID job = Some job -> j_Status job = StatusQueued -> canStart o st job = Ok tt ->
  tx_keeps P o st [rec_job recordJobUpdated at_ (started_job job now)].
Proof.
  intros Hjob Hq Hcan body next (seq & at2 & ->)%numbered_single H HP. cbn in H. ok_step H. simplify_eq.
  by eapply (kept_start o st (r_numbered (rec_job recordJobUpdated at_ (started_job job now)) seq at2) _ job now).
Qed.

Lemma prunes_silent now rs : Forall (fun r => exists p, r = rec_prune now p) rs -> Forall silent rs.
Proof. intros H. eapply Forall_impl; [exact H|]. by intros r [p ->]. Qed.

(** ** One operation *)

Definition stays {A} (s0 s' : Store) (_ : result job_err A) : Prop := holds P s' /\ same_store s0 s'.

(** The method keeps the invariant, from any store that is [s0] later on. *)
Definition keeps {A} (m : M A) : Prop := forall s0 s, holds P s -> same_store s0 s -> wp m (stays s0) s.

Lemma wp_lookup_job id (Q : Store -> result job_err Job -> Prop) s :
  (forall j, st_jobs (js_state s) !! id = Some j -> Q s (Ok j)) -> Q s (Err ENotFound) -> wp (lookup_job id) Q s.
Proof. intros H1 H2. unfold wp, lookup_job. destruct (st_jobs (js_state s) !! id) eqn:E; cbn; auto. Qed.

Lemma persist_then {B} ce rs (k : unit -> M B) s0 s :
  holds P s -> same_store s0 s -> tx_keeps P (js_options s) (js_state s) rs -> (forall u, keeps (k u)) ->
  wp (bind (persistRecords ce rs) k) (stays s0) s.
Proof.
  intros H S Hk Hrest. apply wp_bind. eapply wp_mono; [apply (persist_holds P kept_meaning); [done|done]|].
  intros s' [u|e] [H' S']; [apply Hrest; [done|by etrans]|]. split; [done|by etrans].
Qed.

Lemma persist_last ce rs s0 s :
  holds P s -> same_store s0 s -> tx_keeps P (js_options s) (js_state s) rs ->
  wp (persistRecords ce rs) (stays s0) s.
Proof.
  intros H S Hk. eapply wp_mono; [apply (persist_holds P kept_meaning); [done|done]|].
  intros s' r [H' S']. split; [done|by etrans].
Qed.

Lemma keeps_ret {A} (a : A) : keeps (ret a).
Proof. by intros s0 s H S. Qed.

Lemma stays_unavailable {A} s0 s (r : result job_err A) :
  holds P s -> same_store s0 s -> stays s0 (js_with_unavailable s true) r.
Proof. intros H S. split; [by apply holds_unavailable|exact S]. Qed.

Lemma keeps_withJobState {A} en (action : M A) :
  en_canonical en = CanonicalSame -> keeps action -> keeps (withJobState en action).
Proof.
  intros Hc Ha s0 s H S. eapply wp_mono.
  - eapply (withJobState_holds P kept_meaning); [intros; by eapply tx_silent, prunes_silent|done|done|].
    intros s1 H1 S1. by apply Ha.
  - intros s' r [H' S']. split; [done|by etrans].
Qed.

(** A transaction judged with the invariant in hand. *)
Lemma tx_with o st rs : (P o st -> tx_keeps P o st rs) -> tx_keeps P o st rs.
Proof. intros H body next H2 Hf HP. by eapply H. Qed.

(** Symbolic execution up to the commits. *)
Ltac run_op :=
  repeat first
    [ progress cbn beta iota
    | match goal with
      | |- wp (lookup_job _) _ _ => apply wp_lookup_job; [intros|]
      | |- wp (withJobState _ _) _ _ => apply keeps_withJobState; [assumption| |assumption|assumption]
      | |- keeps _ => intros ? ? ? ?
      | |- wp (bind (persistRecords _ _) _) _ _ => apply persist_then; [assumption|assumption| |intros; try apply keeps_ret]
      | |- wp (persistRecords _ _) _ _ => apply persist_last; [assumption|assumption|]
      | |- stays _ (js_with_unavailable _ _) _ => by apply stays_unavailable
      | |- stays _ _ _ => by split
      end
    | wp_step ].

Lemma commit_update_keeps oe obs op previous next s0 s :
  holds P s -> same_store s0 s ->
  tx_keeps P (js_options s) (js_state s) [rec_job recordJobUpdated (oe_now oe) next] ->
  wp (commit_update oe obs op previous next) (stays s0) s.
Proof. intros H S Hk. unfold commit_update. run_op. done. Qed.

(** The job a lookup returned carries the ID it was found under. *)
Lemma found_own o st id j : P o st -> st_jobs st !! id = Some j -> st_jobs st !! j_ID j = Some j.
Proof. intros HP H. by destruct (kept_wf o st HP _ _ H) as [-> _]. Qed.

Lemma tx_same_status o st k id job next at_ :
  k <> recordJobSnapshot -> k <> recordJobCreated -> st_jobs st !! id = Some job -> j_ID next = j_ID job -> j_Status next = j_Status job ->
  tx_keeps P o st [rec_job k at_ next].
Proof.
  intros Hk Hk' Hj Hid Hs. apply tx_with. intros HP. apply tx_quiet. split_and!; [done|done|]. intros j [= <-] Hrun. exists job.
  rewrite Hid. split; [by eapply found_own|congruence].
Qed.

Lemma tx_not_running o st k at_ next : k <> recordJobSnapshot -> k <> recordJobCreated -> j_Status next <> StatusRunning ->
  tx_keeps P o st [rec_job k at_ next].
Proof. intros Hk Hk' Hs. apply tx_silent. constructor; [|constructor]. split_and!; [done|done|]. by intros j [= <-]. Qed.

Lemma startObserved_keeps oe jobID obs action :
  en_canonical (oe_state oe) = CanonicalSame -> keeps (startObserved oe jobID obs action).
Proof.
  intros Hc s0 s H S. unfold startObserved. run_op. apply commit_update_keeps; try done. apply tx_with. intros HP.
  breflect. destruct a0. eapply tx_start; try done. by eapply found_own.
Qed.

Lemma earliest_elem l j : earliest l = Some j -> j ∈ l.
Proof.
  unfold earliest. assert (Hgen : forall acc, fold_left (fun acc j => match acc with None => Some j | Some f =>
    if actionJobBefore j f then Some j else acc end) l acc = Some j -> acc = Some j \/ j ∈ l).
  { induction l as [|x l IH]; intros acc H; cbn in H; [by left|]. destruct (IH _ H) as [Hx|Hx].
    - destruct acc as [f|]; [destruct (actionJobBefore x f)|]; simplify_eq; try (by left); right; apply list_elem_of_here.
    - right. by apply list_elem_of_further. }
  intros H. by destruct (Hgen None H).
Qed.

Lemma ClaimNext_keeps oe ws obs : en_canonical (oe_state oe) = CanonicalSame -> keeps (ClaimNextObserved oe ws obs).
Proof.
  intros Hc s0 s H S. unfold ClaimNextObserved. run_op.
  - eapply wp_mono; [apply commit_update_keeps; [done|done|]|].
    + apply tx_with. intros HP. destruct a0. unfold claim_candidate in *.
      match goal with X : earliest _ = Some _ |- _ => apply earliest_elem, list_elem_of_filter in X as [Hf Hin] end.
      breflect. destruct_and?. apply tx_start; [apply all_jobs_own; [by eapply kept_wf|done]|done|done].
    + intros s' [?|?] ?; [by apply wp_ret|done].
Qed.

Lemma UpdateRunning_keeps oe id u : en_canonical (oe_state oe) = CanonicalSame -> keeps (UpdateRunning oe id u).
Proof.
  intros Hc s0 s H S. unfold UpdateRunning. run_op. eapply tx_same_status; [done|done|eassumption|..];
    by destruct (pu_Progress u).
Qed.

Lemma Transition_keeps oe id target input obs :
  en_canonical (oe_state oe) = CanonicalSame -> keeps (TransitionObserved oe id target input obs).
Proof.
  intros Hc s0 s H S. unfold TransitionObserved. run_op. apply commit_update_keeps; [done|done|].
  apply tx_not_running; [done|done|]. breflect. unfold finished_job. destruct (ti_Progress input); cbn; by destruct target.
Qed.

Lemma event_records_silent o st e now : Forall silent (event_records o st e now).
Proof. unfold event_records. constructor; [done|]. eapply prunes_silent, pruneRecords_prunes. Qed.

Lemma AppendEvent_keeps oe id input : en_canonical (oe_state oe) = CanonicalSame -> keeps (AppendEvent oe id input).
Proof.
  intros Hc s0 s H S. unfold AppendEvent. run_op. apply tx_silent, event_records_silent.
Qed.

Lemma finishQueued_keeps oe id status input ev obs :
  en_canonical (oe_state oe) = CanonicalSame -> status <> StatusRunning -> keeps (finishQueuedObserved oe id status input ev obs).
Proof.
  intros Hc Hs s0 s H S. unfold finishQueuedObserved. run_op. apply tx_silent, Forall_app.
  split; [apply event_records_silent|]. constructor; [|constructor]. split_and!; [done|done|]. intros j' [= <-].
  unfold finished_job. by destruct (ti_Progress input).
Qed.

Lemma Acknowledge_keeps oe id w : en_canonical (oe_state oe) = CanonicalSame -> keeps (AcknowledgeCompensation oe id w).
Proof.
  intros Hc s0 s H S. unfold AcknowledgeCompensation. run_op. by eapply tx_same_status.
Qed.

Lemma Compact_keeps oe : en_canonical (oe_state oe) = CanonicalSame -> keeps (Compact oe).
Proof.
  intros Hc s0 s H S. unfold Compact. run_op. apply wp_intro. intros s8 r8.
  destruct (compactJournalStateLocked _ _ _ _) as [s9 [committed err]] eqn:Ec. intros [= <- <-].
  apply compact_spec in Ec as [Hs Ec]. split; [|by etrans].
  destruct Ec as [(_ & _ & Hu)|[Hu|[(Hu & _ & _ & Hm)|(_ & at_ & f & Hw & _ & Hj & Hu)]]];
    [by eapply holds_untouched|by eapply holds_closed| |];
    match goal with X : holds P _ |- _ => destruct X as [HP _] end; destruct Hs as (_ & Ho & _).
  - split; [rewrite Ho; by eapply kept_meaning|congruence].
  - split; [|done]. rewrite Ho. eapply kept_meaning; [|exact HP]. by eapply writeCompacted_meaning.
Qed.

(** ** Creation *)

Lemma create_hook_keeps {H} oe prepared idem bc (hook : Job -> H -> H * result job_err unit) obs dec s0 s h :
  holds P s -> same_store s0 s ->
  stays s0 (fst (fst (createOrGetPreparedWithJobHook oe prepared idem bc hook obs dec s h)))
           (snd (createOrGetPreparedWithJobHook oe prepared idem bc hook obs dec s h)).
Proof.
  intros Hh S. unfold createOrGetPreparedWithJobHook. cbn zeta.
  destruct (st_idempotency _ !! _) as [existing|]; [destruct (st_jobs _ !! _); [done|by apply stays_unavailable]|].
  destruct (bc _ _) as [spec|]; [|done]. destruct (op_MaxQueuedJobs _ <=? _) eqn:Eq; [done|]. apply Z.leb_gt in Eq.
  destruct (newJobID _ _ _) as [id|e]; [|destruct e; try done; by apply stays_unavailable].
  destruct (hook _ h) as [h' [[]|e]]; [|done]. destruct (observeJobCommit _ _); [|done].
  pose proof (persist_last (oe_commit oe) [rec_created (oe_now oe) (new_job id spec (oe_now oe)) (pi_with_JobID idem id)] s0 s
                Hh S) as Hp. unfold wp in Hp.
  destruct (persistRecords _ _ s) as [s' [[]|e]]; apply Hp; by apply tx_create.
Qed.

Lemma createOrGetPrepared_keeps oe prepared idem bc obs dec : keeps (createOrGetPrepared oe prepared idem bc obs dec).
Proof.
  intros s0 s H S. unfold wp, createOrGetPrepared.
  pose proof (create_hook_keeps oe prepared idem bc no_hook obs dec s0 s tt H S) as Hk.
  by destruct (createOrGetPreparedWithJobHook _ _ _ _ _ _ _ _ _) as [[s' []] r].
Qed.

Lemma CreateOrGet_keeps oe spec obs : en_canonical (oe_state oe) = CanonicalSame -> keeps (CreateOrGetObserved oe spec obs).
Proof. intros Hc s0 s H S. unfold CreateOrGetObserved. run_op. by apply createOrGetPrepared_keeps. Qed.

Lemma CreateConfirmed_keeps oe spec c obs :
  en_canonical (oe_state oe) = CanonicalSame -> keeps (CreateOrGetConfirmedObserved oe spec c obs).
Proof. intros Hc s0 s H S. unfold CreateOrGetConfirmedObserved. run_op. by apply createOrGetPrepared_keeps. Qed.

(** ** Actions *)

Lemma withOwnership_keeps {A} lease directory verified (m : M A) s0 s :
  holds P s -> same_store s0 s -> keeps m -> wp (fun s => withOwnership lease directory verified s m) (stays s0) s.
Proof.
  intros H S Hm. unfold wp, withOwnership. destruct lease as [l|]; [|done].
  destruct (el_closed l || _); [done|]. destruct (negb verified); [done|]. by apply Hm.
Qed.

Lemma CreateAction_keeps oe spec name inv obs :
  en_canonical (oe_state oe) = CanonicalSame -> keeps (CreateActionObserved oe spec name inv obs).
Proof. intros Hc s0 s H S. unfold CreateActionObserved. run_op. by apply CreateOrGet_keeps. Qed.

Lemma StartAction_keeps oe id lease verified obs :
  en_canonical (oe_state oe) = CanonicalSame -> keeps (StartActionObserved oe id lease verified obs).
Proof.
  intros Hc s0 s H S. unfold StartActionObserved. run_op.
  apply (withOwnership_keeps lease (js_directory s)); [done|done|]. by apply startObserved_keeps.
Qed.

Lemma actionEventRecord_inv o st job e now r :
  actionEventRecord o st job e now = Ok r ->
  r_Kind r = recordActionEvent /\ exists next e', r_Job r = Some next /\ actionJobAfterEvent job e' now = Ok next /\
    actionOutcome e' = actionOutcome e.
Proof.
  unfold actionEventRecord. destruct (j_Action job) as [a|]; [|done]. intros H. do 2 ok_step H.
  destruct (op_EventCapacity o <=? _), (match listat _ _ with e :: _ => _ | [] => _ end); cbn in H; ok_step H; simplify_eq; cbn; eauto 10.
Qed.

Lemma action_record_quiet st job e now r o :
  st_jobs st !! j_ID job = Some job -> actionEventRecord o st job e now = Ok r -> quiet st r.
Proof.
  intros Hj (Hk & next & e' & Hn & Ha & _)%actionEventRecord_inv. split_and!; [by rewrite Hk|by rewrite Hk|].
  intros j Hj' Hrun. rewrite Hn in Hj'. injection Hj' as <-. exists job.
  apply actionJobAfterEvent_inv in Ha as (a & _ & _ & _ & _ & _ & _ & _ & Hi & _ & _ & Hs).
  apply sameImmutable_spec in Hi as (Hid & _). rewrite <- Hid. split; [done|]. case_bool_decide; [congruence|].
  by rewrite Hrun in Hs.
Qed.

Lemma writeActionEvent_keeps oe lease verified e obs queued :
  en_canonical (oe_state oe) = CanonicalSame -> keeps (writeActionEvent oe lease verified e obs queued).
Proof.
  intros Hc s0 s H S. unfold writeActionEvent. apply wp_bind, wp_lift. destruct (sanitizeActionEvent e) as [a|]; [|by split]. cbn zeta.
  assert (Hw : keeps (withJobState (oe_state oe) (
    let! job := lookup_job (ae_JobID a) in
    refuse negb (present (j_Action job)) || (queued && (j_Status job !=? StatusQueued)) ||
           (negb queued && (j_Status job !=? StatusRunning)) with EConflict ;;
    let! s := get in
    let! record := lift (actionEventRecord (js_options s) (js_state s) job a (oe_now oe)) in
    match r_Job record with
    | None => fail EInternal
    | Some next =>
        run! (if terminal (j_Status next)
              then lift (observeJobCommit obs (intent_of JobCommitTransition (Some job) next)) else ret tt) ;;
        run! persistRecords (oe_commit oe) [record] ;;
        ret next
    end))).
  { run_op; apply tx_with; intros HP; apply tx_quiet; (eapply action_record_quiet; [|eassumption]); by eapply found_own. }
  apply wp_if; intros _; [by apply Hw|]. by apply (withOwnership_keeps lease (js_directory s)).
Qed.

Lemma AppendAction_keeps oe lease verified e :
  en_canonical (oe_state oe) = CanonicalSame -> keeps (AppendActionEvent oe lease verified e).
Proof. intros Hc s0 s H S. unfold AppendActionEvent. run_op. by apply writeActionEvent_keeps. Qed.
Lemma CompleteAction_keeps oe lease verified e obs :
  en_canonical (oe_state oe) = CanonicalSame -> keeps (CompleteActionObserved oe lease verified e obs).
Proof. intros Hc s0 s H S. unfold CompleteActionObserved. run_op. by apply writeActionEvent_keeps. Qed.
Lemma CancelQueuedAction_keeps oe id inv obs :
  en_canonical (oe_state oe) = CanonicalSame -> keeps (CancelQueuedActionObserved oe id inv obs).
Proof. intros Hc s0 s H S. unfold CancelQueuedActionObserved. run_op. by apply writeActionEvent_keeps. Qed.
Lemma RejectQueuedAction_keeps oe id inv obs :
  en_canonical (oe_state oe) = CanonicalSame -> keeps (RejectQueuedActionObserved oe id inv obs).
Proof. intros Hc s0 s H S. unfold RejectQueuedActionObserved. run_op. by apply writeActionEvent_keeps. Qed.

Lemma RequestCancel_keeps oe id inv actor obs :
  en_canonical (oe_state oe) = CanonicalSame -> keeps (RequestActionCancelObserved oe id inv actor obs).
Proof.
  intros Hc s0 s H S. unfold RequestActionCancelObserved. run_op. apply commit_update_keeps; [done|done|].
  by eapply tx_same_status.
Qed.

Lemma bindKey_keeps oe job digest caller obs now s0 s :
  holds P s -> same_store s0 s -> job ∈ all_jobs (js_state s) ->
  wp (bindActionRetryKey oe job digest caller obs now) (stays s0) s.
Proof.
  intros H S Hin. unfold bindActionRetryKey. run_op. apply elem_all_jobs in Hin as [id Hid]. by eapply tx_same_status.
Qed.

Lemma active_duplicate_elem st name digest j : active_duplicate st name digest = Some j -> j ∈ all_jobs st.
Proof. unfold active_duplicate. by intros [_ ?]%earliest_elem%list_elem_of_filter. Qed.

Lemma CreateWithPolicy_keeps oe spec name inv policy obs :
  en_canonical (oe_state oe) = CanonicalSame -> keeps (CreateActionWithPolicyObserved oe spec name inv policy obs).
Proof.
  intros Hc s0 s H S. unfold CreateActionWithPolicyObserved. run_op; try (by apply createOrGetPrepared_keeps).
  all: eapply wp_mono; [apply bindKey_keeps; [done|done|by eapply active_duplicate_elem]|].
  all: intros s9 [?|?] ?; [by apply wp_ret|done].
Qed.

Lemma interruption_silent o now jobs : forall ids preview rs,
  interruption_loop o now jobs preview ids = Ok rs -> Forall silent rs.
Proof.
  induction ids as [|id ids IH]; intros preview rs H; cbn in H; [by simplify_eq|].
  destruct (jobs !! id) as [job|]; [|by eapply IH]. destruct (j_Action job) as [a|].
  - do 3 ok_step H. simplify_eq. constructor; [|by eapply IH].
    match goal with X : actionEventRecord _ _ _ _ _ = Ok _ |- _ => apply actionEventRecord_inv in X as (Hk & nx & e' & Hn & Ha & Ho) end.
    split_and!; [by rewrite Hk|by rewrite Hk|]. intros j Hj. rewrite Hn in Hj. injection Hj as <-.
    apply actionJobAfterEvent_inv in Ha as (? & _ & _ & _ & _ & _ & _ & _ & _ & _ & _ & Ht). rewrite Ho in Ht. cbn in Ht.
    intros Hr. by rewrite Hr in Ht.
  - ok_step H. simplify_eq. constructor; [|by eapply IH]. split_and!; [done|done|]. by intros j [= <-].
Qed.

Lemma observe_interruptions_keeps obs rs : keeps (observe_interruptions obs rs).
Proof.
  induction rs as [|r rs IH]; intros s0 s H S; cbn [observe_interruptions]; run_op. by apply IH.
Qed.

Lemma RecoverInterrupted_keeps oe lease verified obs :
  en_canonical (oe_state oe) = CanonicalSame -> keeps (RecoverInterruptedJobsObserved oe lease verified obs).
Proof.
  intros Hc s0 s H S. unfold RecoverInterruptedJobsObserved. apply (withOwnership_keeps lease (js_directory s)); [done|done|].
  run_op. eapply wp_mono; [apply observe_interruptions_keeps; eassumption|]. intros s9 [u|e] [H9 S9]; [|done].
  apply persist_last; [done|done|]. eapply tx_silent, interruption_silent. eassumption.
Qed.

(** An operation that also changes the confirmation ledger works on the store
    as an ordinary one does. *)
Lemma withJobStateAnd_keeps {H A} en (action : Store -> H -> (Store * H) * result job_err A) s0 s h :
  en_canonical en = CanonicalSame -> holds P s -> same_store s0 s ->
  (forall s0 s h, holds P s -> same_store s0 s -> stays s0 (fst (fst (action s h))) (snd (action s h))) ->
  stays s0 (fst (fst (withJobStateAnd en action s h))) (snd (withJobStateAnd en action s h)).
Proof.
  intros Hc Hh S Ha. set (act := fun s => let '((s', _), r) := action s h in (s', r)).
  assert (Hk : keeps act).
  { intros s1 s2 H2 S2. unfold wp, act. specialize (Ha s1 s2 h H2 S2). by destruct (action s2 h) as [[]]. }
  pose proof (keeps_withJobState en act Hc Hk s0 s Hh S) as Hw. unfold wp, withJobState, withJobStateAnd in *.
  destruct (enterState en s) as [s1 [|e|e]]; try done.
  - unfold act in Hw. destruct (action s1 h) as [[s2 h2] r]. destruct (check_or_fail _ s2 r) as [s3 r3].
    by destruct (check_or_fail _ s3 r3) as [s4 r4].
  - by destruct (check_or_fail _ s1 _) as [s4 r4].
Qed.

Lemma CreateConfirmedAction_keeps oe io spec name inv c obs s0 s h :
  en_canonical (oe_state oe) = CanonicalSame -> holds P s -> same_store s0 s ->
  stays s0 (fst (fst (CreateConfirmedActionObserved oe io spec name inv c obs s h)))
           (snd (CreateConfirmedActionObserved oe io spec name inv c obs s h)).
Proof.
  intros Hc Hh S. unfold CreateConfirmedActionObserved. destruct (negb (present obs)); [done|].
  destruct (prepare_confirmed _ _ _ _ _) as [[[prepared receipt] d]|]; [|done].
  apply withJobStateAnd_keeps; [done|done|done|]. intros. by apply create_hook_keeps.
Qed.

Lemma RejectQueued_keeps oe id i e obs :
  en_canonical (oe_state oe) = CanonicalSame -> keeps (RejectQueuedObserved oe id i e obs).
Proof. intros Hc s0 s H S. unfold RejectQueuedObserved. run_op. by apply finishQueued_keeps. Qed.

Lemma store_step_keeps s0 s s' : store_step s s' -> holds P s -> same_store s0 s -> holds P s' /\ same_store s0 s'.
Proof.
  intros Hstep H S. destruct Hstep.
  - by apply CreateOrGet_keeps.
  - by apply CreateConfirmed_keeps.
  - by apply startObserved_keeps.
  - by apply ClaimNext_keeps.
  - by apply UpdateRunning_keeps.
  - by apply Transition_keeps.
  - by apply AppendEvent_keeps.
  - by apply finishQueued_keeps.
  - by apply RejectQueued_keeps.
  - by apply Acknowledge_keeps.
  - by apply Compact_keeps.
  - by apply RecoverInterrupted_keeps.
  - by apply CreateAction_keeps.
  - by apply CreateWithPolicy_keeps.
  - by apply CreateConfirmedAction_keeps.
  - by apply StartAction_keeps.
  - by apply AppendAction_keeps.
  - by apply CompleteAction_keeps.
  - by apply CancelQueuedAction_keeps.
  - by apply RejectQueuedAction_keeps.
  - by apply RequestCancel_keeps.
Qed.

Lemma store_steps_keep s0 s s' :
  rtc store_step s s' -> holds P s -> same_store s0 s -> holds P s' /\ same_store s0 s'.
Proof.
  induction 1 as [|a b c Hab _ IH]; [done|]. intros H S. destruct (store_step_keeps s0 a b Hab H S). by apply IH.
Qed.

End Kept.

End OpsFacts.
