(* ===== verification/JobServiceFacts.v ===== *)
(** * Package [internal/consolejobs]: a store that failed closed

    After a commit whose fate is unknown, a journal it cannot read or a lock it
    cannot verify, the store marks itself unavailable.  From then on, and after
    it was closed, no operation touches its state or its journal. *)

From S2P Require Import Prelude GoText GoJson GoEncoding ActionAbi HostConfirmation JobTypes JobSanitize JobAction.
From S2P Require Import JobJournal JobCompaction JobReceipts JobStore JobOps JobActionOps JobDemo JobStoreFacts JobInvariants.

Section Service.
Context {U : UnicodeTables}.

Definition out_of_service (s : Store) : bool := js_closed s || js_unavailable s.

(** The method fails and leaves a store that is out of service alone. *)
Definition inert {A} (m : M A) : Prop := forall s, out_of_service s = true -> wp m (fun s' r => s' = s /\ is_ok r = false) s.

Lemma enter_out_of_service en s : out_of_service s = true -> enterState en s = (s, TurnedAway EUnavailable).
Proof.
  unfold out_of_service, enterState. intros H. destruct (negb (en_gate en)); [done|]. destruct (js_closed s); [done|].
  cbn in H. by rewrite H.
Qed.

Lemma inert_withJobState {A} en (action : M A) : inert (withJobState en action).
Proof. intros s Hs. unfold wp, withJobState. by rewrite enter_out_of_service. Qed.

Lemma inert_withOwnership {A} lease directory verified (m : M A) s :
  inert m -> out_of_service s = true -> wp (fun s => withOwnership lease directory verified s m) (fun s' r => s' = s /\ is_ok r = false) s.
Proof.
  intros Hm Hs. unfold wp, withOwnership. destruct lease as [l|]; [|done]. destruct (el_closed l || _); [done|].
  destruct (negb verified); [done|]. by apply Hm.
Qed.

(** The checks before the store is entered. *)
Ltac inert_op :=
  repeat first [match goal with
    | |- wp (withJobState _ _) _ _ => apply inert_withJobState; assumption
    | |- _ = _ /\ is_ok (Err _) = false => split; reflexivity
    end | wp_step | progress cbn beta iota zeta].

Lemma inert_CreateOrGet oe spec obs : inert (CreateOrGetObserved oe spec obs).
Proof. intros s Hs. unfold CreateOrGetObserved. inert_op. Qed.
Lemma inert_startObserved oe id obs action : inert (startObserved oe id obs action).
Proof. intros s Hs. unfold startObserved. inert_op. Qed.
Lemma inert_finishQueued oe id status i e obs : inert (finishQueuedObserved oe id status i e obs).
Proof. intros s Hs. unfold finishQueuedObserved. inert_op. Qed.
Lemma inert_writeActionEvent oe lease verified e obs queued : inert (writeActionEvent oe lease verified e obs queued).
Proof.
  intros s Hs. unfold writeActionEvent. apply wp_bind, wp_lift. destruct (sanitizeActionEvent e); [|done]. cbn zeta.
  apply wp_if; intros _; [by apply inert_withJobState|]. apply inert_withOwnership; [apply inert_withJobState|done].
Qed.

Lemma store_step_inert s s' : out_of_service s = true -> store_step s s' -> s' = s.
Proof.
  intros Hs Hstep.
  destruct Hstep;
    match goal with
    | |- fst (fst _) = _ => idtac
    | |- fst (?m _) = _ => let H := fresh in assert (H : inert m); [|exact (proj1 (H _ Hs))]; clear s Hs; intros s Hs
    end.
  - by apply inert_CreateOrGet.
  - unfold CreateOrGetConfirmedObserved. inert_op.
  - by apply inert_startObserved.
  - unfold ClaimNextObserved. inert_op.
  - unfold UpdateRunning. inert_op.
  - unfold TransitionObserved. inert_op.
  - unfold AppendEvent. inert_op.
  - by apply inert_finishQueued.
  - unfold RejectQueuedObserved. inert_op. by apply inert_finishQueued.
  - unfold AcknowledgeCompensation. inert_op.
  - unfold Compact. inert_op.
  - unfold RecoverInterruptedJobsObserved. apply inert_withOwnership; [|done]. intros s1 Hs1. inert_op.
  - unfold CreateActionObserved. inert_op. by apply inert_CreateOrGet.
  - unfold CreateActionWithPolicyObserved. inert_op.
  - unfold CreateConfirmedActionObserved. destruct (negb (present obs)); [done|].
    destruct (prepare_confirmed _ _ _ _ _) as [[[prepared receipt] d]|]; [|done].
    unfold withJobStateAnd. by rewrite enter_out_of_service.
  - unfold StartActionObserved. inert_op. apply inert_withOwnership; [apply inert_startObserved|done].
  - unfold AppendActionEvent. inert_op. by apply inert_writeActionEvent.
  - unfold CompleteActionObserved. inert_op. by apply inert_writeActionEvent.
  - unfold CancelQueuedActionObserved. inert_op. by apply inert_writeActionEvent.
  - unfold RejectQueuedActionObserved. inert_op. by apply inert_writeActionEvent.
  - unfold RequestActionCancelObserved. inert_op.
Qed.

(** Out of service is final.  A store that marked itself unavailable or was
    closed answers every access, reading or writing, with [EUnavailable], and no
    sequence of operations with whatever input changes its state or its journal
    file again; only a recovery by a new store can. *)
Theorem out_of_service_is_final (s : Store) (Hs : out_of_service s = true) :
  (forall s', rtc store_step s s' -> s' = s) /\
  forall A en (action : M A), withJobState en action s = (s, Err EUnavailable).
Proof.
  split; [|intros A en action; unfold withJobState; by rewrite enter_out_of_service].
  intros s' H. induction H as [|a b c Hab _ IH]; [done|]. apply store_step_inert in Hab; [|done]. subst b. by apply IH.
Qed.
End Service.

(** A start whose append was torn fails closed, and a retry does nothing. *)
Lemma out_of_service_is_final_witness :
  let torn := mkOenv (demo_jenv demo_now) (mkCenv true demo_now demo_now (CommitPartial 0 true demo_stat) CompactFails)
                demo_now (demo_now, demo_now) [] in
  let s := fst (StartObserved torn "job_01" None demo_store) in
  out_of_service s = true /\ fst (StartObserved (demo_oenv demo_now) "job_01" None s) = s.
Proof.
  intros torn s. assert (Hs : out_of_service s = true) by (vm_compute; reflexivity). split; [exact Hs|].
  apply (proj1 (out_of_service_is_final s Hs)). apply rtc_once, (do_Start (demo_oenv demo_now) "job_01" None s). reflexivity.
Defined.
