(* ===== verification/JobOpsFacts.v ===== *)
(** * Package [internal/consolejobs]: what the operations of the store guarantee

    Mutual exclusion of the jobs that change a workspace, the limits on running
    and queued jobs, jobs and identities that are never lost, idempotent
    creation, single use of confirmations, and a store that fails closed. *)

From Stdlib Require Import Ascii.
From S2P Require Import Prelude GoText GoJson GoEncoding ActionAbi HostConfirmation JobTypes JobSanitize JobAction.
From S2P Require Import JobJournal JobCompaction JobReceipts JobStore JobOps JobActionOps JobDemo JobJournalFacts.
From S2P Require Import JobEventsFacts JobStoreFacts JobInvariants.

(** ** Running jobs *)

Definition running_map (st : storeState) : gmap string Job :=
  filter (fun kv => j_Status (snd kv) = StatusRunning) (st_jobs st).

Lemma filter_snd_length {K A} (P : A -> Prop) `{!forall x, Decision (P x)} (l : list (K * A)) :
  length (filter P (map snd l)) = length (filter (fun kv => P (snd kv)) l).
Proof.
  induction l as [|[k a] l IH]; [done|]. cbn [map snd]. rewrite !filter_cons. cbn [snd]. destruct (decide (P a)); cbn; lia.
Qed.

Lemma count_status_size st x :
  count_status st x = Z.of_nat (size (filter (fun kv => j_Status (snd kv) = x) (st_jobs st))).
Proof.
  unfold count_status, all_jobs. f_equal. rewrite filter_snd_length.
  rewrite map_filter_alt, <- length_map_to_list. apply Permutation_length. symmetry.
  apply map_to_list_to_map. eapply sublist_NoDup; [apply (NoDup_fst_map_to_list (st_jobs st))|].
  apply fmap_sublist, sublist_filter.
Qed.

Lemma count_status_le st st' x :
  (forall id j', st_jobs st' !! id = Some j' -> j_Status j' = x -> exists j, st_jobs st !! id = Some j /\ j_Status j = x) ->
  count_status st' x <= count_status st x.
Proof.
  intros H. rewrite !count_status_size. apply inj_le, dom_subseteq_size. intros id Hid.
  apply elem_of_dom in Hid as [j' Hj']. apply map_lookup_filter_Some in Hj' as [Hj' Hs]. destruct (H _ _ Hj' Hs) as (j & Hj & Hx).
  apply elem_of_dom. exists j. by apply map_lookup_filter_Some.
Qed.

Lemma count_status_insert st st' j x :
  st_jobs st' = <[j_ID j := j]> (st_jobs st) -> j_Status j = x -> (forall old, st_jobs st !! j_ID j = Some old -> j_Status old <> x) ->
  count_status st' x = count_status st x + 1.
Proof.
  intros Hj Hs Hold. rewrite !count_status_size, Hj. rewrite map_filter_insert_True by done. rewrite map_size_insert_None; [lia|].
  apply map_lookup_filter_None. right. intros old Ho. by apply Hold.
Qed.

Section OpsFacts.
Context {U : UnicodeTables}.

(** ** Admission *)

(** At most one job that changes a workspace runs in it. *)
Definition exclusive (st : storeState) : Prop :=
  forall id1 id2 j1 j2, running_map st !! id1 = Some j1 -> running_map st !! id2 = Some j2 ->
    j_Mutating j1 = true -> j_Mutating j2 = true -> j_WorkspaceID j1 = j_WorkspaceID j2 -> id1 = id2.

Definition admitted (o : Options) (st : storeState) : Prop :=
  jobs_wf st /\ exclusive st /\ count_status st StatusRunning <= op_MaxRunningJobs o /\
  count_status st StatusQueued <= op_MaxQueuedJobs o.

(** What a quiet record does to the jobs. *)
Lemma quiet_jobs st r st' :
  jobs_wf st -> quiet st r -> state_apply st r = Ok st' ->
  jobs_wf st' /\ forall id j', st_jobs st' !! id = Some j' ->
    exists j, st_jobs st !! id = Some j /\ (j_Status j' = StatusRunning -> j_Status j = StatusRunning) /\
      (j_Status j' = StatusQueued -> j_Status j = StatusQueued) /\ j_Mutating j' = j_Mutating j /\
      j_WorkspaceID j' = j_WorkspaceID j.
Proof.
  intros Hwf (Hk & Hc & Hq) Ha. pose proof (state_apply_jobs_step st r st' Hwf ltac:(done) Ha) as Hstep.
  split; [by eapply jobs_step_wf|]. intros id j' Hj'.
  destruct Hstep as [Heq|(j & Hj & Heq & _ & _ & Hev)]; rewrite Heq in Hj'; [by exists j'|].
  destruct (decide (j_ID j = id)) as [<-|Hne]; [|rewrite lookup_insert_ne in Hj' by done; by exists j'].
  rewrite lookup_insert_eq in Hj'. injection Hj' as <-. destruct (st_jobs st !! j_ID j) as [old|] eqn:Eo; [|by destruct Hev].
  exists old. split; [done|]. split; [intros Hr; destruct (Hq j Hj Hr) as (o & Ho & ?); congruence|].
  destruct Hev as [->|(_ & Hi & Hrank & _)]; [done|]. apply sameImmutable_spec in Hi. destruct_and?.
  split; [|split; congruence]. intros Hs. rewrite Hs in Hrank. destruct Hrank as [Hr|Hr]; [|done].
  destruct (j_Status old); cbn in Hr; lia.
Qed.

Lemma quiet_admitted o st r st' : admitted o st -> quiet st r -> state_apply st r = Ok st' -> admitted o st'.
Proof.
  intros (Hwf & Hex & Hn & Hm) Hq Ha. destruct (quiet_jobs st r st' Hwf Hq Ha) as [Hwf' Hj]. split_and!; [done| | |].
  - intros id1 id2 j1 j2 H1 H2 M1 M2 Hw. apply map_lookup_filter_Some in H1 as [H1 R1], H2 as [H2 R2].
    destruct (Hj _ _ H1) as (k1 & K1 & S1 & _ & ? & ?), (Hj _ _ H2) as (k2 & K2 & S2 & _ & ? & ?).
    apply (Hex id1 id2 k1 k2); try congruence; apply map_lookup_filter_Some; auto.
  - etrans; [apply count_status_le|exact Hn]. intros id j' Hj' Hs. destruct (Hj _ _ Hj') as (j & ? & ? & _). eauto.
  - etrans; [apply count_status_le|exact Hm]. intros id j' Hj' Hs. destruct (Hj _ _ Hj') as (j & ? & _ & ? & _). eauto.
Qed.

Lemma created_jobs st r st' :
  state_apply st r = Ok st' -> r_Kind r = recordJobCreated ->
  exists j, j_Status j = StatusQueued /\ st_jobs st !! j_ID j = None /\ st_jobs st' = <[j_ID j := j]> (st_jobs st).
Proof.
  intros (s1 & Hk & -> & _)%state_apply_inv Hr. unfold apply_kind in Hk. rewrite Hr in Hk.
  apply applyJobCreated_inv in Hk as (j & i & _ & _ & _ & Hs & _ & _ & _ & Hn & _ & _ & ->). by exists j.
Qed.

Lemma create_admitted o st r st' :
  admitted o st -> r_Kind r = recordJobCreated -> count_status st StatusQueued < op_MaxQueuedJobs o ->
  state_apply st r = Ok st' -> admitted o st'.
Proof.
  intros (Hwf & Hex & Hn & Hm) Hk Hq Ha. destruct (created_jobs st r st' Ha Hk) as (j & Hs & Hnone & Hj).
  assert (Hr : running_map st' = running_map st).
  { unfold running_map. rewrite Hj. apply map_filter_insert_not'; cbn; [congruence|]. intros y Hy. congruence. }
  split_and!.
  - eapply jobs_step_wf, state_apply_jobs_step, Ha; [done..|]. by rewrite Hk.
  - unfold exclusive. by rewrite Hr.
  - rewrite count_status_size in *. fold (running_map st') (running_map st) in *. by rewrite Hr.
  - rewrite (count_status_insert st st' j); [lia|done|done|]. intros old Ho. congruence.
Qed.

Lemma here_nil st candidate (P : Job -> Prop) `{!forall x, Decision (P x)} :
  filter P (filter (fun j => j_WorkspaceID j = j_WorkspaceID candidate) (all_jobs st)) = [] ->
  forall id j, st_jobs st !! id = Some j -> j_WorkspaceID j = j_WorkspaceID candidate -> ~ P j.
Proof.
  intros Hnil id j Hj Hw HP. assert (Hin : j ∈ @nil Job); [|by apply not_elem_of_nil in Hin].
  rewrite <- Hnil. apply list_elem_of_filter. split; [done|]. apply list_elem_of_filter. split; [done|].
  apply elem_all_jobs. by exists id.
Qed.

(** What the admission check establishes. *)
Lemma canStart_inv o st candidate :
  canStart o st candidate = Ok tt ->
  count_status st StatusRunning < op_MaxRunningJobs o /\ actionExecutionBarrier st = Ok tt /\
  actionQueueBarrier st candidate = Ok tt /\
  (j_Mutating candidate = true ->
     (forall id j, st_jobs st !! id = Some j -> j_WorkspaceID j = j_WorkspaceID candidate ->
        j_Mutating j = true -> j_Status j <> StatusRunning) /\
     (forall id j, st_jobs st !! id = Some j -> j_WorkspaceID j = j_WorkspaceID candidate ->
        j_NeedsCompensationCheck j = false)).
Proof.
  unfold canStart. intros H. do 3 ok_step H. destruct a, a0. breflect. split_and!; try done.
  intros Hm. rewrite Hm in H. cbn [negb] in H.
  destruct (filter _ (filter _ (all_jobs st))) as [|j l] eqn:F1 in H; [|done].
  destruct (filter (fun j => j_NeedsCompensationCheck j = true) _) as [|j l] eqn:F2 in H; [|done].
  split; intros id j Hj Hw.
  - pose proof (here_nil st candidate _ F1 id j Hj Hw) as Hn. cbn in Hn. intros Hm' Hs. apply Hn. rewrite Hm', Hs. done.
  - pose proof (here_nil st candidate _ F2 id j Hj Hw) as Hn. cbn in Hn. by destruct (j_NeedsCompensationCheck j).
Qed.

Lemma running_map_insert st j st' :
  st_jobs st' = <[j_ID j := j]> (st_jobs st) -> j_Status j = StatusRunning ->
  running_map st' = <[j_ID j := j]> (running_map st).
Proof. intros Hj Hs. unfold running_map. rewrite Hj. by apply map_filter_insert_True. Qed.

Lemma start_admitted o st st' job now :
  st_jobs st !! j_ID job = Some job -> j_Status job = StatusQueued -> canStart o st job = Ok tt ->
  st_jobs st' = <[j_ID job := started_job job now]> (st_jobs st) -> jobs_wf st' -> admitted o st -> admitted o st'.
Proof.
  intros Hjob Hq Hcan Hst' Hwf' (Hwf & Hex & Hn & Hqn). apply canStart_inv in Hcan as (Hmax & _ & _ & Hm).
  pose proof (running_map_insert st (started_job job now) st' Hst' eq_refl) as Hrun.
  cbn [j_ID started_job j_with_Revision j_with_StartedAt j_with_Status] in Hrun.
  split_and!; [done| | |].
  - intros id1 id2 j1 j2 H1 H2 M1 M2 Hw. rewrite Hrun in H1, H2.
    assert (Hnew : forall id j, running_map st !! id = Some j -> j_Mutating j = true -> j_Mutating job = true ->
              j_WorkspaceID j = j_WorkspaceID job -> False).
    { intros id j Hj Hmj Hmm Hww. apply map_lookup_filter_Some in Hj as [Hj Hs]. by apply (proj1 (Hm Hmm) id j). }
    apply lookup_insert_Some in H1 as [[<- <-]|[Hne1 H1]], H2 as [[<- <-]|[Hne2 H2]]; try done.
    + exfalso. eapply (Hnew id2 j2); done.
    + exfalso. eapply (Hnew id1 j1); done.
    + by eapply Hex.
  - rewrite (count_status_insert st st' (started_job job now)); [lia|done|done|]. cbn. intros old Ho. congruence.
  - etrans; [apply count_status_le|exact Hqn]. intros id j' Hj' Hs. rewrite Hst' in Hj'.
    apply lookup_insert_Some in Hj' as [[<- <-]|[_ Hj']]; [done|by exists j'].
Qed.

Lemma updated_jobs st r st' next :
  state_apply st r = Ok st' -> r_Kind r = recordJobUpdated -> r_Job r = Some next ->
  st_jobs st' = <[j_ID next := next]> (st_jobs st).
Proof.
  intros (s1 & Hk & -> & _)%state_apply_inv Hr Hj. unfold apply_kind in Hk. rewrite Hr in Hk.
  apply applyJobUpdated_inv in Hk as (nx & pv & Hnx & _ & _ & _ & _ & _ & _ & ->). rewrite Hj in Hnx. by injection Hnx as <-.
Qed.

#[export] Instance admitted_kept : Kept admitted.
Proof.
  split.
  - intros o a b [_ _ _ Hj _ _]. unfold admitted, exclusive, running_map, jobs_wf. rewrite !count_status_size. by rewrite Hj.
  - by intros o st (? & _).
  - intros o st r st' HP Hq Ha. by eapply quiet_admitted.
  - intros o st r st' HP Hk Hq Ha. by eapply create_admitted.
  - intros o st r st' job now HP Hk Hj Hjob Hq Hcan Ha. eapply (start_admitted o st st' job now); try done.
    + by eapply (updated_jobs st r st' (started_job job now)).
    + eapply jobs_step_wf, state_apply_jobs_step, Ha; [apply HP..|]. by rewrite Hk.
Qed.

(** C16: mutual exclusion.  However the operations of a store are interleaved
    and however their commits, compactions and locks end, at most one running
    job changes a workspace, and the numbers of running and of queued jobs
    stay within [MaxRunningJobs] and [MaxQueuedJobs]. *)
Theorem workspace_mutual_exclusion s s'
    (Hj : js_journal s = df_stat (js_file s)) (Hs : admitted (js_options s) (js_state s)) (Hrun : rtc store_step s s') :
  (forall id1 id2 j1 j2, st_jobs (js_state s') !! id1 = Some j1 -> st_jobs (js_state s') !! id2 = Some j2 ->
     j_Status j1 = StatusRunning -> j_Status j2 = StatusRunning -> j_Mutating j1 = true -> j_Mutating j2 = true ->
     j_WorkspaceID j1 = j_WorkspaceID j2 -> id1 = id2) /\
  count_status (js_state s') StatusRunning <= op_MaxRunningJobs (js_options s) /\
  count_status (js_state s') StatusQueued <= op_MaxQueuedJobs (js_options s).
Proof.
  destruct (store_steps_keep admitted s s s' Hrun (conj Hs (fun _ => Hj)) ltac:(done)) as [[(Hwf & Hex & Hn & Hq) _] (_ & Ho & _)].
  rewrite Ho in Hn, Hq. split; [|done].
  intros id1 id2 j1 j2 H1 H2 R1 R2 M1 M2 Hw. apply (Hex id1 id2 j1 j2); try done; by apply map_lookup_filter_Some.
Qed.

(** ** Nothing is forgotten *)

(** A property that every record keeps, snapshots of other generations apart. *)
Lemma kept_always (P : Options -> storeState -> Prop) :
  (forall o a b, same_meaning a b -> P o a -> P o b) -> (forall o st, P o st -> jobs_wf st) ->
  (forall o st r st', P o st -> r_Kind r <> recordJobSnapshot -> state_apply st r = Ok st' -> P o st') -> Kept P.
Proof.
  intros Hm Hwf Hr. split; [done|done| | |].
  - intros o st r st' HP (Hk & _) Ha. by eapply Hr.
  - intros o st r st' HP Hk _ Ha. eapply Hr; [done| |done]. by rewrite Hk.
  - intros o st r st' job now HP Hk _ _ _ _ Ha. eapply Hr; [done| |done]. by rewrite Hk.
Qed.

Lemma wf_record st r st' : jobs_wf st -> r_Kind r <> recordJobSnapshot -> state_apply st r = Ok st' -> jobs_wf st'.
Proof.
  intros Hwf Hk Ha. eapply jobs_step_wf; [exact Hwf|]. eapply state_apply_jobs_step; [exact Hwf| |exact Ha]. by intros ?.
Qed.

(** A later version of the job is still there. *)
Definition lineage (id : string) (old : Job) (_ : Options) (st : storeState) : Prop :=
  jobs_wf st /\ exists new, st_jobs st !! id = Some new /\ job_evolves old new.

#[export] Instance lineage_kept id old : Kept (lineage id old).
Proof.
  apply kept_always.
  - intros o a b [_ _ _ Hj _ _]. unfold lineage, jobs_wf. by rewrite Hj.
  - by intros o st [? _].
  - intros o st r st' [Hwf (mid & Hmid & Hev)] Hk Ha. split; [by eapply wf_record|].
    pose proof (state_apply_jobs_step st r st' Hwf ltac:(done) Ha) as Hstep.
    destruct (jobs_step_evolves _ _ _ _ _ Hstep Hmid) as (new & Hnew & Hev'). exists new. split; [done|by etrans].
Qed.

(** The identity of a request stays bound to its job. *)
Lemma state_apply_idempotency st r st' k i :
  state_apply st r = Ok st' -> st_idempotency st !! k = Some i -> st_idempotency st' !! k = Some i.
Proof.
  intros (s1 & Hk & -> & _)%state_apply_inv Hi. cbn. unfold apply_kind in Hk. destruct (r_Kind r).
  - unfold applyInitialized in Hk. ok_path Hk. by subst.
  - apply applyJobCreated_inv in Hk as (j & i' & _ & _ & _ & _ & _ & _ & _ & _ & _ & Hn & ->). cbn.
    rewrite lookup_insert_ne; [done|congruence].
  - by apply applyJobUpdated_inv in Hk as (j & p & _ & _ & _ & _ & _ & _ & _ & ->).
  - by apply applyEvent_inv in Hk as (e & j & _ & _ & _ & _ & _ & _ & _ & _ & ->).
  - apply applyActionEvent_inv in Hk as (es & j & p & a & sv & id & lst & _ & _ & _ & _ & _ & _ & _ & _ & _ & _ & _ & _ & ->).
    by destruct (r_Prune r).
  - by apply applyActionKeyBound_inv in Hk as (j & p & pa & pp & b & _ & _ & _ & _ & _ & _ & _ & _ & _ & ->).
  - by apply applyPrune_inv in Hk as (p & j & _ & _ & _ & _ & ->).
  - by apply applySnapshotBegin_inv in Hk as (b & d & _ & _ & _ & ->).
  - unfold applyJobSnapshot in Hk. ok_path Hk. by subst.
  - unfold applyIdempotencySnapshot in Hk. ok_path Hk. subst. cbn. breflect. rewrite lookup_insert_ne; [done|].
    intros Heq. rewrite Heq, Hi in *. done.
  - by apply applyEventCursor_inv in Hk as (sp & c & d & _ & _ & _ & _ & _ & ->).
  - by apply applyEventSnapshot_inv in Hk as (sp & e & d & _ & _ & _ & _ & _ & _ & _ & ->).
  - by apply applySnapshotEnd_inv in Hk as (sp & _ & _ & _ & _ & ->).
  - done.
Qed.

Definition remembers (k : string) (i : persistedIdempotency) (_ : Options) (st : storeState) : Prop :=
  jobs_wf st /\ st_idempotency st !! k = Some i.

#[export] Instance remembers_kept k i : Kept (remembers k i).
Proof.
  apply kept_always.
  - intros o a b [_ _ _ Hj Hi _]. unfold remembers, jobs_wf. by rewrite Hj, Hi.
  - by intros o st [? _].
  - intros o st r st' [Hwf Hi] Hk Ha. split; [by eapply wf_record|by eapply state_apply_idempotency].
Qed.

(** C17: the store forgets nothing.  Through every history of operations and
    failures each job that was recorded is still there in a version the
    original may have evolved into (same identity, workspace, kind, creator and
    request; revisions and status only forward; final once terminal), and each
    request identity stays bound to exactly the job it was bound to. *)
Theorem store_never_forgets s s'
    (Hj : js_journal s = df_stat (js_file s)) (Hwf : jobs_wf (js_state s)) (Hrun : rtc store_step s s') :
  (forall id old, st_jobs (js_state s) !! id = Some old ->
     exists new, st_jobs (js_state s') !! id = Some new /\ job_evolves old new) /\
  (forall k i, st_idempotency (js_state s) !! k = Some i -> st_idempotency (js_state s') !! k = Some i).
Proof.
  split.
  - intros id old Ho. assert (H : lineage id old (js_options s) (js_state s)) by (split; [done|by exists old]).
    destruct (store_steps_keep _ s s s' Hrun (conj H (fun _ => Hj)) ltac:(done)) as [[[_ Hl] _] _]. done.
  - intros k i Hi. assert (H : remembers k i (js_options s) (js_state s)) by done.
    destruct (store_steps_keep _ s s s' Hrun (conj H (fun _ => Hj)) ltac:(done)) as [[[_ Hl] _] _]. done.
Qed.

(** ** Idempotent creation *)

Lemma entered_kept (P : Options -> storeState -> Prop) `{!Kept P} en s s1 :
  en_canonical en = CanonicalSame -> holds P s -> enterState en s = (s1, Entered) -> holds P s1 /\ same_store s s1.
Proof.
  intros Hc H He. eapply (entered_holds P kept_meaning); [|done..]. intros. by eapply tx_silent, prunes_silent.
Qed.

Definition identity_of (spec : CreateSpec) : string :=
  let i := cs_Idempotency spec in
  idempotencyIdentity (ii_Principal i) (ii_Method i) (ii_CanonicalPath i) (cs_WorkspaceID spec) (DigestRequest (ii_Key i)).

Lemma prepareCreate_inv spec prepared idem :
  prepareCreate spec = Ok (prepared, idem) ->
  pi_Identity idem = identity_of spec /\ pi_RequestDigest idem = ii_RequestDigest (cs_Idempotency spec) /\
  exists request, sanitizePayload (cs_Request spec) = Ok request /\ prepared = cs_with_Request spec request.
Proof. unfold prepareCreate. intros H. ok_path H. subst. cbn. split_and!; try done. by eexists. Qed.

Lemma newJobID_fresh n random st id : newJobID n random st = Ok id -> st_jobs st !! id = None.
Proof.
  revert random. induction n as [|n IH]; intros random H; cbn in H; [done|]. destruct random as [|b rest]; [done|].
  destruct (present _) eqn:E; [by eapply IH|]. injection H as <-. by apply present_false.
Qed.

Definition well_formed (_ : Options) (st : storeState) : Prop := jobs_wf st.
#[export] Instance well_formed_kept : Kept well_formed.
Proof.
  apply kept_always; unfold well_formed; [intros o a b [_ _ _ Hj _ _]; unfold jobs_wf; by rewrite Hj|done|].
  intros. by eapply wf_record.
Qed.

(** The identity recorded for a creation that succeeded. *)
Lemma create_recorded {H} oe prepared idem bc (hook : Job -> H -> H * result job_err unit) obs dec s h s' h' res :
  jobs_wf (js_state s) ->
  createOrGetPreparedWithJobHook oe prepared idem bc hook obs dec s h = ((s', h'), Ok res) -> js_unavailable s' = false ->
  exists i, st_idempotency (js_state s') !! pi_Identity idem = Some i /\ pi_JobID i = j_ID (cres_Job res) /\
    pi_RequestDigest i = pi_RequestDigest idem /\
    (forall i0, st_idempotency (js_state s) !! pi_Identity idem = Some i0 -> i = i0 /\ cres_Existing res = true /\ s' = s).
Proof.
  intros Hwf. unfold createOrGetPreparedWithJobHook. cbn zeta.
  destruct (st_idempotency (js_state s) !! pi_Identity idem) as [existing|] eqn:Ei.
  - destruct (st_jobs (js_state s) !! pi_JobID existing) as [job|] eqn:Ej; [|done]. intros [= <- _ Hr] Hu. ok_path Hr. subst res.
    breflect. exists existing. cbn. split_and!; try done; [|by intros i0 [= <-]].
    by destruct (Hwf _ _ Ej) as [-> _].
  - destruct (bc _ _) as [spec|]; [|done]. destruct (op_MaxQueuedJobs _ <=? _); [done|].
    destruct (newJobID _ _ _) as [id|e]; [|by destruct e]. destruct (hook _ h) as [h2 [[]|e]]; [|done].
    destruct (observeJobCommit _ _); [|done]. destruct (persistRecords _ _ s) as [s2 [[]|e]] eqn:Ep; [|done].
    intros [= <- _ <-] Hu. destruct (persist_one _ _ _ _ _ Ep Hu) as (seq & at_ & next & Ha & Hm).
    apply state_apply_inv in Ha as (st1 & Hk & -> & _).
    apply applyJobCreated_inv in Hk as (j & i & Hj & Hi & _ & _ & _ & _ & _ & _ & _ & _ & ->).
    cbn in Hj, Hi. injection Hj as <-. injection Hi as <-. exists (pi_with_JobID idem id).
    rewrite <- (sm_idempotency _ _ Hm). cbn. rewrite lookup_insert_eq. done.
Qed.

Lemma CreateOrGet_recorded oe spec obs s s' res :
  en_canonical (oe_state oe) = CanonicalSame -> holds well_formed s ->
  CreateOrGetObserved oe spec obs s = (s', Ok res) -> js_unavailable s' = false ->
  exists i, st_idempotency (js_state s') !! identity_of spec = Some i /\ pi_JobID i = j_ID (cres_Job res) /\
    pi_RequestDigest i = ii_RequestDigest (cs_Idempotency spec).
Proof.
  intros Hc Hh. unfold CreateOrGetObserved, bind, lift. destruct (prepareCreate spec) as [[prepared idem]|] eqn:Ep; [|done].
  intros (s1 & He & Ha)%withJobState_ok Hu. destruct (entered_kept _ _ _ _ Hc Hh He) as [[Hwf _] _].
  unfold createOrGetPrepared in Ha. destruct (createOrGetPreparedWithJobHook _ _ _ _ _ _ _ _ _) as [[s2 []] r] eqn:Eh.
  injection Ha as -> ->. destruct (create_recorded _ _ _ _ _ _ _ _ _ _ _ _ Hwf Eh Hu) as (i & Hi & Hid & Hd & _).
  apply prepareCreate_inv in Ep as (Hident & Hdig & _). exists i. rewrite <- Hident, <- Hdig. done.
Qed.

Lemma CreateOrGet_existing oe spec obs s s' res i :
  en_canonical (oe_state oe) = CanonicalSame -> holds (remembers (identity_of spec) i) s ->
  CreateOrGetObserved oe spec obs s = (s', Ok res) ->
  cres_Existing res = true /\ j_ID (cres_Job res) = pi_JobID i /\ pi_RequestDigest i = ii_RequestDigest (cs_Idempotency spec).
Proof.
  intros Hc Hh. unfold CreateOrGetObserved, bind, lift. destruct (prepareCreate spec) as [[prepared idem]|] eqn:Ep; [|done].
  intros (s1 & He & Ha)%withJobState_ok. destruct (entered_kept _ _ _ _ Hc Hh He) as [[[Hwf Hi] _] _].
  apply prepareCreate_inv in Ep as (Hident & Hdig & _). rewrite <- Hident in Hi.
  unfold createOrGetPrepared, createOrGetPreparedWithJobHook in Ha. rewrite Hi in Ha.
  destruct (st_jobs (js_state s1) !! pi_JobID i) as [job|] eqn:Ej; [|done]. injection Ha as _ Ha. ok_path Ha. subst res. breflect.
  cbn. split_and!; [done| |congruence]. by destruct (Hwf _ _ Ej) as [-> _].
Qed.

(** C18: creation is idempotent.  Once a request with an idempotency key has
    been answered, every later request with the same principal, method, path,
    workspace and key that succeeds, after any further operations, returns the
    same job as existing, and it succeeds only if its body has the same digest:
    a retried request never creates a second job, and a reused key never
    silently returns a job for a different request. *)
Theorem create_is_idempotent oe1 spec1 obs1 s s1 res1 s2 oe2 spec2 obs2 s3 res2
    (Hc1 : en_canonical (oe_state oe1) = CanonicalSame) (Hc2 : en_canonical (oe_state oe2) = CanonicalSame)
    (Hj : js_journal s = df_stat (js_file s)) (Hwf : jobs_wf (js_state s))
    (H1 : CreateOrGetObserved oe1 spec1 obs1 s = (s1, Ok res1)) (Hup : js_unavailable s1 = false)
    (Hrun : rtc store_step s1 s2)
    (Hsame : identity_of spec2 = identity_of spec1)
    (H2 : CreateOrGetObserved oe2 spec2 obs2 s2 = (s3, Ok res2)) :
  cres_Existing res2 = true /\ j_ID (cres_Job res2) = j_ID (cres_Job res1) /\
  ii_RequestDigest (cs_Idempotency spec2) = ii_RequestDigest (cs_Idempotency spec1).
Proof.
  assert (Hh : holds well_formed s) by (by split).
  destruct (CreateOrGet_recorded _ _ _ _ _ _ Hc1 Hh H1 Hup) as (i & Hi & Hid & Hd).
  destruct (CreateOrGet_keeps well_formed oe1 spec1 obs1 Hc1 s s Hh ltac:(done)) as [[Hwf1 Hj1] _]. rewrite H1 in Hwf1, Hj1.
  assert (Hr : holds (remembers (identity_of spec1) i) s1) by (split; [split; [exact Hwf1|exact Hi]|exact Hj1]).
  destruct (store_steps_keep _ s1 s1 s2 Hrun Hr ltac:(done)) as [Hr2 _]. rewrite <- Hsame in Hr2.
  destruct (CreateOrGet_existing _ _ _ _ _ _ _ Hc2 Hr2 H2) as (He & Hid2 & Hd2). split_and!; [done|congruence|congruence].
Qed.

(** ** Single use of confirmations *)

Lemma obj_get_set k v m : obj_get k (obj_set k v m) = Some v.
Proof.
  induction m as [|[k' v'] m IH]; cbn; [by rewrite bool_decide_eq_true_2|].
  destruct (k ==? k') eqn:E; cbn; [by rewrite bool_decide_eq_true_2|].
  destruct (sleb k k'); cbn; [by rewrite bool_decide_eq_true_2|]. breflect. by rewrite bool_decide_eq_false_2.
Qed.

Lemma obj_get_set_ne k k2 v m : k2 <> k -> obj_get k2 (obj_set k v m) = obj_get k2 m.
Proof.
  intros Hne. induction m as [|[k' v'] m IH]; cbn; [by rewrite bool_decide_eq_false_2|].
  destruct (k ==? k') eqn:E; cbn.
  - breflect. subst k'. by rewrite bool_decide_eq_false_2.
  - destruct (sleb k k'); cbn; [by rewrite (bool_decide_eq_false_2 (k2 = k))|]. by rewrite IH.
Qed.

Lemma confirmed_request_digest request d c :
  pget_string ConfirmationDigestRequestKey (confirmed_request request d c) = d /\
  (forall su, ci_StepUp c = Some su ->
     pget_string StepUpDigestRequestKey (confirmed_request request d c) = DigestRequest (su_Token su)).
Proof.
  unfold pget_string, pget, confirmed_request. split.
  - destruct (ci_StepUp c); cbn [mbind option_bind]; by rewrite ?(obj_get_set_ne _ _ _ _), obj_get_set by done.
  - intros su Hsu. rewrite Hsu. cbn [mbind option_bind]. by rewrite obj_get_set.
Qed.

(** A creation that made a new job: what it was checked against, and the job it
    recorded. *)
Lemma create_new {H} oe prepared idem bc (hook : Job -> H -> H * result job_err unit) obs dec s h s' h' res :
  createOrGetPreparedWithJobHook oe prepared idem bc hook obs dec s h = ((s', h'), Ok res) -> cres_Existing res = false ->
  exists spec, bc (js_state s) prepared = Ok spec /\ j_Request (cres_Job res) = cs_Request spec /\
    (js_unavailable s' = false -> st_jobs (js_state s') !! j_ID (cres_Job res) = Some (cres_Job res)).
Proof.
  unfold createOrGetPreparedWithJobHook. cbn zeta.
  destruct (st_idempotency (js_state s) !! pi_Identity idem) as [existing|].
  { destruct (st_jobs _ !! _); [|done]. intros [= _ _ Hr] He. ok_path Hr. by subst res. }
  destruct (bc _ _) as [spec|] eqn:Eb; [|done]. destruct (op_MaxQueuedJobs _ <=? _); [done|].
  destruct (newJobID _ _ _) as [id|e]; [|by destruct e]. destruct (hook _ h) as [h2 [[]|e]]; [|done].
  destruct (observeJobCommit _ _); [|done]. destruct (persistRecords _ _ s) as [s2 [[]|e]] eqn:Ep; [|done].
  intros [= <- _ <-] _. exists spec. split_and!; [done|done|]. intros Hu.
  destruct (persist_one _ _ _ _ _ Ep Hu) as (seq & at_ & next & Ha & Hm).
  apply state_apply_inv in Ha as (st1 & Hk & -> & _).
  apply applyJobCreated_inv in Hk as (j & i & Hj & Hi & _ & _ & _ & _ & _ & _ & _ & _ & ->).
  cbn in Hj, Hi. injection Hj as <-. rewrite <- (sm_jobs _ _ Hm). cbn. by rewrite lookup_insert_eq.
Qed.

Lemma confirmed_new oe spec c obs s s' res :
  CreateOrGetConfirmedObserved oe spec c obs s = (s', Ok res) -> cres_Existing res = false ->
  exists s1 d request, enterState (oe_state oe) s = (s1, Entered) /\
    validateConfirmationLocked (oe_checks oe) (js_state s1) c = Ok d /\
    j_Request (cres_Job res) = confirmed_request request d c /\
    (js_unavailable s' = false -> st_jobs (js_state s') !! j_ID (cres_Job res) = Some (cres_Job res)).
Proof.
  unfold CreateOrGetConfirmedObserved, bind, lift. intros H He. destruct (existsb _ reserved_keys); [done|].
  destruct (prepareCreate spec) as [[prepared idem]|]; [|done]. destruct (validateConfirmationInput _ _); [|done].
  destruct (negb (cs_Mutating prepared) || _ || _); [done|].
  apply withJobState_ok in H as (s1 & Hs1 & Ha). unfold createOrGetPrepared in Ha.
  destruct (createOrGetPreparedWithJobHook _ _ _ _ _ _ _ _ _) as [[s2 []] r] eqn:Eh. injection Ha as -> ->.
  destruct (create_new _ _ _ _ _ _ _ _ _ _ _ _ Eh He) as (spec' & Hb & Hreq & Hst). ok_path Hb. subst spec'.
  exists s1, a0, (cs_Request prepared). done.
Qed.

(** The checks under the lock: neither proof was used before. *)
Lemma validateConfirmation_fresh checks st c d :
  validateConfirmationLocked checks st c = Ok d ->
  d = DigestRequest (ci_Token c) /\ digest_used st ConfirmationDigestRequestKey d = false /\
  (forall su, ci_StepUp c = Some su -> digest_used st StepUpDigestRequestKey (DigestRequest (su_Token su)) = false).
Proof.
  unfold validateConfirmationLocked. destruct (st_jobs st !! _) as [plan|]; [|done]. intros H. ok_step H.
  destruct (nestedStringMap _ _) as [binding|]; [|done]. do 4 ok_step H. injection H as <-. split_and!; [done|done|].
  intros su Hsu. rewrite Hsu in *.
  match goal with X : (if negb (fields_match _ _) then Err _ else _) = Ok _ |- _ => do 3 ok_step X; done end.
Qed.

Lemma digest_used_true st key d id j :
  st_jobs st !! id = Some j -> pget_string key (j_Request j) = d -> digest_used st key d = true.
Proof.
  intros Hj Hd. unfold digest_used. apply existsb_exists. exists j. split.
  - apply list_elem_of_In, elem_all_jobs. by exists id.
  - by apply bool_decide_eq_true.
Qed.

(** C19: a confirmation and its step-up proof authorise one job.  Once a
    confirmed creation made a new job, no later confirmed creation makes
    another job with the same confirmation token or with the same step-up
    token, after any further operations; at most it returns a job that exists. *)
Theorem confirmation_authorises_one_job oe1 spec1 c1 obs1 s s1 res1 s2 oe2 spec2 c2 obs2 s3 res2
    (Hc1 : en_canonical (oe_state oe1) = CanonicalSame) (Hc2 : en_canonical (oe_state oe2) = CanonicalSame)
    (Hj : js_journal s = df_stat (js_file s)) (Hwf : jobs_wf (js_state s))
    (H1 : CreateOrGetConfirmedObserved oe1 spec1 c1 obs1 s = (s1, Ok res1)) (Hnew : cres_Existing res1 = false)
    (Hup : js_unavailable s1 = false) (Hrun : rtc store_step s1 s2)
    (H2 : CreateOrGetConfirmedObserved oe2 spec2 c2 obs2 s2 = (s3, Ok res2))
    (Hsame : ci_Token c2 = ci_Token c1 \/
             exists su1 su2, ci_StepUp c1 = Some su1 /\ ci_StepUp c2 = Some su2 /\ su_Token su1 = su_Token su2) :
  cres_Existing res2 = true.
Proof.
  destruct (cres_Existing res2) eqn:He2; [done|exfalso].
  destruct (confirmed_new _ _ _ _ _ _ _ H1 Hnew) as (e1 & d1 & req1 & _ & Hv1 & Hr1 & Hst1).
  destruct (confirmed_new _ _ _ _ _ _ _ H2 He2) as (e2 & d2 & req2 & Hent & Hv2 & _ & _).
  apply validateConfirmation_fresh in Hv1 as (-> & _ & _), Hv2 as (-> & Hu & Hsu).
  assert (Hh : holds well_formed s) by (by split).
  destruct (CreateConfirmed_keeps well_formed oe1 spec1 c1 obs1 Hc1 s s Hh ltac:(done)) as [[Hwf1 Hj1] _]. rewrite H1 in Hwf1, Hj1.
  assert (Hl : holds (lineage (j_ID (cres_Job res1)) (cres_Job res1)) s1)
    by (split; [split; [exact Hwf1|by eexists; split; [apply Hst1|]]|exact Hj1]).
  destruct (store_steps_keep _ s1 s1 s2 Hrun Hl ltac:(done)) as [Hl2 _].
  destruct (entered_kept _ _ _ _ Hc2 Hl2 Hent) as [[[_ (new & Hn & Hev)] _] _].
  assert (Hreq : j_Request new = confirmed_request req1 (DigestRequest (ci_Token c1)) c1).
  { rewrite <- Hr1. destruct Hev as [->|(_ & Hi & _)]; [done|]. apply sameImmutable_spec in Hi. by destruct_and?. }
  destruct (confirmed_request_digest req1 (DigestRequest (ci_Token c1)) c1) as [Hd Hds]. rewrite <- Hreq in Hd, Hds.
  destruct Hsame as [Ht|(su1 & su2 & Hs1 & Hs2 & Ht)].
  - rewrite Ht, (digest_used_true _ _ _ _ _ Hn Hd) in Hu. done.
  - specialize (Hsu su2 Hs2). rewrite <- Ht, (digest_used_true _ _ _ _ _ Hn (Hds su1 Hs1)) in Hsu. done.
Qed.

End OpsFacts.

Lemma demo_admitted : admitted demo_options demo_created.
Proof.
  split; [exact demo_created_wf|]. split; [|split; vm_compute; discriminate].
  assert (Hr : running_map demo_created = ∅) by (vm_compute; reflexivity).
  intros id1 id2 j1 j2 H1. rewrite Hr, lookup_empty in H1. discriminate H1.
Qed.

Lemma workspace_mutual_exclusion_witness :
  count_status (js_state demo_started) StatusRunning = 1 /\
  count_status (js_state demo_started) StatusRunning <= op_MaxRunningJobs demo_options.
Proof.
  split; [vm_compute; reflexivity|].
  refine (proj1 (proj2 (workspace_mutual_exclusion demo_store demo_started _ _ _))).
  - reflexivity.
  - exact demo_admitted.
  - apply rtc_once. apply do_Start. reflexivity.
Defined.

Lemma store_never_forgets_witness :
  st_jobs (js_state demo_store) !! "job_01" = Some demo_queued /\
  exists new, st_jobs (js_state demo_started) !! "job_01" = Some new /\ job_evolves demo_queued new.
Proof.
  assert (H : st_jobs (js_state demo_store) !! "job_01" = Some demo_queued) by (vm_compute; reflexivity).
  split; [exact H|]. refine (proj1 (store_never_forgets demo_store demo_started _ _ _) _ _ H).
  - reflexivity.
  - exact demo_created_wf.
  - apply rtc_once. apply do_Start. reflexivity.
Defined.

(** The environment of the examples, [n] nanoseconds later. *)
Definition demo_env (n : Z) : oenv := demo_oenv (demo_now + n).

Lemma create_is_idempotent_witness :
  exists s1 res1 s2 res2,
    CreateOrGetObserved (demo_env 5) demo_spec2 None demo_store = (s1, Ok res1) /\
    CreateOrGetObserved (demo_env 6) demo_spec2 None s1 = (s2, Ok res2) /\ cres_Existing res2 = true.
Proof.
  assert (H : is_ok (snd (CreateOrGetObserved (demo_env 5) demo_spec2 None demo_store)) &&
              negb (js_unavailable (fst (CreateOrGetObserved (demo_env 5) demo_spec2 None demo_store))) &&
              is_ok (snd (CreateOrGetObserved (demo_env 6) demo_spec2 None
                            (fst (CreateOrGetObserved (demo_env 5) demo_spec2 None demo_store)))) = true)
    by (vm_compute; reflexivity).
  destruct (CreateOrGetObserved (demo_env 5) demo_spec2 None demo_store) as [s1 [res1|]] eqn:H1; [|discriminate H].
  cbn [fst snd is_ok andb] in H.
  destruct (CreateOrGetObserved (demo_env 6) demo_spec2 None s1) as [s2 [res2|]] eqn:H2;
    [|rewrite andb_false_r in H; discriminate H].
  apply andb_true_iff in H as [Hu _]. apply negb_true_iff in Hu.
  exists s1, res1, s2, res2. split; [reflexivity|]. split; [exact H2|].
  exact (proj1 (create_is_idempotent (demo_env 5) demo_spec2 None demo_store s1 res1 s1 (demo_env 6) demo_spec2 None s2 res2
           eq_refl eq_refl eq_refl demo_created_wf H1 Hu (rtc_refl _ _) eq_refl H2)).
Defined.

Lemma demo_plan_wf : jobs_wf (js_state demo_plan_store).
Proof.
  change (jobs_wf (replayed (demo_created_records ++ demo_plan_records))). apply replayed_wf. repeat constructor.
Qed.

(** The same request is answered with its job, and another request with the
    same proof is refused. *)
Lemma confirmation_authorises_one_job_witness :
  exists s1 res1 s2 res2,
    demo_apply (demo_now + 5) "key-4" demo_plan_store = (s1, Ok res1) /\ cres_Existing res1 = false /\
    demo_apply (demo_now + 6) "key-4" s1 = (s2, Ok res2) /\ cres_Existing res2 = true.
Proof.
  unfold demo_apply. fold (demo_env 5) (demo_env 6).
  set (spec := demo_apply_spec "key-4").
  assert (H : is_ok (snd (CreateOrGetConfirmedObserved (demo_env 5) spec demo_confirmation None demo_plan_store)) &&
              negb (cres_Existing (result_get (mkCreateResult demo_queued true)
                      (snd (CreateOrGetConfirmedObserved (demo_env 5) spec demo_confirmation None demo_plan_store)))) &&
              negb (js_unavailable (fst (CreateOrGetConfirmedObserved (demo_env 5) spec demo_confirmation None demo_plan_store))) &&
              is_ok (snd (CreateOrGetConfirmedObserved (demo_env 6) spec demo_confirmation None
                            (fst (CreateOrGetConfirmedObserved (demo_env 5) spec demo_confirmation None demo_plan_store)))) = true)
    by (vm_compute; reflexivity).
  destruct (CreateOrGetConfirmedObserved (demo_env 5) spec demo_confirmation None demo_plan_store) as [s1 [res1|]] eqn:H1;
    [|discriminate H].
  cbn [fst snd is_ok andb result_get] in H.
  destruct (CreateOrGetConfirmedObserved (demo_env 6) spec demo_confirmation None s1) as [s2 [res2|]] eqn:H2;
    [|rewrite andb_false_r in H; discriminate H].
  apply andb_true_iff in H as [H _]. apply andb_true_iff in H as [Hn Hu]. apply negb_true_iff in Hn, Hu.
  exists s1, res1, s2, res2. split; [reflexivity|]. split; [exact Hn|]. split; [exact H2|].
  exact (confirmation_authorises_one_job (demo_env 5) spec demo_confirmation None demo_plan_store s1 res1 s1
           (demo_env 6) spec demo_confirmation None s2 res2 eq_refl eq_refl eq_refl demo_plan_wf H1 Hn Hu (rtc_refl _ _) H2
           (or_introl eq_refl)).
Defined.

Example reused_proof_refused :
  snd (demo_apply (demo_now + 6) "key-5" (fst (demo_apply (demo_now + 5) "key-4" demo_plan_store))) = Err EConfirmationConsumed.
Proof. vm_compute. reflexivity. Qed.

(** ** The order of the queue

    The order in which a workspace's queue is served, what a start is admitted
    against, and what pruning leaves of the event logs. *)


(** ** The creation order *)

Lemma sltb_trans a b c : sltb a b = true -> sltb b c = true -> sltb a c = true.
Proof.
  unfold sltb. rewrite !andb_true_iff. intros [H1 N1] [H2 N2]. breflect. split; [exact (transitivity (R := sle) H1 H2)|].
  intros ->. apply N1, (anti_symm sle); [exact H1|exact H2].
Qed.
Lemma sltb_irrefl a : sltb a a = false.
Proof. unfold sltb. rewrite bool_decide_eq_true_2 by done. by rewrite andb_false_r. Qed.

Lemma before_trans a b c : actionJobBefore a b = true -> actionJobBefore b c = true -> actionJobBefore a c = true.
Proof.
  unfold actionJobBefore. rewrite !orb_true_iff, !andb_true_iff, !Z.ltb_lt, !Z.eqb_eq.
  intros [?|[? H1]] [?|[? H2]]; try (left; lia). right. split; [lia|]. by eapply sltb_trans.
Qed.
Lemma before_irrefl a : actionJobBefore a a = false.
Proof. unfold actionJobBefore. by rewrite Z.ltb_irrefl, sltb_irrefl, andb_false_r. Qed.

(** [earliest] finds a job that no other was created before. *)
Lemma earliest_first l : forall f, earliest l = Some f -> forall j, j ∈ l -> actionJobBefore j f = false.
Proof.
  assert (Hgen : forall l (done : list Job) acc, (forall a, acc = Some a -> forall j, j ∈ done -> actionJobBefore j a = false) ->
            (acc = None -> done = []) ->
            forall f, fold_left (fun acc j => match acc with None => Some j | Some f => if actionJobBefore j f then Some j else acc end) l acc = Some f ->
            forall j, j ∈ done ++ l -> actionJobBefore j f = false).
  { clear l. induction l as [|x l IH]; intros seen acc Hacc Hnone f H j Hj; cbn in H.
    - rewrite app_nil_r in Hj. by eapply Hacc.
    - eapply (IH (seen ++ [x])); [| |exact H|by rewrite <- app_assoc].
      + intros a Ha y Hy. apply elem_of_app in Hy as [Hy|Hy]; [|apply list_elem_of_singleton in Hy as ->].
        * destruct acc as [b|]; [|rewrite (Hnone eq_refl) in Hy; by apply not_elem_of_nil in Hy].
          destruct (actionJobBefore x b) eqn:Exb; simplify_eq; [|by eapply Hacc].
          destruct (actionJobBefore y a) eqn:Eya; [|done]. pose proof (before_trans _ _ _ Eya Exb) as Hyb.
          rewrite (Hacc b eq_refl y Hy) in Hyb. done.
        * destruct acc as [b|]; [|simplify_eq; apply before_irrefl].
          destruct (actionJobBefore x b) eqn:Exb; simplify_eq; [apply before_irrefl|done].
      + destruct acc as [b|]; [by destruct (actionJobBefore x b)|done]. }
  intros f H j Hj. eapply (Hgen l [] None); try done.
Qed.

Section Queue.
Context {U : UnicodeTables}.

Lemma commit_update_ok oe obs op previous next s s' j :
  commit_update oe obs op previous next s = (s', Ok j) ->
  j = next /\ (js_unavailable s' = false -> st_jobs (js_state s') !! j_ID next = Some next).
Proof.
  unfold commit_update, bind, lift. destruct (observeJobCommit _ _); [|done].
  destruct (persistRecords _ _ s) as [s2 [[]|e]] eqn:Ep; [|done]. intros [= <- <-]. split; [done|]. intros Hu.
  destruct (persist_one _ _ _ _ _ Ep Hu) as (seq & at_ & st & Ha & Hm). apply state_apply_inv in Ha as (st1 & Hk & -> & _).
  apply applyJobUpdated_inv in Hk as (n & p & Hn & _ & _ & _ & _ & _ & _ & ->). cbn in Hn. injection Hn as <-.
  rewrite <- (sm_jobs _ _ Hm). cbn. apply lookup_insert_eq.
Qed.

(** What a start is admitted against. *)
Record admissible (o : Options) (st : storeState) (job : Job) : Prop := {
  ad_queued : st_jobs st !! j_ID job = Some job /\ j_Status job = StatusQueued;
  ad_running : count_status st StatusRunning < op_MaxRunningJobs o;
  ad_actions : forall id j, st_jobs st !! id = Some j -> blocks_execution j = false;
  ad_workspace : j_Mutating job = true -> forall id j, st_jobs st !! id = Some j -> j_WorkspaceID j = j_WorkspaceID job ->
    j_NeedsCompensationCheck j = false /\ ~ (j_Mutating j = true /\ j_Status j = StatusRunning)
}.

Lemma barrier_none st : actionExecutionBarrier st = Ok tt -> forall id j, st_jobs st !! id = Some j -> blocks_execution j = false.
Proof.
  unfold actionExecutionBarrier. destruct (filter _ (all_jobs st)) as [|x l] eqn:F; [|done]. intros _ id j Hj.
  destruct (blocks_execution j) eqn:E; [|done].
  assert (Hin : j ∈ filter (fun j => blocks_execution j = true) (all_jobs st)) by (apply list_elem_of_filter; split; [done|apply elem_all_jobs; eauto]).
  rewrite F in Hin. by apply not_elem_of_nil in Hin.
Qed.

Lemma canStart_admissible o st job :
  st_jobs st !! j_ID job = Some job -> j_Status job = StatusQueued -> canStart o st job = Ok tt -> admissible o st job.
Proof.
  intros Hj Hq (H1 & H2 & _ & H3)%canStart_inv. split; try done; [by apply barrier_none|].
  intros Hm id j Hj' Hw. destruct (H3 Hm) as [G1 G2]. split; [by eapply G2|]. intros [? ?]. by eapply (G1 id j).
Qed.

(** The queue of a workspace is served in order and under admission.  When
    [ClaimNextObserved] hands out a job, the store was entered in a state in
    which that job was queued, mutating, of that workspace and created before
    every other such job; fewer jobs were running than allowed, no action
    blocked execution, no job of the workspace awaited a compensation check and
    none that changes it was running.  The job comes back started, and a store
    still in service holds exactly that job. *)
Theorem claim_serves_oldest (oe : oenv) (ws : string) (obs : observer) (s s' : Store) (job : Job)
  (Hc : en_canonical (oe_state oe) = CanonicalSame) (Hj : js_journal s = df_stat (js_file s)) (Hwf : jobs_wf (js_state s))
  (H : ClaimNextObserved oe ws obs s = (s', Ok (Some job))) :
  exists s1 candidate, enterState (oe_state oe) s = (s1, Entered) /\
    admissible (js_options s1) (js_state s1) candidate /\
    j_WorkspaceID candidate = ws /\ j_Mutating candidate = true /\ j_Action candidate = None /\
    (forall id j, st_jobs (js_state s1) !! id = Some j -> j_Action j = None -> j_WorkspaceID j = ws -> j_Mutating j = true ->
       j_Status j = StatusQueued -> actionJobBefore j candidate = false) /\
    job = started_job candidate (oe_now oe) /\
    (js_unavailable s' = false -> st_jobs (js_state s') !! j_ID job = Some job).
Proof.
  unfold ClaimNextObserved in H. cbn in H. destruct (validateIdentifier ws 256); [|done].
  apply withJobState_ok in H as (s1 & He & H). exists s1. cbn in H.
  destruct (claim_candidate (js_state s1) ws) as [c|] eqn:Ec; [|done]. exists c. split; [done|]. cbn in H.
  destruct (canStart _ _ c) as [[]|] eqn:Es; [|done]. unfold bind in H at 1.
  destruct (commit_update _ _ _ _ _ _) as [s2 [next|]] eqn:Eu; [|done]. cbn in H. injection H as <- ->.
  apply commit_update_ok in Eu as [-> Hst]. unfold claim_candidate in Ec.
  pose proof (earliest_elem _ _ Ec) as [Hcand Hin]%list_elem_of_filter. breflect. destruct_and?. rewrite present_false in *.
  split_and!; try done.
  - apply canStart_admissible; try done. apply all_jobs_own; [|done].
    by destruct (entered_kept well_formed _ _ _ Hc (conj Hwf (fun _ => Hj)) He) as [[? _] _].
  - intros id j Hjob Ha Hw Hm Hq. eapply earliest_first; [exact Ec|]. apply list_elem_of_filter.
    split; [|apply elem_all_jobs; eauto]. rewrite Ha, Hw, Hm, Hq. by rewrite !bool_decide_eq_true_2.
Qed.
End Queue.

Lemma claim_serves_oldest_witness :
  exists s' job, ClaimNextObserved (demo_oenv (demo_now + 1)) "main" None demo_store = (s', Ok (Some job)) /\ j_ID job = "job_01" /\
    st_jobs (js_state s') !! j_ID job = Some job.
Proof.
  assert (Hv : match ClaimNextObserved (demo_oenv (demo_now + 1)) "main" None demo_store with
               | (s', Ok (Some job)) => (j_ID job ==? "job_01") && negb (js_unavailable s') | _ => false end = true)
    by (vm_compute; reflexivity).
  destruct (ClaimNextObserved (demo_oenv (demo_now + 1)) "main" None demo_store) as [s' [[job|]|]] eqn:E; try discriminate Hv.
  apply andb_true_iff in Hv as [Hid Hu]. apply bool_decide_eq_true in Hid. apply negb_true_iff in Hu.
  exists s', job. split; [reflexivity|]. split; [exact Hid|].
  destruct (claim_serves_oldest (demo_oenv (demo_now + 1)) "main" None demo_store s' job eq_refl eq_refl demo_created_wf E)
    as (s1 & c & _ & _ & _ & _ & _ & _ & _ & Hst).
  exact (Hst Hu).
Defined.
