(* ===== verification/GoNet.v ===== *)
(** * Go network names: IP addresses, host:port pairs and URLs

    What the program uses of the packages [net], [net/netip] and [net/url] of
    Go 1.26: [net.ParseIP] and [net.IP.String], [net.SplitHostPort] and
    [net.JoinHostPort], and [url.Parse], [url.ParseRequestURI] and the accessors
    of [url.URL].  An IP address is the list of its eight 16-bit groups. *)

From Stdlib Require Import Ascii.
From S2P Require Import Prelude.
From S2P Require Import GoText.

(** ** Cutting strings *)

(** Text before and after the last occurrence of a byte. *)
Fixpoint CutLast (c : ascii) (s : string) : option (string * string) :=
  match s with
  | EmptyString => None
  | String a s' =>
      match CutLast c s' with
      | Some (x, y) => Some (String a x, y)
      | None => if a ==? c then Some (EmptyString, s') else None
      end
  end.

Definition has_byte (c : ascii) (s : string) : bool := sany (fun a => a ==? c) s.

(** [strings.Split] at a one-byte separator. *)
Fixpoint SplitAt (c : ascii) (s : string) : list string :=
  match s with
  | EmptyString => [EmptyString]
  | String a s' =>
      if a ==? c then EmptyString :: SplitAt c s'
      else match SplitAt c s' with
           | x :: l => String a x :: l
           | [] => [String a EmptyString]
           end
  end.

(** [strings.Join] with a one-byte separator. *)
Fixpoint JoinAt (c : ascii) (l : list string) : string :=
  match l with
  | [] => EmptyString
  | [x] => x
  | x :: l' => x +:+ String c (JoinAt c l')
  end.

(** [strings.Cut] at "::". *)
Fixpoint CutColons (s : string) : option (string * string) :=
  match s with
  | String ":" (String ":" r) => Some (EmptyString, r)
  | String a s' =>
      match CutColons s' with
      | Some (x, y) => Some (String a x, y)
      | None => None
      end
  | EmptyString => None
  end.

Definition starts (c : ascii) (s : string) : bool := match s with String a _ => a ==? c | EmptyString => false end.
Definition is_empty (s : string) : bool := match s with EmptyString => true | String _ _ => false end.

(** ** Numbers *)

Definition digit_val (c : ascii) : Z := byte_val c - 48.
Fixpoint decimal_from (acc : Z) (s : string) : Z :=
  match s with EmptyString => acc | String a s' => decimal_from (acc * 10 + digit_val a) s' end.
(** The value of a non-empty run of decimal digits, as [strconv.Atoi] reads it
    before it checks the range. *)
Definition decimal (s : string) : option Z :=
  if negb (is_empty s) && sall is_digit s then Some (decimal_from 0 s) else None.

Definition hex_val (c : ascii) : option Z :=
  if is_digit c then Some (byte_val c - 48)
  else if between 97 102 c then Some (byte_val c - 87)
  else if between 65 70 c then Some (byte_val c - 55)
  else None.
Definition is_hex (c : ascii) : bool := match hex_val c with Some _ => true | None => false end.

Fixpoint hex_from (acc : Z) (s : string) : option Z :=
  match s with
  | EmptyString => Some acc
  | String a s' => match hex_val a with Some v => hex_from (acc * 16 + v) s' | None => None end
  end.

(** ** IP addresses *)

(** One decimal field of a dotted address: up to three digits, no leading zero,
    at most 255. *)
Definition parse_octet (s : string) : option Z :=
  match decimal s with
  | Some v => if ((slen s =? 1) || negb (starts "0" s)) && (v <=? 255) && (slen s <=? 3) then Some v else None
  | None => None
  end.

Definition parse_dotted (s : string) : option (Z * Z * Z * Z) :=
  match SplitAt "." s with
  | [a; b; c; d] =>
      match parse_octet a, parse_octet b, parse_octet c, parse_octet d with
      | Some a, Some b, Some c, Some d => Some (a, b, c, d)
      | _, _, _, _ => None
      end
  | _ => None
  end.

Definition parse_group (s : string) : option Z :=
  if negb (is_empty s) && (slen s <=? 4) then hex_from 0 s else None.

(** The colon-separated groups of one side of "::".  Only the last field of an
    address may be dotted; it stands for two groups. *)
Fixpoint parse_groups (dotted : bool) (l : list string) : option (list Z) :=
  match l with
  | [] => Some []
  | [x] =>
      if dotted && has_byte "." x then
        match parse_dotted x with
        | Some (a, b, c, d) => Some [a * 256 + b; c * 256 + d]
        | None => None
        end
      else match parse_group x with Some g => Some [g] | None => None end
  | x :: l' =>
      match parse_group x, parse_groups dotted l' with
      | Some g, Some gs => Some (g :: gs)
      | _, _ => None
      end
  end.

Definition side (dotted : bool) (s : string) : option (list Z) :=
  if is_empty s then Some [] else parse_groups dotted (SplitAt ":" s).

Definition zeros (n : nat) : list Z := replicate n 0.

(** [netip.parseIPv6] on an address without a zone. *)
Definition parse_ipv6 (s : string) : option (list Z) :=
  match CutColons s with
  | Some (l, r) =>
      match side false l, side true r with
      | Some gl, Some gr =>
          if (length gl + length gr <=? 7)%nat
          then Some (gl ++ zeros (8 - (length gl + length gr)) ++ gr) else None
      | _, _ => None
      end
  | None =>
      match parse_groups true (SplitAt ":" s) with
      | Some g => if (length g =? 8)%nat then Some g else None
      | None => None
      end
  end.

(** Which of '.', ':' and '%' comes first decides the kind of address. *)
Fixpoint first_mark (s : string) : option ascii :=
  match s with
  | EmptyString => None
  | String a s' => if (a ==? ".") || (a ==? ":") || (a ==? "%") then Some a else first_mark s'
  end%char.

Definition mapped (a b c d : Z) : list Z := [0; 0; 0; 0; 0; 65535; a * 256 + b; c * 256 + d].

(** [net.ParseIP]: the 16-byte form, or [None].  A zone is refused. *)
Definition ParseIP (s : string) : option (list Z) :=
  match first_mark s with
  | Some "."%char => match parse_dotted s with Some (a, b, c, d) => Some (mapped a b c d) | None => None end
  | Some ":"%char => if has_byte "%" s then None else parse_ipv6 s
  | _ => None
  end.

Fixpoint decimal_digits (fuel : nat) (n : Z) : string :=
  match fuel with
  | O => EmptyString
  | S k => (if n <? 10 then EmptyString else decimal_digits k (n / 10)) +:+ String (byte_chr (48 + n mod 10)) EmptyString
  end.
Definition print_octet (n : Z) : string := decimal_digits 3 n.

(** [appendHex]: no leading zeros. *)
Definition print_group (x : Z) : string :=
  (if 4096 <=? x then String (hex_digit (x / 4096)) EmptyString else EmptyString) +:+
  (if 256 <=? x then String (hex_digit (x / 256 mod 16)) EmptyString else EmptyString) +:+
  (if 16 <=? x then String (hex_digit (x / 16 mod 16)) EmptyString else EmptyString) +:+
  String (hex_digit (x mod 16)) EmptyString.

(** The number of zero groups at the front. *)
Fixpoint zero_run (g : list Z) : nat :=
  match g with x :: g' => if x =? 0 then S (zero_run g') else O | [] => O end.

(** The first of the longest runs of at least two zero groups: its start and
    length, given the best run found so far. *)
Fixpoint longest_run (i : nat) (g : list Z) (best : nat * nat) : nat * nat :=
  match g with
  | [] => best
  | _ :: g' =>
      let l := zero_run g in
      longest_run (S i) g' (if (2 <=? l)%nat && (best.2 <? l)%nat then (i, l) else best)
  end.

Definition print_groups (g : list Z) : string := JoinAt ":" (map print_group g).

(** [netip.Addr.string6]. *)
Definition print_ipv6 (g : list Z) : string :=
  let '(i, l) := longest_run 0 g (0%nat, 0%nat) in
  if (l =? 0)%nat then print_groups g
  else print_groups (take i g) +:+ "::" +:+ print_groups (drop (i + l) g).

Definition print_dotted (a b c d : Z) : string :=
  print_octet a +:+ "." +:+ print_octet b +:+ "." +:+ print_octet c +:+ "." +:+ print_octet d.

(** [net.IP.String]: an IPv4-mapped address prints in dotted form. *)
Definition IP_String (g : list Z) : string :=
  match g with
  | [0; 0; 0; 0; 0; 65535; h; l] => print_dotted (h / 256) (h mod 256) (l / 256) (l mod 256)
  | _ => print_ipv6 g
  end.

(** ** Host and port *)

(** [net.SplitHostPort] of an address that does not start with '['. *)
Definition SplitHostPort (s : string) : option (string * string) :=
  match CutLast ":" s with
  | Some (h, p) => if has_byte ":" h || has_byte "[" s || has_byte "]" s then None else Some (h, p)
  | None => None
  end.

Definition JoinHostPort (host port : string) : string :=
  if has_byte ":" host || has_byte "%" host then "[" +:+ host +:+ "]:" +:+ port else host +:+ ":" +:+ port.

(** ** URLs *)

Inductive encoding := encodePath | encodeHost | encodeZone | encodeFragment.

Definition alnum_byte (c : ascii) : bool := is_digit c || is_lower c || is_upper c.
Definition one_of_bytes (s : string) (c : ascii) : bool := has_byte c s.

(** [shouldEscape]. *)
Definition shouldEscape (c : ascii) (mode : encoding) : bool :=
  if alnum_byte c || one_of_bytes "-_.~" c then false
  else match mode with
       | encodeHost | encodeZone => negb (one_of_bytes "!$&'()*+,;=:[]<>" c || (c ==? quote))
       | encodePath => negb (one_of_bytes "$&+,/:;=@" c)
       | encodeFragment => negb (one_of_bytes "$&+,/:;=?@!()*" c)
       end.

Definition hex_pair (a b : ascii) : option Z :=
  match hex_val a, hex_val b with Some x, Some y => Some (x * 16 + y) | _, _ => None end.

(** [unescape]: every '%' starts a valid escape; in a host only escapes of
    non-ASCII bytes and "%25" are allowed, and no other byte may need one. *)
Fixpoint unescape (mode : encoding) (s : string) : option string :=
  match s with
  | EmptyString => Some EmptyString
  | String "%" r =>
      match r with
      | String a (String b r') =>
          match hex_pair a b with
          | None => None
          | Some v =>
              let is_percent := (a ==? "2"%char) && (b ==? "5"%char) in
              let refused :=
                match mode with
                | encodeHost => (v <? 128) && negb is_percent
                | encodeZone => negb is_percent && negb (v =? 32) && shouldEscape (byte_chr v) encodeHost
                | _ => false
                end in
              if refused then None
              else match unescape mode r' with Some t => Some (String (byte_chr v) t) | None => None end
          end
      | _ => None
      end
  | String a r =>
      let refused :=
        match mode with
        | encodeHost | encodeZone => (byte_val a <? 128) && shouldEscape a mode
        | _ => false
        end in
      if refused then None
      else match unescape mode r with Some t => Some (String a t) | None => None end
  end.

Definition upper_hex_digit (n : Z) : ascii := byte_chr (if n <? 10 then 48 + n else 55 + n).

Fixpoint escape (mode : encoding) (s : string) : string :=
  match s with
  | EmptyString => EmptyString
  | String a r =>
      if shouldEscape a mode
      then String "%" (String (upper_hex_digit (byte_val a / 16)) (String (upper_hex_digit (byte_val a mod 16)) (escape mode r)))
      else String a (escape mode r)
  end.

(** [validEncoded] in path mode. *)
Definition validEncodedPath (s : string) : bool :=
  sall (fun c => one_of_bytes "!$&'()*+,;=:@[]%" c || negb (shouldEscape c encodePath)) s.

Record URL := mkURL {
  u_Scheme : string;
  u_Opaque : string;
  u_User : bool;
  u_Host : string;
  u_Path : string;
  u_RawPath : string;
  u_ForceQuery : bool;
  u_RawQuery : string;
  u_Fragment : string
}.

(** [getScheme]: [None] for a missing protocol scheme, otherwise the scheme
    (possibly empty) and the rest. *)
Fixpoint scheme_from (first : bool) (seen : string) (whole s : string) : option (string * string) :=
  match s with
  | EmptyString => Some (EmptyString, whole)
  | String a r =>
      if is_lower a || is_upper a then scheme_from false (seen +:+ String a EmptyString) whole r
      else if is_digit a || one_of_bytes "+-." a then
        if first then Some (EmptyString, whole) else scheme_from false (seen +:+ String a EmptyString) whole r
      else if a ==? ":"%char then if first then None else Some (seen, r)
      else Some (EmptyString, whole)
  end.
Definition getScheme (s : string) : option (string * string) := scheme_from true EmptyString s s.

(** [validOptionalPort]: empty, or ':' and decimal digits. *)
Definition validOptionalPort (s : string) : bool :=
  match s with EmptyString => true | String a r => (a ==? ":"%char) && sall is_digit r end.

(** [netip.ParseAddr] of the text between brackets, which may have a zone: an
    IPv6 address only. *)
Definition bracketed_address (s : string) : bool :=
  match first_mark s with
  | Some ":"%char =>
      match CutAt "%" s with
      | Some (a, z) => negb (is_empty z) && match parse_ipv6 a with Some _ => true | None => false end
      | None => match parse_ipv6 s with Some _ => true | None => false end
      end
  | _ => false
  end.

Fixpoint CutZone (s : string) : option (string * string) :=
  match s with
  | EmptyString => None
  | String a s' =>
      if HasPrefix s "%25" then Some (EmptyString, s)
      else match CutZone s' with Some (x, y) => Some (String a x, y) | None => None end
  end.

(** [parseHost]. *)
Definition parseHost (host : string) : option string :=
  match CutLast "[" host with
  | Some (String _ _, _) => None
  | Some (EmptyString, inner) =>
      match CutLast "]" inner with
      | None => None
      | Some (hostname, colonPort) =>
          if negb (validOptionalPort colonPort) then None
          else
            let unescaped :=
              match CutZone hostname with
              | Some (h, z) =>
                  match unescape encodeHost h, unescape encodeZone z with
                  | Some h, Some z => Some (h +:+ z)
                  | _, _ => None
                  end
              | None => unescape encodeHost hostname
              end in
            match unescaped with
            | Some h => if bracketed_address h then Some ("[" +:+ h +:+ "]" +:+ colonPort) else None
            | None => None
            end
      end
  | None =>
      match CutAt ":" host with
      | Some (_, port) => if sall is_digit port then unescape encodeHost host else None
      | None => unescape encodeHost host
      end
  end.

Definition is_ctl (c : ascii) : bool := (byte_val c <? 32) || (byte_val c =? 127).

(** [parse]: [viaRequest] for [url.ParseRequestURI].  User information makes
    [u_User] true; its own syntax is not kept, as every caller refuses it. *)
Definition url_parse_from (viaRequest : bool) (raw : string) : option URL :=
  if sany is_ctl raw then None
  else if is_empty raw && viaRequest then None
  else if raw ==? "*" then Some (mkURL "" "" false "" "*" "" false "" "")
  else
    match getScheme raw with
    | None => None
    | Some (scheme0, rest0) =>
        let scheme := smap ascii_lower scheme0 in
        let '(rest, force, query) :=
          match CutAt "?" rest0 with
          | Some (r, q) => (r, is_empty q, q)
          | None => (rest0, false, "")
          end in
        if negb (starts "/" rest) && negb (is_empty scheme)
        then Some (mkURL scheme rest false "" "" "" force query "")
        else if negb (starts "/" rest) &&
                (viaRequest || has_byte ":" (match CutAt "/" rest with Some (seg, _) => seg | None => rest end))
        then None
        else
          let authority :=
            if (negb (is_empty scheme) || (negb viaRequest && negb (HasPrefix rest "///"))) && HasPrefix rest "//"
            then Some (sdrop 2 rest) else None in
          let '(host, user, path) :=
            match authority with
            | None => (Some "", false, rest)
            | Some a =>
                let '(auth, path) := match CutAt "/" a with Some (x, y) => (x, String "/" y) | None => (a, "") end in
                match CutLast "@" auth with
                | Some (_, h) => (parseHost h, true, path)
                | None => (parseHost auth, false, path)
                end
            end in
          match host, unescape encodePath path with
          | Some h, Some p =>
              Some (mkURL scheme "" user h p (if escape encodePath p ==? path then "" else path) force query "")
          | _, _ => None
          end
    end.

(** [url.Parse]. *)
Definition url_Parse (raw : string) : option URL :=
  match CutAt "#" raw with
  | None => url_parse_from false raw
  | Some (u, frag) =>
      match url_parse_from false u with
      | None => None
      | Some r =>
          if is_empty frag then Some r
          else match unescape encodeFragment frag with
               | None => None
               | Some f =>
                   Some (mkURL (u_Scheme r) (u_Opaque r) (u_User r) (u_Host r) (u_Path r) (u_RawPath r)
                               (u_ForceQuery r) (u_RawQuery r) f)
               end
      end
  end.

(** [url.ParseRequestURI]. *)
Definition url_ParseRequestURI (raw : string) : option URL := url_parse_from true raw.

(** The split of [URL.Hostname] and [URL.Port]. *)
Definition split_host_port (hostPort : string) : string * string :=
  let '(host, port) :=
    match CutLast ":" hostPort with
    | Some (h, p) => if sall is_digit p then (h, p) else (hostPort, "")
    | None => (hostPort, "")
    end in
  match host with
  | String "[" r => match CutLast "]" r with Some (h, EmptyString) => (h, port) | _ => (host, port) end
  | _ => (host, port)
  end.
Definition URL_Hostname (u : URL) : string := (split_host_port (u_Host u)).1.
Definition URL_Port (u : URL) : string := (split_host_port (u_Host u)).2.

(** [URL.EscapedPath]. *)
Definition URL_EscapedPath (u : URL) : string :=
  if negb (is_empty (u_RawPath u)) && validEncodedPath (u_RawPath u) &&
     (unescape encodePath (u_RawPath u) ==? Some (u_Path u))
  then u_RawPath u
  else if u_Path u ==? "*" then "*"
  else escape encodePath (u_Path u).

(** [URL.String] of a URL with a scheme, a host and neither user information,
    opaque part, query nor fragment. *)
Definition URL_hierarchical_String (u : URL) : string :=
  let path := URL_EscapedPath u in
  u_Scheme u +:+ "://" +:+ escape encodeHost (u_Host u) +:+
  (if negb (is_empty path) && negb (starts "/" path) then "/" else "") +:+ path +:+
  (if u_ForceQuery u then "?" else "").
