(* ===== verification/AuthOrigin.v ===== *)
(** * Console authentication: request origins

    Package [consoleauth], origin.go: the canonical form of an HTTP(S) origin.
    Sessions are bound to canonical origins, and every request's origin is
    normalised before it is compared with the stored one. *)

From Stdlib Require Import Ascii.
From S2P Require Import Prelude.
From S2P Require Import GoText.
From S2P Require Import GoNet.

(** The authority must not end in an empty port. *)
Definition validateOriginAuthority (authority : string) : bool :=
  if HasPrefix authority "[" then
    match CutAt "]" authority with
    | None => false
    | Some (_, suffix) =>
        negb ((suffix !=? "") && (negb (HasPrefix suffix ":") || (slen suffix =? 1)))
    end
  else if has_byte ":" authority then
    match SplitHostPort authority with
    | Some (_, port) => port !=? ""
    | None => false
    end
  else true.

Definition valid_label_byte (index len : Z) (c : ascii) : bool :=
  is_lower c || is_upper c || is_digit c || ((c ==? "-"%char) && (0 <? index) && (index <? len - 1)).

Fixpoint valid_label_from (index len : Z) (s : string) : bool :=
  match s with
  | EmptyString => true
  | String c s' => valid_label_byte index len c && valid_label_from (index + 1) len s'
  end.

Definition valid_label (label : string) : bool :=
  negb ((slen label <? 1) || (63 <? slen label)) && valid_label_from 0 (slen label) label.

Definition normalizeOriginDNSName (value : string) : option string :=
  let value := TrimSuffix value "." in
  if (value ==? "") || (253 <? slen value) then None
  else if forallb valid_label (SplitAt "." value) then Some (smap ascii_lower value)
  else None.

(** The port text that is kept: [None] when it is not a port number, empty when
    it is the scheme's default. *)
Definition origin_port (scheme port : string) : option string :=
  if port ==? "" then Some ""
  else match decimal port with
       | None => None
       | Some n =>
           if (n <? 1) || (65535 <? n) then None
           else if ((scheme ==? "http") && (n =? 80)) || ((scheme ==? "https") && (n =? 443)) then Some ""
           else Some port
       end.

Definition NormalizeOrigin (value : string) : option string :=
  if (value ==? "") || (value ==? "null") || negb (trimmed value) then None
  else
    match url_Parse value with
    | None => None
    | Some parsed =>
        if (u_Opaque parsed !=? "") || u_User parsed || (u_Host parsed ==? "") then None
        else
          let scheme := smap ascii_lower (u_Scheme parsed) in
          if (scheme !=? "http") && (scheme !=? "https") then None
          else if ((u_Path parsed !=? "") && (u_Path parsed !=? "/")) || (u_RawPath parsed !=? "") ||
                  (u_RawQuery parsed !=? "") || (u_Fragment parsed !=? "") then None
          else
            let hostname := URL_Hostname parsed in
            if (hostname ==? "") || has_byte "%" hostname then None
            else if negb (validateOriginAuthority (u_Host parsed)) then None
            else
              match origin_port scheme (URL_Port parsed) with
              | None => None
              | Some port =>
                  match (match ParseIP hostname with
                         | Some ip => Some (IP_String ip)
                         | None => normalizeOriginDNSName hostname
                         end) with
                  | None => None
                  | Some hostname =>
                      let host := if has_byte ":" hostname then "[" +:+ hostname +:+ "]" else hostname in
                      let host := if port !=? "" then JoinHostPort hostname port else host in
                      Some (scheme +:+ "://" +:+ host)
                  end
              end
    end.

Example origin_default_port : NormalizeOrigin "HTTPS://Console.Example.:443/" = Some "https://console.example".
Proof. vm_compute. reflexivity. Qed.
Example origin_ipv6 : NormalizeOrigin "http://[2001:DB8:0:0:1:0:0:1]:8080" = Some "http://[2001:db8::1:0:0:1]:8080".
Proof. vm_compute. reflexivity. Qed.
Example origin_mapped : NormalizeOrigin "http://[::ffff:192.0.2.7]" = Some "http://192.0.2.7".
Proof. vm_compute. reflexivity. Qed.
Example origin_refused :
  map NormalizeOrigin ["null"; "http://u@h"; "http://h/p"; "http://h?q"; "http://h#f"; "http://h:"; "http://h:0";
                       "ftp://h"; "http://-h"; "http://a_b"; "http://[fe80::1%25eth0]"; "http://1::2"; " http://h";
                       "//h"; "http:h"; "http://h:99999"; "http://[foo]"; "http://[1.2.3.4]"]
  = replicate 18 None.
Proof. vm_compute. reflexivity. Qed.
