(* ===== verification/AuthTypes.v ===== *)
(** * Console authentication: data

    Package [consoleauth], types.go and the record types of state.go: lifetimes,
    errors, audit events, requests, credentials and the persisted records.
    Times and durations are nanoseconds; the zero time is 0. *)

From S2P Require Import Prelude.
From S2P Require Import GoText.

(** ** Lifetimes *)

Definition second : Z := 1000000000.
Definition minute : Z := 60 * second.
Definition hour : Z := 60 * minute.

Definition DefaultBootstrapTokenTTL : Z := 20 * minute.
Definition MinimumBootstrapTokenTTL : Z := 15 * minute.
Definition MaximumBootstrapTokenTTL : Z := 30 * minute.
Definition BootstrapSessionAbsoluteTTL : Z := 2 * hour.
Definition BootstrapSessionIdleTTL : Z := 30 * minute.
Definition EnrollmentHandoffTTL : Z := 5 * minute.
Definition EnrollmentSessionTTL : Z := 15 * minute.
Definition LocalSessionAbsoluteTTL : Z := 12 * hour.
Definition LocalSessionIdleTTL : Z := 30 * minute.
Definition LocalStepUpTTL : Z := 5 * minute.
Definition ProxySessionAbsoluteTTL : Z := 12 * hour.
Definition ProxySessionIdleTTL : Z := 30 * minute.
Definition ProxyRecentAuthenticationTTL : Z := 5 * minute.
Definition credentialRandomBytes : nat := 32.

(** ** Times *)

Definition Time := Z.
Definition IsZero (t : Time) : bool := t =? 0.
Definition Before (t u : Time) : bool := t <? u.
Definition After (t u : Time) : bool := u <? t.
Definition TimeAdd (t : Time) (d : Z) : Time := t + d.
(** [time.Time.Sub] saturates at the range of [time.Duration]. *)
Definition TimeSub (t u : Time) : Z := Z.max (- 2 ^ 63) (Z.min (2 ^ 63 - 1) (t - u)).

(** ** Errors *)

Inductive aerr :=
| ErrAuditUnavailable | ErrInvalidToken | ErrCredentialExpired | ErrSessionUnauthorized | ErrOriginMismatch
| ErrCSRFMismatch | ErrRouteNotAllowed | ErrStateMismatch | ErrTransactionMismatch | ErrOwnerNotConfigured
| ErrInvalidCredentials | ErrHandoffUnauthorized | ErrStepUpUnauthorized | ErrRecoveryRequired
(** an error built with [errors.New] or [fmt.Errorf] on invalid data *)
| EInvalidData
(** a failure of the operating system, the lock, the random source or the context *)
| EUnavailable
(** [errors.Join] *)
| EJoin (l : list aerr).

(** [errors.Is]. *)
Fixpoint err_is (target e : aerr) : bool :=
  match e with
  | EJoin l => existsb (err_is target) l
  | _ => match target, e with
         | ErrAuditUnavailable, ErrAuditUnavailable | ErrInvalidToken, ErrInvalidToken
         | ErrCredentialExpired, ErrCredentialExpired | ErrSessionUnauthorized, ErrSessionUnauthorized
         | ErrOriginMismatch, ErrOriginMismatch | ErrCSRFMismatch, ErrCSRFMismatch
         | ErrRouteNotAllowed, ErrRouteNotAllowed | ErrStateMismatch, ErrStateMismatch
         | ErrTransactionMismatch, ErrTransactionMismatch | ErrOwnerNotConfigured, ErrOwnerNotConfigured
         | ErrInvalidCredentials, ErrInvalidCredentials | ErrHandoffUnauthorized, ErrHandoffUnauthorized
         | ErrStepUpUnauthorized, ErrStepUpUnauthorized | ErrRecoveryRequired, ErrRecoveryRequired
         | EInvalidData, EInvalidData | EUnavailable, EUnavailable => true
         | _, _ => false
         end
  end.

(** ** Console states *)

Definition ConsoleState := string.
Definition StateBootstrap : ConsoleState := "bootstrap".
Definition StateEnrollment : ConsoleState := "enrollment".
Definition StateFull : ConsoleState := "full".

(** ** Audit events *)

Definition AuditAction := string.
Definition AuditBootstrapIssue : AuditAction := "bootstrap_token.issue".
Definition AuditBootstrapExchange : AuditAction := "bootstrap_token.exchange".
Definition AuditBootstrapAuth : AuditAction := "bootstrap_session.authenticate".
Definition AuditBootstrapPromote : AuditAction := "bootstrap_credential.promote".
Definition AuditBootstrapRecover : AuditAction := "bootstrap_credential.promotion_recover".
Definition AuditBootstrapRevoke : AuditAction := "bootstrap_credential.revoke".
Definition AuditHandoffIssue : AuditAction := "enrollment_handoff.issue".
Definition AuditHandoffExchange : AuditAction := "enrollment_handoff.exchange".
Definition AuditEnrollmentAuth : AuditAction := "enrollment_session.authenticate".
Definition AuditEnrollmentRevoke : AuditAction := "enrollment_credential.revoke".
Definition AuditOwnerEnroll : AuditAction := "local_owner.enroll".
Definition AuditOwnerRecover : AuditAction := "local_owner.enrollment_recover".
Definition AuditOwnerPasswordSet : AuditAction := "local_owner.password_set".
Definition AuditLocalLogin : AuditAction := "local_owner.login".
Definition AuditLocalLogout : AuditAction := "local_session.logout".
Definition AuditLocalRevoke : AuditAction := "local_session.revoke".
Definition AuditLocalStepUp : AuditAction := "local_owner.step_up".
Definition AuditProxySession : AuditAction := "proxy_session.refresh".
Definition AuditProxyStepUp : AuditAction := "proxy_identity.step_up".

Inductive AuditOutcome := AuditUnset | AuditSuccess | AuditFailure.

Record AuditEvent := mkEvent {
  ev_Action : AuditAction;
  ev_Outcome : AuditOutcome;
  ev_OccurredAt : Time;
  ev_Reason : string;
  ev_TransactionID : string;
  ev_Origin : string;
  ev_TargetOrigin : string;
  ev_State : ConsoleState;
  ev_ReplacedToken : bool;
  ev_RevokedSessions : Z;
  ev_AuthorizedAction : string;
  ev_WorkspaceID : string;
  ev_TargetID : string;
  ev_IdentityIssuer : string;
  ev_IdentitySubject : string;
  ev_SemanticRole : string;
  ev_DirectoryGroup : string
}.

(** [AuditEvent{Action: a}], and the fields the program sets on it. *)
Definition event (a : AuditAction) : AuditEvent :=
  mkEvent a AuditUnset 0 "" "" "" "" "" false 0 "" "" "" "" "" "" "".
Definition with_Outcome (o : AuditOutcome) (e : AuditEvent) : AuditEvent :=
  mkEvent (ev_Action e) o (ev_OccurredAt e) (ev_Reason e) (ev_TransactionID e) (ev_Origin e) (ev_TargetOrigin e) (ev_State e)
    (ev_ReplacedToken e) (ev_RevokedSessions e) (ev_AuthorizedAction e) (ev_WorkspaceID e) (ev_TargetID e)
    (ev_IdentityIssuer e) (ev_IdentitySubject e) (ev_SemanticRole e) (ev_DirectoryGroup e).
Definition with_OccurredAt (t : Time) (e : AuditEvent) : AuditEvent :=
  mkEvent (ev_Action e) (ev_Outcome e) t (ev_Reason e) (ev_TransactionID e) (ev_Origin e) (ev_TargetOrigin e) (ev_State e)
    (ev_ReplacedToken e) (ev_RevokedSessions e) (ev_AuthorizedAction e) (ev_WorkspaceID e) (ev_TargetID e)
    (ev_IdentityIssuer e) (ev_IdentitySubject e) (ev_SemanticRole e) (ev_DirectoryGroup e).
Definition with_Reason (r : string) (e : AuditEvent) : AuditEvent :=
  mkEvent (ev_Action e) (ev_Outcome e) (ev_OccurredAt e) r (ev_TransactionID e) (ev_Origin e) (ev_TargetOrigin e) (ev_State e)
    (ev_ReplacedToken e) (ev_RevokedSessions e) (ev_AuthorizedAction e) (ev_WorkspaceID e) (ev_TargetID e)
    (ev_IdentityIssuer e) (ev_IdentitySubject e) (ev_SemanticRole e) (ev_DirectoryGroup e).
Definition with_Transaction (t : string) (e : AuditEvent) : AuditEvent :=
  mkEvent (ev_Action e) (ev_Outcome e) (ev_OccurredAt e) (ev_Reason e) t (ev_Origin e) (ev_TargetOrigin e) (ev_State e)
    (ev_ReplacedToken e) (ev_RevokedSessions e) (ev_AuthorizedAction e) (ev_WorkspaceID e) (ev_TargetID e)
    (ev_IdentityIssuer e) (ev_IdentitySubject e) (ev_SemanticRole e) (ev_DirectoryGroup e).
Definition with_Origin (o : string) (e : AuditEvent) : AuditEvent :=
  mkEvent (ev_Action e) (ev_Outcome e) (ev_OccurredAt e) (ev_Reason e) (ev_TransactionID e) o (ev_TargetOrigin e) (ev_State e)
    (ev_ReplacedToken e) (ev_RevokedSessions e) (ev_AuthorizedAction e) (ev_WorkspaceID e) (ev_TargetID e)
    (ev_IdentityIssuer e) (ev_IdentitySubject e) (ev_SemanticRole e) (ev_DirectoryGroup e).
Definition with_TargetOrigin (o : string) (e : AuditEvent) : AuditEvent :=
  mkEvent (ev_Action e) (ev_Outcome e) (ev_OccurredAt e) (ev_Reason e) (ev_TransactionID e) (ev_Origin e) o (ev_State e)
    (ev_ReplacedToken e) (ev_RevokedSessions e) (ev_AuthorizedAction e) (ev_WorkspaceID e) (ev_TargetID e)
    (ev_IdentityIssuer e) (ev_IdentitySubject e) (ev_SemanticRole e) (ev_DirectoryGroup e).
Definition with_State (st : ConsoleState) (e : AuditEvent) : AuditEvent :=
  mkEvent (ev_Action e) (ev_Outcome e) (ev_OccurredAt e) (ev_Reason e) (ev_TransactionID e) (ev_Origin e) (ev_TargetOrigin e) st
    (ev_ReplacedToken e) (ev_RevokedSessions e) (ev_AuthorizedAction e) (ev_WorkspaceID e) (ev_TargetID e)
    (ev_IdentityIssuer e) (ev_IdentitySubject e) (ev_SemanticRole e) (ev_DirectoryGroup e).
Definition with_Revoked (replaced : bool) (n : Z) (e : AuditEvent) : AuditEvent :=
  mkEvent (ev_Action e) (ev_Outcome e) (ev_OccurredAt e) (ev_Reason e) (ev_TransactionID e) (ev_Origin e) (ev_TargetOrigin e)
    (ev_State e) replaced n (ev_AuthorizedAction e) (ev_WorkspaceID e) (ev_TargetID e)
    (ev_IdentityIssuer e) (ev_IdentitySubject e) (ev_SemanticRole e) (ev_DirectoryGroup e).
Definition with_Target (action workspace target : string) (e : AuditEvent) : AuditEvent :=
  mkEvent (ev_Action e) (ev_Outcome e) (ev_OccurredAt e) (ev_Reason e) (ev_TransactionID e) (ev_Origin e) (ev_TargetOrigin e)
    (ev_State e) (ev_ReplacedToken e) (ev_RevokedSessions e) action workspace target
    (ev_IdentityIssuer e) (ev_IdentitySubject e) (ev_SemanticRole e) (ev_DirectoryGroup e).
Definition with_Identity (issuer subject role group : string) (e : AuditEvent) : AuditEvent :=
  mkEvent (ev_Action e) (ev_Outcome e) (ev_OccurredAt e) (ev_Reason e) (ev_TransactionID e) (ev_Origin e) (ev_TargetOrigin e)
    (ev_State e) (ev_ReplacedToken e) (ev_RevokedSessions e) (ev_AuthorizedAction e) (ev_WorkspaceID e) (ev_TargetID e)
    issuer subject role group.

(** [withAuditReason] and [withAuditOutcome] of local.go. *)
Definition withAuditReason (e : AuditEvent) (reason : string) : AuditEvent := with_Reason reason e.
Definition withAuditOutcome (e : AuditEvent) (o : AuditOutcome) : AuditEvent := with_Outcome o e.

(** ** Requests, credentials and principals *)

Record IssueBootstrapTokenRequest := mkIssueBootstrap {
  ib_TTL : Z; ib_TransactionID : string; ib_State : ConsoleState; ib_AllowedRoutes : list string }.
Record IssuedBootstrapToken := mkIssuedToken {
  it_Token : string; it_IssuedAt : Time; it_ExpiresAt : Time; it_TransactionID : string; it_State : ConsoleState }.
Record ExchangeBootstrapTokenRequest := mkExchange { xb_Token : string; xb_Origin : string }.
Record BootstrapSessionCredential := mkBootstrapCredential {
  bc_Token : string; bc_CSRFToken : string; bc_TransactionID : string; bc_Origin : string; bc_State : ConsoleState;
  bc_AllowedRoutes : list string; bc_CreatedAt : Time; bc_ExpiresAt : Time; bc_IdleExpiresAt : Time }.
Record BootstrapSessionRefreshRequest := mkBootstrapRefresh {
  br_SessionToken : string; br_Origin : string; br_TransactionID : string; br_State : ConsoleState; br_Route : string }.
Record BootstrapAuthenticationRequest := mkBootstrapAuth {
  ba_SessionToken : string; ba_CSRFToken : string; ba_Origin : string; ba_TransactionID : string; ba_State : ConsoleState;
  ba_Route : string; ba_RequireCSRF : bool; ba_ObserveOnly : bool }.
Record BootstrapPrincipal := mkBootstrapPrincipal {
  bp_TransactionID : string; bp_Origin : string; bp_State : ConsoleState; bp_AllowedRoutes : list string;
  bp_CreatedAt : Time; bp_ExpiresAt : Time; bp_IdleExpiresAt : Time }.
Record IssueEnrollmentHandoffRequest := mkIssueHandoff {
  ih_SessionToken : string; ih_CSRFToken : string; ih_SourceOrigin : string; ih_TargetOrigin : string; ih_SPKISHA256 : string }.
Record EnrollmentHandoffCredential := mkHandoffCredential {
  hc_Token : string; hc_TransactionID : string; hc_SourceOrigin : string; hc_TargetOrigin : string; hc_SPKISHA256 : string;
  hc_CreatedAt : Time; hc_ExpiresAt : Time }.
Record ExchangeEnrollmentHandoffRequest := mkExchangeHandoff {
  xh_Token : string; xh_SourceOrigin : string; xh_TargetOrigin : string; xh_SPKISHA256 : string }.
Record EnrollmentSessionCredential := mkEnrollmentCredential {
  ec_Token : string; ec_CSRFToken : string; ec_TransactionID : string; ec_Origin : string; ec_CreatedAt : Time;
  ec_ExpiresAt : Time }.
Record EnrollmentAuthenticationRequest := mkEnrollmentAuth {
  ea_SessionToken : string; ea_CSRFToken : string; ea_Origin : string; ea_TransactionID : string; ea_Route : string;
  ea_RequireCSRF : bool }.
Record EnrollmentPrincipal := mkEnrollmentPrincipal {
  ep_TransactionID : string; ep_Origin : string; ep_CreatedAt : Time; ep_ExpiresAt : Time }.
Record CompleteInitialOwnerRequest := mkCompleteOwner {
  co_SessionToken : string; co_CSRFToken : string; co_Origin : string; co_TransactionID : string; co_Password : string }.
Record LocalLoginRequest := mkLogin { ll_Password : string; ll_Origin : string }.
Record LocalSessionCredential := mkLocalCredential {
  lc_Token : string; lc_CSRFToken : string; lc_Origin : string; lc_CreatedAt : Time; lc_ExpiresAt : Time;
  lc_IdleExpiresAt : Time }.
Record LocalSessionRefreshRequest := mkLocalRefresh { lr_SessionToken : string; lr_Origin : string }.
Record LocalAuthenticationRequest := mkLocalAuth {
  la_SessionToken : string; la_CSRFToken : string; la_Origin : string; la_RequireCSRF : bool; la_ObserveOnly : bool }.
Record LocalLogoutRequest := mkLogout { lo_SessionToken : string; lo_CSRFToken : string; lo_Origin : string }.
Record LocalPrincipal := mkLocalPrincipal {
  lp_Origin : string; lp_CreatedAt : Time; lp_ExpiresAt : Time; lp_IdleExpiresAt : Time }.
Record LocalStepUpRequest := mkStepUp {
  su_SessionToken : string; su_CSRFToken : string; su_Origin : string; su_Password : string; su_Action : string;
  su_WorkspaceID : string; su_TargetID : string; su_StateDigest : string }.
Record LocalStepUpCredential := mkStepUpCredential {
  sc_Token : string; sc_Digest : string; sc_SessionDigest : string; sc_Action : string; sc_WorkspaceID : string;
  sc_TargetID : string; sc_StateDigest : string; sc_CreatedAt : Time; sc_ExpiresAt : Time }.
Record LocalStepUpAuthenticationRequest := mkStepUpAuth {
  sa_SessionToken : string; sa_Origin : string; sa_Token : string; sa_Action : string; sa_WorkspaceID : string;
  sa_TargetID : string; sa_StateDigest : string }.
Record LocalStepUpBinding := mkStepUpBinding {
  sb_Digest : string; sb_SessionDigest : string; sb_Action : string; sb_WorkspaceID : string; sb_TargetID : string;
  sb_StateDigest : string; sb_CreatedAt : Time; sb_ExpiresAt : Time }.
Record ProxyIdentity := mkIdentity {
  pi_Issuer : string; pi_Subject : string; pi_SemanticRole : string; pi_DirectoryGroup : string;
  pi_AuthenticatedAt : Time; pi_ExpiresAt : Time; pi_AssertionDigest : string }.
Record ProxySessionRefreshRequest := mkProxyRefresh { pr_SessionToken : string; pr_Origin : string; pr_Identity : ProxyIdentity }.
Record ProxySessionCredential := mkProxyCredential {
  pc_Token : string; pc_CSRFToken : string; pc_Origin : string; pc_Identity : ProxyIdentity; pc_CreatedAt : Time;
  pc_ExpiresAt : Time; pc_IdleExpiresAt : Time }.
Record ProxyAuthenticationRequest := mkProxyAuth {
  pa_SessionToken : string; pa_CSRFToken : string; pa_Origin : string; pa_Identity : ProxyIdentity;
  pa_RequireCSRF : bool; pa_ObserveOnly : bool }.
Record ProxyPrincipal := mkProxyPrincipal {
  pp_SessionDigest : string; pp_Origin : string; pp_Identity : ProxyIdentity; pp_CreatedAt : Time; pp_ExpiresAt : Time;
  pp_IdleExpiresAt : Time }.
Record ProxyStepUpRequest := mkProxyStepUp {
  ps_SessionToken : string; ps_CSRFToken : string; ps_Origin : string; ps_Identity : ProxyIdentity; ps_Action : string;
  ps_WorkspaceID : string; ps_TargetID : string; ps_StateDigest : string }.
Record ProxyStepUpAuthenticationRequest := mkProxyStepUpAuth {
  px_SessionToken : string; px_Origin : string; px_Identity : ProxyIdentity; px_Token : string; px_Action : string;
  px_WorkspaceID : string; px_TargetID : string; px_StateDigest : string }.

(** ** Persisted records (state.go) *)

Definition stateAPIVersion : string := "anas.console-auth/v1".

Record bootstrapTokenRecord := mkTokenRecord {
  tr_Digest : string; tr_IssuedAt : Time; tr_ExpiresAt : Time; tr_TransactionID : string; tr_State : ConsoleState;
  tr_AllowedRoutes : list string }.
Record bootstrapSessionRecord := mkBootstrapSession {
  bs_CSRFDigest : string; bs_TransactionID : string; bs_Origin : string; bs_State : ConsoleState;
  bs_AllowedRoutes : list string; bs_CreatedAt : Time; bs_ExpiresAt : Time; bs_IdleExpiresAt : Time;
  bs_HandoffIssued : bool }.
Record enrollmentHandoffRecord := mkHandoff {
  hr_Digest : string; hr_TransactionID : string; hr_SourceOrigin : string; hr_TargetOrigin : string; hr_SPKISHA256 : string;
  hr_CreatedAt : Time; hr_ExpiresAt : Time }.
Record enrollmentSessionRecord := mkEnrollmentSession {
  es_CSRFDigest : string; es_TransactionID : string; es_Origin : string; es_CreatedAt : Time; es_ExpiresAt : Time }.
Record bootstrapStateFile := mkBootstrapState {
  bf_APIVersion : string;
  bf_Token : option bootstrapTokenRecord;
  bf_Sessions : gmap string bootstrapSessionRecord;
  bf_Handoff : option enrollmentHandoffRecord;
  bf_EnrollmentSessions : gmap string enrollmentSessionRecord }.

Record localSessionRecord := mkLocalSession {
  ls_CSRFDigest : string; ls_Origin : string; ls_CreatedAt : Time; ls_ExpiresAt : Time; ls_IdleExpiresAt : Time }.
Record localStepUpRecord := mkStepUpRecord {
  sr_SessionDigest : string; sr_Action : string; sr_WorkspaceID : string; sr_TargetID : string; sr_StateDigest : string;
  sr_CreatedAt : Time; sr_ExpiresAt : Time }.
Record localStateFile := mkLocalState {
  lf_APIVersion : string;
  lf_OwnerPasswordPHC : string;
  lf_Sessions : gmap string localSessionRecord;
  lf_StepUps : gmap string localStepUpRecord }.

Record proxySessionRecord := mkProxySession {
  xs_CSRFDigest : string; xs_Origin : string; xs_Issuer : string; xs_Subject : string; xs_SemanticRole : string;
  xs_DirectoryGroup : string; xs_CreatedAt : Time; xs_ExpiresAt : Time; xs_IdleExpiresAt : Time }.
Record proxyStepUpRecord := mkProxyStepUpRecord {
  xr_SessionDigest : string; xr_AssertionDigest : string; xr_Action : string; xr_WorkspaceID : string; xr_TargetID : string;
  xr_StateDigest : string; xr_CreatedAt : Time; xr_ExpiresAt : Time }.
Record proxyStateFile := mkProxyState {
  pf_APIVersion : string;
  pf_Sessions : gmap string proxySessionRecord;
  pf_StepUps : gmap string proxyStepUpRecord }.

Definition newBootstrapState : bootstrapStateFile := mkBootstrapState stateAPIVersion None ∅ None ∅.
Definition newLocalState : localStateFile := mkLocalState stateAPIVersion "" ∅ ∅.
Definition newProxyState : proxyStateFile := mkProxyState stateAPIVersion ∅ ∅.

#[global] Instance bootstrapTokenRecord_eq_dec : EqDecision bootstrapTokenRecord.
Proof. solve_decision. Defined.
#[global] Instance bootstrapSessionRecord_eq_dec : EqDecision bootstrapSessionRecord.
Proof. solve_decision. Defined.
#[global] Instance enrollmentHandoffRecord_eq_dec : EqDecision enrollmentHandoffRecord.
Proof. solve_decision. Defined.
#[global] Instance enrollmentSessionRecord_eq_dec : EqDecision enrollmentSessionRecord.
Proof. solve_decision. Defined.
#[global] Instance bootstrapStateFile_eq_dec : EqDecision bootstrapStateFile.
Proof. solve_decision. Defined.
#[global] Instance localSessionRecord_eq_dec : EqDecision localSessionRecord.
Proof. solve_decision. Defined.
#[global] Instance localStepUpRecord_eq_dec : EqDecision localStepUpRecord.
Proof. solve_decision. Defined.
#[global] Instance localStateFile_eq_dec : EqDecision localStateFile.
Proof. solve_decision. Defined.
