(* ===== verification/AuthState.v ===== *)
(** * Console authentication: digests, passwords and state validation

    Package [consoleauth], password.go and the functions of state.go.  A stored
    state is used or replaced only when it is valid; the validators are boolean
    functions, as no caller distinguishes their error texts.  Argon2id is the
    third-party function [argon2.IDKey] and a parameter of the model. *)

From Stdlib Require Import Ascii.
From S2P Require Import Prelude GoText GoEncoding GoNet.
From S2P Require Import JobTypes JobSanitize AuthOrigin AuthTypes.

(** ** Digests *)

Fixpoint hex_decode (s : string) : option (list Z) :=
  match s with
  | EmptyString => Some []
  | String a (String b r) =>
      match hex_pair a b, hex_decode r with
      | Some v, Some l => Some (v :: l)
      | _, _ => None
      end
  | String _ EmptyString => None
  end.

Definition credentialDigest (value : string) : string := sha256_hex value.

Definition digestMatches (storedDigest value : string) : bool :=
  match hex_decode storedDigest with
  | Some stored => (length stored =? 32)%nat && (stored ==? Sum256 (string_bytes value))
  | None => false
  end.

Definition validateDigest (value : string) : bool :=
  match hex_decode value with
  | Some decoded => (length decoded =? 32)%nat && (value ==? smap ascii_lower value)
  | None => false
  end.

(** ** Passwords *)

Definition argonMemoryKiB : Z := 65536.
Definition argonIterations : Z := 3.
Definition argonParallelism : Z := 2.
Definition argonSaltBytes : nat := 16.
Definition argonKeyBytes : nat := 32.
Definition maximumPasswordBytes : Z := 1024.
Definition argon2Version : Z := 19.

(** [argon2.IDKey] at the fixed parameters above: it yields a key of the
    requested length. *)
Class Argon2 := {
  IDKey : list Z -> list Z -> list Z;
  IDKey_length : forall password salt, length (IDKey password salt) = argonKeyBytes;
  IDKey_bytes : forall password salt, Forall is_byte (IDKey password salt)
}.

Definition validatePasswordInput (password : string) : bool :=
  negb ((password ==? "") || (maximumPasswordBytes <? slen password)).

Definition phc_parameters : string := "m=65536,t=3,p=2".

(** A parameter field: its prefix and an unsigned number below the bound. *)
Definition phc_field (prefix : string) (bound : Z) (field : string) : option Z :=
  match CutPrefix field prefix with
  | Some digits =>
      match decimal digits with
      | Some v => if v <? bound then Some v else None
      | None => None
      end
  | None => None
  end.

Definition parsePasswordPHC (encoded : string) : option (list Z * list Z) :=
  match SplitAt "$" encoded with
  | [p0; p1; p2; p3; p4; p5] =>
      if (p0 !=? "") || (p1 !=? "argon2id") || (p2 !=? "v=19") then None
      else
        match SplitAt "," p3 with
        | [m; t; p] =>
            match phc_field "m=" (2 ^ 32) m, phc_field "t=" (2 ^ 32) t, phc_field "p=" (2 ^ 8) p with
            | Some memory, Some iterations, Some parallelism =>
                if (memory !=? argonMemoryKiB) || (iterations !=? argonIterations) || (parallelism !=? argonParallelism)
                then None
                else
                  match b64std_decode p4, b64std_decode p5 with
                  | Some salt, Some hash =>
                      if (length salt =? argonSaltBytes)%nat && (length hash =? argonKeyBytes)%nat
                      then Some (salt, hash) else None
                  | _, _ => None
                  end
            | _, _, _ => None
            end
        | _ => None
        end
  | _ => None
  end.

Section Password.
Context {A : Argon2}.

(** [hashPassword] on a random source that answered with [salt]; [None] is its
    failure. *)
Definition hashPassword (salt : option (list Z)) (password : string) : option string :=
  if negb (validatePasswordInput password) then None
  else match salt with
       | None => None
       | Some salt =>
           let hash := IDKey (string_bytes password) salt in
           Some ("$argon2id$v=19$" +:+ phc_parameters +:+ "$" +:+ b64std_encode salt +:+ "$" +:+ b64std_encode hash)
       end.

(** [VerifyPassword]: [None] is an error. *)
Definition VerifyPassword (encoded password : string) : option bool :=
  if maximumPasswordBytes <? slen password then None
  else match parsePasswordPHC encoded with
       | None => None
       | Some (salt, expected) => Some (IDKey (string_bytes password) salt ==? expected)
       end.

End Password.

(** ** Small validators *)

(** [transactionIDPattern]. *)
Definition transaction_char (c : ascii) : bool := alnum_byte c || one_of "._-" c.
Definition validateTransactionID (value : string) : bool :=
  match value with
  | EmptyString => false
  | String a r => alnum_byte a && sall transaction_char r && (slen r <=? 127)
  end.

Definition validateBootstrapStateValue (state : ConsoleState) : bool :=
  (state ==? StateBootstrap) || (state ==? StateEnrollment).

Definition allowed_route (route : string) : bool :=
  negb ((512 <? slen route) || negb (HasPrefix route "/") || sany (one_of "?#") route || negb (rooted_clean route)) &&
  match url_ParseRequestURI route with
  | Some parsed =>
      negb (negb (is_empty (u_Scheme parsed)) || (u_RawQuery parsed !=? "") || (u_Fragment parsed !=? "") ||
            (u_Path parsed !=? route))
  | None => false
  end.

Definition normalizeAllowedRoutes (routes : list string) : option (list string) :=
  if (length routes =? 0)%nat || (128 <? length routes)%nat then None
  else if forallb allowed_route routes && bool_decide (NoDup routes) then Some routes
  else None.
Definition valid_routes (routes : list string) : bool :=
  match normalizeAllowedRoutes routes with Some _ => true | None => false end.

Definition routeAllowed (routes : list string) (route : string) : bool :=
  existsb (fun allowed => allowed ==? route) routes.

Definition cloneRoutes (routes : list string) : list string := routes.

Definition nextIdleExpiry (now absolute : Time) (ttl : Z) : Time :=
  let next := TimeAdd now ttl in
  if After next absolute then absolute else next.

Definition validateSessionTimes (createdAt expiresAt idleExpiresAt : Time) (absoluteTTL : Z) : bool :=
  negb (IsZero createdAt || (TimeSub expiresAt createdAt !=? absoluteTTL)) &&
  negb (Before idleExpiresAt createdAt || After idleExpiresAt expiresAt).

Definition validateLocalStepUpBinding (action workspaceID targetID stateDigest : string) : bool :=
  negb ((slen action =? 0) || (128 <? slen action) || (slen workspaceID =? 0) || (256 <? slen workspaceID) ||
        (256 <? slen targetID)) &&
  (trimmed action && trimmed workspaceID && trimmed targetID) &&
  validateDigest stateDigest.

Definition canonical_origin (origin : string) : bool := NormalizeOrigin origin ==? Some origin.
Definition https_origin (origin : string) : bool := HasPrefix origin "https://".

(** [exactEnrollmentBinding]: the origins must already be canonical and the
    target HTTPS.  The strings themselves are returned. *)
Definition exactEnrollmentBinding (sourceOrigin targetOrigin spki : string) : option (string * string * string) :=
  if negb (canonical_origin sourceOrigin) then None
  else if negb (canonical_origin targetOrigin && https_origin targetOrigin) then None
  else if (spki !=? smap ascii_lower spki) || negb (validateDigest spki) then None
  else Some (sourceOrigin, targetOrigin, spki).
Definition validateEnrollmentBinding (sourceOrigin targetOrigin spki : string) : bool :=
  match exactEnrollmentBinding sourceOrigin targetOrigin spki with Some _ => true | None => false end.

(** ** Bootstrap state *)

Definition valid_token (t : bootstrapTokenRecord) : bool :=
  validateDigest (tr_Digest t) && validateTransactionID (tr_TransactionID t) && validateBootstrapStateValue (tr_State t) &&
  valid_routes (tr_AllowedRoutes t) &&
  negb (IsZero (tr_IssuedAt t) || (TimeSub (tr_ExpiresAt t) (tr_IssuedAt t) <? MinimumBootstrapTokenTTL) ||
        (MaximumBootstrapTokenTTL <? TimeSub (tr_ExpiresAt t) (tr_IssuedAt t))).

Definition valid_bootstrap_session (digest : string) (s : bootstrapSessionRecord) : bool :=
  validateDigest digest && validateDigest (bs_CSRFDigest s) && validateTransactionID (bs_TransactionID s) &&
  validateBootstrapStateValue (bs_State s) && valid_routes (bs_AllowedRoutes s) && canonical_origin (bs_Origin s) &&
  validateSessionTimes (bs_CreatedAt s) (bs_ExpiresAt s) (bs_IdleExpiresAt s) BootstrapSessionAbsoluteTTL.

Definition valid_handoff (r : enrollmentHandoffRecord) : bool :=
  validateDigest (hr_Digest r) && validateTransactionID (hr_TransactionID r) &&
  validateEnrollmentBinding (hr_SourceOrigin r) (hr_TargetOrigin r) (hr_SPKISHA256 r) &&
  negb (IsZero (hr_CreatedAt r) || (TimeSub (hr_ExpiresAt r) (hr_CreatedAt r) !=? EnrollmentHandoffTTL)).

Definition valid_enrollment_session (digest : string) (r : enrollmentSessionRecord) : bool :=
  validateDigest digest && validateDigest (es_CSRFDigest r) && validateTransactionID (es_TransactionID r) &&
  (canonical_origin (es_Origin r) && https_origin (es_Origin r)) &&
  negb (IsZero (es_CreatedAt r) || (TimeSub (es_ExpiresAt r) (es_CreatedAt r) !=? EnrollmentSessionTTL)).

Definition all_entries {V} (p : string -> V -> bool) (m : gmap string V) : bool :=
  forallb (fun kv => p kv.1 kv.2) (map_to_list m).
Definition any_value {V} (p : V -> bool) (m : gmap string V) : bool :=
  existsb (fun kv => p kv.2) (map_to_list m).
Definition some_ok {V} (p : V -> bool) (o : option V) : bool := match o with Some v => p v | None => true end.
Definition is_some {V} (o : option V) : bool := match o with Some _ => true | None => false end.

(** The transaction of the enrollment credential; a session's, if there is one,
    replaces the handoff's. *)
Definition credential_transaction (st : bootstrapStateFile) : string :=
  match map_to_list (bf_EnrollmentSessions st) with
  | [] => match bf_Handoff st with Some h => hr_TransactionID h | None => "" end
  | l => match last l with Some kv => es_TransactionID kv.2 | None => "" end
  end.

Definition validateBootstrapState (st : bootstrapStateFile) : bool :=
  (bf_APIVersion st ==? stateAPIVersion) &&
  negb (1 <? size (bf_Sessions st))%nat &&
  negb (is_some (bf_Token st) && negb (size (bf_Sessions st) =? 0)%nat) &&
  some_ok valid_token (bf_Token st) &&
  all_entries valid_bootstrap_session (bf_Sessions st) &&
  negb (1 <? size (bf_EnrollmentSessions st))%nat &&
  negb (is_some (bf_Handoff st) && negb (size (bf_EnrollmentSessions st) =? 0)%nat) &&
  some_ok valid_handoff (bf_Handoff st) &&
  all_entries valid_enrollment_session (bf_EnrollmentSessions st) &&
  let transaction := credential_transaction st in
  ((transaction ==? "") ||
   any_value (fun s => (bs_TransactionID s ==? transaction) && (bs_State s ==? StateEnrollment) && bs_HandoffIssued s)
             (bf_Sessions st)).

(** ** Local owner state *)

Definition valid_local_session (digest : string) (s : localSessionRecord) : bool :=
  validateDigest digest && validateDigest (ls_CSRFDigest s) && canonical_origin (ls_Origin s) &&
  validateSessionTimes (ls_CreatedAt s) (ls_ExpiresAt s) (ls_IdleExpiresAt s) LocalSessionAbsoluteTTL.

Definition valid_step_up (sessions : gmap string localSessionRecord) (digest : string) (r : localStepUpRecord) : bool :=
  validateDigest digest && validateDigest (sr_SessionDigest r) && is_some (sessions !! sr_SessionDigest r) &&
  validateLocalStepUpBinding (sr_Action r) (sr_WorkspaceID r) (sr_TargetID r) (sr_StateDigest r) &&
  negb (IsZero (sr_CreatedAt r) || (TimeSub (sr_ExpiresAt r) (sr_CreatedAt r) !=? LocalStepUpTTL)).

Definition maximumLocalSessions : nat := 1024.

Definition validateLocalState (st : localStateFile) : bool :=
  (lf_APIVersion st ==? stateAPIVersion) &&
  negb (maximumLocalSessions <? size (lf_Sessions st))%nat &&
  negb (maximumLocalSessions <? size (lf_StepUps st))%nat &&
  (if lf_OwnerPasswordPHC st !=? "" then is_some (parsePasswordPHC (lf_OwnerPasswordPHC st))
   else negb (negb (size (lf_Sessions st) =? 0)%nat || negb (size (lf_StepUps st) =? 0)%nat)) &&
  all_entries valid_local_session (lf_Sessions st) &&
  all_entries (valid_step_up (lf_Sessions st)) (lf_StepUps st).

(** ** Trusted-proxy state *)

Definition identity_text (value : string) : bool :=
  negb ((value ==? "") || (512 <? slen value) || negb (trimmed value) ||
        sany (fun c => (c ==? newline) || (c ==? "013"%char) || (c ==? "000"%char)) value).

Definition canonical_issuer (value : string) : bool :=
  match url_Parse value with
  | Some u =>
      negb ((u_Scheme u !=? "https") || (u_Host u ==? "") || u_User u || (u_RawQuery u !=? "") || (u_Fragment u !=? "") ||
            (URL_hierarchical_String u !=? value))
  | None => false
  end.

Definition validateProxyIdentity (i : ProxyIdentity) : bool :=
  canonical_issuer (pi_Issuer i) &&
  (identity_text (pi_Subject i) && identity_text (pi_SemanticRole i) && identity_text (pi_DirectoryGroup i)) &&
  (pi_SemanticRole i ==? "platform_admin") &&
  negb (IsZero (pi_AuthenticatedAt i) || IsZero (pi_ExpiresAt i) || negb (After (pi_ExpiresAt i) (pi_AuthenticatedAt i))) &&
  validateDigest (pi_AssertionDigest i).

Definition zero_digest : string := "0000000000000000000000000000000000000000000000000000000000000000".

Definition valid_proxy_session (digest : string) (s : proxySessionRecord) : bool :=
  validateDigest digest && validateDigest (xs_CSRFDigest s) &&
  validateProxyIdentity (mkIdentity (xs_Issuer s) (xs_Subject s) (xs_SemanticRole s) (xs_DirectoryGroup s)
                                    (xs_CreatedAt s) (xs_ExpiresAt s) zero_digest) &&
  canonical_origin (xs_Origin s) &&
  negb (IsZero (xs_CreatedAt s) || negb (After (xs_ExpiresAt s) (xs_CreatedAt s)) ||
        (ProxySessionAbsoluteTTL <? TimeSub (xs_ExpiresAt s) (xs_CreatedAt s)) ||
        Before (xs_IdleExpiresAt s) (xs_CreatedAt s) || After (xs_IdleExpiresAt s) (xs_ExpiresAt s)).

Definition valid_proxy_step_up (sessions : gmap string proxySessionRecord) (digest : string) (r : proxyStepUpRecord) : bool :=
  validateDigest digest && validateDigest (xr_SessionDigest r) && validateDigest (xr_AssertionDigest r) &&
  is_some (sessions !! xr_SessionDigest r) &&
  validateLocalStepUpBinding (xr_Action r) (xr_WorkspaceID r) (xr_TargetID r) (xr_StateDigest r) &&
  negb (IsZero (xr_CreatedAt r) || negb (After (xr_ExpiresAt r) (xr_CreatedAt r)) ||
        (LocalStepUpTTL <? TimeSub (xr_ExpiresAt r) (xr_CreatedAt r))).

Definition validateProxyState (st : proxyStateFile) : bool :=
  (pf_APIVersion st ==? stateAPIVersion) &&
  negb ((maximumLocalSessions <? size (pf_Sessions st))%nat || (maximumLocalSessions <? size (pf_StepUps st))%nat) &&
  all_entries valid_proxy_session (pf_Sessions st) &&
  all_entries (valid_proxy_step_up (pf_Sessions st)) (pf_StepUps st).
