(* ===== verification/AuthStore.v ===== *)
(** * Console authentication: the store and its environment

    Package [consoleauth], store.go, filesystem.go and the load and write
    functions of state.go.  The store keeps no state in memory: every operation
    takes the cross-process lock, loads what it needs, and replaces a file as a
    whole.  The model is a state monad over the files and the audit log.

    What the program asks of its environment (clock, random source, lock, file
    system, audit sink, context, process life) is answered by [Env], a function
    of the instant; each question advances the instant.  A process that dies
    leaves the files as they are and produces no result.

    A file is absent, unreadable (wrong type, owner or mode, too large, not the
    expected JSON, or with a null object where one is required), or holds a
    decoded value.  The lock is exclusive, so between lock and unlock nobody
    else changes the files. *)

From S2P Require Import Prelude GoText AuthTypes AuthState GoEncoding.

(** ** Files and world *)

Inductive file (A : Type) := Absent | Unreadable | Stored (a : A).
Arguments Absent {A}. Arguments Unreadable {A}. Arguments Stored {A} a.

Definition file_exists {A} (f : file A) : bool := match f with Absent => false | _ => true end.

Record authenticationSnapshot := mkSnapshot {
  sn_Bootstrap : bootstrapStateFile; sn_BootstrapExisted : bool; sn_Local : localStateFile; sn_LocalExisted : bool }.
Record enrollmentCommitJournal := mkEnrollmentCommit {
  ej_APIVersion : string; ej_Phase : string; ej_TransactionID : string; ej_RecoveryRoutes : list string;
  ej_Previous : authenticationSnapshot; ej_Next : authenticationSnapshot }.
Record ownerCommitJournal := mkOwnerCommit {
  oj_APIVersion : string; oj_Phase : string; oj_TransactionID : string;
  oj_Previous : authenticationSnapshot; oj_Next : authenticationSnapshot }.

#[global] Instance authenticationSnapshot_eq_dec : EqDecision authenticationSnapshot.
Proof. solve_decision. Defined.

(** The capability state of package [consolestate]; [w_stateLock] below tells
    whether its lock file exists. *)
Record stateFile := mkStateFile { sf_APIVersion : string; sf_State : ConsoleState }.
Record TransitionEvent := mkTransition { te_From : ConsoleState; te_To : ConsoleState; te_Actor : string; te_Reason : string }.

Record World := mkWorld {
  w_bootstrap : file bootstrapStateFile;
  w_local : file localStateFile;
  w_proxy : file proxyStateFile;
  w_enrollmentCommit : file enrollmentCommitJournal;
  w_ownerCommit : file ownerCommitJournal;
  w_stateLock : bool;
  w_capability : file stateFile;
  w_audit : list AuditEvent;
  w_transitions : list TransitionEvent;
  w_instant : nat
}.

Definition w_set_bootstrap f w : World :=
  mkWorld f (w_local w) (w_proxy w) (w_enrollmentCommit w) (w_ownerCommit w)
    (w_stateLock w) (w_capability w) (w_audit w) (w_transitions w) (w_instant w).
Definition w_set_local f w : World :=
  mkWorld (w_bootstrap w) f (w_proxy w) (w_enrollmentCommit w) (w_ownerCommit w)
    (w_stateLock w) (w_capability w) (w_audit w) (w_transitions w) (w_instant w).
Definition w_set_proxy f w : World :=
  mkWorld (w_bootstrap w) (w_local w) f (w_enrollmentCommit w) (w_ownerCommit w)
    (w_stateLock w) (w_capability w) (w_audit w) (w_transitions w) (w_instant w).
Definition w_set_enrollmentCommit f w : World :=
  mkWorld (w_bootstrap w) (w_local w) (w_proxy w) f (w_ownerCommit w)
    (w_stateLock w) (w_capability w) (w_audit w) (w_transitions w) (w_instant w).
Definition w_set_ownerCommit f w : World :=
  mkWorld (w_bootstrap w) (w_local w) (w_proxy w) (w_enrollmentCommit w) f
    (w_stateLock w) (w_capability w) (w_audit w) (w_transitions w) (w_instant w).
Definition w_set_stateLock f w : World :=
  mkWorld (w_bootstrap w) (w_local w) (w_proxy w) (w_enrollmentCommit w) (w_ownerCommit w)
    f (w_capability w) (w_audit w) (w_transitions w) (w_instant w).
Definition w_set_capability f w : World :=
  mkWorld (w_bootstrap w) (w_local w) (w_proxy w) (w_enrollmentCommit w) (w_ownerCommit w)
    (w_stateLock w) f (w_audit w) (w_transitions w) (w_instant w).
Definition w_add_audit e w : World :=
  mkWorld (w_bootstrap w) (w_local w) (w_proxy w) (w_enrollmentCommit w) (w_ownerCommit w)
    (w_stateLock w) (w_capability w) (w_audit w ++ [e]) (w_transitions w) (w_instant w).
Definition w_add_transition e w : World :=
  mkWorld (w_bootstrap w) (w_local w) (w_proxy w) (w_enrollmentCommit w) (w_ownerCommit w)
    (w_stateLock w) (w_capability w) (w_audit w) (w_transitions w ++ [e]) (w_instant w).
Definition w_tick w : World :=
  mkWorld (w_bootstrap w) (w_local w) (w_proxy w) (w_enrollmentCommit w) (w_ownerCommit w)
    (w_stateLock w) (w_capability w) (w_audit w) (w_transitions w) (S (w_instant w)).

(** ** The environment *)

(** What replacing or removing a file can do.  A failure before the rename (or
    removal), or one whose rollback succeeded, leaves the file as it was; a
    failure whose rollback failed too leaves the change in place. *)
Inductive change := Changed | Unchanged | ChangedWithError.

Class Env := {
  e_alive : nat -> bool;
  e_clock : nat -> Z;
  e_random : nat -> option (nat -> Z);
  e_lock : nat -> bool;
  e_stat : nat -> bool;
  e_read : nat -> bool;
  e_change : nat -> change;
  e_sync : nat -> bool;
  e_audit : nat -> bool;
  e_context : nat -> bool;
  e_hook : nat -> bool
}.

(** ** The monad *)

Inductive outcome (A : Type) := Return (a : A) | Killed.
Arguments Return {A} a. Arguments Killed {A}.

Definition M (A : Type) : Type := World -> outcome A * World.
(** A Go function that returns [(A, error)]. *)
Definition R (A : Type) : Type := M (result aerr A).

Definition ret {A} (a : A) : M A := fun w => (Return a, w).
Definition bindM {A B} (m : M A) (k : A -> M B) : M B :=
  fun w => match m w with
           | (Return a, w') => k a w'
           | (Killed, w') => (Killed, w')
           end.
Definition okR {A} (a : A) : R A := ret (Ok a).
Definition failR {A} (e : aerr) : R A := ret (Err e).
(** [x, err := m; if err != nil { return h(err) }]. *)
Definition tryM {A B} (m : R A) (h : aerr -> R B) (k : A -> R B) : R B :=
  bindM m (fun r => match r with Ok a => k a | Err e => h e end).
Definition with_world {A} (f : World -> A) : M A := fun w => (Return (f w), w).
Definition update (f : World -> World) : M unit := fun w => (Return tt, f w).

Notation "'let*' x ':=' m 'in' k" := (bindM m (fun x => k))
  (at level 10, x name, m at level 99, k at level 200) : go_scope.
Notation "m ';;*' k" := (bindM m (fun _ => k)) (at level 11, k at level 200, right associativity) : go_scope.
Notation "'try' x ':=' m 'fails' h 'in' k" := (tryM m h (fun x => k))
  (at level 10, x name, m at level 99, h at level 99, k at level 200) : go_scope.
(** [if b { return h }]. *)
Notation "'when' b 'return' h ';;' k" := (if (b : bool) then h else k)
  (at level 10, b at level 99, h at level 99, k at level 200) : go_scope.

Section Store.
Context {E : Env}.

(** A question to the environment: the process may have died before it.  Time
    goes on for the process that is started next. *)
Definition ask {A} (f : nat -> A) : M A :=
  fun w => (if e_alive (w_instant w) then Return (f (w_instant w)) else Killed, w_tick w).

Definition currentTime : M Time := ask e_clock.

Definition read_full (n : nat) (source : nat -> Z) : list Z := map (fun i => source i mod 256) (seq 0 n).
Definition readRandom (n : nat) : M (option (list Z)) :=
  let* r := ask e_random in ret (match r with Some s => Some (read_full n s) | None => None end).

Definition newCredential : R string :=
  let* raw := readRandom credentialRandomBytes in
  match raw with Some raw => okR (b64_encode raw) | None => failR EUnavailable end.

Definition hashOwnerPassword `{Argon2} (password : string) : R string :=
  let* salt := readRandom argonSaltBytes in
  match hashPassword salt password with Some phc => okR phc | None => failR EUnavailable end.

(** [validateStoreDirectory] and [acquireStoreLock]. *)
Definition acquireStoreLock : R unit :=
  let* ok := ask e_lock in if ok then okR tt else failR EUnavailable.

(** [os.Lstat] of a recovery journal: whether it exists. *)
Definition lstat {A} (get : World -> file A) : R bool :=
  let* ok := ask e_stat in
  if ok then (let* x := with_world (fun w => file_exists (get w)) in okR x) else failR EUnavailable.

(** [Store.lock]: refused while a recovery journal is pending. *)
Definition lock : R unit :=
  try _ := acquireStoreLock fails failR in
  try pending := lstat w_enrollmentCommit fails failR in
  when pending return failR ErrRecoveryRequired ;;
  try pending := lstat w_ownerCommit fails failR in
  when pending return failR ErrRecoveryRequired ;;
  okR tt.

Definition recordAudit (ev : AuditEvent) : R unit :=
  let* ev := (if IsZero (ev_OccurredAt ev) then (let* t := currentTime in ret (with_OccurredAt t ev)) else ret ev) in
  let* ok := ask e_audit in
  if ok then update (w_add_audit ev) ;;* okR tt else failR ErrAuditUnavailable.

Definition failWithAudit {A} (ev : AuditEvent) (operationErr : aerr) : R A :=
  let ev := with_Outcome AuditFailure ev in
  let ev := if ev_Reason ev ==? "" then with_Reason "operation_failed" ev else ev in
  try _ := recordAudit ev fails failR in
  failR operationErr.

(** ** Files *)

(** [readJSONFile]: [None] for a file that does not exist. *)
Definition readJSONFile {A} (get : World -> file A) : R (option A) :=
  let* ok := ask e_read in
  if negb ok then failR EUnavailable
  else let* f := with_world get in
       match f with
       | Absent => okR None
       | Unreadable => failR EInvalidData
       | Stored a => okR (Some a)
       end.

(** [writeJSONFile]: an unreadable previous file may still be replaced, as only
    its bytes are read back. *)
Definition writeJSONFile {A} (set : file A -> World -> World) (value : A) : R unit :=
  let* c := ask e_change in
  match c with
  | Changed => update (set (Stored value)) ;;* okR tt
  | Unchanged => failR EUnavailable
  | ChangedWithError => update (set (Stored value)) ;;* failR EUnavailable
  end.

(** [removePrivateFile]: nothing to do when the file does not exist. *)
Definition removePrivateFile {A} (get : World -> file A) (set : file A -> World -> World) : R unit :=
  let* f := with_world get in
  let* c := ask e_change in
  match f, c with
  | Absent, Unchanged => failR EUnavailable
  | Absent, _ => okR tt
  | _, Changed => update (set Absent) ;;* okR tt
  | _, Unchanged => failR EUnavailable
  | _, ChangedWithError => update (set Absent) ;;* failR EUnavailable
  end.

Definition loadBootstrapStateWithExistence : R (bootstrapStateFile * bool) :=
  try f := readJSONFile w_bootstrap fails failR in
  match f with
  | None => okR (newBootstrapState, false)
  | Some st => if validateBootstrapState st then okR (st, true) else failR EInvalidData
  end.
Definition loadBootstrapState : R bootstrapStateFile :=
  try r := loadBootstrapStateWithExistence fails failR in okR r.1.
Definition writeBootstrapState (st : bootstrapStateFile) : R unit :=
  when negb (validateBootstrapState st) return failR EInvalidData ;;
  writeJSONFile w_set_bootstrap st.

Definition loadLocalStateWithExistence : R (localStateFile * bool) :=
  try f := readJSONFile w_local fails failR in
  match f with
  | None => okR (newLocalState, false)
  | Some st => if validateLocalState st then okR (st, true) else failR EInvalidData
  end.
Definition loadLocalState : R localStateFile :=
  try r := loadLocalStateWithExistence fails failR in okR r.1.
Definition writeLocalState (st : localStateFile) : R unit :=
  when negb (validateLocalState st) return failR EInvalidData ;;
  writeJSONFile w_set_local st.

Definition loadProxyState : R proxyStateFile :=
  try f := readJSONFile w_proxy fails failR in
  match f with
  | None => okR newProxyState
  | Some st => if validateProxyState st then okR st else failR EInvalidData
  end.
Definition writeProxyState (st : proxyStateFile) : R unit :=
  when negb (validateProxyState st) return failR EInvalidData ;;
  writeJSONFile w_set_proxy st.

End Store.
