(* ===== verification/AuthLocal.v ===== *)
(** * Console authentication: the local owner

    Package [consoleauth], local.go: the owner's password, local sessions and
    step-up proofs.  Every operation follows the source statement by statement:
    checks in order, audit before the effect, one file replacement. *)

From S2P Require Import Prelude GoText AuthOrigin AuthTypes AuthState AuthStore.

Definition expired (now absolute idle : Time) : bool := negb (Before now absolute) || negb (Before now idle).

Definition lf_with (st : localStateFile) (sessions : gmap string localSessionRecord) (stepUps : gmap string localStepUpRecord)
  : localStateFile := mkLocalState (lf_APIVersion st) (lf_OwnerPasswordPHC st) sessions stepUps.

Definition deleteLocalSessionStepUps (stepUps : gmap string localStepUpRecord) (sessionDigest : string) :=
  filter (fun kv => sr_SessionDigest kv.2 <> sessionDigest) stepUps.
Definition pruneExpiredLocalStepUps (stepUps : gmap string localStepUpRecord) (now : Time) :=
  filter (fun kv => Before now (sr_ExpiresAt kv.2) = true) stepUps.

(** The sweep of [LoginLocal]: expired sessions go, and the proofs of each of
    them with it. *)
Definition session_live (now : Time) (s : localSessionRecord) : bool := negb (expired now (ls_ExpiresAt s) (ls_IdleExpiresAt s)).
Definition sweep_sessions (now : Time) (st : localStateFile) : localStateFile :=
  lf_with st
    (filter (fun kv => session_live now kv.2 = true) (lf_Sessions st))
    (filter (fun kv => some_ok (session_live now) (lf_Sessions st !! sr_SessionDigest kv.2) = true) (lf_StepUps st)).

Section Local.
Context {E : Env} {A : Argon2}.

Definition SetOwnerPassword (password : string) : R unit :=
  when negb (validatePasswordInput password)
    return failWithAudit (with_Reason "invalid_password" (event AuditOwnerPasswordSet)) EInvalidData ;;
  try passwordPHC := hashOwnerPassword password
    fails failWithAudit (with_Reason "hash_failed" (event AuditOwnerPasswordSet)) in
  try _ := lock fails failWithAudit (with_Reason "store_unavailable" (event AuditOwnerPasswordSet)) in
  try state := loadLocalState fails failWithAudit (with_Reason "state_unavailable" (event AuditOwnerPasswordSet)) in
  let revokedSessions := Z.of_nat (size (lf_Sessions state)) in
  let state := mkLocalState (lf_APIVersion state) passwordPHC ∅ ∅ in
  let ev := with_Revoked false revokedSessions (with_Outcome AuditSuccess (event AuditOwnerPasswordSet)) in
  try _ := recordAudit ev fails failR in
  try _ := writeLocalState state fails failWithAudit (with_Reason "persist_failed" (event AuditOwnerPasswordSet)) in
  okR tt.

Definition LoginLocal (request : LocalLoginRequest) : R LocalSessionCredential :=
  match NormalizeOrigin (ll_Origin request) with
  | None => failWithAudit (with_Reason "invalid_origin" (event AuditLocalLogin)) ErrOriginMismatch
  | Some origin =>
      let ev := with_Origin origin (event AuditLocalLogin) in
      when maximumPasswordBytes <? slen (ll_Password request)
        return failWithAudit (with_Reason "invalid_credentials" ev) ErrInvalidCredentials ;;
      try _ := lock fails failWithAudit (with_Reason "store_unavailable" ev) in
      try state := loadLocalState fails failWithAudit (with_Reason "state_unavailable" ev) in
      when lf_OwnerPasswordPHC state ==? ""
        return failWithAudit (with_Reason "owner_not_configured" ev) ErrOwnerNotConfigured ;;
      match VerifyPassword (lf_OwnerPasswordPHC state) (ll_Password request) with
      | None => failWithAudit (with_Reason "state_unavailable" ev) EInvalidData
      | Some verified =>
          when negb verified return failWithAudit (with_Reason "invalid_credentials" ev) ErrInvalidCredentials ;;
          try sessionToken := newCredential fails failWithAudit (with_Reason "random_failed" ev) in
          try csrfToken := newCredential fails failWithAudit (with_Reason "random_failed" ev) in
          let* now := currentTime in
          let state := sweep_sessions now state in
          let state := lf_with state (lf_Sessions state) (pruneExpiredLocalStepUps (lf_StepUps state) now) in
          when (maximumLocalSessions <=? size (lf_Sessions state))%nat
            return failWithAudit (with_Reason "session_capacity" ev) ErrSessionUnauthorized ;;
          let record := mkLocalSession (credentialDigest csrfToken) origin now (TimeAdd now LocalSessionAbsoluteTTL)
                                       (TimeAdd now LocalSessionIdleTTL) in
          let state := lf_with state (<[credentialDigest sessionToken := record]> (lf_Sessions state)) (lf_StepUps state) in
          try _ := recordAudit (with_Outcome AuditSuccess ev) fails failR in
          try _ := writeLocalState state fails failWithAudit (with_Reason "persist_failed" ev) in
          okR (mkLocalCredential sessionToken csrfToken origin now (ls_ExpiresAt record) (ls_IdleExpiresAt record))
      end
  end.

Definition ls_with_idle (r : localSessionRecord) (idle : Time) : localSessionRecord :=
  mkLocalSession (ls_CSRFDigest r) (ls_Origin r) (ls_CreatedAt r) (ls_ExpiresAt r) idle.
Definition local_principal (r : localSessionRecord) : LocalPrincipal :=
  mkLocalPrincipal (ls_Origin r) (ls_CreatedAt r) (ls_ExpiresAt r) (ls_IdleExpiresAt r).

(** The session of a token: its record under the token's digest, which is
    compared again in constant time. *)
Definition find_session {V} (sessions : gmap string V) (token : string) : option V :=
  match sessions !! credentialDigest token with
  | Some r => if digestMatches (credentialDigest token) token then Some r else None
  | None => None
  end.

Definition AuthenticateLocal (request : LocalAuthenticationRequest) : R LocalPrincipal :=
  match NormalizeOrigin (la_Origin request) with
  | None => failR ErrOriginMismatch
  | Some origin =>
      try _ := lock fails failR in
      try state := loadLocalState fails failR in
      let digest := credentialDigest (la_SessionToken request) in
      match find_session (lf_Sessions state) (la_SessionToken request) with
      | None => failR ErrSessionUnauthorized
      | Some record =>
          let* now := currentTime in
          when expired now (ls_ExpiresAt record) (ls_IdleExpiresAt record) return failR ErrCredentialExpired ;;
          when ls_Origin record !=? origin return failR ErrOriginMismatch ;;
          when la_RequireCSRF request && negb (digestMatches (ls_CSRFDigest record) (la_CSRFToken request))
            return failR ErrCSRFMismatch ;;
          when la_ObserveOnly request return okR (local_principal record) ;;
          let newIdleExpiry := nextIdleExpiry now (ls_ExpiresAt record) LocalSessionIdleTTL in
          when negb (After newIdleExpiry (ls_IdleExpiresAt record)) return okR (local_principal record) ;;
          let record := ls_with_idle record newIdleExpiry in
          let state := lf_with state (<[digest := record]> (lf_Sessions state)) (lf_StepUps state) in
          try _ := writeLocalState state fails failR in
          okR (local_principal record)
      end
  end.

Definition RefreshLocalSession (request : LocalSessionRefreshRequest) : R LocalSessionCredential :=
  match NormalizeOrigin (lr_Origin request) with
  | None => failR ErrOriginMismatch
  | Some origin =>
      when lr_SessionToken request ==? "" return failR ErrSessionUnauthorized ;;
      try csrfToken := newCredential fails failR in
      try _ := lock fails failR in
      try state := loadLocalState fails failR in
      let digest := credentialDigest (lr_SessionToken request) in
      match find_session (lf_Sessions state) (lr_SessionToken request) with
      | None => failR ErrSessionUnauthorized
      | Some record =>
          let* now := currentTime in
          when expired now (ls_ExpiresAt record) (ls_IdleExpiresAt record) return failR ErrCredentialExpired ;;
          when ls_Origin record !=? origin return failR ErrOriginMismatch ;;
          let record := mkLocalSession (credentialDigest csrfToken) (ls_Origin record) (ls_CreatedAt record)
                          (ls_ExpiresAt record) (nextIdleExpiry now (ls_ExpiresAt record) LocalSessionIdleTTL) in
          let state := lf_with state (<[digest := record]> (lf_Sessions state)) (lf_StepUps state) in
          try _ := writeLocalState state fails failR in
          okR (mkLocalCredential "" csrfToken (ls_Origin record) (ls_CreatedAt record) (ls_ExpiresAt record)
                                 (ls_IdleExpiresAt record))
      end
  end.

Definition LogoutLocal (request : LocalLogoutRequest) : R unit :=
  match NormalizeOrigin (lo_Origin request) with
  | None => failWithAudit (with_Reason "invalid_origin" (event AuditLocalLogout)) ErrOriginMismatch
  | Some origin =>
      let ev := with_Origin origin (event AuditLocalLogout) in
      try _ := lock fails failWithAudit (with_Reason "store_unavailable" ev) in
      try state := loadLocalState fails failWithAudit (with_Reason "state_unavailable" ev) in
      let digest := credentialDigest (lo_SessionToken request) in
      match lf_Sessions state !! digest with
      | None => failWithAudit (with_Reason "session_not_found" ev) ErrSessionUnauthorized
      | Some record =>
          when ls_Origin record !=? origin
            return failWithAudit (with_Reason "session_not_found" ev) ErrSessionUnauthorized ;;
          when negb (digestMatches (ls_CSRFDigest record) (lo_CSRFToken request))
            return failWithAudit (with_Reason "csrf_mismatch" ev) ErrCSRFMismatch ;;
          let state := lf_with state (delete digest (lf_Sessions state)) (deleteLocalSessionStepUps (lf_StepUps state) digest) in
          try _ := recordAudit (with_Revoked false 1 (with_Outcome AuditSuccess ev)) fails failR in
          try _ := writeLocalState state fails failWithAudit (with_Reason "persist_failed" ev) in
          okR tt
      end
  end.

Definition RevokeLocalSessions : R unit :=
  try _ := lock fails failWithAudit (with_Reason "store_unavailable" (event AuditLocalRevoke)) in
  try state := loadLocalState fails failWithAudit (with_Reason "state_unavailable" (event AuditLocalRevoke)) in
  let revoked := Z.of_nat (size (lf_Sessions state)) in
  let state := lf_with state ∅ ∅ in
  try _ := recordAudit (with_Revoked false revoked (with_Outcome AuditSuccess (event AuditLocalRevoke))) fails failR in
  try _ := writeLocalState state fails failWithAudit (with_Reason "persist_failed" (event AuditLocalRevoke)) in
  okR tt.

Definition stepUpToken (random : string) : string := "sup_" +:+ random.

Definition IssueLocalStepUp (request : LocalStepUpRequest) : R LocalStepUpCredential :=
  let normalized := NormalizeOrigin (su_Origin request) in
  let origin := default "" normalized in
  let auditEvent := with_Target (su_Action request) (su_WorkspaceID request) (su_TargetID request)
                      (with_Origin origin (event AuditLocalStepUp)) in
  when negb (is_some normalized) || (maximumPasswordBytes <? slen (su_Password request)) ||
       negb (validateLocalStepUpBinding (su_Action request) (su_WorkspaceID request) (su_TargetID request)
                                        (su_StateDigest request))
    return failWithAudit (withAuditReason auditEvent "invalid_request") ErrStepUpUnauthorized ;;
  try _ := lock fails failWithAudit (withAuditReason auditEvent "store_unavailable") in
  try state := loadLocalState fails failWithAudit (withAuditReason auditEvent "state_unavailable") in
  let sessionDigest := credentialDigest (su_SessionToken request) in
  let* now := currentTime in
  match find_session (lf_Sessions state) (su_SessionToken request) with
  | None => failWithAudit (withAuditReason auditEvent "session_not_found") ErrSessionUnauthorized
  | Some session =>
      when expired now (ls_ExpiresAt session) (ls_IdleExpiresAt session)
        return failWithAudit (withAuditReason auditEvent "session_expired") ErrCredentialExpired ;;
      when ls_Origin session !=? origin
        return failWithAudit (withAuditReason auditEvent "origin_mismatch") ErrOriginMismatch ;;
      when negb (digestMatches (ls_CSRFDigest session) (su_CSRFToken request))
        return failWithAudit (withAuditReason auditEvent "csrf_mismatch") ErrCSRFMismatch ;;
      match VerifyPassword (lf_OwnerPasswordPHC state) (su_Password request) with
      | None => failWithAudit (withAuditReason auditEvent "state_unavailable") EInvalidData
      | Some verified =>
          when negb verified return failWithAudit (withAuditReason auditEvent "invalid_credentials") ErrInvalidCredentials ;;
          let stepUps := pruneExpiredLocalStepUps (lf_StepUps state) now in
          when (maximumLocalSessions <=? size stepUps)%nat
            return failWithAudit (withAuditReason auditEvent "step_up_capacity") ErrStepUpUnauthorized ;;
          try random := newCredential fails failWithAudit (withAuditReason auditEvent "random_failed") in
          let token := stepUpToken random in
          let digest := credentialDigest token in
          let record := mkStepUpRecord sessionDigest (su_Action request) (su_WorkspaceID request) (su_TargetID request)
                          (su_StateDigest request) now (TimeAdd now LocalStepUpTTL) in
          let state := lf_with state (lf_Sessions state) (<[digest := record]> stepUps) in
          try _ := recordAudit (withAuditOutcome auditEvent AuditSuccess) fails failR in
          try _ := writeLocalState state fails failWithAudit (withAuditReason auditEvent "persist_failed") in
          okR (mkStepUpCredential token digest sessionDigest (sr_Action record) (sr_WorkspaceID record) (sr_TargetID record)
                 (sr_StateDigest record) (sr_CreatedAt record) (sr_ExpiresAt record))
      end
  end.

(** The proof a request names: bound to its live session and to exactly its
    action, workspace, target and state. *)
Definition step_up_matches (now : Time) (sessionDigest : string) (request : LocalStepUpAuthenticationRequest)
    (record : localStepUpRecord) : bool :=
  negb (negb (Before now (sr_ExpiresAt record)) || (sr_SessionDigest record !=? sessionDigest) ||
        (sr_Action record !=? sa_Action request) || (sr_WorkspaceID record !=? sa_WorkspaceID request) ||
        (sr_TargetID record !=? sa_TargetID request) || (sr_StateDigest record !=? sa_StateDigest request)).

Definition find_step_up (now : Time) (origin : string) (state : localStateFile) (request : LocalStepUpAuthenticationRequest)
  : option localStepUpRecord :=
  match find_session (lf_Sessions state) (sa_SessionToken request) with
  | None => None
  | Some session =>
      if expired now (ls_ExpiresAt session) (ls_IdleExpiresAt session) || (ls_Origin session !=? origin) then None
      else match find_session (lf_StepUps state) (sa_Token request) with
           | Some record =>
               if step_up_matches now (credentialDigest (sa_SessionToken request)) request record then Some record else None
           | None => None
           end
  end.

Definition step_up_binding (digest : string) (r : localStepUpRecord) : LocalStepUpBinding :=
  mkStepUpBinding digest (sr_SessionDigest r) (sr_Action r) (sr_WorkspaceID r) (sr_TargetID r) (sr_StateDigest r)
    (sr_CreatedAt r) (sr_ExpiresAt r).

Definition step_up_request_valid (request : LocalStepUpAuthenticationRequest) : bool :=
  validateLocalStepUpBinding (sa_Action request) (sa_WorkspaceID request) (sa_TargetID request) (sa_StateDigest request).

Definition AuthenticateLocalStepUp (request : LocalStepUpAuthenticationRequest) : R LocalStepUpBinding :=
  match NormalizeOrigin (sa_Origin request) with
  | None => failR ErrStepUpUnauthorized
  | Some origin =>
      when negb (step_up_request_valid request) return failR ErrStepUpUnauthorized ;;
      try _ := lock fails failR in
      try state := loadLocalState fails failR in
      let* now := currentTime in
      match find_step_up now origin state request with
      | None => failR ErrStepUpUnauthorized
      | Some record => okR (step_up_binding (credentialDigest (sa_Token request)) record)
      end
  end.

Definition ConsumeLocalStepUp (request : LocalStepUpAuthenticationRequest) : R LocalStepUpBinding :=
  match NormalizeOrigin (sa_Origin request) with
  | None => failR ErrStepUpUnauthorized
  | Some origin =>
      when negb (step_up_request_valid request) return failR ErrStepUpUnauthorized ;;
      try _ := lock fails failR in
      try state := loadLocalState fails failR in
      let* now := currentTime in
      match find_step_up now origin state request with
      | None => failR ErrStepUpUnauthorized
      | Some record =>
          let digest := credentialDigest (sa_Token request) in
          let state := lf_with state (lf_Sessions state) (delete digest (lf_StepUps state)) in
          try _ := writeLocalState state fails failR in
          okR (step_up_binding digest record)
      end
  end.

End Local.
