(* ===== verification/AuthBootstrap.v ===== *)
(** * Console authentication: bootstrap credentials

    Package [consoleauth], bootstrap.go: the one bootstrap token or session of a
    console that has no owner yet. *)

From S2P Require Import Prelude GoText AuthOrigin AuthTypes AuthState AuthStore AuthLocal.

Definition bootstrapTokenTTLValid (ttl : Z) : bool := (MinimumBootstrapTokenTTL <=? ttl) && (ttl <=? MaximumBootstrapTokenTTL).

Definition bf_with (st : bootstrapStateFile) token sessions handoff enrollment : bootstrapStateFile :=
  mkBootstrapState (bf_APIVersion st) token sessions handoff enrollment.
Definition bf_with_sessions (st : bootstrapStateFile) (sessions : gmap string bootstrapSessionRecord) : bootstrapStateFile :=
  bf_with st (bf_Token st) sessions (bf_Handoff st) (bf_EnrollmentSessions st).

Definition bs_with_idle (r : bootstrapSessionRecord) (idle : Time) : bootstrapSessionRecord :=
  mkBootstrapSession (bs_CSRFDigest r) (bs_TransactionID r) (bs_Origin r) (bs_State r) (bs_AllowedRoutes r) (bs_CreatedAt r)
    (bs_ExpiresAt r) idle (bs_HandoffIssued r).
Definition bs_with_csrf (r : bootstrapSessionRecord) (digest : string) : bootstrapSessionRecord :=
  mkBootstrapSession digest (bs_TransactionID r) (bs_Origin r) (bs_State r) (bs_AllowedRoutes r) (bs_CreatedAt r)
    (bs_ExpiresAt r) (bs_IdleExpiresAt r) (bs_HandoffIssued r).
Definition bs_with_state (r : bootstrapSessionRecord) (state : ConsoleState) (routes : list string) : bootstrapSessionRecord :=
  mkBootstrapSession (bs_CSRFDigest r) (bs_TransactionID r) (bs_Origin r) state routes (bs_CreatedAt r) (bs_ExpiresAt r)
    (bs_IdleExpiresAt r) (bs_HandoffIssued r).
Definition bs_with_handoff (r : bootstrapSessionRecord) : bootstrapSessionRecord :=
  mkBootstrapSession (bs_CSRFDigest r) (bs_TransactionID r) (bs_Origin r) (bs_State r) (bs_AllowedRoutes r) (bs_CreatedAt r)
    (bs_ExpiresAt r) (bs_IdleExpiresAt r) true.
Definition tr_with_state (r : bootstrapTokenRecord) (state : ConsoleState) (routes : list string) : bootstrapTokenRecord :=
  mkTokenRecord (tr_Digest r) (tr_IssuedAt r) (tr_ExpiresAt r) (tr_TransactionID r) state routes.

Definition bootstrap_principal (r : bootstrapSessionRecord) : BootstrapPrincipal :=
  mkBootstrapPrincipal (bs_TransactionID r) (bs_Origin r) (bs_State r) (cloneRoutes (bs_AllowedRoutes r)) (bs_CreatedAt r)
    (bs_ExpiresAt r) (bs_IdleExpiresAt r).

Section Bootstrap.
Context {E : Env}.

Definition IssueBootstrapToken (request : IssueBootstrapTokenRequest) : R IssuedBootstrapToken :=
  let ttl := if ib_TTL request =? 0 then DefaultBootstrapTokenTTL else ib_TTL request in
  let ev := event AuditBootstrapIssue in
  match normalizeAllowedRoutes (ib_AllowedRoutes request) with
  | None => failWithAudit (with_Reason "invalid_request" ev) EInvalidData
  | Some routes =>
      when negb (bootstrapTokenTTLValid ttl) || negb (validateTransactionID (ib_TransactionID request)) ||
           negb (validateBootstrapStateValue (ib_State request))
        return failWithAudit (with_Reason "invalid_request" ev) EInvalidData ;;
      try token := newCredential fails failWithAudit (with_Reason "random_failed" ev) in
      try _ := lock fails failWithAudit (with_Reason "store_unavailable" ev) in
      try state := loadBootstrapState fails failWithAudit (with_Reason "state_unavailable" ev) in
      let* now := currentTime in
      let replacedToken := is_some (bf_Token state) in
      let revokedSessions := Z.of_nat (size (bf_Sessions state) + size (bf_EnrollmentSessions state)) in
      let record := mkTokenRecord (credentialDigest token) now (TimeAdd now ttl) (ib_TransactionID request) (ib_State request)
                      routes in
      let state := bf_with state (Some record) ∅ None ∅ in
      try _ := recordAudit (with_Revoked replacedToken revokedSessions (with_State (ib_State request)
                 (with_Transaction (ib_TransactionID request) (with_Outcome AuditSuccess ev)))) fails failR in
      try _ := writeBootstrapState state
        fails failWithAudit (with_State (ib_State request) (with_Transaction (ib_TransactionID request)
                (with_Reason "persist_failed" ev))) in
      okR (mkIssuedToken token now (TimeAdd now ttl) (ib_TransactionID request) (ib_State request))
  end.

Definition ExchangeBootstrapToken (request : ExchangeBootstrapTokenRequest) : R BootstrapSessionCredential :=
  let ev := event AuditBootstrapExchange in
  match NormalizeOrigin (xb_Origin request) with
  | None => failWithAudit (with_Reason "invalid_request" ev) ErrOriginMismatch
  | Some origin =>
      when xb_Token request ==? "" return failWithAudit (with_Origin origin (with_Reason "invalid_request" ev)) ErrInvalidToken ;;
      try _ := lock fails failWithAudit (with_Reason "store_unavailable" ev) in
      try state := loadBootstrapState fails failWithAudit (with_Reason "state_unavailable" ev) in
      match bf_Token state with
      | None => failWithAudit (with_Reason "invalid_token" ev) ErrInvalidToken
      | Some token =>
          when negb (digestMatches (tr_Digest token) (xb_Token request))
            return failWithAudit (with_Reason "invalid_token" ev) ErrInvalidToken ;;
          let* now := currentTime in
          let bound := with_State (tr_State token) (with_Transaction (tr_TransactionID token) ev) in
          when negb (Before now (tr_ExpiresAt token))
            return failWithAudit (with_Reason "expired_token" bound) ErrCredentialExpired ;;
          try sessionToken := newCredential fails failWithAudit (with_Reason "random_failed" bound) in
          try csrfToken := newCredential fails failWithAudit (with_Reason "random_failed" bound) in
          let record := mkBootstrapSession (credentialDigest csrfToken) (tr_TransactionID token) origin (tr_State token)
                          (cloneRoutes (tr_AllowedRoutes token)) now (TimeAdd now BootstrapSessionAbsoluteTTL)
                          (TimeAdd now BootstrapSessionIdleTTL) false in
          let state := bf_with state None {[credentialDigest sessionToken := record]} (bf_Handoff state)
                         (bf_EnrollmentSessions state) in
          let ev := with_State (bs_State record) (with_Origin origin (with_Transaction (bs_TransactionID record) ev)) in
          try _ := recordAudit (with_Outcome AuditSuccess ev) fails failR in
          try _ := writeBootstrapState state fails failWithAudit (with_Reason "persist_failed" ev) in
          okR (mkBootstrapCredential sessionToken csrfToken (bs_TransactionID record) origin (bs_State record)
                 (cloneRoutes (bs_AllowedRoutes record)) now (bs_ExpiresAt record) (bs_IdleExpiresAt record))
      end
  end.

Definition AuthenticateBootstrap (request : BootstrapAuthenticationRequest) : R BootstrapPrincipal :=
  let ev := event AuditBootstrapAuth in
  match NormalizeOrigin (ba_Origin request) with
  | None => failWithAudit (with_Reason "invalid_origin" ev) ErrOriginMismatch
  | Some origin =>
      let ev := with_Origin origin ev in
      when negb (validateTransactionID (ba_TransactionID request))
        return failWithAudit (with_Reason "invalid_transaction" ev) ErrTransactionMismatch ;;
      when negb (validateBootstrapStateValue (ba_State request))
        return failWithAudit (with_Transaction (ba_TransactionID request) (with_Reason "invalid_state" ev)) ErrStateMismatch ;;
      let asked := with_State (ba_State request) (with_Transaction (ba_TransactionID request) ev) in
      when ba_Route request ==? "" return failWithAudit (with_Reason "route_not_allowed" asked) ErrRouteNotAllowed ;;
      try _ := lock fails failWithAudit (with_Reason "store_unavailable" asked) in
      try state := loadBootstrapState fails failWithAudit (with_Reason "state_unavailable" asked) in
      let digest := credentialDigest (ba_SessionToken request) in
      match find_session (bf_Sessions state) (ba_SessionToken request) with
      | None => failWithAudit (with_Reason "session_not_found" asked) ErrSessionUnauthorized
      | Some record =>
          let* now := currentTime in
          let found := with_State (bs_State record) (with_Transaction (bs_TransactionID record) ev) in
          when expired now (bs_ExpiresAt record) (bs_IdleExpiresAt record)
            return failWithAudit (with_Reason "session_expired" found) ErrCredentialExpired ;;
          when bs_Origin record !=? origin return failWithAudit (with_Reason "origin_mismatch" found) ErrOriginMismatch ;;
          when bs_TransactionID record !=? ba_TransactionID request
            return failWithAudit (with_State (bs_State record) (with_Transaction (ba_TransactionID request)
                     (with_Reason "transaction_mismatch" ev))) ErrTransactionMismatch ;;
          when bs_State record !=? ba_State request
            return failWithAudit (with_State (ba_State request) (with_Transaction (bs_TransactionID record)
                     (with_Reason "state_mismatch" ev))) ErrStateMismatch ;;
          when negb (routeAllowed (bs_AllowedRoutes record) (ba_Route request))
            return failWithAudit (with_Reason "route_not_allowed" found) ErrRouteNotAllowed ;;
          when ba_RequireCSRF request && negb (digestMatches (bs_CSRFDigest record) (ba_CSRFToken request))
            return failWithAudit (with_Reason "csrf_mismatch" found) ErrCSRFMismatch ;;
          when ba_ObserveOnly request return okR (bootstrap_principal record) ;;
          let newIdleExpiry := nextIdleExpiry now (bs_ExpiresAt record) BootstrapSessionIdleTTL in
          when negb (After newIdleExpiry (bs_IdleExpiresAt record)) return okR (bootstrap_principal record) ;;
          let record := bs_with_idle record newIdleExpiry in
          let state := bf_with_sessions state (<[digest := record]> (bf_Sessions state)) in
          try _ := writeBootstrapState state fails failWithAudit (with_Reason "persist_failed" found) in
          okR (bootstrap_principal record)
      end
  end.

Definition RefreshBootstrapSession (request : BootstrapSessionRefreshRequest) : R BootstrapSessionCredential :=
  match NormalizeOrigin (br_Origin request) with
  | None => failR ErrOriginMismatch
  | Some origin =>
      when (br_SessionToken request ==? "") || negb (validateTransactionID (br_TransactionID request)) ||
           negb (validateBootstrapStateValue (br_State request)) || (br_Route request ==? "")
        return failR ErrSessionUnauthorized ;;
      try csrfToken := newCredential fails failR in
      try _ := lock fails failR in
      try state := loadBootstrapState fails failR in
      let digest := credentialDigest (br_SessionToken request) in
      match find_session (bf_Sessions state) (br_SessionToken request) with
      | None => failR ErrSessionUnauthorized
      | Some record =>
          let* now := currentTime in
          when expired now (bs_ExpiresAt record) (bs_IdleExpiresAt record) return failR ErrCredentialExpired ;;
          when bs_Origin record !=? origin return failR ErrOriginMismatch ;;
          when bs_TransactionID record !=? br_TransactionID request return failR ErrTransactionMismatch ;;
          when bs_State record !=? br_State request return failR ErrStateMismatch ;;
          when negb (routeAllowed (bs_AllowedRoutes record) (br_Route request)) return failR ErrRouteNotAllowed ;;
          let record := bs_with_idle (bs_with_csrf record (credentialDigest csrfToken))
                          (nextIdleExpiry now (bs_ExpiresAt record) BootstrapSessionIdleTTL) in
          let state := bf_with_sessions state (<[digest := record]> (bf_Sessions state)) in
          try _ := writeBootstrapState state fails failR in
          okR (mkBootstrapCredential "" csrfToken (bs_TransactionID record) (bs_Origin record) (bs_State record)
                 (cloneRoutes (bs_AllowedRoutes record)) (bs_CreatedAt record) (bs_ExpiresAt record) (bs_IdleExpiresAt record))
      end
  end.

(** A valid state has at most one session, so the loop over the map looks at
    that one. *)
Definition CurrentBootstrapTransaction (expectedState : ConsoleState) : R string :=
  when negb (validateBootstrapStateValue expectedState) return failR ErrStateMismatch ;;
  try _ := lock fails failR in
  try state := loadBootstrapState fails failR in
  let* now := currentTime in
  match bf_Token state with
  | Some token =>
      when tr_State token !=? expectedState return failR ErrStateMismatch ;;
      when negb (Before now (tr_ExpiresAt token)) return failR ErrCredentialExpired ;;
      okR (tr_TransactionID token)
  | None =>
      match map_to_list (bf_Sessions state) with
      | (_, session) :: _ =>
          when bs_State session !=? expectedState return failR ErrStateMismatch ;;
          when expired now (bs_ExpiresAt session) (bs_IdleExpiresAt session) return failR ErrCredentialExpired ;;
          okR (bs_TransactionID session)
      | [] => failR ErrSessionUnauthorized
      end
  end.

(** The state change of [PromoteBootstrapToEnrollment]: [None] when a matching
    credential is not in the bootstrap state, otherwise the new state and
    whether anything matched. *)
Definition promote_candidate (st : bootstrapStateFile) (transactionID : string) (routes : list string)
  : option (bootstrapStateFile * bool) :=
  let matches_token := some_ok (fun t => negb ((tr_TransactionID t ==? transactionID) && (tr_State t !=? StateBootstrap))) (bf_Token st) in
  let matches_sessions :=
    negb (any_value (fun s => (bs_TransactionID s ==? transactionID) && (bs_State s !=? StateBootstrap)) (bf_Sessions st)) in
  if negb (matches_token && matches_sessions) then None
  else
    let token :=
      match bf_Token st with
      | Some t => Some (if tr_TransactionID t ==? transactionID then tr_with_state t StateEnrollment (cloneRoutes routes) else t)
      | None => None
      end in
    let sessions :=
      (fun s => if bs_TransactionID s ==? transactionID then bs_with_state s StateEnrollment (cloneRoutes routes) else s)
        <$> bf_Sessions st in
    let matched :=
      match bf_Token st with Some t => tr_TransactionID t ==? transactionID | None => false end ||
      any_value (fun s => bs_TransactionID s ==? transactionID) (bf_Sessions st) in
    Some (bf_with st token sessions (bf_Handoff st) (bf_EnrollmentSessions st), matched).

Definition PromoteBootstrapToEnrollment (transactionID : string) (allowedRoutes : list string) : R unit :=
  let ev := event AuditBootstrapPromote in
  when negb (validateTransactionID transactionID)
    return failWithAudit (with_Reason "invalid_transaction" ev) ErrTransactionMismatch ;;
  let ev := with_Transaction transactionID ev in
  match normalizeAllowedRoutes allowedRoutes with
  | None => failWithAudit (with_Reason "invalid_routes" ev) EInvalidData
  | Some routes =>
      try _ := lock fails failWithAudit (with_Reason "store_unavailable" ev) in
      try state := loadBootstrapState fails failWithAudit (with_Reason "state_unavailable" ev) in
      match promote_candidate state transactionID routes with
      | None => failWithAudit (with_Reason "state_mismatch" ev) ErrStateMismatch
      | Some (state, matched) =>
          when negb matched return failWithAudit (with_Reason "credential_not_found" ev) ErrSessionUnauthorized ;;
          try _ := recordAudit (with_State StateEnrollment (with_Outcome AuditSuccess ev)) fails failR in
          try _ := writeBootstrapState state fails failWithAudit (with_Reason "persist_failed" ev) in
          okR tt
      end
  end.

(** The state a transaction's credentials are in, as [RevokeBootstrap] reports
    it: the last of the four kinds of credential that matches. *)
Definition credential_state (st : bootstrapStateFile) (transactionID : string) : option ConsoleState :=
  if any_value (fun s => es_TransactionID s ==? transactionID) (bf_EnrollmentSessions st) ||
     match bf_Handoff st with Some h => hr_TransactionID h ==? transactionID | None => false end
  then Some StateEnrollment
  else match filter (fun kv => bs_TransactionID kv.2 = transactionID) (map_to_list (bf_Sessions st)) with
       | (_, s) :: _ => Some (bs_State s)
       | [] =>
           match bf_Token st with
           | Some t => if tr_TransactionID t ==? transactionID then Some (tr_State t) else None
           | None => None
           end
       end.

Definition RevokeBootstrap (transactionID : string) : R unit :=
  let ev := event AuditBootstrapRevoke in
  when negb (validateTransactionID transactionID) return failWithAudit (with_Reason "invalid_request" ev) EInvalidData ;;
  try _ := lock fails failWithAudit (with_Reason "store_unavailable" ev) in
  try state := loadBootstrapState fails failWithAudit (with_Reason "state_unavailable" ev) in
  let ev := with_Transaction transactionID ev in
  match credential_state state transactionID with
  | None => failWithAudit (with_Reason "credential_not_found" ev) ErrInvalidToken
  | Some credentialState =>
      let revokedSessions := Z.of_nat (size (bf_Sessions state) + size (bf_EnrollmentSessions state)) in
      let state := bf_with state None ∅ None ∅ in
      let ev := with_State credentialState ev in
      try _ := recordAudit (with_Revoked false revokedSessions (with_Outcome AuditSuccess ev)) fails failR in
      try _ := writeBootstrapState state fails failWithAudit (with_Reason "persist_failed" ev) in
      okR tt
  end.

End Bootstrap.
