(* ===== verification/AuthEnrollment.v ===== *)
(** * Console authentication: enrollment handoffs

    Package [consoleauth], enrollment.go: the one-time handoff from the plain
    HTTP bootstrap console to the HTTPS enrollment console, and the enrollment
    session it yields. *)

From S2P Require Import Prelude GoText AuthOrigin AuthTypes AuthState AuthStore AuthLocal AuthBootstrap.

Definition EnrollmentHandoffRoute : string := "/api/v1/auth/enrollment/handoffs".
Definition EnrollmentHandoffExchangeRoute : string := "/api/v1/auth/enrollment/exchange".
Definition EnrollmentOwnerRoute : string := "/api/v1/auth/enrollment/owner".

Definition EnrollmentRecoveryRoutePatterns : list string :=
  ["/api/v1/system"; "/api/v1/system/ca"; "/api/v1/auth/session"; "/api/v1/jobs"; "/api/v1/jobs/{id}";
   "/api/v1/jobs/{id}/events"; EnrollmentHandoffRoute].

Definition authenticateBootstrapForHandoff (st : bootstrapStateFile) (now : Time) (request : IssueEnrollmentHandoffRequest)
    (source : string) : result aerr (string * bootstrapSessionRecord) :=
  match find_session (bf_Sessions st) (ih_SessionToken request) with
  | None => Err ErrSessionUnauthorized
  | Some record =>
      reject expired now (bs_ExpiresAt record) (bs_IdleExpiresAt record) with ErrCredentialExpired ;;
      reject bs_State record !=? StateEnrollment with ErrStateMismatch ;;
      reject bs_Origin record !=? source with ErrOriginMismatch ;;
      reject negb (routeAllowed (bs_AllowedRoutes record) EnrollmentHandoffRoute) with ErrRouteNotAllowed ;;
      reject negb (digestMatches (bs_CSRFDigest record) (ih_CSRFToken request)) with ErrCSRFMismatch ;;
      Ok (credentialDigest (ih_SessionToken request), record)
  end.

Definition enrollmentTransaction (st : bootstrapStateFile) : string :=
  match bf_Handoff st with
  | Some h => hr_TransactionID h
  | None => match map_to_list (bf_EnrollmentSessions st) with (_, s) :: _ => es_TransactionID s | [] => "" end
  end.

Section Enrollment.
Context {E : Env}.

Definition IssueEnrollmentHandoff (request : IssueEnrollmentHandoffRequest) : R EnrollmentHandoffCredential :=
  let ev := event AuditHandoffIssue in
  match exactEnrollmentBinding (ih_SourceOrigin request) (ih_TargetOrigin request) (ih_SPKISHA256 request) with
  | None => failWithAudit (with_Reason "invalid_request" ev) ErrHandoffUnauthorized
  | Some (source, target, spki) =>
      when (ih_SessionToken request ==? "") || (ih_CSRFToken request ==? "")
        return failWithAudit (with_Reason "invalid_request" ev) ErrHandoffUnauthorized ;;
      try _ := lock fails failWithAudit (with_Reason "store_unavailable" ev) in
      try state := loadBootstrapState fails failWithAudit (with_Reason "state_unavailable" ev) in
      let* now := currentTime in
      let bound := with_State StateEnrollment (with_TargetOrigin target (with_Origin source ev)) in
      match authenticateBootstrapForHandoff state now request source with
      | Err e => failWithAudit (with_Reason "session_unauthorized" bound) e
      | Ok (sessionDigest, session) =>
          let bound := with_Transaction (bs_TransactionID session) bound in
          when is_some (bf_Handoff state) || negb (size (bf_EnrollmentSessions state) =? 0)%nat || bs_HandoffIssued session
            return failWithAudit (with_Reason "handoff_already_issued" bound) ErrHandoffUnauthorized ;;
          try token := newCredential fails failWithAudit (with_Reason "random_failed" bound) in
          let handoff := mkHandoff (credentialDigest token) (bs_TransactionID session) source target spki now
                           (TimeAdd now EnrollmentHandoffTTL) in
          let state := bf_with state (bf_Token state) (<[sessionDigest := bs_with_handoff session]> (bf_Sessions state))
                         (Some handoff) (bf_EnrollmentSessions state) in
          try _ := recordAudit (with_Outcome AuditSuccess bound) fails failR in
          try _ := writeBootstrapState state fails failWithAudit (with_Reason "persist_failed" bound) in
          okR (mkHandoffCredential token (bs_TransactionID session) source target spki now (TimeAdd now EnrollmentHandoffTTL))
      end
  end.

Definition ExchangeEnrollmentHandoff (request : ExchangeEnrollmentHandoffRequest) : R EnrollmentSessionCredential :=
  let ev := event AuditHandoffExchange in
  match exactEnrollmentBinding (xh_SourceOrigin request) (xh_TargetOrigin request) (xh_SPKISHA256 request) with
  | None => failWithAudit (with_State StateEnrollment (with_Reason "invalid_request" ev)) ErrHandoffUnauthorized
  | Some (source, target, spki) =>
      when xh_Token request ==? ""
        return failWithAudit (with_State StateEnrollment (with_Reason "invalid_request" ev)) ErrHandoffUnauthorized ;;
      try _ := lock fails failWithAudit (with_Reason "store_unavailable" ev) in
      try state := loadBootstrapState fails failWithAudit (with_Reason "state_unavailable" ev) in
      let bound := with_State StateEnrollment (with_TargetOrigin target (with_Origin source ev)) in
      match bf_Handoff state with
      | None => failWithAudit (with_Reason "handoff_not_found" bound) ErrHandoffUnauthorized
      | Some record =>
          when negb (digestMatches (hr_Digest record) (xh_Token request))
            return failWithAudit (with_Reason "handoff_not_found" bound) ErrHandoffUnauthorized ;;
          let bound := with_Transaction (hr_TransactionID record) bound in
          let* now := currentTime in
          when negb (Before now (hr_ExpiresAt record))
            return failWithAudit (with_Reason "handoff_expired" bound) ErrCredentialExpired ;;
          when (hr_SourceOrigin record !=? source) || (hr_TargetOrigin record !=? target) || (hr_SPKISHA256 record !=? spki)
            return failWithAudit (with_Reason "binding_mismatch" bound) ErrHandoffUnauthorized ;;
          try sessionToken := newCredential fails failWithAudit (with_Reason "random_failed" ev) in
          try csrfToken := newCredential fails failWithAudit (with_Reason "random_failed" ev) in
          let session := mkEnrollmentSession (credentialDigest csrfToken) (hr_TransactionID record) target now
                           (TimeAdd now EnrollmentSessionTTL) in
          let state := bf_with state (bf_Token state) (bf_Sessions state) None {[credentialDigest sessionToken := session]} in
          try _ := recordAudit (with_Outcome AuditSuccess bound) fails failR in
          try _ := writeBootstrapState state fails failWithAudit (with_Reason "persist_failed" bound) in
          okR (mkEnrollmentCredential sessionToken csrfToken (hr_TransactionID record) target now (es_ExpiresAt session))
      end
  end.

Definition AuthenticateEnrollment (request : EnrollmentAuthenticationRequest) : R EnrollmentPrincipal :=
  let ev := event AuditEnrollmentAuth in
  match NormalizeOrigin (ea_Origin request) with
  | None => failWithAudit (with_Reason "invalid_origin" ev) ErrOriginMismatch
  | Some origin =>
      when (origin !=? ea_Origin request) || negb (https_origin origin)
        return failWithAudit (with_Reason "invalid_origin" ev) ErrOriginMismatch ;;
      when negb (validateTransactionID (ea_TransactionID request))
        return failWithAudit (with_Origin origin (with_Reason "invalid_transaction" ev)) ErrTransactionMismatch ;;
      when ea_Route request !=? EnrollmentOwnerRoute
        return failWithAudit (with_State StateEnrollment (with_Origin origin (with_Transaction (ea_TransactionID request)
                 (with_Reason "route_not_allowed" ev)))) ErrRouteNotAllowed ;;
      try _ := lock fails failWithAudit (with_Reason "store_unavailable" ev) in
      try state := loadBootstrapState fails failWithAudit (with_Reason "state_unavailable" ev) in
      match find_session (bf_EnrollmentSessions state) (ea_SessionToken request) with
      | None => failWithAudit (with_Reason "session_not_found" ev) ErrSessionUnauthorized
      | Some record =>
          let* now := currentTime in
          when negb (Before now (es_ExpiresAt record))
            return failWithAudit (with_State StateEnrollment (with_Origin origin (with_Transaction (es_TransactionID record)
                     (with_Reason "session_expired" ev)))) ErrCredentialExpired ;;
          when es_Origin record !=? origin return failWithAudit (with_Reason "origin_mismatch" ev) ErrOriginMismatch ;;
          when es_TransactionID record !=? ea_TransactionID request
            return failWithAudit (with_Reason "transaction_mismatch" ev) ErrTransactionMismatch ;;
          when ea_RequireCSRF request && negb (digestMatches (es_CSRFDigest record) (ea_CSRFToken request))
            return failWithAudit (with_Reason "csrf_mismatch" ev) ErrCSRFMismatch ;;
          okR (mkEnrollmentPrincipal (es_TransactionID record) (es_Origin record) (es_CreatedAt record) (es_ExpiresAt record))
      end
  end.

Definition CurrentEnrollmentTransaction : R string :=
  try _ := lock fails failR in
  try state := loadBootstrapState fails failR in
  let* now := currentTime in
  match bf_Handoff state with
  | Some h =>
      when negb (Before now (hr_ExpiresAt h)) return failR ErrCredentialExpired ;;
      okR (hr_TransactionID h)
  | None =>
      match map_to_list (bf_EnrollmentSessions state) with
      | (_, session) :: _ =>
          when negb (Before now (es_ExpiresAt session)) return failR ErrCredentialExpired ;;
          okR (es_TransactionID session)
      | [] => failR ErrSessionUnauthorized
      end
  end.

Definition RevokeEnrollment (transactionID : string) : R unit :=
  let ev := event AuditEnrollmentRevoke in
  when negb (validateTransactionID transactionID)
    return failWithAudit (with_Reason "invalid_request" ev) ErrTransactionMismatch ;;
  try _ := lock fails failWithAudit (with_Reason "store_unavailable" ev) in
  try state := loadBootstrapState fails failWithAudit (with_Reason "state_unavailable" ev) in
  let bound := with_Transaction transactionID ev in
  when enrollmentTransaction state !=? transactionID
    return failWithAudit (with_Reason "credential_not_found" bound) ErrSessionUnauthorized ;;
  let revoked := Z.of_nat (size (bf_EnrollmentSessions state)) in
  let state := bf_with state (bf_Token state) (bf_Sessions state) None ∅ in
  try _ := recordAudit (with_Revoked false revoked (with_State StateEnrollment (with_Outcome AuditSuccess bound))) fails failR in
  try _ := writeBootstrapState state fails failWithAudit (with_Reason "persist_failed" bound) in
  okR tt.

End Enrollment.
