(* ===== verification/AuthProxy.v ===== *)
(** * Console authentication: trusted-proxy identities, job owners and cookies

    Package [consoleauth], proxy.go, job_owner.go and cookie.go. *)

From Stdlib Require Import Ascii.
From S2P Require Import Prelude GoText GoEncoding GoNet AuthOrigin AuthTypes AuthState AuthStore AuthLocal.

Definition proxySessionMatchesIdentity (r : proxySessionRecord) (i : ProxyIdentity) : bool :=
  (xs_Issuer r ==? pi_Issuer i) && (xs_Subject r ==? pi_Subject i) && (xs_SemanticRole r ==? pi_SemanticRole i) &&
  (xs_DirectoryGroup r ==? pi_DirectoryGroup i).

Definition proxy_session_live (now : Time) (s : proxySessionRecord) : bool :=
  negb (expired now (xs_ExpiresAt s) (xs_IdleExpiresAt s)).

(** Expired sessions go with their proofs, then expired proofs. *)
Definition pruneProxyState (now : Time) (st : proxyStateFile) : proxyStateFile :=
  mkProxyState (pf_APIVersion st)
    (filter (fun kv => proxy_session_live now kv.2 = true) (pf_Sessions st))
    (filter (fun kv => some_ok (proxy_session_live now) (pf_Sessions st !! xr_SessionDigest kv.2) &&
                       Before now (xr_ExpiresAt kv.2) = true) (pf_StepUps st)).

Definition proxyAuditEvent (action : AuditAction) (i : ProxyIdentity) (origin : string) : AuditEvent :=
  with_Identity (pi_Issuer i) (pi_Subject i) (pi_SemanticRole i) (pi_DirectoryGroup i) (with_Origin origin (event action)).

(** The earliest of the times that are set. *)
Definition earlierTime (values : list Time) : Time :=
  fold_left (fun result value =>
    if IsZero value then result
    else if IsZero result || Before value result then value else result) values 0.

Definition xs_with_idle (r : proxySessionRecord) (idle : Time) : proxySessionRecord :=
  mkProxySession (xs_CSRFDigest r) (xs_Origin r) (xs_Issuer r) (xs_Subject r) (xs_SemanticRole r) (xs_DirectoryGroup r)
    (xs_CreatedAt r) (xs_ExpiresAt r) idle.
Definition xs_with_csrf (r : proxySessionRecord) (digest : string) : proxySessionRecord :=
  mkProxySession digest (xs_Origin r) (xs_Issuer r) (xs_Subject r) (xs_SemanticRole r) (xs_DirectoryGroup r)
    (xs_CreatedAt r) (xs_ExpiresAt r) (xs_IdleExpiresAt r).

Section Proxy.
Context {E : Env}.

(** The session a refresh request continues, if any. *)
Definition refreshed_session (now : Time) (origin : string) (st : proxyStateFile) (request : ProxySessionRefreshRequest)
  : option proxySessionRecord :=
  if pr_SessionToken request ==? "" then None
  else match find_session (pf_Sessions st) (pr_SessionToken request) with
       | Some existing =>
           if proxySessionMatchesIdentity existing (pr_Identity request) && (xs_Origin existing ==? origin) &&
              Before now (xs_ExpiresAt existing) && Before now (xs_IdleExpiresAt existing)
           then Some existing else None
       | None => None
       end.

(** The common end of [RefreshProxySession]: rotate the CSRF token, extend the
    idle expiry, persist. *)
Definition finish_proxy_refresh (now : Time) (origin : string) (auditEvent : AuditEvent) (request : ProxySessionRefreshRequest)
    (state : proxyStateFile) (token csrfToken : string) (record : proxySessionRecord) : R ProxySessionCredential :=
  let record := xs_with_csrf record (credentialDigest csrfToken) in
  let record := xs_with_idle record (nextIdleExpiry now (xs_ExpiresAt record) ProxySessionIdleTTL) in
  let state := mkProxyState (pf_APIVersion state) (<[credentialDigest token := record]> (pf_Sessions state)) (pf_StepUps state) in
  try _ := recordAudit (withAuditOutcome auditEvent AuditSuccess) fails failR in
  try _ := writeProxyState state fails failWithAudit (withAuditReason auditEvent "persist_failed") in
  okR (mkProxyCredential token csrfToken origin (pr_Identity request) (xs_CreatedAt record) (xs_ExpiresAt record)
         (xs_IdleExpiresAt record)).

Definition RefreshProxySession (request : ProxySessionRefreshRequest) : R ProxySessionCredential :=
  let normalized := NormalizeOrigin (pr_Origin request) in
  let origin := default "" normalized in
  let identity := pr_Identity request in
  let auditEvent := proxyAuditEvent AuditProxySession identity origin in
  when negb (is_some normalized) || negb (validateProxyIdentity identity)
    return failWithAudit (withAuditReason auditEvent "invalid_identity") ErrSessionUnauthorized ;;
  let* now := currentTime in
  when negb (After (pi_ExpiresAt identity) now)
    return failWithAudit (withAuditReason auditEvent "identity_expired") ErrCredentialExpired ;;
  try csrfToken := newCredential fails failWithAudit (withAuditReason auditEvent "random_failed") in
  try _ := lock fails failWithAudit (withAuditReason auditEvent "store_unavailable") in
  try state := loadProxyState fails failWithAudit (withAuditReason auditEvent "state_unavailable") in
  let state := pruneProxyState now state in
  match refreshed_session now origin state request with
  | Some record => finish_proxy_refresh now origin auditEvent request state (pr_SessionToken request) csrfToken record
  | None =>
      when (maximumLocalSessions <=? size (pf_Sessions state))%nat
        return failWithAudit (withAuditReason auditEvent "session_capacity") ErrSessionUnauthorized ;;
      try token := newCredential fails failWithAudit (withAuditReason auditEvent "random_failed") in
      let expiresAt := earlierTime [TimeAdd now ProxySessionAbsoluteTTL; pi_ExpiresAt identity] in
      let record := mkProxySession "" origin (pi_Issuer identity) (pi_Subject identity) (pi_SemanticRole identity)
                      (pi_DirectoryGroup identity) now expiresAt 0 in
      finish_proxy_refresh now origin auditEvent request state token csrfToken record
  end.

Definition AuthenticateProxy (request : ProxyAuthenticationRequest) : R ProxyPrincipal :=
  match NormalizeOrigin (pa_Origin request) with
  | None => failR ErrSessionUnauthorized
  | Some origin =>
      when negb (validateProxyIdentity (pa_Identity request)) || (pa_SessionToken request ==? "")
        return failR ErrSessionUnauthorized ;;
      try _ := lock fails failR in
      try state := loadProxyState fails failR in
      let* now := currentTime in
      let digest := credentialDigest (pa_SessionToken request) in
      let principal record := mkProxyPrincipal digest origin (pa_Identity request) (xs_CreatedAt record) (xs_ExpiresAt record)
                                (xs_IdleExpiresAt record) in
      match find_session (pf_Sessions state) (pa_SessionToken request) with
      | None => failR ErrSessionUnauthorized
      | Some record =>
          when negb (proxySessionMatchesIdentity record (pa_Identity request)) || (xs_Origin record !=? origin)
            return failR ErrSessionUnauthorized ;;
          when expired now (xs_ExpiresAt record) (xs_IdleExpiresAt record) ||
               negb (Before now (pi_ExpiresAt (pa_Identity request))) return failR ErrCredentialExpired ;;
          when pa_RequireCSRF request && negb (digestMatches (xs_CSRFDigest record) (pa_CSRFToken request))
            return failR ErrCSRFMismatch ;;
          when pa_ObserveOnly request return okR (principal record) ;;
          let idle := nextIdleExpiry now (xs_ExpiresAt record) ProxySessionIdleTTL in
          when negb (After idle (xs_IdleExpiresAt record)) return okR (principal record) ;;
          let record := xs_with_idle record idle in
          let state := mkProxyState (pf_APIVersion state) (<[digest := record]> (pf_Sessions state)) (pf_StepUps state) in
          try _ := writeProxyState state fails failR in
          okR (principal record)
      end
  end.

Definition IssueProxyStepUp (request : ProxyStepUpRequest) : R LocalStepUpCredential :=
  let normalized := NormalizeOrigin (ps_Origin request) in
  let origin := default "" normalized in
  let identity := ps_Identity request in
  let auditEvent := with_Target (ps_Action request) (ps_WorkspaceID request) (ps_TargetID request)
                      (proxyAuditEvent AuditProxyStepUp identity origin) in
  when negb (is_some normalized) || negb (validateProxyIdentity identity) ||
       negb (validateLocalStepUpBinding (ps_Action request) (ps_WorkspaceID request) (ps_TargetID request)
                                        (ps_StateDigest request))
    return failWithAudit (withAuditReason auditEvent "invalid_request") ErrStepUpUnauthorized ;;
  try _ := lock fails failWithAudit (withAuditReason auditEvent "store_unavailable") in
  try state := loadProxyState fails failWithAudit (withAuditReason auditEvent "state_unavailable") in
  let* now := currentTime in
  let sessionDigest := credentialDigest (ps_SessionToken request) in
  match find_session (pf_Sessions state) (ps_SessionToken request) with
  | None => failWithAudit (withAuditReason auditEvent "session_not_found") ErrSessionUnauthorized
  | Some session =>
      when negb (proxySessionMatchesIdentity session identity) || (xs_Origin session !=? origin)
        return failWithAudit (withAuditReason auditEvent "session_not_found") ErrSessionUnauthorized ;;
      when expired now (xs_ExpiresAt session) (xs_IdleExpiresAt session) || negb (Before now (pi_ExpiresAt identity))
        return failWithAudit (withAuditReason auditEvent "session_expired") ErrCredentialExpired ;;
      when negb (digestMatches (xs_CSRFDigest session) (ps_CSRFToken request))
        return failWithAudit (withAuditReason auditEvent "csrf_mismatch") ErrCSRFMismatch ;;
      when After (pi_AuthenticatedAt identity) (TimeAdd now minute) ||
           (ProxyRecentAuthenticationTTL <? TimeSub now (pi_AuthenticatedAt identity))
        return failWithAudit (withAuditReason auditEvent "recent_auth_required") ErrStepUpUnauthorized ;;
      let state := pruneProxyState now state in
      when (maximumLocalSessions <=? size (pf_StepUps state))%nat
        return failWithAudit (withAuditReason auditEvent "step_up_capacity") ErrStepUpUnauthorized ;;
      try random := newCredential fails failWithAudit (withAuditReason auditEvent "random_failed") in
      let token := stepUpToken random in
      let digest := credentialDigest token in
      let expiresAt := earlierTime [TimeAdd now LocalStepUpTTL; TimeAdd (pi_AuthenticatedAt identity) ProxyRecentAuthenticationTTL;
                                    xs_ExpiresAt session; pi_ExpiresAt identity] in
      let record := mkProxyStepUpRecord sessionDigest (pi_AssertionDigest identity) (ps_Action request) (ps_WorkspaceID request)
                      (ps_TargetID request) (ps_StateDigest request) now expiresAt in
      let state := mkProxyState (pf_APIVersion state) (pf_Sessions state) (<[digest := record]> (pf_StepUps state)) in
      try _ := recordAudit (withAuditOutcome auditEvent AuditSuccess) fails failR in
      try _ := writeProxyState state fails failWithAudit (withAuditReason auditEvent "persist_failed") in
      okR (mkStepUpCredential token digest sessionDigest (xr_Action record) (xr_WorkspaceID record) (xr_TargetID record)
             (xr_StateDigest record) (xr_CreatedAt record) (xr_ExpiresAt record))
  end.

Definition proxy_step_up_matches (now : Time) (request : ProxyStepUpAuthenticationRequest) (r : proxyStepUpRecord) : bool :=
  negb (negb (Before now (xr_ExpiresAt r)) || (xr_SessionDigest r !=? credentialDigest (px_SessionToken request)) ||
        (xr_AssertionDigest r !=? pi_AssertionDigest (px_Identity request)) || (xr_Action r !=? px_Action request) ||
        (xr_WorkspaceID r !=? px_WorkspaceID request) || (xr_TargetID r !=? px_TargetID request) ||
        (xr_StateDigest r !=? px_StateDigest request)).

Definition proxy_step_up_binding (digest : string) (r : proxyStepUpRecord) : LocalStepUpBinding :=
  mkStepUpBinding digest (xr_SessionDigest r) (xr_Action r) (xr_WorkspaceID r) (xr_TargetID r) (xr_StateDigest r)
    (xr_CreatedAt r) (xr_ExpiresAt r).

Definition observe_proxy (request : ProxyStepUpAuthenticationRequest) : ProxyAuthenticationRequest :=
  mkProxyAuth (px_SessionToken request) "" (px_Origin request) (px_Identity request) false true.

(** Both proof operations authenticate the session under one lock and look the
    proof up under a second one; [between] is whatever other processes do while
    the lock is free.  The time is only read for a proof that exists. *)
Definition AuthenticateProxyStepUp (between : M unit) (request : ProxyStepUpAuthenticationRequest) : R LocalStepUpBinding :=
  try _ := AuthenticateProxy (observe_proxy request) fails failR in
  when negb (validateLocalStepUpBinding (px_Action request) (px_WorkspaceID request) (px_TargetID request)
                                        (px_StateDigest request)) return failR ErrStepUpUnauthorized ;;
  between ;;*
  try _ := lock fails failR in
  try state := loadProxyState fails failR in
  match find_session (pf_StepUps state) (px_Token request) with
  | None => failR ErrStepUpUnauthorized
  | Some record =>
      let* now := currentTime in
      when negb (proxy_step_up_matches now request record) return failR ErrStepUpUnauthorized ;;
      okR (proxy_step_up_binding (credentialDigest (px_Token request)) record)
  end.

Definition ConsumeProxyStepUp (between : M unit) (request : ProxyStepUpAuthenticationRequest) : R LocalStepUpBinding :=
  try _ := AuthenticateProxy (observe_proxy request) fails failR in
  when negb (validateLocalStepUpBinding (px_Action request) (px_WorkspaceID request) (px_TargetID request)
                                        (px_StateDigest request)) return failR ErrStepUpUnauthorized ;;
  between ;;*
  try _ := lock fails failR in
  try state := loadProxyState fails failR in
  let digest := credentialDigest (px_Token request) in
  match find_session (pf_StepUps state) (px_Token request) with
  | None => failR ErrStepUpUnauthorized
  | Some record =>
      let* now := currentTime in
      when negb (proxy_step_up_matches now request record) return failR ErrStepUpUnauthorized ;;
      let state := mkProxyState (pf_APIVersion state) (pf_Sessions state) (delete digest (pf_StepUps state)) in
      try _ := writeProxyState state fails failR in
      okR (proxy_step_up_binding digest record)
  end.

(** ** The owner of a running job *)

Definition ctx_Err : R unit := let* ok := ask e_context in if ok then okR tt else failR EUnavailable.

Definition actor_of (issuer subject : string) : string := "oidc:" +:+ sha256_hex (issuer +:+ String "000" subject).

Definition live_job_owner (now : Time) (actor issuer group : string) (r : proxySessionRecord) : bool :=
  negb ((xs_Issuer r !=? issuer) || (xs_DirectoryGroup r !=? group) || (xs_SemanticRole r !=? "platform_admin") ||
        negb (Before now (xs_ExpiresAt r)) || negb (Before now (xs_IdleExpiresAt r))) &&
  (actor ==? actor_of (xs_Issuer r) (xs_Subject r)).

(** [currentState] is the provider of the store's options, [None] when unset. *)
Definition CheckJobOwner (currentState : option (R ConsoleState)) (actor issuer group : string) : R unit :=
  try _ := ctx_Err fails (fun _ => failR ErrSessionUnauthorized) in
  match currentState with
  | None => failR ErrSessionUnauthorized
  | Some current =>
      try state := current fails (fun _ => failR ErrSessionUnauthorized) in
      when state !=? StateFull return failR ErrSessionUnauthorized ;;
      try _ := lock fails (fun _ => failR ErrSessionUnauthorized) in
      if actor ==? "local-owner" then
        try local := loadLocalState fails (fun _ => failR ErrSessionUnauthorized) in
        when lf_OwnerPasswordPHC local ==? "" return failR ErrSessionUnauthorized ;;
        ctx_Err
      else
        when (issuer ==? "") || (group ==? "") ||
             match CutPrefix actor "oidc:" with Some d => negb (validateDigest d) | None => true end
          return failR ErrSessionUnauthorized ;;
        try proxy := loadProxyState fails (fun _ => failR ErrSessionUnauthorized) in
        let* now := currentTime in
        if any_value (live_job_owner now actor issuer group) (pf_Sessions proxy) then ctx_Err
        else failR ErrSessionUnauthorized
  end.

End Proxy.

(** ** Cookies *)

Definition BootstrapSessionCookieName : string := "anas_bootstrap_session".
Definition EnrollmentSessionCookieName : string := "__Host-anas_enrollment_session".
Definition EnrollmentCSRFCookieName : string := "__Host-anas_enrollment_csrf".
Definition LocalSessionCookieName : string := "__Host-anas_local_session".
Definition ProxySessionCookieName : string := "__Host-anas_proxy_session".

Record Cookie := mkCookie {
  ck_Name : string; ck_Value : string; ck_Path : string; ck_Domain : string; ck_Expires : Time; ck_MaxAge : Z;
  ck_HttpOnly : bool; ck_Secure : bool; ck_SameSiteStrict : bool }.

Definition cookieNamePattern (s : string) : bool :=
  negb (is_empty s) && sall (fun c => alnum_byte c || one_of "!#$%&'*+-.^_`|~" c) s.
Definition cookieValuePattern (s : string) : bool := negb (is_empty s) && sall (fun c => alnum_byte c || one_of "_-" c) s.

Definition cookieSecure (state : ConsoleState) : option bool :=
  if state ==? StateBootstrap then Some false
  else if (state ==? StateEnrollment) || (state ==? StateFull) then Some true
  else None.

Definition secure_prefix (name : string) : bool := HasPrefix name "__Host-" || HasPrefix name "__Secure-".

Definition SessionCookie (name value : string) (state : ConsoleState) (expiresAt : Time) : result aerr Cookie :=
  reject negb (cookieNamePattern name) || negb (cookieValuePattern value) || IsZero expiresAt with EInvalidData ;;
  match cookieSecure state with
  | None => Err EInvalidData
  | Some secure =>
      reject negb secure && secure_prefix name with EInvalidData ;;
      Ok (mkCookie name value "/" "" expiresAt 0 true secure true)
  end.

(** [time.Unix(1, 0)], in nanoseconds after the zero time. *)
Definition unix_epoch_plus_1 : Time := 62135596801 * second.

Definition ExpiredSessionCookie (name : string) (state : ConsoleState) : result aerr Cookie :=
  reject negb (cookieNamePattern name) with EInvalidData ;;
  match cookieSecure state with
  | None => Err EInvalidData
  | Some secure =>
      reject negb secure && secure_prefix name with EInvalidData ;;
      Ok (mkCookie name "" "/" "" unix_epoch_plus_1 (-1) true secure true)
  end.

Definition EnrollmentCSRFCookie (value : string) (expiresAt : Time) : result aerr Cookie :=
  reject negb (cookieValuePattern value) || IsZero expiresAt with EInvalidData ;;
  Ok (mkCookie EnrollmentCSRFCookieName value "/" "" expiresAt 0 false true true).

Definition ExpiredEnrollmentCSRFCookie : Cookie :=
  mkCookie EnrollmentCSRFCookieName "" "/" "" unix_epoch_plus_1 (-1) false true true.
