(* ===== verification/AuthCapability.v ===== *)
(** * Console capability state

    Package [internal/consolestate]: the persisted capability of the console,
    which only moves forward from bootstrap to enrollment to full.  It lives in
    the same world as the authentication files; its lock file also tells an
    initialised store from a new one. *)

From Stdlib Require Import Ascii.
From S2P Require Import Prelude GoText GoNet AuthTypes AuthStore.

Definition capabilityAPIVersion : string := "anas.console-state/v1".
Definition ReasonBootstrapCompleted : string := "bootstrap_completed".
Definition ReasonOwnerEnrolled : string := "owner_enrolled".

Definition validState (state : ConsoleState) : bool :=
  (state ==? StateBootstrap) || (state ==? StateEnrollment) || (state ==? StateFull).

Definition validateStateFile (record : stateFile) : bool :=
  (sf_APIVersion record ==? capabilityAPIVersion) && validState (sf_State record).

Definition transitionReason (from to : ConsoleState) : option string :=
  if (from ==? StateBootstrap) && (to ==? StateEnrollment) then Some ReasonBootstrapCompleted
  else if (from ==? StateEnrollment) && (to ==? StateFull) then Some ReasonOwnerEnrolled
  else None.

(** [actorPattern]. *)
Definition actorPattern (value : string) : bool :=
  match value with
  | EmptyString => false
  | String a r => alnum_byte a && sall (fun c => alnum_byte c || one_of "._:@/-" c) r && (slen r <=? 127)
  end.

Section Capability.
Context {E : Env}.

(** [acquireStateLock]: whether the lock file was created.  A lock that cannot
    be taken may still have been created. *)
Definition acquireStateLock : R bool :=
  let* existed := with_world w_stateLock in
  let* c := ask e_change in
  if existed then
    match c with Changed => okR false | _ => failR EUnavailable end
  else
    match c with
    | Changed => update (w_set_stateLock true) ;;* okR true
    | Unchanged => failR EUnavailable
    | ChangedWithError => update (w_set_stateLock true) ;;* failR EUnavailable
    end.

(** [writeStateFile]: a failure after the rename leaves the new state. *)
Definition writeState (record : stateFile) : R unit :=
  when negb (validateStateFile record) return failR EInvalidData ;;
  writeJSONFile w_set_capability record.

Definition readValidState : R ConsoleState :=
  try f := readJSONFile w_capability fails (fun _ => failR EUnavailable) in
  match f with
  | None => failR EUnavailable
  | Some record => if validateStateFile record then okR (sf_State record) else failR EUnavailable
  end.

(** [Open]: the state is created only together with the lock file. *)
Definition Open : R unit :=
  try lockCreated := acquireStateLock fails failR in
  try f := readJSONFile w_capability fails (fun _ => failR EUnavailable) in
  match f with
  | Some record => if validateStateFile record then okR tt else failR EUnavailable
  | None =>
      when negb lockCreated return failR EUnavailable ;;
      try _ := writeState (mkStateFile capabilityAPIVersion StateBootstrap) fails (fun _ => failR EUnavailable) in
      okR tt
  end.

Definition Current : R ConsoleState :=
  try _ := acquireStateLock fails failR in
  readValidState.

Definition RecordTransition (ev : TransitionEvent) : R unit :=
  let* ok := ask e_audit in
  if ok then update (w_add_transition ev) ;;* okR tt else failR ErrAuditUnavailable.

Definition Transition (to : ConsoleState) (actor : string) : R ConsoleState :=
  when negb (actorPattern actor) return failR EInvalidData ;;
  when negb (validState to) return failR EInvalidData ;;
  try _ := acquireStateLock fails failR in
  try current := readValidState fails failR in
  match transitionReason current to with
  | None => failR EInvalidData
  | Some reason =>
      try _ := RecordTransition (mkTransition current to actor reason) fails failR in
      try _ := writeState (mkStateFile capabilityAPIVersion to) fails (fun _ => failR EUnavailable) in
      okR to
  end.

(** [authCapabilityState] of cmd/anasd. *)
Definition authCapabilityState (state : ConsoleState) : result aerr ConsoleState :=
  if validState state then Ok state else Err EInvalidData.

(** The state provider cmd/anasd gives to the authentication store. *)
Definition currentAuthState : R ConsoleState :=
  try state := Current fails failR in
  ret (authCapabilityState state).

End Capability.
