(* ===== verification/AuthCommit.v ===== *)
(** * Console authentication: commit protocols

    Package [consoleauth], enrollment_transition.go and owner_enrollment.go.
    The move to enrollment and the creation of the owner each change two
    authentication files and the capability state.  Each writes a journal with
    the previous and the next authentication state, writes the next state,
    publishes the capability state, and removes the journal; recovery decides by
    the capability state which of the two to keep. *)

From S2P Require Import Prelude GoText AuthOrigin AuthTypes AuthState AuthStore AuthLocal AuthBootstrap AuthProxy.

Definition enrollmentCommitAPIVersion : string := "anas.console-auth-bootstrap-enrollment-commit/v1".
Definition enrollmentCommitPrepared : string := "prepared".
Definition enrollmentCommitAuthReady : string := "auth_committed".
Definition ownerCommitAPIVersion : string := "anas.console-auth-owner-commit/v1".
Definition ownerCommitPrepared : string := "prepared".
Definition ownerCommitAuthReady : string := "auth_committed".

(** ** Snapshots and journals *)

Definition validateAuthenticationSnapshot (s : authenticationSnapshot) : bool :=
  validateBootstrapState (sn_Bootstrap s) && validateLocalState (sn_Local s) &&
  negb (negb (sn_BootstrapExisted s) && (sn_Bootstrap s !=? newBootstrapState)) &&
  negb (negb (sn_LocalExisted s) && (sn_Local s !=? newLocalState)).

(** Cloning keeps every value. *)
Definition cloneBootstrapState (st : bootstrapStateFile) : bootstrapStateFile := st.
Definition cloneLocalState (st : localStateFile) : localStateFile := st.
Definition cloneAuthenticationSnapshot (s : authenticationSnapshot) : authenticationSnapshot :=
  mkSnapshot (cloneBootstrapState (sn_Bootstrap s)) (sn_BootstrapExisted s) (cloneLocalState (sn_Local s)) (sn_LocalExisted s).

(** One credential of the candidate: it must belong to the transaction and be in
    the bootstrap state. *)
Definition candidate_check (transactionID credential : string) (state : ConsoleState) : result aerr unit :=
  reject credential !=? transactionID with ErrTransactionMismatch ;;
  reject state !=? StateBootstrap with ErrStateMismatch ;;
  Ok tt.

Definition enrollmentAuthenticationCandidate (previous : authenticationSnapshot) (transactionID : string) (routes : list string)
  : result aerr authenticationSnapshot :=
  reject (lf_OwnerPasswordPHC (sn_Local previous) !=? "") || negb (size (lf_Sessions (sn_Local previous)) =? 0)%nat
    with ErrStateMismatch ;;
  let next := cloneAuthenticationSnapshot previous in
  let b := sn_Bootstrap next in
  do! match bf_Token b with
      | Some t => candidate_check transactionID (tr_TransactionID t) (tr_State t)
      | None => Ok tt
      end ;;
  do! check_all (fun kv => candidate_check transactionID (bs_TransactionID kv.2) (bs_State kv.2)) (map_to_list (bf_Sessions b)) ;;
  let token := match bf_Token b with
               | Some t => Some (tr_with_state t StateEnrollment (cloneRoutes routes))
               | None => None
               end in
  let sessions := (fun s => bs_with_state s StateEnrollment (cloneRoutes routes)) <$> bf_Sessions b in
  Ok (mkSnapshot (bf_with b token sessions (bf_Handoff b) (bf_EnrollmentSessions b)) (sn_BootstrapExisted next)
                 (sn_Local next) (sn_LocalExisted next)).

Definition validateEnrollmentCommitJournal (j : enrollmentCommitJournal) : bool :=
  (ej_APIVersion j ==? enrollmentCommitAPIVersion) &&
  ((ej_Phase j ==? enrollmentCommitPrepared) || (ej_Phase j ==? enrollmentCommitAuthReady)) &&
  validateTransactionID (ej_TransactionID j) &&
  match normalizeAllowedRoutes (ej_RecoveryRoutes j) with
  | None => false
  | Some routes =>
      validateAuthenticationSnapshot (ej_Previous j) && validateAuthenticationSnapshot (ej_Next j) &&
      match enrollmentAuthenticationCandidate (ej_Previous j) (ej_TransactionID j) routes with
      | Ok expected => ej_Next j ==? expected
      | Err _ => false
      end
  end.

Definition validateOwnerCommitJournal (j : ownerCommitJournal) : bool :=
  (oj_APIVersion j ==? ownerCommitAPIVersion) &&
  ((oj_Phase j ==? ownerCommitPrepared) || (oj_Phase j ==? ownerCommitAuthReady)) &&
  validateTransactionID (oj_TransactionID j) &&
  validateAuthenticationSnapshot (oj_Previous j) && validateAuthenticationSnapshot (oj_Next j) &&
  (sn_BootstrapExisted (oj_Next j) && sn_LocalExisted (oj_Next j)) &&
  negb ((lf_OwnerPasswordPHC (sn_Local (oj_Previous j)) !=? "") || negb (size (lf_Sessions (sn_Local (oj_Previous j))) =? 0)%nat) &&
  any_value (fun s => es_TransactionID s ==? oj_TransactionID j) (bf_EnrollmentSessions (sn_Bootstrap (oj_Previous j))) &&
  let b := sn_Bootstrap (oj_Next j) in
  let l := sn_Local (oj_Next j) in
  negb ((lf_OwnerPasswordPHC l ==? "") || is_some (bf_Token b) || negb (size (bf_Sessions b) =? 0)%nat ||
        is_some (bf_Handoff b) || negb (size (bf_EnrollmentSessions b) =? 0)%nat || negb (size (lf_Sessions l) =? 0)%nat).

Definition ej_with_phase (j : enrollmentCommitJournal) (phase : string) : enrollmentCommitJournal :=
  mkEnrollmentCommit (ej_APIVersion j) phase (ej_TransactionID j) (ej_RecoveryRoutes j) (ej_Previous j) (ej_Next j).
Definition oj_with_phase (j : ownerCommitJournal) (phase : string) : ownerCommitJournal :=
  mkOwnerCommit (oj_APIVersion j) phase (oj_TransactionID j) (oj_Previous j) (oj_Next j).

Definition authenticateEnrollmentSnapshot (st : bootstrapStateFile) (now : Time) (request : CompleteInitialOwnerRequest)
    (origin : string) : result aerr unit :=
  match find_session (bf_EnrollmentSessions st) (co_SessionToken request) with
  | None => Err ErrSessionUnauthorized
  | Some record =>
      reject negb (Before now (es_ExpiresAt record)) with ErrCredentialExpired ;;
      reject es_Origin record !=? origin with ErrOriginMismatch ;;
      reject es_TransactionID record !=? co_TransactionID request with ErrTransactionMismatch ;;
      reject negb (digestMatches (es_CSRFDigest record) (co_CSRFToken request)) with ErrCSRFMismatch ;;
      Ok tt
  end.

Section Commit.
Context {E : Env} {A : Argon2}.
(** [StoreOptions.CurrentState]. *)
Variable currentState : option (R ConsoleState).

Definition loadAuthenticationSnapshot : R authenticationSnapshot :=
  try b := loadBootstrapStateWithExistence fails failR in
  try l := loadLocalStateWithExistence fails failR in
  okR (mkSnapshot b.1 b.2 l.1 l.2).

(** [os.Remove] of a file the snapshot does not have; a missing file is fine. *)
Definition removeAbsent {F} (get : World -> file F) (set : file F -> World -> World) : R unit :=
  let* f := with_world get in
  let* c := ask e_change in
  match f, c with
  | Absent, Unchanged => failR EUnavailable
  | Absent, _ => okR tt
  | _, Changed => update (set Absent) ;;* okR tt
  | _, _ => failR EUnavailable
  end.

Definition syncDirectory : R unit := let* ok := ask e_sync in if ok then okR tt else failR EUnavailable.

Definition writeAuthenticationSnapshot (s : authenticationSnapshot) : R unit :=
  when negb (validateAuthenticationSnapshot s) return failR EInvalidData ;;
  try _ := (if sn_BootstrapExisted s then writeBootstrapState (sn_Bootstrap s) else removeAbsent w_bootstrap w_set_bootstrap)
    fails failR in
  try _ := (if sn_LocalExisted s then writeLocalState (sn_Local s) else removeAbsent w_local w_set_local) fails failR in
  syncDirectory.

Definition writeEnrollmentCommitJournal (j : enrollmentCommitJournal) : R unit :=
  when negb (validateEnrollmentCommitJournal j) return failR EInvalidData ;;
  writeJSONFile w_set_enrollmentCommit j.
Definition loadEnrollmentCommitJournal : R (option enrollmentCommitJournal) :=
  try f := readJSONFile w_enrollmentCommit fails failR in
  match f with
  | None => okR None
  | Some j => if validateEnrollmentCommitJournal j then okR (Some j) else failR EInvalidData
  end.
Definition removeEnrollmentCommitJournal : R unit := removePrivateFile w_enrollmentCommit w_set_enrollmentCommit.

Definition writeOwnerCommitJournal (j : ownerCommitJournal) : R unit :=
  when negb (validateOwnerCommitJournal j) return failR EInvalidData ;;
  writeJSONFile w_set_ownerCommit j.
Definition loadOwnerCommitJournal : R (option ownerCommitJournal) :=
  try f := readJSONFile w_ownerCommit fails failR in
  match f with
  | None => okR None
  | Some j => if validateOwnerCommitJournal j then okR (Some j) else failR EInvalidData
  end.
Definition removeOwnerCommitJournal : R unit := removePrivateFile w_ownerCommit w_set_ownerCommit.

(** The test hooks of both protocols; an absent hook always succeeds. *)
Definition enrollmentCommitStep (step : string) : R unit := let* ok := ask e_hook in if ok then okR tt else failR EUnavailable.
Definition ownerCommitStep (step : string) : R unit := let* ok := ask e_hook in if ok then okR tt else failR EUnavailable.

(** ** Bootstrap to enrollment *)

Definition auditDeferredEnrollmentCleanup (j : enrollmentCommitJournal) : M unit :=
  recordAudit (with_State StateEnrollment (with_Transaction (ej_TransactionID j) (with_Reason "cleanup_deferred"
    (with_Outcome AuditFailure (event AuditBootstrapRecover))))) ;;* ret tt.

Definition rollbackEnrollmentCommit (j : enrollmentCommitJournal) (operationErr : aerr) : R unit :=
  try _ := recordAudit (with_State StateEnrollment (with_Transaction (ej_TransactionID j)
             (with_Reason "transaction_rolled_back" (with_Outcome AuditFailure (event AuditBootstrapPromote)))))
    fails (fun e => failR (EJoin [operationErr; e; ErrRecoveryRequired])) in
  try _ := writeAuthenticationSnapshot (ej_Previous j)
    fails (fun e => failR (EJoin [operationErr; e; ErrRecoveryRequired])) in
  try _ := removeEnrollmentCommitJournal fails (fun e => failR (EJoin [operationErr; e; ErrRecoveryRequired])) in
  failR operationErr.

(** After an ambiguous publish the capability state decides. *)
Definition resolveEnrollmentTransitionError (j : enrollmentCommitJournal) (operationErr : aerr) : R unit :=
  match currentState with
  | None => failR (EJoin [operationErr; ErrRecoveryRequired])
  | Some current =>
      try state := current fails (fun e => failR (EJoin [operationErr; ErrRecoveryRequired; e])) in
      if state ==? StateBootstrap then rollbackEnrollmentCommit j operationErr
      else if (state ==? StateEnrollment) || (state ==? StateFull) then
        try _ := removeEnrollmentCommitJournal fails (fun _ => auditDeferredEnrollmentCleanup j ;;* okR tt) in
        okR tt
      else failR (EJoin [operationErr; ErrRecoveryRequired; EInvalidData])
  end.

(** The part of [AdvanceToEnrollment] after the journal is prepared. *)
Definition convergeEnrollment (j : enrollmentCommitJournal) (transition : R unit) : R unit :=
  try _ := enrollmentCommitStep "journal_prepared" fails rollbackEnrollmentCommit j in
  try _ := writeAuthenticationSnapshot (ej_Next j) fails rollbackEnrollmentCommit j in
  try _ := enrollmentCommitStep "authentication_written" fails rollbackEnrollmentCommit j in
  let j := ej_with_phase j enrollmentCommitAuthReady in
  try _ := writeEnrollmentCommitJournal j fails rollbackEnrollmentCommit j in
  try _ := enrollmentCommitStep "before_state_transition" fails rollbackEnrollmentCommit j in
  try _ := transition fails resolveEnrollmentTransitionError j in
  try _ := enrollmentCommitStep "before_journal_cleanup" fails (fun _ => auditDeferredEnrollmentCleanup j ;;* okR tt) in
  try _ := removeEnrollmentCommitJournal fails (fun _ => auditDeferredEnrollmentCleanup j ;;* okR tt) in
  okR tt.

Definition candidate_reason (e : aerr) : string :=
  if err_is ErrTransactionMismatch e then "transaction_mismatch"
  else if err_is ErrStateMismatch e then "state_mismatch" else "candidate_invalid".

Definition AdvanceToEnrollment (transactionID : string) (recoveryRoutes : list string) (transition : R unit) : R unit :=
  try _ := ctx_Err fails failR in
  let ev := event AuditBootstrapPromote in
  when negb (validateTransactionID transactionID)
    return failWithAudit (with_Reason "invalid_transaction" ev) ErrTransactionMismatch ;;
  let ev := with_Transaction transactionID ev in
  match normalizeAllowedRoutes recoveryRoutes with
  | None => failWithAudit (with_Reason "invalid_routes" ev) EInvalidData
  | Some routes =>
      try _ := lock fails failWithAudit (with_Reason "store_unavailable" ev) in
      try previous := loadAuthenticationSnapshot fails failWithAudit (with_Reason "state_unavailable" ev) in
      match enrollmentAuthenticationCandidate previous transactionID routes with
      | Err e => failWithAudit (with_Reason (candidate_reason e) ev) e
      | Ok next =>
          let journal := mkEnrollmentCommit enrollmentCommitAPIVersion enrollmentCommitPrepared transactionID
                           (cloneRoutes routes) previous next in
          when negb (validateEnrollmentCommitJournal journal)
            return failWithAudit (with_Reason "candidate_invalid" ev) EInvalidData ;;
          try _ := ctx_Err fails failR in
          try _ := recordAudit (with_State StateEnrollment (with_Outcome AuditSuccess ev)) fails failR in
          try _ := writeEnrollmentCommitJournal journal fails failWithAudit (with_Reason "journal_failed" ev) in
          convergeEnrollment journal transition
      end
  end.

Definition recovery_snapshot_enrollment (j : enrollmentCommitJournal) (state : ConsoleState)
  : option (authenticationSnapshot * string) :=
  if state ==? StateBootstrap then Some (ej_Previous j, "roll_back_bootstrap")
  else if (state ==? StateEnrollment) || (state ==? StateFull) then Some (ej_Next j, "roll_forward_published")
  else None.

Definition RecoverAdvanceToEnrollment (current : R ConsoleState) : R unit :=
  try _ := acquireStoreLock fails failR in
  try found := loadEnrollmentCommitJournal fails failR in
  match found with
  | None => okR tt
  | Some journal =>
      try other := lstat w_ownerCommit fails failR in
      when other return failR EInvalidData ;;
      try state := current fails failR in
      match recovery_snapshot_enrollment journal state with
      | None => failR EInvalidData
      | Some (snapshot, reason) =>
          try _ := recordAudit (with_State state (with_Transaction (ej_TransactionID journal) (with_Reason reason
                     (with_Outcome AuditSuccess (event AuditBootstrapRecover))))) fails failR in
          try _ := writeAuthenticationSnapshot snapshot fails failR in
          try _ := removeEnrollmentCommitJournal fails failR in
          okR tt
      end
  end.

(** ** Enrollment to full: the initial owner *)

Definition auditDeferredOwnerCleanup (j : ownerCommitJournal) : M unit :=
  recordAudit (with_State StateFull (with_Transaction (oj_TransactionID j) (with_Reason "cleanup_deferred"
    (with_Outcome AuditFailure (event AuditOwnerRecover))))) ;;* ret tt.

Definition rollbackOwnerCommit (j : ownerCommitJournal) (operationErr : aerr) : R unit :=
  try _ := recordAudit (with_State StateEnrollment (with_Transaction (oj_TransactionID j)
             (with_Reason "transaction_rolled_back" (with_Outcome AuditFailure (event AuditOwnerEnroll)))))
    fails (fun e => failR (EJoin [operationErr; e; ErrRecoveryRequired])) in
  try _ := writeAuthenticationSnapshot (oj_Previous j)
    fails (fun e => failR (EJoin [operationErr; e; ErrRecoveryRequired])) in
  try _ := removeOwnerCommitJournal fails (fun e => failR (EJoin [operationErr; e; ErrRecoveryRequired])) in
  failR operationErr.

Definition resolveOwnerTransitionError (j : ownerCommitJournal) (operationErr : aerr) : R unit :=
  match currentState with
  | None => failR (EJoin [operationErr; ErrRecoveryRequired])
  | Some current =>
      try state := current fails (fun e => failR (EJoin [operationErr; ErrRecoveryRequired; e])) in
      if state ==? StateEnrollment then rollbackOwnerCommit j operationErr
      else if state ==? StateFull then
        try _ := removeOwnerCommitJournal fails (fun _ => auditDeferredOwnerCleanup j ;;* okR tt) in
        okR tt
      else failR (EJoin [operationErr; ErrRecoveryRequired; EInvalidData])
  end.

Definition convergeOwner (j : ownerCommitJournal) (transition : R unit) : R unit :=
  try _ := ownerCommitStep "journal_prepared" fails rollbackOwnerCommit j in
  try _ := writeAuthenticationSnapshot (oj_Next j) fails rollbackOwnerCommit j in
  try _ := ownerCommitStep "authentication_written" fails rollbackOwnerCommit j in
  let j := oj_with_phase j ownerCommitAuthReady in
  try _ := writeOwnerCommitJournal j fails rollbackOwnerCommit j in
  try _ := ownerCommitStep "before_state_transition" fails rollbackOwnerCommit j in
  try _ := transition fails resolveOwnerTransitionError j in
  try _ := removeOwnerCommitJournal fails (fun _ => auditDeferredOwnerCleanup j ;;* okR tt) in
  okR tt.

(** The authentication state of a console that has just got its owner. *)
Definition owner_next (passwordPHC : string) : authenticationSnapshot :=
  mkSnapshot newBootstrapState true
             (mkLocalState (lf_APIVersion newLocalState) passwordPHC (lf_Sessions newLocalState) (lf_StepUps newLocalState)) true.

Definition CompleteInitialOwner (request : CompleteInitialOwnerRequest) (transition : R unit) : R unit :=
  try _ := ctx_Err fails failR in
  let ev := event AuditOwnerEnroll in
  match NormalizeOrigin (co_Origin request) with
  | None => failWithAudit (with_Reason "invalid_origin" ev) ErrOriginMismatch
  | Some origin =>
      when negb (https_origin origin) return failWithAudit (with_Reason "invalid_origin" ev) ErrOriginMismatch ;;
      when negb (validateTransactionID (co_TransactionID request))
        return failWithAudit (with_Origin origin (with_Reason "invalid_transaction" ev)) ErrTransactionMismatch ;;
      let ev := with_Transaction (co_TransactionID request) ev in
      let bound := with_State StateEnrollment (with_TargetOrigin origin (with_Origin origin ev)) in
      when negb (validatePasswordInput (co_Password request))
        return failWithAudit (with_Reason "invalid_password" bound) EInvalidData ;;
      try passwordPHC := hashOwnerPassword (co_Password request) fails failWithAudit (with_Reason "hash_failed" ev) in
      try _ := lock fails failWithAudit (with_Reason "store_unavailable" ev) in
      try previous := loadAuthenticationSnapshot fails failWithAudit (with_Reason "state_unavailable" ev) in
      when lf_OwnerPasswordPHC (sn_Local previous) !=? ""
        return failWithAudit (with_Reason "owner_exists" ev) ErrInvalidCredentials ;;
      let* now := currentTime in
      match authenticateEnrollmentSnapshot (sn_Bootstrap previous) now request origin with
      | Err e => failWithAudit (with_Reason "session_unauthorized" bound) e
      | Ok _ =>
          let journal := mkOwnerCommit ownerCommitAPIVersion ownerCommitPrepared (co_TransactionID request) previous
                           (owner_next passwordPHC) in
          when negb (validateOwnerCommitJournal journal)
            return failWithAudit (with_Reason "candidate_invalid" ev) EInvalidData ;;
          try _ := ctx_Err fails failR in
          let revoked := Z.of_nat (size (bf_Sessions (sn_Bootstrap previous)) +
                                   size (bf_EnrollmentSessions (sn_Bootstrap previous)) +
                                   size (lf_Sessions (sn_Local previous))) in
          try _ := recordAudit (with_Revoked false revoked (with_Outcome AuditSuccess bound)) fails failR in
          try _ := writeOwnerCommitJournal journal fails failWithAudit (with_Reason "journal_failed" ev) in
          convergeOwner journal transition
      end
  end.

Definition recovery_snapshot_owner (j : ownerCommitJournal) (state : ConsoleState) : option (authenticationSnapshot * string) :=
  if state ==? StateFull then Some (oj_Next j, "roll_forward_full")
  else if (state ==? StateBootstrap) || (state ==? StateEnrollment) then Some (oj_Previous j, "roll_back_unpublished")
  else None.

Definition RecoverInitialOwnerCommit (current : R ConsoleState) : R unit :=
  try _ := acquireStoreLock fails failR in
  try found := loadOwnerCommitJournal fails failR in
  match found with
  | None => okR tt
  | Some journal =>
      try other := lstat w_enrollmentCommit fails failR in
      when other return failR EInvalidData ;;
      try state := current fails failR in
      match recovery_snapshot_owner journal state with
      | None => failR EInvalidData
      | Some (snapshot, reason) =>
          try _ := recordAudit (with_State state (with_Transaction (oj_TransactionID journal) (with_Reason reason
                     (with_Outcome AuditSuccess (event AuditOwnerRecover))))) fails failR in
          try _ := writeAuthenticationSnapshot snapshot fails failR in
          try _ := removeOwnerCommitJournal fails failR in
          okR tt
      end
  end.

End Commit.
