(* ===== verification/AuthLogic.v ===== *)
(** * Reasoning about the authentication store

    Inversion lemmas for the monad and its primitives, and the tactic [follow]
    that walks one run of an operation.  A primitive is [quiet] when it changes
    no file: it may draw on the environment and extend the audit log. *)

From S2P Require Import Prelude GoText AuthTypes AuthState AuthStore GoEncoding.

Definition files (w : World) :=
  (w_bootstrap w, w_local w, w_proxy w, w_enrollmentCommit w, w_ownerCommit w, w_stateLock w, w_capability w).

(** What a run that changes no file may do. *)
Definition quiet_step (w w' : World) : Prop :=
  files w' = files w /\ w_transitions w' = w_transitions w /\ w_audit w `prefix_of` w_audit w' /\
  (w_instant w <= w_instant w')%nat.

#[global] Instance quiet_step_preorder : PreOrder quiet_step.
Proof.
  split; [by repeat split|]. intros w1 w2 w3 (H1 & H2 & H3 & H4) (H5 & H6 & H7 & H8).
  repeat split; [congruence | congruence | by etrans | lia].
Qed.

Lemma quiet_bootstrap w w' : quiet_step w w' -> w_bootstrap w' = w_bootstrap w.
Proof. intros (H & _). unfold files in H. by simplify_eq. Qed.
Lemma quiet_local w w' : quiet_step w w' -> w_local w' = w_local w.
Proof. intros (H & _). unfold files in H. by simplify_eq. Qed.
Lemma quiet_proxy w w' : quiet_step w w' -> w_proxy w' = w_proxy w.
Proof. intros (H & _). unfold files in H. by simplify_eq. Qed.
Lemma quiet_enrollmentCommit w w' : quiet_step w w' -> w_enrollmentCommit w' = w_enrollmentCommit w.
Proof. intros (H & _). unfold files in H. by simplify_eq. Qed.
Lemma quiet_ownerCommit w w' : quiet_step w w' -> w_ownerCommit w' = w_ownerCommit w.
Proof. intros (H & _). unfold files in H. by simplify_eq. Qed.
Lemma quiet_capability w w' : quiet_step w w' -> w_capability w' = w_capability w.
Proof. intros (H & _). unfold files in H. by simplify_eq. Qed.
Lemma quiet_stateLock w w' : quiet_step w w' -> w_stateLock w' = w_stateLock w.
Proof. intros (H & _). unfold files in H. by simplify_eq. Qed.
Lemma quiet_instant w w' : quiet_step w w' -> (w_instant w <= w_instant w')%nat.
Proof. by intros (_ & _ & _ & H). Qed.
Lemma quiet_audit w w' : quiet_step w w' -> w_audit w `prefix_of` w_audit w'.
Proof. by intros (_ & _ & H & _). Qed.

Definition quiet {A} (m : M A) : Prop := forall w o w', m w = (o, w') -> quiet_step w w'.

(** ** The monad *)

(** Read off the result of a run that has come to an end. *)
Ltac end_run H := cbv [okR failR ret with_world update bindM tryM] in H; cbn in H; simplify_eq.

Lemma bindM_inv {A B} (m : M A) (k : A -> M B) w o w' :
  bindM m k w = (o, w') ->
  (exists a w1, m w = (Return a, w1) /\ k a w1 = (o, w')) \/ (m w = (Killed, w') /\ o = Killed).
Proof. unfold bindM. destruct (m w) as [[a|] w1]; intros; simplify_eq; eauto. Qed.

Lemma tryM_inv {A B} (m : R A) (h : aerr -> R B) (k : A -> R B) w o w' :
  tryM m h k w = (o, w') ->
  (exists a w1, m w = (Return (Ok a), w1) /\ k a w1 = (o, w')) \/
  (exists e w1, m w = (Return (Err e), w1) /\ h e w1 = (o, w')) \/
  (m w = (Killed, w') /\ o = Killed).
Proof.
  unfold tryM. intros [([a|e] & w1 & H1 & H2)|[H1 H2]]%bindM_inv; [left; eauto | right; left; eauto | by right; right].
Qed.

Lemma quiet_ret {A} (a : A) : quiet (ret a).
Proof. intros w o w' [= <- <-]. reflexivity. Qed.

Lemma quiet_with_world {A} (f : World -> A) : quiet (with_world f).
Proof. intros w o w' [= <- <-]. reflexivity. Qed.

Lemma quiet_bind {A B} (m : M A) (k : A -> M B) : quiet m -> (forall a, quiet (k a)) -> quiet (bindM m k).
Proof.
  intros Hm Hk w o w' [(a & w1 & H1 & H2)|[H1 _]]%bindM_inv; [|by eapply Hm].
  etrans; [by eapply Hm | by eapply Hk].
Qed.

Lemma quiet_try {A B} (m : R A) (h : aerr -> R B) (k : A -> R B) :
  quiet m -> (forall e, quiet (h e)) -> (forall a, quiet (k a)) -> quiet (tryM m h k).
Proof. intros Hm Hh Hk. apply quiet_bind; [done|]. intros [a|e]; auto. Qed.

Lemma quiet_if {A} (b : bool) (m1 m2 : M A) : quiet m1 -> quiet m2 -> quiet (if b then m1 else m2).
Proof. by destruct b. Qed.

Create HintDb quiet.
#[export] Hint Resolve quiet_ret quiet_with_world : quiet.
(** Decompose a computation into quiet parts. *)
Ltac quiet_tac :=
  repeat first
    [ solve [eauto with quiet]
    | apply quiet_bind; [|intros ?]
    | apply quiet_try; [|intros ?|intros ?]
    | apply quiet_if
    | match goal with |- quiet (match ?x with _ => _ end) => destruct x end ].

Section Logic.
Context {E : Env}.

Lemma ask_inv {A} (f : nat -> A) w o w' :
  ask f w = (o, w') -> (o = Return (f (w_instant w)) /\ w' = w_tick w) \/ (o = Killed /\ w' = w_tick w).
Proof. unfold ask. destruct (e_alive _); intros; simplify_eq; auto. Qed.

Lemma quiet_ask {A} (f : nat -> A) : quiet (ask f).
Proof.
  intros w o w' [[_ ->]|[_ ->]]%ask_inv; repeat split; cbn; first [reflexivity | lia].
Qed.

Lemma quiet_currentTime : quiet currentTime. Proof. apply quiet_ask. Qed.
Hint Resolve quiet_ask quiet_currentTime : quiet.

Lemma quiet_okR {A} (a : A) : quiet (okR a). Proof. apply quiet_ret. Qed.
Lemma quiet_failR {A} e : quiet (@failR A e). Proof. apply quiet_ret. Qed.
Hint Resolve quiet_okR quiet_failR : quiet.

Lemma quiet_readRandom n : quiet (readRandom n).
Proof. unfold readRandom. quiet_tac. Qed.
Hint Resolve quiet_readRandom : quiet.
Lemma quiet_newCredential : quiet newCredential.
Proof. unfold newCredential. quiet_tac. Qed.
Lemma quiet_hashOwnerPassword `{Argon2} p : quiet (hashOwnerPassword p).
Proof. unfold hashOwnerPassword. quiet_tac. Qed.
Lemma quiet_acquireStoreLock : quiet acquireStoreLock.
Proof. unfold acquireStoreLock. quiet_tac. Qed.
Lemma quiet_lstat {A} (get : World -> file A) : quiet (lstat get).
Proof. unfold lstat. quiet_tac. Qed.
Hint Resolve quiet_acquireStoreLock quiet_lstat : quiet.
Lemma quiet_lock : quiet lock.
Proof. unfold lock. quiet_tac. Qed.

Lemma quiet_add_audit ev : quiet (update (w_add_audit ev)).
Proof. intros w o w' [= <- <-]. repeat split; cbn; [by apply prefix_app_r | lia]. Qed.
Hint Resolve quiet_add_audit : quiet.
Lemma quiet_recordAudit ev : quiet (recordAudit ev).
Proof. unfold recordAudit. quiet_tac. Qed.
Hint Resolve quiet_recordAudit : quiet.
Lemma quiet_failWithAudit {A} ev e : quiet (@failWithAudit E A ev e).
Proof. unfold failWithAudit. quiet_tac. Qed.
Lemma quiet_readJSONFile {A} (get : World -> file A) : quiet (readJSONFile get).
Proof. unfold readJSONFile. quiet_tac. Qed.
Hint Resolve quiet_readJSONFile : quiet.
Lemma quiet_loadBootstrapStateWithExistence : quiet loadBootstrapStateWithExistence.
Proof. unfold loadBootstrapStateWithExistence. quiet_tac. Qed.
Lemma quiet_loadLocalStateWithExistence : quiet loadLocalStateWithExistence.
Proof. unfold loadLocalStateWithExistence. quiet_tac. Qed.
Hint Resolve quiet_loadBootstrapStateWithExistence quiet_loadLocalStateWithExistence : quiet.
Lemma quiet_loadBootstrapState : quiet loadBootstrapState.
Proof. unfold loadBootstrapState. quiet_tac. Qed.
Lemma quiet_loadLocalState : quiet loadLocalState.
Proof. unfold loadLocalState. quiet_tac. Qed.
Lemma quiet_loadProxyState : quiet loadProxyState.
Proof. unfold loadProxyState. quiet_tac. Qed.

(** ** What a successful primitive tells *)

(** [t] is a reading of the clock during the run from [w] to [w']. *)
Definition clock_reading (w w' : World) (t : Time) : Prop :=
  exists i, (w_instant w <= i < w_instant w')%nat /\ t = e_clock i.

Lemma clock_reading_widen w0 w w' w1 t :
  (w_instant w0 <= w_instant w)%nat -> (w_instant w' <= w_instant w1)%nat -> clock_reading w w' t -> clock_reading w0 w1 t.
Proof. intros H1 H2 (i & Hi & ->). exists i. split; [lia | done]. Qed.

Lemma currentTime_ok w t w' : currentTime w = (Return t, w') -> clock_reading w w' t.
Proof. intros [[[= ->] ->]|[? _]]%ask_inv; [|done]. exists (w_instant w). cbn. split; [lia | done]. Qed.

Lemma lstat_ok {A} (get : World -> file A) w b w' :
  lstat get w = (Return (Ok b), w') -> (forall v, get (w_tick v) = get v) -> b = file_exists (get w).
Proof.
  intros H Hg. unfold lstat in H. apply bindM_inv in H as [(ok & w1 & H0 & H)|[_ ?]]; [|done].
  apply ask_inv in H0 as [[[= ->] ->]|[? _]]; [|done].
  destruct (e_stat _); [|by end_run H]. end_run H. by rewrite Hg.
Qed.

Definition no_journal (w : World) : Prop := w_enrollmentCommit w = Absent /\ w_ownerCommit w = Absent.

Lemma file_exists_false {A} (f : file A) : file_exists f = false -> f = Absent.
Proof. by destruct f. Qed.

Lemma lock_ok w u w' : lock w = (Return (Ok u), w') -> no_journal w.
Proof.
  intros H. unfold lock in H.
  apply tryM_inv in H as [(? & w1 & H1 & H)|[(? & ? & _ & [= ])|[_ ?]]]; [|done].
  apply tryM_inv in H as [(b & w2 & H2 & H)|[(? & ? & _ & [= ])|[_ ?]]]; [|done].
  destruct b; [by end_run H|].
  apply tryM_inv in H as [(b & w3 & H3 & H)|[(? & ? & _ & [= ])|[_ ?]]]; [|done].
  destruct b; [by end_run H|].
  pose proof (quiet_acquireStoreLock _ _ _ H1) as Q1. pose proof (quiet_lstat _ _ _ _ H2) as Q2.
  apply lstat_ok in H2; [|done]. apply lstat_ok in H3; [|done].
  split; apply file_exists_false.
  - by rewrite <- (quiet_enrollmentCommit _ _ Q1).
  - by rewrite <- (quiet_ownerCommit _ _ Q1), <- (quiet_ownerCommit _ _ Q2).
Qed.

Lemma readJSONFile_ok {A} (get : World -> file A) w r w' :
  (forall v, get (w_tick v) = get v) -> readJSONFile get w = (Return (Ok r), w') ->
  match r with Some a => get w = Stored a | None => get w = Absent end.
Proof.
  intros Hg H. unfold readJSONFile in H. apply bindM_inv in H as [(ok & w1 & H0 & H)|[_ ?]]; [|done].
  apply ask_inv in H0 as [[[= ->] ->]|[? _]]; [|done].
  destruct (negb _); [by end_run H|].
  apply bindM_inv in H as [(f & w2 & [= <- <-] & H)|[[= ] _]]. rewrite Hg in H. destruct (get w); end_run H; done.
Qed.

(** A loaded state is the stored one, which is valid, or the pristine state of a
    missing file. *)
Definition loaded {S} (f : file S) (valid : S -> bool) (fresh : S) (st : S) (existed : bool) : Prop :=
  (f = Stored st /\ valid st = true /\ existed = true) \/ (f = Absent /\ st = fresh /\ existed = false).

Lemma loadBootstrapStateWithExistence_ok w st ex w' :
  loadBootstrapStateWithExistence w = (Return (Ok (st, ex)), w') ->
  loaded (w_bootstrap w) validateBootstrapState newBootstrapState st ex.
Proof.
  intros H. unfold loadBootstrapStateWithExistence in H.
  apply tryM_inv in H as [([s|] & w1 & H1 & H)|[(? & ? & _ & [= ])|[_ ?]]]; [| |done];
    apply readJSONFile_ok in H1; try done.
  - destruct (validateBootstrapState s) eqn:Hv; end_run H. by left.
  - end_run H. by right.
Qed.

Lemma loadLocalStateWithExistence_ok w st ex w' :
  loadLocalStateWithExistence w = (Return (Ok (st, ex)), w') ->
  loaded (w_local w) validateLocalState newLocalState st ex.
Proof.
  intros H. unfold loadLocalStateWithExistence in H.
  apply tryM_inv in H as [([s|] & w1 & H1 & H)|[(? & ? & _ & [= ])|[_ ?]]]; [| |done];
    apply readJSONFile_ok in H1; try done.
  - destruct (validateLocalState s) eqn:Hv; end_run H. by left.
  - end_run H. by right.
Qed.

Lemma loadBootstrapState_ok w st w' :
  loadBootstrapState w = (Return (Ok st), w') ->
  exists ex, loaded (w_bootstrap w) validateBootstrapState newBootstrapState st ex.
Proof.
  intros H. unfold loadBootstrapState in H.
  apply tryM_inv in H as [([s ex] & w1 & H1 & H)|[(? & ? & _ & [= ])|[_ ?]]]; [|done].
  apply loadBootstrapStateWithExistence_ok in H1.
  end_run H. eauto.
Qed.

Lemma loadLocalState_ok w st w' :
  loadLocalState w = (Return (Ok st), w') -> exists ex, loaded (w_local w) validateLocalState newLocalState st ex.
Proof.
  intros H. unfold loadLocalState in H.
  apply tryM_inv in H as [([s ex] & w1 & H1 & H)|[(? & ? & _ & [= ])|[_ ?]]]; [|done].
  apply loadLocalStateWithExistence_ok in H1.
  end_run H. eauto.
Qed.

Lemma loadProxyState_ok w st w' :
  loadProxyState w = (Return (Ok st), w') -> exists ex, loaded (w_proxy w) validateProxyState newProxyState st ex.
Proof.
  intros H. unfold loadProxyState in H.
  apply tryM_inv in H as [([s|] & w1 & H1 & H)|[(? & ? & _ & [= ])|[_ ?]]]; [| |done];
    apply readJSONFile_ok in H1; try done.
  - destruct (validateProxyState s) eqn:Hv; end_run H. exists true. by left.
  - end_run H. exists false. by right.
Qed.

(** The log ends with the event, stamped with a reading of the clock. *)
Definition recorded (w w' : World) (ev : AuditEvent) : Prop :=
  exists t, clock_reading w w' t /\ w_audit w' = w_audit w ++ [with_OccurredAt t ev].

Lemma recordAudit_ok ev w u w' :
  ev_OccurredAt ev = 0 -> recordAudit ev w = (Return (Ok u), w') -> recorded w w' ev.
Proof.
  intros Hz H. unfold recordAudit in H. rewrite Hz in H. cbn in H.
  apply bindM_inv in H as [(ev' & w1 & H1 & H)|[_ ?]]; [|done].
  apply bindM_inv in H1 as [(t & w2 & H1 & [= <- <-])|[_ ?]]; [|done].
  apply bindM_inv in H as [(ok & w3 & H3 & H)|[_ ?]]; [|done].
  pose proof (currentTime_ok _ _ _ H1) as Hc. apply ask_inv in H1 as [[_ ->]|[? _]]; [|done].
  apply ask_inv in H3 as [[[= ->] ->]|[? _]]; [|done].
  destruct (e_audit _); [|by end_run H]. end_run H. exists t. split; [|done].
  eapply clock_reading_widen; [| |exact Hc]; cbn; lia.
Qed.

Lemma failWithAudit_not_ok {A} ev e w (a : A) w' : failWithAudit ev e w <> (Return (Ok a), w').
Proof.
  intros H. unfold failWithAudit in H.
  apply tryM_inv in H as [(? & ? & _ & [= ])|[(? & ? & _ & [= ])|[_ [= ]]]].
Qed.

(** The credential is the encoding of 32 random bytes. *)
Lemma newCredential_ok w t w' :
  newCredential w = (Return (Ok t), w') -> exists f, t = b64_encode (read_full credentialRandomBytes f).
Proof.
  intros H. unfold newCredential in H. apply bindM_inv in H as [(raw & w1 & H1 & H)|[_ ?]]; [|done].
  unfold readRandom in H1. apply bindM_inv in H1 as [(s & w2 & _ & [= <- _])|[_ ?]]; [|done].
  destruct s as [s|]; end_run H. eauto.
Qed.

Lemma hashOwnerPassword_ok `{Argon2} p w phc w' :
  hashOwnerPassword p w = (Return (Ok phc), w') -> exists f, hashPassword (Some (read_full argonSaltBytes f)) p = Some phc.
Proof.
  intros H0. unfold hashOwnerPassword in H0. apply bindM_inv in H0 as [(salt & w1 & H1 & H2)|[_ ?]]; [|done].
  destruct (hashPassword salt p) as [x|] eqn:Hp; end_run H2.
  unfold readRandom in H1. apply bindM_inv in H1 as [(s & w2 & _ & [= <- _])|[_ ?]]; [|done].
  destruct s as [s|]; [eauto|]. unfold hashPassword in Hp. by destruct (negb _).
Qed.

(** ** Replacing a file *)

Definition write_result {A} (set : file A -> World -> World) (v : A) (w : World) (o : outcome (result aerr unit)) (w' : World) : Prop :=
  (o <> Return (Ok tt) /\ quiet_step w w') \/
  (o = Return (Ok tt) /\ w' = set (Stored v) (w_tick w)) \/
  (o = Return (Err EUnavailable) /\ w' = set (Stored v) (w_tick w)).

Lemma writeJSONFile_inv {A} (set : file A -> World -> World) v w o w' :
  writeJSONFile set v w = (o, w') -> write_result set v w o w'.
Proof.
  unfold writeJSONFile. intros [(c & w1 & H1 & H)|[H1 ->]]%bindM_inv.
  - apply ask_inv in H1 as [[[= ->] ->]|[? _]]; [|done].
    destruct (e_change _); end_run H; [by right; left | | by right; right].
    left. split; [done|]. repeat split; cbn; [reflexivity | lia].
  - left. split; [done|]. by eapply quiet_ask.
Qed.

Lemma writeLocalState_inv st w o w' :
  writeLocalState st w = (o, w') ->
  (o <> Return (Ok tt) /\ quiet_step w w') \/ (validateLocalState st = true /\ write_result w_set_local st w o w').
Proof.
  unfold writeLocalState. destruct (validateLocalState st); cbn; [intros; right; split; auto using writeJSONFile_inv|].
  intros [= <- <-]. left. done.
Qed.
Lemma writeBootstrapState_inv st w o w' :
  writeBootstrapState st w = (o, w') ->
  (o <> Return (Ok tt) /\ quiet_step w w') \/ (validateBootstrapState st = true /\ write_result w_set_bootstrap st w o w').
Proof.
  unfold writeBootstrapState. destruct (validateBootstrapState st); cbn; [intros; right; split; auto using writeJSONFile_inv|].
  intros [= <- <-]. left. done.
Qed.
Lemma writeProxyState_inv st w o w' :
  writeProxyState st w = (o, w') ->
  (o <> Return (Ok tt) /\ quiet_step w w') \/ (validateProxyState st = true /\ write_result w_set_proxy st w o w').
Proof.
  unfold writeProxyState. destruct (validateProxyState st); cbn; [intros; right; split; auto using writeJSONFile_inv|].
  intros [= <- <-]. left. done.
Qed.

End Logic.

#[export] Hint Resolve quiet_ask quiet_currentTime quiet_okR quiet_failR quiet_newCredential quiet_hashOwnerPassword
  quiet_acquireStoreLock quiet_lstat quiet_lock quiet_recordAudit quiet_failWithAudit quiet_readJSONFile
  quiet_loadBootstrapStateWithExistence quiet_loadLocalStateWithExistence quiet_loadBootstrapState quiet_loadLocalState
  quiet_loadProxyState : quiet.

(** ** Walking a run

    [follow w] looks for a hypothesis [Q : quiet_step w wc] about the run so far
    and the equation [H : m wc = (o, w')] of what remains, and takes one step:
    it splits on the result of the next primitive, keeps what its success tells,
    and closes the branches on which the operation ends without touching a
    file. *)

Section Facts.
Context {E : Env}.

(** An operation that changed no file and did not succeed. *)
Definition refused {A} (w : World) (o : outcome (result aerr A)) (w' : World) : Prop :=
  (forall a, o <> Return (Ok a)) /\ quiet_step w w'.

(** The log grew by [ev], stamped by the clock. *)
Definition audited (w w' : World) (ev : AuditEvent) : Prop :=
  exists t l1 l2, w_audit w' = w_audit w ++ l1 ++ with_OccurredAt t ev :: l2.

(** Exactly one file was replaced. *)
Definition changes {A} (set : file A -> World -> World) (v : A) (w w' : World) : Prop :=
  exists w1, quiet_step w w1 /\ quiet_step (set (Stored v) w1) w'.

Lemma clock_reading_grow w w1 w2 t : clock_reading w w1 t -> quiet_step w1 w2 -> clock_reading w w2 t.
Proof. intros H Q. eapply clock_reading_widen; [reflexivity | by apply quiet_instant | done]. Qed.

Lemma clock_reading_from w w1 w2 t : quiet_step w w1 -> clock_reading w1 w2 t -> clock_reading w w2 t.
Proof. intros Q H. eapply clock_reading_widen; [by apply quiet_instant | reflexivity | done]. Qed.

Lemma audited_grow w w1 w2 ev : audited w w1 ev -> w_audit w1 `prefix_of` w_audit w2 -> audited w w2 ev.
Proof.
  intros (t & l1 & l2 & H) [l Hl]. exists t, l1, (l2 ++ l). rewrite Hl, H, <- !app_assoc. cbn. done.
Qed.

Lemma recorded_audited w w1 w2 ev : quiet_step w w1 -> recorded w1 w2 ev -> audited w w2 ev.
Proof.
  intros [l Hl]%quiet_audit (t & _ & H). exists t, l, []. rewrite H, Hl, <- app_assoc. done.
Qed.

Lemma no_journal_from w w1 : quiet_step w w1 -> no_journal w1 -> no_journal w.
Proof.
  intros Q [H1 H2]. split; [by rewrite <- (quiet_enrollmentCommit _ _ Q) | by rewrite <- (quiet_ownerCommit _ _ Q)].
Qed.

Lemma failed_audit_end {A} ev e w o w' : @failWithAudit E A ev e w = (o, w') -> (forall a, o <> Return (Ok a)) /\ quiet_step w w'.
Proof.
  intros H. split; [|by eapply quiet_failWithAudit]. intros a ->. by apply failWithAudit_not_ok in H.
Qed.

Lemma failed_end {A} e w o w' : @failR A e w = (o, w') -> (forall a, o <> Return (Ok a)) /\ quiet_step w w'.
Proof. by intros [= <- <-]. Qed.

Lemma refused_from {A} w w1 (o : outcome (result aerr A)) w' : quiet_step w w1 -> refused w1 o w' -> refused w o w'.
Proof. intros Q [H1 H2]. split; [done | by etrans]. Qed.

End Facts.

(** Facts about the current world move to the next one. *)
Ltac grow Qs :=
  repeat match goal with
  | C : clock_reading ?w ?w1 ?t, Q : quiet_step ?w1 ?w2 |- _ =>
      constr_eq Q Qs; apply (fun H => clock_reading_grow _ _ _ _ H Qs) in C
  | C : audited ?w ?w1 ?ev, Q : quiet_step ?w1 ?w2 |- _ =>
      constr_eq Q Qs; apply (fun H => audited_grow _ _ _ _ H (quiet_audit _ _ Qs)) in C
  end.

(** What else a success tells; components extend it with their own primitives. *)
Ltac note_more Q Hm := idtac.

(** Keep what the success of a primitive tells, relative to the start. *)
Ltac note Q Hm :=
  let F := fresh "F" in
  lazymatch type of Hm with
  | lock _ = (Return (Ok _), _) => pose proof (no_journal_from _ _ Q (lock_ok _ _ _ Hm)) as F
  | loadLocalState _ = (Return (Ok _), _) =>
      destruct (loadLocalState_ok _ _ _ Hm) as [? F]; rewrite (quiet_local _ _ Q) in F
  | loadBootstrapState _ = (Return (Ok _), _) =>
      destruct (loadBootstrapState_ok _ _ _ Hm) as [? F]; rewrite (quiet_bootstrap _ _ Q) in F
  | loadProxyState _ = (Return (Ok _), _) =>
      destruct (loadProxyState_ok _ _ _ Hm) as [? F]; rewrite (quiet_proxy _ _ Q) in F
  | newCredential _ = (Return (Ok _), _) => destruct (newCredential_ok _ _ _ Hm) as [? F]
  | hashOwnerPassword _ _ = (Return (Ok _), _) => destruct (hashOwnerPassword_ok _ _ _ _ Hm) as [? F]
  | currentTime _ = (Return _, _) => pose proof (clock_reading_from _ _ _ _ Q (currentTime_ok _ _ _ Hm)) as F
  | recordAudit _ _ = (Return (Ok _), _) =>
      pose proof (fun p => recorded_audited _ _ _ _ Q (recordAudit_ok _ _ _ _ p Hm)) as F; specialize (F eq_refl)
  | _ => note_more Q Hm
  end.

(** The primitive of [Hm] was quiet: advance [Q]. *)
Ltac advance Q Hm :=
  note Q Hm;
  let Qs := fresh "Qs" in
  lazymatch type of Hm with
  | ?m ?w = (?o, ?w1) =>
      assert (Qs : quiet_step w w1) by (let K := fresh in assert (K : quiet m) by eauto with quiet; exact (K _ _ _ Hm));
      grow Qs;
      let Q' := fresh "Q" in
      pose proof (transitivity Q Qs) as Q'; clear Q Qs Hm; rename Q' into Q
  end.

(** End of a branch that left every file alone. *)
Ltac end_quiet Q H :=
  first
    [ apply failed_audit_end in H as [?no ?q]
    | apply failed_end in H as [?no ?q] ];
  split; [assumption | etrans; eassumption].

Ltac killed Q Hm :=
  subst; lazymatch type of Hm with
  | ?m _ = _ => let K := fresh in assert (K : quiet m) by eauto with quiet; apply K in Hm
  end; split; [discriminate | etrans; eassumption].

(** Walk to the next file replacement or to the end of the run. *)
Ltac walk Q H :=
  cbv zeta in H;
  lazymatch type of H with
  | tryM (writeLocalState _) _ _ _ = _ => idtac
  | tryM (writeBootstrapState _) _ _ _ = _ => idtac
  | tryM (writeProxyState _) _ _ _ = _ => idtac
  | tryM ?m _ _ _ = _ =>
      tryif (assert_fails (assert (quiet m) by solve [eauto with quiet])) then idtac else
      let a := fresh "a" in let w1 := fresh "w" in let Hm := fresh "Hm" in let e := fresh "e" in let Hk := fresh "Hk" in
      apply tryM_inv in H as [(a & w1 & Hm & H)|[(e & w1 & Hm & H)|[Hm Hk]]];
      [ advance Q Hm; walk Q H
      | advance Q Hm; walk Q H
      | left; killed Q Hm ]
  | bindM ?m _ _ = _ =>
      let a := fresh "a" in let w1 := fresh "w" in let Hm := fresh "Hm" in let Hk := fresh "Hk" in
      apply bindM_inv in H as [(a & w1 & Hm & H)|[Hm Hk]];
      [ advance Q Hm; walk Q H | left; killed Q Hm ]
  | (if ?b then _ else _) _ = _ => let B := fresh "B" in destruct b eqn:B; walk Q H
  | (match ?x with _ => _ end) _ = _ => let B := fresh "B" in destruct x eqn:B; walk Q H
  | _ => try (left; end_quiet Q H)
  end.

(** ** The end of an operation that replaces a file *)

Section Ends.
Context {E : Env}.

Definition done_or_failed {A} (o : outcome (result aerr A)) (a : A) : Prop := o = Return (Ok a) \/ forall a', o <> Return (Ok a').

(** The world moved on: later instant, longer log. *)
Definition later (w w' : World) : Prop := (w_instant w <= w_instant w')%nat /\ w_audit w `prefix_of` w_audit w'.

Lemma quiet_later w w' : quiet_step w w' -> later w w'.
Proof. by intros (_ & _ & ? & ?). Qed.

Lemma write_end {F A} (wr : R unit) (set : file F -> World -> World) (v : F) (valid : bool) (h : aerr -> R A) (a : A) w wc o w' :
  (forall f x, w_instant (set f x) = w_instant x /\ w_audit (set f x) = w_audit x) ->
  (forall o w', wr wc = (o, w') -> (o <> Return (Ok tt) /\ quiet_step wc w') \/ (valid = true /\ write_result set v wc o w')) ->
  (forall e w o w', h e w = (o, w') -> (forall a', o <> Return (Ok a')) /\ quiet_step w w') ->
  quiet_step w wc -> tryM wr h (fun _ => okR a) wc = (o, w') ->
  refused w o w' \/ (valid = true /\ changes set v w w' /\ done_or_failed o a /\ later wc w').
Proof.
  intros Hset Hw Hh Q [([] & w1 & H1 & [= <- <-])|[(e & w1 & H1 & H2)|[H1 ->]]]%tryM_inv; apply Hw in H1.
  - destruct H1 as [[? _]|[Hv [[? _]|[[_ ->]|[? _]]]]]; try done. right. split; [done|]. split; [|split; [by left|]].
    + exists (w_tick wc). split; [|reflexivity]. etrans; [exact Q|]. repeat split; cbn; [reflexivity | lia].
    + destruct (Hset (Stored v) (w_tick wc)) as [Hi Ha]. split; [rewrite Hi; cbn; lia | by rewrite Ha].
  - apply Hh in H2 as [Hno Q2].
    destruct H1 as [[_ Q1]|[Hv [[_ Q1]|[[? _]|[_ ->]]]]]; try done.
    1, 2: left; split; [done|]; etrans; [exact Q|]; by etrans.
    right. split; [done|]. split; [|split; [by right|]].
    + exists (w_tick wc). split; [|done]. etrans; [exact Q|]. repeat split; cbn; [reflexivity | lia].
    + destruct (Hset (Stored v) (w_tick wc)) as [Hi Ha]. apply quiet_later in Q2 as [Q3 Q4]. rewrite Hi in Q3. rewrite Ha in Q4.
      split; [cbn in Q3; lia | done].
  - left. destruct H1 as [[_ Q1]|[_ [[_ Q1]|[[? _]|[? _]]]]]; try done; (split; [done | by etrans]).
Qed.

Lemma changes_instant {F} (set : file F -> World -> World) v w w' :
  (forall f x, w_instant (set f x) = w_instant x) -> changes set v w w' -> (w_instant w <= w_instant w')%nat.
Proof. intros Hs (w1 & Q1%quiet_instant & Q2%quiet_instant). rewrite Hs in Q2. lia. Qed.

End Ends.

(** Use [write_end] at the last statement of a run. *)
Ltac finish Q H :=
  let L := fresh "L" in
  first
    [ eapply (write_end _ w_set_local) in H; [| done | apply writeLocalState_inv | | exact Q]
    | eapply (write_end _ w_set_bootstrap) in H; [| done | apply writeBootstrapState_inv | | exact Q]
    | eapply (write_end _ w_set_proxy) in H; [| done | apply writeProxyState_inv | | exact Q] ];
  [| intros ? ? ? ? ?; first [eapply failed_audit_end; eassumption | eapply failed_end; eassumption]];
  destruct H as [H|(?Hvalid & ?Hchange & ?Hend & L)]; [left; exact H | right];
  repeat match goal with
  | C : clock_reading ?w ?w1 ?t |- _ => apply (clock_reading_widen _ _ _ _ _ (le_n _) (proj1 L)) in C
  | C : audited ?w ?w1 ?ev |- _ => apply (fun H => audited_grow _ _ _ _ H (proj2 L)) in C
  end.
