(* ===== verification/AuthOps.v ===== *)
(** * Console authentication: all operations, and what holds of every one

    [auth_op] lists the operations of the store that clients call; [run_op]
    runs one of them, with its result reduced to success or error.  The theorems
    of this file hold of every operation on every run: failures of the
    environment, refusals and a dying process included.  They are proved by
    composition rules, one per construct of the monad. *)

From S2P Require Import Prelude GoText AuthOrigin AuthTypes AuthState AuthStore AuthLocal AuthBootstrap AuthEnrollment.
From S2P Require Import AuthProxy AuthLogic.

Inductive auth_op :=
| OpSetOwnerPassword (password : string)
| OpLoginLocal (request : LocalLoginRequest)
| OpAuthenticateLocal (request : LocalAuthenticationRequest)
| OpRefreshLocalSession (request : LocalSessionRefreshRequest)
| OpLogoutLocal (request : LocalLogoutRequest)
| OpRevokeLocalSessions
| OpIssueLocalStepUp (request : LocalStepUpRequest)
| OpAuthenticateLocalStepUp (request : LocalStepUpAuthenticationRequest)
| OpConsumeLocalStepUp (request : LocalStepUpAuthenticationRequest)
| OpIssueBootstrapToken (request : IssueBootstrapTokenRequest)
| OpExchangeBootstrapToken (request : ExchangeBootstrapTokenRequest)
| OpAuthenticateBootstrap (request : BootstrapAuthenticationRequest)
| OpRefreshBootstrapSession (request : BootstrapSessionRefreshRequest)
| OpCurrentBootstrapTransaction (expected : ConsoleState)
| OpPromoteBootstrapToEnrollment (transaction : string) (routes : list string)
| OpRevokeBootstrap (transaction : string)
| OpIssueEnrollmentHandoff (request : IssueEnrollmentHandoffRequest)
| OpExchangeEnrollmentHandoff (request : ExchangeEnrollmentHandoffRequest)
| OpAuthenticateEnrollment (request : EnrollmentAuthenticationRequest)
| OpCurrentEnrollmentTransaction
| OpRevokeEnrollment (transaction : string)
| OpRefreshProxySession (request : ProxySessionRefreshRequest)
| OpAuthenticateProxy (request : ProxyAuthenticationRequest)
| OpIssueProxyStepUp (request : ProxyStepUpRequest)
| OpAuthenticateProxyStepUp (between : list auth_op) (request : ProxyStepUpAuthenticationRequest)
| OpConsumeProxyStepUp (between : list auth_op) (request : ProxyStepUpAuthenticationRequest).

(** The two proof operations carry what other processes do while they do not
    hold the lock, so the induction principle covers those operations too. *)
Lemma auth_op_nested_ind (P : auth_op -> Prop) :
  (forall l r, Forall P l -> P (OpAuthenticateProxyStepUp l r)) ->
  (forall l r, Forall P l -> P (OpConsumeProxyStepUp l r)) ->
  (forall op, match op with OpAuthenticateProxyStepUp _ _ | OpConsumeProxyStepUp _ _ => True | _ => P op end) ->
  forall op, P op.
Proof.
  intros H1 H2 H3. fix IH 1. intros op. pose proof (H3 op) as Hop. destruct op; try exact Hop.
  - apply H1. induction between; constructor; auto.
  - apply H2. induction between; constructor; auto.
Qed.

(** Forget the value of a successful operation. *)
Definition discard {A} (m : R A) : R unit := tryM m failR (fun _ => okR tt).

(** Other processes run to their end or die; neither stops this one. *)
Definition others (run : auth_op -> R unit) (l : list auth_op) : M unit :=
  fun w => (Return tt, fold_left (fun w op => snd (run op w)) l w).

Fixpoint run_op `{Env} `{Argon2} (op : auth_op) : R unit :=
  match op with
  | OpSetOwnerPassword p => SetOwnerPassword p
  | OpLoginLocal r => discard (LoginLocal r)
  | OpAuthenticateLocal r => discard (AuthenticateLocal r)
  | OpRefreshLocalSession r => discard (RefreshLocalSession r)
  | OpLogoutLocal r => LogoutLocal r
  | OpRevokeLocalSessions => RevokeLocalSessions
  | OpIssueLocalStepUp r => discard (IssueLocalStepUp r)
  | OpAuthenticateLocalStepUp r => discard (AuthenticateLocalStepUp r)
  | OpConsumeLocalStepUp r => discard (ConsumeLocalStepUp r)
  | OpIssueBootstrapToken r => discard (IssueBootstrapToken r)
  | OpExchangeBootstrapToken r => discard (ExchangeBootstrapToken r)
  | OpAuthenticateBootstrap r => discard (AuthenticateBootstrap r)
  | OpRefreshBootstrapSession r => discard (RefreshBootstrapSession r)
  | OpCurrentBootstrapTransaction s => discard (CurrentBootstrapTransaction s)
  | OpPromoteBootstrapToEnrollment t l => PromoteBootstrapToEnrollment t l
  | OpRevokeBootstrap t => RevokeBootstrap t
  | OpIssueEnrollmentHandoff r => discard (IssueEnrollmentHandoff r)
  | OpExchangeEnrollmentHandoff r => discard (ExchangeEnrollmentHandoff r)
  | OpAuthenticateEnrollment r => discard (AuthenticateEnrollment r)
  | OpCurrentEnrollmentTransaction => discard CurrentEnrollmentTransaction
  | OpRevokeEnrollment t => RevokeEnrollment t
  | OpRefreshProxySession r => discard (RefreshProxySession r)
  | OpAuthenticateProxy r => discard (AuthenticateProxy r)
  | OpIssueProxyStepUp r => discard (IssueProxyStepUp r)
  | OpAuthenticateProxyStepUp l r => discard (AuthenticateProxyStepUp (others run_op l) r)
  | OpConsumeProxyStepUp l r => discard (ConsumeProxyStepUp (others run_op l) r)
  end.

(** A history: operations one after the other. *)
Definition run_ops `{Env} `{Argon2} (ops : list auth_op) (w : World) : World := fold_left (fun w op => snd (run_op op w)) ops w.

(** Unfold an operation into the constructs of the monad. *)
Ltac unfold_op :=
  cbn [run_op]; unfold discard, SetOwnerPassword, LoginLocal, AuthenticateLocal, RefreshLocalSession, LogoutLocal,
    RevokeLocalSessions, IssueLocalStepUp, AuthenticateLocalStepUp, ConsumeLocalStepUp, IssueBootstrapToken,
    ExchangeBootstrapToken, AuthenticateBootstrap, RefreshBootstrapSession, CurrentBootstrapTransaction,
    PromoteBootstrapToEnrollment, RevokeBootstrap, IssueEnrollmentHandoff, ExchangeEnrollmentHandoff,
    AuthenticateEnrollment, CurrentEnrollmentTransaction, RevokeEnrollment, RefreshProxySession, finish_proxy_refresh,
    AuthenticateProxy, IssueProxyStepUp, AuthenticateProxyStepUp, ConsumeProxyStepUp; cbv zeta.

(** ** Closure under the monad

    A relation [S] between the world before and after a run, reflexive and
    transitive, is kept by a computation when its parts keep it. *)

Section Keeps.
Context (S : World -> World -> Prop) `{PreOrder World S}.

Definition keeps {A} (m : M A) : Prop := forall w o w', m w = (o, w') -> S w w'.

Lemma keeps_bind {A B} (m : M A) (k : A -> M B) : keeps m -> (forall a, keeps (k a)) -> keeps (bindM m k).
Proof.
  intros Hm Hk w o w' [(a & w1 & H1 & H2)|[H1 _]]%bindM_inv; [|by eapply Hm]. etrans; [by eapply Hm | by eapply Hk].
Qed.
Lemma keeps_try {A B} (m : R A) (h : aerr -> R B) (k : A -> R B) :
  keeps m -> (forall e, keeps (h e)) -> (forall a, keeps (k a)) -> keeps (tryM m h k).
Proof. intros Hm Hh Hk. apply keeps_bind; [done|]. intros [a|e]; auto. Qed.
Lemma keeps_if {A} (b : bool) (m1 m2 : M A) : keeps m1 -> keeps m2 -> keeps (if b then m1 else m2).
Proof. by destruct b. Qed.
Lemma keeps_quiet {A} (m : M A) : (forall w w', quiet_step w w' -> S w w') -> quiet m -> keeps m.
Proof. intros HS Hm w o w' H0. eapply HS, Hm, H0. Qed.

End Keeps.

#[global] Arguments keeps S {A} m.

Create HintDb keeps.
Ltac keeps_tac :=
  repeat first
    [ solve [eauto with keeps]
    | apply keeps_bind; [typeclasses eauto | | intros ?]
    | apply keeps_try; [typeclasses eauto | | intros ? | intros ?]
    | apply keeps_if
    | match goal with |- keeps _ (match ?x with _ => _ end) => destruct x end ].

(** Every operation keeps [S] when [S] holds of quiet steps and of the three
    file replacements the operations make, all of them validated. *)
Section Every.
Context {E : Env} {A : Argon2} (S : World -> World -> Prop) {PO : PreOrder S}.
Hypothesis S_quiet : forall w w', quiet_step w w' -> S w w'.
Hypothesis S_local : forall w st, validateLocalState st = true -> S w (w_set_local (Stored st) (w_tick w)).
Hypothesis S_bootstrap : forall w st, validateBootstrapState st = true -> S w (w_set_bootstrap (Stored st) (w_tick w)).
Hypothesis S_proxy : forall w st, validateProxyState st = true -> S w (w_set_proxy (Stored st) (w_tick w)).

Lemma keeps_writeLocalState st : keeps S (writeLocalState st).
Proof.
  intros w o w' [[_ H]|[Hv [[_ H]|[[_ ->]|[_ ->]]]]]%writeLocalState_inv; auto.
Qed.
Lemma keeps_writeBootstrapState st : keeps S (writeBootstrapState st).
Proof.
  intros w o w' [[_ H]|[Hv [[_ H]|[[_ ->]|[_ ->]]]]]%writeBootstrapState_inv; auto.
Qed.
Lemma keeps_writeProxyState st : keeps S (writeProxyState st).
Proof.
  intros w o w' [[_ H]|[Hv [[_ H]|[[_ ->]|[_ ->]]]]]%writeProxyState_inv; auto.
Qed.
Lemma keeps_of_quiet {B} (m : M B) : quiet m -> keeps S m.
Proof. by apply keeps_quiet. Qed.
Hint Resolve keeps_writeLocalState keeps_writeBootstrapState keeps_writeProxyState : keeps.
Hint Extern 2 (keeps _ _) => apply keeps_of_quiet; solve [eauto with quiet] : keeps.

Lemma keeps_others l : Forall (fun op => keeps S (run_op op)) l -> keeps S (others run_op l).
Proof.
  intros Hl w o w' [= _ <-]. revert w. induction Hl as [|op l Hop Hl IH]; intros w; cbn; [reflexivity|].
  etrans; [|apply IH]. destruct (run_op op w) as [x w1] eqn:Hr. by eapply Hop.
Qed.

Lemma keeps_AuthenticateProxy r : keeps S (AuthenticateProxy r).
Proof. unfold AuthenticateProxy. cbv zeta. keeps_tac. Qed.
Hint Resolve keeps_others keeps_AuthenticateProxy : keeps.

Lemma keeps_run_op op : keeps S (run_op op).
Proof.
  revert op. apply auth_op_nested_ind.
  - intros l r Hl. unfold_op. fold (AuthenticateProxy (observe_proxy r)). keeps_tac.
  - intros l r Hl. unfold_op. fold (AuthenticateProxy (observe_proxy r)). keeps_tac.
  - intros op. destruct op; try done; unfold_op; keeps_tac.
Qed.

Lemma keeps_run_ops ops w : S w (run_ops ops w).
Proof. pose proof (keeps_others ops (Forall_true _ _ (fun op => keeps_run_op op)) w _ _ eq_refl). done. Qed.

End Every.
