(* ===== verification/AuthDemo.v ===== *)
(** * Console authentication: a console from first start to an owner's login

    Concrete values: an environment in which everything works, one in which the
    process dies at a given instant, and a run through bootstrap, enrollment,
    the initial owner, a login and a step-up proof. *)

From S2P Require Import Prelude GoText GoEncoding AuthOrigin AuthTypes AuthState AuthStore AuthLocal AuthBootstrap.
From S2P Require Import AuthEnrollment AuthProxy AuthCapability AuthCommit AuthLogic AuthOps.

(** A stand-in for Argon2id: the key is the password, then the salt, then
    zeros, cut to length. *)
Definition demo_key (password salt : list Z) : list Z := take argonKeyBytes (map (fun b => b mod 256) (password ++ salt ++ repeat 0 argonKeyBytes)).
Lemma demo_key_length password salt : length (demo_key password salt) = argonKeyBytes.
Proof. unfold demo_key. rewrite length_take, length_map, !length_app, repeat_length. unfold argonKeyBytes. lia. Qed.
Lemma demo_key_bytes password salt : Forall is_byte (demo_key password salt).
Proof. apply Forall_take, Forall_map, Forall_true. intros b. unfold is_byte. pose proof (Z.mod_pos_bound b 256). lia. Qed.
Definition demo_argon2 : Argon2 := {| IDKey := demo_key; IDKey_length := demo_key_length; IDKey_bytes := demo_key_bytes |}.
#[local] Existing Instance demo_argon2.

Definition demo_start : Z := 1790000000 * 1000000000.
(** One second per question; the process lives as long as [alive] says. *)
Definition env_until (alive : nat -> bool) : Env :=
  {| e_alive := alive; e_clock := fun i => demo_start + Z.of_nat i * 1000000000;
     e_random := fun i => Some (fun n => Z.of_nat (i * 31 + n)); e_lock := fun _ => true; e_stat := fun _ => true;
     e_read := fun _ => true; e_change := fun _ => Changed; e_sync := fun _ => true; e_audit := fun _ => true;
     e_context := fun _ => true; e_hook := fun _ => true |}.
Definition demo_env : Env := env_until (fun _ => true).
(** The process dies before the question at the given instant, and is then
    started again. *)
Definition dying_env (at_instant : nat) : Env := env_until (fun i => negb (i =? at_instant)%nat).

Definition demo_fresh : World := mkWorld Absent Absent Absent Absent Absent false Absent [] [] 0.

Definition demo_password : string := "correct horse battery staple".
Definition demo_origin : string := "https://console.example".
Definition demo_login : LocalLoginRequest := mkLogin demo_password demo_origin.

Definition value_of {A} (d : A) (r : outcome (result aerr A) * World) : A :=
  match r with (Return (Ok a), _) => a | _ => d end.
Definition succeeded {A} (r : outcome (result aerr A) * World) : bool :=
  match r with (Return (Ok _), _) => true | _ => false end.

(** The worlds below are evaluated once, in the environment where everything
    works. *)
#[local] Existing Instance demo_env.

(** An owner sets a password, logs in and asks for a step-up proof. *)
Definition demo_owner : World := Eval vm_compute in snd (SetOwnerPassword demo_password demo_fresh).
Definition demo_logged_in := Eval vm_compute in LoginLocal demo_login demo_owner.
Definition demo_session : LocalSessionCredential := Eval vm_compute in value_of (mkLocalCredential "" "" "" 0 0 0) demo_logged_in.
Definition demo_auth : LocalAuthenticationRequest :=
  mkLocalAuth (lc_Token demo_session) (lc_CSRFToken demo_session) demo_origin true false.
Definition demo_step_up := Eval vm_compute in IssueLocalStepUp
  (mkStepUp (lc_Token demo_session) (lc_CSRFToken demo_session) demo_origin demo_password "storage.format" "main" "disk0"
     (credentialDigest "state")) (snd demo_logged_in).
Definition demo_proof : string := Eval vm_compute in sc_Token (value_of (mkStepUpCredential "" "" "" "" "" "" "" 0 0) demo_step_up).
Definition demo_consume : LocalStepUpAuthenticationRequest :=
  mkStepUpAuth (lc_Token demo_session) demo_origin demo_proof "storage.format" "main" "disk0" (credentialDigest "state").

(** A console in the bootstrap state with an exchanged token. *)
Definition demo_booted : World := Eval vm_compute in snd (Open demo_fresh).
Definition demo_issued := Eval vm_compute in IssueBootstrapToken (mkIssueBootstrap 0 "tx-1" StateBootstrap ["/setup"; EnrollmentHandoffRoute]) demo_booted.
Definition demo_token : string := Eval vm_compute in it_Token (value_of (mkIssuedToken "" 0 0 "" "") demo_issued).
Definition demo_exchanged := Eval vm_compute in ExchangeBootstrapToken (mkExchange demo_token "http://192.168.1.2:8080") (snd demo_issued).
Definition demo_advanced := Eval vm_compute in AdvanceToEnrollment (Some currentAuthState) "tx-1" [EnrollmentHandoffRoute]
  (discard (Transition StateEnrollment "anasd")) (snd demo_exchanged).

(** The handoff to the console's own origin, its exchange, and the owner. *)
Definition demo_bootstrap_session : BootstrapSessionCredential := Eval vm_compute in
  value_of (mkBootstrapCredential "" "" "" "" "" [] 0 0 0) demo_exchanged.
Definition demo_spki : string := credentialDigest "key".
Definition demo_handoff := Eval vm_compute in IssueEnrollmentHandoff
  (mkIssueHandoff (bc_Token demo_bootstrap_session) (bc_CSRFToken demo_bootstrap_session) "http://192.168.1.2:8080"
     demo_origin demo_spki) (snd demo_advanced).
Definition demo_enrolling := Eval vm_compute in ExchangeEnrollmentHandoff
  (mkExchangeHandoff (hc_Token (value_of (mkHandoffCredential "" "" "" "" "" 0 0) demo_handoff)) "http://192.168.1.2:8080"
     demo_origin demo_spki) (snd demo_handoff).
Definition demo_enrollment : EnrollmentSessionCredential := Eval vm_compute in value_of (mkEnrollmentCredential "" "" "" "" 0 0) demo_enrolling.
Definition demo_complete : CompleteInitialOwnerRequest :=
  mkCompleteOwner (ec_Token demo_enrollment) (ec_CSRFToken demo_enrollment) demo_origin "tx-1" demo_password.
Definition demo_completed := Eval vm_compute in CompleteInitialOwner (Some currentAuthState) demo_complete
  (discard (Transition StateFull "anasd")) (snd demo_enrolling).


(** A random source that repeats itself: a proof can get the token of a consumed
    one. *)
Definition repeating_env : Env :=
  {| e_alive := e_alive; e_clock := e_clock; e_random := fun _ => Some (fun n => Z.of_nat n); e_lock := e_lock; e_stat := e_stat;
     e_read := e_read; e_change := e_change; e_sync := e_sync; e_audit := e_audit; e_context := e_context; e_hook := e_hook |}.
