(* ===== verification/AuthFilesFacts.v ===== *)
(** * Console authentication: a state file changes as a whole

    Every run of the file operations, with failures and process death at any
    system call, does to the file what one of the three answers of [change]
    says. *)

From Stdlib Require Import Ascii.
From S2P Require Import Prelude GoText JobTypes AuthStore AuthFiles GoEncoding GoNet AuthTypes AuthState AuthDemo.

Section Keep.
Context {Y : System}.

(** What the file is to a reader. *)
Definition private (t : FileInfo * string) : bool := validatePrivateInfo t.1 false && (slen t.2 <=? maximumStateBytes).
Definition file_of {A} (decode : string -> option A) (d : Disk) : file A :=
  match dk_target d with
  | None => Absent
  | Some t => if private t then match decode t.2 with Some v => Stored v | None => Unreadable end else Unreadable
  end.

(** The file after a change, and the result that goes with it; a process that
    died may have left either. *)
Definition after {A} (c : change) (new old : file A) : file A := match c with Unchanged => old | _ => new end.
Definition answers (c : change) (o : outcome (option unit)) : Prop :=
  match o with Return (Some _) => c = Changed | Return None => c <> Changed | Killed => True end.

(** ** Inversions *)

Lemma elseF_inv {A B} (m : F A) (h : F B) (k : A -> F B) s o s' :
  elseF m h k s = (o, s') ->
  (exists a s1, m s = (Return (Some a), s1) /\ k a s1 = (o, s')) \/
  (exists s1, m s = (Return None, s1) /\ h s1 = (o, s')) \/ (m s = (Killed, s') /\ o = Killed).
Proof. unfold elseF. destruct (m s) as [[[a|]|] s1]; intros; simplify_eq; eauto 10. Qed.
Lemma bindF_inv {A B} (m : F A) (k : A -> F B) s o s' :
  bindF m k s = (o, s') ->
  (exists a s1, m s = (Return (Some a), s1) /\ k a s1 = (o, s')) \/
  (m s = (Return None, s') /\ o = Return None) \/ (m s = (Killed, s') /\ o = Killed).
Proof.
  intros [?|[(s1 & ? & H)|?]]%elseF_inv; [by left| |by right; right].
  injection H as <- <-. auto.
Qed.

(** Properties of the file that a run keeps. *)
Definition targets (P : option (FileInfo * string) -> Prop) {A} (m : F A) : Prop :=
  forall s o s', P (dk_target s.1) -> m s = (o, s') -> P (dk_target s'.1).

Lemma targets_else P {A B} (m : F A) (h : F B) k : targets P m -> targets P h -> (forall a, targets P (k a)) -> targets P (elseF m h k).
Proof.
  intros Hm Hh Hk s o s' HP [(?&?&?&?)|[(?&?&?)|[? _]]]%elseF_inv.
  - eapply Hk; [|done]. by eapply Hm.
  - eapply Hh; [|done]. by eapply Hm.
  - by eapply Hm.
Qed.
Lemma targets_bind P {A B} (m : F A) (k : A -> F B) : targets P m -> (forall a, targets P (k a)) -> targets P (bindF m k).
Proof. intros Hm Hk. apply targets_else; [done| |done]. intros s o s' HP H. by injection H as <- <-. Qed.
Lemma targets_call P {A} f (r : Disk -> A) : (forall d, P (dk_target d) -> P (dk_target (f d))) -> targets P (call f r).
Proof.
  intros Hf [d i] o s' HP H. unfold call in H. destruct (negb _); [by injection H as <- <-|].
  destruct (s_call i); injection H as <- <-; [by apply Hf | done].
Qed.
Lemma targets_ok P {A} (a : A) : targets P (okF a).
Proof. intros s o s' HP H. by injection H as <- <-. Qed.
Lemma targets_err P {A} : targets P (@errF A).
Proof. intros s o s' HP H. by injection H as <- <-. Qed.
Lemma targets_same P : targets P SameFile.
Proof. intros [d i] o s' HP H. by injection H as <- <-. Qed.

End Keep.

Create HintDb targets.
#[export] Hint Resolve targets_ok targets_err targets_same : targets.
Ltac targets_tac :=
  repeat first
    [ solve [eauto with targets]
    | apply targets_bind; [|intros ?]
    | apply targets_else; [| |intros ?]
    | match goal with |- targets _ (match ?x with _ => _ end) => destruct x end
    | apply targets_call; solve [done | intros d ?; cbn; by destruct (dk_temporary d)] ].

Section Facts.
Context {Y : System}.

(** ** Single steps *)

Lemma call_inv {A} f (r : Disk -> A) d i o s' :
  call f r (d, i) = (o, s') ->
  (o = Return (Some (r d)) /\ s' = (f d, S i)) \/ ((forall a, o <> Return (Some a)) /\ s' = (d, S i)).
Proof.
  unfold call. destruct (negb _); [intros [= <- <-]; by right|]. destruct (s_call i); intros [= <- <-]; [by left | by right].
Qed.

Definition still_target {A} (m : F A) : Prop := forall s o s', m s = (o, s') -> dk_target s'.1 = dk_target s.1.
Lemma still_of_targets {A} (m : F A) : (forall t, targets (eq t) m) -> still_target m.
Proof. intros H s o s' Hm. symmetry. by eapply H. Qed.

Lemma still_validateStoreDirectory : still_target validateStoreDirectory.
Proof. apply still_of_targets. intros t. unfold validateStoreDirectory, look. targets_tac. Qed.
Lemma still_readPrivateFileBytes : still_target readPrivateFileBytes.
Proof. apply still_of_targets. intros t. unfold readPrivateFileBytes, look, sys. targets_tac. Qed.
Lemma still_syncDirectory : still_target syncDirectory_call.
Proof. apply still_of_targets. intros t. unfold syncDirectory_call, sys. targets_tac. Qed.
Lemma still_committed_info : still_target committed_info.
Proof. apply still_of_targets. intros t. unfold committed_info, look. targets_tac. Qed.
Lemma still_verifyPrivateDirectory : still_target verifyPrivateDirectory.
Proof. apply still_of_targets. intros t. unfold verifyPrivateDirectory, look, sys. targets_tac. Qed.
Lemma still_syncConsoleStore : still_target syncConsoleStore.
Proof. apply still_of_targets. intros t. unfold syncConsoleStore, sys. targets_tac. Qed.

(** What was read is what is there, and it is private. *)
Lemma readPrivateFileBytes_ok s r s' :
  readPrivateFileBytes s = (Return (Some r), s') ->
  match r with
  | None => dk_target s.1 = None
  | Some body => exists info, dk_target s.1 = Some (info, body) /\ private (info, body) = true
  end.
Proof.
  destruct s as [d i]. intros H. unfold readPrivateFileBytes in H.
  apply bindF_inv in H as [(e & s1 & H1 & H)|[[_ [=]]|[_ [=]]]].
  apply call_inv in H1 as [[[= ->] ->]|[Hno _]]; [|by destruct (Hno e)].
  destruct (dk_target d) as [[info body]|] eqn:Ht; [|by injection H as <- <-].
  destruct (validatePrivateInfo info false) eqn:Hv; [|done].
  apply bindF_inv in H as [(u & s2 & H2 & H)|[[_ [=]]|[_ [=]]]].
  apply call_inv in H2 as [[_ ->]|[Hno _]]; [|by destruct (Hno u)].
  apply bindF_inv in H as [(o3 & s3 & H3 & H)|[[_ [=]]|[_ [=]]]].
  apply call_inv in H3 as [[[= ->] ->]|[Hno _]]; [|by destruct (Hno o3)].
  apply bindF_inv in H as [(sm & s4 & H4 & H)|[[_ [=]]|[_ [=]]]]. injection H4 as _ <-.
  destruct sm; [|done]. cbn in H. rewrite Ht, Hv in H.
  apply bindF_inv in H as [(b & s5 & H5 & H)|[[_ [=]]|[_ [=]]]].
  apply call_inv in H5 as [[[= ->] ->]|[Hno _]]; [|by destruct (Hno b)].
  cbn in H. rewrite Ht in H. destruct (slen body <=? maximumStateBytes) eqn:Hl; [|done].
  injection H as <- <-. exists info. split; [done|]. unfold private. cbn. by rewrite Hv, Hl.
Qed.

(** One system call of a sequence; when it does not succeed, so does the run. *)
Ltac sys_step H :=
  let u := fresh "u" in let s1 := fresh "s" in let H1 := fresh "H" in let Ho := fresh in let Hno := fresh in
  apply bindF_inv in H as [(u & s1 & H1 & H)|[[H1 ->]|[H1 ->]]]; apply call_inv in H1 as [[Ho ->]|[Hno ->]];
    [injection Ho as ->
    | by destruct (Hno u)
    | discriminate Ho
    | by right
    | discriminate Ho
    | by right].

(** A temporary file is renamed over the target or the target stays. *)
Lemma fill_temporary_spec body l s o s' :
  dk_temporary s.1 = (new_temporary, "") :: l -> fill_temporary body s = (o, s') ->
  (o = Return (Some tt) /\ dk_target s'.1 = Some (new_temporary, body)) \/
  ((forall u, o <> Return (Some u)) /\ dk_target s'.1 = dk_target s.1).
Proof.
  destruct s as [d i]. cbn. intros Hl H. unfold fill_temporary in H.
  sys_step H. unfold map_temporary in H. rewrite Hl in H.
  sys_step H. cbn in H. sys_step H. sys_step H.
  apply call_inv in H as [[-> ->]|[Hno ->]]; [by left | by right].
Qed.

(** The error branch of a deferred or best-effort step. *)
Lemma ignored_inv {A} (m : F A) s o s' :
  elseF m errF (fun _ => @errF unit) s = (o, s') -> (forall u, o <> Return (Some u)) /\ exists o1, m s = (o1, s').
Proof.
  intros [(a & s1 & H1 & H)|[(s1 & H1 & H)|[H1 ->]]]%elseF_inv; [injection H as <- <- | injection H as <- <- |];
    (split; [done | by eexists]).
Qed.

(** A commit puts the new bytes in place or leaves the target. *)
Lemma commitPrivateFile_spec body s o s' :
  commitPrivateFileBytes body s = (o, s') ->
  (o = Return (Some tt) -> dk_target s'.1 = Some (new_temporary, body)) /\
  (dk_target s'.1 = Some (new_temporary, body) \/ dk_target s'.1 = dk_target s.1).
Proof.
  destruct s as [d i]. intros H. unfold commitPrivateFileBytes, commitPrivateFileBytesWithHook in H.
  apply bindF_inv in H as [(u & s1 & H1 & H)|[[H1 ->]|[H1 ->]]]; apply call_inv in H1 as [[Ho ->]|[Hno ->]];
    [|by destruct (Hno u)|discriminate Ho|by split; [|right]|discriminate Ho|by split; [|right]]. clear u Ho.
  apply elseF_inv in H as [(u & s2 & H2 & H)|[(s2 & H2 & H)|[H2 ->]]];
    eapply fill_temporary_spec in H2; try done; destruct H2 as [[Ho Ht]|[Hno Ht]];
    [|by destruct (Hno u)|discriminate Ho| |discriminate Ho|by split; [|right]].
  - change (bindF (okF tt) (fun _ => committed_info) s2) with (committed_info s2) in H.
    apply still_committed_info in H as Hs. rewrite Ht in Hs. by split; [|left].
  - apply ignored_inv in H as [Hno' [o1 H1]]. split; [by intros ->; destruct (Hno' tt)|]. right.
    destruct s2 as [d2 i2]. apply call_inv in H1 as [[_ ->]|[_ ->]]; exact Ht.
Qed.

(** Putting the previous file back succeeds or leaves the target. *)
Definition restored (previous : option string) : option (FileInfo * string) :=
  match previous with Some body => Some (new_temporary, body) | None => None end.
Lemma restore_spec previous s o s' :
  restorePrivateFileBytes previous syncDirectory_call s = (o, s') ->
  dk_target s'.1 = restored previous \/ dk_target s'.1 = dk_target s.1.
Proof.
  intros H. unfold restorePrivateFileBytes in H.
  apply bindF_inv in H as [(u & s1 & H1 & H)|[[H1 ->]|[H1 ->]]]; [apply still_syncDirectory in H as Hs; rewrite Hs|..];
    (destruct previous as [body|]; [apply commitPrivateFile_spec in H1 as [_ H1]; exact H1|]);
    destruct s as [d i]; apply call_inv in H1 as [[_ ->]|[_ ->]]; cbn; auto.
Qed.

Lemma new_temporary_private body : slen body <= maximumStateBytes -> private (new_temporary, body) = true.
Proof. intros Hl. unfold private, validatePrivateInfo. cbn. rewrite Z.eqb_refl. cbn. by apply Z.leb_le. Qed.

Section Codec.
Context {A : Type} (encode : A -> option string) (decode : string -> option A).

Lemma file_of_target d d' : dk_target d' = dk_target d -> file_of decode d' = file_of decode d.
Proof. unfold file_of. by intros ->. Qed.

(** Restoring what was read gives the same file. *)
Lemma file_of_restored s r s' d' :
  readPrivateFileBytes s = (Return (Some r), s') -> dk_target d' = restored r -> file_of decode d' = file_of decode s.1.
Proof.
  intros H%readPrivateFileBytes_ok Hd. unfold file_of. rewrite Hd. destruct r as [body|]; cbn; [|by rewrite H].
  destruct H as (info & -> & Hp). rewrite Hp. cbn. unfold private in Hp. apply andb_true_iff in Hp as [_ Hl].
  rewrite new_temporary_private by (by apply Z.leb_le). done.
Qed.

Lemma writeJSONFile_steps_spec v body s o s' :
  encode v = Some body -> decode body = Some v -> slen body <= maximumStateBytes ->
  writeJSONFile_steps encode v s = (o, s') ->
  exists c, file_of decode s'.1 = after c (Stored v) (file_of decode s.1) /\ answers c o.
Proof.
  intros He Hd Hl H. unfold writeJSONFile_steps, writeJSONFileWithHooks in H. rewrite He in H.
  assert (forall d, dk_target d = Some (new_temporary, body) -> file_of decode d = Stored v) as Hnew.
  { intros d Ht. unfold file_of. rewrite Ht, new_temporary_private by done. cbn. by rewrite Hd. }
  apply bindF_inv in H as [(u & s1 & H1 & H)|[[H1 ->]|[H1 ->]]]; apply still_validateStoreDirectory in H1;
    [|exists Unchanged; by split; [apply file_of_target|]..].
  apply bindF_inv in H as [(prev & s2 & H2 & H)|[[H2 ->]|[H2 ->]]]; pose proof (still_readPrivateFileBytes _ _ _ H2) as Hs2;
    rewrite H1 in Hs2; [|exists Unchanged; by split; [apply file_of_target|]..].
  assert (forall s3 o3 s4, (dk_target s3.1 = Some (new_temporary, body) \/ dk_target s3.1 = dk_target s.1) ->
            elseF (restorePrivateFileBytes prev syncDirectory_call) errF (fun _ => errF) s3 = (o3, s4) ->
            exists c, file_of decode s4.1 = after c (Stored v) (file_of decode s.1) /\ answers c o3) as Hback.
  { intros s3 o3 s4 Ht [Hno [o1 H3]]%ignored_inv. apply restore_spec in H3.
    assert (forall c, c <> Changed -> answers c o3) as Ha by (intros c Hc; destruct o3 as [[[]|]|]; [by destruct (Hno tt) | done | done]).
    assert (file_of decode s4.1 = file_of decode s.1 \/ file_of decode s4.1 = Stored v) as [-> | ->].
    { destruct H3 as [H3|H3].
      - left. rewrite (file_of_restored _ _ _ _ H2 H3). by apply file_of_target.
      - destruct Ht as [Ht|Ht]; [right; apply Hnew; by rewrite H3 | left; apply file_of_target; by rewrite H3]. }
    - exists Unchanged. by split; [|apply Ha].
    - exists ChangedWithError. by split; [|apply Ha]. }
  apply elseF_inv in H as [(u3 & s3 & H3 & H)|[(s3 & H3 & H)|[H3 ->]]]; apply commitPrivateFile_spec in H3 as [Hok Hor]; rewrite Hs2 in Hor.
  - destruct u3. specialize (Hok eq_refl).
    apply elseF_inv in H as [(u4 & s4 & H4 & [= <- <-])|[(s4 & H4 & H)|[H4 ->]]]; apply still_syncDirectory in H4; rewrite Hok in H4.
    + exists Changed. split; [by apply Hnew | done].
    + eapply Hback; [by left | done].
    + exists Changed. split; [by apply Hnew | done].
  - by eapply Hback.
  - destruct Hor as [Ht|Ht]; [exists Changed; by split; [apply Hnew|] | exists Unchanged; by split; [apply file_of_target|]].
Qed.

Lemma removePrivateFile_steps_spec s o s' :
  removePrivateFile_steps s = (o, s') ->
  exists c, file_of decode s'.1 = after c Absent (file_of decode s.1) /\ answers c o.
Proof.
  intros H. unfold removePrivateFile_steps, removePrivateFileWithSync in H.
  apply bindF_inv in H as [(u & s1 & H1 & H)|[[H1 ->]|[H1 ->]]]; apply still_validateStoreDirectory in H1;
    [|exists Unchanged; by split; [apply file_of_target|]..].
  apply bindF_inv in H as [(prev & s2 & H2 & H)|[[H2 ->]|[H2 ->]]]; pose proof (still_readPrivateFileBytes _ _ _ H2) as Hs2;
    rewrite H1 in Hs2; [|exists Unchanged; by split; [apply file_of_target|]..].
  destruct prev as [prev|].
  2: { injection H as <- <-. apply readPrivateFileBytes_ok in H2. exists Changed. split; [|done].
       unfold file_of. by rewrite Hs2, <- H1, H2. }
  destruct s2 as [d2 i2].
  apply bindF_inv in H as [(u3 & s3 & H3 & H)|[[H3 ->]|[H3 ->]]]; apply call_inv in H3 as [[Ho ->]|[Hno ->]];
    [|by destruct (Hno u3)|discriminate Ho|by exists Unchanged; split; [apply file_of_target|]|discriminate Ho
     |by exists Unchanged; split; [apply file_of_target|]].
  apply elseF_inv in H as [(u4 & s4 & H4 & [= <- <-])|[(s4 & H4 & H)|[H4 ->]]]; apply still_syncDirectory in H4; cbn in H4.
  - exists Changed. split; [|done]. unfold file_of. by rewrite H4.
  - apply ignored_inv in H as [Hno [o1 H5]]. apply restore_spec in H5 as [H5|H5].
    + exists Unchanged. split; [rewrite (file_of_restored _ _ _ _ H2 H5); by apply file_of_target|].
      destruct o as [[[]|]|]; [by destruct (Hno tt) | done | done].
    + exists ChangedWithError. split; [unfold file_of; by rewrite H5, H4|]. destruct o as [[[]|]|]; [by destruct (Hno tt) | done | done].
  - exists Changed. split; [|done]. unfold file_of. by rewrite H4.
Qed.

Lemma readJSONFile_steps_ok s r s' :
  readJSONFile_steps decode s = (Return (Some r), s') ->
  file_of decode s.1 = (match r with Some v => Stored v | None => Absent end) /\ file_of decode s'.1 = file_of decode s.1.
Proof.
  intros H. unfold readJSONFile_steps in H. apply bindF_inv in H as [(b & s1 & H1 & H)|[[_ [=]]|[_ [=]]]].
  pose proof (still_readPrivateFileBytes _ _ _ H1) as Hs. apply readPrivateFileBytes_ok in H1. unfold file_of.
  destruct b as [body|]; [|injection H as <- <-; by rewrite Hs, H1].
  destruct H1 as (info & Ht & Hp). destruct (decode body) as [v|] eqn:Hd; [|done]. injection H as <- <-.
  rewrite Hs, Ht, Hp. cbn. by rewrite Hd.
Qed.

(** The capability state as its reader sees it. *)
Definition state_of (d : Disk) : file A :=
  match dk_target d with
  | None => Absent
  | Some t => if validatePrivateFileInfo t.1 && (slen t.2 <=? maximumCapabilityBytes)
              then match decode t.2 with Some v => Stored v | None => Unreadable end else Unreadable
  end.

Lemma still_committed_state : still_target committed_state.
Proof. apply still_of_targets. intros t. unfold committed_state, look. targets_tac. Qed.

(** What a step that only looks leaves: the whole disk. *)
Definition same_disk {B} (m : F B) : Prop := forall s o s', m s = (o, s') -> s'.1 = s.1.
Lemma same_bind {B C} (m : F B) (k : B -> F C) : same_disk m -> (forall a, same_disk (k a)) -> same_disk (bindF m k).
Proof. intros Hm Hk s o s' [(?&s1&H1&H2)|[[H1 _]|[H1 _]]]%bindF_inv; [|by eapply Hm..]. etrans; [by eapply Hk | by eapply Hm]. Qed.
Lemma same_look {B} (r : Disk -> B) : same_disk (look r).
Proof. intros [d i] o s' [[_ ->]|[_ ->]]%call_inv; done. Qed.
Lemma same_ok {B} (b : B) : same_disk (okF b). Proof. intros s o s' H. by injection H as <- <-. Qed.
Lemma same_err {B} : same_disk (@errF B). Proof. intros s o s' H. by injection H as <- <-. Qed.

Lemma same_sys : same_disk (sys (fun d => d)).
Proof. intros [d i] o s' [[_ ->]|[_ ->]]%call_inv; done. Qed.
Lemma same_samefile : same_disk SameFile.
Proof. intros [d i] o s' H. by injection H as <- <-. Qed.

Ltac same_tac :=
  repeat first
    [ apply same_look | apply same_sys | apply same_samefile | apply same_ok | apply same_err
    | apply same_bind; [|intros ?]
    | match goal with |- same_disk (match ?x with _ => _ end) => destruct x end ].
Lemma same_private_temporary : same_disk private_temporary.
Proof. unfold private_temporary. same_tac. Qed.
Lemma same_replaceable_target : same_disk replaceable_target.
Proof. unfold replaceable_target. same_tac. Qed.
Lemma same_verifyPrivateDirectory : same_disk verifyPrivateDirectory.
Proof. unfold verifyPrivateDirectory. same_tac. Qed.

(** A step that only looks, in a sequence. *)
Lemma look_step {B C} (m : F B) (k : B -> F C) d i o s' :
  same_disk m -> bindF m k (d, i) = (o, s') ->
  (exists b j, k b (d, j) = (o, s')) \/ ((forall c, o <> Return (Some c)) /\ s'.1 = d).
Proof.
  intros Hm [(b & [d1 j] & H1 & H2)|[[H1 ->]|[H1 ->]]]%bindF_inv; apply Hm in H1; cbn in H1; subst; [left; eauto | by right..].
Qed.

Lemma fill_state_spec body l s o s' :
  dk_temporary s.1 = (new_temporary, "") :: l ->
  (step sys (map_temporary (chmod 384)) ;
   step private_temporary ;
   step sys (map_temporary (fun t => (t.1, body))) ;
   step sys (fun d => d) ;
   step sys (fun d => d) ;
   step verifyPrivateDirectory ;
   step replaceable_target ;
   sys rename_temporary) s = (o, s') ->
  (o = Return (Some tt) /\ dk_target s'.1 = Some (new_temporary, body)) \/
  ((forall u, o <> Return (Some u)) /\ dk_target s'.1 = dk_target s.1).
Proof.
  destruct s as [d i]. cbn. intros Hl H. sys_step H. unfold map_temporary in H. rewrite Hl in H.
  apply look_step in H as [(b & j & H)|[? ->]]; [|by right|apply same_private_temporary].
  sys_step H. cbn in H. sys_step H. sys_step H.
  apply look_step in H as [(b2 & j2 & H)|[? ->]]; [|by right|apply same_verifyPrivateDirectory].
  apply look_step in H as [(b3 & j3 & H)|[? ->]]; [|by right|apply same_replaceable_target].
  apply call_inv in H as [[-> ->]|[Hno ->]]; [by left | by right].
Qed.

Lemma writeStateFile_spec valid v body s o s' :
  encode v = Some body -> decode body = Some v -> slen body <= maximumCapabilityBytes ->
  writeStateFile valid encode v s = (o, s') ->
  exists c, state_of s'.1 = after c (Stored v) (state_of s.1) /\ answers c o.
Proof.
  intros He Hd Hl H. unfold writeStateFile in H.
  assert (forall d, dk_target d = dk_target s.1 -> state_of d = state_of s.1) as Hold by (intros d Ht; unfold state_of; by rewrite Ht).
  assert (forall d, dk_target d = Some (new_temporary, body) -> state_of d = Stored v) as Hnew.
  { intros d Ht. unfold state_of. rewrite Ht. cbn. unfold validatePrivateFileInfo, validateCurrentOwner. cbn.
    rewrite Z.eqb_refl. apply Z.leb_le in Hl. rewrite Hl. cbn. by rewrite Hd. }
  destruct (valid v); [|injection H as <- <-; by exists Unchanged]. rewrite He in H. destruct s as [d i]. cbn [fst] in *.
  apply look_step in H as [(b & j & H)|[Hno Hs]]; [| |apply same_verifyPrivateDirectory].
  2: { exists Unchanged. split; [apply Hold; by rewrite Hs|]. destruct o as [[[]|]|]; [by destruct (Hno tt) | done | done]. }
  apply bindF_inv in H as [(u & s1 & H1 & H)|[[H1 ->]|[H1 ->]]]; apply call_inv in H1 as [[Ho ->]|[Hno ->]];
    [|by destruct (Hno u)|discriminate Ho|by exists Unchanged; split; [apply Hold|]|discriminate Ho
     |by exists Unchanged; split; [apply Hold|]].
  apply elseF_inv in H as [(u2 & s2 & H2 & H)|[(s2 & H2 & H)|[H2 ->]]];
    eapply fill_state_spec in H2; try done; destruct H2 as [[Ho2 Ht]|[Hno Ht]];
    [|by destruct (Hno u2)|discriminate Ho2| |discriminate Ho2|by exists Unchanged; split; [apply Hold|]].
  - assert (dk_target s'.1 = Some (new_temporary, body)) as Ht'.
    { rewrite <- Ht. apply bindF_inv in H as [(u3 & s3 & H3 & H)|[[H3 ->]|[H3 ->]]]; apply still_committed_state in H3; [|done..].
      apply still_syncConsoleStore in H. congruence. }
    rewrite (Hnew _ Ht'). destruct o as [[[]|]|]; [exists Changed | exists ChangedWithError | exists Changed]; done.
  - apply ignored_inv in H as [Hno' [o1 H1]]. exists Unchanged. split.
    + apply Hold. destruct s2 as [d2 i2]. apply call_inv in H1 as [[_ ->]|[_ ->]]; exact Ht.
    + destruct o as [[[]|]|]; [by destruct (Hno' tt) | done | done].
Qed.

End Codec.


End Facts.

(** A disk on which one system call fails. *)
Definition demo_system : System := {| s_alive := fun _ => true; s_call := fun i => negb (i =? 9)%nat; s_same := fun _ => true; s_uid := 0 |}.
Definition demo_disk : St := (mkDisk (Some (mkInfo false true false 448 (Some 0) (Some 2))) None [], 0%nat).


(** ** Passwords *)

(** ** Splitting what was joined *)

Definition lacks (c a : ascii) : bool := a !=? c.

Lemma SplitAt_lacks c s : sall (lacks c) s = true -> SplitAt c s = [s].
Proof.
  induction s as [|a s IH]; [done|]. cbn. unfold lacks at 1. intros [H1 H2]%andb_true_iff.
  apply negb_true_iff in H1. by rewrite H1, IH.
Qed.
Lemma SplitAt_app c s r : sall (lacks c) s = true -> SplitAt c (s +:+ String c r) = s :: SplitAt c r.
Proof.
  induction s as [|a s IH]; intros Hs.
  - change (SplitAt c (String c r) = "" :: SplitAt c r). cbn [SplitAt]. by rewrite bool_decide_eq_true_2.
  - change (SplitAt c (String a (s +:+ String c r)) = String a s :: SplitAt c r). cbn [SplitAt].
    cbn [sall] in Hs. unfold lacks at 1 in Hs. apply andb_true_iff in Hs as [H1 H2]. apply negb_true_iff in H1.
    by rewrite H1, IH.
Qed.

Section Password.
Context {A : Argon2}.

Lemma parsePasswordPHC_hash salt hash :
  length salt = argonSaltBytes -> length hash = argonKeyBytes -> Forall is_byte salt -> Forall is_byte hash ->
  parsePasswordPHC ("$argon2id$v=19$" +:+ phc_parameters +:+ "$" +:+ b64std_encode salt +:+ "$" +:+ b64std_encode hash) =
  Some (salt, hash).
Proof.
  intros Hs Hh Hbs Hbh. unfold parsePasswordPHC, phc_parameters.
  assert (forall l, Forall is_byte l -> sall (lacks "$") (b64std_encode l) = true) as Hl.
  { intros l Hl. apply b64std_chars; [|done]. repeat constructor. }
  change ("$argon2id$v=19$" +:+ "m=65536,t=3,p=2" +:+ "$" +:+ b64std_encode salt +:+ "$" +:+ b64std_encode hash)
    with ("" +:+ String "$" ("argon2id" +:+ String "$" ("v=19" +:+ String "$" ("m=65536,t=3,p=2" +:+
          String "$" (b64std_encode salt +:+ String "$" (b64std_encode hash)))))).
  rewrite !SplitAt_app by (try done; by apply Hl). rewrite SplitAt_lacks by (by apply Hl).
  rewrite !b64std_decode_encode by done. rewrite Hs, Hh. reflexivity.
Qed.

(** C37: a stored password verifies.  Hashing a password of 1 to 1024 bytes with
    a salt of 16 bytes succeeds; the stored text verifies with that password,
    and any other attempt verifies exactly when Argon2id gives it the same key
    under the stored salt. *)
Theorem password_round_trip (password : string) (salt : list Z) :
  validatePasswordInput password = true -> length salt = argonSaltBytes -> Forall is_byte salt ->
  exists phc, hashPassword (Some salt) password = Some phc /\ VerifyPassword phc password = Some true /\
    forall attempt, slen attempt <= maximumPasswordBytes ->
      VerifyPassword phc attempt = Some (bool_decide (IDKey (string_bytes attempt) salt = IDKey (string_bytes password) salt)).
Proof.
  intros Hp Hl Hb. unfold hashPassword. rewrite Hp. cbn [negb].
  set (phc := _ +:+ _). exists phc. split; [done|].
  assert (forall attempt, slen attempt <= maximumPasswordBytes ->
    VerifyPassword phc attempt = Some (bool_decide (IDKey (string_bytes attempt) salt = IDKey (string_bytes password) salt))) as Hv.
  { intros attempt Ha. unfold VerifyPassword. replace (maximumPasswordBytes <? slen attempt) with false by (symmetry; by apply Z.ltb_ge).
    unfold phc. rewrite parsePasswordPHC_hash; [done|done|apply IDKey_length|done|apply IDKey_bytes]. }
  split; [|exact Hv]. rewrite Hv; [by rewrite bool_decide_eq_true_2|].
  unfold validatePasswordInput in Hp. apply negb_true_iff, orb_false_iff in Hp as [_ Hp]. by apply Z.ltb_ge.
Qed.

End Password.

Lemma password_round_trip_witness :
  exists phc, @hashPassword demo_argon2 (Some (repeat 7 16)) demo_password = Some phc /\
    @VerifyPassword demo_argon2 phc demo_password = Some true /\ @VerifyPassword demo_argon2 phc "guess" = Some false.
Proof.
  assert (Hb : Forall is_byte (repeat 7 16)) by (repeat constructor; unfold is_byte; lia).
  destruct (@password_round_trip demo_argon2 demo_password (repeat 7 16) eq_refl eq_refl Hb) as (phc & H1 & H2 & H3).
  exists phc. split; [exact H1|]. split; [exact H2|].
  rewrite H3 by (vm_compute; discriminate). vm_compute. reflexivity.
Defined.
