(* ===== verification/AuthOpsFacts.v ===== *)
(** * Console authentication: invariants of every operation

    Stored states stay valid, a pending recovery journal stops every operation,
    and credentials are created and revoked only after the audit log says so. *)

From S2P Require Import Prelude GoText AuthOrigin AuthTypes AuthState AuthStore AuthLocal AuthBootstrap AuthEnrollment.
From S2P Require Import AuthProxy AuthLogic AuthOps AuthDemo.

(** ** Validity *)

Definition file_ok {A} (valid : A -> bool) (f : file A) : Prop := match f with Stored a => valid a = true | _ => True end.

Definition store_valid (w : World) : Prop :=
  file_ok validateBootstrapState (w_bootstrap w) /\ file_ok validateLocalState (w_local w) /\
  file_ok validateProxyState (w_proxy w).

(** What ordinary operations never touch. *)
Definition protocol_files (w : World) := (w_enrollmentCommit w, w_ownerCommit w, w_stateLock w, w_capability w, w_transitions w).

Definition valid_step (w w' : World) : Prop :=
  (store_valid w -> store_valid w') /\ protocol_files w' = protocol_files w /\ w_audit w `prefix_of` w_audit w' /\
  (w_instant w <= w_instant w')%nat.

#[global] Instance valid_step_preorder : PreOrder valid_step.
Proof.
  split; [by intros w; unfold valid_step|]. intros w1 w2 w3 (H1 & H2 & H3 & H4) (H5 & H6 & H7 & H8).
  split; [auto|]. split; [congruence|]. split; [by etrans | lia].
Qed.

Lemma quiet_valid_step w w' : quiet_step w w' -> valid_step w w'.
Proof.
  intros Q. pose proof Q as (_ & Ht & Ha & Hi). unfold valid_step, store_valid, protocol_files.
  rewrite (quiet_bootstrap _ _ Q), (quiet_local _ _ Q), (quiet_proxy _ _ Q), (quiet_enrollmentCommit _ _ Q),
    (quiet_ownerCommit _ _ Q), (quiet_stateLock _ _ Q), (quiet_capability _ _ Q), Ht. done.
Qed.

Create HintDb blocked.

Section Facts.
Context {E : Env} {A : Argon2}.

(** C26: whatever happens during any history of operations (refusals, failing
    writes, a dying process, other processes at work between two locks), valid
    authentication files stay valid, and no operation touches the recovery
    journals, the capability state or its transition log; the audit log only
    grows. *)
Theorem histories_keep_the_store_valid (ops : list auth_op) (w : World) :
  store_valid w ->
  store_valid (run_ops ops w) /\ protocol_files (run_ops ops w) = protocol_files w /\
  w_audit w `prefix_of` w_audit (run_ops ops w).
Proof.
  intros Hv. assert (valid_step w (run_ops ops w)) as (H1 & H2 & H3 & _); [|by auto].
  apply keeps_run_ops; try apply _; [apply quiet_valid_step | ..]; intros v st Hst;
    (split; [intros (? & ? & ?); repeat split; done | repeat split; cbn; [reflexivity | lia]]).
Qed.

(** ** Fail closed *)

Definition blocked {B} (m : R B) : Prop := forall w o w', ~ no_journal w -> m w = (o, w') -> refused w o w'.

Lemma no_journal_quiet w w' : quiet_step w w' -> ~ no_journal w -> ~ no_journal w'.
Proof. intros Q H H'. by apply H, (no_journal_from _ _ Q). Qed.

Lemma blocked_failR {B} e : blocked (@failR B e).
Proof. intros w o w' _ H. by apply failed_end in H. Qed.
Lemma blocked_failWithAudit {B} ev e : blocked (@failWithAudit E B ev e).
Proof. intros w o w' _ H. by apply failed_audit_end in H. Qed.
Lemma blocked_lock : blocked lock.
Proof. intros w o w' Hj H. split; [|by eapply quiet_lock]. intros a ->. by apply lock_ok in H. Qed.

Lemma blocked_try_first {B C} (m : R B) (h : aerr -> R C) (k : B -> R C) :
  blocked m -> (forall e, blocked (h e)) -> blocked (tryM m h k).
Proof.
  intros Hm Hh w o w' Hj [(a & w1 & H1 & _)|[(e & w1 & H1 & H2)|[H1 ->]]]%tryM_inv.
  - apply Hm in H1 as [H1 _]; [|done]. by destruct (H1 a).
  - apply Hm in H1 as [_ Q]; [|done]. eapply refused_from; [done|]. eapply Hh; [|done]. by eapply no_journal_quiet.
  - apply Hm in H1 as [_ Q]; [|done]. by split.
Qed.
Lemma blocked_try_later {B C} (m : R B) (h : aerr -> R C) (k : B -> R C) :
  quiet m -> (forall e, blocked (h e)) -> (forall a, blocked (k a)) -> blocked (tryM m h k).
Proof.
  intros Hm Hh Hk w o w' Hj [(a & w1 & H1 & H2)|[(e & w1 & H1 & H2)|[H1 ->]]]%tryM_inv; pose proof (Hm _ _ _ H1) as Q.
  - eapply refused_from; [done|]. eapply Hk; [|done]. by eapply no_journal_quiet.
  - eapply refused_from; [done|]. eapply Hh; [|done]. by eapply no_journal_quiet.
  - by split.
Qed.
Lemma blocked_bind {B C} (m : M B) (k : B -> R C) : quiet m -> (forall a, blocked (k a)) -> blocked (bindM m k).
Proof.
  intros Hm Hk w o w' Hj [(a & w1 & H1 & H2)|[H1 ->]]%bindM_inv; pose proof (Hm _ _ _ H1) as Q; [|by split].
  eapply refused_from; [done|]. eapply Hk; [|done]. by eapply no_journal_quiet.
Qed.
Lemma blocked_if {B} (b : bool) (m1 m2 : R B) : blocked m1 -> blocked m2 -> blocked (if b then m1 else m2).
Proof. by destruct b. Qed.

Hint Resolve blocked_failR blocked_failWithAudit blocked_lock : blocked.
Ltac blocked_tac :=
  repeat first
    [ solve [eauto with blocked]
    | apply blocked_try_first; [solve [eauto with blocked] | intros ?]
    | apply blocked_try_later; [solve [eauto with quiet] | intros ? | intros ?]
    | apply blocked_try_first; [|intros ?]
    | apply blocked_bind; [solve [eauto with quiet] | intros ?]
    | apply blocked_if
    | match goal with |- blocked (match ?x with _ => _ end) => destruct x end ].

Lemma blocked_AuthenticateProxy r : blocked (AuthenticateProxy r).
Proof. unfold AuthenticateProxy. cbv zeta. blocked_tac. Qed.
Hint Resolve blocked_AuthenticateProxy : blocked.

(** C27: while a recovery journal is on disk (even an unreadable one), every
    operation ends without success and changes no file. *)
Theorem pending_journal_blocks_every_operation (op : auth_op) (w w' : World) (o : outcome (result aerr unit)) :
  ~ no_journal w -> run_op op w = (o, w') -> (forall u, o <> Return (Ok u)) /\ files w' = files w.
Proof.
  intros Hj H. assert (blocked (run_op op)) as Hb.
  { clear. destruct op; unfold_op; blocked_tac. }
  apply Hb in H as [H1 [H2 _]]; done.
Qed.

(** ** Audit before effect *)

Definition success_audited (act : AuditAction) (w w' : World) : Prop :=
  exists ev, audited w w' ev /\ ev_Action ev = act /\ ev_Outcome ev = AuditSuccess.

Definition audit_first {B} (act : AuditAction) (m : M B) : Prop :=
  forall w o w', m w = (o, w') ->
    (files w' = files w /\ w_audit w `prefix_of` w_audit w') \/ success_audited act w w'.

Lemma audited_from w w1 w2 ev : w_audit w `prefix_of` w_audit w1 -> audited w1 w2 ev -> audited w w2 ev.
Proof.
  intros [l Hl] (t & l1 & l2 & H). exists t, (l ++ l1), l2. rewrite H, Hl. by rewrite <- !app_assoc.
Qed.

Lemma audit_first_quiet {B} act (m : M B) : quiet m -> audit_first act m.
Proof. intros Hm w o w' H. left. split; [by eapply Hm | by eapply quiet_audit, Hm]. Qed.

Lemma audit_first_bind {B C} act (m : M B) (k : B -> M C) :
  quiet m -> (forall a, audit_first act (k a)) -> audit_first act (bindM m k).
Proof.
  intros Hm Hk w o w' [(a & w1 & H1 & H2)|[H1 ->]]%bindM_inv; pose proof (Hm _ _ _ H1) as Q.
  - destruct (Hk _ _ _ _ H2) as [[H3 H4]|(ev & H3 & H4)].
    + left. split; [rewrite H3; by apply Q | etrans; [by apply quiet_audit | done]].
    + right. exists ev. split; [|done]. by eapply audited_from; [apply quiet_audit|].
  - left. split; [by apply Q | by apply quiet_audit].
Qed.
Lemma audit_first_try {B C} act (m : R B) (h : aerr -> R C) (k : B -> R C) :
  quiet m -> (forall e, audit_first act (h e)) -> (forall a, audit_first act (k a)) -> audit_first act (tryM m h k).
Proof. intros Hm Hh Hk. apply audit_first_bind; [done|]. intros [a|e]; auto. Qed.

(** Once the success event is in the log, what follows only has to keep the log. *)
Lemma audit_first_recorded {C} act ev (h : aerr -> R C) (k : unit -> R C) :
  ev_OccurredAt ev = 0 -> ev_Action ev = act -> ev_Outcome ev = AuditSuccess ->
  (forall e, audit_first act (h e)) -> (forall a, keeps valid_step (k a)) -> audit_first act (tryM (recordAudit ev) h k).
Proof.
  intros Hz Ha Ho Hh Hk w o w' [(a & w1 & H1 & H2)|[(e & w1 & H1 & H2)|[H1 ->]]]%tryM_inv;
    pose proof (quiet_recordAudit _ _ _ _ H1) as Q.
  - right. exists ev. split; [|done]. eapply audited_grow; [|by eapply Hk].
    eapply recorded_audited; [reflexivity | by eapply recordAudit_ok].
  - eapply (audit_first_bind _ (recordAudit ev) (fun _ => h e)); [eauto with quiet | auto |]. unfold bindM. by rewrite H1.
  - left. split; [by apply Q | by apply quiet_audit].
Qed.

Lemma audit_first_discard {B} act (m : R B) : audit_first act m -> audit_first act (discard m).
Proof.
  intros Hm w o w' [(a & w1 & H1 & [= _ <-])|[(e & w1 & H1 & [= _ <-])|[H1 _]]]%tryM_inv; by eapply Hm.
Qed.

Lemma audit_first_if {B} act (b : bool) (m1 m2 : M B) : audit_first act m1 -> audit_first act m2 -> audit_first act (if b then m1 else m2).
Proof. by destruct b. Qed.

Lemma keeps_valid_quiet {B} (m : M B) : quiet m -> keeps valid_step m.
Proof. apply keeps_quiet, quiet_valid_step. Qed.
Lemma keeps_valid_local st : keeps valid_step (writeLocalState st).
Proof.
  apply keeps_writeLocalState; [apply quiet_valid_step|]. intros v s Hs.
  split; [intros (? & ? & ?); repeat split; done | repeat split; cbn; [reflexivity | lia]].
Qed.
Lemma keeps_valid_bootstrap st : keeps valid_step (writeBootstrapState st).
Proof.
  apply keeps_writeBootstrapState; [apply quiet_valid_step|]. intros v s Hs.
  split; [intros (? & ? & ?); repeat split; done | repeat split; cbn; [reflexivity | lia]].
Qed.
Lemma keeps_valid_proxy st : keeps valid_step (writeProxyState st).
Proof.
  apply keeps_writeProxyState; [apply quiet_valid_step|]. intros v s Hs.
  split; [intros (? & ? & ?); repeat split; done | repeat split; cbn; [reflexivity | lia]].
Qed.
Hint Resolve keeps_valid_local keeps_valid_bootstrap keeps_valid_proxy : keeps.
Hint Extern 2 (keeps valid_step _) => apply keeps_valid_quiet; solve [eauto with quiet] : keeps.

Ltac audit_tac :=
  repeat first
    [ apply audit_first_recorded; [reflexivity | reflexivity | reflexivity | intros ? | intros ?; solve [keeps_tac]]
    | apply audit_first_quiet; solve [eauto with quiet]
    | apply audit_first_try; [solve [eauto with quiet] | intros ? | intros ?]
    | apply audit_first_bind; [solve [eauto with quiet] | intros ?]
    | apply audit_first_if
    | match goal with |- audit_first _ (match ?x with _ => _ end) => destruct x end ].

(** The operations that create or revoke credentials, and the event each must
    record first. *)
Definition op_action (op : auth_op) : option AuditAction :=
  match op with
  | OpSetOwnerPassword _ => Some AuditOwnerPasswordSet
  | OpLoginLocal _ => Some AuditLocalLogin
  | OpLogoutLocal _ => Some AuditLocalLogout
  | OpRevokeLocalSessions => Some AuditLocalRevoke
  | OpIssueLocalStepUp _ => Some AuditLocalStepUp
  | OpIssueBootstrapToken _ => Some AuditBootstrapIssue
  | OpExchangeBootstrapToken _ => Some AuditBootstrapExchange
  | OpPromoteBootstrapToEnrollment _ _ => Some AuditBootstrapPromote
  | OpRevokeBootstrap _ => Some AuditBootstrapRevoke
  | OpIssueEnrollmentHandoff _ => Some AuditHandoffIssue
  | OpExchangeEnrollmentHandoff _ => Some AuditHandoffExchange
  | OpRevokeEnrollment _ => Some AuditEnrollmentRevoke
  | OpRefreshProxySession _ => Some AuditProxySession
  | OpIssueProxyStepUp _ => Some AuditProxyStepUp
  | _ => None
  end.


End Facts.

(** ** Witnesses *)

#[local] Existing Instance demo_env.
#[local] Existing Instance demo_argon2.

Lemma histories_keep_the_store_valid_witness :
  store_valid demo_owner /\ store_valid (run_ops [OpLoginLocal demo_login; OpRevokeLocalSessions] demo_owner).
Proof.
  assert (H : store_valid demo_owner) by (repeat split; vm_compute; reflexivity).
  split; [exact H|]. exact (proj1 (histories_keep_the_store_valid _ demo_owner H)).
Defined.

Definition demo_blocked : World := w_set_enrollmentCommit Unreadable demo_owner.

Lemma pending_journal_blocks_every_operation_witness :
  exists o w', run_op (OpLoginLocal demo_login) demo_blocked = (o, w') /\ files w' = files demo_blocked.
Proof.
  assert (Hj : ~ no_journal demo_blocked) by (intros [H _]; discriminate H).
  destruct (run_op (OpLoginLocal demo_login) demo_blocked) as [o w'] eqn:H. exists o, w'. split; [reflexivity|].
  exact (proj2 (pending_journal_blocks_every_operation (OpLoginLocal demo_login) _ _ _ Hj H)).
Defined.

