(* ===== verification/AuthLocalFacts.v ===== *)
(** * Console authentication: local sessions and step-up proofs

    What each operation of the local owner does to the stored state on every
    run, and what follows for the life of sessions and proofs. *)

From S2P Require Import Prelude GoText AuthOrigin AuthTypes AuthState AuthStore AuthLocal AuthBootstrap AuthEnrollment.
From S2P Require Import AuthProxy AuthLogic AuthOps.

Lemma find_session_some {V} (m : gmap string V) token r : find_session m token = Some r -> m !! credentialDigest token = Some r.
Proof. unfold find_session. destruct (m !! _); [|done]. by destruct (digestMatches _ _). Qed.

Lemma expired_false now a b : expired now a b = false -> now < a /\ now < b.
Proof. unfold expired, Before. rewrite orb_false_iff, !negb_false_iff, !Z.ltb_lt. done. Qed.

Lemma neqb_false {T} `{EqDecision T} (x y : T) : (x !=? y) = false -> x = y.
Proof. rewrite negb_false_iff, bool_decide_eq_true. done. Qed.

Lemma csrf_guard (require : bool) (ok : bool) : require && negb ok = false -> require = true -> ok = true.
Proof. by destruct require, ok. Qed.

(** Turn the tests an operation has passed into what they say. *)
Ltac tidy :=
  repeat match goal with
  | B : find_session _ _ = Some _ |- _ => apply find_session_some in B
  | B : expired _ _ _ = false |- _ => apply expired_false in B as [? ?]
  | B : (_ !=? _) = false |- _ => apply neqb_false in B as <-
  | B : _ && negb (digestMatches _ _) = false |- _ => pose proof (csrf_guard _ _ B); clear B
  | B : negb (After _ _) = false |- _ => apply negb_false_iff, Z.ltb_lt in B
  end.
(** The end of a run that succeeded without touching a file. *)
Ltac end_ok H := injection H as <- <-.

Section Specs.
Context {E : Env} {A : Argon2}.

Definition loaded_local (w : World) (st : localStateFile) : Prop :=
  exists ex, loaded (w_local w) validateLocalState newLocalState st ex.

(** The state [LoginLocal] writes. *)
Definition login_record (origin csrf : string) (now : Time) : localSessionRecord :=
  mkLocalSession (credentialDigest csrf) origin now (TimeAdd now LocalSessionAbsoluteTTL) (TimeAdd now LocalSessionIdleTTL).
Definition login_state (origin token csrf : string) (now : Time) (st : localStateFile) : localStateFile :=
  let s := sweep_sessions now st in
  lf_with s (<[credentialDigest token := login_record origin csrf now]> (lf_Sessions s))
            (pruneExpiredLocalStepUps (lf_StepUps s) now).

Lemma SetOwnerPassword_spec password w o w' :
  SetOwnerPassword password w = (o, w') ->
  refused w o w' \/
  exists st phc f, loaded_local w st /\ no_journal w /\ hashPassword (Some (read_full argonSaltBytes f)) password = Some phc /\
    changes w_set_local (mkLocalState (lf_APIVersion st) phc ∅ ∅) w w' /\ done_or_failed o tt.
Proof.
  intros H. assert (Q : quiet_step w w) by reflexivity. unfold SetOwnerPassword in H. walk Q H. finish Q H.
  unfold loaded_local. eauto 10.
Qed.

Lemma LoginLocal_spec req w o w' :
  LoginLocal req w = (o, w') ->
  refused w o w' \/
  exists st origin token csrf now, loaded_local w st /\ no_journal w /\ NormalizeOrigin (ll_Origin req) = Some origin /\
    VerifyPassword (lf_OwnerPasswordPHC st) (ll_Password req) = Some true /\ clock_reading w w' now /\
    changes w_set_local (login_state origin token csrf now st) w w' /\
    done_or_failed o (mkLocalCredential token csrf origin now (TimeAdd now LocalSessionAbsoluteTTL) (TimeAdd now LocalSessionIdleTTL)).
Proof.
  intros H. assert (Q : quiet_step w w) by reflexivity. unfold LoginLocal in H. walk Q H. finish Q H.
  destruct b; [|done]. exists a0, s, a1, a2, a3. split; [by eexists|]. done.
Qed.
(** What an accepted session token shows: a stored session, live at [now], bound
    to the request's origin. *)
Definition accepted_session (w : World) (st : localStateFile) (token origin : string) (now : Time) (r : localSessionRecord) : Prop :=
  loaded_local w st /\ no_journal w /\ lf_Sessions st !! credentialDigest token = Some r /\
  now < ls_ExpiresAt r /\ now < ls_IdleExpiresAt r /\ NormalizeOrigin origin = Some (ls_Origin r).

Lemma nextIdleExpiry_bound now absolute ttl : nextIdleExpiry now absolute ttl <= absolute.
Proof. unfold nextIdleExpiry, After, TimeAdd. destruct (_ <? _) eqn:H; [|apply Z.ltb_ge in H]; lia. Qed.

Lemma AuthenticateLocal_spec req w o w' :
  AuthenticateLocal req w = (o, w') ->
  refused w o w' \/
  exists st r now, accepted_session w st (la_SessionToken req) (la_Origin req) now r /\ clock_reading w w' now /\
    (la_RequireCSRF req = true -> digestMatches (ls_CSRFDigest r) (la_CSRFToken req) = true) /\
    ((quiet_step w w' /\ o = Return (Ok (local_principal r))) \/
     exists idle, ls_IdleExpiresAt r < idle <= ls_ExpiresAt r /\ la_ObserveOnly req = false /\
       changes w_set_local (lf_with st (<[credentialDigest (la_SessionToken req) := ls_with_idle r idle]> (lf_Sessions st))
                                    (lf_StepUps st)) w w' /\
       done_or_failed o (local_principal (ls_with_idle r idle))).
Proof.
  intros H. assert (Q : quiet_step w w) by reflexivity. unfold AuthenticateLocal in H. walk Q H. 3: finish Q H.
  all: tidy. 1, 2: end_ok H; right.
  all: exists a0, l, a1; split; [by split; [by eexists|]|]; split; [done|]; split; [done|].
  1, 2: by left.
  right. exists (nextIdleExpiry a1 (ls_ExpiresAt l) LocalSessionIdleTTL). split; [|done].
  split; [done | apply nextIdleExpiry_bound].
Qed.

Lemma RefreshLocalSession_spec req w o w' :
  RefreshLocalSession req w = (o, w') ->
  refused w o w' \/
  exists st r now csrf idle, accepted_session w st (lr_SessionToken req) (lr_Origin req) now r /\ idle <= ls_ExpiresAt r /\
    changes w_set_local (lf_with st (<[credentialDigest (lr_SessionToken req) :=
      mkLocalSession (credentialDigest csrf) (ls_Origin r) (ls_CreatedAt r) (ls_ExpiresAt r) idle]> (lf_Sessions st)) (lf_StepUps st)) w w' /\
    done_or_failed o (mkLocalCredential "" csrf (ls_Origin r) (ls_CreatedAt r) (ls_ExpiresAt r) idle).
Proof.
  intros H. assert (Q : quiet_step w w) by reflexivity. unfold RefreshLocalSession in H. walk Q H. finish Q H. tidy.
  exists a1, l, a2, a, (nextIdleExpiry a2 (ls_ExpiresAt l) LocalSessionIdleTTL).
  split; [by split; [by eexists|]|]. split; [apply nextIdleExpiry_bound | done].
Qed.

Lemma LogoutLocal_spec req w o w' :
  LogoutLocal req w = (o, w') ->
  refused w o w' \/
  exists st, loaded_local w st /\
    changes w_set_local (lf_with st (delete (credentialDigest (lo_SessionToken req)) (lf_Sessions st))
                           (deleteLocalSessionStepUps (lf_StepUps st) (credentialDigest (lo_SessionToken req)))) w w'.
Proof.
  intros H. assert (Q : quiet_step w w) by reflexivity. unfold LogoutLocal in H. walk Q H. finish Q H.
  exists a0. split; [by eexists | done].
Qed.

Lemma RevokeLocalSessions_spec w o w' :
  RevokeLocalSessions w = (o, w') ->
  refused w o w' \/ exists st, loaded_local w st /\ changes w_set_local (lf_with st ∅ ∅) w w'.
Proof.
  intros H. assert (Q : quiet_step w w) by reflexivity. unfold RevokeLocalSessions in H. walk Q H. finish Q H.
  exists a0. split; [by eexists | done].
Qed.

Lemma IssueLocalStepUp_spec req w o w' :
  IssueLocalStepUp req w = (o, w') ->
  refused w o w' \/
  exists st r now token, accepted_session w st (su_SessionToken req) (su_Origin req) now r /\ clock_reading w w' now /\
    VerifyPassword (lf_OwnerPasswordPHC st) (su_Password req) = Some true /\
    changes w_set_local (lf_with st (lf_Sessions st) (<[credentialDigest token :=
      mkStepUpRecord (credentialDigest (su_SessionToken req)) (su_Action req) (su_WorkspaceID req) (su_TargetID req)
        (su_StateDigest req) now (TimeAdd now LocalStepUpTTL)]> (pruneExpiredLocalStepUps (lf_StepUps st) now))) w w' /\
    done_or_failed o (mkStepUpCredential token (credentialDigest token) (credentialDigest (su_SessionToken req)) (su_Action req)
      (su_WorkspaceID req) (su_TargetID req) (su_StateDigest req) now (TimeAdd now LocalStepUpTTL)).
Proof.
  intros H. assert (Q : quiet_step w w) by reflexivity. unfold IssueLocalStepUp in H. walk Q H. finish Q H.
  destruct b; [|done]. destruct (NormalizeOrigin (su_Origin req)) as [origin|] eqn:Ho; [|done]. change (default "" (Some origin)) with origin in *. tidy.
  exists a0, l, a1, (stepUpToken a2). split; [by split; [by eexists|]|]. done.
Qed.

(** An accepted proof: stored, unexpired, of the live session, and for exactly
    the requested action and object. *)
Definition accepted_proof (w : World) (st : localStateFile) (req : LocalStepUpAuthenticationRequest) (now : Time)
    (s : localSessionRecord) (r : localStepUpRecord) : Prop :=
  accepted_session w st (sa_SessionToken req) (sa_Origin req) now s /\
  lf_StepUps st !! credentialDigest (sa_Token req) = Some r /\ now < sr_ExpiresAt r /\
  sr_SessionDigest r = credentialDigest (sa_SessionToken req) /\ sr_Action r = sa_Action req /\
  sr_WorkspaceID r = sa_WorkspaceID req /\ sr_TargetID r = sa_TargetID req /\ sr_StateDigest r = sa_StateDigest req.

Lemma find_step_up_some w st now origin req r :
  loaded_local w st -> no_journal w -> NormalizeOrigin (sa_Origin req) = Some origin ->
  find_step_up now origin st req = Some r -> exists s, accepted_proof w st req now s r.
Proof.
  intros Hl Hj Ho H. unfold find_step_up in H. destruct (find_session (lf_Sessions st) _) as [s|] eqn:Hs; [|done].
  destruct (expired _ _ _ || _) eqn:He; [done|]. apply orb_false_iff in He as [He Hor].
  destruct (find_session (lf_StepUps st) _) as [r'|] eqn:Hr; [|done].
  destruct (step_up_matches _ _ _ _) eqn:Hm; [|done]. injection H as ->. tidy.
  exists s. split; [by split|]. unfold step_up_matches in Hm.
  rewrite negb_true_iff, !orb_false_iff in Hm. destruct Hm as (((((H1 & H2) & H3) & H4) & H5) & H6).
  apply negb_false_iff, Z.ltb_lt in H1. apply neqb_false in H2, H3, H4, H5, H6. done.
Qed.

Lemma AuthenticateLocalStepUp_spec req w o w' :
  AuthenticateLocalStepUp req w = (o, w') ->
  refused w o w' \/
  exists st now s r, accepted_proof w st req now s r /\ clock_reading w w' now /\ quiet_step w w' /\
    o = Return (Ok (step_up_binding (credentialDigest (sa_Token req)) r)).
Proof.
  intros H. assert (Q : quiet_step w w) by reflexivity. unfold AuthenticateLocalStepUp in H. walk Q H. end_ok H.
  right. destruct (find_step_up_some w a0 a1 s req l) as [r Hr]; try done; [by eexists|]. by eauto 10.
Qed.

Lemma ConsumeLocalStepUp_spec req w o w' :
  ConsumeLocalStepUp req w = (o, w') ->
  refused w o w' \/
  exists st now s r, accepted_proof w st req now s r /\ clock_reading w w' now /\
    changes w_set_local (lf_with st (lf_Sessions st) (delete (credentialDigest (sa_Token req)) (lf_StepUps st))) w w' /\
    done_or_failed o (step_up_binding (credentialDigest (sa_Token req)) r).
Proof.
  intros H. assert (Q : quiet_step w w) by reflexivity. unfold ConsumeLocalStepUp in H. walk Q H. finish Q H.
  destruct (find_step_up_some w a0 a1 s req l) as [r Hr]; try done; [by eexists|]. by eauto 10.
Qed.

End Specs.
