(* ===== verification/AuthSessionFacts.v ===== *)
(** * Console authentication: the life of local sessions and proofs

    Over any history of operations, a stored session keeps its origin and its
    absolute lifetime until it goes; new sessions and proofs are stamped with the
    clock of the operation that made them.  Revocation and consumption are final
    in that sense. *)

From S2P Require Import Prelude GoText AuthOrigin AuthTypes AuthState AuthStore AuthLocal AuthBootstrap AuthEnrollment.
From S2P Require Import AuthProxy AuthLogic AuthOps AuthDemo AuthLocalFacts.

Definition local_session (w : World) (d : string) : option localSessionRecord :=
  match w_local w with Stored st => lf_Sessions st !! d | _ => None end.
Definition local_proof (w : World) (d : string) : option localStepUpRecord :=
  match w_local w with Stored st => lf_StepUps st !! d | _ => None end.

Definition same_session (r r' : localSessionRecord) : Prop :=
  ls_Origin r' = ls_Origin r /\ ls_CreatedAt r' = ls_CreatedAt r /\ ls_ExpiresAt r' = ls_ExpiresAt r.

Section Life.
Context {E : Env} {A : Argon2}.

Definition new_session (w w' : World) (r : localSessionRecord) : Prop :=
  clock_reading w w' (ls_CreatedAt r) /\ ls_ExpiresAt r = ls_CreatedAt r + LocalSessionAbsoluteTTL.

Definition evolves (w w' : World) : Prop :=
  (w_instant w <= w_instant w')%nat /\
  (forall d r', local_session w' d = Some r' ->
     (exists r, local_session w d = Some r /\ same_session r r') \/ new_session w w' r') /\
  (forall d p, local_proof w' d = Some p -> local_proof w d = Some p \/ clock_reading w w' (sr_CreatedAt p)).

#[local] Instance evolves_preorder : PreOrder evolves.
Proof.
  split.
  - intros w. split; [lia|]. split; [|by left]. intros d r' H. left. by exists r'.
  - intros w1 w2 w3 (I1 & S1 & P1) (I2 & S2 & P2). split; [lia|]. split.
    + intros d r3 [(r2 & H2 & Hs)|[Hc He]]%S2.
      * apply S1 in H2 as [(r1 & H1 & Hs1)|[Hc He]]; destruct Hs as (X1 & X2 & X3).
        -- left. exists r1. split; [done|]. destruct Hs1 as (?&?&?). repeat split; congruence.
        -- right. split; [|congruence]. rewrite X2. (eapply clock_reading_widen; [| |exact Hc]; lia).
      * right. split; [|done]. (eapply clock_reading_widen; [| |exact Hc]; lia).
    + intros d p [H2|Hc]%P2; [apply P1 in H2 as [?|Hc]; [by left|]|]; right; (eapply clock_reading_widen; [| |exact Hc]; lia).
Qed.

Lemma evolves_same_local w w' : w_local w' = w_local w -> (w_instant w <= w_instant w')%nat -> evolves w w'.
Proof.
  intros H Hi. unfold evolves, local_session, local_proof. rewrite H. split; [done|]. split; [|by left].
  intros d r Hr. left. by exists r.
Qed.

Lemma quiet_evolves w w' : quiet_step w w' -> evolves w w'.
Proof. intros Q. apply evolves_same_local; [by apply quiet_local | by apply quiet_instant]. Qed.

Lemma refused_evolves {B} w (o : outcome (result aerr B)) w' : refused w o w' -> evolves w w'.
Proof. intros [_ Q]. by apply quiet_evolves. Qed.

Lemma loaded_session w st d : loaded_local w st -> local_session w d = lf_Sessions st !! d.
Proof. unfold local_session. intros [ex [(-> & _)|(-> & -> & _)]]; [done | symmetry; apply lookup_empty]. Qed.
Lemma loaded_proof w st d : loaded_local w st -> local_proof w d = lf_StepUps st !! d.
Proof. unfold local_proof. intros [ex [(-> & _)|(-> & -> & _)]]; [done | symmetry; apply lookup_empty]. Qed.

Lemma changes_local w w' st : changes w_set_local st w w' -> w_local w' = Stored st /\ (w_instant w <= w_instant w')%nat.
Proof.
  intros (w1 & Q1 & Q2). split; [by rewrite (quiet_local _ _ Q2)|]. apply quiet_instant in Q1, Q2. cbn in Q2. lia.
Qed.

Lemma changes_evolves w w' st st' :
  loaded_local w st -> changes w_set_local st' w w' ->
  (forall d r', lf_Sessions st' !! d = Some r' ->
     (exists r, lf_Sessions st !! d = Some r /\ same_session r r') \/ new_session w w' r') ->
  (forall d p, lf_StepUps st' !! d = Some p -> lf_StepUps st !! d = Some p \/ clock_reading w w' (sr_CreatedAt p)) ->
  evolves w w'.
Proof.
  intros Hl [Hw Hi]%changes_local Hs Hp. split; [done|]. split.
  - intros d r' H. unfold local_session in H. rewrite Hw in H. apply Hs in H as [(r & Hr & ?)|?]; [|by right].
    left. exists r. by rewrite (loaded_session _ _ _ Hl).
  - intros d p H. unfold local_proof in H. rewrite Hw in H. rewrite (loaded_proof _ _ _ Hl). by apply Hp.
Qed.

Lemma same_session_refl r : same_session r r. Proof. done. Qed.
Lemma keeps_old (m : gmap string localSessionRecord) w w' :
  forall d r', m !! d = Some r' -> (exists r, m !! d = Some r /\ same_session r r') \/ new_session w w' r'.
Proof. intros d r' H. left. by exists r'. Qed.

(** Replacing the session of one token by one with the same identity. *)
Lemma evolves_touch w w' st d r r' :
  loaded_local w st -> lf_Sessions st !! d = Some r -> same_session r r' ->
  changes w_set_local (lf_with st (<[d := r']> (lf_Sessions st)) (lf_StepUps st)) w w' -> evolves w w'.
Proof.
  intros Hl Hr Hs Hc. eapply changes_evolves; [done..| |by left]. cbn. intros d' x Hx. left.
  apply lookup_insert_Some in Hx as [[<- <-]|[_ Hx]]; [by exists r | by exists x].
Qed.

Lemma evolves_LoginLocal req : keeps evolves (LoginLocal req).
Proof.
  intros w o w' [H|(st & origin & token & csrf & now & Hl & _ & _ & _ & Hc & Hch & _)]%LoginLocal_spec; [by eapply refused_evolves|].
  eapply changes_evolves; [done..| |]; cbn.
  - intros d r' [[_ <-]|[_ [Hr _]%map_lookup_filter_Some]]%lookup_insert_Some; [by right | left; by exists r'].
  - intros d p [[Hp _]%map_lookup_filter_Some _]%map_lookup_filter_Some. by left.
Qed.

Lemma evolves_AuthenticateLocal req : keeps evolves (AuthenticateLocal req).
Proof.
  intros w o w' [H|(st & r & now & Ha & _ & _ & H)]%AuthenticateLocal_spec; [by eapply refused_evolves|].
  destruct H as [[Q _]|(idle & _ & _ & Hc & _)]; [by apply quiet_evolves|].
  destruct Ha as (Hl & _ & Hr & _). eapply evolves_touch; [exact Hl | exact Hr | | exact Hc]; done.
Qed.

Lemma evolves_RefreshLocalSession req : keeps evolves (RefreshLocalSession req).
Proof.
  intros w o w' [H|(st & r & now & csrf & idle & (Hl & _ & Hr & _) & _ & Hc & _)]%RefreshLocalSession_spec; [by eapply refused_evolves|].
  eapply evolves_touch; [exact Hl | exact Hr | | exact Hc]; done.
Qed.

Lemma evolves_SetOwnerPassword p : keeps evolves (SetOwnerPassword p).
Proof.
  intros w o w' [H|(st & phc & f & Hl & _ & _ & Hc & _)]%SetOwnerPassword_spec; [by eapply refused_evolves|].
  eapply changes_evolves; [done..| |]; cbn; intros d ?; by rewrite lookup_empty.
Qed.

Lemma evolves_LogoutLocal req : keeps evolves (LogoutLocal req).
Proof.
  intros w o w' [H|(st & Hl & Hc)]%LogoutLocal_spec; [by eapply refused_evolves|].
  eapply changes_evolves; [done..| |]; cbn.
  - intros d r' [_ Hr]%lookup_delete_Some. left. by exists r'.
  - intros d p [Hp _]%map_lookup_filter_Some. by left.
Qed.

Lemma evolves_RevokeLocalSessions : keeps evolves RevokeLocalSessions.
Proof.
  intros w o w' [H|(st & Hl & Hc)]%RevokeLocalSessions_spec; [by eapply refused_evolves|].
  eapply changes_evolves; [done..| |]; cbn; intros d ?; by rewrite lookup_empty.
Qed.

Lemma evolves_IssueLocalStepUp req : keeps evolves (IssueLocalStepUp req).
Proof.
  intros w o w' [H|(st & r & now & token & (Hl & _) & Hn & _ & Hc & _)]%IssueLocalStepUp_spec; [by eapply refused_evolves|].
  eapply changes_evolves; [done..| |]; cbn; [apply keeps_old|].
  intros d p [[_ <-]|[_ [Hp _]%map_lookup_filter_Some]]%lookup_insert_Some; [by right | by left].
Qed.

Lemma evolves_AuthenticateLocalStepUp req : keeps evolves (AuthenticateLocalStepUp req).
Proof.
  intros w o w' [H|(st & now & s & r & _ & _ & Q & _)]%AuthenticateLocalStepUp_spec; [by eapply refused_evolves|].
  by apply quiet_evolves.
Qed.

Lemma evolves_ConsumeLocalStepUp req : keeps evolves (ConsumeLocalStepUp req).
Proof.
  intros w o w' [H|(st & now & s & r & ((Hl & _) & _) & _ & Hc & _)]%ConsumeLocalStepUp_spec; [by eapply refused_evolves|].
  eapply changes_evolves; [done..| |]; cbn; [apply keeps_old|].
  intros d p [_ Hp]%lookup_delete_Some. by left.
Qed.

Lemma evolves_quiet {B} (m : M B) : quiet m -> keeps evolves m.
Proof. apply keeps_quiet, quiet_evolves. Qed.
Lemma evolves_writeBootstrapState st : keeps evolves (writeBootstrapState st).
Proof. apply keeps_writeBootstrapState; [apply quiet_evolves|]. intros v s _. apply evolves_same_local; cbn; [done | lia]. Qed.
Lemma evolves_writeProxyState st : keeps evolves (writeProxyState st).
Proof. apply keeps_writeProxyState; [apply quiet_evolves|]. intros v s _. apply evolves_same_local; cbn; [done | lia]. Qed.

Hint Resolve evolves_SetOwnerPassword evolves_LoginLocal evolves_AuthenticateLocal evolves_RefreshLocalSession
  evolves_LogoutLocal evolves_RevokeLocalSessions evolves_IssueLocalStepUp evolves_AuthenticateLocalStepUp
  evolves_ConsumeLocalStepUp evolves_writeBootstrapState evolves_writeProxyState : keeps.
Hint Extern 2 (keeps evolves _) => apply evolves_quiet; solve [eauto with quiet] : keeps.

Lemma evolves_discard {B} (m : R B) : keeps evolves m -> keeps evolves (discard m).
Proof. intros H. unfold discard. keeps_tac. Qed.

Lemma evolves_AuthenticateProxy r : keeps evolves (AuthenticateProxy r).
Proof. unfold AuthenticateProxy. cbv zeta. keeps_tac. Qed.
Hint Resolve evolves_discard evolves_AuthenticateProxy : keeps.

Lemma evolves_run_op op : keeps evolves (run_op op).
Proof.
  revert op. apply auth_op_nested_ind.
  1, 2: intros l r Hl%keeps_others; [|apply _]; cbn [run_op]; apply evolves_discard;
        unfold AuthenticateProxyStepUp, ConsumeProxyStepUp; cbv zeta; keeps_tac.
  intros op. destruct op; try done; cbn [run_op]; try solve [eauto with keeps]; unfold_op; keeps_tac.
Qed.

Lemma evolves_run_ops ops w : evolves w (run_ops ops w).
Proof. exact (keeps_others evolves ops (Forall_true _ _ (fun op => evolves_run_op op)) w _ _ eq_refl). Qed.

(** ** Theorems *)

Lemma TimeSub_ttl a b ttl : 0 < ttl < 2 ^ 62 -> TimeSub a b = ttl -> a = b + ttl.
Proof. unfold TimeSub. lia. Qed.

Lemma all_entries_lookup {V} (p : string -> V -> bool) m k v : all_entries p m = true -> m !! k = Some v -> p k v = true.
Proof.
  unfold all_entries. rewrite forallb_forall. intros H Hk. apply (H (k, v)). by apply list_elem_of_In, elem_of_map_to_list.
Qed.

Lemma loaded_local_valid w st : loaded_local w st -> validateLocalState st = true.
Proof. intros [ex [(_ & H & _)|(_ & -> & _)]]; [done | reflexivity]. Qed.

Lemma valid_session_times st d r :
  validateLocalState st = true -> lf_Sessions st !! d = Some r ->
  ls_ExpiresAt r = ls_CreatedAt r + LocalSessionAbsoluteTTL /\ ls_CreatedAt r <= ls_IdleExpiresAt r <= ls_ExpiresAt r.
Proof.
  intros [[_ Hs]%andb_true_iff _]%andb_true_iff Hr.
  pose proof (all_entries_lookup _ _ _ _ Hs Hr) as Hv. unfold valid_local_session, validateSessionTimes in Hv.
  rewrite !andb_true_iff, !negb_true_iff, !orb_false_iff in Hv. destruct Hv as [_ [[_ Ht] [Hb Ha]]].
  apply negb_false_iff, bool_decide_eq_true in Ht. apply TimeSub_ttl in Ht; [|by vm_compute].
  unfold Before, After in *. apply Z.ltb_ge in Hb, Ha. done.
Qed.


(** The operations that end sessions, and the token each concerns. *)
Definition ends_session (op : auth_op) (token : string) : Prop :=
  match op with
  | OpSetOwnerPassword _ | OpRevokeLocalSessions => True
  | OpLogoutLocal r => lo_SessionToken r = token
  | _ => False
  end.

Lemma ends_session_gone op token w w' :
  ends_session op token -> run_op op w = (Return (Ok tt), w') -> local_session w' (credentialDigest token) = None.
Proof.
  destruct op; try done; cbn; intros Hop H; unfold local_session.
  - apply SetOwnerPassword_spec in H as [[Hno _]|(st & phc & f & _ & _ & _ & [-> _]%changes_local & _)]; [by destruct (Hno tt)|].
    apply lookup_empty.
  - apply LogoutLocal_spec in H as [[Hno _]|(st & _ & [-> _]%changes_local)]; [by destruct (Hno tt)|].
    cbn. rewrite Hop. apply lookup_delete_eq.
  - apply RevokeLocalSessions_spec in H as [[Hno _]|(st & _ & [-> _]%changes_local)]; [by destruct (Hno tt)|].
    apply lookup_empty.
Qed.


(** C31: a step-up proof is consumed once.  After a successful consumption, and
    whatever follows, the same proof token validates again only for a proof
    issued later; and what is consumed is bound to exactly the requested action,
    workspace, target and state, within five minutes of its issue. *)
Theorem step_up_single_use (req req' : LocalStepUpAuthenticationRequest) (b b' : LocalStepUpBinding) (ops : list auth_op)
    (w0 w1 w2 : World) :
  ConsumeLocalStepUp req w0 = (Return (Ok b), w1) -> sa_Token req' = sa_Token req ->
  (AuthenticateLocalStepUp req' (run_ops ops w1) = (Return (Ok b'), w2) \/
   ConsumeLocalStepUp req' (run_ops ops w1) = (Return (Ok b'), w2)) ->
  clock_reading w1 (run_ops ops w1) (sb_CreatedAt b') /\
  (sb_Action b', sb_WorkspaceID b', sb_TargetID b', sb_StateDigest b') =
  (sa_Action req', sa_WorkspaceID req', sa_TargetID req', sa_StateDigest req') /\
  exists now, clock_reading (run_ops ops w1) w2 now /\ now < sb_CreatedAt b' + LocalStepUpTTL.
Proof.
  intros H0 Ht H. assert (local_proof w1 (credentialDigest (sa_Token req)) = None) as Hgone.
  { apply ConsumeLocalStepUp_spec in H0 as [[Hno _]|(st & now & s & r & _ & _ & [Hw _]%changes_local & _)]; [by destruct (Hno b)|].
    unfold local_proof. rewrite Hw. cbn. apply lookup_delete_eq. }
  assert (exists st now s r, accepted_proof (run_ops ops w1) st req' now s r /\ clock_reading (run_ops ops w1) w2 now /\
            b' = step_up_binding (credentialDigest (sa_Token req')) r) as (st & now & s & r & Ha & Hn & ->).
  { destruct H as [H|H].
    - apply AuthenticateLocalStepUp_spec in H as [[Hno _]|(st & now & s & r & ? & ? & _ & [= ->])]; [by destruct (Hno b')|]. eauto 10.
    - apply ConsumeLocalStepUp_spec in H as [[Hno _]|(st & now & s & r & ? & ? & _ & [[= ->]|Hend])]; [by destruct (Hno b')| |by destruct (Hend b')].
      eauto 10. }
  destruct Ha as ((Hl & _) & Hr & He & _ & H1 & H2 & H3 & H4). cbn. rewrite H1, H2, H3, H4.
  pose proof Hr as Hr'. rewrite <- (loaded_proof _ _ _ Hl), Ht in Hr'.
  destruct (evolves_run_ops ops w1) as (_ & _ & Hp). apply Hp in Hr' as [?|Hc]; [congruence|].
  do 2 (split; [done|]). exists now. split; [done|].
  pose proof (loaded_local_valid _ _ Hl) as [_ Hv]%andb_true_iff. pose proof (all_entries_lookup _ _ _ _ Hv Hr) as Hx.
  unfold valid_step_up in Hx. rewrite !andb_true_iff, negb_true_iff, orb_false_iff in Hx. destruct Hx as [_ [_ Hx]].
  apply negb_false_iff, bool_decide_eq_true in Hx. apply TimeSub_ttl in Hx; [|by vm_compute]. lia.
Qed.

End Life.

(** ** Witnesses *)

#[local] Existing Instance demo_argon2.

Section LoggedIn.
#[local] Existing Instance demo_env.


(** All sessions are revoked, then the owner logs in again. *)
Definition demo_revoked := Eval vm_compute in run_op OpRevokeLocalSessions (snd demo_logged_in).
Definition demo_again := Eval vm_compute in LoginLocal demo_login (snd demo_revoked).
Definition demo_again_auth : LocalAuthenticationRequest :=
  mkLocalAuth (lc_Token (value_of demo_session demo_again)) "" demo_origin false true.

End LoggedIn.

Section Repeating.
#[local] Existing Instance repeating_env.

Definition repeated_owner : World := Eval vm_compute in snd (SetOwnerPassword demo_password demo_fresh).
Definition repeated_login := Eval vm_compute in LoginLocal demo_login repeated_owner.
Definition repeated_session : LocalSessionCredential := Eval vm_compute in value_of demo_session repeated_login.
Definition repeated_request : LocalStepUpRequest :=
  mkStepUp (lc_Token repeated_session) (lc_CSRFToken repeated_session) demo_origin demo_password "storage.format" "main" "disk0"
    (credentialDigest "state").
Definition repeated_issued := Eval vm_compute in IssueLocalStepUp repeated_request (snd repeated_login).
Definition repeated_use : LocalStepUpAuthenticationRequest :=
  mkStepUpAuth (lc_Token repeated_session) demo_origin
    (sc_Token (value_of (mkStepUpCredential "" "" "" "" "" "" "" 0 0) repeated_issued)) "storage.format" "main" "disk0"
    (credentialDigest "state").
Definition repeated_consumed := Eval vm_compute in ConsumeLocalStepUp repeated_use (snd repeated_issued).

(** The same token is issued again after its consumption. *)
Lemma step_up_single_use_witness :
  exists b b' w2, ConsumeLocalStepUp repeated_use (snd repeated_issued) = (Return (Ok b), snd repeated_consumed) /\
    ConsumeLocalStepUp repeated_use (run_ops [OpIssueLocalStepUp repeated_request] (snd repeated_consumed)) = (Return (Ok b'), w2) /\
    clock_reading (snd repeated_consumed) (run_ops [OpIssueLocalStepUp repeated_request] (snd repeated_consumed)) (sb_CreatedAt b').
Proof.
  assert (Hv : succeeded (ConsumeLocalStepUp repeated_use (run_ops [OpIssueLocalStepUp repeated_request] (snd repeated_consumed))) = true)
    by (vm_compute; reflexivity).
  assert (Hc : ConsumeLocalStepUp repeated_use (snd repeated_issued) =
               (Return (Ok (value_of (mkStepUpBinding "" "" "" "" "" "" 0 0) repeated_consumed)), snd repeated_consumed))
    by (vm_compute; reflexivity).
  destruct (ConsumeLocalStepUp repeated_use (run_ops [OpIssueLocalStepUp repeated_request] (snd repeated_consumed)))
    as [[[b'|e]|] w2] eqn:H; try discriminate Hv.
  eexists _, b', w2. split; [exact Hc|]. split; [reflexivity|].
  exact (proj1 (step_up_single_use repeated_use repeated_use _ b' [OpIssueLocalStepUp repeated_request] _ _ w2 Hc eq_refl (or_intror H))).
Defined.
End Repeating.
