(* ===== verification/AuthCapabilityFacts.v ===== *)
(** * Console capability state: it only moves forward

    What the operations of package [consolestate] do to the world on every run,
    and what follows for histories of them. *)

From S2P Require Import Prelude GoText AuthTypes AuthState AuthStore AuthCapability AuthLogic AuthOps AuthDemo.

(** Everything but the lock file of the capability store stays. *)
Definition still (w w' : World) : Prop :=
  w_bootstrap w' = w_bootstrap w /\ w_local w' = w_local w /\ w_proxy w' = w_proxy w /\
  w_enrollmentCommit w' = w_enrollmentCommit w /\ w_ownerCommit w' = w_ownerCommit w /\
  w_capability w' = w_capability w /\ (w_stateLock w = true -> w_stateLock w' = true).
#[global] Instance still_preorder : PreOrder still.
Proof. split; [done|]. intros ? ? ? (?&?&?&?&?&?&?) (?&?&?&?&?&?&?). repeat split; try congruence. auto. Qed.

Lemma quiet_still w w' : quiet_step w w' -> still w w'.
Proof.
  intros Q. repeat split; [by apply quiet_bootstrap | by apply quiet_local | by apply quiet_proxy |
    by apply quiet_enrollmentCommit | by apply quiet_ownerCommit | by apply quiet_capability | by rewrite (quiet_stateLock _ _ Q)].
Qed.

Section Capability.
Context {E : Env}.

Lemma acquireStateLock_inv w o w' :
  acquireStateLock w = (o, w') ->
  still w w' /\ w_transitions w' = w_transitions w /\
  forall created, o = Return (Ok created) -> created = negb (w_stateLock w) /\ w_stateLock w' = true.
Proof.
  intros H. unfold acquireStateLock in H. apply bindM_inv in H as [(f & w1 & [= <- <-] & H)|[[=] _]].
  apply bindM_inv in H as [(c & w2 & H2 & H)|[H2 ->]].
  - assert (quiet_step w w2) as Q by (by eapply quiet_ask). apply ask_inv in H2 as [[[= ->] ->]|[[=] _]].
    apply quiet_still in Q. destruct (w_stateLock w) eqn:Hw, (e_change _); end_run H; repeat split; naive_solver.
  - apply quiet_ask in H2 as Q. split; [by apply quiet_still|]. split; [by apply Q | done].
Qed.

Definition stored_state (w : World) (st : ConsoleState) : Prop :=
  exists rec, w_capability w = Stored rec /\ validateStateFile rec = true /\ sf_State rec = st.

Lemma quiet_readValidState : quiet readValidState.
Proof. unfold readValidState. quiet_tac. Qed.

Lemma readValidState_ok w st w' : readValidState w = (Return (Ok st), w') -> stored_state w st.
Proof.
  intros H. unfold readValidState in H. apply tryM_inv in H as [(f & w1 & H1 & H)|[(? & ? & _ & [=])|[_ [=]]]].
  apply readJSONFile_ok in H1; [|done]. destruct f as [rec|]; [|by end_run H].
  destruct (validateStateFile rec) eqn:Hv; end_run H. by exists rec.
Qed.

Lemma Current_inv w o w' :
  Current w = (o, w') -> still w w' /\ w_transitions w' = w_transitions w /\ forall st, o = Return (Ok st) -> stored_state w st.
Proof.
  intros H. unfold Current in H. apply tryM_inv in H as [(c & w1 & H1 & H)|[(e & w1 & H1 & [= <- <-])|[H1 ->]]];
    apply acquireStateLock_inv in H1 as (S1 & T1 & _); [|done..].
  apply quiet_readValidState in H as Q. split; [etrans; [done | by apply quiet_still]|]. split; [rewrite <- T1; by apply Q|].
  intros st ->. apply readValidState_ok in H as (rec & H & ?). exists rec. split; [|done].
  by destruct S1 as (_&_&_&_&_&<-&_).
Qed.

Lemma currentAuthState_inv w o w' :
  currentAuthState w = (o, w') -> still w w' /\ forall st, o = Return (Ok st) -> stored_state w st.
Proof.
  intros H. unfold currentAuthState in H. apply tryM_inv in H as [(c & w1 & H1 & H)|[(e & w1 & H1 & [= <- <-])|[H1 ->]]];
    apply Current_inv in H1 as (S1 & _ & Hst); [|done..].
  injection H as <- <-. split; [done|]. unfold authCapabilityState. destruct (validState c); [|done]. intros st [= <-]. auto.
Qed.

(** A capability transition: it fails before the rename and leaves the state, or
    it moves along one edge that was logged first. *)
Definition moved (w w' : World) (ev : TransitionEvent) : Prop :=
  stored_state w (te_From ev) /\ transitionReason (te_From ev) (te_To ev) = Some (te_Reason ev) /\
  w_capability w' = Stored (mkStateFile capabilityAPIVersion (te_To ev)) /\ w_transitions w' = w_transitions w ++ [ev] /\
  w_bootstrap w' = w_bootstrap w /\ w_local w' = w_local w /\
  w_enrollmentCommit w' = w_enrollmentCommit w /\ w_ownerCommit w' = w_ownerCommit w.

Lemma transitionReason_valid from to reason : transitionReason from to = Some reason -> validState to = true.
Proof.
  unfold transitionReason, validState. destruct (_ && (to ==? StateEnrollment)) eqn:H1.
  - apply andb_true_iff in H1 as [_ ->]. intros _. by rewrite orb_true_r.
  - destruct (_ && (to ==? StateFull)) eqn:H2; [|done]. apply andb_true_iff in H2 as [_ ->]. intros _. by rewrite orb_true_r.
Qed.

Lemma writeState_inv rec w o w' :
  writeState rec w = (o, w') ->
  (o <> Return (Ok tt) /\ quiet_step w w') \/ (validateStateFile rec = true /\ write_result w_set_capability rec w o w').
Proof.
  unfold writeState. destruct (validateStateFile rec); cbn; [intros; right; split; [done | by apply writeJSONFile_inv]|].
  intros [= <- <-]. by left.
Qed.

Lemma RecordTransition_inv ev w o w' :
  RecordTransition ev w = (o, w') ->
  still w w' /\ ((o = Return (Ok tt) /\ w_transitions w' = w_transitions w ++ [ev]) \/
                 ((forall u, o <> Return (Ok u)) /\ w_transitions w' = w_transitions w)).
Proof.
  unfold RecordTransition. intros [(ok & w1 & H1 & H)|[H1 ->]]%bindM_inv.
  - apply ask_inv in H1 as [[[= ->] ->]|[[=] _]]. destruct (e_audit _); end_run H; (split; [done|]); [by left | by right].
  - apply quiet_ask in H1 as Q. split; [by apply quiet_still|]. right. split; [done | by apply Q].
Qed.

Lemma Transition_inv to actor w o w' :
  Transition to actor w = (o, w') ->
  (still w w' /\ (forall st, o <> Return (Ok st)) /\
     (w_transitions w' = w_transitions w \/ exists ev, stored_state w (te_From ev) /\ w_transitions w' = w_transitions w ++ [ev])) \/
  (exists ev, moved w w' ev /\ te_To ev = to /\ te_Actor ev = actor /\ (w_stateLock w = true -> w_stateLock w' = true)).
Proof.
  intros H. unfold Transition in H.
  destruct (negb (actorPattern actor)); [injection H as <- <-; left; split; [done|]; split; [done | by left]|].
  destruct (negb (validState to)); [injection H as <- <-; left; split; [done|]; split; [done | by left]|].
  apply tryM_inv in H as [(c & w1 & H1 & H)|[(e & w1 & H1 & [= <- <-])|[H1 ->]]];
    apply acquireStateLock_inv in H1 as (S1 & T1 & _); [|left; split; [done|]; split; [done | by left]..].
  apply tryM_inv in H as [(cur & w2 & H2 & H)|[(e & w2 & H2 & [= <- <-])|[H2 ->]]]; pose proof (quiet_readValidState _ _ _ H2) as Q;
    pose proof (quiet_still _ _ Q) as S2; destruct Q as (_ & T2 & _); rewrite T1 in T2;
    pose proof (transitivity S1 S2) as S12; [|left; split; [done|]; split; [done | by left]..].
  apply readValidState_ok in H2. assert (stored_state w cur) as Hcur.
  { destruct H2 as (rec & H2 & ?). exists rec. split; [|done]. by destruct S1 as (_&_&_&_&_&<-&_). }
  destruct (transitionReason cur to) as [reason|] eqn:Hr; [|injection H as <- <-; left; split; [done|]; split; [done | by left]].
  apply tryM_inv in H as [(u & w3 & H3 & H)|[(e & w3 & H3 & [= <- <-])|[H3 ->]]];
    apply RecordTransition_inv in H3 as [S3 T3]; pose proof (transitivity S12 S3) as S123; rewrite T2 in T3.
  2: { destruct T3 as [[[=] _]|[_ T3]]. left. split; [done|]. split; [done | by left]. }
  2: { destruct T3 as [[[=] _]|[_ T3]]. left. split; [done|]. split; [done | by left]. }
  destruct T3 as [[_ T3]|[T3 _]]; [|by destruct (T3 u)].
  set (ev := mkTransition cur to actor reason) in *.
  assert (forall wx, quiet_step w3 wx -> still w wx /\ w_transitions wx = w_transitions w ++ [ev]) as Hq.
  { intros wx Q. split; [etrans; [done | by apply quiet_still] | rewrite <- T3; by apply Q]. }
  assert (forall wx, wx = w_set_capability (Stored (mkStateFile capabilityAPIVersion to)) (w_tick w3) -> moved w wx ev /\ (w_stateLock w = true -> w_stateLock wx = true)) as Hm.
  { intros wx ->. destruct S123 as (?&?&?&?&?&?&?). by repeat split. }
  apply tryM_inv in H as [([] & w4 & H4 & [= <- <-])|[(e & w4 & H4 & [= <- <-])|[H4 ->]]];
    apply writeState_inv in H4 as [[Hne Q]|[_ [[Hne Q]|[[Ho ->]|[Ho ->]]]]]; try done.
  all: try (apply Hq in Q as [? ?]; left; split; [done|]; split; [done|]; right; by exists ev).
  all: right; exists ev; destruct (Hm _ eq_refl); done.
Qed.

(** ** Histories *)

Inductive cap_op := CapOpen | CapCurrent | CapTransition (to : ConsoleState) (actor : string).
Definition run_cap (op : cap_op) (w : World) : World :=
  match op with CapOpen => snd (Open w) | CapCurrent => snd (Current w) | CapTransition to actor => snd (Transition to actor w) end.
Definition run_caps (ops : list cap_op) (w : World) : World := fold_left (fun w op => run_cap op w) ops w.

(** [advanced c log c']: the log leads from [c] to [c'] along permitted edges;
    an event whose commit failed leaves the state. *)
Inductive advanced : ConsoleState -> list TransitionEvent -> ConsoleState -> Prop :=
| advanced_refl c : advanced c [] c
| advanced_failed c ev l c' : te_From ev = c -> advanced c l c' -> advanced c (ev :: l) c'
| advanced_edge c ev l c' :
    te_From ev = c -> transitionReason c (te_To ev) = Some (te_Reason ev) -> advanced (te_To ev) l c' -> advanced c (ev :: l) c'.

Lemma advanced_app c l c1 l' c2 : advanced c l c1 -> advanced c1 l' c2 -> advanced c (l ++ l') c2.
Proof. induction 1; cbn; eauto using advanced. Qed.

Definition rank (c : ConsoleState) : Z := if c ==? StateFull then 2 else if c ==? StateEnrollment then 1 else 0.

Lemma advanced_rank c l c' : advanced c l c' -> rank c <= rank c' <= rank c + Z.of_nat (length l).
Proof.
  induction 1 as [|c ev l c' _ _ IH|c ev l c' _ Hr _ IH]; cbn [length]; [lia|lia|].
  assert (rank (te_To ev) = rank c + 1); [|lia].
  unfold transitionReason in Hr. destruct (_ && _) eqn:H1.
  - apply andb_true_iff in H1 as [H1 H2]. apply bool_decide_eq_true in H1, H2. by rewrite H1, H2.
  - destruct (_ && (te_To ev ==? StateFull)) eqn:H2; [|done]. apply andb_true_iff in H2 as [H2 H3].
    apply bool_decide_eq_true in H2, H3. by rewrite H2, H3.
Qed.

Lemma Open_stored w st : stored_state w st -> still w (snd (Open w)) /\ w_transitions (snd (Open w)) = w_transitions w.
Proof.
  intros (rec & Hw & Hv & _). destruct (Open w) as [o w'] eqn:H. cbn. unfold Open in H.
  apply tryM_inv in H as [(c & w1 & H1 & H)|[(e & w1 & H1 & [= <- <-])|[H1 ->]]];
    apply acquireStateLock_inv in H1 as (S1 & T1 & _); [|done..].
  apply tryM_inv in H as [(f & w2 & H2 & H)|[(e & w2 & H2 & [= <- <-])|[H2 ->]]];
    pose proof (quiet_readJSONFile w_capability _ _ _ H2) as Q;
    (assert (still w w2 /\ w_transitions w2 = w_transitions w) as Hs || assert (still w w' /\ w_transitions w' = w_transitions w) as Hs);
    try (split; [etrans; [done | by apply quiet_still] | rewrite <- T1; by apply Q]); try done.
  apply readJSONFile_ok in H2; [|done]. destruct S1 as (_&_&_&_&_&S1&_). rewrite S1, Hw in H2.
  destruct f as [r|]; [|done]. simplify_eq. rewrite Hv in H. by injection H as <- <-.
Qed.

(** C34: whatever operations are run on the capability store, and however they
    fail or die, an initialised console never moves back: the state moves only
    along bootstrap, enrollment, full, one edge at a time, and every edge taken
    is in the transition log before it shows. *)
Theorem capability_only_advances (ops : list cap_op) (w : World) (c : ConsoleState) :
  stored_state w c ->
  exists c' log, stored_state (run_caps ops w) c' /\ w_transitions (run_caps ops w) = w_transitions w ++ log /\
    advanced c log c' /\ rank c <= rank c' <= rank c + Z.of_nat (length log).
Proof.
  intros Hc. cut (exists c' log, stored_state (run_caps ops w) c' /\ w_transitions (run_caps ops w) = w_transitions w ++ log /\ advanced c log c').
  { intros (c' & log & H1 & H2 & H3). exists c', log. auto using advanced_rank. }
  revert w c Hc. induction ops as [|op ops IH]; intros w c Hc; [exists c, []; rewrite app_nil_r; auto using advanced|].
  change (run_caps (op :: ops) w) with (run_caps ops (run_cap op w)).
  assert (exists c1 l, stored_state (run_cap op w) c1 /\ w_transitions (run_cap op w) = w_transitions w ++ l /\ advanced c l c1)
    as (c1 & l & H1 & H2 & H3).
  { assert (forall wx, still w wx -> stored_state wx c) as Hst.
    { intros wx (_&_&_&_&_&Hx&_). unfold stored_state. by rewrite Hx. }
    destruct op as [| |to actor]; cbn.
    - destruct (Open_stored _ _ Hc) as [? ?]. exists c, []. rewrite app_nil_r. auto using advanced.
    - destruct (Current w) as [o w1] eqn:H. apply Current_inv in H as (? & ? & _). exists c, []. rewrite app_nil_r. auto using advanced.
    - destruct (Transition to actor w) as [o w1] eqn:H. cbn.
      assert (forall ev, stored_state w (te_From ev) -> te_From ev = c) as Hfrom.
      { intros ev (r1 & X1 & _ & <-). destruct Hc as (r2 & X2 & _ & <-). congruence. }
      apply Transition_inv in H as [(S1 & _ & [T1|(ev & Hev & T1)])|(ev & (Hev & Hr & Hcap & T1 & _) & _)].
      + exists c, []. rewrite app_nil_r. auto using advanced.
      + exists c, [ev]. eauto 10 using advanced.
      + exists (te_To ev), [ev]. split; [|split; [done|]].
        * exists (mkStateFile capabilityAPIVersion (te_To ev)). split; [done|]. split; [|done].
          unfold validateStateFile. cbn. by apply transitionReason_valid in Hr.
        * apply Hfrom in Hev. subst c. eauto using advanced. }
  destruct (IH _ _ H1) as (c2 & l2 & H4 & H5 & H6). exists c2, (l ++ l2). split; [done|].
  split; [rewrite H5, H2; by rewrite app_assoc | by eapply advanced_app].
Qed.

End Capability.

Lemma capability_only_advances_witness :
  exists c', stored_state (@run_caps demo_env [CapTransition StateEnrollment "anasd"; CapTransition StateBootstrap "anasd"] demo_booted) c' /\
    rank StateBootstrap <= rank c'.
Proof.
  assert (H : stored_state demo_booted StateBootstrap).
  { eexists. split; [reflexivity|]. split; reflexivity. }
  destruct (@capability_only_advances demo_env [CapTransition StateEnrollment "anasd"; CapTransition StateBootstrap "anasd"]
              demo_booted StateBootstrap H) as (c' & log & H1 & _ & _ & H2 & _).
  exists c'. split; [exact H1 | exact H2].
Defined.
