(* ===== verification/AuthLive.v ===== *)
(** * Console authentication: runs in a healthy environment

    When from some instant on the process lives and everything it asks for
    works, an operation whose guards hold reaches its result.  [goes] says that
    a run succeeds; one rule per construct of the monad and per primitive. *)

From S2P Require Import Prelude GoText AuthTypes AuthState AuthStore AuthCapability AuthCommit AuthLogic AuthOps AuthCapabilityFacts GoEncoding.

Section Live.
Context {E : Env}.

(** Everything works at instant [i]. *)
Definition works (i : nat) : Prop :=
  e_alive i = true /\ e_lock i = true /\ e_stat i = true /\ e_read i = true /\ e_change i = Changed /\ e_sync i = true /\
  e_audit i = true /\ e_context i = true /\ e_hook i = true /\ is_Some (e_random i).
Definition healthy (w : World) : Prop := forall i, (w_instant w <= i)%nat -> works i.

Definition goes {A} (m : R A) (w : World) : Prop := exists a w', m w = (Return (Ok a), w').

Lemma healthy_later w w' : (w_instant w <= w_instant w')%nat -> healthy w -> healthy w'.
Proof. intros Hi H i Hle. apply H. lia. Qed.
Lemma healthy_quiet w w' : quiet_step w w' -> healthy w -> healthy w'.
Proof. intros Q. apply healthy_later. by apply quiet_instant. Qed.

Lemma goes_ok {A} (a : A) w : goes (okR a) w.
Proof. by eexists _, _. Qed.
Lemma goes_try {A B} (m : R A) h (k : A -> R B) w :
  goes m w -> (forall a w', m w = (Return (Ok a), w') -> goes (k a) w') -> goes (tryM m h k) w.
Proof.
  intros (a & w' & H) Hk. destruct (Hk a w' H) as (b & w2 & H2). exists b, w2. unfold tryM, bindM. by rewrite H.
Qed.
(** A step that only asks. *)
Lemma goes_ask {A B} (f : nat -> A) (k : A -> R B) w :
  healthy w -> goes (k (f (w_instant w))) (w_tick w) -> goes (bindM (ask f) k) w.
Proof.
  intros Hh (b & w2 & H2). exists b, w2. unfold bindM, ask. by destruct (Hh (w_instant w) (le_n _)) as [-> _].
Qed.
Lemma goes_with {A B} (f : World -> A) (k : A -> R B) w : goes (k (f w)) w -> goes (bindM (with_world f) k) w.
Proof. done. Qed.
Lemma goes_update {B} f (k : R B) w : goes k (f w) -> goes (bindM (update f) (fun _ => k)) w.
Proof. done. Qed.

(** The answers at the present instant. *)
Lemma healthy_now w : healthy w -> works (w_instant w).
Proof. intros H. by apply H. Qed.

Ltac answer :=
  match goal with
  | H : healthy ?w |- goes _ (w_tick ?w) =>
      let W := fresh in pose proof (healthy_now w H) as W; unfold works in W;
      repeat match type of W with
      | ?x = ?y /\ _ => let W1 := fresh in destruct W as [W1 W]; rewrite ?W1; clear W1
      end; clear W
  end.

Lemma goes_acquireStoreLock w : healthy w -> goes acquireStoreLock w.
Proof. intros H. apply goes_ask; [done|]. answer. apply goes_ok. Qed.
Lemma goes_lstat {A} (get : World -> file A) w : healthy w -> goes (lstat get) w.
Proof. intros H. apply goes_ask; [done|]. answer. apply goes_with, goes_ok. Qed.
Lemma goes_recordAudit ev w : healthy w -> goes (recordAudit ev) w.
Proof.
  intros H.
  assert (forall ev v, healthy v -> goes (let* ok := ask e_audit in if ok then update (w_add_audit ev) ;;* okR tt else failR ErrAuditUnavailable) v) as Ha.
  { clear. intros ev v H. apply goes_ask; [done|]. answer. apply goes_update, goes_ok. }
  assert (quiet_step w (w_tick w)) as Q by (repeat split; cbn; [reflexivity | lia]).
  unfold recordAudit. destruct (IsZero _); [|apply Ha, H].
  destruct (Ha (with_OccurredAt (e_clock (w_instant w)) ev) (w_tick w)) as (a & w' & Hg); [by eapply healthy_quiet|].
  exists a, w'. unfold currentTime, ask, bindM, ret in *. destruct (healthy_now _ H) as [-> _]. exact Hg.
Qed.
Lemma goes_writeJSONFile {A} (set : file A -> World -> World) v w : healthy w -> goes (writeJSONFile set v) w.
Proof. intros H. apply goes_ask; [done|]. answer. apply goes_update, goes_ok. Qed.
Lemma goes_removePrivateFile {A} (get : World -> file A) set w : healthy w -> goes (removePrivateFile get set) w.
Proof.
  intros H. apply goes_with, goes_ask; [done|]. answer.
  destruct (get w); [apply goes_ok | apply goes_update, goes_ok | apply goes_update, goes_ok].
Qed.
Lemma goes_removeAbsent {A} (get : World -> file A) set w : healthy w -> goes (removeAbsent get set) w.
Proof.
  intros H. apply goes_with, goes_ask; [done|]. answer.
  destruct (get w); [apply goes_ok | apply goes_update, goes_ok | apply goes_update, goes_ok].
Qed.
Lemma goes_syncDirectory w : healthy w -> goes syncDirectory w.
Proof. intros H. apply goes_ask; [done|]. answer. apply goes_ok. Qed.
Lemma goes_readJSONFile {A} (get : World -> file A) w : healthy w -> get (w_tick w) <> Unreadable -> goes (readJSONFile get) w.
Proof.
  intros H Hr. apply goes_ask; [done|]. answer. apply goes_with. destruct (get _); [apply goes_ok | done | apply goes_ok].
Qed.

(** ** Time only goes on *)

Definition later (w w' : World) : Prop := (w_instant w <= w_instant w')%nat.
#[local] Instance later_preorder : PreOrder later.
Proof. split; unfold Reflexive, Transitive, later; lia. Qed.

Lemma later_quiet {B} (m : M B) : quiet m -> keeps later m.
Proof. apply keeps_quiet. intros w w'. apply quiet_instant. Qed.
Lemma later_update f : (forall w, w_instant (f w) = w_instant w) -> keeps later (update f).
Proof. intros H w o w' [= _ <-]. unfold later. rewrite H. lia. Qed.
Hint Extern 2 (keeps later (update _)) => apply later_update; done : keeps.
Hint Extern 3 (keeps later _) => apply later_quiet; solve [eauto with quiet] : keeps.

Lemma later_writeJSONFile {A} (set : file A -> World -> World) v :
  (forall f w, w_instant (set f w) = w_instant w) -> keeps later (writeJSONFile set v).
Proof. intros H. unfold writeJSONFile. keeps_tac; apply later_update; auto. Qed.
Lemma later_removePrivateFile {A} (get : World -> file A) set :
  (forall f w, w_instant (set f w) = w_instant w) -> keeps later (removePrivateFile get set).
Proof. intros H. unfold removePrivateFile. keeps_tac; apply later_update; auto. Qed.
Lemma later_removeAbsent {A} (get : World -> file A) set :
  (forall f w, w_instant (set f w) = w_instant w) -> keeps later (removeAbsent get set).
Proof. intros H. unfold removeAbsent. keeps_tac; apply later_update; auto. Qed.
Hint Extern 2 (keeps later (writeJSONFile _ _)) => apply later_writeJSONFile; done : keeps.
Hint Extern 2 (keeps later (removeAbsent _ _)) => apply later_removeAbsent; done : keeps.

Lemma later_writeBootstrapState st : keeps later (writeBootstrapState st).
Proof. unfold writeBootstrapState. keeps_tac. Qed.
Lemma later_writeLocalState st : keeps later (writeLocalState st).
Proof. unfold writeLocalState. keeps_tac. Qed.
Hint Resolve later_writeBootstrapState later_writeLocalState : keeps.

Lemma later_currentAuthState : keeps later currentAuthState.
Proof. unfold currentAuthState, Current, acquireStateLock, readValidState. keeps_tac. Qed.

Lemma healthy_keeps {A} (m : M A) w o w' : keeps later m -> m w = (o, w') -> healthy w -> healthy w'.
Proof. intros Hm H. apply healthy_later. by eapply Hm. Qed.

(** ** Composed steps *)

Lemma goes_writeAuthenticationSnapshot s w :
  healthy w -> validateAuthenticationSnapshot s = true -> goes (writeAuthenticationSnapshot s) w.
Proof.
  intros H Hv. unfold writeAuthenticationSnapshot. rewrite Hv. cbn.
  unfold validateAuthenticationSnapshot in Hv. rewrite !andb_true_iff in Hv. destruct Hv as [[[Hb Hl] _] _].
  apply goes_try; [|intros u1 w1 H1; apply goes_try; [|intros u2 w2 H2]].
  - destruct (sn_BootstrapExisted s); [|by apply goes_removeAbsent].
    unfold writeBootstrapState. rewrite Hb. by apply goes_writeJSONFile.
  - apply healthy_keeps in H1; [|destruct (sn_BootstrapExisted s); eauto with keeps|done].
    destruct (sn_LocalExisted s); [|by apply goes_removeAbsent]. unfold writeLocalState. rewrite Hl. by apply goes_writeJSONFile.
  - apply healthy_keeps in H1; [|destruct (sn_BootstrapExisted s); eauto with keeps|done].
    apply healthy_keeps in H2; [|destruct (sn_LocalExisted s); eauto with keeps|done]. by apply goes_syncDirectory.
Qed.
Lemma later_writeAuthenticationSnapshot s : keeps later (writeAuthenticationSnapshot s).
Proof. unfold writeAuthenticationSnapshot, syncDirectory. keeps_tac. Qed.

Lemma goes_acquireStateLock w : healthy w -> goes acquireStateLock w.
Proof.
  intros H. apply goes_with, goes_ask; [done|]. answer.
  destruct (w_stateLock w); [apply goes_ok | apply goes_update, goes_ok].
Qed.

Lemma goes_currentAuthState c w :
  healthy w -> w_capability w = Stored (mkStateFile capabilityAPIVersion c) -> validState c = true -> goes currentAuthState w.
Proof.
  intros H Hc Hv.
  assert (validateStateFile (mkStateFile capabilityAPIVersion c) = true) as Hf by (unfold validateStateFile; cbn; by rewrite Hv).
  assert (goes Current w) as (st & w' & Hg).
  { apply goes_try; [by apply goes_acquireStateLock|]. intros b w1 H1.
    assert (healthy w1) as Hh1 by (eapply healthy_keeps in H1; [done|unfold acquireStateLock; keeps_tac|done]).
    assert (w_capability w1 = w_capability w) as Hc1 by (apply acquireStateLock_inv in H1 as (S1 & _); by destruct S1 as (_&_&_&_&_&?&_)).
    assert (w_capability (w_tick w1) = Stored (mkStateFile capabilityAPIVersion c)) as Hc2 by (cbn; congruence).
    apply goes_try; [apply goes_readJSONFile; [done | by rewrite Hc2]|].
    intros f w2 H2. apply readJSONFile_ok in H2; [|done]. destruct f as [r|]; [|congruence].
    assert (r = mkStateFile capabilityAPIVersion c) as -> by congruence. rewrite Hf. apply goes_ok. }
  pose proof Hg as (_ & _ & Hst)%Current_inv. destruct (Hst st eq_refl) as (r & Hr & _ & Hst').
  assert (st = c) as -> by (rewrite Hr in Hc; injection Hc as ->; by rewrite <- Hst').
  exists c, w'. unfold currentAuthState, tryM, bindM, ret, authCapabilityState. by rewrite Hg, Hv.
Qed.

End Live.
