(* ===== verification/AuthProtocol.v ===== *)
(** * Console authentication: a journalled commit is atomic

    The two commit protocols have the same shape: write a journal with the
    previous and the next authentication state, write the next state, mark the
    journal, publish the capability state, remove the journal.  This file proves
    once, for a journal given by its file, its validity and its two snapshots,
    that on every run, with failures and process death anywhere, the world stays
    in a state from which recovery leads to one of two outcomes. *)

From S2P Require Import Prelude GoText AuthOrigin AuthTypes AuthState AuthStore AuthLocal AuthBootstrap AuthEnrollment.
From S2P Require Import AuthProxy AuthCapability AuthCommit AuthLogic AuthOps AuthLocalFacts AuthCapabilityFacts.
From S2P Require Import AuthLive.

(** The authentication files hold exactly a snapshot. *)
Definition on_disk (s : authenticationSnapshot) (w : World) : Prop :=
  w_bootstrap w = (if sn_BootstrapExisted s then Stored (sn_Bootstrap s) else Absent) /\
  w_local w = (if sn_LocalExisted s then Stored (sn_Local s) else Absent).

Definition capability (st : ConsoleState) (w : World) : Prop := w_capability w = Stored (mkStateFile capabilityAPIVersion st).

(** What writing authentication files leaves alone. *)
Definition frame (w w' : World) : Prop :=
  w_enrollmentCommit w' = w_enrollmentCommit w /\ w_ownerCommit w' = w_ownerCommit w /\ w_capability w' = w_capability w.
(** What the capability store leaves alone besides. *)
Definition journals (w w' : World) : Prop :=
  w_enrollmentCommit w' = w_enrollmentCommit w /\ w_ownerCommit w' = w_ownerCommit w.
(** What the journals and the capability store leave alone. *)
Definition auth_frame (w w' : World) : Prop := w_bootstrap w' = w_bootstrap w /\ w_local w' = w_local w.

#[global] Instance frame_preorder : PreOrder frame.
Proof. split; [done|]. intros ? ? ? (?&?&?) (?&?&?). repeat split; congruence. Qed.
#[global] Instance auth_frame_preorder : PreOrder auth_frame.
Proof. split; [done|]. intros ? ? ? (?&?) (?&?). repeat split; congruence. Qed.

Lemma frame_journals w w' : frame w w' -> journals w w'.
Proof. by intros (?&?&_). Qed.
Lemma quiet_frame w w' : quiet_step w w' -> frame w w'.
Proof.
  intros Q. repeat split; [by apply quiet_enrollmentCommit | by apply quiet_ownerCommit | by apply quiet_capability].
Qed.
Lemma quiet_auth_frame w w' : quiet_step w w' -> auth_frame w w'.
Proof. intros Q. split; [by apply quiet_bootstrap | by apply quiet_local]. Qed.

Lemma on_disk_frame s w w' : auth_frame w w' -> on_disk s w -> on_disk s w'.
Proof. intros [H1 H2] [H3 H4]. split; congruence. Qed.
Lemma capability_frame st w w' : frame w w' -> capability st w -> capability st w'.
Proof. unfold capability. intros (_ & _ & ->). done. Qed.

Section Commit.
Context {E : Env} {A : Argon2}.

Lemma quiet_ctx_Err : quiet ctx_Err.
Proof. unfold ctx_Err. quiet_tac. Qed.
Lemma quiet_loadAuthenticationSnapshot : quiet loadAuthenticationSnapshot.
Proof. unfold loadAuthenticationSnapshot. quiet_tac. Qed.
Lemma quiet_syncDirectory : quiet syncDirectory.
Proof. unfold syncDirectory. quiet_tac. Qed.
Lemma quiet_enrollmentCommitStep s : quiet (enrollmentCommitStep s).
Proof. unfold enrollmentCommitStep. quiet_tac. Qed.
Lemma quiet_ownerCommitStep s : quiet (ownerCommitStep s).
Proof. unfold ownerCommitStep. quiet_tac. Qed.
Lemma quiet_loadEnrollmentCommitJournal : quiet loadEnrollmentCommitJournal.
Proof. unfold loadEnrollmentCommitJournal. quiet_tac. Qed.
Lemma quiet_loadOwnerCommitJournal : quiet loadOwnerCommitJournal.
Proof. unfold loadOwnerCommitJournal. quiet_tac. Qed.
Hint Resolve quiet_ctx_Err quiet_loadAuthenticationSnapshot quiet_syncDirectory quiet_enrollmentCommitStep quiet_ownerCommitStep
  quiet_loadEnrollmentCommitJournal quiet_loadOwnerCommitJournal : quiet.
Lemma quiet_auditDeferredEnrollmentCleanup j : quiet (auditDeferredEnrollmentCleanup j).
Proof. unfold auditDeferredEnrollmentCleanup. quiet_tac. Qed.
Lemma quiet_auditDeferredOwnerCleanup j : quiet (auditDeferredOwnerCleanup j).
Proof. unfold auditDeferredOwnerCleanup. quiet_tac. Qed.
Hint Resolve quiet_auditDeferredEnrollmentCleanup quiet_auditDeferredOwnerCleanup : quiet.

(** ** Writing a snapshot *)

Lemma frame_quiet {B} (m : M B) : quiet m -> keeps frame m.
Proof. apply keeps_quiet, quiet_frame. Qed.
Lemma frame_writeBootstrapState st : keeps frame (writeBootstrapState st).
Proof. apply keeps_writeBootstrapState; [apply quiet_frame | done]. Qed.
Lemma frame_writeLocalState st : keeps frame (writeLocalState st).
Proof. apply keeps_writeLocalState; [apply quiet_frame | done]. Qed.
Lemma frame_update f : (forall w, frame w (f w)) -> keeps frame (update f).
Proof. intros H w o w' [= _ <-]. apply H. Qed.
Hint Resolve frame_writeBootstrapState frame_writeLocalState : keeps.
Hint Extern 2 (keeps frame _) => apply frame_quiet; solve [eauto with quiet] : keeps.
Hint Extern 2 (keeps frame (update _)) => apply frame_update; done : keeps.

Lemma frame_removeAbsent_bootstrap : keeps frame (removeAbsent w_bootstrap w_set_bootstrap).
Proof. unfold removeAbsent. keeps_tac. Qed.
Lemma frame_removeAbsent_local : keeps frame (removeAbsent w_local w_set_local).
Proof. unfold removeAbsent. keeps_tac. Qed.
Hint Resolve frame_removeAbsent_bootstrap frame_removeAbsent_local : keeps.

Lemma frame_writeAuthenticationSnapshot s : keeps frame (writeAuthenticationSnapshot s).
Proof. unfold writeAuthenticationSnapshot. keeps_tac. Qed.

Lemma removeAbsent_ok {F} (get : World -> file F) set w w' :
  (forall v, get (w_tick v) = get v) -> (forall f v, get (set f v) = f) ->
  removeAbsent get set w = (Return (Ok tt), w') -> get w' = Absent.
Proof.
  intros Hg Hs H. unfold removeAbsent in H. apply bindM_inv in H as [(f & w1 & [= <- <-] & H)|[[=] _]].
  apply bindM_inv in H as [(c & w2 & H2 & H)|[_ [=]]]. apply ask_inv in H2 as [[[= ->] ->]|[[=] _]].
  destruct (get w) eqn:Hw, (e_change _); end_run H; try done; rewrite ?Hs, ?Hg; done.
Qed.

(** The part of a snapshot in the first file survives writing the second. *)
Definition local_only (w w' : World) : Prop := w_bootstrap w' = w_bootstrap w.
#[local] Instance local_only_preorder : PreOrder local_only.
Proof. split; [done|]. unfold local_only. intros ? ? ? ? ?. congruence. Qed.
Lemma local_only_quiet {B} (m : M B) : quiet m -> keeps local_only m.
Proof. apply keeps_quiet. intros w w' Q. by apply quiet_bootstrap. Qed.
Lemma local_only_update f : (forall w, local_only w (f w)) -> keeps local_only (update f).
Proof. intros H w o w' [= _ <-]. apply H. Qed.
Lemma local_only_writeLocalState st : keeps local_only (writeLocalState st).
Proof. apply keeps_writeLocalState; [|done]. intros w w' Q. by apply quiet_bootstrap. Qed.
Hint Resolve local_only_writeLocalState : keeps.
Hint Extern 2 (keeps local_only _) => apply local_only_quiet; solve [eauto with quiet] : keeps.
Hint Extern 2 (keeps local_only (update _)) => apply local_only_update; done : keeps.
Lemma local_only_removeAbsent : keeps local_only (removeAbsent w_local w_set_local).
Proof. unfold removeAbsent. keeps_tac. Qed.

Lemma write_ok {F} (wr : R unit) (set : file F -> World -> World) (v : F) (valid : bool) w w' :
  (forall o w', wr w = (o, w') -> (o <> Return (Ok tt) /\ quiet_step w w') \/ (valid = true /\ write_result set v w o w')) ->
  wr w = (Return (Ok tt), w') -> w' = set (Stored v) (w_tick w).
Proof. intros Hw [[? _]|[_ [[? _]|[[_ ->]|[[=] _]]]]]%Hw; done. Qed.

Lemma writeAuthenticationSnapshot_spec s w o w' :
  writeAuthenticationSnapshot s w = (o, w') -> frame w w' /\ (o = Return (Ok tt) -> on_disk s w').
Proof.
  intros H. split; [by eapply frame_writeAuthenticationSnapshot|]. intros ->. unfold writeAuthenticationSnapshot in H.
  destruct (negb _); [by end_run H|].
  apply tryM_inv in H as [([] & w1 & H1 & H)|[(? & ? & _ & [=])|[_ [=]]]].
  apply tryM_inv in H as [([] & w2 & H2 & H)|[(? & ? & _ & [=])|[_ [=]]]].
  apply quiet_syncDirectory in H as Q.
  assert (w_bootstrap w1 = if sn_BootstrapExisted s then Stored (sn_Bootstrap s) else Absent) as Hb.
  { destruct (sn_BootstrapExisted s); [|by eapply removeAbsent_ok in H1].
    by apply (write_ok _ _ _ _ _ _ (writeBootstrapState_inv _ _)) in H1 as ->. }
  assert (w_bootstrap w2 = w_bootstrap w1 /\ w_local w2 = if sn_LocalExisted s then Stored (sn_Local s) else Absent) as [Hb2 Hl].
  { destruct (sn_LocalExisted s).
    - split; [by eapply local_only_writeLocalState|].
      by apply (write_ok _ _ _ _ _ _ (writeLocalState_inv _ _)) in H2 as ->.
    - split; [by eapply local_only_removeAbsent | by eapply removeAbsent_ok in H2]. }
  split; [rewrite (quiet_bootstrap _ _ Q) | rewrite (quiet_local _ _ Q)]; congruence.
Qed.

(** ** Journals *)

Lemma removePrivateFile_inv {F} (get : World -> file F) set w o w' :
  removePrivateFile get set w = (o, w') ->
  (quiet_step w w' /\ (o = Return (Ok tt) -> get w = Absent)) \/ w' = set Absent (w_tick w).
Proof.
  intros H. unfold removePrivateFile in H. apply bindM_inv in H as [(f & w1 & [= <- <-] & H)|[[=] _]].
  apply bindM_inv in H as [(c & w2 & H2 & H)|[H2 ->]].
  - assert (quiet_step w w2) as Q by (by eapply quiet_ask). apply ask_inv in H2 as [[[= ->] ->]|[[=] _]].
    destruct (get w) eqn:Hw, (e_change _); end_run H; first [by left; split | by right].
  - left. split; [by eapply quiet_ask | done].
Qed.

Lemma loadAuthenticationSnapshot_ok s w w' : loadAuthenticationSnapshot w = (Return (Ok s), w') -> on_disk s w.
Proof.
  intros H. unfold loadAuthenticationSnapshot in H.
  apply tryM_inv in H as [([b bx] & w1 & H1 & H)|[(? & ? & _ & [=])|[_ [=]]]].
  apply tryM_inv in H as [([l lx] & w2 & H2 & H)|[(? & ? & _ & [=])|[_ [=]]]]. injection H as <- <-.
  pose proof (quiet_loadBootstrapStateWithExistence _ _ _ H1) as Q.
  apply loadBootstrapStateWithExistence_ok in H1. apply loadLocalStateWithExistence_ok in H2. rewrite (quiet_local _ _ Q) in H2.
  split; cbn; [destruct H1 as [(? & _ & ->)|(? & _ & ->)] | destruct H2 as [(? & _ & ->)|(? & _ & ->)]]; done.
Qed.

Lemma loadAuthenticationSnapshot_from w wc s w' :
  quiet_step w wc -> loadAuthenticationSnapshot wc = (Return (Ok s), w') -> on_disk s w.
Proof.
  intros Q H%loadAuthenticationSnapshot_ok. destruct H as [H1 H2].
  split; [by rewrite <- (quiet_bootstrap _ _ Q) | by rewrite <- (quiet_local _ _ Q)].
Qed.

Lemma on_disk_from s w w1 : quiet_step w w1 -> on_disk s w1 -> on_disk s w.
Proof. intros Q [H1 H2]. split; [by rewrite <- (quiet_bootstrap _ _ Q) | by rewrite <- (quiet_local _ _ Q)]. Qed.

Lemma capability_stored c w st : capability c w -> stored_state w st -> st = c.
Proof. unfold capability. intros Hc (r & Hr & _ & <-). rewrite Hc in Hr. by injection Hr as <-. Qed.

Lemma still_auth_frame w w' : still w w' -> auth_frame w w'.
Proof. by intros (?&?&_). Qed.
Lemma still_frame w w' : still w w' -> frame w w'.
Proof. by intros (_&_&_&?&?&?&_). Qed.

Section Protocol.
(** The protocol's journal, and the other protocol's. *)
Context {J K : Type} (get : World -> file J) (set : file J -> World -> World) (other : World -> file K).
Context (valid : J -> bool) (prevOf nextOf : J -> authenticationSnapshot) (ready : J -> J) (from to : ConsoleState).
(** The protocol's own steps: its hooks, the event and the deferred note it
    records, the states that decide for rolling back and for going on, and the
    snapshot recovery chooses. *)
Context (hook : string -> R unit) (after : R unit) (backEvent : J -> AuditEvent) (deferred : J -> M unit).
Context (back forward : ConsoleState -> bool) (choose : J -> ConsoleState -> option (authenticationSnapshot * string)).
Context (recoverEvent : J -> ConsoleState -> string -> AuditEvent).

Hypothesis get_journals : forall w w', journals w w' -> get w' = get w.
Hypothesis other_journals : forall w w', journals w w' -> other w' = other w.
Hypothesis get_set : forall f w, get (set f w) = f.
Hypothesis other_set : forall f w, other (set f w) = other w.
Hypothesis set_auth : forall f w, auth_frame w (set f w).
Hypothesis set_capability : forall f w, w_capability (set f w) = w_capability w.
Hypothesis ready_valid : forall j, valid j = true -> valid (ready j) = true.
Hypothesis ready_prev : forall j, prevOf (ready j) = prevOf j.
Hypothesis ready_next : forall j, nextOf (ready j) = nextOf j.
Hypothesis quiet_hook : forall s, quiet (hook s).
Hypothesis quiet_after : quiet after.
Hypothesis quiet_deferred : forall j, quiet (deferred j).
Hypothesis from_to : from <> to.
Hypothesis back_to : back to = false.
Hypothesis back_from : back from = true.
Hypothesis choose_from : forall j, exists reason, choose j from = Some (prevOf j, reason).
Hypothesis choose_to : forall j, exists reason, choose j to = Some (nextOf j, reason).

(** ** The protocol *)

Definition write_commit (j : J) : R unit :=
  when negb (valid j) return failR EInvalidData ;; writeJSONFile set j.
Definition load_commit : R (option J) :=
  try f := readJSONFile get fails failR in
  match f with None => okR None | Some j => if valid j then okR (Some j) else failR EInvalidData end.
Definition remove_commit : R unit := removePrivateFile get set.

Definition rollback (j : J) (operationErr : aerr) : R unit :=
  try _ := recordAudit (backEvent j) fails (fun e => failR (EJoin [operationErr; e; ErrRecoveryRequired])) in
  try _ := writeAuthenticationSnapshot (prevOf j) fails (fun e => failR (EJoin [operationErr; e; ErrRecoveryRequired])) in
  try _ := remove_commit fails (fun e => failR (EJoin [operationErr; e; ErrRecoveryRequired])) in
  failR operationErr.

Definition cleanup (j : J) : R unit := try _ := remove_commit fails (fun _ => deferred j ;;* okR tt) in okR tt.

Definition resolve (provider : option (R ConsoleState)) (j : J) (operationErr : aerr) : R unit :=
  match provider with
  | None => failR (EJoin [operationErr; ErrRecoveryRequired])
  | Some current =>
      try state := current fails (fun e => failR (EJoin [operationErr; ErrRecoveryRequired; e])) in
      if back state then rollback j operationErr
      else if forward state then cleanup j
      else failR (EJoin [operationErr; ErrRecoveryRequired; EInvalidData])
  end.

Definition converge (provider : option (R ConsoleState)) (j : J) (transition : R unit) : R unit :=
  try _ := hook "journal_prepared" fails rollback j in
  try _ := writeAuthenticationSnapshot (nextOf j) fails rollback j in
  try _ := hook "authentication_written" fails rollback j in
  try _ := write_commit (ready j) fails rollback (ready j) in
  try _ := hook "before_state_transition" fails rollback (ready j) in
  try _ := transition fails resolve provider (ready j) in
  try _ := after fails (fun _ => deferred (ready j) ;;* okR tt) in
  cleanup (ready j).

Definition recover_chosen (j : J) (state : ConsoleState) : R unit :=
  match choose j state with
  | None => failR EInvalidData
  | Some (snapshot, reason) =>
      try _ := recordAudit (recoverEvent j state reason) fails failR in
      try _ := writeAuthenticationSnapshot snapshot fails failR in
      try _ := remove_commit fails failR in
      okR tt
  end.

Definition recover (current : R ConsoleState) : R unit :=
  try _ := acquireStoreLock fails failR in
  try found := load_commit fails failR in
  match found with
  | None => okR tt
  | Some journal =>
      try o := lstat other fails failR in
      when o return failR EInvalidData ;;
      try state := current fails failR in
      recover_chosen journal state
  end.

Fixpoint attempts (n : nat) (w : World) : World :=
  match n with O => w | S n' => attempts n' (snd (recover currentAuthState w)) end.

(** ** States on the way *)

Definition clear (w : World) : Prop := get w = Absent /\ other w = Absent.

(** The journal is on disk and the capability state is [c]. *)
Definition mid prev next (c : ConsoleState) (w : World) : Prop :=
  other w = Absent /\ (exists j, get w = Stored j /\ valid j = true /\ prevOf j = prev /\ nextOf j = next) /\ capability c w.

(** What holds at every instant from the first write to the end of recovery. *)
Definition consistent (prev next : authenticationSnapshot) (w : World) : Prop :=
  mid prev next from w \/ mid prev next to w \/
  (clear w /\ ((capability from w /\ on_disk prev w) \/ (capability to w /\ on_disk next w))).

Lemma clear_still w w' : still w w' -> clear w -> clear w'.
Proof.
  intros F%still_frame%frame_journals [? ?]. split; [rewrite (get_journals _ _ F) | rewrite (other_journals _ _ F)]; done.
Qed.

Section Between.
Context (prev next : authenticationSnapshot).

Lemma mid_frame c w w' : frame w w' -> mid prev next c w -> mid prev next c w'.
Proof.
  intros F (H4 & (j & H5) & H6). pose proof (frame_journals _ _ F) as FJ. split; [by rewrite (other_journals _ _ FJ)|].
  split; [exists j; by rewrite (get_journals _ _ FJ) | by eapply capability_frame].
Qed.
Lemma mid_quiet c w w' : quiet_step w w' -> mid prev next c w -> mid prev next c w'.
Proof. intros Q. apply mid_frame. by apply quiet_frame. Qed.
Lemma mid_still c w w' : still w w' -> mid prev next c w -> mid prev next c w'.
Proof. intros S. apply mid_frame. by apply still_frame. Qed.
Lemma mid_consistent c w : c = from \/ c = to -> mid prev next c w -> consistent prev next w.
Proof. intros [-> | ->] ?; [by left | by right; left]. Qed.
Lemma mid_from w : mid prev next from w -> consistent prev next w.
Proof. by left. Qed.
Lemma mid_to w : mid prev next to w -> consistent prev next w.
Proof. by right; left. Qed.
Lemma mid_not_clear c w : mid prev next c w -> ~ clear w.
Proof. intros (_ & (j & Hj & _) & _) [Hn _]. congruence. Qed.
Hint Resolve mid_quiet mid_from mid_to : core.

Lemma consistent_still w w' : still w w' -> consistent prev next w -> consistent prev next w'.
Proof.
  intros S [Hm|[Hm|(Hg & H)]]; [left; by eapply mid_still | right; left; by eapply mid_still |].
  right; right. split; [by eapply clear_still|]. pose proof (still_frame _ _ S). pose proof (still_auth_frame _ _ S).
  destruct H as [[? ?]|[? ?]]; [left | right]; (split; [by eapply capability_frame | by eapply on_disk_frame]).
Qed.

(** ** Steps *)

Lemma mid_set f c j w :
  f = Stored j -> valid j = true -> prevOf j = prev -> nextOf j = next -> other w = Absent -> capability c w ->
  mid prev next c (set f (w_tick w)).
Proof.
  intros -> Hv Hp Hn Ho Hc. split; [by rewrite other_set, (other_journals w)|]. split; [exists j; by rewrite get_set|].
  unfold capability. by rewrite set_capability.
Qed.

(** Removing the journal once the files agree with the capability state. *)
Lemma remove_spec c s w o w' :
  mid prev next c w -> on_disk s w -> (c = from /\ s = prev) \/ (c = to /\ s = next) ->
  remove_commit w = (o, w') ->
  consistent prev next w' /\ on_disk s w' /\ capability c w' /\ (o = Return (Ok tt) -> clear w').
Proof.
  intros Hm Hd Hcs [[Q Ho]| ->]%removePrivateFile_inv.
  - split; [apply (mid_consistent c); [naive_solver | by eapply mid_quiet]|]. split; [|split].
    + eapply on_disk_frame; [by apply quiet_auth_frame | done].
    + eapply capability_frame; [by apply quiet_frame | by apply Hm].
    + intros Ho'. apply Ho in Ho'. destruct Hm as (_ & (j & Hj & _) & _). congruence.
  - destruct Hm as (Ha & _ & Hc). set (w1 := set Absent (w_tick w)).
    assert (clear w1) by (split; [apply get_set | unfold w1; by rewrite other_set, (other_journals w)]).
    assert (capability c w1) by (unfold capability, w1; by rewrite set_capability).
    assert (on_disk s w1) by (eapply (on_disk_frame _ w); [etrans; [|apply set_auth]; done | done]).
    split; [|done]. right; right. split; [done|]. destruct Hcs as [[-> ->]|[-> ->]]; [by left | by right].
Qed.

Lemma rollback_spec j e w o w' :
  mid prev next from w -> prevOf j = prev -> rollback j e w = (o, w') ->
  consistent prev next w' /\ forall u, o <> Return (Ok u).
Proof.
  intros Hm Hj H. unfold rollback in H. rewrite Hj in H.
  apply tryM_inv in H as [([] & w1 & H1 & H)|[(? & w1 & H1 & [= <- <-])|[H1 ->]]];
    pose proof (quiet_recordAudit _ _ _ _ H1) as Q; [|split; [|done]; eauto..].
  pose proof (mid_quiet _ _ _ Q Hm) as Hm1.
  apply tryM_inv in H as [([] & w2 & H2 & H)|[(? & w2 & H2 & [= <- <-])|[H2 ->]]];
    apply writeAuthenticationSnapshot_spec in H2 as [F Hd]; pose proof (mid_frame _ _ _ F Hm1) as Hm2; [|split; [|done]; eauto..].
  apply tryM_inv in H as [([] & w3 & H3 & [= <- <-])|[(? & w3 & H3 & [= <- <-])|[H3 ->]]];
    eapply remove_spec in H3; try done; auto; (split; [by apply H3 | done]).
Qed.

(** Writing the journal: it is on disk afterwards, or nothing changed. *)
Lemma write_journal c j w o w' :
  valid j = true -> prevOf j = prev -> nextOf j = next -> other w = Absent -> capability c w ->
  write_commit j w = (o, w') ->
  auth_frame w w' /\ ((quiet_step w w' /\ o <> Return (Ok tt)) \/ mid prev next c w').
Proof.
  intros Hv Hp Hn Ha Hc H. unfold write_commit in H. rewrite Hv in H. cbn in H.
  assert (auth_frame w (set (Stored j) (w_tick w))) by (etrans; [|apply set_auth]; done).
  pose proof (mid_set (Stored j) c j w eq_refl Hv Hp Hn Ha Hc).
  apply writeJSONFile_inv in H as [[? Q']|[[_ ->]|[_ ->]]]; [split; [by apply quiet_auth_frame | by left]|auto..].
Qed.

(** The publish step: on success the capability is [to]; on an error it may be
    either. *)
Lemma publish actor w o w' :
  mid prev next from w -> discard (Transition to actor) w = (o, w') ->
  auth_frame w w' /\ (mid prev next to w' \/ (mid prev next from w' /\ forall u, o <> Return (Ok u))).
Proof.
  intros Hm H. unfold discard in H.
  assert (exists o1, Transition to actor w = (o1, w') /\ (forall u, o = Return (Ok u) -> exists st, o1 = Return (Ok st)))
    as (o1 & H1 & Hok).
  { apply tryM_inv in H as [(st & w1 & H1 & [= <- <-])|[(e & w1 & H1 & [= <- <-])|[H1 ->]]]; eexists; split; try done; eauto. }
  apply Transition_inv in H1 as [(S1 & Hno & _)|(ev & (_ & _ & Hc & _ & Hb & Hl & He & Ho) & Ht & _)].
  - split; [by apply still_auth_frame|]. right. split; [by eapply mid_still|].
    intros u Hu. destruct (Hok u Hu) as [st Hst]. by destruct (Hno st).
  - split; [done|]. left. destruct Hm as (Ha & (j & Hj) & _). assert (journals w w') as FJ by done.
    split; [by rewrite (other_journals _ _ FJ)|]. split; [exists j; by rewrite (get_journals _ _ FJ)|].
    unfold capability. by rewrite Hc, Ht.
Qed.

Lemma deferred_quiet j w o w' : (deferred j ;;* okR tt) w = (o, w') -> quiet_step w w'.
Proof. apply (quiet_bind (deferred j) (fun _ => okR tt)); eauto with quiet. Qed.

Lemma cleanup_spec j w o w' :
  mid prev next to w -> on_disk next w -> cleanup j w = (o, w') ->
  consistent prev next w' /\ on_disk next w' /\ capability to w'.
Proof.
  intros Hm Hd [([] & w1 & H1 & [= <- <-])|[(e & w1 & H1 & H)|[H1 ->]]]%tryM_inv;
    eapply remove_spec in H1; try done; auto; destruct H1 as (H1 & H2 & H3 & _); try done.
  apply deferred_quiet in H as Q. split; [by eapply consistent_still; [apply quiet_still|]|].
  split; [eapply on_disk_frame; [by apply quiet_auth_frame | done] | eapply capability_frame; [by apply quiet_frame | done]].
Qed.

Section Provider.
(** The provider may be missing; the transition is the capability store's. *)
Variable provider : option (R ConsoleState).
Hypothesis provider_current : provider = None \/ provider = Some currentAuthState.
Variable actor : string.

Lemma resolve_spec j e w o w' :
  (mid prev next to w \/ mid prev next from w) -> on_disk next w -> prevOf j = prev -> resolve provider j e w = (o, w') ->
  consistent prev next w' /\ (o = Return (Ok tt) -> on_disk next w' /\ capability to w').
Proof.
  intros Hm Hd Hj H. assert (consistent prev next w) as Hc by (destruct Hm; auto).
  destruct provider_current as [Hp|Hp]; rewrite Hp in H; [by injection H as <- <-|]. unfold resolve in H.
  apply tryM_inv in H as [(st & w1 & H1 & H)|[(? & w1 & H1 & [= <- <-])|[H1 ->]]];
    apply currentAuthState_inv in H1 as [S1 Hst]; pose proof (consistent_still _ _ S1 Hc) as Hc1; try done.
  specialize (Hst st eq_refl).
  assert (forall c, mid prev next c w -> st = c) as Heq by (intros c (_ & _ & Hcap); by eapply capability_stored).
  destruct Hm as [Hm|Hm]; pose proof (Heq _ Hm) as ->; pose proof (mid_still _ _ _ S1 Hm) as Hm1.
  - rewrite back_to in H. destruct (forward to); [|by injection H as <- <-].
    eapply cleanup_spec in H as (? & ? & ?); [auto|done|]. eapply on_disk_frame; [by apply still_auth_frame | done].
  - rewrite back_from in H. apply rollback_spec in H as [? Hno]; [|done..]. split; [done|]. intros Ho. by destruct (Hno tt).
Qed.

(** One step that keeps the state in the middle; its failure rolls back. *)
Lemma converge_step {B} j (m : R B) (k : B -> R unit) w o w' (Q : World -> Prop) :
  mid prev next from w ->
  (forall o1 w1, m w = (o1, w1) -> mid prev next from w1 /\ (forall b, o1 = Return (Ok b) -> Q w1)) ->
  prevOf j = prev -> tryM m (rollback j) k w = (o, w') ->
  (consistent prev next w' /\ o <> Return (Ok tt)) \/ exists b w1, mid prev next from w1 /\ Q w1 /\ k b w1 = (o, w').
Proof.
  intros Hm Hs Hj [(b & w1 & H1 & H)|[(e & w1 & H1 & H)|[H1 ->]]]%tryM_inv; destruct (Hs _ _ H1) as [Hm1 HQ].
  - right. eauto 10.
  - left. eapply rollback_spec in H as [? Hno]; [|done..]. split; [done|]. apply Hno.
  - left. split; [by left | done].
Qed.

Lemma hook_step j s (k : unit -> R unit) w o w' :
  mid prev next from w -> on_disk next w -> prevOf j = prev -> tryM (hook s) (rollback j) k w = (o, w') ->
  (consistent prev next w' /\ o <> Return (Ok tt)) \/
  exists b w1, mid prev next from w1 /\ on_disk next w1 /\ k b w1 = (o, w').
Proof.
  intros Hm Hd Hj. apply converge_step; [done| |done].
  intros o1 w1 Q%quiet_hook. split; [by eauto|]. intros _ _. eapply on_disk_frame; [by apply quiet_auth_frame | done].
Qed.

(** From the publish step on. *)
Lemma finish_spec j w o w' :
  mid prev next from w -> on_disk next w -> prevOf j = prev ->
  (try _ := discard (Transition to actor) fails resolve provider j in
   try _ := after fails (fun _ => deferred j ;;* okR tt) in
   cleanup j) w = (o, w') ->
  consistent prev next w' /\ (o = Return (Ok tt) -> on_disk next w' /\ capability to w').
Proof.
  intros Hm Hd Hj [(u6 & w6 & H6 & H)|[(e & w6 & H6 & H)|[H6 ->]]]%tryM_inv;
    apply publish in H6 as [AF Hpub]; try done; pose proof (on_disk_frame _ _ _ AF Hd) as Hd6.
  2: { eapply resolve_spec in H; [done| |done|done]. destruct Hpub as [?|[? _]]; auto. }
  2: { split; [destruct Hpub as [?|[? _]]; auto | done]. }
  destruct Hpub as [Hm6|[_ Hno]]; [|by destruct (Hno u6)].
  apply tryM_inv in H as [(u7 & w7 & H7 & H)|[(e & w7 & H7 & H)|[H7 ->]]]; apply quiet_after in H7;
    pose proof (mid_quiet _ _ _ H7 Hm6) as Hm7; pose proof (on_disk_frame _ _ _ (quiet_auth_frame _ _ H7) Hd6) as Hd7.
  - eapply cleanup_spec in H; [|done..]. destruct H as (? & ? & ?). auto.
  - apply deferred_quiet in H as Q8. pose proof (mid_quiet _ _ _ Q8 Hm7) as Hm8. split; [by auto|]. intros _.
    split; [eapply on_disk_frame; [by apply quiet_auth_frame | done] | by apply Hm8].
  - split; [by auto | done].
Qed.

Lemma converge_spec j w o w' :
  valid j = true -> prevOf j = prev -> nextOf j = next -> mid prev next from w ->
  converge provider j (discard (Transition to actor)) w = (o, w') ->
  consistent prev next w' /\ (o = Return (Ok tt) -> on_disk next w' /\ capability to w').
Proof.
  intros Hv Hp Hn Hm H. unfold converge in H.
  (* the journal is prepared *)
  eapply (converge_step _ _ _ _ _ _ (fun _ => True)) in H; [|exact Hm| |done].
  2: { intros o1 w1 H1%quiet_hook. by eauto. }
  destruct H as [[? ?]|(u1 & w1 & Hm1 & _ & H)]; [done|].
  (* the next snapshot is written *)
  eapply (converge_step _ _ _ _ _ _ (on_disk next)) in H; [|exact Hm1| |done].
  2: { intros o1 wx [F Hd]%writeAuthenticationSnapshot_spec. split; [by eapply mid_frame|]. intros [] Ho. rewrite <- Hn. auto. }
  destruct H as [[? ?]|(u2 & w2 & Hm2 & Hd2 & H)]; [done|].
  apply hook_step in H as [[? ?]|(u3 & w3 & Hm3 & Hd3 & H)]; [done| |done..].
  (* the journal says so *)
  pose proof (ready_prev j) as Hrp. pose proof (ready_next j) as Hrn.
  eapply (converge_step _ _ _ _ _ _ (on_disk next)) in H; [|exact Hm3| |congruence].
  2: { intros o1 wx Hw. pose proof Hm3 as (Ho3 & _ & Hc3).
       eapply write_journal in Hw as [AF Hr]; [|by apply ready_valid|congruence..|done|done].
       split; [|intros _ _; by eapply on_disk_frame]. destruct Hr as [[Q _]|Hr]; [by eauto|]. exact Hr. }
  destruct H as [[? ?]|(u4 & w4 & Hm4 & Hd4 & H)]; [done|].
  apply hook_step in H as [[? ?]|(u5 & w5 & Hm5 & Hd5 & H)]; [done| |done|done|congruence].
  (* the capability state is published *)
  apply finish_spec in H; [done|done|done|congruence].
Qed.

(** From the first journal write: nothing changed, or the protocol is under
    way. *)
Lemma protocol_spec ev j w o w' :
  valid j = true -> prevOf j = prev -> nextOf j = next -> other w = Absent -> capability from w ->
  (try _ := write_commit j fails failWithAudit ev in converge provider j (discard (Transition to actor))) w = (o, w') ->
  refused w o w' \/
  (consistent prev next w' /\ (o = Return (Ok tt) -> on_disk next w' /\ capability to w')).
Proof.
  intros Hv Hp Hn Ho Hc [([] & w5 & H5 & H)|[(e & w5 & H5 & H)|[H5 ->]]]%tryM_inv;
    destruct (write_journal _ _ _ _ _ Hv Hp Hn Ho Hc H5) as [AF Hr].
  - destruct Hr as [[_ ?]|Hm]; [done|]. right. by eapply converge_spec in H.
  - apply failed_audit_end in H as [Hno Q']. destruct Hr as [[Q5 _]|Hm]; [left; split; [done | by etrans]|].
    right. split; [left; by eapply mid_quiet | intros Ho'; by destruct (Hno tt)].
  - destruct Hr as [[Q5 _]|Hm]; [left; by split | right; split; [by apply mid_from | done]].
Qed.

End Provider.

(** ** Recovery *)

Lemma recover_mid c j w o w' :
  mid prev next c w -> prevOf j = prev -> nextOf j = next -> c = from \/ c = to -> recover_chosen j c w = (o, w') ->
  consistent prev next w' /\ capability c w' /\ (o = Return (Ok tt) -> clear w').
Proof.
  intros Hm Hp Hn Hc H. unfold recover_chosen in H.
  assert (exists s reason, choose j c = Some (s, reason) /\ ((c = from /\ s = prev) \/ (c = to /\ s = next)))
    as (s & reason & Hr & Hs).
  { destruct Hc as [-> | ->]; [destruct (choose_from j) as [r ?] | destruct (choose_to j) as [r ?]]; rewrite <- ?Hp, <- ?Hn; eauto 10. }
  rewrite Hr in H.
  assert (forall wx, mid prev next c wx -> consistent prev next wx /\ capability c wx) as Hmid.
  { intros wx Hx. split; [by eapply mid_consistent | by apply Hx]. }
  apply tryM_inv in H as [([] & w1 & H1 & H)|[(? & w1 & H1 & [= <- <-])|[H1 ->]]];
    pose proof (mid_quiet _ _ _ (quiet_recordAudit _ _ _ _ H1) Hm) as Hm1; [|destruct (Hmid _ Hm1); done..].
  apply tryM_inv in H as [([] & w2 & H2 & H)|[(? & w2 & H2 & [= <- <-])|[H2 ->]]];
    apply writeAuthenticationSnapshot_spec in H2 as [F Hd]; pose proof (mid_frame _ _ _ F Hm1) as Hm2;
    [|destruct (Hmid _ Hm2); done..].
  apply tryM_inv in H as [([] & w3 & H3 & [= <- <-])|[(? & w3 & H3 & [= <- <-])|[H3 ->]]];
    eapply remove_spec in H3 as (? & _ & ? & ?); try done; auto.
Qed.

End Between.

Lemma load_commit_ok r w w' :
  load_commit w = (Return (Ok r), w') -> match r with Some j => get w = Stored j | None => get w = Absent end.
Proof.
  assert (forall w, get (w_tick w) = get w) as Hg by (intros v; by apply get_journals).
  intros H. unfold load_commit in H. apply tryM_inv in H as [(f & w1 & H1 & H)|[(? & ? & _ & [=])|[_ [=]]]].
  apply readJSONFile_ok in H1; [|done]. destruct f as [j|]; [|by injection H as <- <-].
  destruct (valid j); by end_run H.
Qed.
Lemma quiet_load_commit : quiet load_commit.
Proof. unfold load_commit. quiet_tac. Qed.

(** Up to the moment recovery has a journal and the capability state. *)
Lemma recover_inv w o w' :
  recover currentAuthState w = (o, w') ->
  (still w w' /\ (o = Return (Ok tt) -> get w = Absent)) \/
  exists j st w1, still w w1 /\ get w = Stored j /\ stored_state w st /\ recover_chosen j st w1 = (o, w').
Proof.
  intros H. unfold recover in H.
  apply tryM_inv in H as [([] & w1 & H1 & H)|[(? & w1 & H1 & [= <- <-])|[H1 ->]]];
    pose proof (quiet_acquireStoreLock _ _ _ H1) as Q1; [|left; split; [by apply quiet_still | done]..].
  apply tryM_inv in H as [(found & w2 & H2 & H)|[(? & w2 & H2 & [= <- <-])|[H2 ->]]];
    pose proof (transitivity Q1 (quiet_load_commit _ _ _ H2)) as Q2; [|left; split; [by apply quiet_still | done]..].
  apply load_commit_ok in H2. rewrite (get_journals _ _ (frame_journals _ _ (quiet_frame _ _ Q1))) in H2.
  destruct found as [j|]; [|injection H as <- <-; left; by split; [apply quiet_still|]].
  apply tryM_inv in H as [(x & w3 & H3 & H)|[(? & w3 & H3 & [= <- <-])|[H3 ->]]];
    pose proof (transitivity Q2 (quiet_lstat _ _ _ _ H3)) as Q3; [|left; split; [by apply quiet_still | done]..].
  destruct x; [injection H as <- <-; left; split; [by apply quiet_still | done]|].
  apply tryM_inv in H as [(st & w4 & H4 & H)|[(? & w4 & H4 & [= <- <-])|[H4 ->]]];
    apply currentAuthState_inv in H4 as [S4 Hst4]; pose proof (transitivity (quiet_still _ _ Q3) S4) as S4'; [|left; done..].
  right. exists j, st, w4. split; [done|]. split; [done|]. split; [|done].
  destruct (Hst4 st eq_refl) as (r & Hr & Hv). exists r. by rewrite <- (quiet_capability _ _ Q3).
Qed.

Lemma recover_consistent prev next w o w' :
  consistent prev next w -> recover currentAuthState w = (o, w') ->
  consistent prev next w' /\ w_capability w' = w_capability w /\ (o = Return (Ok tt) -> clear w').
Proof.
  intros Hc [[S Hg]|(j & st & w1 & S & Hj & Hst & H)]%recover_inv.
  - split; [by eapply consistent_still|]. split; [by destruct S as (_&_&_&_&_&?&_)|].
    intros Hg'%Hg. eapply clear_still; [done|]. destruct Hc as [(_ & (j & ? & _) & _)|[(_ & (j & ? & _) & _)|[? _]]]; [congruence..|done].
  - assert (exists c, mid prev next c w /\ (c = from \/ c = to)) as (c & Hm & Hcs).
    { destruct Hc as [Hm|[Hm|[[Hn _] _]]]; [eauto | eauto | congruence]. }
    pose proof Hm as (_ & (j' & Hj' & _ & Hp & Hn) & Hcap). rewrite Hj in Hj'. injection Hj' as <-.
    pose proof (capability_stored _ _ _ Hcap Hst) as ->.
    eapply recover_mid in H as (H1 & H2 & H3); [|by eapply mid_still|done..].
    split; [done|]. split; [|done]. unfold capability in *. congruence.
Qed.

(** ** Atomicity *)

(** Nothing has happened since [w0]. *)
Definition untouched (w0 w : World) : Prop := clear w /\ capability from w /\ auth_frame w0 w.

(** Nothing has happened, or the protocol is under way from what [w0] held to a
    next state the operation allows. *)
Definition safe (w0 : World) (allowed : authenticationSnapshot -> authenticationSnapshot -> Prop) (w : World) : Prop :=
  untouched w0 w \/ exists prev next, on_disk prev w0 /\ allowed prev next /\ consistent prev next w.

Lemma untouched_still w0 w w' : still w w' -> untouched w0 w -> untouched w0 w'.
Proof.
  intros S (Hn & Hc & AF). split; [by eapply clear_still|].
  split; [by eapply capability_frame; [apply still_frame|] | etrans; [done | by apply still_auth_frame]].
Qed.

Lemma refused_untouched w (o : outcome (result aerr unit)) w' : clear w -> capability from w -> refused w o w' -> untouched w w'.
Proof. intros Hn Hc [_ Q]. eapply untouched_still; [by apply quiet_still | done]. Qed.

Lemma recover_safe w0 allowed w o w' :
  safe w0 allowed w -> recover currentAuthState w = (o, w') ->
  safe w0 allowed w' /\ w_capability w' = w_capability w /\ (o = Return (Ok tt) -> clear w').
Proof.
  intros [Hu|(prev & next & Hd & Hcand & Hc)] H.
  - apply recover_inv in H as [[S _]|(j & ? & ? & _ & Hj & _)]; [|destruct Hu as ([? _] & _); congruence].
    pose proof (untouched_still _ _ _ S Hu) as Hu'. split; [by left|]. split; [by destruct S as (_&_&_&_&_&?&_)|].
    intros _. apply Hu'.
  - destruct (recover_consistent _ _ _ _ _ Hc H) as (? & ? & ?). split; [|done]. right. eauto.
Qed.

Lemma attempts_safe w0 allowed n w :
  safe w0 allowed w -> safe w0 allowed (attempts n w) /\ w_capability (attempts n w) = w_capability w.
Proof.
  revert w. induction n as [|n IH]; intros w Hs; [done|]. cbn.
  destruct (recover currentAuthState w) as [o w1] eqn:H. cbn.
  destruct (recover_safe _ _ _ _ _ Hs H) as (Hs1 & Hc1 & _). destruct (IH _ Hs1) as [? Hc2]. split; [done | congruence].
Qed.

(** After an operation that left the world [safe], a recovery that returns, with
    failed attempts before it, leaves all of it or nothing. *)
Lemma recovered_all_or_nothing w0 allowed (o : outcome (result aerr unit)) n w1 w3 :
  safe w0 allowed w1 -> (o = Return (Ok tt) -> capability to w1) ->
  recover currentAuthState (attempts n w1) = (Return (Ok tt), w3) ->
  clear w3 /\
  ((capability from w3 /\ w_bootstrap w3 = w_bootstrap w0 /\ w_local w3 = w_local w0 /\ o <> Return (Ok tt)) \/
   (capability to w3 /\ exists prev next, on_disk prev w0 /\ allowed prev next /\ on_disk next w3)).
Proof.
  intros Hs Hok H3. destruct (attempts_safe _ _ n _ Hs) as [Hs2 Hc2].
  destruct (recover_safe _ _ _ _ _ Hs2 H3) as (Hs3 & Hc3 & Hj). specialize (Hj eq_refl). split; [done|].
  assert (capability from w3 -> o <> Return (Ok tt)) as Hno.
  { intros Hb Ho. apply Hok in Ho. unfold capability in Hb, Ho. rewrite Hc3, Hc2, Ho in Hb. by injection Hb as ->. }
  destruct Hs3 as [(_ & Hb & [Hf1 Hf2])|(prev & next & Hd & Hcand & [Hm|[Hm|[_ [[Hb Hd3]|[Hb Hd3]]]]])].
  - left. auto.
  - by apply mid_not_clear in Hm.
  - by apply mid_not_clear in Hm.
  - left. destruct Hd as [Hd1 Hd2], Hd3 as [Hd3 Hd4]. split; [done|]. repeat split; [congruence | congruence | auto].
  - right. split; [done|]. eauto.
Qed.

(** ** Recovery completes *)

Hypothesis valid_snapshots : forall j, valid j = true ->
  validateAuthenticationSnapshot (prevOf j) = true /\ validateAuthenticationSnapshot (nextOf j) = true.
Hypothesis valid_from : validState from = true.
Hypothesis valid_to : validState to = true.

Lemma goes_load_commit w : healthy w -> get w = Absent \/ (exists j, get w = Stored j /\ valid j = true) -> goes load_commit w.
Proof.
  intros Hh Hg. assert (forall v, get (w_tick v) = get v) as Ht by (intros v; by apply get_journals).
  apply goes_try; [apply goes_readJSONFile; [done|]; rewrite Ht; by destruct Hg as [->|(j & -> & _)]|].
  intros f w1 H1. apply readJSONFile_ok in H1; [|done]. destruct Hg as [Hg|(j & Hg & Hv)], f as [j'|];
    rewrite Hg in H1; try discriminate H1; [apply goes_ok|].
  injection H1 as <-. rewrite Hv. apply goes_ok.
Qed.

Lemma goes_recover_chosen c j w :
  healthy w -> valid j = true -> c = from \/ c = to -> goes (recover_chosen j c) w.
Proof.
  intros Hh Hv Hc. destruct (valid_snapshots _ Hv) as [Hvp Hvn]. unfold recover_chosen.
  assert (exists s reason, choose j c = Some (s, reason) /\ validateAuthenticationSnapshot s = true) as (s & reason & -> & Hs).
  { destruct Hc as [-> | ->]; [destruct (choose_from j) as [r ->] | destruct (choose_to j) as [r ->]]; eauto. }
  apply goes_try; [by apply goes_recordAudit|]. intros u1 w1 Q1%quiet_recordAudit.
  pose proof (healthy_quiet _ _ Q1 Hh) as Hh1.
  apply goes_try; [by apply goes_writeAuthenticationSnapshot|]. intros u2 w2 H2.
  pose proof (healthy_keeps _ _ _ _ (later_writeAuthenticationSnapshot s) H2 Hh1) as Hh2.
  apply goes_try; [by apply goes_removePrivateFile|]. intros. apply goes_ok.
Qed.

Lemma recover_consistent_completes prev next w : consistent prev next w -> healthy w -> goes (recover currentAuthState) w.
Proof.
  intros Hc Hh. unfold recover.
  apply goes_try; [by apply goes_acquireStoreLock|]. intros u1 w1 Q1%quiet_acquireStoreLock.
  pose proof (healthy_quiet _ _ Q1 Hh) as Hh1. pose proof (frame_journals _ _ (quiet_frame _ _ Q1)) as FJ1.
  apply goes_try.
  { apply goes_load_commit; [done|]. rewrite (get_journals _ _ FJ1).
    destruct Hc as [(_ & (j & ? & ? & _) & _)|[(_ & (j & ? & ? & _) & _)|[[? _] _]]]; eauto. }
  intros found w2 H2. pose proof (quiet_load_commit _ _ _ H2) as Q2'. pose proof (transitivity Q1 Q2') as Q2.
  apply load_commit_ok in H2. rewrite (get_journals _ _ FJ1) in H2. destruct found as [j|]; [|apply goes_ok].
  assert (exists c, mid prev next c w /\ (c = from \/ c = to)) as (c & Hm & Hcs).
  { destruct Hc as [Hm|[Hm|[[Hn _] _]]]; [eauto | eauto | congruence]. }
  pose proof Hm as (Ho & (j' & Hj' & Hv & _ & _) & Hcap). rewrite H2 in Hj'. injection Hj' as <-.
  pose proof (healthy_quiet _ _ Q2 Hh) as Hh2.
  apply goes_try; [by apply goes_lstat|]. intros x w3 H3. pose proof (transitivity Q2 (quiet_lstat _ _ _ _ H3)) as Q3.
  apply lstat_ok in H3; [|intros v; by apply other_journals].
  rewrite (other_journals _ _ (frame_journals _ _ (quiet_frame _ _ Q2))), Ho in H3. rewrite H3. cbn.
  pose proof (healthy_quiet _ _ Q3 Hh) as Hh3.
  assert (capability c w3) as Hcap3 by (eapply capability_frame; [by apply quiet_frame | done]).
  apply goes_try; [eapply goes_currentAuthState; [done | exact Hcap3 | by destruct Hcs as [-> | ->]]|].
  intros st w4 H4. pose proof (healthy_keeps _ _ _ _ later_currentAuthState H4 Hh3) as Hh4.
  apply currentAuthState_inv in H4 as [_ Hst]. pose proof (capability_stored _ _ _ Hcap3 (Hst st eq_refl)) as ->.
  by apply goes_recover_chosen.
Qed.

Lemma recover_safe_completes w0 allowed w : safe w0 allowed w -> healthy w -> goes (recover currentAuthState) w.
Proof.
  intros [(Hn & Hc & AF)|(prev & next & _ & _ & Hc)] Hh; [|by eapply recover_consistent_completes].
  apply goes_try; [by apply goes_acquireStoreLock|]. intros u1 w1 Q1%quiet_acquireStoreLock.
  pose proof (healthy_quiet _ _ Q1 Hh) as Hh1. pose proof (frame_journals _ _ (quiet_frame _ _ Q1)) as FJ1.
  assert (get w1 = Absent) as Hg1 by (rewrite (get_journals _ _ FJ1); apply Hn).
  apply goes_try; [apply goes_load_commit; auto|]. intros found w2 H2. apply load_commit_ok in H2.
  destruct found; [congruence | apply goes_ok].
Qed.

End Protocol.

End Commit.

#[export] Hint Resolve quiet_ctx_Err quiet_loadAuthenticationSnapshot quiet_syncDirectory quiet_enrollmentCommitStep
  quiet_ownerCommitStep quiet_loadEnrollmentCommitJournal quiet_loadOwnerCommitJournal quiet_auditDeferredEnrollmentCleanup
  quiet_auditDeferredOwnerCleanup : quiet.
