(* ===== verification/AuthCommitFacts.v ===== *)
(** * Console authentication: the two commit protocols

    The move from bootstrap to enrollment and the enrollment of the initial owner
    are instances of the journalled commit of AuthProtocol. *)

From S2P Require Import Prelude GoText AuthOrigin AuthTypes AuthState AuthStore AuthLocal AuthBootstrap AuthEnrollment.
From S2P Require Import AuthProxy AuthCapability AuthCommit AuthLogic AuthOps AuthDemo AuthLocalFacts AuthCapabilityFacts.
From S2P Require Import AuthLive AuthProtocol.

Section Commits.
Context {E : Env} {A : Argon2}.

Ltac note_more Q Hm ::=
  lazymatch type of Hm with
  | loadAuthenticationSnapshot _ = (Return (Ok _), _) =>
      let F := fresh "F" in pose proof (loadAuthenticationSnapshot_from _ _ _ _ Q Hm) as F
  | _ => idtac
  end.

(** ** Bootstrap to enrollment *)

Definition enrollment_back (st : ConsoleState) : bool := st ==? StateBootstrap.
Definition enrollment_forward (st : ConsoleState) : bool := (st ==? StateEnrollment) || (st ==? StateFull).
Definition enrollment_ready (j : enrollmentCommitJournal) := ej_with_phase j enrollmentCommitAuthReady.
Definition enrollment_recover_event (j : enrollmentCommitJournal) (st : ConsoleState) (reason : string) : AuditEvent :=
  with_State st (with_Transaction (ej_TransactionID j) (with_Reason reason
    (with_Outcome AuditSuccess (event AuditBootstrapRecover)))).
Definition enrollment_back_event (j : enrollmentCommitJournal) : AuditEvent :=
  with_State StateEnrollment (with_Transaction (ej_TransactionID j)
    (with_Reason "transaction_rolled_back" (with_Outcome AuditFailure (event AuditBootstrapPromote)))).

Lemma convergeEnrollment_eq provider j transition :
  convergeEnrollment provider j transition =
  converge w_enrollmentCommit w_set_enrollmentCommit validateEnrollmentCommitJournal ej_Previous ej_Next enrollment_ready
    enrollmentCommitStep (enrollmentCommitStep "before_journal_cleanup") enrollment_back_event auditDeferredEnrollmentCleanup
    enrollment_back enrollment_forward provider j transition.
Proof. reflexivity. Qed.

Lemma writeEnrollmentCommitJournal_eq :
  writeEnrollmentCommitJournal = write_commit w_set_enrollmentCommit validateEnrollmentCommitJournal.
Proof. reflexivity. Qed.

Lemma RecoverAdvanceToEnrollment_eq current w :
  RecoverAdvanceToEnrollment current w =
  recover w_enrollmentCommit w_set_enrollmentCommit w_ownerCommit validateEnrollmentCommitJournal
    recovery_snapshot_enrollment enrollment_recover_event current w.
Proof. reflexivity. Qed.

Lemma enrollment_ready_valid j :
  validateEnrollmentCommitJournal j = true -> validateEnrollmentCommitJournal (enrollment_ready j) = true.
Proof.
  unfold validateEnrollmentCommitJournal, enrollment_ready.
  cbn [ej_with_phase ej_APIVersion ej_Phase ej_TransactionID ej_RecoveryRoutes ej_Previous ej_Next].
  rewrite !andb_true_iff. intros [[[? _] ?] ?]. done.
Qed.

Lemma enrollment_valid_snapshots j :
  validateEnrollmentCommitJournal j = true ->
  validateAuthenticationSnapshot (ej_Previous j) = true /\ validateAuthenticationSnapshot (ej_Next j) = true.
Proof.
  unfold validateEnrollmentCommitJournal. rewrite andb_true_iff. destruct (normalizeAllowedRoutes _); [|naive_solver].
  rewrite !andb_true_iff. tauto.
Qed.

(** Recovery attempts that may fail or die. *)
Fixpoint recover_enrollment_attempts (n : nat) (w : World) : World :=
  match n with O => w | S n' => recover_enrollment_attempts n' (snd (RecoverAdvanceToEnrollment currentAuthState w)) end.

(** ** Enrollment to full *)

Definition owner_back (st : ConsoleState) : bool := st ==? StateEnrollment.
Definition owner_forward (st : ConsoleState) : bool := st ==? StateFull.
Definition owner_ready (j : ownerCommitJournal) := oj_with_phase j ownerCommitAuthReady.
Definition owner_recover_event (j : ownerCommitJournal) (st : ConsoleState) (reason : string) : AuditEvent :=
  with_State st (with_Transaction (oj_TransactionID j) (with_Reason reason
    (with_Outcome AuditSuccess (event AuditOwnerRecover)))).
Definition owner_back_event (j : ownerCommitJournal) : AuditEvent :=
  with_State StateEnrollment (with_Transaction (oj_TransactionID j)
    (with_Reason "transaction_rolled_back" (with_Outcome AuditFailure (event AuditOwnerEnroll)))).

Lemma convergeOwner_eq provider j transition :
  convergeOwner provider j transition =
  converge w_ownerCommit w_set_ownerCommit validateOwnerCommitJournal oj_Previous oj_Next owner_ready
    ownerCommitStep (okR tt) owner_back_event auditDeferredOwnerCleanup
    owner_back owner_forward provider j transition.
Proof. reflexivity. Qed.

Lemma writeOwnerCommitJournal_eq :
  writeOwnerCommitJournal = write_commit w_set_ownerCommit validateOwnerCommitJournal.
Proof. reflexivity. Qed.

Lemma RecoverInitialOwnerCommit_eq current w :
  RecoverInitialOwnerCommit current w =
  recover w_ownerCommit w_set_ownerCommit w_enrollmentCommit validateOwnerCommitJournal
    recovery_snapshot_owner owner_recover_event current w.
Proof. reflexivity. Qed.

Lemma owner_ready_valid j : validateOwnerCommitJournal j = true -> validateOwnerCommitJournal (owner_ready j) = true.
Proof.
  unfold validateOwnerCommitJournal, owner_ready.
  cbn [oj_with_phase oj_APIVersion oj_Phase oj_TransactionID oj_Previous oj_Next].
  rewrite !andb_true_iff. naive_solver.
Qed.

Lemma owner_valid_snapshots j :
  validateOwnerCommitJournal j = true ->
  validateAuthenticationSnapshot (oj_Previous j) = true /\ validateAuthenticationSnapshot (oj_Next j) = true.
Proof.
  unfold validateOwnerCommitJournal. cbv zeta. rewrite !andb_true_iff. tauto.
Qed.

Fixpoint recover_owner_attempts (n : nat) (w : World) : World :=
  match n with O => w | S n' => recover_owner_attempts n' (snd (RecoverInitialOwnerCommit currentAuthState w)) end.

(** The next state an initial-owner request started at [w] allows: there was no
    owner, its enrollment session was live at a reading of the clock after the
    start, and its password was hashed. *)
Definition owner_allowed (w : World) (request : CompleteInitialOwnerRequest) (prev next : authenticationSnapshot) : Prop :=
  lf_OwnerPasswordPHC (sn_Local prev) = "" /\
  (exists salt phc, hashPassword (Some salt) (co_Password request) = Some phc /\ next = owner_next phc) /\
  exists w' now origin, clock_reading w w' now /\ NormalizeOrigin (co_Origin request) = Some origin /\
    authenticateEnrollmentSnapshot (sn_Bootstrap prev) now request origin = Ok tt.

(** The side conditions of the protocol's lemmas. *)
Ltac protocol_side :=
  first [ assumption | exact enrollment_ready_valid | exact owner_ready_valid
        | exact enrollment_valid_snapshots | exact owner_valid_snapshots
        | exact quiet_enrollmentCommitStep | exact quiet_ownerCommitStep | exact (quiet_enrollmentCommitStep _)
        | exact quiet_auditDeferredEnrollmentCleanup | exact quiet_auditDeferredOwnerCleanup
        | intros ??; reflexivity | intros ?; reflexivity | reflexivity | intros ?? [? ?]; assumption | discriminate
        | intros ?; eexists; reflexivity | done | apply quiet_okR ].

Section Runs.
(** The provider may be missing; the transition is the capability store's. *)
Variable provider : option (R ConsoleState).
Hypothesis provider_current : provider = None \/ provider = Some currentAuthState.
Variable actor : string.

Notation enrollment_consistent := (consistent w_enrollmentCommit w_ownerCommit validateEnrollmentCommitJournal ej_Previous ej_Next StateBootstrap StateEnrollment).
Notation owner_consistent := (consistent w_ownerCommit w_enrollmentCommit validateOwnerCommitJournal oj_Previous oj_Next StateEnrollment StateFull).

(** The whole operation: refused without a trace, or under way to one of the two
    outcomes. *)
Lemma AdvanceToEnrollment_spec tid routes w o w' :
  capability StateBootstrap w ->
  AdvanceToEnrollment provider tid routes (discard (Transition StateEnrollment actor)) w = (o, w') ->
  refused w o w' \/
  exists prev next, on_disk prev w /\ enrollmentAuthenticationCandidate prev tid routes = Ok next /\
    enrollment_consistent prev next w' /\ (o = Return (Ok tt) -> on_disk next w' /\ capability StateEnrollment w').
Proof.
  intros Hc H. assert (Q : quiet_step w w) by reflexivity. unfold AdvanceToEnrollment in H. walk Q H.
  apply negb_false_iff in B2. assert (l = routes) as ->.
  { unfold normalizeAllowedRoutes in B0. destruct (_ || _); [done|]. by destruct (_ && _); simplify_eq. }
  assert (w_ownerCommit w4 = Absent /\ capability StateBootstrap w4) as [Ho4 Hc4].
  { split; [rewrite (quiet_ownerCommit _ _ Q); apply F | by eapply capability_frame; [apply quiet_frame|]]. }
  rewrite convergeEnrollment_eq, writeEnrollmentCommitJournal_eq in H.
  eapply (protocol_spec w_enrollmentCommit w_set_enrollmentCommit w_ownerCommit validateEnrollmentCommitJournal ej_Previous ej_Next
            enrollment_ready StateBootstrap StateEnrollment enrollmentCommitStep (enrollmentCommitStep "before_journal_cleanup")
            enrollment_back_event auditDeferredEnrollmentCleanup enrollment_back enrollment_forward) in H; try protocol_side.
  destruct H as [[Hno Q']|H]; [left; split; [done | by etrans] | right; eauto].
Qed.

Lemma CompleteInitialOwner_spec request w o w' :
  capability StateEnrollment w ->
  CompleteInitialOwner provider request (discard (Transition StateFull actor)) w = (o, w') ->
  refused w o w' \/
  exists prev next, on_disk prev w /\ owner_allowed w request prev next /\
    owner_consistent prev next w' /\ (o = Return (Ok tt) -> on_disk next w' /\ capability StateFull w').
Proof.
  intros Hc H. assert (Q : quiet_step w w) by reflexivity. unfold CompleteInitialOwner in H. walk Q H.
  apply negb_false_iff in B5. rename a2 into prev.
  assert (lf_OwnerPasswordPHC (sn_Local prev) = "") as Hphc by (by apply negb_false_iff, bool_decide_eq_true in B3).
  assert (w_enrollmentCommit w6 = Absent /\ capability StateEnrollment w6) as [Ho6 Hc6].
  { split; [rewrite (quiet_enrollmentCommit _ _ Q); apply F0 | by eapply capability_frame; [apply quiet_frame|]]. }
  rewrite convergeOwner_eq, writeOwnerCommitJournal_eq in H.
  eapply (protocol_spec w_ownerCommit w_set_ownerCommit w_enrollmentCommit validateOwnerCommitJournal oj_Previous oj_Next
            owner_ready StateEnrollment StateFull ownerCommitStep (okR tt)
            owner_back_event auditDeferredOwnerCleanup owner_back owner_forward) in H; try protocol_side.
  destruct H as [[Hno Q']|[H1 H2]]; [left; split; [done | by etrans]|].
  right. exists prev, (owner_next a0). split; [done|]. split; [|by split]. destruct a4. split; [done|].
  split; [by eexists _, _|]. eauto 10.
Qed.

Notation enrollment_safe := (safe w_enrollmentCommit w_ownerCommit validateEnrollmentCommitJournal ej_Previous ej_Next
                               StateBootstrap StateEnrollment).
Notation owner_safe := (safe w_ownerCommit w_enrollmentCommit validateOwnerCommitJournal oj_Previous oj_Next
                          StateEnrollment StateFull).

Lemma AdvanceToEnrollment_safe tid routes w o w1 :
  no_journal w -> capability StateBootstrap w ->
  AdvanceToEnrollment provider tid routes (discard (Transition StateEnrollment actor)) w = (o, w1) ->
  enrollment_safe w (fun prev next => enrollmentAuthenticationCandidate prev tid routes = Ok next) w1 /\
  (o = Return (Ok tt) -> capability StateEnrollment w1).
Proof.
  intros Hn Hc H1. destruct (AdvanceToEnrollment_spec _ _ _ _ _ Hc H1) as [Hr|(prev & next & Hd & Hcand & Hcons & Hok)].
  - split; [left | intros ->; by destruct (proj1 Hr tt)]. by eapply refused_untouched in Hr; try protocol_side.
  - split; [by right; eauto|]. intros ->. by apply Hok.
Qed.

Lemma CompleteInitialOwner_safe request w o w1 :
  no_journal w -> capability StateEnrollment w ->
  CompleteInitialOwner provider request (discard (Transition StateFull actor)) w = (o, w1) ->
  owner_safe w (owner_allowed w request) w1 /\ (o = Return (Ok tt) -> capability StateFull w1).
Proof.
  intros Hn%and_comm Hc H1. destruct (CompleteInitialOwner_spec _ _ _ _ Hc H1) as [Hr|(prev & next & Hd & Hcand & Hcons & Hok)].
  - split; [left | intros ->; by destruct (proj1 Hr tt)]. by eapply refused_untouched in Hr; try protocol_side.
  - split; [by right; eauto|]. intros ->. by apply Hok.
Qed.

(** C32: the move to enrollment is atomic.  Started on a console in the
    bootstrap state, with any failures and with the process dying anywhere in
    the operation and in any number of recovery attempts, a recovery that
    returns leaves no journal and one of two states: the files and the
    capability as before, or the capability enrollment together with exactly the
    narrowed credentials.  An operation that reported success is never undone. *)
Theorem enrollment_transition_atomic (tid : string) (routes : list string) (n : nat) (w w1 w3 : World) (o : outcome (result aerr unit)) :
  no_journal w -> capability StateBootstrap w ->
  AdvanceToEnrollment provider tid routes (discard (Transition StateEnrollment actor)) w = (o, w1) ->
  RecoverAdvanceToEnrollment currentAuthState (recover_enrollment_attempts n w1) = (Return (Ok tt), w3) ->
  no_journal w3 /\
  ((capability StateBootstrap w3 /\ w_bootstrap w3 = w_bootstrap w /\ w_local w3 = w_local w /\ o <> Return (Ok tt)) \/
   (capability StateEnrollment w3 /\
    exists prev next, on_disk prev w /\ enrollmentAuthenticationCandidate prev tid routes = Ok next /\ on_disk next w3)).
Proof.
  intros Hn Hc H1 H3. destruct (AdvanceToEnrollment_safe _ _ _ _ _ Hn Hc H1) as [Hs Hok].
  eapply (recovered_all_or_nothing w_enrollmentCommit w_set_enrollmentCommit w_ownerCommit validateEnrollmentCommitJournal
            ej_Previous ej_Next StateBootstrap StateEnrollment enrollment_back enrollment_forward recovery_snapshot_enrollment
            enrollment_recover_event) with (n := n) (w1 := w1) (o := o); try protocol_side.
Qed.

(** C33: the enrollment of the initial owner is atomic.  With any failures and
    process death anywhere, a recovery that returns leaves no journal and either
    everything as before, or the capability full together with exactly the owner
    password of a request whose enrollment session was live, and no other
    credential: every bootstrap, enrollment and local session is gone.  A
    reported success is never undone. *)
Theorem owner_enrollment_atomic (request : CompleteInitialOwnerRequest) (n : nat) (w w1 w3 : World) (o : outcome (result aerr unit)) :
  no_journal w -> capability StateEnrollment w ->
  CompleteInitialOwner provider request (discard (Transition StateFull actor)) w = (o, w1) ->
  RecoverInitialOwnerCommit currentAuthState (recover_owner_attempts n w1) = (Return (Ok tt), w3) ->
  no_journal w3 /\
  ((capability StateEnrollment w3 /\ w_bootstrap w3 = w_bootstrap w /\ w_local w3 = w_local w /\ o <> Return (Ok tt)) \/
   (capability StateFull w3 /\
    exists prev next, on_disk prev w /\ owner_allowed w request prev next /\ on_disk next w3)).
Proof.
  intros Hn Hc H1 H3. destruct (CompleteInitialOwner_safe _ _ _ _ Hn Hc H1) as [Hs Hok].
  assert (clear w_ownerCommit w_enrollmentCommit w3 /\
    ((capability StateEnrollment w3 /\ w_bootstrap w3 = w_bootstrap w /\ w_local w3 = w_local w /\ o <> Return (Ok tt)) \/
     (capability StateFull w3 /\ exists prev next, on_disk prev w /\ owner_allowed w request prev next /\ on_disk next w3)))
    as [[? ?] ?]; [|by split].
  eapply (recovered_all_or_nothing w_ownerCommit w_set_ownerCommit w_enrollmentCommit validateOwnerCommitJournal
            oj_Previous oj_Next StateEnrollment StateFull owner_back owner_forward recovery_snapshot_owner
            owner_recover_event) with (n := n) (w1 := w1) (o := o); try protocol_side.
Qed.

(** C35: recovery completes.  After either operation was run, with failures and
    process death anywhere, and after any number of recovery attempts that died
    or failed, one more attempt in an environment that works succeeds: no crash
    leaves a console that cannot be recovered. *)
Theorem recovery_completes (tid : string) (routes : list string) (request : CompleteInitialOwnerRequest) (n : nat) (w w1 : World)
    (o : outcome (result aerr unit)) :
  no_journal w ->
  (capability StateBootstrap w /\
   AdvanceToEnrollment provider tid routes (discard (Transition StateEnrollment actor)) w = (o, w1) /\
   healthy (recover_enrollment_attempts n w1) ->
   goes (RecoverAdvanceToEnrollment currentAuthState) (recover_enrollment_attempts n w1)) /\
  (capability StateEnrollment w /\
   CompleteInitialOwner provider request (discard (Transition StateFull actor)) w = (o, w1) /\
   healthy (recover_owner_attempts n w1) ->
   goes (RecoverInitialOwnerCommit currentAuthState) (recover_owner_attempts n w1)).
Proof.
  intros Hn. split; intros (Hc & H1 & Hh).
  - destruct (AdvanceToEnrollment_safe _ _ _ _ _ Hn Hc H1) as [Hs _].
    eapply (attempts_safe w_enrollmentCommit w_set_enrollmentCommit w_ownerCommit validateEnrollmentCommitJournal
            ej_Previous ej_Next StateBootstrap StateEnrollment enrollment_forward recovery_snapshot_enrollment
            enrollment_recover_event) with (n := n) in Hs as [Hs _]; try protocol_side.
    eapply (recover_safe_completes w_enrollmentCommit w_set_enrollmentCommit w_ownerCommit validateEnrollmentCommitJournal
            ej_Previous ej_Next StateBootstrap StateEnrollment recovery_snapshot_enrollment
            enrollment_recover_event) in Hs; try protocol_side.
  - destruct (CompleteInitialOwner_safe _ _ _ _ Hn Hc H1) as [Hs _].
    eapply (attempts_safe w_ownerCommit w_set_ownerCommit w_enrollmentCommit validateOwnerCommitJournal
            oj_Previous oj_Next StateEnrollment StateFull owner_forward recovery_snapshot_owner
            owner_recover_event) with (n := n) in Hs as [Hs _]; try protocol_side.
    eapply (recover_safe_completes w_ownerCommit w_set_ownerCommit w_enrollmentCommit validateOwnerCommitJournal
            oj_Previous oj_Next StateEnrollment StateFull recovery_snapshot_owner
            owner_recover_event) in Hs; try protocol_side.
Qed.

End Runs.

End Commits.

(** ** Witnesses *)

#[local] Existing Instance demo_argon2.

(** The process dies after the publish step, and a first recovery attempt runs. *)
Section DyingEnrollment.
#[local] Instance dying_enrollment_env : Env := dying_env 43.

Definition dying_advance := Eval vm_compute in
  AdvanceToEnrollment (Some currentAuthState) "tx-1" [EnrollmentHandoffRoute] (discard (Transition StateEnrollment "anasd")) (snd demo_exchanged).

Lemma enrollment_transition_atomic_witness :
  exists w3, RecoverAdvanceToEnrollment currentAuthState (recover_enrollment_attempts 1 (snd dying_advance)) = (Return (Ok tt), w3) /\
    no_journal w3 /\ fst dying_advance = Killed.
Proof.
  assert (Hv : succeeded (RecoverAdvanceToEnrollment currentAuthState (recover_enrollment_attempts 1 (snd dying_advance))) = true)
    by (vm_compute; reflexivity).
  assert (Hn : no_journal (snd demo_exchanged)) by (split; reflexivity).
  assert (Hc : capability StateBootstrap (snd demo_exchanged)) by reflexivity.
  assert (H1 : AdvanceToEnrollment (Some currentAuthState) "tx-1" [EnrollmentHandoffRoute]
                 (discard (Transition StateEnrollment "anasd")) (snd demo_exchanged) = (fst dying_advance, snd dying_advance))
    by (vm_compute; reflexivity).
  destruct (RecoverAdvanceToEnrollment currentAuthState (recover_enrollment_attempts 1 (snd dying_advance))) as [[[[]|e]|] w3] eqn:H3;
    try discriminate Hv.
  exists w3. split; [reflexivity|]. split; [|reflexivity].
  exact (proj1 (enrollment_transition_atomic (Some currentAuthState) (or_intror eq_refl) "anasd" "tx-1" [EnrollmentHandoffRoute] 1
                  _ _ _ _ Hn Hc H1 H3)).
Defined.

Lemma dying_recovers i : (44 <= i)%nat -> works i.
Proof.
  intros Hi. unfold works. cbn. destruct (Nat.eqb_spec i 43) as [->|_]; [lia|]. repeat split; by eexists.
Qed.

Lemma recovery_completes_witness :
  goes (RecoverAdvanceToEnrollment currentAuthState) (recover_enrollment_attempts 0 (snd dying_advance)).
Proof.
  assert (Hn : no_journal (snd demo_exchanged)) by (split; reflexivity).
  assert (H1 : AdvanceToEnrollment (Some currentAuthState) "tx-1" [EnrollmentHandoffRoute]
                 (discard (Transition StateEnrollment "anasd")) (snd demo_exchanged) = (fst dying_advance, snd dying_advance))
    by (vm_compute; reflexivity).
  refine (proj1 (recovery_completes (Some currentAuthState) (or_intror eq_refl) "anasd" "tx-1" [EnrollmentHandoffRoute] demo_complete 0
                   _ _ _ Hn) (conj eq_refl (conj H1 _))).
  intros i Hi. apply dying_recovers. exact Hi.
Defined.
End DyingEnrollment.

(** The process dies before the journal of the owner's enrollment is removed. *)
Section DyingOwner.
#[local] Instance dying_owner_env : Env := dying_env 87.

Definition dying_complete := Eval vm_compute in
  CompleteInitialOwner (Some currentAuthState) demo_complete (discard (Transition StateFull "anasd")) (snd demo_enrolling).

Lemma owner_enrollment_atomic_witness :
  exists w3, RecoverInitialOwnerCommit currentAuthState (recover_owner_attempts 1 (snd dying_complete)) = (Return (Ok tt), w3) /\
    no_journal w3 /\ fst dying_complete = Killed.
Proof.
  assert (Hv : succeeded (RecoverInitialOwnerCommit currentAuthState (recover_owner_attempts 1 (snd dying_complete))) = true)
    by (vm_compute; reflexivity).
  assert (Hn : no_journal (snd demo_enrolling)) by (split; reflexivity).
  assert (Hc : capability StateEnrollment (snd demo_enrolling)) by reflexivity.
  assert (H1 : CompleteInitialOwner (Some currentAuthState) demo_complete (discard (Transition StateFull "anasd")) (snd demo_enrolling)
               = (fst dying_complete, snd dying_complete)) by (vm_compute; reflexivity).
  destruct (RecoverInitialOwnerCommit currentAuthState (recover_owner_attempts 1 (snd dying_complete))) as [[[[]|e]|] w3] eqn:H3;
    try discriminate Hv.
  exists w3. split; [reflexivity|]. split; [|reflexivity].
  exact (proj1 (owner_enrollment_atomic (Some currentAuthState) (or_intror eq_refl) "anasd" demo_complete 1 _ _ _ _ Hn Hc H1 H3)).
Defined.
End DyingOwner.
