(* ===== verification/HostLedger.v ===== *)
(** * Host actions: the invocation ledger and recorded execution

    Package [hostaction], registry.go (the compiled actions), admission.go,
    invocation_ledger.go and invocation_ledger_linux.go.  anas-hostd is started
    once per connection, so any number of processes run over one directory with
    a lock file and a record per invocation.

    A process is a program [prog] whose system calls are points where other
    processes may run.  The kernel answers a call and changes the directory; what
    it may answer freely (failures, the clock, names, the outcome of an action)
    comes from an oracle.  A process may die at any point, which releases its
    locks. *)

From Stdlib Require Import Ascii.
From S2P Require Import Prelude GoText GoJson ActionAbi JobTypes.

(** ** Compiled actions (registry.go) *)

Inductive herr := ErrDenied | ErrNoExecution | ErrRequest | ErrAudit | ErrUnavailable | ErrActionFailed | HJoin (l : list herr).

Definition ActionStatus : string := "incus.status".
Definition ActionInvocationStatus : string := "host.invocation.status".
Definition ActionInstallPlan : string := "incus.install.plan".
Definition ActionConfigurePlan : string := "incus.configure.plan".
Definition ActionEnrollPlan : string := "incus.enroll.plan".
Definition ActionUninstallPlan : string := "incus.uninstall.plan".
Definition ActionImagePrunePlan : string := "incus.image-prune.plan".
Definition ActionInstall : string := "incus.install".
Definition ActionConfigure : string := "incus.configure".
Definition ActionEnroll : string := "incus.enroll".
Definition ActionUninstall : string := "incus.uninstall".
Definition ActionImagePrune : string := "incus.image-prune".
Definition ActionTraefikSync : string := "incus.traefik.sync".
Definition ActionPortsSync : string := "incus.ports.sync".

Record ActionSpec := mkActionSpec {
  sp_Name : string; sp_Scope : string; sp_ReadOnly : bool; sp_RequiresRoot : bool; sp_RequiresConfirm : bool;
  sp_Implementation : string; sp_RequirementIDs : list string;
  sp_Mutating : bool; sp_Sync : bool; sp_Policy : ActionConcurrency; sp_Phase : string; sp_PlanFor : string; sp_Timeout : Z }.

Definition reqs : list string :=
  ["INCUS-R-047"; "INCUS-R-048"; "INCUS-R-049"; "INCUS-R-050"; "INCUS-R-051"; "INCUS-R-057"; "HOSTACT-R-001"; "HOSTACT-R-003";
   "HOSTACT-R-004"; "HOSTACT-R-007"; "HOSTACT-R-009"; "HOSTACT-R-010"; "HOSTACT-R-013"].
Definition pruneReqs : list string :=
  ["INCUS-R-072"; "HOSTACT-R-001"; "HOSTACT-R-003"; "HOSTACT-R-004"; "HOSTACT-R-007"; "HOSTACT-R-009"; "HOSTACT-R-010"; "HOSTACT-R-013"].
Definition plan_spec (name phase planFor : string) : ActionSpec :=
  mkActionSpec name "installation-plan" true true false "compiled-hostd" reqs false false ActionCoalesce phase planFor 30.
Definition apply_spec (name phase : string) (timeout : Z) : ActionSpec :=
  mkActionSpec name "installation-apply" false true true "compiled-hostd" reqs true false ActionReject phase "" timeout.

Definition actionSpecs : list ActionSpec :=
  [mkActionSpec ActionStatus "installation-preflight" true false false "internal-only"
     ["INCUS-R-048"; "INCUS-R-049"; "HOSTACT-R-001"; "HOSTACT-R-012"; "HOSTACT-R-013"] false false ActionCoalesce "" "" 5;
   mkActionSpec ActionInvocationStatus "invocation-status" true true false "compiled-hostd"
     ["HOSTACT-R-002"; "HOSTACT-R-007"; "HOSTACT-R-013"] false false ActionCoalesce "" "" 5;
   plan_spec ActionInstallPlan "install" ActionInstall;
   plan_spec ActionConfigurePlan "configure" ActionConfigure;
   plan_spec ActionEnrollPlan "enroll" ActionEnroll;
   plan_spec ActionUninstallPlan "uninstall" ActionUninstall;
   mkActionSpec ActionImagePrunePlan "image-prune-plan" true true false "compiled-hostd" pruneReqs false false ActionReject ""
     ActionImagePrune 60;
   apply_spec ActionInstall "install" 2700;
   apply_spec ActionConfigure "configure" 600;
   apply_spec ActionEnroll "enroll" 300;
   apply_spec ActionUninstall "uninstall" 600;
   mkActionSpec ActionTraefikSync "approved-sync" false true false "compiled-hostd"
     ["INCUS-R-118"; "INCUS-R-119"; "HOSTACT-R-001"; "HOSTACT-R-013"; "HOSTACT-R-014"; "HOSTACT-R-015"] true true ActionQueue
     "traefik-sync" "" 60;
   mkActionSpec ActionPortsSync "approved-sync" false true false "compiled-hostd"
     ["INCUS-R-152"; "INCUS-R-158"; "INCUS-R-160"; "INCUS-R-161"; "HOSTACT-R-001"; "HOSTACT-R-013"; "HOSTACT-R-014"; "HOSTACT-R-015"]
     true true ActionQueue "ports-sync" "" 120;
   mkActionSpec ActionImagePrune "image-prune-apply" false true true "compiled-hostd" pruneReqs true false ActionReject
     "image-prune" "" 600].

Definition LookupAction (name : string) : option ActionSpec := List.find (fun spec => sp_Name spec ==? name) actionSpecs.
Definition ApplyActionNames : list string := [ActionInstall; ActionConfigure; ActionEnroll; ActionUninstall].
Definition PlanActionFor (apply : string) : option string :=
  sp_Name <$> List.find (fun spec => sp_PlanFor spec ==? apply) actionSpecs.
Definition IsSyncAction (name : string) : bool := match LookupAction name with Some spec => sp_Sync spec | None => false end.
Definition IsApplyAction (name : string) : bool := existsb (fun a => a ==? name) ApplyActionNames || (name ==? ActionImagePrune).

(** ** Records (invocation_ledger.go) *)

Definition invocationRecordSchema : string := "anas.hostd-invocation/v1".
Definition InvocationStatusSchema : string := "anas.hostd-invocation-status/v1".
Definition invocationRetention : Z := 30 * 24 * 3600 * 1000000000.
Definition maxInvocationRecord : Z := 65536.

Inductive InvocationState := InvocationAbsent | InvocationRunning | InvocationFinished | InvocationLost.
Definition state_string (s : InvocationState) : string :=
  match s with
  | InvocationAbsent => "absent" | InvocationRunning => "running" | InvocationFinished => "finished" | InvocationLost => "lost"
  end.
#[export] Instance InvocationState_eq_dec : EqDecision InvocationState.
Proof. solve_decision. Defined.

Record InvocationStatus := mkStatus { is_Schema : string; is_State : InvocationState; is_Terminal : option AEvent }.

Definition terminal_type (t : AEvent) : bool := (ae_Type t ==? "result") || (ae_Type t ==? "error").
Definition encodes (t : AEvent) : bool := is_ok (EncodeExecutorEvent t).

(** [InvocationStatus.Validate]. *)
Definition status_Validate (s : InvocationStatus) (jobID invocationID : string) : bool :=
  (is_Schema s ==? InvocationStatusSchema) &&
  match is_State s with
  | InvocationFinished =>
      match is_Terminal s with
      | Some t => (ae_JobID t ==? jobID) && (ae_InvocationID t ==? invocationID) && terminal_type t && encodes t
      | None => false
      end
  | _ => match is_Terminal s with None => true | Some _ => false end
  end.

Record ReleaseIdentity := mkRelease { rl_Version : string; rl_Commit : string }.
Record PeerIdentity := mkPeer { pe_PID : Z; pe_UID : Z; pe_GID : Z }.
Record invocationRecord := mkRecord {
  ir_Schema : string; ir_InvocationID : string; ir_JobID : string; ir_Action : string; ir_ParametersDigest : string;
  ir_Release : ReleaseIdentity; ir_Peer : PeerIdentity; ir_StartedAt : Z; ir_FinishedAt : option Z; ir_Terminal : option AEvent }.

(** [json.Marshal(record)]; an event whose raw value is not JSON does not
    encode. *)
Definition enc_invocation_record (r : invocationRecord) : option string :=
  let build terminal := enc_struct
    [fld "schema" (enc_string (ir_Schema r)); fld "invocation_id" (enc_string (ir_InvocationID r));
     fld "job_id" (enc_string (ir_JobID r)); fld "action" (enc_string (ir_Action r));
     fld "parameters_digest" (enc_string (ir_ParametersDigest r));
     fld "release" (enc_struct [fld "version" (enc_string (rl_Version (ir_Release r))); fld "commit" (enc_string (rl_Commit (ir_Release r)))]);
     fld "peer" (enc_struct [fld "PID" (enc_int (pe_PID (ir_Peer r))); fld "UID" (enc_int (pe_UID (ir_Peer r)));
                             fld "GID" (enc_int (pe_GID (ir_Peer r)))]);
     fld "started_at" (enc_time (ir_StartedAt r)); omit_enc "finished_at" enc_time (ir_FinishedAt r); terminal] in
  match ir_Terminal r with
  | None => Some (build None)
  | Some t => match enc_event t with Some body => Some (build (fld "terminal" body)) | None => None end
  end.

(** [invocationName]. *)
Definition invocationName (s : string) : bool := (slen s =? 32) && sall is_hex_lower s.

(** A record file: what a strict decoder makes of its bytes, if anything. *)
Inductive rfile := Decoded (r : invocationRecord) | Undecodable.

Definition decodeInvocationRecord (f : rfile) (jobID invocationID : string) : result herr invocationRecord :=
  match f with
  | Undecodable => Err ErrUnavailable
  | Decoded r =>
      reject (ir_Schema r !=? invocationRecordSchema) || (ir_InvocationID r !=? invocationID) || (ir_JobID r !=? jobID)
        with ErrUnavailable ;;
      match ir_Terminal r with
      | None => Ok r
      | Some t =>
          reject (ae_JobID t !=? jobID) || (ae_InvocationID t !=? invocationID) || negb (encodes t) with ErrUnavailable ;;
          Ok r
      end
  end.

(** ** System calls and programs *)

Inductive open_answer := Opened (ino : nat) | Exists | NotFound | OpenFailed.
Inductive flock_answer := Granted | WouldBlock | FlockFailed.
Inductive lock_mode := Exclusive | Shared.

(** [audit.Event] as hostd fills it. *)
Record HEvent := mkHEvent { he_Type : string; he_Actor : string; he_Outcome : string; he_Details : list (string * json) }.

Inductive syscall : Type -> Type :=
| CtxLive : syscall bool
| Now : syscall Z
| OpenExclusive (id : string) : syscall open_answer
| OpenLock (id : string) : syscall open_answer
| Flock (ino : nat) (mode : lock_mode) : syscall flock_answer
| Unflock (ino : nat) : syscall unit
| CloseLock (ino : nat) : syscall unit
| ReadRecord (id : string) : syscall (option (option rfile))
| Random : syscall (option string)
| CreateTemporary (name : string) : syscall bool
| FileCall (name : string) : syscall bool
| Rename (name : string) (r : invocationRecord) : syscall bool
| FsyncDirectory : syscall bool
| Unlink (name : string) : syscall unit
| UnlinkRecord (id : string) : syscall unit
| UnlinkLock (id : string) : syscall unit
| Readdirnames : syscall (option (list string))
| StatTemporary (name : string) : syscall (option Z)
| StatLock (id : string) : syscall (option Z)
| Check : syscall bool
| SendProgress (frame : AEvent) : syscall bool
| Execute (r : Request) : syscall (AEvent * option herr)
| Append (ev : HEvent) : syscall bool.

Inductive prog (A : Type) : Type :=
| Ret (a : A)
| Call {X : Type} (c : syscall X) (k : X -> prog A).
Arguments Ret {A} a. Arguments Call {A X} c k.

Fixpoint bindP {A B} (m : prog A) (f : A -> prog B) : prog B :=
  match m with
  | Ret a => f a
  | Call c k => Call c (fun x => bindP (k x) f)
  end.

Notation "'let@' x ':=' c 'in' k" := (Call c (fun x => k)) (at level 10, x name, c at level 99, k at level 200) : go_scope.
Notation "'run' x ':=' m 'in' k" := (bindP m (fun x => k)) (at level 10, x name, m at level 99, k at level 200) : go_scope.

(** ** The ledger (invocation_ledger_linux.go) *)

Record LedgerEntry := mkEntry { en_lock : nat; en_record : invocationRecord; en_done : bool }.

(** [fileLedger.write]: the file calls are all made; a failure of any of them,
    of the rename or of the sync removes the temporary file. *)
Definition write (record : invocationRecord) : prog (option herr) :=
  match enc_invocation_record record with
  | None => Ret (Some ErrUnavailable)
  | Some body =>
      if maxInvocationRecord <? slen body then Ret (Some ErrUnavailable)
      else
        let@ suffix := Random in
        match suffix with
        | None => Ret (Some ErrUnavailable)
        | Some suffix =>
            let temporary := ir_InvocationID record +:+ ".tmp-" +:+ suffix in
            let@ created := CreateTemporary temporary in
            if negb created then Ret (Some ErrUnavailable)
            else
              let failed := Call (Unlink temporary) (fun _ => Ret (Some ErrUnavailable)) in
              let@ written := FileCall temporary in
              let@ synced := FileCall temporary in
              let@ closed := FileCall temporary in
              if negb written || negb synced || negb closed then failed
              else
                let@ renamed := Rename temporary record in
                if negb renamed then failed
                else let@ durable := FsyncDirectory in
                     if durable then Ret None else failed
        end
  end.

(** [fileLedger.read]. *)
Definition read (jobID invocationID : string) : prog (result herr (option invocationRecord)) :=
  let@ f := ReadRecord invocationID in
  match f with
  | None => Ret (Err ErrUnavailable)
  | Some None => Ret (Ok None)
  | Some (Some f) => Ret (match decodeInvocationRecord f jobID invocationID with Ok r => Ok (Some r) | Err e => Err e end)
  end.

(** [fileLedger.locked]: held and exists, or an error. *)
Definition locked (invocationID : string) : prog (result herr (bool * bool)) :=
  let@ opened := OpenLock invocationID in
  match opened with
  | NotFound => Ret (Ok (false, false))
  | Opened ino =>
      let@ answer := Flock ino Shared in
      match answer with
      | WouldBlock => let@ _ := CloseLock ino in Ret (Ok (true, true))
      | FlockFailed => let@ _ := CloseLock ino in Ret (Err ErrUnavailable)
      | Granted => let@ _ := Unflock ino in let@ _ := CloseLock ino in Ret (Ok (false, true))
      end
  | _ => Ret (Err ErrUnavailable)
  end.

(** [strings.Cut] with the separator of temporary names: what is before its
    first occurrence. *)
Fixpoint before_tmp (s : string) : option string :=
  if HasPrefix s ".tmp-" then Some EmptyString
  else match s with
       | EmptyString => None
       | String a s' => match before_tmp s' with Some p => Some (String a p) | None => None end
       end.

(** One name of the directory in [fileLedger.prune]: whether it was removed. *)
Definition prune_name (cutoff : Z) (name : string) : prog bool :=
  match before_tmp name with
  | Some prefix =>
      if invocationName prefix then
        let@ mtime := StatTemporary name in
        match mtime with
        | Some mtime => if mtime <? cutoff then (let@ _ := Unlink name in Ret true) else Ret false
        | None => Ret false
        end
      else Ret false
  | None =>
      if negb (HasSuffix name ".lock") then Ret false
      else
        let id := TrimSuffix name ".lock" in
        if negb (invocationName id) then Ret false
        else
          let@ mtime := StatLock id in
          match mtime with
          | None => Ret false
          | Some mtime =>
              if cutoff <? mtime then Ret false
              else
                run held := locked id in
                match held with
                | Err _ | Ok (true, _) => Ret false
                | Ok (false, _) => let@ _ := UnlinkRecord id in let@ _ := UnlinkLock id in Ret true
                end
          end
  end.

Fixpoint prune_names (cutoff : Z) (removed : nat) (names : list string) : prog unit :=
  match names with
  | [] => Ret tt
  | name :: names' =>
      if (64 <=? removed)%nat then Ret tt
      else run gone := prune_name cutoff name in
           prune_names cutoff (if gone then S removed else removed) names'
  end.

Definition prune : prog unit :=
  let@ names := Readdirnames in
  match names with
  | None => Ret tt
  | Some names => let@ now := Now in prune_names (now - invocationRetention) 0 names
  end.

Definition Begin (request : Request) (release : ReleaseIdentity) (peer : PeerIdentity) : prog (result herr LedgerEntry) :=
  let@ live := CtxLive in
  if negb live || negb (invocationName (req_InvocationID request)) || (req_JobID request ==? "") then Ret (Err ErrUnavailable)
  else
    run _ := prune in
    let@ opened := OpenExclusive (req_InvocationID request) in
    match opened with
    | Exists => Ret (Err ErrDenied)
    | Opened ino =>
        let@ answer := Flock ino Exclusive in
        match answer with
        | Granted =>
            let@ now := Now in
            let record := mkRecord invocationRecordSchema (req_InvocationID request) (req_JobID request) (req_Action request)
                            (DigestRequest (req_Parameters request)) release peer now None None in
            run err := write record in
            match err with
            | Some _ => let@ _ := CloseLock ino in Ret (Err ErrUnavailable)
            | None => Ret (Ok (mkEntry ino record false))
            end
        | _ => let@ _ := CloseLock ino in Ret (Err ErrUnavailable)
        end
    | _ => Ret (Err ErrUnavailable)
    end.

Definition finished_record (r : invocationRecord) (finished : Z) (terminal : AEvent) : invocationRecord :=
  mkRecord (ir_Schema r) (ir_InvocationID r) (ir_JobID r) (ir_Action r) (ir_ParametersDigest r) (ir_Release r) (ir_Peer r)
    (ir_StartedAt r) (Some finished) (Some terminal).

(** [fileLedgerEntry.Finish]: the terminal is written before the lock is
    released. *)
Definition Finish (e : LedgerEntry) (terminal : AEvent) : prog (option herr) :=
  if en_done e then Ret (Some ErrUnavailable)
  else
    let close (r : option herr) := Call (CloseLock (en_lock e)) (fun _ => Ret r) in
    if (ae_JobID terminal !=? ir_JobID (en_record e)) || (ae_InvocationID terminal !=? ir_InvocationID (en_record e)) ||
       negb (terminal_type terminal) || negb (encodes terminal)
    then close (Some ErrUnavailable)
    else
      let@ finished := Now in
      run err := write (finished_record (en_record e) finished terminal) in
      close err.

Definition status (st : InvocationState) (t : option AEvent) : result herr InvocationStatus :=
  Ok (mkStatus InvocationStatusSchema st t).

(** The part of [fileLedger.Status] after a first read without a terminal;
    [found] says whether there was a record. *)
Definition fileLedger_Status_unfinished (jobID invocationID : string) (found : bool) : prog (result herr InvocationStatus) :=
  run held := locked invocationID in
  match held with
  | Err e => Ret (Err e)
  | Ok (true, _) => Ret (status InvocationRunning None)
  | Ok (false, exists_) =>
      if negb exists_ && negb found then Ret (status InvocationAbsent None)
      else
        run second := read jobID invocationID in
        match second with
        | Err e => Ret (Err e)
        | Ok (Some r) =>
            match ir_Terminal r with
            | Some t => Ret (status InvocationFinished (Some t))
            | None => Ret (status InvocationLost None)
            end
        | Ok None => Ret (status InvocationLost None)
        end
  end.

Definition fileLedger_Status (jobID invocationID : string) : prog (result herr InvocationStatus) :=
  let@ live := CtxLive in
  if negb live || negb (invocationName invocationID) || (jobID ==? "") then Ret (Err ErrUnavailable)
  else
    run first := read jobID invocationID in
    match first with
    | Err e => Ret (Err e)
    | Ok None => fileLedger_Status_unfinished jobID invocationID false
    | Ok (Some r) =>
        match ir_Terminal r with
        | Some t => Ret (status InvocationFinished (Some t))
        | None => fileLedger_Status_unfinished jobID invocationID true
        end
    end.

(** ** Recorded execution (admission.go) and the status query *)

Record Peer := mkVerifiedPeer { vp_pid : Z; vp_uid : Z; vp_gid : Z; vp_verified : bool }.
Record Invocation := mkInvocation { iv_request : Request; iv_peer : Peer; iv_used : bool }.

Definition json_int (z : Z) : json := JNumber (enc_int z).

Definition rejectAdmission {A} (peer : Peer) (reason : string) (cause : herr) : prog (result herr A) :=
  let actor := if 0 <? vp_pid peer then "uid:" +:+ enc_int (vp_uid peer) else "" in
  let details := ("reason", JString reason) ::
    (if 0 <? vp_pid peer then [("peer_uid", json_int (vp_uid peer)); ("peer_gid", json_int (vp_gid peer)); ("peer_pid", json_int (vp_pid peer))]
     else []) in
  let@ ok := Append (mkHEvent "host_action_rejected" actor "denied" details) in
  Ret (Err (if ok then cause else ErrAudit)).

(** [releaseVersion] and [releaseCommit], anchored at both ends. *)
Definition whole_match (r : re) (s : string) : bool :=
  match match_at r (mkPos None s []) (fun t => if p_rest t ==? "" then Some t else None) with Some _ => true | None => false end.
Definition release_number : re := RAlt (RLit "0") (RSeq (RClass (between 49 57)) (RStar (RClass is_digit))).
Definition release_text : re := RPlus (RClass (fun c => is_digit c || is_upper c || is_lower c || (c ==? "."%char) || (c ==? "-"%char))).
Definition releaseVersion : re :=
  RSeq release_number (RSeq (RLit ".") (RSeq release_number (RSeq (RLit ".") (RSeq release_number
    (RSeq (ROpt (RSeq (RLit "-") release_text)) (ROpt (RSeq (RLit "+") release_text))))))).
Definition releaseCommit (s : string) : bool := (slen s =? 40) && sall is_hex_lower s.

(** [ReleaseIdentity.Validate]. *)
Definition release_Validate (r : ReleaseIdentity) : bool :=
  negb ((128 <? slen (rl_Version r)) || negb (whole_match releaseVersion (rl_Version r)) || negb (releaseCommit (rl_Commit r))).

Definition notStarted (r : Request) : AEvent :=
  mkAEvent Version (req_JobID r) (req_InvocationID r) 0 "error" None None None
    (Some (mkFailure Failed "host_action_not_started" "Host action was not started")) None.
Definition progress_frame (r : Request) (spec : ActionSpec) : AEvent :=
  mkAEvent Version (req_JobID r) (req_InvocationID r) 0 "progress" (Some (mkProgress (sp_Phase spec) None None None "")) None None None None.

(** [errors.Join] of a reason and what finishing the entry returned. *)
Definition join_err (e : herr) (f : option herr) : herr := match f with Some e' => HJoin [e; e'] | None => e end.

(** The part of [executeRecorded] after the record has begun. *)
Definition executeBegun (request : Request) (entry : LedgerEntry) : prog (result herr AEvent) :=
  let abandon e := bindP (Finish entry (notStarted request)) (fun f => Ret (Err (join_err e f))) in
  let@ ok := Check in
  if negb ok then abandon ErrDenied
  else
    let go :=
      Call (Execute request) (fun done =>
        let '(event, executionErr) := done in
        let terminal := if ae_Type event ==? "" then notStarted request else event in
        run err := Finish entry terminal in
        Ret (match err, executionErr with
             | Some _, _ => Err ErrUnavailable
             | None, Some e => Err e
             | None, None => Ok event
             end)) in
    match LookupAction (req_Action request) with
    | Some spec =>
        if sp_Mutating spec then
          let@ sent := SendProgress (progress_frame request spec) in
          if sent then go else abandon ErrUnavailable
        else go
    | None => go
    end.

Definition executeRecorded (call : Invocation) (release : ReleaseIdentity) : prog (result herr AEvent) :=
  let request := iv_request call in
  let peer := iv_peer call in
  if negb (release_Validate release) then Ret (Err ErrUnavailable)
  else
    let denied := rejectAdmission peer "installation_changed" ErrDenied in
    if negb (vp_verified peer) then denied
    else
      let@ ok := Check in
      if negb ok then denied
      else
        run began := Begin request release (mkPeer (vp_pid peer) (vp_uid peer) (vp_gid peer)) in
        match began with
        | Err ErrDenied => rejectAdmission peer "invocation_replayed" ErrDenied
        | Err _ => rejectAdmission peer "invocation_record_unavailable" ErrUnavailable
        | Ok entry => executeBegun request entry
        end.

(** [json.Marshal(status)]. *)
Definition enc_status (s : InvocationStatus) : option string :=
  let build terminal := enc_struct [fld "schema" (enc_string (is_Schema s)); fld "state" (enc_string (state_string (is_State s))); terminal] in
  match is_Terminal s with
  | None => Some (build None)
  | Some t => match enc_event t with Some body => Some (build (fld "terminal" body)) | None => None end
  end.

Definition queryInvocation (call : Invocation) : prog (result herr AEvent) :=
  let request := iv_request call in
  let peer := iv_peer call in
  if negb (vp_verified peer) || (req_Action request !=? ActionInvocationStatus) || (req_Parameters request !=? "{}")
  then Ret (Err ErrUnavailable)
  else if iv_used call then Ret (Err ErrRequest)
  else
    let@ ok := Check in
    if negb ok then rejectAdmission peer "installation_changed" ErrDenied
    else
      run status := fileLedger_Status (req_JobID request) (req_InvocationID request) in
      match status with
      | Err _ => Ret (Err ErrUnavailable)
      | Ok status =>
          let@ ok := Append (mkHEvent "host_invocation_status" "uid:0" (state_string (is_State status))
            [("job_id", JString (req_JobID request)); ("invocation_id", JString (req_InvocationID request));
             ("peer_pid", json_int (vp_pid peer))]) in
          if negb ok then Ret (Err ErrAudit)
          else match enc_status status with
               | None => Ret (Err ErrUnavailable)
               | Some body =>
                   Ret (Ok (mkAEvent Version (req_JobID request) (req_InvocationID request) 0 "result" None None
                              (Some (mkResult Succeeded (Some false) body)) None None))
               end
      end.

(** ** The directory and the kernel *)

(** A lock file: when it was last written, who holds it exclusively and who
    shares it. *)
Record inode := mkInode { in_mtime : Z; in_exclusive : option nat; in_shared : gset nat }.

Record Directory := mkDirectory {
  d_locks : gmap string nat;
  d_inodes : gmap nat inode;
  d_records : gmap string rfile;
  d_temporaries : gmap string Z;
  d_next : nat }.

(** What the environment decides at a call. *)
Record oracle := mkOracle {
  o_ok : bool; o_now : Z; o_names : list string; o_suffix : string; o_event : AEvent; o_err : option herr }.

(** What a process of hostd does. *)
Inductive task := TaskExecute (call : Invocation) (release : ReleaseIdentity) | TaskQuery (call : Invocation).
Definition task_prog (t : task) : prog (result herr AEvent) :=
  match t with TaskExecute call release => executeRecorded call release | TaskQuery call => queryInvocation call end.

(** The history: what happened, in order, and the process that did it. *)
Inductive happening :=
| Started (p : nat) (t : task)
| Created (p : nat) (id : string) (ino : nat)
| Locked (p : nat) (ino : nat)
| Released (p : nat) (ino : nat)
| Ran (p : nat) (id : string)
| Began (p : nat) (id job : string)
| Recorded (p : nat) (id job : string) (t : AEvent)
| Read (p : nat) (id : string) (f : option rfile)
| Looked (p : nat) (id : string) (ino : option nat)
| Probed (p : nat) (ino : nat) (held : bool)
| Clock (p : nat) (t : Z)
| Seen (p : nat) (id : string) (mtime : Z)
| Pruned (p : nat) (id : string).

Definition actor (h : happening) : nat :=
  match h with
  | Started p _ | Created p _ _ | Locked p _ | Released p _ | Ran p _ | Began p _ _ | Recorded p _ _ _ | Read p _ _ | Looked p _ _ | Probed p _ _ | Clock p _ | Seen p _ _ | Pruned p _ => p
  end.

Definition set_locks m d := mkDirectory m (d_inodes d) (d_records d) (d_temporaries d) (d_next d).
Definition set_inodes m d := mkDirectory (d_locks d) m (d_records d) (d_temporaries d) (d_next d).
Definition set_records m d := mkDirectory (d_locks d) (d_inodes d) m (d_temporaries d) (d_next d).
Definition set_temporaries m d := mkDirectory (d_locks d) (d_inodes d) (d_records d) m (d_next d).

(** Locks are per open file: an exclusive one needs the file free, a shared one
    needs it free of an exclusive one. *)
Definition take_lock (p : nat) (mode : lock_mode) (i : inode) : option inode :=
  match mode, in_exclusive i with
  | _, Some _ => None
  | Exclusive, None => if decide (in_shared i = ∅) then Some (mkInode (in_mtime i) (Some p) ∅) else None
  | Shared, None => Some (mkInode (in_mtime i) None ({[p]} ∪ in_shared i))
  end.
Definition drop_locks (p : nat) (i : inode) : inode :=
  mkInode (in_mtime i) (if decide (in_exclusive i = Some p) then None else in_exclusive i) (in_shared i ∖ {[p]}).
Definition releases (p ino : nat) (i : option inode) : list happening :=
  match i with
  | Some i => if decide (in_exclusive i = Some p) then [Released p ino] else []
  | None => []
  end.

Definition kernel {X} (o : oracle) (p : nat) (c : syscall X) (d : Directory) : X * Directory * list happening :=
  match c in syscall X return X * Directory * list happening with
  | CtxLive => (o_ok o, d, [])
  | Now => (o_now o, d, [Clock p (o_now o)])
  | OpenExclusive id =>
      match d_locks d !! id with
      | Some _ => (if o_ok o then Exists else OpenFailed, d, [])
      | None =>
          if o_ok o then
            (Opened (d_next d),
             mkDirectory (<[id := d_next d]> (d_locks d)) (<[d_next d := mkInode (o_now o) None ∅]> (d_inodes d)) (d_records d)
               (d_temporaries d) (S (d_next d)), [Created p id (d_next d)])
          else (OpenFailed, d, [])
      end
  | OpenLock id =>
      if o_ok o then (match d_locks d !! id with Some ino => Opened ino | None => NotFound end, d, [Looked p id (d_locks d !! id)])
      else (OpenFailed, d, [])
  | Flock ino mode =>
      match d_inodes d !! ino with
      | None => (FlockFailed, d, [])
      | Some i =>
          if negb (o_ok o) then (FlockFailed, d, [])
          else match take_lock p mode i with
               | Some i' => (Granted, set_inodes (<[ino := i']> (d_inodes d)) d,
                             match mode with Exclusive => [Locked p ino] | Shared => [Probed p ino false] end)
               | None => (WouldBlock, d, match mode with Exclusive => [] | Shared => [Probed p ino true] end)
               end
      end
  | Unflock ino => (tt, set_inodes (alter (drop_locks p) ino (d_inodes d)) d, releases p ino (d_inodes d !! ino))
  | CloseLock ino => (tt, set_inodes (alter (drop_locks p) ino (d_inodes d)) d, releases p ino (d_inodes d !! ino))
  | ReadRecord id => if o_ok o then (Some (d_records d !! id), d, [Read p id (d_records d !! id)]) else (None, d, [])
  | Random => (if o_ok o then Some (o_suffix o) else None, d, [])
  | CreateTemporary name =>
      match d_temporaries d !! name with
      | None => if o_ok o then (true, set_temporaries (<[name := o_now o]> (d_temporaries d)) d, []) else (false, d, [])
      | Some _ => (false, d, [])
      end
  | FileCall _ => (o_ok o, d, [])
  | Rename name r =>
      if o_ok o then
        (true, set_records (<[ir_InvocationID r := Decoded r]> (d_records d)) (set_temporaries (delete name (d_temporaries d)) d),
         match ir_Terminal r with Some t => [Recorded p (ir_InvocationID r) (ir_JobID r) t]
         | None => [Began p (ir_InvocationID r) (ir_JobID r)] end)
      else (false, d, [])
  | FsyncDirectory => (o_ok o, d, [])
  | Unlink name => (tt, if o_ok o then set_temporaries (delete name (d_temporaries d)) d else d, [])
  | UnlinkRecord id => (tt, if o_ok o then set_records (delete id (d_records d)) d else d, [Pruned p id])
  | UnlinkLock id => (tt, if o_ok o then set_locks (delete id (d_locks d)) d else d, [Pruned p id])
  | Readdirnames => (if o_ok o then Some (o_names o) else None, d, [])
  | StatTemporary name => (if o_ok o then d_temporaries d !! name else None, d, [])
  | StatLock id =>
      match (if o_ok o then (d_locks d !! id) ≫= (fun ino => d_inodes d !! ino) else None) with
      | Some i => (Some (in_mtime i), d, [Seen p id (in_mtime i)])
      | None => (None, d, [])
      end
  | Check => (o_ok o, d, [])
  | SendProgress _ => (o_ok o, d, [])
  | Execute r => ((o_event o, o_err o), d, [Ran p (req_InvocationID r)])
  | Append _ => (o_ok o, d, [])
  end.

(** ** Processes *)

Record Host := mkHost {
  h_dir : Directory;
  h_procs : gmap nat (prog (result herr AEvent));
  h_next : nat;
  h_log : list happening }.

Definition empty_host : Host := mkHost (mkDirectory ∅ ∅ ∅ ∅ 0) ∅ 0 [].

Definition start (t : task) (s : Host) : Host :=
  mkHost (h_dir s) (<[h_next s := task_prog t]> (h_procs s)) (S (h_next s)) (h_log s ++ [Started (h_next s) t]).

Definition turn (p : nat) (o : oracle) {X} (c : syscall X) (k : X -> prog (result herr AEvent)) (s : Host) : Host :=
  let '(x, d, l) := kernel o p c (h_dir s) in
  mkHost d (<[p := k x]> (h_procs s)) (h_next s) (h_log s ++ l).

(** The locks a process holds when it dies. *)
Definition all_releases (p : nat) (m : gmap nat inode) : list happening :=
  map_to_list m ≫= (fun '(ino, i) => releases p ino (Some i)).
Definition die (p : nat) (s : Host) : Host :=
  mkHost (set_inodes (drop_locks p <$> d_inodes (h_dir s)) (h_dir s)) (delete p (h_procs s)) (h_next s)
    (h_log s ++ all_releases p (d_inodes (h_dir s))).

Inductive step : Host -> Host -> Prop :=
| step_start t s : step s (start t s)
| step_turn p o X (c : syscall X) k s : h_procs s !! p = Some (Call c k) -> step s (turn p o c k s)
| step_die p m s : h_procs s !! p = Some m -> step s (die p s).

Definition reachable (s : Host) : Prop := rtc step empty_host s.

(** An executable scheduler. *)
Inductive choice := Begins (t : task) | Turns (p : nat) (o : oracle) | Dies (p : nat).
Definition choose (c : choice) (s : Host) : Host :=
  match c with
  | Begins t => start t s
  | Turns p o => match h_procs s !! p with Some (Call c k) => turn p o c k s | _ => s end
  | Dies p => match h_procs s !! p with Some _ => die p s | None => s end
  end.
Definition schedule (l : list choice) (s : Host) : Host := fold_left (fun s c => choose c s) l s.
