(* ===== verification/HostLedgerLogic.v ===== *)
(** * Host actions: reasoning about many processes over one ledger

    [rule] says what a process must have done before each thing it does, as the
    history shows it; [sight] says what an observation of the directory tells
    about the history.  A process is [safe] when every call it makes keeps the
    rule whatever the kernel answers.  [ledger] relates the directory to the
    history.  [reachable_lawful] puts them together for every interleaving. *)

From S2P Require Import Prelude GoText GoJson ActionAbi JobTypes HostLedger.

(** ** Histories *)

Inductive kind := KStarted | KCreated | KLocked | KReleased | KRan | KBegan | KRecorded | KOther.
Definition kind_of (e : happening) : kind :=
  match e with
  | Started _ _ => KStarted | Created _ _ _ => KCreated | Locked _ _ => KLocked | Released _ _ => KReleased
  | Ran _ _ => KRan | Began _ _ _ => KBegan | Recorded _ _ _ _ => KRecorded | _ => KOther
  end.

(** Process [p] has done nothing of kind [k] in [l]. *)
Definition none (p : nat) (k : kind) (l : list happening) : Prop := Forall (fun e => actor e = p -> kind_of e <> k) l.

Definition pruned (id : string) (l : list happening) : Prop := exists r, Pruned r id ∈ l.

(** An id was pruned by a process that had read the clock at least the
    retention time past the modification time it had seen. *)
Definition retired (id : string) (l : list happening) : Prop :=
  exists r m n, Pruned r id ∈ l /\ Seen r id m ∈ l /\ Clock r n ∈ l /\ m <= n - invocationRetention.

Definition held (q ino : nat) (l : list happening) : Prop := Locked q ino ∈ l /\ Released q ino ∉ l.

(** [p] created the lock of [id], took it and has not let go. *)
Definition owns (p : nat) (id : string) (l : list happening) : Prop :=
  exists ino, Created p id ino ∈ l /\ Locked p ino ∈ l /\ none p KReleased l.

Definition rule (l : list happening) (e : happening) : Prop :=
  match e with
  | Started p _ => none p KStarted l
  | Created p _ _ => none p KCreated l
  | Locked p ino => (exists id, Created p id ino ∈ l) /\ none p KReleased l
  | Ran p id => owns p id l /\ none p KRan l
  | Began p id _ => owns p id l /\ none p KRecorded l
  | Recorded p id job t =>
      owns p id l /\ none p KRecorded l /\ terminal_type t = true /\ ae_JobID t = job /\ ae_InvocationID t = id
  | Pruned p id => exists m n, Seen p id m ∈ l /\ Clock p n ∈ l /\ m <= n - invocationRetention
  | _ => True
  end.

(** What the directory held for a record, by the history. *)
Definition record_right (id : string) (f : option rfile) (l : list happening) : Prop :=
  match f with
  | Some (Decoded r) =>
      ir_InvocationID r = id /\
      match ir_Terminal r with
      | Some t => exists q, Recorded q id (ir_JobID r) t ∈ l
      | None => (exists q, Began q id (ir_JobID r) ∈ l) /\ (pruned id l \/ forall q job t, Recorded q id job t ∉ l)
      end
  | Some Undecodable => False
  | None => pruned id l \/ forall q job t, Recorded q id job t ∉ l
  end.

Definition sight (l : list happening) (e : happening) : Prop :=
  match e with
  | Created _ id ino => (forall q ino', Created q id ino' ∈ l -> pruned id l) /\ (forall q id', Created q id' ino ∉ l)
  | Read _ id f => record_right id f l
  | Looked _ id (Some ino) => exists q, Created q id ino ∈ l
  | Looked _ id None => forall q ino, Created q id ino ∈ l -> pruned id l
  | Probed _ ino true => exists q, held q ino l
  | Probed _ ino false => forall q, ~ held q ino l
  | _ => True
  end.

(** A history in which everything keeps the rule and is seen right. *)
Definition lawful (l : list happening) : Prop := forall l1 e l2, l = l1 ++ e :: l2 -> rule l1 e /\ sight l1 e.

Lemma lawful_nil : lawful [].
Proof. intros [|] ? ? [=]. Qed.

Lemma lawful_snoc l e : lawful l -> rule l e -> sight l e -> lawful (l ++ [e]).
Proof.
  intros Hl Hr Hs l1 e' l2 Heq. destruct l2 as [|e2 l2 _] using rev_ind.
  - apply app_inj_tail in Heq as [-> ->]. done.
  - apply (Hl l1 e' l2). rewrite app_comm_cons, app_assoc in Heq. by apply app_inj_tail in Heq as [-> _].
Qed.

Lemma lawful_app l h : lawful l -> (forall h1 e h2, h = h1 ++ e :: h2 -> rule (l ++ h1) e /\ sight (l ++ h1) e) -> lawful (l ++ h).
Proof.
  intros Hl. induction h as [|e h IH] using rev_ind; intros Hh; [by rewrite app_nil_r|].
  rewrite app_assoc. destruct (Hh h e []) as [Hr Hs]; [done|]. apply lawful_snoc; [|done..].
  apply IH. intros h1 e' h2 ->. apply (Hh h1 e' (h2 ++ [e])). by rewrite <-app_assoc.
Qed.

Lemma lawful_prefix l1 l2 : lawful (l1 ++ l2) -> lawful l1.
Proof. intros Hl a e b ->. apply (Hl a e (b ++ l2)). by rewrite <-app_assoc. Qed.

(** A fact about what happened before a member of a lawful history. *)
Lemma lawful_elem l e : lawful l -> e ∈ l -> exists l1 l2, l = l1 ++ e :: l2 /\ rule l1 e /\ sight l1 e.
Proof. intros Hl (l1 & l2 & ->)%list_elem_of_split. exists l1, l2. split; [done|]. by eapply Hl. Qed.

(** Of two different members one is before the other. *)
Lemma before_or_after {A} (l : list A) x y : x ∈ l -> y ∈ l -> x <> y ->
  (exists l1 l2, l = l1 ++ y :: l2 /\ x ∈ l1) \/ (exists l1 l2, l = l1 ++ x :: l2 /\ y ∈ l1).
Proof.
  intros (l1 & l2 & ->)%list_elem_of_split [Hy|[->|Hy]%elem_of_cons]%elem_of_app Hne; [by eauto 6|done|].
  apply list_elem_of_split in Hy as (l3 & l4 & ->). left. exists (l1 ++ x :: l3), l4. rewrite <-app_assoc. split; [done|set_solver].
Qed.

Lemma none_app p k l h : none p k (l ++ h) <-> none p k l /\ none p k h.
Proof. apply Forall_app. Qed.
Lemma none_not p k l e : none p k l -> actor e = p -> kind_of e = k -> e ∉ l.
Proof. intros Hn Ha Hk He. by apply (proj1 (Forall_forall _ _) Hn _ He Ha). Qed.

(** ** The history of one process *)

Definition mine (p : nat) (l : list happening) : list happening := filter (fun e => actor e = p) l.

Lemma mine_app p l h : mine p (l ++ h) = mine p l ++ mine p h.
Proof. apply filter_app. Qed.
Lemma mine_all p l : Forall (fun e => actor e = p) l -> mine p l = l.
Proof. induction 1 as [|e l He _ IH]; [done|]. unfold mine. rewrite filter_cons_True by done. by rewrite <-IH at 2. Qed.
Lemma mine_other p l : Forall (fun e => actor e <> p) l -> mine p l = [].
Proof. induction 1 as [|e l He _ IH]; [done|]. unfold mine. by rewrite filter_cons_False. Qed.
Lemma elem_of_mine p e l : e ∈ mine p l <-> actor e = p /\ e ∈ l.
Proof. unfold mine. by rewrite list_elem_of_filter. Qed.
Lemma none_mine p k l : none p k (mine p l) <-> none p k l.
Proof.
  unfold none. rewrite !Forall_forall. setoid_rewrite elem_of_mine. naive_solver.
Qed.

(** The order of a process's own history is the order of the whole. *)
Lemma mine_split p l t1 e t2 : mine p l = t1 ++ e :: t2 -> exists l1 l2, l = l1 ++ e :: l2 /\ mine p l1 = t1 /\ mine p l2 = t2.
Proof.
  revert t1. induction l as [|x l IH]; intros t1; [by destruct t1|].
  unfold mine. rewrite filter_cons. destruct (decide (actor x = p)) as [Hx|Hx].
  - destruct t1 as [|x' t1]; intros [= ->].
    + exists [], l. done.
    + destruct (IH t1) as (l1 & l2 & -> & <- & <-); [done|]. exists (x' :: l1), l2.
      split; [done|]. split; [|done]. unfold mine. by rewrite filter_cons_True.
  - intros (l1 & l2 & -> & <- & <-)%IH. exists (x :: l1), l2. split; [done|]. split; [|done]. unfold mine. by rewrite filter_cons_False.
Qed.

Lemma owns_mine p id l : owns p id (mine p l) <-> owns p id l.
Proof. unfold owns. setoid_rewrite elem_of_mine. setoid_rewrite none_mine. naive_solver. Qed.

(** The rule only looks at the history of the process. *)
Lemma rule_mine l e : rule (mine (actor e) l) e <-> rule l e.
Proof.
  destruct e; simpl; rewrite ?none_mine, ?owns_mine; try done.
  - setoid_rewrite elem_of_mine. naive_solver.
  - setoid_rewrite elem_of_mine. naive_solver.
Qed.

(** ** Processes that keep the rule *)

(** A process only lets go of what it took. *)
Definition told (t : list happening) (e : happening) : Prop :=
  match e with Released p ino => Locked p ino ∈ t | _ => True end.

(** Whatever the kernel answers, [m] keeps the rule and ends in [Post]; [t] is
    what the process did so far. *)
Fixpoint safe {A} (p : nat) (m : prog A) (Post : A -> list happening -> Prop) (t : list happening) : Prop :=
  match m with
  | Ret a => Post a t
  | Call c k => forall o d x d' h, kernel o p c d = (x, d', h) -> Forall (told t) h -> Forall (rule t) h /\ safe p (k x) Post (t ++ h)
  end.

Lemma safe_mono {A} p (m : prog A) (P Q : A -> list happening -> Prop) t :
  safe p m P t -> (forall a t', P a t' -> Q a t') -> safe p m Q t.
Proof.
  intros Hm HPQ. revert t Hm. induction m as [a|X c k IH]; simpl; intros t Hm; [auto|].
  intros o d x d' h Hk Ht. destruct (Hm o d x d' h Hk Ht) as [Hr Hs]. eauto.
Qed.

Lemma safe_bind {A B} p (m : prog A) (f : A -> prog B) P t :
  safe p m (fun a t' => safe p (f a) P t') t -> safe p (bindP m f) P t.
Proof.
  revert t. induction m as [a|X c k IH]; simpl; intros t Hm; [done|].
  intros o d x d' h Hk Ht. destruct (Hm o d x d' h Hk Ht) as [Hr Hs]. eauto.
Qed.

Lemma safe_run {A B} p (m : prog A) (f : A -> prog B) (P : A -> list happening -> Prop) Q t :
  safe p m P t -> (forall a t', P a t' -> safe p (f a) Q t') -> safe p (bindP m f) Q t.
Proof. intros Hm Hf. by eapply safe_bind, safe_mono. Qed.

Lemma kernel_actor {X} o p (c : syscall X) d x d' h : kernel o p c d = (x, d', h) -> h = [] \/ exists e, h = [e] /\ actor e = p.
Proof. destruct c; simpl; unfold releases; intros H; repeat case_match; simplify_eq; eauto. Qed.

(** ** The directory and the history *)

Record ledger (d : Directory) (l : list happening) : Prop := mkLedger {
  ledger_name : forall id ino, d_locks d !! id = Some ino -> exists q, Created q id ino ∈ l;
  ledger_kept : forall q id ino, Created q id ino ∈ l -> pruned id l \/ d_locks d !! id = Some ino;
  ledger_fresh : forall q id ino, Created q id ino ∈ l -> (ino < d_next d)%nat;
  ledger_bound : forall ino i, d_inodes d !! ino = Some i -> (ino < d_next d)%nat;
  ledger_held : forall ino i q, d_inodes d !! ino = Some i -> in_exclusive i = Some q <-> held q ino l;
  ledger_taken : forall q ino, Locked q ino ∈ l -> is_Some (d_inodes d !! ino);
  ledger_record : forall id, record_right id (d_records d !! id) l }.

Definition prunedb (id : string) (l : list happening) : bool :=
  existsb (fun e => match e with Pruned _ id' => id' ==? id | _ => false end) l.
Lemma prunedb_pruned id l : prunedb id l = true <-> pruned id l.
Proof.
  unfold prunedb, pruned. rewrite existsb_exists. setoid_rewrite <-list_elem_of_In. split.
  - intros ([] & He & Hid); try done. apply bool_decide_eq_true in Hid as ->. eauto.
  - intros [r Hr]. exists (Pruned r id). by rewrite bool_decide_true.
Qed.
#[export] Instance pruned_dec id l : Decision (pruned id l).
Proof. refine (cast_if (decide (prunedb id l = true))); by rewrite <-prunedb_pruned. Defined.

(** Membership of a release, decided. *)
Lemma released_dec q ino (l : list happening) : Released q ino ∈ l \/ Released q ino ∉ l.
Proof.
  induction l as [|e l [IH|IH]]; [right; set_solver|left; set_solver|]. destruct e as [| | |q' ino'| | | | | | | | |];
    try (right; set_solver). destruct (decide (q' = q /\ ino' = ino)) as [[-> ->]|Hne]; [left; set_solver|right; set_solver].
Qed.

Lemma pruned_app id l h : pruned id l -> pruned id (l ++ h).
Proof. intros [r Hr]. exists r. set_solver. Qed.

(** Nothing in [h] is about locks or terminals. *)
Definition calm (h : list happening) : Prop :=
  Forall (fun e => match kind_of e with KCreated | KLocked | KReleased | KRecorded => False | _ => True end) h.
Lemma calm_not h e : calm h -> match kind_of e with KCreated | KLocked | KReleased | KRecorded => True | _ => False end -> e ∉ h.
Proof. intros Hc Hk He. apply (proj1 (Forall_forall _ _) Hc) in He. by destruct (kind_of e). Qed.

Lemma record_right_app id f l h : (forall q job t, Recorded q id job t ∉ h) -> record_right id f l -> record_right id f (l ++ h).
Proof.
  unfold record_right, pruned. intros Hh Hr. destruct f as [[r|]|]; [destruct (ir_Terminal r)| |];
    try setoid_rewrite elem_of_app; naive_solver.
Qed.

Lemma held_app q ino l h : Locked q ino ∉ h -> Released q ino ∉ h -> held q ino (l ++ h) <-> held q ino l.
Proof. unfold held. rewrite !elem_of_app. tauto. Qed.

Lemma ledger_calm d d' l h :
  ledger d l -> calm h ->
  d_locks d' = d_locks d -> d_inodes d' = d_inodes d -> d_records d' = d_records d -> d_next d' = d_next d ->
  ledger d' (l ++ h).
Proof.
  intros [Hn Hk Hf Hb Hh Ht Hr] Hc El Ei Er En. split; rewrite ?El, ?Ei, ?Er, ?En.
  - intros id ino [q Hq]%Hn. exists q. set_solver.
  - intros q id ino [He|He]%elem_of_app; [|by apply calm_not in He]. destruct (Hk _ _ _ He); eauto using pruned_app.
  - intros q id ino [He|He]%elem_of_app; [eauto|by apply calm_not in He].
  - done.
  - intros ino i q Hi. rewrite held_app by (by apply calm_not). eauto.
  - intros q ino [He|He]%elem_of_app; [eauto|by apply calm_not in He].
  - intros id. apply record_right_app; [|done]. intros q job t. by apply calm_not.
Qed.

Lemma created_same l q q' id id' ino : lawful l -> Created q id ino ∈ l -> Created q' id' ino ∈ l -> q = q' /\ id = id'.
Proof.
  intros Hl H1 H2. destruct (decide (q = q' /\ id = id')) as [|Hne]; [done|].
  destruct (before_or_after l _ _ H1 H2) as [(l1 & l2 & -> & Hin)|(l1 & l2 & -> & Hin)]; [naive_solver|..];
    destruct (Hl _ _ _ eq_refl) as [_ [_ Hs]]; by apply Hs in Hin.
Qed.

(** A second creation of an id needs a pruning. *)
Lemma created_once l q q' id ino ino' : lawful l -> Created q id ino ∈ l -> Created q' id ino' ∈ l -> q = q' /\ ino = ino' \/ pruned id l.
Proof.
  intros Hl H1 H2. destruct (decide (q = q' /\ ino = ino')) as [|Hne]; [by left|]. right.
  destruct (before_or_after l _ _ H1 H2) as [(l1 & l2 & -> & Hin)|(l1 & l2 & -> & Hin)]; [naive_solver|..];
    destruct (Hl _ _ _ eq_refl) as [_ [Hs _]]; apply Hs in Hin; by apply pruned_app.
Qed.

Lemma owns_app p id l h : owns p id l -> exists ino, Created p id ino ∈ l ++ h /\ Locked p ino ∈ l ++ h.
Proof. intros (ino & H1 & H2 & _). exists ino. set_solver. Qed.

Lemma recorded_created l q id job t : lawful l -> Recorded q id job t ∈ l -> exists ino, Created q id ino ∈ l.
Proof.
  intros Hl (l1 & l2 & -> & Hr & _)%(lawful_elem l); [|done]. destruct Hr as [Ho _].
  destruct (owns_app q id l1 (Recorded q id job t :: l2) Ho) as (ino & ? & _). eauto.
Qed.

(** The owner of an id that has recorded no terminal knows there is none. *)
Lemma owner_alone l p id : lawful l -> owns p id l -> none p KRecorded l -> pruned id l \/ forall q job t, Recorded q id job t ∉ l.
Proof.
  intros Hl (ino & Hc & _ & _) Hn. destruct (decide (pruned id l)) as [|Hp]; [by left|]. right. intros q job t Hq.
  destruct (recorded_created _ _ _ _ _ Hl Hq) as [ino' Hc'].
  destruct (created_once _ _ _ _ _ _ Hl Hc Hc') as [[<- _]|]; [|done]. by eapply none_not in Hq.
Qed.

(** Each kind of change to the directory, with what it adds to the history. *)
Lemma ledger_create d l p id mtime :
  ledger d l -> d_locks d !! id = None ->
  ledger (mkDirectory (<[id := d_next d]> (d_locks d)) (<[d_next d := mkInode mtime None ∅]> (d_inodes d)) (d_records d)
            (d_temporaries d) (S (d_next d))) (l ++ [Created p id (d_next d)]) /\
  sight l (Created p id (d_next d)).
Proof.
  intros [Hn Hk Hf Hb Hh Ht Hr] Hid. split.
  - split; simpl.
    + intros id' ino [[<- <-]|[_ [q Hq]%Hn]]%lookup_insert_Some; [exists p|exists q]; set_solver.
    + intros q id' ino [He|[= -> -> ->]%list_elem_of_singleton]%elem_of_app; [|by right; rewrite lookup_insert_eq].
      destruct (Hk _ _ _ He) as [|Hl]; [left; by apply pruned_app|]. right. rewrite lookup_insert_ne; [done|]. by intros <-; rewrite Hid in Hl.
    + intros q id' ino [He%Hf|[= -> -> ->]%list_elem_of_singleton]%elem_of_app; lia.
    + intros ino i [[<- _]|[_ He%Hb]]%lookup_insert_Some; lia.
    + intros ino i q [[<- <-]|[_ Hi]]%lookup_insert_Some; rewrite held_app by set_solver; [|eauto].
      split; [done|]. intros [[i Hl%Hb]%Ht _]. lia.
    + intros q ino [He|?%list_elem_of_singleton]%elem_of_app; [|done]. apply lookup_insert_is_Some'. right. eauto.
    + intros id'. apply record_right_app; [set_solver|done].
  - simpl. split.
    + intros q ino' He. destruct (Hk _ _ _ He) as [|Hl]; [done|]. by rewrite Hid in Hl.
    + intros q id' He%Hf. lia.
Qed.

(** The inode table changes but nobody's exclusive lock does. *)
Lemma ledger_same_holders d l m h :
  ledger d l -> calm h -> (forall ino, in_exclusive <$> m !! ino = in_exclusive <$> d_inodes d !! ino) ->
  ledger (set_inodes m d) (l ++ h).
Proof.
  intros Hd Hc Hm. apply (ledger_calm d (set_temporaries (d_temporaries d) d) _ h) in Hd as [Hn Hk Hf Hb Hh Ht Hr]; [|done..].
  assert (Hback : forall ino i, m !! ino = Some i -> exists i', d_inodes d !! ino = Some i' /\ in_exclusive i' = in_exclusive i).
  { intros ino i Hi. specialize (Hm ino). rewrite Hi in Hm. symmetry in Hm. apply fmap_Some in Hm as (i' & Hi' & He). eauto. }
  split; simpl in *; try done.
  - intros ino i (i' & Hi' & _)%Hback. eauto.
  - intros ino i q (i' & Hi' & <-)%Hback. eauto.
  - intros q ino [i Hi]%Ht. specialize (Hm ino). rewrite Hi in Hm. apply fmap_Some in Hm as (i' & Hi' & _). by exists i'.
Qed.

Lemma ledger_lock d l p ino i :
  ledger d l -> d_inodes d !! ino = Some i -> in_exclusive i = None -> none p KReleased l ->
  ledger (set_inodes (<[ino := mkInode (in_mtime i) (Some p) ∅]> (d_inodes d)) d) (l ++ [Locked p ino]).
Proof.
  intros [Hn Hk Hf Hb Hh Ht Hr] Hi Hfree Hnone. split; simpl.
  - intros id ino' [q Hq]%Hn. exists q. set_solver.
  - intros q id ino' [He|?%list_elem_of_singleton]%elem_of_app; [|done]. destruct (Hk _ _ _ He); eauto using pruned_app.
  - intros q id ino' [He|?%list_elem_of_singleton]%elem_of_app; [eauto|done].
  - intros ino' i' [[<- _]|[_ He]]%lookup_insert_Some; eauto.
  - intros ino' i' q [[<- <-]|[Hne Hi']]%lookup_insert_Some; [|rewrite held_app by set_solver; eauto].
    simpl. destruct (decide (q = p)) as [->|Hq].
    + split; [|done]. intros _. split; [set_solver|]. rewrite elem_of_app. intros [He|?%list_elem_of_singleton]; [|done].
      by eapply none_not in He.
    + rewrite held_app by set_solver. rewrite <-Hh by done. rewrite Hfree. naive_solver.
  - intros q ino' [He|[= -> ->]%list_elem_of_singleton]%elem_of_app; apply lookup_insert_is_Some'; eauto.
  - intros id. apply record_right_app; [set_solver|done].
Qed.

(** Process [p] lets go of the files in [T]. *)
Lemma ledger_drop d l p (T : nat -> bool) m h :
  ledger d l ->
  (forall ino, m !! ino = if T ino then drop_locks p <$> d_inodes d !! ino else d_inodes d !! ino) ->
  (forall e, e ∈ h <-> exists ino i, e = Released p ino /\ T ino = true /\ d_inodes d !! ino = Some i /\ in_exclusive i = Some p) ->
  ledger (set_inodes m d) (l ++ h).
Proof.
  intros [Hn Hk Hf Hb Hh Ht Hr] Hm Hin.
  assert (Hkind : forall e, e ∈ h -> kind_of e = KReleased) by (intros e (ino & i & -> & _)%Hin; done).
  assert (Hback : forall ino i', m !! ino = Some i' -> exists i, d_inodes d !! ino = Some i /\ i' = if T ino then drop_locks p i else i).
  { intros ino i' Hi. rewrite Hm in Hi. destruct (T ino); [|by eauto]. by apply fmap_Some in Hi as (i & ? & ->); eauto. }
  split; simpl.
  - intros id ino' [q Hq]%Hn. exists q. set_solver.
  - intros q id ino' [He|?%Hkind]%elem_of_app; [|done]. destruct (Hk _ _ _ He); eauto using pruned_app.
  - intros q id ino' [He|?%Hkind]%elem_of_app; [eauto|done].
  - intros ino i' (i & Hi & _)%Hback. eauto.
  - intros ino i' q (i & Hi & ->)%Hback.
    assert (Hlock : Locked q ino ∉ h) by (intros ?%Hkind; done).
    assert (Hiff : held q ino (l ++ h) <-> held q ino l /\ Released q ino ∉ h) by (unfold held; rewrite !elem_of_app; tauto).
    rewrite Hiff, <-(Hh ino i q Hi), (Hin (Released q ino)). clear Hiff Hlock. split.
    + intros Hq. assert (in_exclusive i = Some q /\ (T ino = true -> q <> p)) as [Hq1 Hq2].
      { destruct (T ino); [|done]. simpl in Hq. case_decide as Hd; [done|]. split; [done|]. intros _ ->. done. }
      split; [done|]. intros (ino' & i0 & [= -> ->] & HT & _). by apply Hq2.
    + intros [Hq Hno]. destruct (T ino) eqn:HT; [|done]. simpl. case_decide as Hd; [|done].
      destruct Hno. exists ino, i. rewrite Hd in Hq. by injection Hq as ->.
  - intros q ino [He|?%Hkind]%elem_of_app; [|done]. rewrite Hm. destruct (T ino); [apply fmap_is_Some|]; eauto.
  - intros id. apply record_right_app; [|done]. by intros q job t ?%Hkind.
Qed.

Lemma ledger_release d l p ino :
  ledger d l -> ledger (set_inodes (alter (drop_locks p) ino (d_inodes d)) d) (l ++ releases p ino (d_inodes d !! ino)).
Proof.
  intros Hd. apply (ledger_drop d l p (fun i => bool_decide (i = ino))); [done|..].
  - intros i. case_bool_decide as Hi; [subst; by rewrite lookup_alter_eq|by rewrite lookup_alter_ne].
  - intros e. unfold releases. split.
    + repeat case_match; [|set_solver..]. intros ->%list_elem_of_singleton. eexists _, _. split_and!; [done|by apply bool_decide_eq_true|done..].
    + intros (ino' & i & -> & ->%bool_decide_eq_true & -> & Hp). rewrite decide_True by done. set_solver.
Qed.

Lemma ledger_die d l p : ledger d l -> ledger (set_inodes (drop_locks p <$> d_inodes d) d) (l ++ all_releases p (d_inodes d)).
Proof.
  intros Hd. apply (ledger_drop d l p (fun _ => true)); [done|..].
  - intros i. by rewrite lookup_fmap.
  - intros e. unfold all_releases. rewrite list_elem_of_bind. split.
    + intros ([ino i] & He & Hi%elem_of_map_to_list). simpl in He. case_decide; [|set_solver].
      apply list_elem_of_singleton in He as ->. eauto 6.
    + intros (ino & i & -> & _ & Hi & Hp). exists (ino, i). split; [|by apply elem_of_map_to_list]. simpl.
      rewrite decide_True by done. set_solver.
Qed.

Lemma ledger_rename d l p r name h :
  ledger d l -> lawful l ->
  h = match ir_Terminal r with Some t => [Recorded p (ir_InvocationID r) (ir_JobID r) t] | None => [Began p (ir_InvocationID r) (ir_JobID r)] end ->
  Forall (rule l) h ->
  ledger (set_records (<[ir_InvocationID r := Decoded r]> (d_records d)) (set_temporaries (delete name (d_temporaries d)) d)) (l ++ h).
Proof.
  intros [Hn Hk Hf Hb Hh Ht Hr] Hl Eh Hrule.
  assert (Hkind : forall e, e ∈ h -> kind_of e = KRecorded \/ kind_of e = KBegan).
  { subst h. intros e. destruct (ir_Terminal r); intros ->%list_elem_of_singleton; auto. }
  split; simpl; try done.
  - intros id ino [q Hq]%Hn. exists q. set_solver.
  - intros q id ino [He|[?|?]%Hkind]%elem_of_app; [|done..]. destruct (Hk _ _ _ He); eauto using pruned_app.
  - intros q id ino [He|[?|?]%Hkind]%elem_of_app; [eauto|done..].
  - intros ino i q Hi. rewrite held_app; [eauto|by intros [?|?]%Hkind..].
  - intros q ino [He|[?|?]%Hkind]%elem_of_app; [eauto|done..].
  - intros id. destruct (decide (id = ir_InvocationID r)) as [->|Hne].
    + rewrite lookup_insert_eq. simpl. split; [done|]. subst h. destruct (ir_Terminal r) as [t|]; [exists p; set_solver|].
      apply Forall_singleton in Hrule as [Ho Hnr]. split; [exists p; set_solver|].
      destruct (owner_alone _ _ _ Hl Ho Hnr); [left; by apply pruned_app|right; set_solver].
    + rewrite lookup_insert_ne by done. apply record_right_app; [|done]. subst h. destruct (ir_Terminal r); set_solver.
Qed.

Lemma ledger_prune d l p id locks records :
  ledger d l -> (forall id', id' <> id -> locks !! id' = d_locks d !! id' /\ records !! id' = d_records d !! id') ->
  (locks !! id = None \/ locks !! id = d_locks d !! id) -> (records !! id = None \/ records !! id = d_records d !! id) ->
  ledger (set_locks locks (set_records records d)) (l ++ [Pruned p id]).
Proof.
  intros Hd Hother Hlock Hrec. apply (ledger_calm d d _ [Pruned p id]) in Hd as [Hn Hk Hf Hb Hh Ht Hr]; [|by repeat constructor|done..].
  assert (Hp : pruned id (l ++ [Pruned p id])) by (exists p; set_solver).
  split; simpl; try done.
  - intros id' ino Hi. apply Hn. destruct (decide (id' = id)) as [->|Hne]; [|by rewrite <-(proj1 (Hother _ Hne))].
    destruct Hlock as [Hlock|Hlock]; [by rewrite Hlock in Hi|by rewrite <-Hlock].
  - intros q id' ino He. destruct (decide (id' = id)) as [->|Hne]; [by left|]. rewrite (proj1 (Hother _ Hne)). eauto.
  - intros id'. destruct (decide (id' = id)) as [->|Hne]; [|rewrite (proj2 (Hother _ Hne)); eauto].
    destruct Hrec as [->| ->]; [by left|eauto].
Qed.

Lemma kernel_told {X} o p (c : syscall X) d x d' h l : ledger d l -> kernel o p c d = (x, d', h) -> Forall (told (mine p l)) h.
Proof.
  intros Hd Hk. assert (Hrel : forall ino, Forall (told (mine p l)) (releases p ino (d_inodes d !! ino))).
  { intros ino. unfold releases. destruct (d_inodes d !! ino) as [i|] eqn:Hi; [|constructor].
    case_decide as Hp; [|constructor]. apply Forall_singleton. apply elem_of_mine. split; [done|].
    by apply (ledger_held _ _ Hd ino i p Hi) in Hp as [? _]. }
  destruct c; simpl in Hk; repeat case_match; simplify_eq; try done; by repeat constructor.
Qed.

(** Every call keeps the directory in step with the history, and what it lets
    the process see is right. *)
Lemma kernel_ledger {X} o p (c : syscall X) d x d' h l :
  ledger d l -> lawful l -> kernel o p c d = (x, d', h) -> Forall (rule l) h -> ledger d' (l ++ h) /\ Forall (sight l) h.
Proof.
  intros Hd Hl Hk Hrule.
  assert (Hsame : calm h -> d' = d -> ledger d' (l ++ h)) by (intros Hc ->; by apply (ledger_calm d)).
  destruct c; simpl in Hk;
    try (repeat case_match; simplify_eq; (split; [eapply ledger_calm; [eassumption|by repeat constructor|done..]|by repeat constructor]); fail).
  - destruct (d_locks d !! id) eqn:Hid; [injection Hk as <- <- <-; split; [apply Hsame; by repeat constructor|constructor]|].
    destruct (o_ok o); injection Hk as <- <- <-; [|split; [apply Hsame; by repeat constructor|constructor]].
    destruct (ledger_create d l p id (o_now o) Hd Hid). split; [done|]. by apply Forall_singleton.
  - destruct (o_ok o); injection Hk as <- <- <-; (split; [apply Hsame; by repeat constructor|]); [|constructor]. apply Forall_singleton.
    simpl. destruct (d_locks d !! id) as [ino|] eqn:Hid; [by eapply ledger_name|].
    intros q ino Hq. destruct (ledger_kept _ _ Hd _ _ _ Hq) as [|Hq']; [done|]. by rewrite Hid in Hq'.
  - destruct (d_inodes d !! ino) as [i|] eqn:Hi; [|injection Hk as <- <- <-; split; [apply Hsame; by repeat constructor|constructor]].
    destruct (o_ok o); simpl in Hk; try (injection Hk as <- <- <-); [|split; [apply Hsame; by repeat constructor|constructor]].
    assert (Hh := fun q => ledger_held _ _ Hd ino i q Hi).
    unfold take_lock in Hk. destruct mode, (in_exclusive i) as [q|] eqn:Hq; try (injection Hk as <- <- <-).
    + split; [apply Hsame; by repeat constructor|constructor].
    + case_decide; injection Hk as <- <- <-; [|split; [apply Hsame; by repeat constructor|constructor]].
      split; [|by repeat constructor]. apply Forall_singleton in Hrule as [_ Hnone]. by apply ledger_lock.
    + split; [apply Hsame; by repeat constructor|]. apply Forall_singleton. exists q. by apply Hh.
    + split; [|apply Forall_singleton; intros q ?%Hh; done].
      apply ledger_same_holders; [done|by repeat constructor|]. intros ino'.
      destruct (decide (ino' = ino)) as [->|]; [by rewrite lookup_insert_eq, Hi; simpl; rewrite Hq|by rewrite lookup_insert_ne].
  - injection Hk as <- <- <-. split; [by apply ledger_release|]. unfold releases. repeat case_match; by repeat constructor.
  - injection Hk as <- <- <-. split; [by apply ledger_release|]. unfold releases. repeat case_match; by repeat constructor.
  - destruct (o_ok o); injection Hk as <- <- <-; (split; [apply Hsame; by repeat constructor|]); [|constructor]. apply Forall_singleton.
    by apply (ledger_record d).
  - destruct (o_ok o); injection Hk as <- <- <-; [|split; [apply Hsame; by repeat constructor|constructor]].
    split; [by eapply ledger_rename|]. case_match; by repeat constructor.
  - injection Hk as <- <- <-. split; [|by repeat constructor].
    replace (if o_ok o then _ else _) with (set_locks (d_locks d) (set_records (if o_ok o then delete id (d_records d) else d_records d) d))
      by (destruct d, (o_ok o); done).
    apply ledger_prune; [done|..]; [|by right|destruct (o_ok o); [left; apply lookup_delete_eq|by right]].
    intros id' Hne. split; [done|]. destruct (o_ok o); [by apply lookup_delete_ne|done].
  - injection Hk as <- <- <-. split; [|by repeat constructor].
    replace (if o_ok o then _ else _) with (set_locks (if o_ok o then delete id (d_locks d) else d_locks d) (set_records (d_records d) d))
      by (destruct d, (o_ok o); done).
    apply ledger_prune; [done|..]; [|destruct (o_ok o); [left; apply lookup_delete_eq|by right]|by right].
    intros id' Hne. split; [|done]. destruct (o_ok o); [by apply lookup_delete_ne|done].
Qed.

(** ** Every interleaving *)

Section interleavings.
Context (Goal : nat -> task -> result herr AEvent -> list happening -> Prop).

(** What holds of every reachable host whose tasks are safe. *)
Record good (s : Host) : Prop := mkGood {
  good_lawful : lawful (h_log s);
  good_ledger : ledger (h_dir s) (h_log s);
  good_bound : forall e, e ∈ h_log s -> (actor e < h_next s)%nat;
  good_procs : forall p m, h_procs s !! p = Some m ->
    (p < h_next s)%nat /\ exists t tr, mine p (h_log s) = Started p t :: tr /\ safe p m (Goal p t) (mine p (h_log s)) }.

Lemma good_empty : good empty_host.
Proof.
  split; simpl; [apply lawful_nil| |set_solver|done].
  split; simpl; try done; try set_solver. intros id. by right; set_solver.
Qed.

Hypothesis tasks_safe : forall p t, safe p (task_prog t) (Goal p t) [Started p t].

Lemma good_start s t : good s -> good (start t s).
Proof.
  intros [Hl Hd Hb Hp]. set (n := h_next s).
  assert (Hother : Forall (fun e => actor e <> n) (h_log s)) by (apply Forall_forall; intros e He%Hb; unfold n; lia).
  split; simpl; fold n.
  - apply lawful_snoc; [done| |done]. simpl. eapply Forall_impl; [exact Hother|]. by intros e Hne ?.
  - apply (ledger_calm (h_dir s)); [done|by repeat constructor|done..].
  - intros e [He%Hb| ->%list_elem_of_singleton]%elem_of_app; simpl; unfold n; lia.
  - intros p m [[<- <-]|[Hne Hm]]%lookup_insert_Some.
    + split; [lia|]. exists t, []. rewrite mine_app, (mine_other n), (mine_all n) by (by repeat constructor). done.
    + destruct (Hp p m Hm) as (Hlt & t' & tr & Ht' & Hs). split; [unfold n; lia|]. exists t', tr.
      rewrite mine_app, (mine_other p [_]), app_nil_r; [done|]. by repeat constructor.
Qed.

Lemma good_turn s p o X (c : syscall X) k : h_procs s !! p = Some (Call c k) -> good s -> good (turn p o c k s).
Proof.
  intros Hm [Hl Hd Hb Hp]. destruct (Hp p _ Hm) as (Hlt & t & tr & Ht & Hs). unfold turn.
  destruct (kernel o p c (h_dir s)) as [[x d'] h] eqn:Hk. simpl in Hs.
  destruct (Hs o _ x d' h Hk (kernel_told _ _ _ _ _ _ _ _ Hd Hk)) as [Hr Hs']. pose proof (kernel_actor _ _ _ _ _ _ _ Hk) as Ha.
  assert (Hall : Forall (fun e => actor e = p) h) by (destruct Ha as [->|(e & -> & He)]; by repeat constructor).
  assert (Hrule : Forall (rule (h_log s)) h).
  { apply Forall_forall. intros e He. apply rule_mine. rewrite Forall_forall in Hall, Hr. rewrite (Hall e He). by apply Hr. }
  destruct (kernel_ledger o p c _ _ _ _ _ Hd Hl Hk Hrule) as [Hd' Hsight].
  split; simpl; [|done|..].
  - destruct Ha as [->|(e & -> & _)]; [by rewrite app_nil_r|]. rewrite Forall_singleton in Hrule, Hsight. exact (lawful_snoc _ _ Hl Hrule Hsight).
  - intros e [He|He]%elem_of_app; [auto|]. rewrite Forall_forall in Hall. by rewrite (Hall e He).
  - intros p' m' [[<- <-]|[Hne Hm']]%lookup_insert_Some.
    + split; [done|]. exists t, (tr ++ h). rewrite mine_app, (mine_all p h) by done. split; [by rewrite Ht|done].
    + destruct (Hp p' m' Hm') as (Hlt' & t' & tr' & Ht' & Hs''). split; [done|]. exists t', tr'.
      rewrite mine_app, (mine_other p' h), app_nil_r; [done|]. eapply Forall_impl; [exact Hall|]. naive_solver.
Qed.

Lemma good_die s p m : h_procs s !! p = Some m -> good s -> good (die p s).
Proof.
  intros Hm [Hl Hd Hb Hp]. destruct (Hp p m Hm) as [Hlt _]. set (h := all_releases p (d_inodes (h_dir s))).
  assert (Hall : forall e, e ∈ h -> exists ino, e = Released p ino).
  { intros e ([ino i] & He & _)%list_elem_of_bind. simpl in He. case_decide; set_solver. }
  split; simpl; fold h.
  - apply lawful_app; [done|]. intros h1 e h2 Hh. destruct (Hall e) as [ino ->]; [|done]. rewrite Hh. set_solver.
  - by apply ledger_die.
  - intros e [He%Hb|[ino ->]%Hall]%elem_of_app; done.
  - intros p' m' [Hne Hm']%lookup_delete_Some. destruct (Hp p' m' Hm') as (Hlt' & t' & tr' & Ht' & Hs'). split; [done|].
    exists t', tr'. rewrite mine_app, (mine_other p' h), app_nil_r; [done|].
    apply Forall_forall. intros e [ino ->]%Hall. naive_solver.
Qed.

Lemma reachable_good s : reachable s -> good s.
Proof.
  intros Hr. unfold reachable in Hr. remember empty_host as s0 eqn:E. assert (good s0) as H0 by (subst; apply good_empty). clear E.
  induction Hr as [|s1 s2 s3 Hstep _ IH]; [done|]. apply IH.
  destruct Hstep; [by apply good_start|by apply good_turn|by eapply good_die].
Qed.
End interleavings.
