(* ===== verification/HostLedgerFacts.v ===== *)
(** * Host actions: theorems about the invocation ledger

    Every task of hostd keeps the rule of the history, and a status query keeps
    the evidence for its answer.  From this: an invocation runs at most once and
    under its lock, and an answer to a status query is backed by what happened. *)

From S2P Require Import Prelude GoText GoJson ActionAbi JobTypes HostLedger HostLedgerLogic.

(** ** Calls that only observe *)

Definition plain {X} (c : syscall X) : bool :=
  match c with
  | OpenExclusive _ | Flock _ Exclusive | Unflock _ | CloseLock _ | Rename _ _ | UnlinkRecord _ | UnlinkLock _ | Execute _ => false
  | _ => true
  end.

(** What a call that answered [x] leaves in the history. *)
Definition saw {X} (p : nat) (c : syscall X) (h : list happening) : X -> Prop :=
  match c in syscall X return X -> Prop with
  | Now => fun x => h = [Clock p x]
  | StatLock id => fun x => forall m, x = Some m -> h = [Seen p id m]
  | OpenLock id => fun x =>
      match x with Opened ino => h = [Looked p id (Some ino)] | NotFound => h = [Looked p id None] | _ => True end
  | Flock ino Shared => fun x =>
      match x with Granted => h = [Probed p ino false] | WouldBlock => h = [Probed p ino true] | _ => True end
  | ReadRecord id => fun x => match x with Some f => h = [Read p id f] | None => True end
  | _ => fun _ => True
  end.

Definition other (h : list happening) : Prop := Forall (fun e => kind_of e = KOther) h.

Lemma safe_plain {A X} p (c : syscall X) (k : X -> prog A) Q t :
  plain c = true -> (forall x h, other h -> saw p c h x -> safe p (k x) Q (t ++ h)) -> safe p (Call c k) Q t.
Proof.
  intros Hp Hk o d x d' h Hker _.
  assert (other h /\ saw p c h x /\ Forall (rule t) h) as (Ho & Hs & Hr).
  { destruct c as [| | | |? []| | | | | | | | | | | | | | | | | |]; try discriminate; simpl in Hker; repeat case_match; simplify_eq;
      simpl; repeat (split || case_match); try done; try (by repeat constructor); intros; simplify_eq; done. }
  split; [done|]. by apply Hk.
Qed.

(** [t'] is [t] with nothing but observations added. *)
Definition ext (t t' : list happening) : Prop := exists h, t' = t ++ h /\ other h.

Lemma ext_refl t : ext t t.
Proof. exists []. split; [by rewrite app_nil_r|constructor]. Qed.
Lemma ext_app t t' h : ext t t' -> other h -> ext t (t' ++ h).
Proof. intros (h' & -> & Ho) Hh. exists (h' ++ h). split; [by rewrite app_assoc|]. by apply Forall_app. Qed.
Lemma ext_trans t1 t2 t3 : ext t1 t2 -> ext t2 t3 -> ext t1 t3.
Proof. intros H (h & -> & Ho). by apply ext_app. Qed.
Lemma ext_elem t t' e : ext t t' -> e ∈ t -> e ∈ t'.
Proof. intros (h & -> & _). set_solver. Qed.
Lemma other_none p k h : other h -> k <> KOther -> none p k h.
Proof. intros Ho Hk. eapply Forall_impl; [exact Ho|]. simpl. intros e He _ Hk'. congruence. Qed.
Lemma ext_none t t' p k : ext t t' -> k <> KOther -> none p k t -> none p k t'.
Proof. intros (h & -> & Ho) Hk Hn. apply none_app. split; [done|]. by apply other_none. Qed.
Lemma ext_owns t t' p id : ext t t' -> owns p id t -> owns p id t'.
Proof. intros He (ino & H1 & H2 & H3). exists ino. split_and!; [by eapply ext_elem..|by eapply ext_none]. Qed.
#[export] Hint Resolve ext_refl ext_app ext_trans ext_elem ext_none ext_owns : go.
#[export] Hint Extern 1 (_ <> KOther) => discriminate : go.

(** Releasing a lock by a process that holds none. *)
Lemma safe_release {A} p (c : syscall unit) ino (k : unit -> prog A) Q t :
  (c = Unflock ino \/ c = CloseLock ino) -> none p KLocked t -> safe p (k tt) Q t -> safe p (Call c k) Q t.
Proof.
  intros Hc Hn Hk o d x d' h Hker Htold.
  assert (h = []) as ->.
  { destruct Hc as [-> | ->]; simpl in Hker; simplify_eq; unfold releases in *; repeat case_match; try done;
      rewrite Forall_singleton in Htold; simpl in Htold; by eapply none_not in Htold. }
  rewrite app_nil_r. split; [constructor|]. by destruct x.
Qed.

(** Releasing a lock as the last thing done. *)
Lemma safe_close {A} p ino (k : unit -> prog A) (Q : A -> list happening -> Prop) t :
  (forall h, safe p (k tt) Q (t ++ h)) -> safe p (Call (CloseLock ino) k) Q t.
Proof.
  intros Hk o d [] d' h Hker _. simpl in Hker. simplify_eq. split; [|apply Hk].
  unfold releases. repeat case_match; by repeat constructor.
Qed.

(** ** The ledger's operations keep the rule *)

Lemma locked_safe p id t :
  none p KLocked t ->
  safe p (locked id) (fun r t' => ext t t' /\
    match r with
    | Ok (true, _) => exists ino, Looked p id (Some ino) ∈ t' /\ Probed p ino true ∈ t'
    | Ok (false, true) => exists ino t1 t2, t' = t ++ t1 ++ Probed p ino false :: t2 /\ Looked p id (Some ino) ∈ t1
    | Ok (false, false) => t' = t ++ [Looked p id None]
    | Err _ => True
    end) t.
Proof.
  intros Hn. apply safe_plain; [done|]. intros [ino| | |] h1 Ho1 Hs1; simpl in Hs1; try (simpl; split; [by eauto with go|done]; fail).
  - subst h1. apply safe_plain; [done|]. intros x h2 Ho2 Hs2.
    assert (Hn2 : none p KLocked ((t ++ [Looked p id (Some ino)]) ++ h2)).
    { apply none_app. split; [apply none_app; split; [done|]|]; by apply other_none. }
    assert (He2 : ext t ((t ++ [Looked p id (Some ino)]) ++ h2)) by eauto with go.
    destruct x; simpl in Hs2; try subst h2; repeat (eapply safe_release; [by eauto|exact Hn2|]); simpl; (split; [done|]); [| |done].
    + exists ino, [Looked p id (Some ino)], []. rewrite <-!app_assoc. split; [done|set_solver].
    + exists ino. set_solver.
  - subst h1. simpl. split; [by eauto with go|done].
Qed.

Lemma safe_unlink {A} p (c : syscall unit) id (k : unit -> prog A) Q t m n :
  (c = UnlinkRecord id \/ c = UnlinkLock id) -> Seen p id m ∈ t -> Clock p n ∈ t -> m <= n - invocationRetention ->
  (forall h, other h -> safe p (k tt) Q (t ++ h)) -> safe p (Call c k) Q t.
Proof.
  intros Hc Hs Hn Hle Hk o d [] d' h Hker _.
  assert (h = [Pruned p id]) as -> by (destruct Hc as [-> | ->]; simpl in Hker; by simplify_eq).
  split; [apply Forall_singleton; simpl; eauto|apply Hk; by repeat constructor].
Qed.

Lemma prune_name_safe p n name t :
  none p KLocked t -> Clock p n ∈ t -> safe p (prune_name (n - invocationRetention) name) (fun _ t' => ext t t') t.
Proof.
  intros Hn Hclock. unfold prune_name. destruct (before_tmp name) as [prefix|].
  - destruct (invocationName prefix); [|simpl; eauto with go]. apply safe_plain; [done|]. intros [mtime|] h Ho _; [|simpl; eauto with go].
    destruct (mtime <? _); [|simpl; eauto with go]. apply safe_plain; [done|]. intros x h' Ho' _. simpl. eauto with go.
  - destruct (negb (HasSuffix name ".lock")); [simpl; eauto with go|]. destruct (negb (invocationName _)); [simpl; eauto with go|].
    set (id := TrimSuffix name ".lock"). apply safe_plain; [done|]. intros [mtime|] h Ho Hs; [|simpl; eauto with go].
    simpl in Hs. specialize (Hs mtime eq_refl) as ->. destruct (_ <? mtime) eqn:Hlt; [simpl; eauto with go|]. apply Z.ltb_ge in Hlt.
    eapply safe_run; [apply locked_safe; by eauto with go|]. intros held t' [He _].
    assert (Hseen : Seen p id mtime ∈ t') by (eapply ext_elem; [exact He|]; set_solver).
    assert (Hclk : Clock p n ∈ t') by (eapply ext_elem; [exact He|]; set_solver).
    assert (Het : ext t t') by eauto with go. destruct held as [[[] ?]|]; [exact Het| |exact Het].
    eapply safe_unlink; [by left|done..|]. intros h1 Ho1.
    eapply safe_unlink; [by right|apply elem_of_app; by left..|done|]. intros h2 Ho2. simpl. eauto with go.
Qed.

Lemma prune_names_safe p n names t removed :
  none p KLocked t -> Clock p n ∈ t -> safe p (prune_names (n - invocationRetention) removed names) (fun _ t' => ext t t') t.
Proof.
  revert t removed. induction names as [|name names IH]; intros t removed Hn Hc; cbn [prune_names]; [apply ext_refl|].
  destruct (64 <=? removed)%nat; [apply ext_refl|]. eapply safe_run; [by apply prune_name_safe|]. intros gone t' He; simpl in He.
  eapply safe_mono; [apply IH; [by eapply ext_none|by eapply ext_elem]|]. simpl. eauto with go.
Qed.

Lemma prune_safe p t : none p KLocked t -> safe p prune (fun _ t' => ext t t') t.
Proof.
  intros Hn. apply safe_plain; [done|]. intros [names|] h Ho _; [|simpl; eauto with go].
  apply safe_plain; [done|]. intros now h' Ho' Hs. simpl in Hs. subst h'.
  eapply safe_mono; [apply prune_names_safe; [|set_solver]|]; [by eauto 6 with go|]. simpl. eauto with go.
Qed.

(** The records an owner may write. *)
Definition writable (p : nat) (r : invocationRecord) (t : list happening) : Prop :=
  owns p (ir_InvocationID r) t /\ none p KRecorded t /\
  match ir_Terminal r with
  | Some e => terminal_type e = true /\ ae_JobID e = ir_JobID r /\ ae_InvocationID e = ir_InvocationID r
  | None => True
  end.

(** [t'] is [t] with observations and perhaps the beginning of a record. *)
Definition ext_began (t t' : list happening) : Prop :=
  exists h, t' = t ++ h /\ Forall (fun e => kind_of e = KOther \/ kind_of e = KBegan) h.

Lemma ext_began_none t t' p k : ext_began t t' -> k <> KOther -> k <> KBegan -> none p k t -> none p k t'.
Proof.
  intros (h & -> & Ho) Hk Hk' Hn. apply none_app. split; [done|]. eapply Forall_impl; [exact Ho|]. simpl. intros e [He|He] _ ?; congruence.
Qed.
Lemma ext_began_owns t t' p id : ext_began t t' -> owns p id t -> owns p id t'.
Proof.
  intros He (ino & H1 & H2 & H3). exists ino. split_and!; [destruct He as (h & -> & _); set_solver..|]. by eapply ext_began_none.
Qed.
Lemma ext_ext_began t t' : ext t t' -> ext_began t t'.
Proof. intros (h & -> & Ho). exists h. split; [done|]. eapply Forall_impl; [exact Ho|]. auto. Qed.
Lemma ext_began_app t t' h : ext_began t t' -> other h -> ext_began t (t' ++ h).
Proof.
  intros (h' & -> & Ho) Hh. exists (h' ++ h). split; [by rewrite app_assoc|]. apply Forall_app. split; [done|].
  eapply Forall_impl; [exact Hh|]. auto.
Qed.

Lemma ext_began_trans t1 t2 t3 : ext_began t1 t2 -> ext_began t2 t3 -> ext_began t1 t3.
Proof.
  intros (h & -> & H1) (h' & -> & H2). exists (h ++ h'). split; [by rewrite app_assoc|]. by apply Forall_app.
Qed.

Lemma safe_rename {A} p name r (k : bool -> prog A) Q t :
  writable p r t -> safe p (k false) Q t -> (forall t', (ir_Terminal r = None -> ext_began t t') -> safe p (k true) Q t') ->
  safe p (Call (Rename name r) k) Q t.
Proof.
  intros (Ho & Hn & Ht) Hf Hk o d x d' h Hker _. simpl in Hker. destruct (o_ok o); simplify_eq.
  - split; [case_match; apply Forall_singleton; simpl; naive_solver|]. apply Hk. intros E. rewrite E. eexists. split; [done|].
    apply Forall_singleton. by right.
  - rewrite app_nil_r. by split; [constructor|].
Qed.

Lemma write_safe p r t :
  writable p r t -> safe p (write r) (fun _ t' => ir_Terminal r = None -> ext_began t t') t.
Proof.
  intros Hw. unfold write.
  assert (Hend : forall t', ext t t' -> ir_Terminal r = None -> ext_began t t') by eauto using ext_ext_began.
  destruct (enc_invocation_record r) as [body|]; [|simpl; eauto with go]. destruct (_ <? _); [simpl; eauto with go|].
  apply safe_plain; [done|]. intros [suffix|] h1 Ho1 _; [|simpl; eauto with go].
  apply safe_plain; [done|]. intros [] h2 Ho2 _; [|simpl; eauto with go]. simpl negb. cbv iota.
  do 3 (apply safe_plain; [done|]; intros ? ? ? _). destruct (negb _ || _ || _).
  { apply safe_plain; [done|]. intros ? ? ? _. simpl. intros. apply ext_ext_began. eauto 10 with go. }
  match goal with |- safe _ _ _ ?t' => assert (Het : ext t t') by eauto 10 with go; generalize dependent t' end.
  intros t' Het. apply safe_rename.
  - destruct Hw as (Ho & Hn & Ht). split_and!; [by eapply ext_owns|by eapply ext_none|done].
  - apply safe_plain; [done|]. intros ? ? ? _. simpl. eauto 10 with go.
  - intros t2 Ht2. apply safe_plain; [done|]. intros [] h6 Ho6 _.
    + simpl. intros E. apply ext_began_app; [|done]. eauto using ext_began_trans, ext_ext_began.
    + apply safe_plain; [done|]. intros ? h7 Ho7 _. simpl. intros E. do 2 (apply ext_began_app; [|done]).
      eauto using ext_began_trans, ext_ext_began.
Qed.

(** [id] is begun by [p] and nothing was run or recorded yet. *)
Definition begun (p : nat) (id : string) (t : list happening) : Prop := owns p id t /\ none p KRecorded t /\ none p KRan t.

Lemma ext_begun t t' p id : ext_began t t' -> begun p id t -> begun p id t'.
Proof.
  intros He (H1 & H2 & H3). split_and!; [by eapply ext_began_owns|by eapply ext_began_none..].
Qed.

Definition idle (p : nat) (t : list happening) : Prop :=
  none p KCreated t /\ none p KLocked t /\ none p KReleased t /\ none p KRecorded t /\ none p KRan t.
Lemma ext_idle t t' p : ext t t' -> idle p t -> idle p t'.
Proof. intros He (H1 & H2 & H3 & H4 & H5). split_and!; by eapply ext_none. Qed.

Lemma Begin_safe p request release peer t :
  idle p t ->
  safe p (Begin request release peer) (fun r t' =>
    match r with
    | Ok e => begun p (req_InvocationID request) t' /\ ir_InvocationID (en_record e) = req_InvocationID request /\
              ir_Terminal (en_record e) = None
    | Err _ => True
    end) t.
Proof.
  intros Hi. apply safe_plain; [done|]. intros live h Ho _.
  destruct (_ || _ || _); [done|]. eapply safe_run; [apply prune_safe; eapply ext_none; [|done|apply Hi]; eauto with go|].
  intros [] t1 He1. simpl in He1. apply (ext_idle t t1) in Hi as (H1 & H2 & H3 & H4 & H5); [|eauto with go]. clear He1.
  intros o d x d' h1 Hker _. simpl in Hker.
  assert ((exists ino, x = Opened ino /\ h1 = [Created p (req_InvocationID request) ino]) \/ h1 = [] /\ (x = Exists \/ x = OpenFailed)) as Hx.
  { repeat case_match; simplify_eq; eauto. }
  clear Hker. destruct Hx as [(ino & -> & ->)|[-> Hx]]; [|split; [constructor|]; by destruct Hx as [-> | ->]].
  split; [by apply Forall_singleton|]. clear o d d' h Ho. intros o d x d' h Hker _. simpl in Hker.
  assert (x = Granted /\ h = [Locked p ino] \/ h = [] /\ x <> Granted) as Hx.
  { repeat case_match; simplify_eq; eauto. }
  clear Hker. destruct Hx as [[-> ->]|[-> Hx]].
  2:{ split; [constructor|]. destruct x; [done|..]; apply safe_close; done. }
  set (id := req_InvocationID request). set (t2 := _ ++ [Locked p ino]).
  assert (Hlift : forall k, k <> KCreated -> k <> KLocked -> none p k t1 -> none p k t2).
  { intros k Hk1 Hk2 Hn. unfold t2. rewrite !none_app. split_and!; [done|..]; apply Forall_singleton; simpl; congruence. }
  assert (Hb : begun p id t2).
  { split_and!; [|by apply Hlift..]. exists ino. split_and!; [set_solver..|by apply Hlift]. }
  split; [apply Forall_singleton; split; [exists id; set_solver|apply none_app; split; [done|]; by apply Forall_singleton]|].
  apply safe_plain; [done|]. intros now h Ho _.
  apply (ext_begun _ (t2 ++ h)) in Hb; [|apply ext_ext_began; eauto with go].
  eapply safe_run; [apply write_safe; split_and!; [apply Hb..|done]|]. intros err t3 He3. specialize (He3 eq_refl).
  destruct err; [apply safe_close; done|]. simpl. split_and!; [by eapply ext_begun|done..].
Qed.

(** Once a terminal may have been written nothing but the release follows. *)
Lemma Finish_safe p e terminal (Q : option herr -> list happening -> Prop) t :
  owns p (ir_InvocationID (en_record e)) t -> none p KRecorded t -> (forall r t', Q r t') -> safe p (Finish e terminal) Q t.
Proof.
  intros Ho Hn HQ. unfold Finish. destruct (en_done e); [apply HQ|]. destruct (_ || _ || _ || _) eqn:Hbad; [apply safe_close; intros; apply HQ|].
  apply orb_false_iff in Hbad as [[[Hj Hi]%orb_false_iff Ht]%orb_false_iff _].
  apply negb_false_iff, bool_decide_eq_true in Hj, Hi. apply negb_false_iff in Ht.
  apply safe_plain; [done|]. intros now h Hoth _.
  eapply safe_run; [apply write_safe; split_and!; simpl; [eapply ext_owns; eauto with go|eapply ext_none; eauto with go|done..]|].
  intros r t' _. apply safe_close. intros. apply HQ.
Qed.

Lemma Finish_run {B} p e terminal (f : option herr -> prog B) Q t :
  owns p (ir_InvocationID (en_record e)) t -> none p KRecorded t -> (forall r t', safe p (f r) Q t') ->
  safe p (bindP (Finish e terminal) f) Q t.
Proof. intros Ho Hn Hf. apply safe_bind. by apply Finish_safe. Qed.

Lemma executeBegun_safe p request entry t :
  begun p (req_InvocationID request) t -> ir_InvocationID (en_record entry) = req_InvocationID request ->
  safe p (executeBegun request entry) (fun _ _ => True) t.
Proof.
  intros Hb Eid. unfold executeBegun.
  assert (Habandon : forall e t', ext t t' ->
    safe p (bindP (Finish entry (notStarted request)) (fun f => Ret (Err (join_err e f)))) (fun (_ : result herr AEvent) _ => True) t').
  { intros e t' He. apply (ext_begun t t') in Hb as (Ho & Hn & _); [|by apply ext_ext_began]. apply Finish_run; [by rewrite Eid|done..]. }
  apply safe_plain; [done|]. intros [] h Ho _; [|apply Habandon; eauto with go].
  simpl negb. cbv iota.
  match goal with |- context [Call (Execute request) ?k] => set (go := k) end.
  assert (Hgo : forall t', ext t t' -> safe p (Call (Execute request) go) (fun _ _ => True) t').
  { intros t' He. apply (ext_begun t t') in Hb as (Hown & Hnr & Hran); [|by apply ext_ext_began].
    intros o d x d' h' Hker _. simpl in Hker. simplify_eq. split; [by apply Forall_singleton|]. unfold go.
    apply Finish_run; [|apply none_app; split; [done|by apply Forall_singleton]|done].
    rewrite Eid. destruct Hown as (ino & H1 & H2 & H3). exists ino.
    split_and!; [set_solver..|]. apply none_app. split; [done|by apply Forall_singleton]. }
  destruct (LookupAction _) as [spec|]; [|apply Hgo; eauto with go].
  destruct (sp_Mutating spec); [|apply Hgo; eauto with go].
  apply safe_plain; [done|]. intros [] h' Ho' _; [apply Hgo|apply Habandon]; eauto with go.
Qed.

Lemma rejectAdmission_safe {A} p peer reason cause (Q : result herr A -> list happening -> Prop) t :
  (forall e t', Q (Err e) t') -> safe p (rejectAdmission peer reason cause) Q t.
Proof. intros HQ. apply safe_plain; [done|]. intros ok h _ _. apply HQ. Qed.

Lemma executeRecorded_safe p call release t : idle p t -> safe p (executeRecorded call release) (fun _ _ => True) t.
Proof.
  intros Hi. unfold executeRecorded. destruct (release_Validate release); [|done]. simpl negb. cbv iota.
  destruct (negb (vp_verified _)); [by apply rejectAdmission_safe|].
  apply safe_plain; [done|]. intros [] h Ho _; [|by apply rejectAdmission_safe]. simpl negb. cbv iota.
  eapply safe_run; [apply Begin_safe; eapply ext_idle; [|exact Hi]; eauto with go|].
  intros [entry|[]] t' Hpost; try by apply rejectAdmission_safe. destruct Hpost as (Hb & Eid & _). by apply executeBegun_safe.
Qed.

(** ** The evidence for a status *)

Definition unterminated (f : option rfile) : Prop :=
  match f with Some (Decoded r) => ir_Terminal r = None | Some Undecodable => False | None => True end.

Definition evidence (p : nat) (job id : string) (st : InvocationStatus) (t : list happening) : Prop :=
  is_Schema st = InvocationStatusSchema /\
  match is_State st with
  | InvocationFinished =>
      exists r e, is_Terminal st = Some e /\ Read p id (Some (Decoded r)) ∈ t /\ ir_Terminal r = Some e /\ ir_JobID r = job /\
        ae_JobID e = job /\ ae_InvocationID e = id /\ encodes e = true
  | InvocationRunning => is_Terminal st = None /\ exists ino, Looked p id (Some ino) ∈ t /\ Probed p ino true ∈ t
  | InvocationAbsent => is_Terminal st = None /\ Looked p id None ∈ t
  | InvocationLost =>
      is_Terminal st = None /\
      ((exists ino t1 t2 f, t = t1 ++ Probed p ino false :: t2 /\ Looked p id (Some ino) ∈ t1 /\ Read p id f ∈ t2 /\ unterminated f) \/
       (exists t1 t2 r, t = t1 ++ Looked p id None :: t2 /\ Read p id (Some (Decoded r)) ∈ t1 /\ ir_Terminal r = None))
  end.

Lemma decode_ok f job id r :
  decodeInvocationRecord f job id = Ok r ->
  f = Decoded r /\ ir_JobID r = job /\
  match ir_Terminal r with Some e => ae_JobID e = job /\ ae_InvocationID e = id /\ encodes e = true | None => True end.
Proof.
  destruct f as [r'|]; [|done]. simpl. destruct (_ || _ || _) eqn:Hbad; [done|].
  apply orb_false_iff in Hbad as [_ Hj]. apply negb_false_iff, bool_decide_eq_true in Hj.
  destruct (ir_Terminal r') as [e|] eqn:Ht; [destruct (_ || _ || _) eqn:Hbad; [done|]|]; intros [= ->]; rewrite Ht; [|done].
  apply orb_false_iff in Hbad as [[H1 H2]%orb_false_iff H3]. apply negb_false_iff, bool_decide_eq_true in H1, H2.
  by apply negb_false_iff in H3.
Qed.

(** [read] followed by the rest: what it returns is what it saw. *)
Lemma read_run {B} p job id (f : result herr (option invocationRecord) -> prog B) Q t :
  (forall e h, other h -> safe p (f (Err e)) Q (t ++ h)) ->
  safe p (f (Ok None)) Q (t ++ [Read p id None]) ->
  (forall r, ir_JobID r = job ->
     match ir_Terminal r with Some e => ae_JobID e = job /\ ae_InvocationID e = id /\ encodes e = true | None => True end ->
     safe p (f (Ok (Some r))) Q (t ++ [Read p id (Some (Decoded r))])) ->
  safe p (bindP (read job id) f) Q t.
Proof.
  intros He Hn Hs. apply safe_bind, safe_plain; [done|]. intros [[file|]|] h Ho Hsaw; simpl in Hsaw; try subst h; [|done|by apply He].
  destruct (decodeInvocationRecord file job id) as [r|] eqn:Hd; simpl; rewrite ?Hd; [|by apply He].
  apply decode_ok in Hd as (-> & Hj & Ht). by apply Hs.
Qed.

(** The answer of a status, or an error. *)
Definition answered (p : nat) (job id : string) (r : result herr InvocationStatus) (t : list happening) : Prop :=
  match r with Ok st => evidence p job id st t | Err _ => True end.

Lemma finished_answered p job id r e t :
  Read p id (Some (Decoded r)) ∈ t -> ir_Terminal r = Some e -> ir_JobID r = job ->
  ae_JobID e = job /\ ae_InvocationID e = id /\ encodes e = true -> answered p job id (status InvocationFinished (Some e)) t.
Proof. intros H1 H2 H3 (H4 & H5 & H6). split; [done|]. exists r, e. done. Qed.

(** The second read, after a free lock or a missing lock file. *)
Lemma reread_safe p job id t :
  (forall f, unterminated f -> answered p job id (status InvocationLost None) (t ++ [Read p id f])) ->
  safe p (run second := read job id in
          match second with
          | Err e => Ret (Err e)
          | Ok (Some r) =>
              match ir_Terminal r with
              | Some t => Ret (status InvocationFinished (Some t))
              | None => Ret (status InvocationLost None)
              end
          | Ok None => Ret (status InvocationLost None)
          end) (answered p job id) t.
Proof.
  intros Hlost. apply read_run; [done|by apply Hlost|]. intros r Hj Ht. destruct (ir_Terminal r) as [e|] eqn:Er.
  - simpl. eapply finished_answered; [|done..]. set_solver.
  - by apply Hlost.
Qed.

Lemma fileLedger_Status_unfinished_safe p job id t f :
  none p KLocked t -> Read p id f ∈ t -> unterminated f ->
  safe p (fileLedger_Status_unfinished job id (match f with Some _ => true | None => false end)) (answered p job id) t.
Proof.
  intros Hn Hf Hu. eapply safe_run; [by apply locked_safe|].
  intros [[[] ex]|e] t' [He Hp]; simpl in Hp; [simpl; by split|..|done]. destruct ex; simpl.
  - destruct Hp as (ino & t1 & t2 & -> & Hl). apply reread_safe. intros f' Hf'. split; [done|]. split; [done|]. left.
    exists ino, (t ++ t1), (t2 ++ [Read p id f']), f'. split_and!; [by rewrite <-!app_assoc|set_solver..|done].
  - subst t'. destruct f as [[r|]|]; simpl; [|done|by split; [|split; [|set_solver]]].
    apply reread_safe. intros f' Hf'. split; [done|]. split; [done|]. right.
    exists t, [Read p id f'], r. by rewrite <-!app_assoc.
Qed.

Lemma fileLedger_Status_safe p job id t : none p KLocked t -> safe p (fileLedger_Status job id) (answered p job id) t.
Proof.
  intros Hn. apply safe_plain; [done|]. intros live h Ho _. destruct (_ || _ || _); [done|].
  apply (ext_none t (t ++ h)) in Hn; [|eauto with go|done]. generalize dependent (t ++ h). clear t h Ho. intros t Hn.
  assert (Hn' : forall f, none p KLocked (t ++ [Read p id f])) by (intros f; apply none_app; split; [done|by apply Forall_singleton]).
  apply read_run; [done|apply (fileLedger_Status_unfinished_safe p job id _ None); [done|set_solver|done]|].
  intros r Hj Ht. destruct (ir_Terminal r) as [e|] eqn:Er.
  - eapply finished_answered; [|done..]. set_solver.
  - apply (fileLedger_Status_unfinished_safe p job id _ (Some (Decoded r))); [done|set_solver|done].
Qed.

Definition query_goal (p : nat) (call : Invocation) (r : result herr AEvent) (t : list happening) : Prop :=
  forall ev, r = Ok ev ->
  exists st body, evidence p (req_JobID (iv_request call)) (req_InvocationID (iv_request call)) st t /\ enc_status st = Some body /\
    ev = mkAEvent Version (req_JobID (iv_request call)) (req_InvocationID (iv_request call)) 0 "result" None None
           (Some (mkResult Succeeded (Some false) body)) None None.

Lemma evidence_ext p job id st t h : evidence p job id st t -> evidence p job id st (t ++ h).
Proof.
  intros [Hs Hst]. split; [done|]. destruct (is_State st).
  - split; [apply Hst|]. set_solver.
  - destruct Hst as (Ht & ino & H1 & H2). split; [done|]. exists ino. set_solver.
  - destruct Hst as (r & e & H1 & H2 & H3). exists r, e. split_and!; [done|set_solver|apply H3..].
  - destruct Hst as (Ht & [(ino & t1 & t2 & f & -> & H1 & H2 & H3)|(t1 & t2 & r & -> & H1 & H2)]); (split; [done|]); [left|right].
    + exists ino, t1, (t2 ++ h), f. rewrite <-app_assoc. split_and!; [done..|set_solver|done].
    + exists t1, (t2 ++ h), r. by rewrite <-app_assoc.
Qed.

Lemma queryInvocation_safe p call t : none p KLocked t -> safe p (queryInvocation call) (query_goal p call) t.
Proof.
  intros Hn. unfold queryInvocation. destruct (_ || _ || _); [done|]. destruct (iv_used call); [done|].
  apply safe_plain; [done|]. intros [] h Ho _; [|by apply rejectAdmission_safe].
  simpl negb. cbv iota. eapply safe_run; [apply fileLedger_Status_safe; eapply ext_none; [|done|exact Hn]; eauto with go|].
  intros [st|e] t' Hev; [|done]. simpl in Hev. apply safe_plain; [done|]. intros [] h' Ho' _; [|done].
  simpl negb. cbv iota. destruct (enc_status st) as [body|] eqn:Hb; [|done]. intros ev [= <-].
  exists st, body. split_and!; [by apply evidence_ext|done..].
Qed.

(** ** What every interleaving keeps *)

Definition task_goal (p : nat) (t : task) : result herr AEvent -> list happening -> Prop :=
  match t with TaskExecute _ _ => fun _ _ => True | TaskQuery call => query_goal p call end.

Lemma tasks_safe p t : safe p (task_prog t) (task_goal p t) [Started p t].
Proof.
  destruct t as [call release|call]; simpl.
  - apply executeRecorded_safe. split_and!; by apply Forall_singleton.
  - apply queryInvocation_safe. by apply Forall_singleton.
Qed.

Definition reachable_lawful s : reachable s -> good task_goal s := reachable_good task_goal tasks_safe s.

Lemma pruned_expired l id : lawful l -> pruned id l -> retired id l.
Proof.
  intros Hl [r Hr]. destruct (lawful_elem _ _ Hl Hr) as (l1 & l2 & -> & (m & n & H1 & H2 & H3) & _). exists r, m, n. set_solver.
Qed.

Lemma started_once l p t t' : lawful l -> Started p t ∈ l -> Started p t' ∈ l -> t = t'.
Proof.
  intros Hl (l1 & l2 & -> & Hr & _)%(lawful_elem l) [H|[[= ->]|H]%elem_of_cons]%elem_of_app; [|done| |done].
  - by eapply none_not in H.
  - apply list_elem_of_split in H as (l3 & l4 & ->). destruct (Hl (l1 ++ Started p t :: l3) (Started p t') l4) as [Hr' _].
    { by rewrite <-app_assoc. }
    simpl in Hr'. apply (none_not _ _ _ (Started p t)) in Hr'; [|done..]. set_solver.
Qed.

(** C38. However many hostd processes run over the ledger, however their calls
    interleave, fail or are cut short by a death: an action runs only while its
    process holds the lock file it created for the invocation, and if an
    invocation id ran twice then a process pruned it, having read a clock at
    least the retention time past the modification time of its lock file. *)
Theorem invocation_runs_once s :
  reachable s ->
  (forall l1 p id l2, h_log s = l1 ++ Ran p id :: l2 -> owns p id l1) /\
  (forall l1 p l2 q id l3, h_log s = l1 ++ Ran p id :: l2 ++ Ran q id :: l3 -> retired id (h_log s)).
Proof.
  intros Hr%reachable_lawful. pose proof (good_lawful _ _ Hr) as Hl. split.
  - intros l1 p id l2 E. by destruct (Hl _ _ _ E) as [[? _] _].
  - intros l1 p l2 q id l3 E. apply pruned_expired; [done|].
    destruct (Hl _ _ _ E) as [[(i1 & H1 & _) _] _].
    destruct (Hl (l1 ++ Ran p id :: l2) (Ran q id) l3) as [[(i2 & H2 & _) Hn] _]; [by rewrite <-app_assoc|].
    destruct (decide (q = p)) as [->|Hne]; [apply (none_not _ _ _ (Ran p id)) in Hn; [set_solver|done..]|].
    destruct (created_once (h_log s) p q id i1 i2) as [[? _]|]; [done|rewrite E; set_solver..|done|done].
Qed.

(** ** What an answer means *)

(** [l1] is the history at some moment while [p] was at work. *)
Definition during (p : nat) (l l1 : list happening) : Prop := (exists l2, l = l1 ++ l2) /\ exists t, Started p t ∈ l1.

Definition justified (p : nat) (job id : string) (st : InvocationStatus) (l : list happening) : Prop :=
  match is_State st with
  | InvocationFinished => exists q e, is_Terminal st = Some e /\ Recorded q id job e ∈ l
  | InvocationRunning => exists l1 q ino, during p l l1 /\ Created q id ino ∈ l1 /\ held q ino l1
  | InvocationAbsent => retired id l \/ exists l1, during p l l1 /\ forall q ino, Created q id ino ∉ l1
  | InvocationLost =>
      retired id l \/
      exists l1, during p l l1 /\ (exists q ino, Created q id ino ∈ l1) /\
        forall q ino, Created q id ino ∈ l1 -> Locked q ino ∈ l1 -> Released q ino ∈ l1 /\ forall job' e, Recorded q id job' e ∉ l
  end.

Section answers.
Context (l : list happening) (p : nat) (t : task) (tr : list happening) (Hl : lawful l) (Hstart : mine p l = Started p t :: tr).

Lemma started_first l1 e l2 : l = l1 ++ e :: l2 -> actor e = p -> kind_of e = KOther -> during p l l1.
Proof.
  intros E Ha Hk. split; [by eauto|]. exists t. rewrite E, mine_app in Hstart. destruct (mine p l1) as [|x t1] eqn:Hm.
  - unfold mine in Hstart. rewrite filter_cons_True in Hstart by done. simpl in Hstart. by injection Hstart as ->.
  - injection Hstart as -> _. assert (Started p t ∈ mine p l1) as [_ ?]%elem_of_mine by (rewrite Hm; set_solver). done.
Qed.

Lemma observed e : e ∈ l -> actor e = p -> kind_of e = KOther -> exists l1 l2, l = l1 ++ e :: l2 /\ during p l l1 /\ sight l1 e.
Proof.
  intros He Ha Hk. assert (e ∈ mine p l) as (t1 & t2 & Hm)%list_elem_of_split by by apply elem_of_mine.
  destruct (mine_split _ _ _ _ _ Hm) as (l1 & l2 & E & <- & _). exists l1, l2. split; [done|].
  split; [by eapply started_first|]. by destruct (Hl _ _ _ E).
Qed.

Lemma finished_record_right l1 id r e : record_right id (Some (Decoded r)) l1 -> ir_Terminal r = Some e -> exists q, Recorded q id (ir_JobID r) e ∈ l1.
Proof. intros [_ H] E. by rewrite E in H. Qed.
Lemma unterminated_right l1 id f : record_right id f l1 -> unterminated f -> pruned id l1 \/ forall q job e, Recorded q id job e ∉ l1.
Proof. destruct f as [[r|]|]; simpl; [|done|done]. intros [_ H] E. rewrite E in H. apply H. Qed.

(** A process that let go of its lock records no more. *)
Lemma released_records_no_more l1 l2 q ino id job e :
  l = l1 ++ l2 -> Released q ino ∈ l1 -> (forall job e, Recorded q id job e ∉ l1) -> Recorded q id job e ∉ l.
Proof.
  intros E Hrel Hno Hrec. rewrite E in Hrec. apply elem_of_app in Hrec as [?|(l3 & l4 & ->)%list_elem_of_split]; [by eapply Hno|].
  destruct (Hl (l1 ++ l3) (Recorded q id job e) l4) as [[(ino' & _ & _ & Hn) _] _]; [by rewrite E, <-app_assoc|].
  apply (none_not _ _ _ (Released q ino)) in Hn; [|done..]. set_solver.
Qed.

Lemma absent_justified id : Looked p id None ∈ l -> retired id l \/ exists l1, during p l l1 /\ forall q ino, Created q id ino ∉ l1.
Proof.
  intros He. destruct (observed _ He eq_refl eq_refl) as (l1 & l2 & E & Hd & Hs). destruct (decide (pruned id l1)) as [Hp|Hp].
  - left. apply pruned_expired; [done|]. rewrite E. by apply pruned_app.
  - right. exists l1. split; [done|]. intros q ino Hc. by apply Hs in Hc.
Qed.

Lemma running_justified id ino : Looked p id (Some ino) ∈ l -> Probed p ino true ∈ l ->
  exists l1 q ino', during p l l1 /\ Created q id ino' ∈ l1 /\ held q ino' l1.
Proof.
  intros H1 H2. destruct (observed _ H1 eq_refl eq_refl) as (l1 & l2 & E1 & _ & [q1 Hc1]).
  destruct (observed _ H2 eq_refl eq_refl) as (l3 & l4 & E2 & Hd & [q2 Hh]).
  assert (exists id', Created q2 id' ino ∈ l3) as [id' Hc2].
  { destruct Hh as [Hlk _]. assert (Hl3 : lawful l3) by (eapply lawful_prefix; by rewrite <-E2).
    destruct (lawful_elem _ _ Hl3 Hlk) as (a & b & -> & [[id' ?] _] & _). exists id'. set_solver. }
  destruct (created_same l q1 q2 id id' ino Hl) as [-> ->]; [rewrite E1; set_solver|rewrite E2; set_solver|]. eauto 10.
Qed.

(** A free lock and then no terminal: whoever had the lock gave it up without
    recording one. *)
Lemma lost_justified id ino l1 l2 f :
  l = l1 ++ Probed p ino false :: l2 -> Looked p id (Some ino) ∈ l1 -> Read p id f ∈ l2 -> unterminated f -> ~ pruned id l ->
  (exists q ino', Created q id ino' ∈ l1) /\
  forall q ino', Created q id ino' ∈ l1 -> Locked q ino' ∈ l1 -> Released q ino' ∈ l1 /\ forall job e, Recorded q id job e ∉ l.
Proof.
  intros E Hlk (a & b & Eb)%list_elem_of_split Hu Hp. destruct (Hl _ _ _ E) as [_ Hfree]. simpl in Hfree.
  destruct (Hl (l1 ++ Probed p ino false :: a) (Read p id f) b) as [_ Hrec]; [by rewrite E, Eb, <-app_assoc|].
  assert (Hl1 : lawful l1) by (eapply lawful_prefix; by rewrite <-E).
  assert (exists q, Created q id ino ∈ l1) as [q0 Hc0].
  { destruct (lawful_elem _ _ Hl1 Hlk) as (c & c' & -> & _ & [q Hq]). exists q. set_solver. }
  split; [by eauto|]. intros q ino' Hc Hlock.
  destruct (created_once l1 q0 q id ino ino') as [[<- <-]|Hp1]; [done..| |destruct Hp; rewrite E; by apply pruned_app].
  destruct (released_dec q0 ino l1) as [Hrel|Hrel]; [|by destruct (Hfree q0)]. split; [done|]. intros job e.
  eapply released_records_no_more; [exact E|exact Hrel|]. intros job' e' Hr.
  destruct (unterminated_right _ _ _ Hrec Hu) as [[r Hpr]|Hno]; [destruct Hp; exists r; rewrite E, Eb; set_solver|].
  apply (Hno q0 job' e'). set_solver.
Qed.

(** A record and then no lock file: the id is being pruned. *)
Lemma vanished_pruned id l1 l2 r :
  l = l1 ++ Looked p id None :: l2 -> Read p id (Some (Decoded r)) ∈ l1 -> ir_Terminal r = None -> pruned id l.
Proof.
  intros E Hrd Ht. destruct (Hl _ _ _ E) as [_ Hno]. assert (Hl1 : lawful l1) by (eapply lawful_prefix; by rewrite <-E).
  destruct (lawful_elem _ _ Hl1 Hrd) as (a & b & Ea & _ & Hrec). simpl in Hrec. rewrite Ht in Hrec. destruct Hrec as (_ & [q Hb] & _).
  assert (Hl2 : lawful a) by (eapply lawful_prefix; by rewrite <-Ea).
  destruct (lawful_elem _ _ Hl2 Hb) as (c & c' & -> & [(ino & Hc & _) _] & _).
  rewrite E. apply pruned_app, (Hno q ino). rewrite Ea. set_solver.
Qed.

Lemma evidence_justified job id st : evidence p job id st (mine p l) -> justified p job id st l.
Proof.
  intros [_ Hst]. unfold justified. destruct (is_State st).
  - destruct Hst as [_ [_ He]%elem_of_mine]. by apply absent_justified.
  - destruct Hst as (_ & ino & [_ H1]%elem_of_mine & [_ H2]%elem_of_mine). by eapply running_justified.
  - destruct Hst as (r & e & Ht & [_ He]%elem_of_mine & Hr & Hj & _).
    destruct (observed _ He eq_refl eq_refl) as (l1 & l2 & E & _ & Hs). destruct (finished_record_right _ _ _ _ Hs Hr) as [q Hq].
    exists q, e. split; [done|]. rewrite E, <-Hj. set_solver.
  - destruct (decide (pruned id l)) as [Hp|Hp]; [left; by apply pruned_expired|]. right.
    destruct Hst as (_ & [(ino & t1 & t2 & f & Hm & Hlk & Hrd & Hu)|(t1 & t2 & r & Hm & Hrd & Hu)]);
      destruct (mine_split _ _ _ _ _ Hm) as (l1 & l2 & E & <- & <-); apply elem_of_mine in Hrd as [_ Hrd].
    + apply elem_of_mine in Hlk as [_ Hlk]. exists l1. split; [by eapply started_first|]. by eapply lost_justified.
    + destruct Hp. by eapply vanished_pruned.
Qed.

(** A terminal in evidence is one that [Finish] accepted. *)
Lemma evidence_valid job id st : evidence p job id st (mine p l) -> status_Validate st job id = true.
Proof.
  intros Hev. pose proof (evidence_justified _ _ _ Hev) as Hj. destruct Hev as [Hs Hst].
  unfold status_Validate, justified in *. rewrite Hs, bool_decide_true by done. destruct (is_State st); try (by destruct Hst as [-> _]).
  destruct Hst as (r & e & Et & _ & _ & _ & Hjob & Hid & Henc), Hj as (q & e' & Et' & Hq).
  rewrite Et in Et' |- *. injection Et' as <-. rewrite Hjob, Hid, Henc.
  destruct (lawful_elem _ _ Hl Hq) as (a & b & _ & (_ & _ & -> & _) & _). by rewrite !bool_decide_true by done.
Qed.
End answers.

(** C39. Whatever else runs at the time, a status query that answers carries a
    status the reader's validation accepts, and its state is backed by what
    happened: [finished] gives a terminal event that was recorded for this job
    and invocation; [running] means that at some moment of the query the
    creator of the lock file held it; [absent] that at some moment no lock file
    had been created; [lost] that at some moment every process that had taken
    the lock had let go of it and that none of them ever recorded a terminal.
    The last two may instead be due to pruning after the retention time. *)
Theorem status_query_sound s p call ev :
  reachable s -> Started p (TaskQuery call) ∈ h_log s -> h_procs s !! p = Some (Ret (Ok ev)) ->
  let job := req_JobID (iv_request call) in let id := req_InvocationID (iv_request call) in
  exists st body, enc_status st = Some body /\ status_Validate st job id = true /\ justified p job id st (h_log s) /\
    ev = mkAEvent Version job id 0 "result" None None (Some (mkResult Succeeded (Some false) body)) None None.
Proof.
  intros Hr%reachable_lawful Hst Hp. simpl. destruct (good_procs _ _ Hr _ _ Hp) as (_ & t & tr & Hm & Hsafe).
  pose proof (good_lawful _ _ Hr) as Hl.
  assert (Started p t ∈ h_log s) as Ht by (apply (elem_of_mine p); rewrite Hm; set_solver).
  rewrite (started_once _ _ _ _ Hl Ht Hst) in Hm, Hsafe. destruct (Hsafe ev eq_refl) as (st & body & Hev & Hb & ->).
  exists st, body. split_and!; [done|by eapply evidence_valid|by eapply evidence_justified|done].
Qed.
