(* ===== verification/HostLedgerLive.v ===== *)
(** * Host actions: runs of the invocation ledger

    A process that is scheduled alone finishes; when nothing fails it records
    its terminal event and a later query reports it.  The concrete runs at the
    end show the other theorems at work, and an interleaving in which a query
    answers "lost" for an invocation that runs afterwards. *)

From Stdlib Require Import Ascii.
From S2P Require Import Prelude GoText GoJson ActionAbi JobTypes HostLedger HostLedgerLogic HostLedgerFacts.

(** ** One process alone *)

Fixpoint exec {A} (o : oracle) (p : nat) (m : prog A) (d : Directory) : A * Directory * list happening :=
  match m with
  | Ret a => (a, d, [])
  | Call c k => let '(x, d1, h1) := kernel o p c d in let '(a, d2, h2) := exec o p (k x) d1 in (a, d2, h1 ++ h2)
  end.

Lemma exec_bind {A B} o p (m : prog A) (f : A -> prog B) d a d1 h1 b d2 h2 :
  exec o p m d = (a, d1, h1) -> exec o p (f a) d1 = (b, d2, h2) -> exec o p (bindP m f) d = (b, d2, h1 ++ h2).
Proof.
  revert d a d1 h1. induction m as [a'|X c k IH]; simpl; intros d a d1 h1 Hm Hf; [by simplify_eq|].
  destruct (kernel o p c d) as [[x d0] h0]. destruct (exec o p (k x) d0) as [[a0 d0'] h0'] eqn:E. simplify_eq.
  by rewrite (IH _ _ _ _ _ E Hf), app_assoc.
Qed.

(** Taking turns alone, a process gets to its end. *)
Lemma exec_schedule o p m s a d h :
  h_procs s !! p = Some m -> exec o p m (h_dir s) = (a, d, h) ->
  exists n, schedule (repeat (Turns p o) n) s = mkHost d (<[p := Ret a]> (h_procs s)) (h_next s) (h_log s ++ h).
Proof.
  revert s a d h. induction m as [a'|X c k IH]; intros s a d h Hp He; simpl in He.
  - simplify_eq. exists 0%nat. simpl. rewrite insert_id, app_nil_r by done. by destruct s.
  - destruct (kernel o p c (h_dir s)) as [[x d1] h1] eqn:Hk. destruct (exec o p (k x) d1) as [[a2 d2] h2] eqn:E. simplify_eq.
    destruct (IH x (turn p o c k s) a d h2) as [n Hn].
    { unfold turn. rewrite Hk. simpl. by rewrite lookup_insert_eq. }
    { unfold turn. by rewrite Hk. }
    exists (S n). match goal with |- _ = ?r => change (schedule (repeat (Turns p o) n) (choose (Turns p o) s) = r) end. cbn [choose]. rewrite Hp, Hn.
    unfold turn. rewrite Hk. simpl.
    by rewrite insert_insert_eq, app_assoc.
Qed.

(** ** When nothing fails *)

Ltac ledger_step :=
  cbn [exec kernel bindP prune_names negb orb o_ok o_now o_names o_suffix o_event o_err d_locks d_inodes d_records d_temporaries d_next
       set_locks set_inodes set_records set_temporaries in_exclusive in_shared in_mtime].

Definition fits (r : invocationRecord) : Prop := exists body, enc_invocation_record r = Some body /\ slen body <= maxInvocationRecord.

Section fine.
Context (now : Z) (suffix : string) (e : AEvent).
Local Notation o := (mkOracle true now [] suffix e None).

Definition temporary_of (id : string) : string := id +:+ ".tmp-" +:+ suffix.

Lemma exec_write p r d :
  fits r -> d_temporaries d !! temporary_of (ir_InvocationID r) = None ->
  exists h, exec o p (write r) d =
    (None, mkDirectory (d_locks d) (d_inodes d) (<[ir_InvocationID r := Decoded r]> (d_records d)) (d_temporaries d) (d_next d), h).
Proof.
  intros (body & Hb & Hlen) Ht. unfold write. rewrite Hb. apply Z.ltb_ge in Hlen. rewrite Hlen.
  unfold temporary_of in Ht. simpl. rewrite Ht. simpl. unfold set_records, set_temporaries; simpl.
  rewrite delete_insert_id by done. eauto.
Qed.

Definition start_record (request : Request) (release : ReleaseIdentity) (peer : PeerIdentity) : invocationRecord :=
  mkRecord invocationRecordSchema (req_InvocationID request) (req_JobID request) (req_Action request)
    (DigestRequest (req_Parameters request)) release peer now None None.

Lemma exec_Begin p request release peer d :
  let id := req_InvocationID request in
  invocationName id = true -> req_JobID request <> "" -> fits (start_record request release peer) ->
  d_locks d !! id = None -> d_temporaries d !! temporary_of id = None ->
  exists d' h, exec o p (Begin request release peer) d =
      (Ok (mkEntry (d_next d) (start_record request release peer) false), d', h) /\
    d_temporaries d' = d_temporaries d.
Proof.
  intros id; subst id; intros Hid Hjob Hfit Hl Ht. unfold Begin. ledger_step. rewrite Hid, bool_decide_false by done. unfold prune. ledger_step.
  rewrite Hl. ledger_step. rewrite lookup_insert_eq. unfold take_lock. ledger_step. rewrite decide_True by done. ledger_step.
  match goal with |- context [exec _ _ _ ?d0] => destruct (exec_write p (start_record request release peer) d0 Hfit Ht) as [h Hw] end.
  erewrite exec_bind; [|exact Hw|reflexivity]. eauto.
Qed.

Lemma exec_Finish p entry d :
  let r := finished_record (en_record entry) now e in
  en_done entry = false -> ae_JobID e = ir_JobID r -> ae_InvocationID e = ir_InvocationID r -> terminal_type e = true -> encodes e = true ->
  fits r -> d_temporaries d !! temporary_of (ir_InvocationID r) = None ->
  exists d' h, exec o p (Finish entry e) d = (None, d', h) /\ d_records d' !! ir_InvocationID r = Some (Decoded r).
Proof.
  intros r Hd Hj Hi Ht He Hfit Htmp. unfold Finish. change (ir_JobID (en_record entry)) with (ir_JobID r).
  change (ir_InvocationID (en_record entry)) with (ir_InvocationID r). rewrite Hd.
  rewrite !bool_decide_true by done. rewrite Ht, He. ledger_step.
  destruct (exec_write p r d Hfit Htmp) as [h Hw]. erewrite exec_bind; [|exact Hw|reflexivity].
  eexists _, _. split; [reflexivity|]. simpl. apply lookup_insert_eq.
Qed.

Lemma exec_execute p call release d :
  let request := iv_request call in let id := req_InvocationID request in
  let r := start_record request release (mkPeer (vp_pid (iv_peer call)) (vp_uid (iv_peer call)) (vp_gid (iv_peer call))) in
  release_Validate release = true -> vp_verified (iv_peer call) = true -> invocationName id = true -> req_JobID request <> "" ->
  d_locks d !! id = None -> d_temporaries d !! temporary_of id = None -> fits r -> fits (finished_record r now e) ->
  ae_JobID e = req_JobID request -> ae_InvocationID e = id -> terminal_type e = true -> encodes e = true ->
  exists d' h, exec o p (executeRecorded call release) d = (Ok e, d', h) /\
    d_records d' !! id = Some (Decoded (finished_record r now e)).
Proof.
  intros request id r Hrel Hv Hid Hjob Hl Ht Hf1 Hf2 Hj Hi Htt He. unfold executeRecorded. rewrite Hrel, Hv. ledger_step.
  destruct (exec_Begin p request release (mkPeer (vp_pid (iv_peer call)) (vp_uid (iv_peer call)) (vp_gid (iv_peer call))) d)
    as (d1 & h1 & Hb & Ht1); [done..|]. fold r in Hb.
  destruct (exec_Finish p (mkEntry (d_next d) r false) d1) as (d2 & h2 & Hf & Hrec); [done..|by rewrite Ht1|].
  assert (Hty : (ae_Type e ==? "") = false).
  { apply bool_decide_eq_false. intros E. unfold terminal_type in Htt. by rewrite E in Htt. }
  assert (exists h, exec o p (executeBegun request (mkEntry (d_next d) r false)) d1 = (Ok e, d2, h)) as [h He'].
  { unfold executeBegun. ledger_step.
    destruct (LookupAction (req_Action request)) as [spec|]; [destruct (sp_Mutating spec)|];
      ledger_step; rewrite Hty; (erewrite exec_bind; [|exact Hf|reflexivity]); ledger_step; eauto. }
  eexists _, _. split; [erewrite exec_bind; [reflexivity|exact Hb|exact He']|exact Hrec].
Qed.

(** A request for the status of an invocation, as admission accepts it. *)
Definition status_call (job id : string) (call : Invocation) : Prop :=
  vp_verified (iv_peer call) = true /\ iv_used call = false /\ req_Action (iv_request call) = ActionInvocationStatus /\
  req_Parameters (iv_request call) = "{}" /\ req_JobID (iv_request call) = job /\ req_InvocationID (iv_request call) = id.

Definition status_event (job id body : string) : AEvent :=
  mkAEvent Version job id 0 "result" None None (Some (mkResult Succeeded (Some false) body)) None None.

Lemma exec_query p job id call r body d :
  status_call job id call -> invocationName id = true -> job <> "" ->
  d_records d !! id = Some (Decoded r) -> decodeInvocationRecord (Decoded r) job id = Ok r -> ir_Terminal r = Some e ->
  enc_status (mkStatus InvocationStatusSchema InvocationFinished (Some e)) = Some body ->
  exists h, exec o p (queryInvocation call) d = (Ok (status_event job id body), d, h).
Proof.
  intros (Hv & Hu & Ha & Hp & Hj & Hi) Hid Hjob Hrec Hdec Ht Henc. unfold queryInvocation. rewrite Hv, Hu, Ha, Hp, Hj, Hi.
  rewrite !bool_decide_true by done. ledger_step. unfold fileLedger_Status. ledger_step. rewrite Hid, bool_decide_false by done. ledger_step.
  unfold read. ledger_step. rewrite Hrec, Hdec. ledger_step. rewrite Ht. ledger_step. cbn [status]. ledger_step. rewrite Henc.
  eauto.
Qed.
End fine.

Lemma fits_status r e now : fits (finished_record r now e) ->
  exists body, enc_status (mkStatus InvocationStatusSchema InvocationFinished (Some e)) = Some body.
Proof.
  intros (b & Hb & _). unfold enc_invocation_record, finished_record in Hb. cbn [ir_Terminal] in Hb. unfold enc_status. cbn [is_Terminal].
  destruct (enc_event e); [eauto|done].
Qed.

Lemma start_decodes request release peer now e :
  ae_JobID e = req_JobID request -> ae_InvocationID e = req_InvocationID request -> encodes e = true ->
  let r := finished_record (start_record now request release peer) now e in
  decodeInvocationRecord (Decoded r) (req_JobID request) (req_InvocationID request) = Ok r.
Proof. intros Hj Hi He r. unfold decodeInvocationRecord, r. simpl. rewrite Hj, Hi, He, !bool_decide_true by done. done. Qed.


(** ** Concrete runs *)

Lemma choose_step c s : rtc step s (choose c s).
Proof.
  destruct c as [t|p o|p]; simpl; [apply rtc_once; constructor|..].
  - destruct (h_procs s !! p) as [[a|X c k]|] eqn:Hp; [done| |done]. apply rtc_once. by apply step_turn.
  - destruct (h_procs s !! p) as [m|] eqn:Hp; [|done]. apply rtc_once. by eapply step_die.
Qed.

Lemma schedule_steps l s : rtc step s (schedule l s).
Proof.
  unfold schedule. revert s. induction l as [|c l IH]; intros s; [done|]. simpl. etrans; [apply choose_step|apply IH].
Qed.

Definition demo_id : string := "00112233445566778899aabbccddeeff".
Definition demo_call : Invocation :=
  mkInvocation (mkRequest Version "job1" demo_id ActionStatus "{}") (mkVerifiedPeer 100 0 0 true) true.
Definition demo_query : Invocation :=
  mkInvocation (mkRequest Version "job1" demo_id ActionInvocationStatus "{}") (mkVerifiedPeer 101 0 0 true) false.
Definition demo_release : ReleaseIdentity := mkRelease "1.2.3" "0123456789abcdef0123456789abcdef01234567".
Definition demo_terminal : AEvent :=
  mkAEvent Version "job1" demo_id 0 "result" None None (Some (mkResult Succeeded (Some true) "{}")) None None.
Definition demo_oracle : oracle := mkOracle true 1700000000000000000 [] "0011223344556677" demo_terminal None.
Definition demo_execute : task := TaskExecute demo_call demo_release.

(** Two processes execute the same invocation in turn: one is refused. *)
Definition demo_replay : list choice :=
  [Begins demo_execute; Begins demo_execute] ++ flat_map (fun _ => [Turns 0 demo_oracle; Turns 1 demo_oracle]) (seq 0 40).

(** An execution to the end, then a query. *)
Definition demo_report : list choice :=
  Begins demo_execute :: repeat (Turns 0 demo_oracle) 40 ++ Begins (TaskQuery demo_query) :: repeat (Turns 1 demo_oracle) 20.

Definition ran (id : string) (h : happening) : bool := match h with Ran _ i => i ==? id | _ => false end.
Definition runs (id : string) (l : list happening) : nat := length (List.filter (ran id) l).
Definition answer (p : nat) (s : Host) : option (result herr AEvent) :=
  match h_procs s !! p with Some (Ret r) => Some r | _ => None end.

Example demo_replay_runs :
  runs demo_id (h_log (schedule demo_replay empty_host)) = 1%nat /\ answer 1 (schedule demo_replay empty_host) = Some (Err ErrDenied).
Proof. vm_compute. done. Qed.

(** ** Witnesses *)

Lemma invocation_runs_once_witness :
  reachable (schedule demo_replay empty_host) /\
  exists l1 l2, h_log (schedule demo_replay empty_host) = l1 ++ Ran 0 demo_id :: l2 /\ owns 0 demo_id l1.
Proof.
  assert (Hr : reachable (schedule demo_replay empty_host)) by apply schedule_steps.
  split; [exact Hr|]. set (l := h_log (schedule demo_replay empty_host)).
  assert (E : l = take 8 l ++ Ran 0 demo_id :: drop 9 l) by (vm_compute; reflexivity).
  exists (take 8 l), (drop 9 l). split; [exact E|]. destruct (invocation_runs_once _ Hr) as [H _]. exact (H _ _ _ _ E).
Defined.

Definition demo_answer : AEvent :=
  Eval vm_compute in match answer 1 (schedule demo_report empty_host) with Some (Ok ev) => ev | _ => demo_terminal end.

Lemma answer_procs p s r : answer p s = Some r -> h_procs s !! p = Some (Ret r).
Proof. unfold answer. destruct (h_procs s !! p) as [[r'|]|]; [by intros [= ->]|done..]. Qed.

Definition demo_reported : Host := schedule demo_report empty_host.
Lemma demo_reported_started : Started 1 (TaskQuery demo_query) ∈ h_log demo_reported.
Proof. apply (list_elem_of_lookup_2 _ 10). vm_compute. reflexivity. Qed.
Lemma demo_reported_answered : h_procs demo_reported !! 1%nat = Some (Ret (Ok demo_answer)).
Proof. apply answer_procs. vm_compute. reflexivity. Qed.

Lemma status_query_sound_witness :
  exists st body, enc_status st = Some body /\ status_Validate st "job1" demo_id = true /\
    justified 1 "job1" demo_id st (h_log demo_reported) /\ demo_answer = status_event "job1" demo_id body.
Proof.
  exact (status_query_sound demo_reported 1 demo_query demo_answer (schedule_steps demo_report empty_host)
           demo_reported_started demo_reported_answered).
Defined.

Lemma demo_fits : fits (start_record 1700000000000000000 (iv_request demo_call) demo_release (mkPeer 100 0 0)) /\
  fits (finished_record (start_record 1700000000000000000 (iv_request demo_call) demo_release (mkPeer 100 0 0)) 1700000000000000000 demo_terminal).
Proof.
  assert (H : forall r, (match enc_invocation_record r with Some body => slen body <=? maxInvocationRecord | None => false end) = true -> fits r).
  { intros r. unfold fits. destruct (enc_invocation_record r) as [body|]; [|done]. intros Hb%Z.leb_le. eauto. }
  split; apply H; vm_compute; reflexivity.
Qed.


(** ** Two interleavings *)

(** The first process has created its lock file and has not locked it yet. *)
Definition demo_created : list choice := Begins demo_execute :: repeat (Turns 0 demo_oracle) 5.
Definition demo_lost : Host := schedule (demo_created ++ Begins (TaskQuery demo_query) :: repeat (Turns 1 demo_oracle) 20) empty_host.

(** A query then answers "lost", and the invocation runs and finishes all the
    same. *)
Theorem lost_invocation_may_run :
  reachable demo_lost /\ rtc step demo_lost (schedule (repeat (Turns 0 demo_oracle) 40) demo_lost) /\
  (exists body, enc_status (mkStatus InvocationStatusSchema InvocationLost None) = Some body /\
     answer 1 demo_lost = Some (Ok (status_event "job1" demo_id body))) /\
  runs demo_id (h_log demo_lost) = 0%nat /\
  runs demo_id (h_log (schedule (repeat (Turns 0 demo_oracle) 40) demo_lost)) = 1%nat /\
  answer 0 (schedule (repeat (Turns 0 demo_oracle) 40) demo_lost) = Some (Ok demo_terminal).
Proof.
  split; [apply schedule_steps|]. split; [apply schedule_steps|]. split; [|vm_compute; done].
  eexists. split; [vm_compute; reflexivity|]. vm_compute. reflexivity.
Qed.

(** A query that holds its shared lock at that moment makes the executor give
    up, and the id is spent: a second try is refused as a replay. *)
Definition demo_disturbed : Host :=
  schedule (demo_created ++ Begins (TaskQuery demo_query) :: repeat (Turns 1 demo_oracle) 5 ++ repeat (Turns 0 demo_oracle) 20 ++
            Begins demo_execute :: repeat (Turns 2 demo_oracle) 20) empty_host.
Theorem query_may_spend_invocation :
  reachable demo_disturbed /\ runs demo_id (h_log demo_disturbed) = 0%nat /\
  answer 0 demo_disturbed = Some (Err ErrUnavailable) /\ answer 2 demo_disturbed = Some (Err ErrDenied).
Proof. split; [apply schedule_steps|]. vm_compute. done. Qed.
