(* ===== verification/GoStrings.v ===== *)
(** * Package [strings]: spaces, letter case and numbers

    [strings.TrimSpace], [strings.ToLower], [strings.ToUpper] and
    [strings.EqualFold] on UTF-8 text, [strings.ReplaceAll] of one byte, and
    [strconv.Atoi].  Case mappings of non-ASCII runes come from the tables of
    package [unicode], which are a parameter: every theorem holds for any
    tables. *)

From Stdlib Require Import Ascii.
From S2P Require Import Prelude GoText GoNet.

(** ** Spaces *)

Fixpoint trim_left (skip : nat) (s : string) : string :=
  match s with
  | EmptyString => EmptyString
  | String _ s' =>
      match skip with
      | S k => trim_left k s'
      | O => if IsSpace (fst (DecodeRune s)) then trim_left (snd (DecodeRune s) - 1) s' else s
      end
  end.

Fixpoint all_space (skip : nat) (s : string) : bool :=
  match s with
  | EmptyString => true
  | String _ s' =>
      match skip with
      | S k => all_space k s'
      | O => IsSpace (fst (DecodeRune s)) && all_space (snd (DecodeRune s) - 1) s'
      end
  end.

Fixpoint trim_right (skip : nat) (s : string) : string :=
  match s with
  | EmptyString => EmptyString
  | String a s' =>
      match skip with
      | S k => String a (trim_right k s')
      | O => if all_space 0 s then EmptyString else String a (trim_right (snd (DecodeRune s) - 1) s')
      end
  end.

Definition TrimSpace (s : string) : string := trim_right 0 (trim_left 0 s).

(** ** Letter case *)

(** The simple case mappings of runes outside ASCII, and whether two such
    runes fold to one another. *)
Class CaseTables := {
  uni_to_lower : Z -> Z;
  uni_to_upper : Z -> Z;
  uni_fold : Z -> Z -> bool
}.

Definition EncodeRune (r : Z) : string :=
  let b z := byte_chr z in
  if r <? 128 then String (b r) EmptyString
  else if r <? 2048 then String (b (192 + r / 64)) (String (b (128 + r mod 64)) EmptyString)
  else if r <? 65536 then String (b (224 + r / 4096)) (String (b (128 + r / 64 mod 64)) (String (b (128 + r mod 64)) EmptyString))
  else String (b (240 + r / 262144)) (String (b (128 + r / 4096 mod 64)) (String (b (128 + r / 64 mod 64)) (String (b (128 + r mod 64)) EmptyString))).

Definition is_ascii (c : ascii) : bool := byte_val c <? 128.
Definition map_runes (f : Z -> Z) (s : string) : string :=
  fold_right (fun r acc => EncodeRune (f r) +:+ acc) EmptyString (runes s).
Definition rune_lower `{CaseTables} (r : Z) : Z := if r <? 128 then byte_val (ascii_lower (byte_chr r)) else uni_to_lower r.
Definition rune_upper `{CaseTables} (r : Z) : Z := if r <? 128 then byte_val (ascii_upper (byte_chr r)) else uni_to_upper r.

Definition ToLower `{CaseTables} (s : string) : string :=
  if sall is_ascii s then smap ascii_lower s else map_runes rune_lower s.
Definition ToUpper `{CaseTables} (s : string) : string :=
  if sall is_ascii s then smap ascii_upper s else map_runes rune_upper s.

Definition fold_eq `{CaseTables} (a b : Z) : bool :=
  (a =? b) || (if (a <? 128) && (b <? 128) then byte_val (ascii_lower (byte_chr a)) =? byte_val (ascii_lower (byte_chr b)) else uni_fold a b).
Fixpoint all2 {A} (f : A -> A -> bool) (l1 l2 : list A) : bool :=
  match l1, l2 with
  | [], [] => true
  | a :: l1', b :: l2' => f a b && all2 f l1' l2'
  | _, _ => false
  end.
Definition EqualFold `{CaseTables} (s t : string) : bool := all2 fold_eq (runes s) (runes t).

(** [strings.ReplaceAll] of one byte by another. *)
Definition ReplaceByte (a b : ascii) (s : string) : string := smap (fun c => if c ==? a then b else c) s.
Definition dash_to_underscore : string -> string := ReplaceByte "-" "_".
Definition TrimPrefix (s p : string) : string := match CutPrefix s p with Some r => r | None => s end.

(** ** [strconv.Atoi] on a 64-bit platform *)

Definition Atoi (s : string) : option Z :=
  let magnitude t := if is_empty t || negb (sall is_digit t) then None else Some (decimal_from 0 t) in
  let bounded z := if (- 2 ^ 63 <=? z) && (z <=? 2 ^ 63 - 1) then Some z else None in
  match s with
  | String "-" t => match magnitude t with Some n => bounded (- n) | None => None end
  | String "+" t => match magnitude t with Some n => bounded n | None => None end
  | _ => match magnitude s with Some n => bounded n | None => None end
  end.

(** [envKeyPattern] and [configParameterNamePattern]. *)
Definition env_key_byte (c : ascii) : bool := is_upper c || is_digit c || (c ==? "_"%char).
Definition isEnvKey (s : string) : bool :=
  match s with EmptyString => false | String c s' => (is_upper c || (c ==? "_"%char)) && sall env_key_byte s' end.
Definition isConfigParameterName (s : string) : bool :=
  match s with EmptyString => false | String c s' => is_lower c && sall (fun c => is_lower c || is_digit c || (c ==? "_"%char)) s' end.

(** ** Trimming twice is trimming once *)

Lemma DecodeRune_prefix a t u :
  (snd (DecodeRune (String a (t +:+ u))) <= S (String.length t))%nat -> DecodeRune (String a t) = DecodeRune (String a (t +:+ u)).
Proof.
  destruct t as [|b [|c [|d t]]]; [destruct u as [|b [|c [|d u]]]|destruct u as [|c [|d u]]|destruct u as [|d u]|]; simpl; try done;
    repeat case_match; simpl; try done; try lia.
Qed.

Lemma DecodeRune_width a s : (1 <= snd (DecodeRune (String a s)) <= S (String.length s))%nat.
Proof. destruct s as [|b [|c [|d s]]]; simpl; repeat case_match; simpl; lia. Qed.

Lemma sapp_nil_r (s : string) : s +:+ EmptyString = s.
Proof. induction s as [|a s IH]; [done|]. by rewrite <-IH at 2. Qed.

Lemma trim_right_prefix skip s : exists u, s = trim_right skip s +:+ u /\ (Nat.min skip (String.length s) <= String.length (trim_right skip s))%nat.
Proof.
  revert skip. induction s as [|a s IH]; intros [|k]; cbn [trim_right]; try (exists EmptyString; split; [done|simpl; lia]).
  - destruct (all_space 0 (String a s)); [by exists (String a s); split; [|simpl; lia]|].
    destruct (IH (snd (DecodeRune (String a s)) - 1)%nat) as (u & Hu & _). exists u. split; [exact (f_equal (String a) Hu)|cbn [String.length]; lia].
  - destruct (IH k) as (u & Hu & Hl). exists u. split; [exact (f_equal (String a) Hu)|cbn [String.length]; lia].
Qed.

(** Cutting spaces off the end does not change the first rune. *)
Lemma trim_right_decode a s :
  DecodeRune (String a (trim_right (snd (DecodeRune (String a s)) - 1) s)) = DecodeRune (String a s).
Proof.
  pose proof (DecodeRune_width a s) as Hw. set (k := (snd (DecodeRune (String a s)) - 1)%nat) in *.
  destruct (trim_right_prefix k s) as (u & Hu & Hl). rewrite Hu at 2. apply DecodeRune_prefix. rewrite <-Hu. fold k. lia.
Qed.

Lemma all_space_trim skip s : all_space skip (trim_right skip s) = all_space skip s.
Proof.
  revert skip. induction s as [|a s IH]; intros [|k]; cbn [trim_right]; try done; [|by cbn [all_space]; rewrite IH].
  destruct (all_space 0 (String a s)) eqn:E; [done|]. cbn [all_space] in *. by rewrite trim_right_decode, IH.
Qed.

Lemma trim_right_idem skip s : trim_right skip (trim_right skip s) = trim_right skip s.
Proof.
  revert skip. induction s as [|a s IH]; intros [|k]; try done; [|by cbn [trim_right]; rewrite IH].
  destruct (all_space 0 (String a s)) eqn:E; [by cbn [trim_right]; rewrite E|].
  set (w := (snd (DecodeRune (String a s)) - 1)%nat).
  assert (Et : trim_right 0 (String a s) = String a (trim_right w s)) by (cbn [trim_right]; by rewrite E).
  rewrite Et. pose proof (all_space_trim 0 (String a s)) as Ht. rewrite Et, E in Ht.
  cbn [trim_right]. rewrite Ht. unfold w at 1. rewrite trim_right_decode. fold w. by rewrite IH.
Qed.

Lemma trim_left_head skip s : match trim_left skip s with EmptyString => True | String _ _ as u => IsSpace (fst (DecodeRune u)) = false end.
Proof.
  revert skip. induction s as [|a s IH]; intros [|k]; cbn [trim_left]; try done; [|apply IH].
  destruct (IsSpace (fst (DecodeRune (String a s)))) eqn:E; [apply IH|done].
Qed.

Lemma TrimSpace_idem s : TrimSpace (TrimSpace s) = TrimSpace s.
Proof.
  unfold TrimSpace. pose proof (trim_left_head 0 s) as Hh. destruct (trim_left 0 s) as [|a u]; [done|].
  assert (trim_left 0 (trim_right 0 (String a u)) = trim_right 0 (String a u)) as ->; [|apply trim_right_idem].
  cbn [trim_right]. destruct (all_space 0 (String a u)); [done|]. cbn [trim_left]. by rewrite trim_right_decode, Hh.
Qed.
