(* ===== verification/ConfigSchema.v ===== *)
(** * Configuration parameters: declarations and values

    Package [internal/configschema] and the normalisers of package
    [internal/localization] it uses.  [NormalizeDefinition] checks a parameter
    declaration, [Normalize] checks a value against it and returns the canonical
    spelling.  The regular expression compiler, the time zone database, the
    BCP 47 parser of [x/text] and the YAML decoder are operations of the class
    [SchemaLibs]; JSON texts are those of [GoJson]. *)

From Stdlib Require Import Ascii.
From S2P Require Import Prelude GoText GoNet GoJson GoStrings.

Class SchemaLibs := {
  (** [regexp.Compile] and the [MatchString] of what it returns *)
  regexp_Compile : string -> option (string -> bool);
  (** [language.Parse] and the [String] of the tag *)
  language_Parse : string -> option string;
  (** [time.LoadLocation] succeeds *)
  time_LoadLocation : string -> bool;
  (** [yaml.Unmarshal] into a [map[string]any]: an error, a nil map, a map *)
  yaml_object : Type;
  yaml_Unmarshal : string -> option (option yaml_object);
  (** [json.Marshal] of such a map *)
  json_Marshal : yaml_object -> option string
}.

(** ** Package localization *)

Inductive localizationError :=
| InvalidTag (field value : string)
| TimezoneNotName (value : string)
| InvalidTimezone (value : string).

(** [value[:cut]] at the first occurrence of a byte, the whole value when there
    is none. *)
Definition before_byte (c : ascii) (s : string) : string := match CutAt c s with Some (x, _) => x | None => s end.

Definition cleanPOSIXLocale (value : string) : string := before_byte "@" (before_byte "." (TrimSpace value)).

Section Localization.
Context `{SchemaLibs, CaseTables}.

Definition isCLocale (value : string) : bool :=
  let value := ToUpper (cleanPOSIXLocale value) in (value ==? "C") || (value ==? "POSIX").

Definition normalizeTag (value field : string) : result localizationError string :=
  let value := cleanPOSIXLocale value in
  if value ==? "" then Ok ""
  else if isCLocale value then Ok "en-US"
  else match language_Parse (ReplaceByte "_" "-" value) with
       | None => Err (InvalidTag field value)
       | Some tag => Ok tag
       end.

Definition NormalizeLanguage (value : string) := normalizeTag value "language".
Definition NormalizeLocale (value : string) := normalizeTag value "locale".

(** [filepath.IsAbs] on the platforms the launcher runs on. *)
Definition filepath_IsAbs (s : string) : bool := HasPrefix s "/".

Definition ValidateTimezone (value : string) : result localizationError string :=
  let value := TrimSpace (TrimPrefix value ":") in
  if value ==? "" then Ok ""
  else
    reject (value ==? "Local") || filepath_IsAbs value || Contains value ".." with TimezoneNotName value ;;
    reject negb (time_LoadLocation value) with InvalidTimezone value ;;
    Ok value.
End Localization.

(** ** Declarations *)

Definition DefaultSourceHost : string := "host".
Definition DefaultSourceRuntime : string := "runtime".
Definition DefaultSourceInherited : string := "inherited".
Definition DefaultSourceGenerated : string := "generated".
Definition defaultSources : list string := [DefaultSourceHost; DefaultSourceRuntime; DefaultSourceInherited; DefaultSourceGenerated].

Definition FormatIANATimezone : string := "iana_timezone".
Definition FormatLanguageTag : string := "language_tag".
Definition FormatLocale : string := "locale".
Definition FormatIPv4 : string := "ipv4".
Definition FormatDNSName : string := "dns_name".
Definition FormatJSONObject : string := "json_object".

Definition SupportedDefaultSources : list string := SortStrings defaultSources.

Record Constraints := mkConstraints {
  c_Minimum : option Z;
  c_Maximum : option Z;
  c_MinLength : option Z;
  c_MaxLength : option Z;
  c_Pattern : string;
  c_Format : string
}.

(** [Enum] is [None] when the field is the nil slice. *)
Record SchemaParameter := mkParameter {
  p_Kind : string;
  p_Enum : option (list string);
  p_Constraints : Constraints;
  p_DefaultSource : string
}.
Definition p_enum_values (p : SchemaParameter) : list string := default [] (p_Enum p).

Inductive schemaError :=
(* declarations *)
| DuplicateEnum (value : string)
| EmptyEnum
| KindWithEnum (kind : string)
| UnknownDefaultSource (source : string)
| UntypedConstraints
| StringWithRange
| IntConstraints
| MinimumExceedsMaximum
| BoolConstraints
| EnumConstraints
| UnknownType (kind : string)
| NegativeMinLength
| NegativeMaxLength
| MinLengthExceedsMax
| BadPattern (pattern : string)
| UnknownFormat (format : string)
(* values *)
| InvalidDefinition (e : schemaError)
| NotBool (value : string)
| NotInt (value : string)
| BelowMinimum (value : string)
| AboveMaximum (value : string)
| AmbiguousEnum
| NotInEnum (value : string)
| UnsupportedType (kind : string)
| TooShort
| TooLong
| PatternMismatch (pattern : string)
| NotIPv4 (value : string)
| DNSTooLong
| DNSIsAddress (value : string)
| DNSEmptyLabel
| DNSLabelTooLong (label : string)
| DNSLabelHyphen (label : string)
| DNSLabelByte (label : string)
| NotJSONObject
| JSONMarshal
| Localization (e : localizationError).

Definition is_nil {A} (l : list A) : bool := match l with [] => true | _ => false end.
Definition is_None_b {A} (o : option A) : bool := match o with None => true | Some _ => false end.

Definition Constraints_empty (c : Constraints) : bool :=
  is_None_b (c_Minimum c) && is_None_b (c_Maximum c) && is_None_b (c_MinLength c) && is_None_b (c_MaxLength c) &&
  (c_Pattern c ==? "") && (TrimSpace (c_Format c) ==? "").

Definition Declared (p : SchemaParameter) : bool := (TrimSpace (p_Kind p) !=? "") || negb (is_nil (p_enum_values p)).

(** [*a > *b] when both bounds are declared. *)
Definition bound_exceeds (a b : option Z) : bool := match a, b with Some a, Some b => b <? a | _, _ => false end.
Definition bound_negative (a : option Z) : bool := match a with Some a => a <? 0 | None => false end.

(** The loop that trims the declared enum values and refuses a repetition. *)
Fixpoint enum_values (seen : list string) (l : list string) : result schemaError (list string) :=
  match l with
  | [] => Ok []
  | value :: l' =>
      let value := TrimSpace value in
      if value ==? "" then enum_values seen l'
      else
        reject bool_decide (value ∈ seen) with DuplicateEnum value ;;
        let? rest := enum_values (value :: seen) l' in Ok (value :: rest)
  end.

Section Schema.
Context `{SchemaLibs, CaseTables}.

(** ** Formats *)

(** [netip.ParseAddr] succeeds. *)
Definition ParseAddr_ok (s : string) : bool :=
  match first_mark s with
  | Some "."%char => negb (is_None_b (parse_dotted s))
  | _ => bracketed_address s
  end.

Definition normalizeIPv4 (value : string) : result schemaError string :=
  let t := TrimSpace value in
  match (if bool_decide (first_mark t = Some "."%char) then parse_dotted t else None) with
  | Some (a, b, c, d) => Ok (print_dotted a b c d)
  | None => Err (NotIPv4 value)
  end.

Definition looksLikeIPv4Name (value : string) : bool :=
  let parts := SplitAt "." value in
  (length parts =? 4)%nat &&
  forallb (fun part =>
    negb (is_empty part) && sall is_digit part &&
    match Atoi part with Some n => negb (255 <? n) | None => false end) parts.

(** The runes a label may hold are ASCII, and a byte outside ASCII is part of a
    rune outside them. *)
Definition dns_byte (c : ascii) : bool := is_lower c || is_digit c || (c ==? "-"%char).

Definition check_dns_label (label : string) : result schemaError unit :=
  reject label ==? "" with DNSEmptyLabel ;;
  reject 63 <? slen label with DNSLabelTooLong label ;;
  reject HasPrefix label "-" || HasSuffix label "-" with DNSLabelHyphen label ;;
  reject negb (sall dns_byte label) with DNSLabelByte label ;;
  Ok tt.

Definition normalizeDNSName (value : string) : result schemaError string :=
  let name := TrimSuffix (ToLower (TrimSpace value)) "." in
  if name ==? "" then Ok ""
  else
    reject 253 <? slen name with DNSTooLong ;;
    reject ParseAddr_ok name with DNSIsAddress value ;;
    reject looksLikeIPv4Name name with DNSIsAddress value ;;
    do! check_all check_dns_label (SplitAt "." name) ;;
    Ok name.

Definition json_Valid (s : string) : bool := negb (is_None_b (parse s)).

Definition normalizeJSONObject (value : string) : result schemaError string :=
  if TrimSpace value ==? "" then Ok ""
  else if negb (json_Valid value) then Err NotJSONObject
  else match yaml_Unmarshal value with
       | None | Some None => Err NotJSONObject
       | Some (Some object) => match json_Marshal object with Some body => Ok body | None => Err JSONMarshal end
       end.

(** The closed table of formats. *)
Definition formats (name : string) : option (string -> result schemaError string) :=
  if name ==? FormatIANATimezone then Some (fun v => map_err Localization (ValidateTimezone v))
  else if name ==? FormatLanguageTag then Some (fun v => map_err Localization (NormalizeLanguage v))
  else if name ==? FormatLocale then Some (fun v => map_err Localization (NormalizeLocale v))
  else if name ==? FormatIPv4 then Some normalizeIPv4
  else if name ==? FormatDNSName then Some normalizeDNSName
  else if name ==? FormatJSONObject then Some normalizeJSONObject
  else None.

(** ** Checking a declaration *)

Definition validateStringConstraints (c : Constraints) : result schemaError unit :=
  reject bound_negative (c_MinLength c) with NegativeMinLength ;;
  reject bound_negative (c_MaxLength c) with NegativeMaxLength ;;
  reject bound_exceeds (c_MinLength c) (c_MaxLength c) with MinLengthExceedsMax ;;
  reject (c_Pattern c !=? "") && is_None_b (regexp_Compile (c_Pattern c)) with BadPattern (c_Pattern c) ;;
  reject (c_Format c !=? "") && is_None_b (formats (c_Format c)) with UnknownFormat (c_Format c) ;;
  Ok tt.

(** The switch on the kind. *)
Definition check_kind (p : SchemaParameter) : result schemaError unit :=
  let c := p_Constraints p in
  if p_Kind p ==? "string" then
    reject negb (is_None_b (c_Minimum c)) || negb (is_None_b (c_Maximum c)) with StringWithRange ;;
    validateStringConstraints c
  else if p_Kind p ==? "int" then
    reject negb (is_None_b (c_MinLength c)) || negb (is_None_b (c_MaxLength c)) || (c_Pattern c !=? "") || (c_Format c !=? "")
      with IntConstraints ;;
    reject bound_exceeds (c_Minimum c) (c_Maximum c) with MinimumExceedsMaximum ;;
    Ok tt
  else if p_Kind p ==? "bool" then
    reject negb (Constraints_empty c) with BoolConstraints ;; Ok tt
  else if p_Kind p ==? "enum" then
    reject is_nil (p_enum_values p) with EmptyEnum ;;
    reject negb (Constraints_empty c) with EnumConstraints ;; Ok tt
  else Err (UnknownType (p_Kind p)).

Definition with_format (f : string) (c : Constraints) : Constraints :=
  mkConstraints (c_Minimum c) (c_Maximum c) (c_MinLength c) (c_MaxLength c) (c_Pattern c) f.

Definition NormalizeDefinition (p : SchemaParameter) : result schemaError SchemaParameter :=
  let kind := ToLower (TrimSpace (p_Kind p)) in
  let source := ToLower (TrimSpace (p_DefaultSource p)) in
  let c := with_format (ToLower (TrimSpace (c_Format (p_Constraints p)))) (p_Constraints p) in
  let? enum :=
    match p_Enum p with
    | None => Ok None
    | Some l => let? vs := enum_values [] l in reject is_nil vs with EmptyEnum ;; Ok (Some vs)
    end in
  let? kind :=
    match enum with
    | None => Ok kind
    | Some _ => if kind ==? "" then Ok "enum" else reject kind !=? "enum" with KindWithEnum kind ;; Ok kind
    end in
  let p := mkParameter kind enum c source in
  reject (source !=? "") && negb (bool_decide (source ∈ defaultSources)) with UnknownDefaultSource source ;;
  if kind ==? "" then
    reject negb (Constraints_empty c) || (source !=? "") with UntypedConstraints ;; Ok p
  else do! check_kind p ;; Ok p.

(** ** Checking a value *)

Definition validateNormalizedString (value : string) (c : Constraints) : result schemaError unit :=
  let length := Z.of_nat (length (runes value)) in
  reject match c_MinLength c with Some n => length <? n | None => false end with TooShort ;;
  reject match c_MaxLength c with Some n => n <? length | None => false end with TooLong ;;
  if c_Pattern c ==? "" then Ok tt
  else match regexp_Compile (c_Pattern c) with
       | None => Err (InvalidDefinition (BadPattern (c_Pattern c)))
       | Some matches => reject negb (matches value) with PatternMismatch (c_Pattern c) ;; Ok tt
       end.

(** The loop over the enum values that compares them without case: [matched]
    is "" until one matches. *)
Fixpoint enum_fold (trimmed matched : string) (l : list string) : result schemaError string :=
  match l with
  | [] => Ok matched
  | allowed :: l' =>
      if EqualFold trimmed allowed then
        reject (matched !=? "") && (matched !=? allowed) with AmbiguousEnum ;;
        enum_fold trimmed allowed l'
      else enum_fold trimmed matched l'
  end.

Definition normalize_string (p : SchemaParameter) (value : string) : result schemaError string :=
  let c := p_Constraints p in
  let? normalized :=
    if c_Format c ==? "" then Ok value
    else match formats (c_Format c) with Some f => f value | None => Err (UnknownFormat (c_Format c)) end in
  do! validateNormalizedString normalized c ;; Ok normalized.

Definition normalize_bool (trimmed value : string) : result schemaError string :=
  if ToLower trimmed ==? "true" then Ok "true"
  else if ToLower trimmed ==? "false" then Ok "false"
  else Err (NotBool value).

Definition normalize_int (c : Constraints) (trimmed value : string) : result schemaError string :=
  match Atoi trimmed with
  | None => Err (NotInt value)
  | Some n =>
      reject match c_Minimum c with Some m => n <? m | None => false end with BelowMinimum value ;;
      reject match c_Maximum c with Some m => m <? n | None => false end with AboveMaximum value ;;
      Ok trimmed
  end.

Definition normalize_enum (enum : list string) (trimmed value : string) : result schemaError string :=
  if bool_decide (trimmed ∈ enum) then Ok trimmed
  else
    let? matched := enum_fold trimmed "" enum in
    if matched ==? "" then Err (NotInEnum value) else Ok matched.

Definition Normalize (p : SchemaParameter) (value : string) : result schemaError string :=
  let? p := map_err InvalidDefinition (NormalizeDefinition p) in
  if negb (Declared p) then Ok value
  else
    let trimmed := TrimSpace value in
    if (trimmed ==? "") && ((p_Kind p !=? "string") || (p_DefaultSource p !=? "")) then Ok ""
    else if p_Kind p ==? "string" then normalize_string p value
    else if p_Kind p ==? "bool" then normalize_bool trimmed value
    else if p_Kind p ==? "int" then normalize_int (p_Constraints p) trimmed value
    else if p_Kind p ==? "enum" then normalize_enum (p_enum_values p) trimmed value
    else Err (UnsupportedType (p_Kind p)).

Definition Validate (p : SchemaParameter) (value : string) : result schemaError unit := do! Normalize p value ;; Ok tt.
End Schema.
