(* ===== verification/ConfigSchemaFacts.v ===== *)
(** * Configuration parameters: what a normalised value is

    [conforms] says, without reference to the code, which values a declaration
    admits.  Every value [Normalize] returns conforms to the declaration, and
    normalising it again changes nothing. *)

From Stdlib Require Import Ascii.
From S2P Require Import Prelude GoText GoNet GoJson GoStrings ConfigSchema AuthFilesFacts.

(** ** Bytes and strings *)

Definition plain_byte (c : ascii) : bool := is_ascii c && negb (IsSpace (byte_val c)).
Definition lower_byte (c : ascii) : bool := is_ascii c && negb (is_upper c).

Lemma sall_weaken p q s : (forall c, p c = true -> q c = true) -> sall p s = true -> sall q s = true.
Proof. intros Hpq. induction s as [|a s IH]; cbn; [done|]. rewrite !andb_true_iff. naive_solver. Qed.

Lemma DecodeRune_ascii a s : is_ascii a = true -> DecodeRune (String a s) = (byte_val a, 1%nat).
Proof. unfold is_ascii. intros Ha. cbn [DecodeRune]. by rewrite Ha. Qed.

Lemma TrimSpace_plain s : sall plain_byte s = true -> TrimSpace s = s.
Proof.
  intros Hs. unfold TrimSpace.
  assert (trim_right 0 s = s) as Hr.
  { induction s as [|a s IH]; [done|]. cbn [sall] in Hs. apply andb_true_iff in Hs as [Ha Hs].
    apply andb_true_iff in Ha as [Ha Hsp]. apply negb_true_iff in Hsp. cbn [trim_right all_space].
    rewrite DecodeRune_ascii by done. cbn. rewrite Hsp. cbn. f_equal. by apply IH. }
  assert (trim_left 0 s = s) as ->; [|exact Hr].
  destruct s as [|a s]; [done|]. cbn [sall] in Hs. apply andb_true_iff in Hs as [Ha _].
  apply andb_true_iff in Ha as [Ha Hsp]. apply negb_true_iff in Hsp. cbn [trim_left].
  rewrite DecodeRune_ascii by done. cbn. by rewrite Hsp.
Qed.

Lemma ToLower_plain `{CaseTables} s : sall lower_byte s = true -> ToLower s = s.
Proof.
  intros Hs. unfold ToLower. rewrite (sall_weaken lower_byte is_ascii s) by (done || (unfold lower_byte; intros c; rewrite andb_true_iff; tauto)).
  induction s as [|a s IH]; [done|]. cbn in *. apply andb_true_iff in Hs as [[_ Hu]%andb_true_iff Hs].
  unfold ascii_lower. apply negb_true_iff in Hu. rewrite Hu. f_equal. by apply IH.
Qed.

Lemma CutAt_lacks c s : sall (lacks c) s = true -> CutAt c s = None.
Proof.
  induction s as [|a s IH]; [done|]. cbn. unfold lacks at 1. intros [H1 H2]%andb_true_iff.
  apply negb_true_iff in H1. by rewrite H1, IH.
Qed.

Lemma ReplaceByte_lacks a b s : sall (lacks a) s = true -> ReplaceByte a b s = s.
Proof.
  induction s as [|x s IH]; [done|]. cbn. unfold lacks at 1. intros [H1 H2]%andb_true_iff.
  apply negb_true_iff in H1. rewrite H1. f_equal. by apply IH.
Qed.

Lemma SplitAt_sall p c s : Forall (fun x => sall p x = true) (SplitAt c s) -> sall (fun a => p a || (a ==? c)) s = true.
Proof.
  induction s as [|a s IH]; [done|]. cbn. case_bool_decide as Ha.
  - intros [_ Hf]%Forall_cons. rewrite orb_true_r. by apply IH.
  - destruct (SplitAt c s) as [|x l]; intros [Hx Hf]%Forall_cons; cbn in Hx; apply andb_true_iff in Hx as [Hx1 Hx2];
      rewrite Hx1; cbn; apply IH; [done|by constructor].
Qed.

Lemma SplitAt_nonempty c s : SplitAt c s <> [].
Proof. destruct s as [|a s]; [done|]. cbn. case_bool_decide; [done|]. by destruct (SplitAt c s). Qed.

Lemma SplitAt_suffix c s : HasSuffix s (String c EmptyString) = true -> exists l, l <> [] /\ SplitAt c s = l ++ [EmptyString].
Proof.
  unfold HasSuffix. cbn [String.length]. induction s as [|a s IH]; [by cbn|]. intros [_ Hd]%andb_true_iff.
  destruct s as [|b s].
  - cbn in Hd. apply bool_decide_eq_true in Hd. injection Hd as ->. cbn. rewrite bool_decide_eq_true_2 by done. by exists [EmptyString].
  - destruct IH as (l & Hl & E).
    + apply andb_true_iff. split; [apply Z.leb_le; unfold slen; cbn [String.length]; lia|]. cbn in Hd |- *. by rewrite Nat.sub_0_r.
    + set (t := String b s) in *. cbn [SplitAt]. rewrite E. destruct (a ==? c); [exists (EmptyString :: l); split; [discriminate|reflexivity]|].
      destruct l as [|x l]; [done|]. exists (String a x :: l). split; [discriminate|reflexivity].
Qed.

Lemma TrimSuffix_none s suf : HasSuffix s suf = false -> TrimSuffix s suf = s.
Proof. unfold TrimSuffix. by intros ->. Qed.

(** ** Dotted addresses *)

Definition is_octet (n : Z) : Prop := 0 <= n <= 255.

Lemma decimal_from_nonneg s acc : sall is_digit s = true -> 0 <= acc -> 0 <= decimal_from acc s.
Proof.
  revert acc. induction s as [|a s IH]; intros acc Hs Ha; [done|]. cbn in *. apply andb_true_iff in Hs as [Hd Hs].
  apply IH; [done|]. unfold is_digit, between in Hd. unfold digit_val. breflect_in Hd. lia.
Qed.

Lemma parse_octet_range s n : parse_octet s = Some n -> is_octet n.
Proof.
  unfold parse_octet, decimal, is_octet. repeat case_match; try done. intros [= <-]. breflect. simplify_eq.
  split; [apply decimal_from_nonneg; [tauto|lia]|lia].
Qed.

Definition octets : list Z := map Z.of_nat (seq 0 256).
Lemma elem_of_octets n : is_octet n -> n ∈ octets.
Proof. intros Hn. apply list_elem_of_In, in_map_iff. exists (Z.to_nat n). unfold is_octet in Hn. split; [lia|]. apply in_seq. lia. Qed.

Lemma print_octet_facts n : is_octet n -> parse_octet (print_octet n) = Some n /\ sall is_digit (print_octet n) = true.
Proof.
  intros Hn%elem_of_octets. revert n Hn. apply Forall_forall.
  assert (forallb (fun n => bool_decide (parse_octet (print_octet n) = Some n) && sall is_digit (print_octet n)) octets = true) as H by by vm_compute.
  apply Forall_forall. intros n Hn. rewrite forallb_forall in H. apply list_elem_of_In in Hn. specialize (H n Hn). by breflect.
Qed.

Lemma print_dotted_facts a b c d :
  is_octet a -> is_octet b -> is_octet c -> is_octet d ->
  parse_dotted (print_dotted a b c d) = Some (a, b, c, d) /\ first_mark (print_dotted a b c d) = Some "."%char /\
  sall plain_byte (print_dotted a b c d) = true.
Proof.
  intros [Ea Da]%print_octet_facts [Eb Db]%print_octet_facts [Ec Dc]%print_octet_facts [Ed Dd]%print_octet_facts.
  assert (forall s, sall is_digit s = true -> sall (lacks "."%char) s = true) as Hdot.
  { intros s. apply sall_weaken. intros x Hx. unfold lacks. case_bool_decide; [by subst|done]. }
  assert (forall x, is_digit x = true -> plain_byte x = true) as Hplain.
  { intros x. unfold is_digit, between, plain_byte, is_ascii, IsSpace. intros Hx. breflect_in Hx. breflect. lia. }
  unfold print_dotted. split_and!.
  - unfold parse_dotted. assert (forall x, "." +:+ x = String "." x) as Hs by done. rewrite !Hs.
    rewrite !SplitAt_app by auto. rewrite SplitAt_lacks by auto. by rewrite Ea, Eb, Ec, Ed.
  - clear -Da. induction (print_octet a) as [|x s IH]; [done|]. cbn in Da. apply andb_true_iff in Da as [Dx Da].
    change (first_mark (String x (s +:+ "." +:+ print_octet b +:+ "." +:+ print_octet c +:+ "." +:+ print_octet d)) = Some "."%char).
    cbn [first_mark]. rewrite !bool_decide_eq_false_2 by (intros ->; by vm_compute in Dx). by apply IH.
  - rewrite !sall_app. do 4 (rewrite (sall_weaken is_digit plain_byte (print_octet _)) by done). reflexivity.
Qed.

(** ** What a declaration admits *)

Definition within (lo hi : option Z) (n : Z) : Prop :=
  (forall m, lo = Some m -> m <= n) /\ (forall m, hi = Some m -> n <= m).

Definition dns_label (l : string) : Prop :=
  1 <= slen l <= 63 /\ HasPrefix l "-" = false /\ HasSuffix l "-" = false /\ sall dns_byte l = true.

Definition dns_name (v : string) : Prop :=
  slen v <= 253 /\ Forall dns_label (SplitAt "." v) /\ ParseAddr_ok v = false /\ looksLikeIPv4Name v = false.

Section Conforms.
Context `{SchemaLibs}.

Definition format_conforms (format v : string) : Prop :=
  (format = FormatIPv4 -> exists a b c d, is_octet a /\ is_octet b /\ is_octet c /\ is_octet d /\ v = print_dotted a b c d) /\
  (format = FormatDNSName -> v = "" \/ dns_name v) /\
  (format = FormatIANATimezone -> v = "" \/ time_LoadLocation v = true /\ v <> "Local" /\ HasPrefix v "/" = false /\ Contains v ".." = false) /\
  (format = FormatLanguageTag \/ format = FormatLocale -> v = "" \/ v = "en-US" \/ exists s, language_Parse s = Some v) /\
  (format = FormatJSONObject -> v = "" \/ exists s o, json_Valid s = true /\ yaml_Unmarshal s = Some (Some o) /\ json_Marshal o = Some v).

(** The text rules: length in runes, pattern, format. *)
Definition string_conforms (c : Constraints) (v : string) : Prop :=
  within (c_MinLength c) (c_MaxLength c) (Z.of_nat (length (runes v))) /\
  (c_Pattern c <> "" -> exists matches, regexp_Compile (c_Pattern c) = Some matches /\ matches v = true) /\
  format_conforms (c_Format c) v.

Definition int_conforms (c : Constraints) (v : string) : Prop :=
  exists n, Atoi v = Some n /\ - 2 ^ 63 <= n <= 2 ^ 63 - 1 /\ within (c_Minimum c) (c_Maximum c) n.

(** The value of a declared parameter: unset, or of the declared type. *)
Definition conforms (p : SchemaParameter) (v : string) : Prop :=
  (v = "" /\ (p_Kind p <> "string" \/ p_DefaultSource p <> "")) \/
  (p_Kind p = "string" /\ string_conforms (p_Constraints p) v /\ 
    (p_DefaultSource p <> "" -> c_Format (p_Constraints p) = "" -> TrimSpace v <> "")) \/
  (p_Kind p = "bool" /\ (v = "true" \/ v = "false")) \/
  (p_Kind p = "int" /\ int_conforms (p_Constraints p) v) \/
  (p_Kind p = "enum" /\ v ∈ p_enum_values p).
End Conforms.

(** What the two name databases are relied on for: a tag prints as letters,
    digits and hyphens and parses to itself, "C" and "POSIX" are not tags, and
    zone names are letters, digits and "/_+-". *)
Definition tag_byte (c : ascii) : bool := alnum_byte c || (c ==? "-"%char).
Definition zone_byte (c : ascii) : bool := alnum_byte c || one_of_bytes "/_+-" c.

Class SchemaLaws `{SchemaLibs} := {
  language_canonical s t : language_Parse s = Some t -> language_Parse t = Some t;
  language_bytes s t : language_Parse s = Some t -> t <> "" /\ sall tag_byte t = true;
  language_not_c s t : language_Parse s = Some t -> smap ascii_upper t <> "C" /\ smap ascii_upper t <> "POSIX";
  language_en_US : language_Parse "en-US" = Some "en-US";
  zone_names s : time_LoadLocation s = true -> sall zone_byte s = true
}.

(** Decide a fact about a single byte by running through all of them. *)
Lemma all_bytes (p : ascii -> bool) : forallb p (map ascii_of_nat (seq 0 256)) = true -> forall c, p c = true.
Proof.
  intros H c. rewrite forallb_forall in H. apply H, in_map_iff. exists (nat_of_ascii c). rewrite ascii_nat_embedding.
  split; [done|]. apply in_seq. pose proof (nat_ascii_bounded c). lia.
Qed.
Lemma byte_implies (p q : ascii -> bool) :
  forallb (fun c => implb (p c) (q c)) (map ascii_of_nat (seq 0 256)) = true -> forall c, p c = true -> q c = true.
Proof. intros H c Hp. pose proof (all_bytes _ H c) as Hc. cbn in Hc. by rewrite Hp in Hc. Qed.

Ltac bytes := apply byte_implies; vm_compute; reflexivity.

Section Facts.
Context `{SL : SchemaLibs, CT : CaseTables, LW : !SchemaLaws}.

(** *** Enum values *)

Lemma enum_values_ok seen l vs :
  enum_values seen l = Ok vs -> Forall (fun v => v <> "" /\ TrimSpace v = v) vs /\ NoDup vs /\ (forall v, v ∈ vs -> v ∉ seen).
Proof.
  revert seen vs. induction l as [|x l IH]; intros seen vs H; cbn in H; [injection H as <-; split_and!; [constructor|constructor|by intros v Hv%elem_of_nil]|].
  destruct (TrimSpace x ==? "") eqn:Ex; [by apply (IH seen)|]. ok_path H. subst. breflect. apply IH in E0 as (Hf & Hn & Hs).
  split_and!.
  - constructor; [split; [done|apply TrimSpace_idem]|done].
  - constructor; [|done]. intros Hx. apply (Hs _ Hx). by left.
  - intros v [->|Hv]%elem_of_cons; [done|]. intros Hin. apply (Hs v Hv). by right.
Qed.

Lemma enum_fold_elem t m l v : enum_fold t m l = Ok v -> v = m \/ v ∈ l.
Proof.
  revert m. induction l as [|a l IH]; intros m H; cbn in H; [injection H; auto|].
  destruct (EqualFold t a); [ok_step H|]; apply IH in H as [->|H]; rewrite ?elem_of_cons; auto.
Qed.

(** *** Formats *)

Lemma dns_label_ok l : check_dns_label l = Ok tt <-> dns_label l.
Proof.
  unfold check_dns_label, dns_label. split.
  - intros H. ok_path H. breflect. destruct l; [done|]. unfold slen in *. cbn [String.length] in *. split_and!; try tauto; lia.
  - intros (Hl & Hp & Hs & Hb). rewrite bool_decide_eq_false_2 by (intros ->; unfold slen in Hl; cbn in Hl; lia).
    replace (63 <? slen l) with false by (symmetry; apply Z.ltb_ge; lia). by rewrite Hp, Hs, Hb.
Qed.

Lemma normalizeDNSName_conforms v w : normalizeDNSName v = Ok w -> w = "" \/ dns_name w.
Proof.
  unfold normalizeDNSName. set (name := TrimSuffix _ _). intros H. destruct (name ==? ""); [injection H as <-; by left|].
  ok_path H. subst w. right. breflect. match goal with E : check_all _ _ = Ok ?u |- _ => destruct u; rename E into E2 end. apply check_all_ok in E2. split_and!; try done.
  eapply Forall_impl; [exact E2|]. intros l. apply dns_label_ok.
Qed.

Lemma normalizeDNSName_fixed w : w = "" \/ dns_name w -> normalizeDNSName w = Ok w.
Proof.
  intros [->|(Hl & Hf & Ha & Hi)]; [reflexivity|].
  assert (sall (fun a => dns_byte a || (a ==? "."%char)) w = true) as Hb.
  { apply SplitAt_sall. eapply Forall_impl; [exact Hf|]. intros l (_ & _ & _ & Hb). exact Hb. }
  assert (TrimSuffix (ToLower (TrimSpace w)) "." = w) as E.
  { rewrite TrimSpace_plain, ToLower_plain by (revert Hb; apply sall_weaken; bytes).
    apply TrimSuffix_none. destruct (HasSuffix w ".") eqn:Es; [|done]. apply SplitAt_suffix in Es as (l & _ & El).
    rewrite El in Hf. apply Forall_app in Hf as [_ Hf]. rewrite Forall_singleton in Hf. destruct Hf as [Hz _]. unfold slen in Hz. cbn in Hz. lia. }
  unfold normalizeDNSName. rewrite E, Ha, Hi. case_bool_decide as Ew; [by rewrite Ew|].
  replace (253 <? slen w) with false by (symmetry; apply Z.ltb_ge; lia).
  assert (check_all check_dns_label (SplitAt "." w) = Ok tt) as ->; [|done].
  apply check_all_ok. eapply Forall_impl; [exact Hf|]. intros l. apply dns_label_ok.
Qed.

Lemma normalizeIPv4_conforms v w :
  normalizeIPv4 v = Ok w -> exists a b c d, is_octet a /\ is_octet b /\ is_octet c /\ is_octet d /\ w = print_dotted a b c d.
Proof.
  unfold normalizeIPv4. case_bool_decide; [|done]. unfold parse_dotted.
  repeat case_match; try done. intros [= <-]. simplify_eq.
  repeat match goal with E : parse_octet _ = Some _ |- _ => apply parse_octet_range in E end. eexists _, _, _, _. split_and!; cycle -1; [reflexivity|eassumption..].
Qed.

Lemma normalizeIPv4_fixed a b c d :
  is_octet a -> is_octet b -> is_octet c -> is_octet d -> normalizeIPv4 (print_dotted a b c d) = Ok (print_dotted a b c d).
Proof.
  intros Ha Hb Hc Hd. destruct (print_dotted_facts a b c d) as (Hp & Hm & Hs); try done.
  unfold normalizeIPv4. rewrite TrimSpace_plain by done. rewrite Hm, bool_decide_eq_true_2, Hp by done. done.
Qed.

Lemma ValidateTimezone_fixed v :
  v = "" \/ (time_LoadLocation v = true /\ v <> "Local" /\ HasPrefix v "/" = false /\ Contains v ".." = false) -> ValidateTimezone v = Ok v.
Proof.
  intros [->|(Hz & Hl & Hp & Hc)]; [reflexivity|]. pose proof (zone_names v Hz) as Hb.
  assert (TrimPrefix v ":" = v) as Et.
  { unfold TrimPrefix, CutPrefix. destruct v as [|a v]; [done|]. cbn in Hb |- *. apply andb_true_iff in Hb as [Ha _].
    case_bool_decide; [subst a; by vm_compute in Ha|done]. }
  unfold ValidateTimezone. rewrite Et, TrimSpace_plain by (revert Hb; apply sall_weaken; bytes).
  case_bool_decide as Ev; [by rewrite Ev|]. unfold filepath_IsAbs. by rewrite bool_decide_eq_false_2, Hp, Hc, Hz by done.
Qed.

Lemma clean_tag t : sall tag_byte t = true -> cleanPOSIXLocale t = t.
Proof.
  intros Ht. unfold cleanPOSIXLocale, before_byte. rewrite TrimSpace_plain by (revert Ht; apply sall_weaken; bytes).
  by rewrite (CutAt_lacks "." t), (CutAt_lacks "@" t) by (revert Ht; apply sall_weaken; bytes).
Qed.

Lemma normalizeTag_fixed v field : v = "" \/ v = "en-US" \/ (exists s, language_Parse s = Some v) -> normalizeTag v field = Ok v.
Proof.
  intros Hv. destruct (decide (v = "")) as [->|Hne]; [reflexivity|].
  assert (exists s, language_Parse s = Some v) as [s Hs]. { destruct Hv as [->|[->|?]]; [done| |done]. eexists. apply language_en_US. }
  destruct (language_bytes _ _ Hs) as [_ Hb], (language_not_c _ _ Hs) as [Hc Hp]. unfold normalizeTag, isCLocale. rewrite !clean_tag by done.
  rewrite bool_decide_eq_false_2 by done. unfold ToUpper. rewrite (sall_weaken tag_byte is_ascii v) by (done || bytes).
  rewrite !(bool_decide_eq_false_2 (smap _ _ = _)) by done. cbn [orb].
  rewrite ReplaceByte_lacks by (revert Hb; apply sall_weaken; bytes). by rewrite (language_canonical _ _ Hs).
Qed.

Lemma normalizeTag_conforms v field w :
  normalizeTag v field = Ok w -> w = "" \/ w = "en-US" \/ exists s, language_Parse s = Some w.
Proof. unfold normalizeTag. repeat case_match; intros [= <-]; eauto. Qed.

Lemma formats_conforms format f v w : formats format = Some f -> f v = Ok w -> format_conforms format w.
Proof.
  unfold formats. intros Hf Hv. unfold format_conforms.
  repeat (case_bool_decide; [subst format; injection Hf as <-; split_and!; try (intros ?; exfalso; solve [discriminate | destruct_or?; discriminate]); intros _|]); [..|discriminate Hf].
  - destruct (ValidateTimezone v) as [x|] eqn:E; cbn in Hv; [|done]. injection Hv as ->. unfold ValidateTimezone in E.
    destruct (TrimSpace _ ==? ""); [injection E as <-; by left|]. ok_path E. subst. breflect. unfold filepath_IsAbs in *.
    right. split_and!; tauto.
  - destruct (NormalizeLanguage v) as [x|] eqn:E; cbn in Hv; [|done]. injection Hv as ->. by eapply normalizeTag_conforms.
  - destruct (NormalizeLocale v) as [x|] eqn:E; cbn in Hv; [|done]. injection Hv as ->. by eapply normalizeTag_conforms.
  - by eapply normalizeIPv4_conforms.
  - by eapply normalizeDNSName_conforms.
  - unfold normalizeJSONObject in Hv. destruct (TrimSpace v ==? ""); [injection Hv as <-; by left|]. right.
    destruct (json_Valid v) eqn:Ej; [|discriminate Hv]. cbn in Hv.
    destruct (yaml_Unmarshal v) as [[o|]|] eqn:Eo; try discriminate Hv. destruct (json_Marshal o) eqn:Em; [|discriminate Hv].
    injection Hv as ->. by exists v, o.
Qed.

Lemma formats_fixed format f w :
  formats format = Some f -> format <> FormatJSONObject -> format_conforms format w -> f w = Ok w.
Proof.
  unfold formats. intros Hf Hne (Hip & Hdns & Htz & Htag & _).
  repeat (case_bool_decide; [subst format; injection Hf as <-|]); [..|discriminate Hf].
  - by rewrite ValidateTimezone_fixed by auto.
  - unfold NormalizeLanguage. by rewrite normalizeTag_fixed by auto.
  - unfold NormalizeLocale. by rewrite normalizeTag_fixed by auto.
  - destruct Hip as (a & b & c & d & Ha & Hb & Hc & Hd & ->); [done|]. by apply normalizeIPv4_fixed.
  - by apply normalizeDNSName_fixed, Hdns.
  - done.
Qed.

(** *** Declarations *)

Definition kinds : list string := ["string"; "int"; "bool"; "enum"].

Lemma check_kind_kinds q u : check_kind q = Ok u -> p_Kind q ∈ kinds.
Proof. unfold check_kind, kinds. repeat case_bool_decide; intros Hk; try discriminate Hk; set_solver. Qed.

Lemma NormalizeDefinition_ok p q :
  NormalizeDefinition p = Ok q ->
  (p_Kind q = "" \/ check_kind q = Ok tt) /\ Forall (fun v => v <> "" /\ TrimSpace v = v) (p_enum_values q) /\
  (p_enum_values q <> [] -> p_Kind q = "enum").
Proof.
  unfold NormalizeDefinition. intros H. ok_step H. rename a into enum.
  assert (Forall (fun v => v <> "" /\ TrimSpace v = v) (default [] enum) /\ (enum = Some [] -> False)) as [He Hne].
  { destruct (p_Enum p) as [l|]; [|injection E as <-; split; [constructor|done]]. ok_path E. subst enum. apply enum_values_ok in E0 as [? _].
    split; [done|]. by intros [= ->]. }
  ok_step H. rename a into kind. assert (default [] enum <> [] -> kind = "enum") as Hk.
  { destruct enum; [|done]. intros _. destruct (_ ==? ""); [by injection E0|]. ok_path E0. breflect. congruence. }
  ok_step H. case_bool_decide as Hkind; ok_path H; subst; cbn; split_and!; try done; [by left|].
  right. match goal with E : check_kind _ = Ok ?u |- _ => by destruct u end.
Qed.

Lemma kind_trimmed q : p_Kind q ∈ kinds -> TrimSpace (p_Kind q) = p_Kind q /\ p_Kind q <> "".
Proof. unfold kinds. intros H. repeat (apply elem_of_cons in H as [->|H]; [by vm_compute|]). by apply elem_of_nil in H. Qed.

Lemma Declared_kind p q : NormalizeDefinition p = Ok q -> Declared q = true -> check_kind q = Ok tt /\ p_Kind q ∈ kinds.
Proof.
  intros Hq Hd. destruct (NormalizeDefinition_ok _ _ Hq) as ([Hk|Hk] & _ & He); [|split; [done|by eapply check_kind_kinds]].
  unfold Declared in Hd. rewrite Hk in Hd. cbn in Hd. destruct (p_enum_values q); [done|]. by rewrite He in Hk by done.
Qed.

Lemma below_spec lo n : match lo with Some m => n <? m | None => false end = false <-> forall m, lo = Some m -> m <= n.
Proof. destruct lo as [m|]; [rewrite Z.ltb_ge|by split]. split; [by intros ? ? [= <-]|auto]. Qed.
Lemma above_spec hi n : match hi with Some m => m <? n | None => false end = false <-> forall m, hi = Some m -> n <= m.
Proof. destruct hi as [m|]; [rewrite Z.ltb_ge|by split]. split; [by intros ? ? [= <-]|auto]. Qed.

Lemma validateNormalizedString_ok w c :
  validateNormalizedString w c = Ok tt <->
  within (c_MinLength c) (c_MaxLength c) (Z.of_nat (length (runes w))) /\
  (c_Pattern c <> "" -> exists matches, regexp_Compile (c_Pattern c) = Some matches /\ matches w = true).
Proof.
  unfold validateNormalizedString, within. rewrite <-below_spec, <-above_spec. split.
  - intros H. destruct (match c_MinLength c with Some _ => _ | None => _ end) eqn:El; [discriminate H|].
    destruct (match c_MaxLength c with Some _ => _ | None => _ end) eqn:Eh; [discriminate H|]. split; [done|]. intros Hp.
    rewrite bool_decide_eq_false_2 in H by done. destruct (regexp_Compile _) as [f|]; [|discriminate H]. exists f. split; [done|].
    by destruct (f w).
  - intros [[-> ->] Hp]. case_bool_decide as E; [done|]. by destruct (Hp E) as (f & -> & ->).
Qed.

(** A format's values have no surrounding space. *)
Lemma format_trimmed format w :
  format <> "" -> format <> FormatJSONObject -> formats format <> None -> format_conforms format w -> TrimSpace w = w.
Proof.
  intros Hne Hnj Hsome Hc. destruct (formats format) as [f|] eqn:Ef; [|done].
  destruct Hc as (Hip & Hdns & Htz & Htag & _). unfold formats in Ef.
  repeat (case_bool_decide; [subst format; clear Ef|]); [..|discriminate Ef].
  - destruct Htz as [->|(Hz & _)]; [done|done|]. apply TrimSpace_plain. generalize (zone_names w Hz). apply sall_weaken. bytes.
  - destruct Htag as [->|[->|[s Hs]]]; [auto|done|done|]. apply TrimSpace_plain. destruct (language_bytes _ _ Hs) as [_ Hb]. revert Hb. apply sall_weaken. bytes.
  - destruct Htag as [->|[->|[s Hs]]]; [auto|done|done|]. apply TrimSpace_plain. destruct (language_bytes _ _ Hs) as [_ Hb]. revert Hb. apply sall_weaken. bytes.
  - destruct Hip as (a & b & c & d & Ha & Hb & Hc & Hd & ->); [done|]. apply TrimSpace_plain. by apply print_dotted_facts.
  - destruct Hdns as [->|(_ & Hf & _)]; [done|done|]. apply TrimSpace_plain.
    assert (sall (fun a => dns_byte a || (a ==? "."%char)) w = true) as Hb.
    { apply SplitAt_sall. eapply Forall_impl; [exact Hf|]. intros l (_ & _ & _ & Hb). exact Hb. }
    revert Hb. apply sall_weaken. bytes.
  - done.
Qed.

Lemma Atoi_trimmed s n : Atoi s = Some n -> TrimSpace s = s /\ s <> "" /\ - 2 ^ 63 <= n <= 2 ^ 63 - 1.
Proof.
  intros H. assert (sall (fun c => is_digit c || one_of_bytes "+-" c) s = true /\ s <> "") as [Hb Hne].
  { assert (forall t, sall is_digit t = true -> sall (fun c => is_digit c || one_of_bytes "+-" c) t = true) as Hd.
    { intros t. apply sall_weaken. bytes. }
    unfold Atoi in H. split; [|by intros ->]. destruct s as [|a s]; [done|].
    destruct (decide (a = "-"%char)) as [->|H1]; [|destruct (decide (a = "+"%char)) as [->|H2]].
    - destruct (is_empty s || _) eqn:E; [done|]. breflect_in E. cbn. apply Hd. tauto.
    - destruct (is_empty s || _) eqn:E; [done|]. breflect_in E. cbn. apply Hd. tauto.
    - assert (sall is_digit (String a s) = true); [|by apply Hd].
      destruct (sall is_digit (String a s)) eqn:E; [done|]. exfalso. revert H.
      destruct a as [[] [] [] [] [] [] [] []]; cbn [is_empty orb negb]; try done. }
  split_and!; try done. { apply TrimSpace_plain. revert Hb. apply sall_weaken. bytes. }
  all: unfold Atoi in H; repeat case_match; try done; simplify_eq; breflect; lia.
Qed.

(** ** Values *)

Lemma normalize_string_ok q w v :
  p_Kind q = "string" -> check_kind q = Ok tt -> normalize_string q v = Ok w -> string_conforms (p_Constraints q) w.
Proof.
  unfold normalize_string, string_conforms. intros Hk Hc H. ok_path H. subst w.
  match goal with E : validateNormalizedString _ _ = Ok ?u |- _ => destruct u; apply validateNormalizedString_ok in E as [Hw Hp] end.
  split_and!; try done. case_bool_decide as Ef.
  - rewrite Ef. unfold format_conforms. split_and!; intros Hx; repeat destruct Hx as [Hx|Hx]; discriminate Hx.
  - destruct (formats _) as [f|] eqn:Hf; [|discriminate E]. by eapply formats_conforms.
Qed.

Lemma string_format_known q : p_Kind q = "string" -> check_kind q = Ok tt -> c_Format (p_Constraints q) <> "" -> formats (c_Format (p_Constraints q)) <> None.
Proof.
  unfold check_kind, validateStringConstraints. intros ->. cbn. intros H Hf Hn. ok_path H. rewrite Hn in *.
  rewrite bool_decide_eq_false_2 in * by done. done.
Qed.

Lemma normalize_string_fixed q w :
  p_Kind q = "string" -> check_kind q = Ok tt -> c_Format (p_Constraints q) <> FormatJSONObject ->
  string_conforms (p_Constraints q) w -> normalize_string q w = Ok w.
Proof.
  intros Hk Hc Hnj (Hw & Hp & Hf). unfold normalize_string.
  assert ((if c_Format (p_Constraints q) ==? "" then Ok w else match formats (c_Format (p_Constraints q)) with Some f => f w | None => Err (UnknownFormat (c_Format (p_Constraints q))) end) = Ok w) as ->.
  { case_bool_decide as Ef; [done|]. pose proof (string_format_known q Hk Hc Ef) as Hs.
    destruct (formats _) as [f|] eqn:E; [|done]. by eapply formats_fixed. }
  cbn. by rewrite (proj2 (validateNormalizedString_ok w _)).
Qed.

(** Every value the code hands on is one the declaration admits. *)
Lemma Normalize_conforms p q v w :
  NormalizeDefinition p = Ok q -> Declared q = true -> Normalize p v = Ok w -> conforms q w.
Proof.
  intros Hq Hd H. destruct (Declared_kind p q Hq Hd) as [Hc Hk]. unfold Normalize in H. rewrite Hq in H. cbn in H. rewrite Hd in H. cbn in H.
  destruct (TrimSpace v ==? "") eqn:Et; cbn in H.
  - destruct (_ || _) eqn:Eo in H; [injection H as <-; left; split; [done|]; breflect_in Eo; tauto|]. breflect_in Eo. destruct Eo as [Ek Es].
    right; left. rewrite Ek, bool_decide_eq_true_2 in H by done. split_and!; [done|by eapply normalize_string_ok|done].
  - unfold conforms. repeat (apply elem_of_cons in Hk as [Hk|Hk]); [..|by apply elem_of_nil in Hk]; rewrite Hk in H; literals; cbn in H.
    + right; left. split_and!; [done|by eapply normalize_string_ok|].
      intros _ Ef. unfold normalize_string in H. rewrite Ef in H. literals. cbn in H. ok_path H. subst w. breflect_in Et. exact Et.
    + do 3 right; left. split; [done|]. unfold normalize_int in H. destruct (Atoi _) as [n|] eqn:En; [|discriminate H].
      destruct (match c_Minimum _ with Some _ => _ | None => _ end) eqn:El; [discriminate H|].
      destruct (match c_Maximum _ with Some _ => _ | None => _ end) eqn:Eh; [discriminate H|]. injection H as <-.
      pose proof (proj1 (below_spec _ _) El) as Hlo. pose proof (proj1 (above_spec _ _) Eh) as Hhi. exists n. split; [done|]. split; [|done]. by destruct (Atoi_trimmed _ _ En) as (_ & _ & ?).
    + do 2 right; left. split; [done|]. unfold normalize_bool in H. repeat case_match; try discriminate H; injection H as <-; auto.
    + do 4 right. split; [done|]. unfold normalize_enum in H. case_bool_decide as Hin; [by injection H as <-|].
      ok_path H. subst. apply enum_fold_elem in E as [->|?]; [|done]. by breflect.
Qed.

(** Every value the declaration admits is accepted as it is. *)
Lemma Normalize_fixed p q w :
  NormalizeDefinition p = Ok q -> Declared q = true -> c_Format (p_Constraints q) <> FormatJSONObject ->
  conforms q w -> Normalize p w = Ok w.
Proof.
  intros Hq Hd Hnj Hw. destruct (Declared_kind p q Hq Hd) as [Hc _]. destruct (NormalizeDefinition_ok _ _ Hq) as (_ & He & _).
  unfold Normalize. rewrite Hq. cbn. rewrite Hd. cbn.
  destruct Hw as [[-> Hu]|[(Hk & Hs & Ht)|[(Hk & Hb)|[(Hk & Hi)|(Hk & Hin)]]]].
  - cbn. assert ((p_Kind q !=? "string") || (p_DefaultSource q !=? "") = true) as ->; [|done]. breflect. tauto.
  - rewrite Hk. literals. cbn. rewrite normalize_string_fixed by done. case_bool_decide as Ew; [|done]. cbn.
    case_bool_decide as Es; [done|]. cbn. f_equal.
    destruct (decide (c_Format (p_Constraints q) = "")) as [Ef|Ef]; [by destruct (Ht Es Ef)|].
    rewrite <-Ew. eapply format_trimmed; [done|done|by apply string_format_known|apply Hs].
  - rewrite Hk. literals. destruct Hb as [->| ->]; by vm_compute.
  - rewrite Hk. literals. destruct Hi as (n & Hn & _ & Hlo & Hhi). destruct (Atoi_trimmed _ _ Hn) as (Ht & Hne & _).
    rewrite Ht, bool_decide_eq_false_2 by done. cbn. unfold normalize_int. rewrite Hn.
    rewrite (proj2 (below_spec _ _) Hlo). by rewrite (proj2 (above_spec _ _) Hhi).
  - rewrite Hk. literals. rewrite Forall_forall in He. destruct (He _ Hin) as [Hne Ht].
    rewrite Ht, bool_decide_eq_false_2 by done. cbn. unfold normalize_enum. by rewrite bool_decide_eq_true_2.
Qed.

(** Normalising is a projection onto the admitted values: for every
    declared parameter other than a JSON object, the values [Normalize] leaves
    alone are exactly those the declaration admits, and its results are among
    them, so normalising twice is normalising once. *)
Lemma normalize_is_projection p q :
  NormalizeDefinition p = Ok q -> Declared q = true -> c_Format (p_Constraints q) <> FormatJSONObject ->
  (forall w, Normalize p w = Ok w <-> conforms q w) /\ (forall v w, Normalize p v = Ok w -> Normalize p w = Ok w).
Proof.
  intros Hq Hd Hnj. split.
  - intros w. split; [by apply Normalize_conforms|by apply Normalize_fixed].
  - intros v w H. eapply Normalize_fixed; [done..|]. by eapply Normalize_conforms.
Qed.

(** C9.  A value that passes normalisation has the declared type: an
    undeclared parameter keeps its bytes; otherwise the result is unset (where
    the declaration lets an empty value mean that), or "true"/"false", or a
    64-bit decimal within the declared bounds, or one of the declared enum
    values, or a text within the declared length, matching the declared pattern
    and in the canonical form of the declared format: a dotted IPv4 address, a
    lower-case DNS name that is not an address, a zone the time zone database
    knows, a BCP 47 tag, a JSON object.
    Other than for JSON objects these are exactly the values normalisation
    leaves alone, so normalising twice is normalising once. *)
Theorem normalized_value_has_declared_type p v w :
  Normalize p v = Ok w ->
  exists q, NormalizeDefinition p = Ok q /\ (Declared q = false -> w = v) /\ 
    (Declared q = true -> conforms q w /\ (c_Format (p_Constraints q) <> FormatJSONObject -> forall u, Normalize p u = Ok u <-> conforms q u)).
Proof.
  intros H. destruct (NormalizeDefinition p) as [q|e] eqn:Hq; [|unfold Normalize in H; by rewrite Hq in H].
  exists q. split_and!; [done| |].
  - intros Hd. unfold Normalize in H. rewrite Hq in H. cbn in H. rewrite Hd in H. by injection H.
  - intros Hd. split; [by eapply Normalize_conforms|]. intros Hj. by apply normalize_is_projection.
Qed.
End Facts.

(** ** Witnesses: a small database of tags and zones *)

Module SchemaDemo.
#[local] Instance demo_case : CaseTables := {| uni_to_lower r := r; uni_to_upper r := r; uni_fold _ _ := false |}.
Definition demo_tags : list string := ["en-US"; "de-DE"; "zh-Hans"].
Definition demo_zones : list string := ["UTC"; "Europe/Berlin"; "Etc/GMT+1"].
#[local] Instance demo_libs : SchemaLibs := {|
  regexp_Compile p := if p ==? "^[a-z]+$" then Some (fun s => negb (is_empty s) && sall is_lower s) else None;
  language_Parse s := if bool_decide (s ∈ demo_tags) then Some s else None;
  time_LoadLocation s := bool_decide (s ∈ demo_zones);
  yaml_object := unit; yaml_Unmarshal s := if s ==? "{}" then Some (Some tt) else None; json_Marshal _ := Some "{}"
|}.

Lemma demo_tag s t : language_Parse s = Some t -> t ∈ demo_tags /\ language_Parse t = Some t.
Proof. cbn. case_bool_decide; [|done]. intros [= <-]. split; [done|]. by rewrite bool_decide_eq_true_2. Qed.

#[local] Instance demo_laws : SchemaLaws.
Proof.
  split; try (intros s t [Ht Hs]%demo_tag; try done; repeat (apply elem_of_cons in Ht as [->|Ht]; [by vm_compute|]); by apply elem_of_nil in Ht).
  - by vm_compute.
  - intros s Hs%bool_decide_eq_true. repeat (apply elem_of_cons in Hs as [->|Hs]; [by vm_compute|]); by apply elem_of_nil in Hs.
Qed.

Definition none : Constraints := mkConstraints None None None None "" "".
Definition port : SchemaParameter := mkParameter " INT" None (mkConstraints (Some 1) (Some 65535) None None "" "") "".
Definition domain : SchemaParameter := mkParameter "string" None (mkConstraints None None (Some 3) None "" "DNS_name") "".
Definition mode : SchemaParameter := mkParameter "" (Some ["Bridge"; " host "]) none "".

Example schema_values :
  Normalize port " 8080 " = Ok "8080" /\ Normalize port "0" = Err (BelowMinimum "0") /\ Normalize port "" = Ok "" /\
  Normalize domain " Example.COM. " = Ok "example.com" /\ Normalize domain "10.0.0.1" = Err (DNSIsAddress "10.0.0.1") /\
  Normalize domain "a..b" = Err DNSEmptyLabel /\ Normalize domain "a" = Err TooShort /\
  Normalize mode "BRIDGE" = Ok "Bridge" /\ Normalize mode "host" = Ok "host" /\ Normalize mode "none" = Err (NotInEnum "none") /\
  Normalize (mkParameter "string" None (mkConstraints None None None None "" "locale") "host") "de_DE.UTF-8" = Ok "de-DE" /\
  Normalize (mkParameter "string" None (mkConstraints None None None None "" "ipv4") "") " 10.0.0.1" = Ok "10.0.0.1" /\
  NormalizeDefinition (mkParameter "float" None none "") = Err (UnknownType "float").
Proof. by vm_compute. Qed.

Lemma normalized_value_has_declared_type_witness :
  exists q, NormalizeDefinition domain = Ok q /\ Declared q = true /\ conforms q "example.com" /\ Normalize domain "example.com" = Ok "example.com".
Proof.
  destruct (normalized_value_has_declared_type domain " Example.COM. " "example.com") as (q & Hq & _ & Hc); [vm_compute; reflexivity|].
  exists q. injection Hq as <-. destruct (Hc eq_refl) as [H1 H2]. split; [reflexivity|]. split; [reflexivity|]. split; [exact H1|].
  apply H2; [|exact H1]. intros H. discriminate H.
Defined.
End SchemaDemo.
