(* ===== verification/RunnerTypes.v ===== *)
(** * Launcher: modules, configuration, application state

    The data of package [internal/runner] that dependency resolution and
    environment scoping work on: the module registry built from the manifests,
    the loaded configuration, the resolution lock, and the mutable fields of
    [app].  A Go map is a [gmap]; a nil map reads as the empty one.  Of a
    [Module] the fields those two stages read are kept. *)

From Stdlib Require Import Ascii.
From S2P Require Import Prelude GoText GoNet GoStrings ConfigSchema.

(** ** Manifests *)

Record Dependency := mkDependency { dep_Name : string; dep_Version : string; dep_Optional : bool }.

Record AlternativeDependency := mkAlternative {
  alt_Capability : string;
  alt_SelectedBy : string;
  alt_Providers : list string;
  alt_Default : string
}.

Record ContractDependency := mkContractDependency {
  cd_Name : string;
  cd_Version : string;
  cd_SelectedBy : string;
  cd_Interfaces : list string;
  cd_Default : string;
  cd_EnabledBy : string
}.

(** [Operations] by name only: what resolution asks is whether one exists. *)
Record ContractProvider := mkContractProvider {
  cp_Name : string;
  cp_Version : string;
  cp_Interface : string;
  cp_Operations : list string
}.

Record ProvidedCapability := mkProvided { pc_Name : string; pc_Interfaces : list string }.

Record RequiredCapability := mkRequired {
  rc_Name : string;
  rc_InterfaceSelectedBy : string;
  rc_AnyOf : list string;
  rc_Prefer : list string;
  rc_EnabledBy : string;
  rc_Ordering : string
}.

Record ChangePolicy := mkChangePolicy { cp_Effect : string; cp_Sensitive : bool }.

Record CredentialProvider := mkCredentialProvider { crp_ID : string; crp_SecretKey : string }.
Record CredentialConsumer := mkCredentialConsumer { crc_Credential : string; crc_Projection : string }.

Record Module := mkModule {
  m_Name : string;
  m_Version : string;
  m_Revision : Z;
  m_UpgradeFrom : string;
  m_EnvPrefix : string;
  m_Defaults : gmap string string;
  m_InputRequired : list string;
  m_Required : list string;
  m_MustResolve : list string;
  m_Parameters : list string;
  m_Consumes : list string;
  m_Exports : list string;
  m_Changes : gmap string ChangePolicy;
  m_Types : gmap string SchemaParameter;
  m_Requires : list Dependency;
  m_RequiresOne : list AlternativeDependency;
  m_RequiresContracts : list ContractDependency;
  m_ContractProviders : list ContractProvider;
  m_Provides : list ProvidedCapability;
  m_RequiresCapabilities : list RequiredCapability;
  m_RunAfter : list string;
  m_IdentityInterfaces : list string;
  m_IdentityAppGroup : bool;
  m_CredentialProviders : list CredentialProvider;
  m_CredentialConsumers : list CredentialConsumer;
  m_UseHostLAN : string
}.

Definition zero_Module : Module :=
  mkModule "" "" 0 "" "" ∅ [] [] [] [] [] [] ∅ ∅ [] [] [] [] [] [] [] [] false [] [] "".

(** [reg[name]]: the zero module when there is none. *)
Definition at_reg (reg : gmap string Module) (name : string) : Module := default zero_Module (reg !! name).

(** [m[key]] of a [map[string]string]. *)
Definition str_at (m : gmap string string) (k : string) : string := default "" (m !! k).
Definition str_at2 (m : gmap string (gmap string string)) (k1 k2 : string) : string := str_at (default ∅ (m !! k1)) k2.

(** [contains]. *)
Definition contains (l : list string) (x : string) : bool := bool_decide (x ∈ l).

Fixpoint find_first {A} (p : A -> bool) (l : list A) : option A :=
  match l with [] => None | a :: l' => if p a then Some a else find_first p l' end.

Definition providedCapability (m : Module) (name : string) : option ProvidedCapability :=
  find_first (fun c => pc_Name c ==? name) (m_Provides m).
Definition providedContract (m : Module) (name iface : string) : option ContractProvider :=
  find_first (fun p => (cp_Name p ==? name) && (cp_Interface p ==? iface)) (m_ContractProviders m).

(** The first occurrence of each non-empty item, in order. *)
Fixpoint unique_from (out : list string) (l : list string) : list string :=
  match l with
  | [] => out
  | item :: l' => unique_from (if (item !=? "") && negb (contains out item) then out ++ [item] else out) l'
  end.
Definition uniqueStrings (l : list string) : list string := unique_from [] l.
Definition appendUnique (l : list string) (value : string) : list string :=
  if (value ==? "") || contains l value then l else l ++ [value].

Definition preHookRequirements (m : Module) : list string := uniqueStrings (m_InputRequired m ++ m_Required m).
Definition finalRequirements (m : Module) : list string := uniqueStrings (preHookRequirements m ++ m_MustResolve m).

(** ** Contracts *)

Record Contract := mkContract {
  ct_Name : string;
  ct_Version : string;
  ct_Interfaces : list string;
  ct_Operations : gmap string bool   (* whether each is required *)
}.

(** ** Configuration *)

Record ModuleConfig := mkModuleConfig { mc_Version : string; mc_Enabled : option bool; mc_DependsOn : list string }.

Record ConfigFile := mkConfigFile {
  f_Order : list string;                    (* Modules.Order *)
  f_Values : gmap string ModuleConfig;      (* Modules.Values *)
  f_IAM_Provider : string;
  f_IAM_DefaultProtocol : string;
  f_DynamicDNS_Provider : string;
  f_DynamicDNS_DNSProvider : string;
  f_Secrets : gmap string string            (* [Scalar] of each value *)
}.

Definition moduleEnabled (cfg : ConfigFile) (name : string) : bool :=
  match f_Values cfg !! name with Some c => default true (mc_Enabled c) | None => true end.

(** The deployment's own parameters, decoded from globals.yml. *)
Record globalSchema := mkGlobalSchema {
  g_InputRequired : list string;
  g_Required : list string;
  g_MustResolve : list string;
  g_Defaults : gmap string string;
  g_Changes : gmap string ChangePolicy;
  g_Types : gmap string SchemaParameter;
  g_Parameters : list string
}.

(** The DNS platforms and, for each, the engines that can address it. *)
Record Platform := mkPlatform { pl_Name : string; pl_Engines : list string }.
Definition Supports (p : Platform) (engine : string) : bool := contains (pl_Engines p) engine.
Definition EngineLego : string := "lego".
Definition EngineDDNSGo : string := "ddns_go".
Definition EngineDDNSUpdater : string := "ddns_updater".
Definition Engines : list string := [EngineLego; EngineDDNSGo; EngineDDNSUpdater].

(** ** Locks and secrets *)

Record moduleLockRecord := mkLockRecord { lr_Version : string; lr_Revision : Z }.

Record moduleLock := mkModuleLock {
  l_Modules : gmap string moduleLockRecord;
  l_IAM : option string;
  l_Bindings : gmap string (gmap string string)
}.

Record secretMetadata := mkSecretMetadata { sm_Owner : string; sm_Kind : string; sm_Provenance : string }.
Definition zero_metadata : secretMetadata := mkSecretMetadata "" "" "".

Record secretStore := mkSecretStore {
  s_values : gmap string string;
  s_metadata : gmap string secretMetadata;
  s_dirty : bool
}.

(** ** Names of environment keys: [internal/config] *)

Definition globalScope : string := "".
Definition runnerScope : string := "runner".
Definition globalModuleName : string := "global".
Definition OwnerUserSecret : string := "!user-secret".

Definition globalBindings : list (string * string) := [
  ("base_domain", "BASE_DOMAIN"); ("email", "EMAIL"); ("timezone", "TZ"); ("temp_path", "TEMP_PATH");
  ("container_prefix", "CONTAINER_PREFIX"); ("network_prefix", "NETWORK_PREFIX"); ("host_ip", "HOST_IP");
  ("host_lan_ip", "HOST_LAN_IP"); ("host_lan_bridge_ip", "HOST_LAN_BRIDGE_IP");
  ("host_lan_arp_check", "HOST_LAN_ARP_CHECK"); ("dns_server", "DNS_SERVER");
  ("default_language", "DEFAULT_LANGUAGE"); ("default_locale", "DEFAULT_LOCALE");
  ("chinese_speedup", "CHINESE_SPEEDUP"); ("chinese_build_speedup", "CHINESE_BUILD_SPEEDUP");
  ("ipv4", "IPV4"); ("ipv6", "IPV6"); ("virtual_domain", "VIRTUAL_DOMAIN")].

(** The yaml names of the fields of [config.Global]. *)
Definition GlobalParameters : list string := SortStrings [
  "base_domain"; "email"; "temp_path"; "timezone"; "container_prefix"; "network_prefix"; "host_ip"; "host_lan_ip";
  "host_lan_bridge_ip"; "host_lan_arp_check"; "dns_server"; "default_language"; "default_locale"; "chinese_speedup";
  "chinese_build_speedup"; "ipv4"; "ipv6"; "virtual_domain"].

Section Keys.
Context `{CaseTables}.

Definition GlobalEnvKey (parameter : string) : string :=
  let parameter := ToLower (TrimSpace parameter) in
  match find_first (fun b => fst b ==? parameter) globalBindings with Some (_, key) => key | None => "" end.

Definition EnvKey (key : string) : string :=
  let key := TrimSpace key in
  let bound := GlobalEnvKey key in
  if bound !=? "" then bound else ToUpper key.

Definition globalParamEnv (key : string) : string := EnvKey key.

Definition paramEnvKey (module prefix key : string) : string :=
  let key := TrimSpace key in
  if key ==? "" then key
  else if HasPrefix key "global." then globalParamEnv (TrimPrefix key "global.")
  else if isEnvKey key then key
  else if module ==? globalScope then globalParamEnv key
  else ToUpper (dash_to_underscore prefix) +:+ "_" +:+ ToUpper key.

Definition moduleParamEnvKey (module prefix : string) (exports : list string) (key : string) : string :=
  let bare := globalParamEnv key in
  if contains exports bare then bare else paramEnvKey module prefix key.

Definition defaultEnvPrefix (module : string) : string := ToUpper (dash_to_underscore module).

Definition parameterEnvKey (module parameter : string) (reg : gmap string Module) : string :=
  if module ==? globalModuleName then
    let key := GlobalEnvKey parameter in
    if key !=? "" then key else paramEnvKey globalScope "" parameter
  else let md := at_reg reg module in moduleParamEnvKey module (m_EnvPrefix md) (m_Exports md) parameter.
End Keys.

(** [matchEnvPattern]: an exact key, a prefix glob or a suffix glob. *)
Definition match_pattern (key pattern : string) : bool :=
  if HasSuffix pattern "*" then HasPrefix key (TrimSuffix pattern "*")
  else match CutPrefix pattern "*" with Some suffix => HasSuffix key suffix | None => key ==? pattern end.
Definition matchEnvPattern (patterns : list string) (key : string) : bool := existsb (match_pattern key) patterns.

(** ** The application

    What resolution reads and never writes is [Deployment], what it changes is
    [App]. *)

Record Deployment := mkDeployment {
  d_reg : gmap string Module;
  d_contracts : option (gmap string Contract);
  d_cfg : ConfigFile;
  d_lock : option moduleLock;
  d_registryOnly : bool;
  d_allowUnresolved : bool;
  d_globals : globalSchema;
  d_dns : option (string -> option Platform)   (* [dns.Load] and [Lookup] *)
}.

Record App := mkApp {
  a_env : gmap string string;
  a_envOwner : gmap string string;
  a_resolvedBindings : gmap string (gmap string string);
  a_iamProvider : string;
  a_iamBindings : gmap string string;
  a_capabilityProviders : gmap string string;
  a_dynamicDNSProvider : string;
  a_deps : gmap string (list string);
  a_order : list string;
  a_secrets : option secretStore;
  a_runnerSensitive : gset string;
  a_sensitiveKeys : option (gset string)
}.

(** Field updates. *)
Definition set_env f a := mkApp (f (a_env a)) (a_envOwner a) (a_resolvedBindings a) (a_iamProvider a) (a_iamBindings a)
  (a_capabilityProviders a) (a_dynamicDNSProvider a) (a_deps a) (a_order a) (a_secrets a) (a_runnerSensitive a) (a_sensitiveKeys a).
Definition set_owner f a := mkApp (a_env a) (f (a_envOwner a)) (a_resolvedBindings a) (a_iamProvider a) (a_iamBindings a)
  (a_capabilityProviders a) (a_dynamicDNSProvider a) (a_deps a) (a_order a) (a_secrets a) (a_runnerSensitive a) (a_sensitiveKeys a).
Definition set_bindings f a := mkApp (a_env a) (a_envOwner a) (f (a_resolvedBindings a)) (a_iamProvider a) (a_iamBindings a)
  (a_capabilityProviders a) (a_dynamicDNSProvider a) (a_deps a) (a_order a) (a_secrets a) (a_runnerSensitive a) (a_sensitiveKeys a).
Definition set_iam p f a := mkApp (a_env a) (a_envOwner a) (a_resolvedBindings a) p (f (a_iamBindings a))
  (a_capabilityProviders a) (a_dynamicDNSProvider a) (a_deps a) (a_order a) (a_secrets a) (a_runnerSensitive a) (a_sensitiveKeys a).
Definition set_capabilityProviders f a := mkApp (a_env a) (a_envOwner a) (a_resolvedBindings a) (a_iamProvider a) (a_iamBindings a)
  (f (a_capabilityProviders a)) (a_dynamicDNSProvider a) (a_deps a) (a_order a) (a_secrets a) (a_runnerSensitive a) (a_sensitiveKeys a).
Definition set_dynamicDNS p a := mkApp (a_env a) (a_envOwner a) (a_resolvedBindings a) (a_iamProvider a) (a_iamBindings a)
  (a_capabilityProviders a) p (a_deps a) (a_order a) (a_secrets a) (a_runnerSensitive a) (a_sensitiveKeys a).
Definition set_deps d a := mkApp (a_env a) (a_envOwner a) (a_resolvedBindings a) (a_iamProvider a) (a_iamBindings a)
  (a_capabilityProviders a) (a_dynamicDNSProvider a) d (a_order a) (a_secrets a) (a_runnerSensitive a) (a_sensitiveKeys a).
Definition set_secrets s a := mkApp (a_env a) (a_envOwner a) (a_resolvedBindings a) (a_iamProvider a) (a_iamBindings a)
  (a_capabilityProviders a) (a_dynamicDNSProvider a) (a_deps a) (a_order a) s (a_runnerSensitive a) (a_sensitiveKeys a).
Definition set_runnerSensitive f a := mkApp (a_env a) (a_envOwner a) (a_resolvedBindings a) (a_iamProvider a) (a_iamBindings a)
  (a_capabilityProviders a) (a_dynamicDNSProvider a) (a_deps a) (a_order a) (a_secrets a) (f (a_runnerSensitive a)) (a_sensitiveKeys a).
Definition set_cache c a := mkApp (a_env a) (a_envOwner a) (a_resolvedBindings a) (a_iamProvider a) (a_iamBindings a)
  (a_capabilityProviders a) (a_dynamicDNSProvider a) (a_deps a) (a_order a) (a_secrets a) (a_runnerSensitive a) c.

Definition put_env (k v : string) : App -> App := set_env (insert k v).

Definition setEnvOwner (key owner : string) (a : App) : App :=
  if is_None_b (a_envOwner a !! key) then set_owner (insert key owner) a else a.

(** [a.resolvedBindings[module][key] = value], creating the inner map. *)
Definition record_binding (module key value : string) : App -> App :=
  set_bindings (fun b => <[module := <[key := value]> (default ∅ (b !! module))]> b).

Definition markSensitive (key : string) (a : App) : App := set_cache None (set_runnerSensitive (fun s => s ∪ {[key]}) a).
