(* ===== verification/RunnerBind.v ===== *)
(** * Launcher: sensitivity, declared owners and provider selection

    envscope.go's sensitivity set, config_cli.go's [policyOwnerForEnv],
    config_validate.go's normalisation of the environment, and the functions
    that bind one dependency of one module to a provider: capability.go,
    contracts.go, dynamicdns.go and runner.go's [resolveAlternativeDependency].
    A method of [app] that can fail is a computation of the monad [M]: it keeps
    the state changes it made before it failed, as the Go code does. *)

From Stdlib Require Import Ascii.
From S2P Require Import Prelude GoText GoNet GoStrings ConfigSchema RunnerTypes.

(** ** Errors *)

(** [Unresolved] is [unresolvedBindingError]; a value an error would print is
    [None] where the code prints "<redacted>". *)
Inductive runErr :=
| Unresolved (e : runErr)
| BadDeclarations
| EnvKeyAmbiguous (key : string) (owners : list (string * string))
| InvalidParameter (key : string) (cause : option schemaError)
| SeveralIAM (active : list string)
| UnknownModule (name : string)
| ModuleDisabled (name : string)
| ModuleManifest (name : string)
| CycleAt (name : string)
| OrderingCycle (blocked : list string)
| OutOfFuel
| SensitiveSelector (module parameter : string)
| BadAlternative (module parameter : string) (value : option string)
| UnknownAlternative (module capability : string) (value : option string)
| DisabledAlternative (module capability : string) (value : option string)
| ContractUnavailable (module contract : string)
| BadContractInterface (module parameter : string) (value : option string)
| NoContractProvider (module contract : string) (interface : option string)
| ManyContractProviders (module contract : string) (interface : option string) (candidates : list string)
| UnknownCapability (module capability : string)
| ProviderNotSet (module capability : string)
| ProviderUnknown (capability provider : string)
| ProviderLacksCapability (capability provider : string)
| ProviderDisabled (module capability provider : string)
| NoProvider (module capability : string)
| ManyProviders (module capability : string) (candidates : list string)
| LockedProviderUnknown (capability provider : string)
| LockedProviderLacks (capability provider : string)
| LockedProviderDisabled (capability provider : string)
| BadInterface (module parameter : string) (value : option string)
| BadDefaultProtocol (value : string)
| NoInterface (module capability : string)
| InterfaceNotOffered (module capability provider : string) (value : option string)
| NoCredentialProvider (module credential : string)
| DNSRegistry
| UnknownDNSPlatform (vendor : string)
| NotDynamicDNS (provider : string)
| DynamicDNSUnavailable (provider : string)
| DynamicDNSDisabled (provider : string)
| DynamicDNSUnsupported (provider platform : string)
| LockedDNSUnavailable (provider : string)
| LockedDNSDisabled (provider : string)
| NoDynamicDNS (platform : string)
(* the calculate stage *)
| MissingConfig (keys : list string)
| HookInvalidKeys (module : string) (keys : list string)
| HookUndeclaredKeys (module : string) (keys : list string)
| HookForeignKeys (module : string) (keys : list string)
| HookSecretKey (key : string)
| HookSecretCollision (key : string)
| HookSecretUndeclared (module : string) (keys : list string)
| HookSecretForeign (module : string) (keys : list string)
| HookSecretProtected (key : string)
| HookSecretOwner
| SecretStoreUnavailable
| CredentialMissing (id : string)
| CredentialConflict (id projection : string)
| NoOutputABI (capability interface : string)
| OutputConflict (capability key : string)
| OutputForeign (capability key : string)
| OutputMissing (capability key : string)
| OutputNotOwned (capability key : string)
| IAMEndpointsMissing (keys : list string)
| IAMEventInterface (key : string)
| IAMEventOwner (key : string)
| IAMEventUnsupported (key event : string)
| IAMClientStale (key : string)
| IAMClientIncomplete (key : string)
| IAMClientValue (key : string).

Definition canDeferUnresolvedBinding (allow : bool) (e : runErr) : bool :=
  allow && match e with Unresolved _ => true | _ => false end.

(** ** The monad *)

Definition M (A : Type) : Type := App -> result runErr A * App.
Definition ret {A} (x : A) : M A := fun a => (Ok x, a).
Definition raise {A} (e : runErr) : M A := fun a => (Err e, a).
Definition bindM {A B} (c : M A) (k : A -> M B) : M B :=
  fun a => match c a with (Ok x, a') => k x a' | (Err e, a') => (Err e, a') end.
Definition gets {A} (f : App -> A) : M A := fun a => (Ok (f a), a).
Definition modify (f : App -> App) : M unit := fun a => (Ok tt, f a).
Definition guard (b : bool) (e : runErr) : M unit := if b then raise e else ret tt.
Definition lift {A} (r : result runErr A) : M A := fun a => (r, a).

Notation "'let*' x ':=' c 'in' k" := (bindM c (fun x => k))
  (at level 10, x name, c at level 99, k at level 200) : go_scope.
Notation "'do*' c ';;' k" := (bindM c (fun _ => k))
  (at level 10, c at level 99, k at level 200) : go_scope.

Fixpoint foldM {A B} (f : B -> A -> M B) (b : B) (l : list A) : M B :=
  match l with [] => ret b | x :: l' => let* b := f b x in foldM f b l' end.

(** ** Sensitive values *)

Definition addSensitiveValueForms (values : gset string) (value : string) : gset string :=
  if value ==? "" then values
  else
    let values := {[value]} ∪ values in
    if TrimSpace value !=? "" then {[TrimSpace value]} ∪ values else values.

Definition matchesSensitiveValue (values : gset string) (value : string) : bool :=
  if value ==? "" then false
  else bool_decide (value ∈ values) || ((TrimSpace value !=? "") && bool_decide (TrimSpace value ∈ values)).

Definition value_forms (l : list string) : gset string := fold_left addSensitiveValueForms l ∅.

(** The keys of [values] whose value is one of the given forms. *)
Definition keys_matching (forms : gset string) (values : gmap string string) : gset string :=
  dom (filter (fun kv => matchesSensitiveValue forms (snd kv) = true) values).

Definition markSensitiveValueAliases (values : gmap string string) (sensitive : gset string) : gset string :=
  let forms := value_forms (map (str_at values) (elements sensitive)) in
  if bool_decide (forms = ∅) then sensitive else sensitive ∪ keys_matching forms values.

Section Bind.
Context `{CT : CaseTables, SL : SchemaLibs} (D : Deployment).
#[local] Notation reg := (d_reg D).
#[local] Notation cfg := (d_cfg D).

(** The keys a manifest, the configuration or the runner declares sensitive. *)
Definition module_sensitive_keys (kv : string * Module) : list string :=
  let '(name, md) := kv in
  map (fun pp => moduleParamEnvKey name (m_EnvPrefix md) (m_Exports md) (fst pp))
      (List.filter (fun pp => cp_Sensitive (snd pp)) (map_to_list (m_Changes md))).

Definition declared_sensitive (a : App) : gset string :=
  a_runnerSensitive a
  ∪ list_to_set (map (fun kv => EnvKey (fst kv)) (map_to_list (f_Secrets cfg)))
  ∪ list_to_set (map (fun pp => paramEnvKey globalScope "" (fst pp))
      (List.filter (fun pp => cp_Sensitive (snd pp)) (map_to_list (g_Changes (d_globals D)))))
  ∪ list_to_set (concat (map module_sensitive_keys (map_to_list reg))).

Definition stored_sensitive (a : App) : gset string :=
  match a_secrets a with
  | None => ∅
  | Some s => dom (s_values s) ∪ keys_matching (value_forms (map snd (map_to_list (s_values s)))) (a_env a)
  end.

Definition compute_sensitive (a : App) : gset string :=
  markSensitiveValueAliases (a_env a) (declared_sensitive a ∪ stored_sensitive a).

(** The set, computed once and then cached in [a.sensitiveKeys]. *)
Definition sensitiveEnvKeySet : M (gset string) :=
  fun a => match a_sensitiveKeys a with
           | Some s => (Ok s, a)
           | None => let out := compute_sensitive a in (Ok out, set_cache (Some out) a)
           end.

Definition resolvedValueIsSensitive (key : string) : M bool :=
  let* s := sensitiveEnvKeySet in ret (bool_decide (EnvKey key ∈ s)).

Definition resolvedValueForError (key value : string) : M (option string) :=
  let* sensitive := resolvedValueIsSensitive key in ret (if sensitive then None else Some value).

Definition rejectSourceSensitiveSelector (key module parameter : string) : M unit :=
  let key := EnvKey key in
  let* value := gets (fun a => str_at (a_env a) key) in
  if TrimSpace value ==? "" then ret tt
  else
    let* sensitive := resolvedValueIsSensitive key in
    guard sensitive (SensitiveSelector module parameter).

(** ** Who declares an environment key *)

Definition add_owner (matches : list (string * string)) (module parameter : string) : list (string * string) :=
  let m := (module, ToLower (TrimSpace parameter)) in
  if (snd m ==? "") || bool_decide (m ∈ matches) then matches else matches ++ [m].

Definition global_owners (key : string) : list (string * string) :=
  fold_left (fun acc parameter =>
    if EqualFold (parameterEnvKey globalModuleName parameter reg) key then add_owner acc globalModuleName parameter else acc)
    (g_Parameters (d_globals D) ++ GlobalParameters) [].

Definition module_owners (key : string) (acc : list (string * string)) (name : string) : list (string * string) :=
  let md := at_reg reg name in
  fold_left (fun acc parameter =>
    if EqualFold (moduleParamEnvKey name (m_EnvPrefix md) (m_Exports md) parameter) key then add_owner acc name parameter else acc)
    (SortStrings (m_Parameters md)) acc.

Definition sorted_keys {V} (m : gmap string V) : list string := SortStrings (map fst (map_to_list m)).

Definition policyOwnerForEnv (key : string) : result runErr (string * string) :=
  match fold_left (module_owners key) (sorted_keys reg) (global_owners key) with
  | [] => Ok (globalModuleName, ToLower key)
  | [m] => Ok m
  | ms => Err (EnvKeyAmbiguous key ms)
  end.

(** ** Normalising the environment *)

Definition parameterType (module parameter : string) : option SchemaParameter :=
  let parameter := ToLower (TrimSpace parameter) in
  if module ==? globalModuleName then g_Types (d_globals D) !! parameter
  else reg !! module ≫= fun md => m_Types md !! parameter.

Definition normalizeParameterValue (module parameter value : string) : result schemaError string :=
  match parameterType module parameter with
  | Some spec => if Declared spec then Normalize spec value else Ok value
  | None => Ok value
  end.

(** [globalConfig.policy]: a policy under the parameter's own name, or under one
    that maps to the same key. *)
Definition global_policy (parameter : string) : option ChangePolicy :=
  match g_Changes (d_globals D) !! ToLower (TrimSpace parameter) with
  | Some p => Some p
  | None =>
      let key := paramEnvKey globalScope "" parameter in
      snd <$> find_first (fun pp => paramEnvKey globalScope "" (fst pp) ==? key) (map_to_list (g_Changes (d_globals D)))
  end.

(** The [Sensitive] field of [policyForTarget]. *)
Definition policy_sensitive (module parameter : string) : bool :=
  match (if module ==? globalModuleName then global_policy parameter else None) with
  | Some p => cp_Sensitive p
  | None => match reg !! module ≫= fun md => m_Changes md !! ToLower parameter with Some p => cp_Sensitive p | None => false end
  end.

Definition normalize_key (sourceSensitive : gset string) (values : gmap string string) (key : string) : result runErr (gmap string string) :=
  let? owner := policyOwnerForEnv key in
  match normalizeParameterValue (fst owner) (snd owner) (str_at values key) with
  | Ok normalized => Ok (<[key := normalized]> values)
  | Err e =>
      if bool_decide (EnvKey key ∈ sourceSensitive) || policy_sensitive (fst owner) (snd owner)
      then Err (InvalidParameter key None) else Err (InvalidParameter key (Some e))
  end.

(** The values written before a failing key stay written. *)
Fixpoint normalize_keys (sourceSensitive : gset string) (keys : list string) (values : gmap string string) : result runErr unit * gmap string string :=
  match keys with
  | [] => (Ok tt, values)
  | key :: keys' =>
      match normalize_key sourceSensitive values key with
      | Ok values' => normalize_keys sourceSensitive keys' values'
      | Err e => (Err e, values)
      end
  end.
Definition normalizeConfiguredParameterEnvWithSensitive (values : gmap string string) (sourceSensitive : gset string) : result runErr unit * gmap string string :=
  normalize_keys sourceSensitive (sorted_keys values) values.

Definition normalize_env : M unit :=
  let* sensitive := sensitiveEnvKeySet in
  fun a => let '(r, env) := normalizeConfiguredParameterEnvWithSensitive (a_env a) sensitive in (r, set_env (fun _ => env) a).
End Bind.
