(* ===== verification/RunnerSelect.v ===== *)
(** * Launcher: binding one dependency to a provider

    [resolveAlternativeDependency] (runner.go), [resolveContractDependency]
    (contracts.go), [resolveCapabilityDependency] (capability.go) and
    [resolveDynamicDNS] (dynamicdns.go), with the conditions that switch a
    dependency off. *)

From Stdlib Require Import Ascii.
From S2P Require Import Prelude GoText GoNet GoStrings ConfigSchema RunnerTypes RunnerBind.

(** ** Capabilities the runner knows *)

Definition capabilityIAM : string := "iam".
Definition capabilityForwardAuth : string := "forward_auth".
Definition capabilityObjectStorage : string := "object_storage".
Definition orderingBefore : string := "before".
Definition orderingAny : string := "any".
Definition interfaceOIDC : string := "oidc".
Definition interfaceSAML : string := "saml".
Definition interfaceHTTP : string := "http".
Definition interfaceS3 : string := "s3".

Inductive selectionPolicy := selectionExplicit | selectionAuto.

Record capabilityOutputDefinition := mkOutput {
  co_ProviderPrefix : string;
  co_BindingPrefix : string;
  co_Required : list string;
  co_Sensitive : list string
}.

Record capabilityDefinition := mkCapability {
  k_Interfaces : list string;
  k_RequireAll : list string;
  k_Selection : selectionPolicy;
  k_ConfiguredProvider : option (ConfigFile -> string);
  k_DefaultInterface : option (ConfigFile -> string);
  k_ImplicitInterface : string;
  k_Outputs : gmap string capabilityOutputDefinition
}.

Definition capabilityDefinitions : gmap string capabilityDefinition :=
  list_to_map [
    (capabilityIAM, mkCapability [interfaceOIDC; interfaceSAML] [interfaceOIDC; interfaceSAML] selectionExplicit
       (Some f_IAM_Provider) (Some f_IAM_DefaultProtocol) "" ∅);
    (capabilityForwardAuth, mkCapability [interfaceHTTP] [interfaceHTTP] selectionAuto None None "" ∅);
    (capabilityObjectStorage, mkCapability [interfaceS3] [interfaceS3] selectionAuto None None interfaceS3
       {[ interfaceS3 := mkOutput "ANAS_OBJECT_STORAGE_S3_" "ANAS_OBJECT_STORAGE_BINDING__"
            ["ENDPOINT"; "REGION"; "ACCESS_KEY_ID"; "SECRET_ACCESS_KEY"; "PATH_STYLE"] ["SECRET_ACCESS_KEY"] ]})].

Definition knownCapabilityInterfaces (name : string) : option (list string) := k_Interfaces <$> capabilityDefinitions !! name.

Definition dynamicDNSAuto : string := "auto".
Definition deploymentBindingKey : string := "@deployment".
Definition capabilityDynamicDNS : string := "dynamic_dns".
Definition dynamicDNSPreference : list string := [EngineDDNSGo; EngineDDNSUpdater].

Section Select.
Context `{CT : CaseTables, SL : SchemaLibs} (D : Deployment).
#[local] Notation reg := (d_reg D).
#[local] Notation cfg := (d_cfg D).

Definition enabled (name : string) : bool := moduleEnabled cfg name.
Definition env_at (key : string) : M string := gets (fun a => str_at (a_env a) key).

(** [a.lock.Bindings[module][key]], "" without a lock. *)
Definition locked_binding (module key : string) : string :=
  match d_lock D with Some l => str_at2 (l_Bindings l) module key | None => "" end.

(** ** Conditional dependencies *)

(** The body of [capabilityRequired] and of [contractRequired]: the operator's
    value of the switch, or the manifest's default. *)
Definition contractRequired (moduleName : string) (md : Module) (enabledBy : string) : M bool :=
  if enabledBy ==? "" then ret true
  else
    let key := paramEnvKey moduleName (m_EnvPrefix md) enabledBy in
    let* raw := env_at key in
    let value := TrimSpace raw in
    let value := if value ==? "" then TrimSpace (str_at (m_Defaults md) key) else value in
    ret (EqualFold value "true").
Definition capabilityRequired (moduleName : string) (md : Module) (dep : RequiredCapability) : M bool :=
  contractRequired moduleName md (rc_EnabledBy dep).

(** ** One of several modules *)

Definition configuredProviders (providers : list string) : list string :=
  fold_left (fun out name => if contains providers name && enabled name && negb (contains out name) then out ++ [name] else out)
    (f_Order cfg) [].

Definition choose_alternative (moduleName requested : string) (dep : AlternativeDependency) : string :=
  if (requested ==? "") || (requested ==? "auto") then
    let locked := locked_binding moduleName (alt_Capability dep) in
    if negb (is_None_b (d_lock D)) && contains (alt_Providers dep) locked then locked
    else match configuredProviders (alt_Providers dep) with [p] => p | _ => alt_Default dep end
  else requested.

Definition resolveAlternativeDependency (moduleName : string) (md : Module) (dep : AlternativeDependency) : M string :=
  let key := paramEnvKey moduleName (m_EnvPrefix md) (alt_SelectedBy dep) in
  do* rejectSourceSensitiveSelector D key moduleName (alt_SelectedBy dep) ;;
  let* raw := env_at key in
  let requested := ToLower (TrimSpace raw) in
  let provider := choose_alternative moduleName requested dep in
  if negb (contains (alt_Providers dep) provider) then
    let* shown := resolvedValueForError D key requested in raise (BadAlternative moduleName (alt_SelectedBy dep) shown)
  else if is_None_b (reg !! provider) then
    let* shown := resolvedValueForError D key provider in raise (UnknownAlternative moduleName (alt_Capability dep) shown)
  else if negb (enabled provider) then
    let* shown := resolvedValueForError D key provider in raise (DisabledAlternative moduleName (alt_Capability dep) shown)
  else
    do* modify (put_env key provider) ;;
    do* modify (record_binding moduleName (alt_Capability dep) provider) ;;
    ret provider.

(** ** A contract *)

(** The interfaces of the contract that modules listed in the configuration
    implement. *)
Definition configured_interfaces (dep : ContractDependency) : list string :=
  fold_left (fun out name =>
    match reg !! name with
    | Some candidate =>
        if enabled name then
          fold_left (fun out p =>
            if (cp_Name p ==? cd_Name dep) && contains (cd_Interfaces dep) (cp_Interface p) && negb (contains out (cp_Interface p))
            then out ++ [cp_Interface p] else out) (m_ContractProviders candidate) out
        else out
    | None => out
    end) (f_Order cfg) [].

Definition choose_interface (consumer requested : string) (dep : ContractDependency) : string :=
  if (requested ==? "") || (requested ==? "auto") then
    let locked := locked_binding consumer (cd_Name dep +:+ ".interface") in
    let requested := if negb (is_None_b (d_lock D)) && contains (cd_Interfaces dep) locked then locked else "" in
    let requested := if requested ==? "" then match configured_interfaces dep with [i] => i | _ => "" end else requested in
    if requested ==? "" then cd_Default dep else requested
  else requested.

Definition contract_candidates (name iface : string) : list string :=
  SortStrings (List.filter (fun n => negb (is_None_b (providedContract (at_reg reg n) name iface)) && enabled n) (map fst (map_to_list reg))).

Definition choose_contract_provider (consumer : string) (dep : ContractDependency) (candidates : list string) : string :=
  let locked := locked_binding consumer (cd_Name dep) in
  let by_lock := if negb (is_None_b (d_lock D)) && contains candidates locked then locked else "" in
  let by_config := match List.filter (fun n => contains candidates n && enabled n) (f_Order cfg) with [p] => p | _ => "" end in
  let only := match candidates with [p] => p | _ => "" end in
  if by_lock !=? "" then by_lock else if by_config !=? "" then by_config else only.

Definition resolveContractDependency (consumer : string) (md : Module) (dep : ContractDependency) : M string :=
  match (match d_contracts D with
         | None => Some (cd_Interfaces dep)
         | Some contracts => ct_Interfaces <$> contracts !! cd_Name dep
         end) with
  | None => raise (ContractUnavailable consumer (cd_Name dep))
  | Some offered =>
      let key := paramEnvKey consumer (m_EnvPrefix md) (cd_SelectedBy dep) in
      do* rejectSourceSensitiveSelector D key consumer (cd_SelectedBy dep) ;;
      let* raw := env_at key in
      let requested := ToLower (TrimSpace raw) in
      let requested := if requested ==? "" then ToLower (TrimSpace (str_at (m_Defaults md) key)) else requested in
      let requested := choose_interface consumer requested dep in
      if negb (contains (cd_Interfaces dep) requested) || negb (contains offered requested) then
        let* shown := resolvedValueForError D key requested in raise (BadContractInterface consumer (cd_SelectedBy dep) shown)
      else
        let candidates := contract_candidates (cd_Name dep) requested in
        let* shown := resolvedValueForError D key requested in
        if is_nil candidates then raise (NoContractProvider consumer (cd_Name dep) shown)
        else
          let provider := choose_contract_provider consumer dep candidates in
          if provider ==? "" then raise (Unresolved (ManyContractProviders consumer (cd_Name dep) shown candidates))
          else
            do* modify (put_env key requested) ;;
            do* modify (record_binding consumer (cd_Name dep) provider) ;;
            do* modify (record_binding consumer (cd_Name dep +:+ ".interface") requested) ;;
            ret provider
  end.

(** ** A capability *)

Definition capabilityProviderNames (capability : string) : list string :=
  SortStrings (List.filter (fun n => negb (is_None_b (providedCapability (at_reg reg n) capability))) (map fst (map_to_list reg))).

Definition selectCapabilityProvider (moduleName capability : string) (definition : capabilityDefinition) : result runErr string :=
  match k_Selection definition with
  | selectionExplicit =>
      let provider := match k_ConfiguredProvider definition with Some f => f cfg | None => "" end in
      if provider ==? "" then Err (Unresolved (ProviderNotSet moduleName capability)) else Ok provider
  | selectionAuto =>
      let candidates := List.filter enabled (capabilityProviderNames capability) in
      let locked := locked_binding moduleName capability in
      if locked !=? "" then
        match reg !! locked with
        | None => Err (LockedProviderUnknown capability locked)
        | Some lockedModule =>
            reject is_None_b (providedCapability lockedModule capability) with LockedProviderLacks capability locked ;;
            reject negb (enabled locked) with LockedProviderDisabled capability locked ;;
            Ok locked
        end
      else
        match candidates with
        | [p] => Ok p
        | [] => Err (NoProvider moduleName capability)
        | _ => Err (Unresolved (ManyProviders moduleName capability candidates))
        end
  end.

(** The protocol when the module's own parameter does not name one: the
    deployment default where the module supports it, then the module's
    preference, then the first it supports. *)
Definition default_interface (dep : RequiredCapability) : result runErr string :=
  let fallback := match capabilityDefinitions !! rc_Name dep with
                  | Some k => match k_DefaultInterface k with Some f => f cfg | None => "" end
                  | None => "" end in
  reject (fallback !=? "") && negb (contains (default [] (knownCapabilityInterfaces (rc_Name dep))) fallback)
    with BadDefaultProtocol fallback ;;
  let iface := if (fallback !=? "") && contains (rc_AnyOf dep) fallback then fallback else "" in
  let iface := if iface ==? "" then default "" (find_first (contains (rc_AnyOf dep)) (rc_Prefer dep)) else iface in
  Ok (if iface ==? "" then match rc_AnyOf dep with i :: _ => i | [] => "" end else iface).

(** The parameter that overrides the protocol, if the manifest names one. *)
Definition interface_key (moduleName : string) (md : Module) (dep : RequiredCapability) : string :=
  if rc_InterfaceSelectedBy dep !=? "" then paramEnvKey moduleName (m_EnvPrefix md) (rc_InterfaceSelectedBy dep) else "".
Definition check_interface_selector (moduleName key : string) (dep : RequiredCapability) : M unit :=
  if rc_InterfaceSelectedBy dep !=? "" then rejectSourceSensitiveSelector D key moduleName (rc_InterfaceSelectedBy dep) else ret tt.

(** The protocol the parameter asks for, or the default. *)
Definition requested_interface (moduleName key : string) (dep : RequiredCapability) : M string :=
  let* raw := env_at key in
  let requested := ToLower (TrimSpace raw) in
  if (requested !=? "") && (requested !=? "auto") then
    if negb (contains (rc_AnyOf dep) requested) then
      let* shown := resolvedValueForError D key requested in raise (BadInterface moduleName (rc_InterfaceSelectedBy dep) shown)
    else ret requested
  else lift (default_interface dep).

Definition resolveCapabilityInterface (moduleName : string) (md : Module) (dep : RequiredCapability) (provider : string) (capability : ProvidedCapability) : M string :=
  let key := interface_key moduleName md dep in
  do* check_interface_selector moduleName key dep ;;
  let* iface := requested_interface moduleName key dep in
  if iface ==? "" then raise (NoInterface moduleName (rc_Name dep))
  else if negb (contains (pc_Interfaces capability) iface) then
    let* shown := resolvedValueForError D key iface in raise (InterfaceNotOffered moduleName (rc_Name dep) provider shown)
  else
    do* (if key !=? "" then modify (put_env key iface) else ret tt) ;;
    ret iface.

(** What a successful capability binding records. *)
Definition record_capability (moduleName : string) (dep : RequiredCapability) (provider iface : string) (a : App) : App :=
  let a := if rc_Name dep ==? capabilityIAM then set_iam provider (insert moduleName iface) a else a in
  let a := set_capabilityProviders (insert (rc_Name dep) provider) a in
  let a := record_binding moduleName (rc_Name dep) provider a in
  let a := record_binding moduleName (rc_Name dep +:+ ".interface") iface a in
  if rc_EnabledBy dep !=? "" then record_binding moduleName (rc_Name dep +:+ ".enabled_by") (rc_EnabledBy dep) a else a.

Definition resolveCapabilityDependency (moduleName : string) (md : Module) (dep : RequiredCapability) : M string :=
  match capabilityDefinitions !! rc_Name dep with
  | None => raise (UnknownCapability moduleName (rc_Name dep))
  | Some definition =>
      let* provider := lift (selectCapabilityProvider moduleName (rc_Name dep) definition) in
      match reg !! provider with
      | None => raise (ProviderUnknown (rc_Name dep) provider)
      | Some providerMod =>
          match providedCapability providerMod (rc_Name dep) with
          | None => raise (ProviderLacksCapability (rc_Name dep) provider)
          | Some capability =>
              do* guard (negb (enabled provider)) (ProviderDisabled moduleName (rc_Name dep) provider) ;;
              let* iface := resolveCapabilityInterface moduleName md dep provider capability in
              do* modify (record_capability moduleName dep provider iface) ;;
              ret provider
          end
      end
  end.

(** ** A single identity provider *)

Definition provides_iam (name : string) : bool :=
  match reg !! name with Some md => negb (is_None_b (providedCapability md capabilityIAM)) | None => false end.

Definition active_iams : list string :=
  let active := fold_left (fun acc name =>
    if enabled name && provides_iam name && negb (contains acc name) then acc ++ [name] else acc) (f_Order cfg) [] in
  let provider := f_IAM_Provider cfg in
  if (provider !=? "") && provides_iam provider && negb (contains active provider) then active ++ [provider] else active.

Definition checkSingleIAM : result runErr unit :=
  if (1 <? Z.of_nat (length active_iams)) then Err (SeveralIAM (SortStrings active_iams)) else Ok tt.

(** ** Dynamic DNS *)

Definition lockedDynamicDNSProvider : string := locked_binding deploymentBindingKey capabilityDynamicDNS.

Definition resolveDynamicDNS : result runErr string :=
  if f_DynamicDNS_Provider cfg ==? "" then Ok ""
  else
    match d_dns D with
    | None => Err DNSRegistry
    | Some lookup =>
        let vendor := f_DynamicDNS_DNSProvider cfg in
        match lookup vendor with
        | None => Err (UnknownDNSPlatform vendor)
        | Some platform =>
            let requested := f_DynamicDNS_Provider cfg in
            let available n := negb (is_None_b (reg !! n)) in
            if requested !=? dynamicDNSAuto then
              reject negb (contains dynamicDNSPreference requested) with NotDynamicDNS requested ;;
              reject negb (available requested) with DynamicDNSUnavailable requested ;;
              reject negb (enabled requested) with DynamicDNSDisabled requested ;;
              reject negb (Supports platform requested) with DynamicDNSUnsupported requested (pl_Name platform) ;;
              Ok requested
            else
              let locked := lockedDynamicDNSProvider in
              if (locked !=? "") && Supports platform locked then
                reject negb (available locked) with LockedDNSUnavailable locked ;;
                reject negb (enabled locked) with LockedDNSDisabled locked ;;
                Ok locked
              else
                match find_first (fun n => Supports platform n && contains (f_Order cfg) n && enabled n) dynamicDNSPreference with
                | Some n => Ok n
                | None =>
                    match find_first (fun n => Supports platform n && available n && enabled n) dynamicDNSPreference with
                    | Some n => Ok n
                    | None => Err (NoDynamicDNS (pl_Name platform))
                    end
                end
        end
    end.

Definition envPrefixFor (name : string) : string :=
  match reg !! name with
  | Some md => if m_EnvPrefix md !=? "" then m_EnvPrefix md else defaultEnvPrefix name
  | None => defaultEnvPrefix name
  end.

Definition mark_managed (provider engine : string) (a : App) : App :=
  let key := envPrefixFor engine +:+ "_DYNAMIC_DNS_MANAGED" in
  setEnvOwner key engine (put_env key (if engine ==? provider then "true" else "false") a).

Definition applyDynamicDNSBinding (provider : string) (a : App) : App :=
  if provider ==? "" then a
  else
    let a := set_dynamicDNS provider (record_binding deploymentBindingKey capabilityDynamicDNS provider a) in
    let key := envPrefixFor provider +:+ "_DNS_PROVIDER" in
    let a := if TrimSpace (str_at (a_env a) key) ==? "" then setEnvOwner key provider (put_env key (f_DynamicDNS_DNSProvider cfg) a) else a in
    fold_left (fun a engine => mark_managed provider engine a) (List.filter (fun e => e !=? EngineLego) Engines) a.
End Select.
