(* ===== verification/RunnerOrder.v ===== *)
(** * Launcher: which modules run, and in which order

    [resolveOrder] (runner.go): a depth-first traversal of the dependency graph
    that binds providers on the way, a second pass that brings in the providers
    named only by unordered dependencies, and [stableModuleOrder], which sorts
    the result.  The traversal recurses and its second pass loops without a
    bound that is visible in the code; both run on fuel here, and
    RunnerOrderFacts shows that it never runs out.

    Where the code ranges over a Go map and the outcome could depend on the
    order, that order is an argument: [reg_iter] for the lookups of
    [credentialProviderOwner], [dep_iter] for [stableModuleOrder]. *)

From Stdlib Require Import Ascii.
From S2P Require Import Prelude GoText GoNet GoStrings ConfigSchema RunnerTypes RunnerBind RunnerSelect.

(** ** Sorting *)

(** The successors of each selected module and the number of its
    predecessors. *)
Record graph := mkGraph { gr_next : gmap string (list string); gr_indegree : gmap string Z }.

Definition indegree (g : graph) (n : string) : Z := default 0 (gr_indegree g !! n).
Definition next_of (g : graph) (n : string) : list string := default [] (gr_next g !! n).

Definition addEdge (selected : gset string) (g : graph) (before after : string) : graph :=
  if negb (bool_decide (before ∈ selected)) || negb (bool_decide (after ∈ selected)) || contains (next_of g before) after then g
  else mkGraph (<[before := next_of g before ++ [after]]> (gr_next g)) (<[after := indegree g after + 1]> (gr_indegree g)).

Definition position (initial : list string) (n : string) : nat := default 0%nat (fst <$> list_find (eq n) initial).

(** [sort.SliceStable] by position. *)
Fixpoint insert_by (pos : string -> nat) (x : string) (l : list string) : list string :=
  match l with [] => [x] | y :: l' => if (pos x <=? pos y)%nat then x :: l else y :: insert_by pos x l' end.
Definition sort_by (pos : string -> nat) (l : list string) : list string := fold_right (insert_by pos) [] l.

(** One dependent of the module just placed. *)
Definition release (pos : string -> nat) (st : gmap string Z * list string) (dependent : string) : gmap string Z * list string :=
  let '(deg, ready) := st in
  let d := default 0 (deg !! dependent) - 1 in
  (<[dependent := d]> deg, if d =? 0 then sort_by pos (ready ++ [dependent]) else ready).

Fixpoint kahn (fuel : nat) (pos : string -> nat) (g : graph) (deg : gmap string Z) (ready ordered : list string) : option (gmap string Z * list string) :=
  match ready with
  | [] => Some (deg, ordered)
  | name :: ready' =>
      match fuel with
      | O => None
      | S fuel =>
          let '(deg, ready) := fold_left (release pos) (next_of g name) (deg, ready') in
          kahn fuel pos g deg ready (ordered ++ [name])
      end
  end.

Definition dep_edges (dep_iter : list string) (deps : gmap string (list string)) : list (string * string) :=
  concat (map (fun name => map (fun dep => (dep, name)) (default [] (deps !! name))) dep_iter).
Definition run_after_edges (initial : list string) (reg : gmap string Module) : list (string * string) :=
  concat (map (fun name => map (fun after => (after, name)) (m_RunAfter (at_reg reg name))) initial).

Definition build_graph (initial : list string) (edges : list (string * string)) : graph :=
  fold_left (fun g e => addEdge (list_to_set initial) g (fst e) (snd e)) edges
    (mkGraph ∅ (list_to_map (map (fun n => (n, 0)) initial))).

Definition stableModuleOrder (dep_iter initial : list string) (deps : gmap string (list string)) (reg : gmap string Module) : result runErr (list string) :=
  let g := build_graph initial (dep_edges dep_iter deps ++ run_after_edges initial reg) in
  let ready := List.filter (fun n => indegree g n =? 0) initial in
  match kahn (2 * length initial) (position initial) g (gr_indegree g) ready [] with
  | None => Err OutOfFuel
  | Some (deg, ordered) =>
      if (length ordered =? length initial)%nat then Ok ordered
      else Err (OrderingCycle (List.filter (fun n => 0 <? default 0 (deg !! n)) initial))
  end.

(** ** The identity topology

    [publishIAMEnv]. *)

Definition envIAMBindingPfx : string := "ANAS_IAM_BINDING__".
Definition join_comma (l : list string) : string := JoinAt "," l.

Section Topology.
Context `{CT : CaseTables}.

Definition iamBindingKey (consumer suffix : string) : string :=
  envIAMBindingPfx +:+ ToUpper (dash_to_underscore consumer) +:+ "__" +:+ suffix.

Definition iamConsumers (a : App) : list string := sorted_keys (a_iamBindings a).

Definition publish (key value owner : string) (a : App) : App := setEnvOwner key owner (put_env key value a).

(** A key that announces identity events, from an earlier pass or the user. *)
Definition stale_event_key (key : string) : bool :=
  HasSuffix key "__OIDC_CAEP_EVENTS" && (HasPrefix key envIAMBindingPfx || HasPrefix key "ANAS_IAM_CLIENT__").

Definition drop_stale_events (a : App) : App :=
  let stale := filter (fun k => stale_event_key k = true) (elements (dom (a_env a))) in
  set_owner (fun o => fold_left (fun o k => delete k o) stale o) (set_env (fun e => fold_left (fun e k => delete k e) stale e) a).

(** The interfaces of every client of the identity topology, each sorted. *)
Definition client_interfaces (reg : gmap string Module) (a : App) (selected : list string) : gmap string (list string) :=
  let add name iface (m : gmap string (list string)) :=
    <[name := appendUnique (default [] (m !! name)) iface]> m in
  let own := fold_left (fun m name => fold_left (fun m i => add name i m) (m_IdentityInterfaces (at_reg reg name)) m) selected ∅ in
  SortStrings <$> fold_left (fun m kv => add (fst kv) (snd kv) m) (map_to_list (a_iamBindings a)) own.

Definition app_clients (reg : gmap string Module) (selected : list string) : list string :=
  SortStrings (fold_left (fun acc name => if m_IdentityAppGroup (at_reg reg name) then appendUnique acc name else acc) selected []).

Definition publishIAMEnv (reg : gmap string Module) (selected : list string) (a : App) : App :=
  let a := drop_stale_events a in
  let a := if a_iamProvider a ==? "" then a
           else
             let capability := providedCapability (at_reg reg (a_iamProvider a)) capabilityIAM in
             publish "ANAS_IAM_INTERFACES" (join_comma (match capability with Some c => pc_Interfaces c | None => [] end)) (a_iamProvider a)
               (publish "ANAS_IAM_PROVIDER" (a_iamProvider a) (a_iamProvider a) a) in
  let a := fold_left (fun a c => publish (iamBindingKey c "INTERFACE") (str_at (a_iamBindings a) c) (a_iamProvider a) a) (iamConsumers a) a in
  let ifaces := client_interfaces reg a selected in
  let clients := sorted_keys ifaces in
  let a := publish "ANAS_IDENTITY_CLIENTS" (join_comma clients) runnerScope a in
  let a := publish "ANAS_IDENTITY_APP_CLIENTS" (join_comma (app_clients reg selected)) runnerScope a in
  let all := SortStrings (remove_dups (concat (map snd (map_to_list ifaces)))) in
  let a := fold_left (fun a i =>
      publish ("ANAS_IDENTITY_" +:+ ToUpper i +:+ "_CLIENTS")
        (join_comma (List.filter (fun c => contains (default [] (ifaces !! c)) i) clients)) runnerScope a) all a in
  fold_left (fun a c =>
      publish ("ANAS_IDENTITY_CLIENT__" +:+ ToUpper (dash_to_underscore c) +:+ "__INTERFACES")
        (join_comma (default [] (ifaces !! c))) runnerScope a) clients a.
End Topology.

(** ** The traversal *)

Record traversal := mkTraversal {
  t_seen : gset string;
  t_temp : gset string;
  t_unordered : gset string;
  t_deps : gmap string (list string);
  t_out : list string
}.
Definition start_traversal : traversal := mkTraversal ∅ ∅ ∅ ∅ [].

Section Order.
Context `{CT : CaseTables, SL : SchemaLibs} (D : Deployment).
(** [requireModuleManifest]: whether the module's directory holds a module.yml
    and no leftover runner.rb. *)
Context (manifest_ok : string -> bool).
(** The order in which the registry is visited when the [i]th credential of a
    module is looked up, and in which the dependency map is. *)
Context (reg_iter : string -> nat -> list string) (dep_iter : gmap string (list string) -> list string).
#[local] Notation reg := (d_reg D).
#[local] Notation cfg := (d_cfg D).

Definition credentialProviderOwner (iter : list string) (id : string) : option string :=
  find_first (fun name => contains (map crp_ID (m_CredentialProviders (at_reg reg name))) id) iter.

(** A provider choice that is not made yet is skipped where that is allowed. *)
Definition deferrable (c : M string) : M (option string) :=
  fun a => match c a with
           | (Ok p, a') => (Ok (Some p), a')
           | (Err e, a') => if canDeferUnresolvedBinding (d_allowUnresolved D) e then (Ok None, a') else (Err e, a')
           end.

Definition add_provider (deps : list string) (p : option string) : list string := match p with Some p => deps ++ [p] | None => deps end.

Definition alternative_step (name : string) (md : Module) (deps : list string) (dep : AlternativeDependency) : M (list string) :=
  let* p := deferrable (resolveAlternativeDependency D name md dep) in ret (add_provider deps p).

Definition contract_step (name : string) (md : Module) (deps : list string) (dep : ContractDependency) : M (list string) :=
  let* required := contractRequired name md (cd_EnabledBy dep) in
  if negb required then ret deps
  else let* p := deferrable (resolveContractDependency D name md dep) in ret (add_provider deps p).

Definition capability_step (name : string) (md : Module) (st : list string * gset string) (dep : RequiredCapability) : M (list string * gset string) :=
  let* required := capabilityRequired name md dep in
  if negb required then ret st
  else
    let* p := deferrable (resolveCapabilityDependency D name md dep) in
    match p with
    | None => ret st
    | Some provider =>
        if rc_Ordering dep ==? orderingAny then ret (fst st, snd st ∪ {[provider]}) else ret (fst st ++ [provider], snd st)
    end.

Fixpoint credential_steps (name : string) (i : nat) (ids : list string) (deps : list string) : result runErr (list string) :=
  match ids with
  | [] => Ok deps
  | id :: ids' =>
      match credentialProviderOwner (reg_iter name i) id with
      | None => Err (NoCredentialProvider name id)
      | Some provider => credential_steps name (S i) ids' (deps ++ [provider])
      end
  end.

(** The dependencies of one module: what must come before it, and the
    providers that must only be present. *)
Definition collect_deps (name : string) (md : Module) (unordered : gset string) : M (list string * gset string) :=
  let required := map dep_Name (List.filter (fun d => negb (dep_Optional d)) (m_Requires md)) in
  let* deps := foldM (alternative_step name md) required (m_RequiresOne md) in
  let* deps := foldM (contract_step name md) deps (m_RequiresContracts md) in
  let* st := foldM (capability_step name md) (deps, unordered) (m_RequiresCapabilities md) in
  let* deps := lift (credential_steps name 0 (map crc_Credential (m_CredentialConsumers md)) (fst st)) in
  let deps := match f_Values cfg !! name with Some c => deps ++ mc_DependsOn c | None => deps end in
  ret (uniqueStrings deps, snd st).

Fixpoint visit (fuel : nat) (t : traversal) (name : string) : M traversal :=
  match fuel with
  | O => raise OutOfFuel
  | S fuel =>
      if bool_decide (name ∈ t_seen t) then ret t
      else if bool_decide (name ∈ t_temp t) then raise (CycleAt name)
      else
        match reg !! name with
        | None => raise (UnknownModule name)
        | Some md =>
            do* guard (negb (enabled D name)) (ModuleDisabled name) ;;
            do* guard (negb (d_registryOnly D) && negb (manifest_ok name)) (ModuleManifest name) ;;
            let* collected := collect_deps name md (t_unordered t) in
            let t := mkTraversal (t_seen t) (t_temp t ∪ {[name]}) (snd collected) (t_deps t) (t_out t) in
            let* t := foldM (visit fuel) t (fst collected) in
            ret (mkTraversal (t_seen t ∪ {[name]}) (t_temp t ∖ {[name]}) (t_unordered t)
                             (<[name := fst collected]> (t_deps t)) (t_out t ++ [name]))
        end
  end.

(** No chain of nested visits is longer than the registry, and neither is the
    second pass: each of its rounds settles a module. *)
Definition visit_fuel : nat := S (size (dom reg)).

Definition visit_root (t : traversal) (name : string) : M traversal :=
  if enabled D name then visit visit_fuel t name else ret t.

Definition pending (t : traversal) : list string := SortStrings (elements (t_unordered t ∖ t_seen t)).

Fixpoint drain (fuel : nat) (t : traversal) : M traversal :=
  if is_nil (pending t) then ret t
  else
    match fuel with
    | O => raise OutOfFuel
    | S fuel => let* t := foldM (visit visit_fuel) t (pending t) in drain fuel t
    end.

(** Everything up to the sort: which modules, their dependencies and the
    dynamic DNS module. *)
Definition resolve_modules (declarations_ok : bool) (mods : list string) : M (traversal * string) :=
  do* guard (negb declarations_ok) BadDeclarations ;;
  do* normalize_env D ;;
  do* lift (checkSingleIAM D) ;;
  let* dns := deferrable (lift (resolveDynamicDNS D)) in
  let dynamicDNS := default "" dns in
  let mods := if (dynamicDNS !=? "") && negb (contains mods dynamicDNS) then mods ++ [dynamicDNS] else mods in
  let* t := foldM visit_root start_traversal mods in
  let* t := drain visit_fuel t in
  ret (t, dynamicDNS).

(** [declarations_ok] is the answer of [validateConfiguredParameterDeclarations]. *)
Definition resolveOrder (declarations_ok : bool) (mods : list string) : M (list string) :=
  let* r := resolve_modules declarations_ok mods in
  let '(t, dynamicDNS) := r in
  do* modify (set_deps (t_deps t)) ;;
  do* modify (publishIAMEnv reg (t_out t)) ;;
  do* modify (applyDynamicDNSBinding D dynamicDNS) ;;
  lift (stableModuleOrder (dep_iter (t_deps t)) (t_out t) (t_deps t) reg).
End Order.
