(* ===== verification/RunnerSortFacts.v ===== *)
(** * Launcher: [stableModuleOrder] is the greedy order

    The reference: again and again, take the earliest module that is not placed
    and whose predecessors all are.  The code keeps degrees and a sorted queue
    instead; it computes the same list, whatever order the dependency map is
    visited in, and reports exactly the modules the reference cannot place. *)

From S2P Require Import Prelude GoText GoStrings ConfigSchema RunnerTypes RunnerBind RunnerOrder.

(** ** The reference *)

Section Greedy.
Context (edge : string -> string -> bool) (initial : list string).

Definition unblocked (placed : list string) (x : string) : bool :=
  forallb (fun b => implb (edge b x) (contains placed b)) initial.
Definition placeable (placed : list string) (x : string) : bool := negb (contains placed x) && unblocked placed x.

Fixpoint greedy (n : nat) (placed : list string) : list string :=
  match n with
  | O => placed
  | S n => match find_first (placeable placed) initial with Some x => greedy n (placed ++ [x]) | None => placed end
  end.
Definition greedy_order : list string := greedy (length initial) [].

Lemma find_first_some {A} (p : A -> bool) l x : find_first p l = Some x -> x ∈ l /\ p x = true.
Proof.
  induction l as [|a l IH]; [done|]. cbn. destruct (p a) eqn:E; [intros [= <-]; split; [by left|done]|].
  intros [H1 H2]%IH. split; [by right|done].
Qed.
Lemma find_first_none {A} (p : A -> bool) l : find_first p l = None <-> forall x, x ∈ l -> p x = false.
Proof.
  induction l as [|a l IH]; cbn; [split; [by intros _ x ?%elem_of_nil|done]|]. destruct (p a) eqn:E.
  - split; [done|]. intros H. rewrite H in E; [done|by left].
  - rewrite IH. split; [|intros H x Hx; apply H; by right]. intros H x [->|Hx]%elem_of_cons; auto.
Qed.
Lemma find_first_filter {A} (p : A -> bool) l : find_first p l = head (List.filter p l).
Proof. induction l as [|a l IH]; cbn; [done|]. by destruct (p a). Qed.

Lemma contains_true l x : contains l x = true <-> x ∈ l.
Proof. unfold contains. apply bool_decide_eq_true. Qed.
Lemma contains_false l x : contains l x = false <-> x ∉ l.
Proof. unfold contains. apply bool_decide_eq_false. Qed.

Lemma unblocked_true placed x : unblocked placed x = true <-> forall b, b ∈ initial -> edge b x = true -> b ∈ placed.
Proof.
  unfold unblocked. rewrite forallb_forall. setoid_rewrite <-list_elem_of_In. split; intros H b Hb.
  - specialize (H b Hb). intros E. rewrite E in H. by apply contains_true.
  - destruct (edge b x) eqn:E; [|done]. apply contains_true. auto.
Qed.

(** Each placed module comes after its predecessors. *)
Definition respects (o : list string) : Prop :=
  forall l1 x l2, o = l1 ++ x :: l2 -> forall b, b ∈ initial -> edge b x = true -> b ∈ l1.

Definition partial_order (o : list string) : Prop := NoDup o /\ (forall x, x ∈ o -> x ∈ initial) /\ respects o.

Lemma partial_nil : partial_order [].
Proof. split_and!; [constructor|by intros x ?%elem_of_nil|]. intros l1 x l2 H. by destruct l1. Qed.

Lemma partial_snoc o x : partial_order o -> x ∈ initial -> placeable o x = true -> partial_order (o ++ [x]).
Proof.
  intros (Hn & Hs & Hr) Hx Hp. unfold placeable in Hp. apply andb_true_iff in Hp as [Hc Hu].
  apply negb_true_iff, contains_false in Hc. rewrite unblocked_true in Hu. split_and!.
  - apply NoDup_app. split_and!; [done| |apply NoDup_singleton]. intros y Hy ->%list_elem_of_singleton. done.
  - intros y [Hy|Hy]%elem_of_app; [auto|]. by apply list_elem_of_singleton in Hy as ->.
  - intros l1 y l2 E b Hb He. destruct l2 as [|z l2 _] using rev_ind.
    + apply app_inj_tail in E as [-> ->]. auto.
    + rewrite app_comm_cons, app_assoc in E. apply app_inj_tail in E as [E _]. eauto.
Qed.

Lemma greedy_partial n o : partial_order o -> partial_order (greedy n o).
Proof.
  revert o. induction n as [|n IH]; intros o Ho; [done|]. cbn. destruct (find_first _ _) as [x|] eqn:E; [|done].
  apply find_first_some in E as [Hx Hp]. apply IH. by apply partial_snoc.
Qed.

Lemma partial_length o : partial_order o -> (length o <= length initial)%nat.
Proof. intros (Hn & Hs & _). apply submseteq_length, NoDup_submseteq; auto. Qed.

Lemma partial_full o : partial_order o -> (length initial <= length o)%nat -> o ≡ₚ initial.
Proof. intros (Hn & Hs & _) Hl. apply submseteq_length_Permutation; [apply NoDup_submseteq; auto|done]. Qed.

(** The reference stops only where nothing can be placed. *)
Lemma greedy_stuck n o :
  partial_order o -> (length initial <= n + length o)%nat -> find_first (placeable (greedy n o)) initial = None.
Proof.
  revert o. induction n as [|n IH]; intros o Ho Hl; cbn.
  - apply find_first_none. intros x Hx. pose proof (partial_full o Ho Hl) as Hp. unfold placeable.
    rewrite (proj2 (contains_true o x)); [done|]. by rewrite Hp.
  - destruct (find_first (placeable o) initial) as [x|] eqn:E; [|done].
    apply find_first_some in E as [Hx Hp]. apply IH; [by apply partial_snoc|]. rewrite length_app. cbn. lia.
Qed.

Lemma greedy_unfold n o x : find_first (placeable o) initial = Some x -> greedy (S n) o = greedy n (o ++ [x]).
Proof. cbn. by intros ->. Qed.

Lemma greedy_fuel n m o :
  partial_order o -> (length initial <= n + length o)%nat -> (length initial <= m + length o)%nat -> greedy n o = greedy m o.
Proof.
  revert m o. induction n as [|n IH]; intros m o Ho Hn Hm.
  - pose proof (greedy_stuck 0 o Ho Hn) as Hs. cbn in Hs |- *. destruct m as [|m]; [done|]. cbn. by rewrite Hs.
  - destruct m as [|m].
    + pose proof (greedy_stuck 0 o Ho Hm) as Hs. cbn in Hs |- *. by rewrite Hs.
    + cbn. destruct (find_first (placeable o) initial) as [x|] eqn:E; [|done]. apply find_first_some in E as [Hx Hp].
      apply IH; [by apply partial_snoc|rewrite length_app; cbn; lia..].
Qed.

Lemma greedy_order_partial : partial_order greedy_order.
Proof. apply greedy_partial, partial_nil. Qed.

(** What the reference leaves over: a non-empty set of modules each of which
    waits for another of the set. *)
Lemma greedy_blocked x :
  x ∈ initial -> x ∉ greedy_order -> exists b, b ∈ initial /\ b ∉ greedy_order /\ edge b x = true.
Proof.
  intros Hx Hn. pose proof (greedy_stuck (length initial) [] partial_nil ltac:(lia)) as Hs. fold greedy_order in Hs.
  rewrite find_first_none in Hs. specialize (Hs x Hx). unfold placeable in Hs.
  rewrite (proj2 (contains_false _ _) Hn) in Hs. cbn in Hs.
  destruct (decide (Exists (fun b => b ∉ greedy_order /\ edge b x = true) initial)) as [He|He].
  - apply Exists_exists in He as (b & Hb & ? & ?). eauto.
  - assert (unblocked greedy_order x = true); [|congruence]. apply unblocked_true. intros b Hb Eb.
    destruct (decide (b ∈ greedy_order)) as [|Hbn]; [done|]. destruct He. apply Exists_exists. eauto.
Qed.
End Greedy.

(** ** The queue *)

Lemma insert_by_perm pos x l : insert_by pos x l ≡ₚ x :: l.
Proof. induction l as [|y l IH]; cbn; [done|]. case_match; [done|]. rewrite IH. apply Permutation_swap. Qed.
Lemma sort_by_perm pos l : sort_by pos l ≡ₚ l.
Proof. induction l as [|x l IH]; cbn; [done|]. by rewrite insert_by_perm, IH. Qed.

Definition pos_le (pos : string -> nat) (x y : string) : Prop := (pos x <= pos y)%nat.

Lemma insert_by_sorted pos x l : StronglySorted (pos_le pos) l -> StronglySorted (pos_le pos) (insert_by pos x l).
Proof.
  induction 1 as [|y l Hs IH Hy]; cbn; [repeat constructor|]. destruct (pos x <=? pos y)%nat eqn:E.
  - apply Nat.leb_le in E. constructor; [by constructor|]. constructor; [done|].
    eapply Forall_impl; [exact Hy|]. unfold pos_le. intros; lia.
  - apply Nat.leb_gt in E. constructor; [done|]. rewrite Forall_forall in *. intros z Hz.
    rewrite insert_by_perm in Hz. apply elem_of_cons in Hz as [->|Hz]; [unfold pos_le; lia|auto].
Qed.
Lemma sort_by_sorted pos l : StronglySorted (pos_le pos) (sort_by pos l).
Proof. induction l as [|x l IH]; cbn; [constructor|by apply insert_by_sorted]. Qed.

Lemma position_lookup l n : n ∈ l -> l !! position l n = Some n.
Proof.
  intros Hn. unfold position. destruct (list_find (eq n) l) as [[i x]|] eqn:E; cbn.
  - apply list_find_Some in E as (Hi & -> & _). done.
  - by apply list_find_None in E; rewrite Forall_forall in E; destruct (E n Hn).
Qed.
Lemma position_inj l x y : x ∈ l -> y ∈ l -> position l x = position l y -> x = y.
Proof. intros Hx%position_lookup Hy%position_lookup E. rewrite E in Hx. congruence. Qed.

Lemma sublist_sorted l : NoDup l -> forall k, sublist k l -> StronglySorted (pos_le (position l)) k.
Proof.
  intros Hn k Hk.
  assert (StronglySorted (pos_le (position l)) l) as Hl.
  { assert (forall i x, l !! i = Some x -> position l x = i) as Hp.
    { intros i x Hi. assert (x ∈ l) as Hx by by eapply list_elem_of_lookup_2. pose proof (position_lookup l x Hx). by eapply NoDup_lookup. }
    assert (forall d k, (forall i x, k !! i = Some x -> position l x = (d + i)%nat) -> StronglySorted (pos_le (position l)) k) as H.
    { intros d k'. revert d. induction k' as [|x k' IH]; intros d H; [constructor|]. constructor.
      - apply (IH (S d)). intros i y Hi. rewrite (H (S i) y) by done. lia.
      - apply Forall_forall. intros y [i Hi]%list_elem_of_lookup. unfold pos_le. rewrite (H 0%nat x), (H (S i) y) by done. lia. }
    by apply (H 0%nat). }
  clear Hn. revert Hl. generalize (position l). intros pos. induction Hk as [|x l1 l2 Hk IH|x l1 l2 Hk IH]; intros Hl; [done| |].
  - apply StronglySorted_inv in Hl as [Hl Hx]. constructor; [auto|]. rewrite Forall_forall in *. intros y Hy. apply Hx. by eapply elem_of_submseteq, sublist_submseteq.
  - apply StronglySorted_inv in Hl as [Hl _]. auto.
Qed.

Lemma filter_sublist {A} (p : A -> bool) l : sublist (List.filter p l) l.
Proof. induction l as [|x l IH]; cbn; [constructor|]. destruct (p x); by constructor. Qed.

Lemma elem_of_Lfilter {A} (p : A -> bool) l x : x ∈ List.filter p l <-> x ∈ l /\ p x = true.
Proof. rewrite !list_elem_of_In. apply filter_In. Qed.

Lemma NoDup_Lfilter {A} (p : A -> bool) l : NoDup l -> NoDup (List.filter p l).
Proof. intros H. eapply sublist_NoDup; [exact H|]. apply filter_sublist. Qed.

Lemma Lfilter_ext {A} (p q : A -> bool) l : (forall x, x ∈ l -> p x = q x) -> List.filter p l = List.filter q l.
Proof.
  induction l as [|x l IH]; intros H; cbn; [done|]. rewrite (H x) by by left. rewrite IH; [done|]. intros y Hy. apply H. by right.
Qed.

Lemma Lfilter_none {A} (l : list A) : List.filter (fun _ => false) l = [].
Proof. by induction l. Qed.

(** Sorting by position anything that has the elements of a filter of the list
    gives that filter. *)
Lemma sort_by_filter initial p l :
  NoDup initial -> l ≡ₚ List.filter p initial -> sort_by (position initial) l = List.filter p initial.
Proof.
  intros Hn Hp. assert (forall x, x ∈ l -> x ∈ initial) as Hl by (intros x; rewrite Hp; by intros [? _]%elem_of_Lfilter).
  apply (StronglySorted_unique_strong (pos_le (position initial))).
  - intros x y Hx Hy H1 H2. rewrite sort_by_perm in Hx. apply elem_of_Lfilter in Hy as [Hy _].
    apply (position_inj initial); auto. unfold pos_le in *. lia.
  - apply sort_by_sorted.
  - apply sublist_sorted; [done|apply filter_sublist].
  - by rewrite sort_by_perm.
Qed.

Lemma filter_flip (p q : string -> bool) l b :
  NoDup l -> b ∈ l -> p b = false -> q b = true -> (forall x, x <> b -> q x = p x) ->
  length (List.filter q l) = S (length (List.filter p l)).
Proof.
  intros Hn. induction Hn as [|x l Hx Hn IH]; intros Hb Hp Hq He; [by apply elem_of_nil in Hb|].
  apply elem_of_cons in Hb as [<-|Hb].
  - cbn. rewrite Hp, Hq. cbn. f_equal. f_equal. apply Lfilter_ext. intros y Hy. apply He. by intros ->.
  - assert (x <> b) as Hxb by by intros ->. cbn. rewrite (He x Hxb). destruct (p x); cbn; by rewrite IH.
Qed.

Lemma filter_tail (ordered : list string) (z : string -> bool) l name ready :
  NoDup l -> name ∉ ordered -> List.filter (fun n => negb (contains ordered n) && z n) l = name :: ready ->
  ready = List.filter (fun n => negb (contains (ordered ++ [name]) n) && z n) l.
Proof.
  intros Hn Hno. induction Hn as [|x l Hx Hl IH]; cbn; [done|].
  destruct (negb (contains ordered x) && z x) eqn:Ex.
  - intros [= -> <-]. rewrite (proj2 (contains_true (ordered ++ [name]) name)) by (apply elem_of_app; right; by left). cbn.
    apply Lfilter_ext. intros y Hy. f_equal. f_equal. unfold contains. apply bool_decide_ext. rewrite elem_of_app, list_elem_of_singleton.
    split; [tauto|]. by intros [?| ->].
  - intros Hq'. assert (negb (contains (ordered ++ [name]) x) && z x = false) as ->; [|by apply IH].
    apply andb_false_iff in Ex as [Ex|Ex]; [|by rewrite Ex, andb_false_r].
    apply negb_false_iff, contains_true in Ex. rewrite (proj2 (contains_true (ordered ++ [name]) x)); [done|]. apply elem_of_app; by left.
Qed.

(** ** The graph *)

Section Graph.
Context (initial : list string) (Hnodup : NoDup initial).

Definition preds_count (g : graph) (placed : list string) (a : string) : nat :=
  length (List.filter (fun b => contains (next_of g b) a && negb (contains placed b)) initial).

Record graph_ok (E : list (string * string)) (g : graph) : Prop := {
  next_NoDup b : NoDup (next_of g b);
  next_edges b a : a ∈ next_of g b <-> (b, a) ∈ E /\ b ∈ initial /\ a ∈ initial;
  degree_count a : indegree g a = Z.of_nat (preds_count g [] a)
}.

Lemma addEdge_ok E g b a : graph_ok E g -> graph_ok (E ++ [(b, a)]) (addEdge (list_to_set initial) g b a).
Proof.
  intros [Hn He Hd]. unfold addEdge.
  destruct (negb _ || negb _ || contains (next_of g b) a) eqn:T.
  - split; [done| |done]. intros b' a'. rewrite He, elem_of_app, list_elem_of_singleton. split; [tauto|].
    intros [[H|[= -> ->]] [H1 H2]]; [tauto|]. breflect_in T. rewrite !elem_of_list_to_set in T.
    destruct T as [[T|T]|T]; [done|done|]. apply contains_true, He in T. tauto.
  - breflect_in T. rewrite !elem_of_list_to_set in T. destruct T as [[Hb Ha] Hc]. apply contains_false in Hc.
    set (g' := mkGraph _ _).
    assert (next_of g' b = next_of g b ++ [a]) as Nb by (unfold next_of at 1; cbn; by rewrite lookup_insert_eq).
    assert (forall x, x <> b -> next_of g' x = next_of g x) as Nx by (intros x Hx; unfold next_of; cbn; by rewrite lookup_insert_ne).
    split.
    + intros x. destruct (decide (x = b)) as [->|Hx]; [|by rewrite Nx]. rewrite Nb. apply NoDup_app.
      split_and!; [done| |apply NoDup_singleton]. by intros y Hy ->%list_elem_of_singleton.
    + intros x y. rewrite elem_of_app, list_elem_of_singleton. destruct (decide (x = b)) as [->|Hx].
      * rewrite Nb, elem_of_app, list_elem_of_singleton, He. split; [intros [?|<-]; tauto|]. intros [[H|[= <-]] ?]; tauto.
      * rewrite Nx, He by done. split; [tauto|]. intros [[H|[= <-]] ?]; tauto.
    + intros x. change (indegree g' x) with (default 0 (<[a := indegree g a + 1]> (gr_indegree g) !! x)).
      destruct (decide (x = a)) as [->|Hx].
      * rewrite lookup_insert_eq. cbn. rewrite Hd. unfold preds_count.
        rewrite (filter_flip (fun b0 => contains (next_of g b0) a && negb (contains [] b0)) (fun b0 => contains (next_of g' b0) a && negb (contains [] b0)) initial b); try done.
        { lia. } { by rewrite (proj2 (contains_false _ _) Hc). }
        { rewrite Nb. rewrite (proj2 (contains_true _ _)) by (apply elem_of_app; right; by left). done. }
        { intros y Hy. by rewrite Nx. }
      * rewrite lookup_insert_ne by done. fold (indegree g x). rewrite Hd. unfold preds_count. do 2 f_equal. apply Lfilter_ext.
        intros y _. destruct (decide (y = b)) as [->|Hy]; [|by rewrite Nx]. rewrite Nb. f_equal. unfold contains.
        apply bool_decide_ext. rewrite elem_of_app, list_elem_of_singleton. naive_solver.
Qed.

Lemma build_graph_ok E : graph_ok E (build_graph initial E).
Proof.
  unfold build_graph. set (g0 := mkGraph _ _).
  assert (graph_ok [] g0) as H0.
  { assert (forall b, next_of g0 b = []) as N by (intros b; unfold next_of; cbn; by rewrite lookup_empty). split.
    - intros b. rewrite N. constructor.
    - intros b a. rewrite N, !elem_of_nil. tauto.
    - intros a. unfold preds_count. rewrite (Lfilter_ext _ (fun _ => false)) by (intros y _; by rewrite N).
      rewrite Lfilter_none. unfold indegree, g0. cbn.
      destruct (list_to_map _ !! a) as [z|] eqn:Ez; [|done]. apply elem_of_list_to_map_2, list_elem_of_fmap in Ez as (n & [= _ ->] & _). done. }
  change E with ([] ++ E) at 1. revert H0. generalize g0. clear g0. generalize (@nil (string * string)) as E0.
  induction E as [|[b a] E IH]; intros E0 g0 H0; cbn; [by rewrite app_nil_r|].
  rewrite cons_middle, app_assoc. apply IH. by apply addEdge_ok.
Qed.

(** ** The loop *)

Section Loop.
Context (E : list (string * string)) (g : graph) (Hg : graph_ok E g).
Context (edge : string -> string -> bool) (Hedge : forall b a, a ∈ initial -> edge b a = true <-> (b, a) ∈ E).

Definition deg_at (deg : gmap string Z) (a : string) : Z := default 0 (deg !! a).
Definition queued (ordered : list string) (deg : gmap string Z) : list string :=
  List.filter (fun n => negb (contains ordered n) && (deg_at deg n =? 0)) initial.

Lemma preds_count_zero ordered a : a ∈ initial -> preds_count g ordered a = 0%nat <-> unblocked edge initial ordered a = true.
Proof.
  intros Ha. rewrite unblocked_true. unfold preds_count. rewrite length_zero_iff_nil. split.
  - intros Hf b Hb Eb. destruct (decide (b ∈ ordered)) as [|Hn]; [done|]. exfalso.
    assert (b ∈ @nil string) as Hx; [|by apply elem_of_nil in Hx]. rewrite <-Hf. apply elem_of_Lfilter. split; [done|].
    apply andb_true_iff. split; [|by apply negb_true_iff, contains_false].
    apply contains_true, (next_edges E g Hg). by rewrite <-Hedge.
  - intros H. destruct (List.filter _ initial) as [|b l] eqn:Ef; [done|]. exfalso.
    assert (b ∈ b :: l) as Hb by by left. rewrite <-Ef in Hb. apply elem_of_Lfilter in Hb as [Hb Hc].
    apply andb_true_iff in Hc as [Hc1 Hc2]. apply contains_true, (next_edges E g Hg) in Hc1 as [Hc1 _].
    apply negb_true_iff, contains_false in Hc2. apply Hc2, H; [done|]. by apply Hedge.
Qed.

Lemma preds_count_snoc ordered name a :
  name ∈ initial -> name ∉ ordered ->
  Z.of_nat (preds_count g (ordered ++ [name]) a) = Z.of_nat (preds_count g ordered a) - (if contains (next_of g name) a then 1 else 0).
Proof.
  intros Hi Hn. unfold preds_count.
  assert (forall x, x <> name -> negb (contains (ordered ++ [name]) x) = negb (contains ordered x)) as Hx.
  { intros x Hx. f_equal. unfold contains. apply bool_decide_ext. rewrite elem_of_app, list_elem_of_singleton. tauto. }
  assert (contains (ordered ++ [name]) name = true) as Hc by (apply contains_true, elem_of_app; right; by left).
  destruct (contains (next_of g name) a) eqn:Ea.
  - rewrite (filter_flip (fun b => contains (next_of g b) a && negb (contains (ordered ++ [name]) b)) (fun b => contains (next_of g b) a && negb (contains ordered b)) initial name); try done; [lia| | |].
    + by rewrite Hc, andb_false_r.
    + rewrite Ea. cbn. by apply negb_true_iff, contains_false.
    + intros x Hxn. by rewrite Hx.
  - rewrite Z.sub_0_r. do 2 f_equal. apply Lfilter_ext. intros x _. destruct (decide (x = name)) as [->|Hxn]; [by rewrite Ea|by rewrite Hx].
Qed.

(** The queue after the dependents of [name] in [done] were released. *)
Lemma release_all ordered name todo : forall done deg ready,
  name ∈ initial -> name ∉ ordered -> next_of g name = done ++ todo ->
  (forall a, a ∈ ordered ++ [name] -> preds_count g ordered a = 0%nat) ->
  (forall a, deg_at deg a = Z.of_nat (preds_count g ordered a) - (if contains done a then 1 else 0)) ->
  ready = queued (ordered ++ [name]) deg ->
  let '(deg', ready') := fold_left (release (position initial)) todo (deg, ready) in
  (forall a, deg_at deg' a = Z.of_nat (preds_count g (ordered ++ [name]) a)) /\ ready' = queued (ordered ++ [name]) deg'.
Proof.
  induction todo as [|d todo IH]; intros done deg ready Hi Hn Hnext Hz Hdeg ->; cbn [fold_left].
  - split; [|done]. intros a. rewrite app_nil_r in Hnext. rewrite Hdeg, preds_count_snoc, Hnext; done.
  - assert (d ∈ next_of g name) as Hd by (rewrite Hnext; apply elem_of_app; right; by left).
    pose proof (next_NoDup E g Hg name) as Hnd. rewrite Hnext in Hnd. apply NoDup_app in Hnd as (_ & Hdj & _).
    assert (d ∉ done) as Hdd. { intros Hx. apply (Hdj d Hx). by left. }
    pose proof (proj1 (next_edges E g Hg name d) Hd) as (_ & _ & Hdi).
    assert (deg_at deg d = Z.of_nat (preds_count g ordered d)) as Ed by (rewrite Hdeg, (proj2 (contains_false _ _) Hdd); lia).
    assert (1 <= Z.of_nat (preds_count g ordered d)) as Hpos.
    { pose proof (preds_count_snoc ordered name d Hi Hn) as Hs. rewrite (proj2 (contains_true _ _) Hd) in Hs. lia. }
    assert (d ∉ ordered ++ [name]) as Hdo. { intros Hx%Hz. lia. }
    unfold release at 2. fold (deg_at deg d).
    set (deg1 := <[d := deg_at deg d - 1]> deg).
    assert (forall a, a <> d -> deg_at deg1 a = deg_at deg a) as Hne by (intros a Ha; unfold deg_at, deg1; by rewrite lookup_insert_ne).
    assert (deg_at deg1 d = deg_at deg d - 1) as Heq by (unfold deg_at at 1, deg1; by rewrite lookup_insert_eq).
    apply (IH (done ++ [d])); try done.
    + by rewrite <-app_assoc.
    + intros a. destruct (decide (a = d)) as [->|Ha].
      * rewrite Heq, Ed, (proj2 (contains_true _ _)) by (apply elem_of_app; right; by left). lia.
      * rewrite Hne, Hdeg by done. f_equal. unfold contains.
        rewrite (bool_decide_ext (a ∈ done ++ [d]) (a ∈ done)); [done|]. rewrite elem_of_app, list_elem_of_singleton. tauto.
    + destruct (deg_at deg d - 1 =? 0) eqn:Ez.
      * apply sort_by_filter; [done|]. apply NoDup_Permutation.
        -- apply NoDup_app. split_and!; [by apply NoDup_Lfilter| |apply NoDup_singleton].
           intros x Hx ->%list_elem_of_singleton. apply elem_of_Lfilter in Hx as [_ Hx]. breflect. lia.
        -- by apply NoDup_Lfilter.
        -- intros x. rewrite elem_of_app, list_elem_of_singleton. unfold queued. rewrite !elem_of_Lfilter.
           destruct (decide (x = d)) as [->|Hx]; [|rewrite Hne by done; tauto].
           rewrite (proj2 (contains_false _ _) Hdo), Heq. cbn. breflect. split; [|tauto]. intros _. split; [done|lia].
      * apply Lfilter_ext. intros x _. destruct (decide (x = d)) as [->|Hx]; [|by rewrite Hne].
        rewrite Heq, Ez. breflect. rewrite Ed. replace (Z.of_nat (preds_count g ordered d) =? 0) with false; [done|]. symmetry. apply Z.eqb_neq. lia.
Qed.

Lemma placed_count ordered a : partial_order edge initial ordered -> a ∈ ordered -> preds_count g ordered a = 0%nat.
Proof.
  intros (_ & Hs & Hr) Ha. apply preds_count_zero; [auto|]. apply unblocked_true. intros b Hb He.
  apply list_elem_of_split in Ha as (l1 & l2 & ->). apply elem_of_app. left. by eapply Hr.
Qed.

Lemma queued_placeable ordered deg :
  (forall a, deg_at deg a = Z.of_nat (preds_count g ordered a)) -> queued ordered deg = List.filter (placeable edge initial ordered) initial.
Proof.
  intros Hd. apply Lfilter_ext. intros x Hx. unfold placeable. f_equal. rewrite Hd.
  destruct (unblocked edge initial ordered x) eqn:Eu.
  - apply preds_count_zero in Eu as ->; done.
  - apply Z.eqb_neq. intros H0. assert (preds_count g ordered x = 0%nat) as H1 by lia. apply preds_count_zero in H1; [congruence|done].
Qed.

Lemma kahn_greedy fuel : forall deg ordered,
  partial_order edge initial ordered -> (forall a, deg_at deg a = Z.of_nat (preds_count g ordered a)) ->
  (length initial <= fuel + length ordered)%nat ->
  exists deg', kahn fuel (position initial) g deg (queued ordered deg) ordered = Some (deg', greedy edge initial fuel ordered) /\
    forall a, deg_at deg' a = Z.of_nat (preds_count g (greedy edge initial fuel ordered) a).
Proof.
  induction fuel as [|fuel IH]; intros deg ordered Ho Hd Hf; pose proof (queued_placeable ordered deg Hd) as Hq; rewrite Hq.
  - pose proof (greedy_stuck edge initial 0 ordered Ho Hf) as Hs. rewrite find_first_filter in Hs. cbn in Hs.
    destruct (List.filter _ initial); [|done]. cbn. by exists deg.
  - cbn [greedy]. rewrite find_first_filter. destruct (List.filter _ initial) as [|name ready] eqn:Ef; cbn [head kahn]; [by exists deg|].
    assert (name ∈ initial /\ placeable edge initial ordered name = true) as [Hni Hnp] by (apply elem_of_Lfilter; rewrite Ef; by left).
    pose proof Hnp as Hnp'. unfold placeable in Hnp'. apply andb_true_iff in Hnp' as [Hno Hnu]. apply negb_true_iff, contains_false in Hno.
    assert (ready = queued (ordered ++ [name]) deg) as Hr.
    { apply (filter_tail ordered (fun n => deg_at deg n =? 0) initial); [done|done|]. exact (eq_trans Hq eq_refl). }
    pose proof (partial_snoc edge initial ordered name Ho Hni Hnp) as Ho'.
    pose proof (release_all ordered name (next_of g name) [] deg ready Hni Hno eq_refl) as Hrel.
    destruct (fold_left _ _ _) as [deg' ready'].
    destruct Hrel as [Hd' ->]; [| |done|].
    + intros a [Ha|Ha%list_elem_of_singleton]%elem_of_app; [by apply placed_count|subst a]. by apply preds_count_zero.
    + intros a. rewrite Hd, (proj2 (contains_false [] a)) by apply not_elem_of_nil. lia.
    + apply IH; [done|done|]. rewrite length_app. cbn. lia.
Qed.
End Loop.
End Graph.

(** ** The code computes the reference *)

(** [b] must come before [a]: a recorded dependency or a RunAfter of [a]. *)
Definition must_precede (deps : gmap string (list string)) (reg : gmap string Module) (b a : string) : bool :=
  contains (default [] (deps !! a)) b || contains (m_RunAfter (at_reg reg a)) b.

Definition reference_order (initial : list string) (deps : gmap string (list string)) (reg : gmap string Module) : list string :=
  greedy_order (must_precede deps reg) initial.

Lemma edges_spec it initial deps reg b a :
  it ≡ₚ map fst (map_to_list deps) -> a ∈ initial ->
  (b, a) ∈ dep_edges it deps ++ run_after_edges initial reg <-> must_precede deps reg b a = true.
Proof.
  intros Hit Ha. unfold must_precede. rewrite orb_true_iff, !contains_true, elem_of_app. unfold dep_edges, run_after_edges.
  rewrite !list_elem_of_In, !in_concat. split.
  - intros [(x & Hx & Hb)|(x & Hx & Hb)]; apply in_map_iff in Hx as (n & <- & Hn); apply in_map_iff in Hb as (y & [= -> ->] & Hy); auto.
  - intros [Hb|Hb].
    + left. exists (map (fun dep => (dep, a)) (default [] (deps !! a))). split; [|by apply in_map_iff; eauto].
      apply in_map_iff. exists a. split; [done|]. apply list_elem_of_In. rewrite Hit. apply list_elem_of_In, in_map_iff.
      destruct (deps !! a) as [l|] eqn:El; [|done]. exists (a, l). split; [done|]. apply list_elem_of_In, elem_of_map_to_list. done.
    + right. exists (map (fun after => (after, a)) (m_RunAfter (at_reg reg a))). split; [|by apply in_map_iff; eauto].
      apply in_map_iff. exists a. split; [done|]. by apply list_elem_of_In.
Qed.

Lemma stableModuleOrder_reference it initial deps reg :
  NoDup initial -> it ≡ₚ map fst (map_to_list deps) ->
  stableModuleOrder it initial deps reg =
  let o := reference_order initial deps reg in
  if (length o =? length initial)%nat then Ok o else Err (OrderingCycle (List.filter (fun n => negb (contains o n)) initial)).
Proof.
  intros Hn Hit. unfold stableModuleOrder, reference_order. set (E := dep_edges it deps ++ run_after_edges initial reg).
  set (g := build_graph initial E). pose proof (build_graph_ok initial Hn E) as Hg. fold g in Hg.
  set (edge := must_precede deps reg).
  assert (forall b a, a ∈ initial -> edge b a = true <-> (b, a) ∈ E) as Hedge by (intros b a Ha; symmetry; by apply edges_spec).
  assert (forall a, deg_at (gr_indegree g) a = Z.of_nat (preds_count initial g [] a)) as Hd by apply (degree_count initial E g Hg).
  destruct (kahn_greedy initial Hn E g Hg edge Hedge (2 * length initial) (gr_indegree g) []) as (deg & Hk & Hdeg); [apply partial_nil|done|cbn; lia|].
  assert (List.filter (fun n => indegree g n =? 0) initial = queued initial [] (gr_indegree g)) as ->.
  { apply Lfilter_ext. intros x _. by rewrite (proj2 (contains_false [] x)) by apply not_elem_of_nil. }
  rewrite Hk. clear Hk. rewrite (greedy_fuel edge initial (2 * length initial) (length initial) []) in * by (apply partial_nil || (cbn; lia)).
  fold (greedy_order edge initial) in *. cbn zeta. destruct (_ =? _)%nat; [done|]. do 2 f_equal. apply Lfilter_ext. intros x Hx.
  fold (deg_at deg x). rewrite Hdeg. pose proof (greedy_order_partial edge initial) as Ho.
  destruct (contains (greedy_order edge initial) x) eqn:Ec; cbn.
  - apply contains_true in Ec. by rewrite (placed_count initial E g Hg edge Hedge).
  - apply contains_false in Ec. apply Z.ltb_lt. enough (preds_count initial g (greedy_order edge initial) x <> 0%nat) by lia.
    intros H0. apply (preds_count_zero initial E g Hg edge Hedge) in H0; [|done]. rewrite unblocked_true in H0.
    destruct (greedy_blocked edge initial x Hx Ec) as (b & Hb & Hbn & He). by apply Hbn, H0.
Qed.

(** What a successful sort gives. *)
Lemma reference_order_ok initial deps reg o :
  NoDup initial -> o = reference_order initial deps reg -> length o = length initial ->
  o ≡ₚ initial /\ respects (must_precede deps reg) initial o.
Proof.
  intros Hn -> Hl. pose proof (greedy_order_partial (must_precede deps reg) initial) as Ho.
  split; [apply (partial_full _ _ _ Ho); unfold reference_order in Hl; lia|apply Ho].
Qed.
