(* ===== verification/RunnerSelectFacts.v ===== *)
(** * Launcher: what binding a dependency does

    For each of the three kinds of dependency: which provider a successful
    resolution returns, what it records, and that a failing one records
    nothing. *)

From S2P Require Import Prelude GoText GoStrings ConfigSchema RunnerTypes RunnerBind RunnerSelect RunnerOrder RunnerSortFacts.

(** ** The monad *)

Lemma bindM_ok {A B} (c : M A) (k : A -> M B) a y a2 :
  bindM c k a = (Ok y, a2) <-> exists x a1, c a = (Ok x, a1) /\ k x a1 = (Ok y, a2).
Proof.
  unfold bindM. destruct (c a) as [[x|e] a1] eqn:E; split; intros H.
  - eauto.
  - destruct H as (? & ? & [= <- <-] & H). done.
  - done.
  - by destruct H as (? & ? & ? & _).
Qed.

Lemma guard_ok b e a y a2 : guard b e a = (Ok y, a2) -> b = false /\ a2 = a.
Proof. unfold guard. destruct b; [done|]. by intros [= <- <-]. Qed.

(** Follow a successful run. *)
Ltac m_step H :=
  match type of H with
  | bindM ?c ?k ?a = (Ok ?y, ?a2) =>
      let x := fresh "x" in let a1 := fresh "a" in let H1 := fresh "Hm" in
      apply bindM_ok in H as (x & a1 & H1 & H)
  | guard _ _ _ = (Ok _, _) => let E := fresh "Hg" in apply guard_ok in H as [E ->]
  | ret _ _ = (Ok _, _) => injection H as <- <-
  | raise _ _ = (Ok _, _) => discriminate H
  | gets _ _ = (Ok _, _) => injection H as <- <-
  | modify _ _ = (Ok _, _) => injection H as <- <-
  | lift _ _ = (Ok _, _) => let E := fresh "El" in injection H as E <-
  end.

Lemma foldM_ind {A B} (f : B -> A -> M B) (P : list A -> B -> App -> Prop) l : forall b a b' a',
  foldM f b l a = (Ok b', a') -> P l b a ->
  (forall x l b a b1 a1, P (x :: l) b a -> f b x a = (Ok b1, a1) -> P l b1 a1) -> P [] b' a'.
Proof.
  induction l as [|x l IH]; intros b a b' a' H H0 Hs; cbn in H; [by injection H as <- <-|].
  apply bindM_ok in H as (b1 & a1 & H1 & H2). eapply IH; [exact H2| |exact Hs]. by eapply Hs.
Qed.

(** An operation that changes nothing but the cache of sensitive keys. *)
Definition quiet {A} (c : M A) : Prop := forall a r a', c a = (r, a') -> exists s, a' = set_cache s a.

Lemma quiet_retM {A} (x : A) : quiet (ret x).
Proof. intros a r a' [= <- <-]. by exists (a_sensitiveKeys a); destruct a. Qed.
Lemma quiet_raise {A} e : quiet (@raise A e).
Proof. intros a r a' [= <- <-]. by exists (a_sensitiveKeys a); destruct a. Qed.
Lemma quiet_gets {A} (f : App -> A) : quiet (gets f).
Proof. intros a r a' [= <- <-]. by exists (a_sensitiveKeys a); destruct a. Qed.
Lemma quiet_lift {A} (r : result runErr A) : quiet (lift r).
Proof. intros a r' a' [= <- <-]. by exists (a_sensitiveKeys a); destruct a. Qed.
Lemma quiet_guard b e : quiet (guard b e).
Proof. unfold guard. destruct b; [apply quiet_raise|apply quiet_retM]. Qed.
Lemma quiet_bindM {A B} (c : M A) (k : A -> M B) : quiet c -> (forall x, quiet (k x)) -> quiet (bindM c k).
Proof.
  intros Hc Hk a r a'. unfold bindM. destruct (c a) as [[x|e] a1] eqn:E; destruct (Hc _ _ _ E) as [s ->].
  - intros H. destruct (Hk _ _ _ _ H) as [s' ->]. by exists s'; destruct a.
  - intros [= <- <-]. by exists s.
Qed.
Create HintDb quiet.
#[export] Hint Resolve quiet_retM quiet_raise quiet_gets quiet_lift quiet_guard quiet_bindM : quiet.

Section SelectFacts.
Context `{CT : CaseTables, SL : SchemaLibs} (D : Deployment).
#[local] Notation reg := (d_reg D).
#[local] Notation cfg := (d_cfg D).

Lemma quiet_sensitive : quiet (sensitiveEnvKeySet D).
Proof.
  intros a r a'. unfold sensitiveEnvKeySet. destruct (a_sensitiveKeys a) as [s|] eqn:E; intros [= <- <-]; [|by eexists].
  by exists (Some s); rewrite <-E; destruct a.
Qed.
Lemma quiet_value_sensitive key : quiet (resolvedValueIsSensitive D key).
Proof. apply quiet_bindM; [apply quiet_sensitive|auto with quiet]. Qed.
Lemma quiet_value_error key value : quiet (resolvedValueForError D key value).
Proof. apply quiet_bindM; [apply quiet_value_sensitive|auto with quiet]. Qed.
Lemma quiet_reject key m p : quiet (rejectSourceSensitiveSelector D key m p).
Proof.
  apply quiet_bindM; [apply quiet_gets|]. intros v. case_match; [apply quiet_retM|].
  apply quiet_bindM; [apply quiet_value_sensitive|intros; apply quiet_guard].
Qed.
Lemma quiet_env_at key : quiet (env_at key).
Proof. apply quiet_gets. Qed.
Lemma quiet_required m md e : quiet (contractRequired m md e).
Proof. unfold contractRequired. case_match; [apply quiet_retM|]. apply quiet_bindM; [apply quiet_env_at|intros; apply quiet_retM]. Qed.

(** ** Results and records *)

(** What a run that binds one dependency of [m] may do to the record. *)
Definition records (m : string) (entries : list (string * string)) (a a' : App) : Prop :=
  a_resolvedBindings a' = fold_left (fun b e => <[m := <[fst e := snd e]> (default ∅ (b !! m))]> b) entries (a_resolvedBindings a).

Definition is_provider (p : string) : Prop := is_Some (reg !! p) /\ enabled D p = true.

Ltac quiet_run H q :=
  let s := fresh "s" in let E := fresh "Eq" in destruct (q _ _ _ H) as [s E]; subst.

Lemma raise_shown {A} key value (e : option string -> runErr) a r a' :
  bindM (resolvedValueForError D key value) (fun shown => raise (e shown)) a = (r, a') ->
  (exists shown, r = @Err runErr A (e shown)) /\ a_resolvedBindings a' = a_resolvedBindings a.
Proof.
  unfold bindM. destruct (resolvedValueForError D key value a) as [[x|e'] a1] eqn:E.
  - destruct (quiet_value_error _ _ _ _ _ E) as [s ->]. intros [= <- <-]. eauto.
  - unfold resolvedValueForError, resolvedValueIsSensitive, bindM, sensitiveEnvKeySet in E. by destruct (a_sensitiveKeys a).
Qed.

Lemma alternative_spec m md dep a r a' :
  resolveAlternativeDependency D m md dep a = (r, a') ->
  match r with
  | Ok p => p ∈ alt_Providers dep /\ is_provider p /\ records m [(alt_Capability dep, p)] a a'
  | Err _ => a_resolvedBindings a' = a_resolvedBindings a
  end.
Proof.
  unfold resolveAlternativeDependency. set (key := paramEnvKey _ _ _). unfold bindM at 1.
  destruct (rejectSourceSensitiveSelector D key m _ a) as [[[]|e] a1] eqn:E1; destruct (quiet_reject _ _ _ _ _ _ E1) as [s1 ->].
  - unfold bindM at 1. cbn [env_at gets]. set (requested := ToLower _). set (provider := choose_alternative _ _ _ _).
    destruct (negb (contains _ provider)) eqn:Ep; [|destruct (is_None_b (reg !! provider)) eqn:Er; [|destruct (negb (enabled D provider)) eqn:Ee]].
    1-3: intros H; apply raise_shown in H as [[shown ->] H]; exact H.
    intros [= <- <-]. apply negb_false_iff in Ep, Ee. apply contains_true in Ep. split_and!; [done| |done].
    split; [|done]. by destruct (reg !! provider).
  - by intros [= <- <-].
Qed.

Lemma contract_candidates_spec name iface p :
  p ∈ contract_candidates D name iface <-> is_provider p /\ is_Some (providedContract (at_reg reg p) name iface).
Proof.
  unfold contract_candidates. rewrite elem_of_SortStrings, elem_of_Lfilter, andb_true_iff, list_elem_of_In, in_map_iff.
  unfold is_provider, is_Some. split.
  - intros [([k v] & <- & Hk) [Hc He]]. apply list_elem_of_In, elem_of_map_to_list in Hk. cbn in *.
    split_and!; eauto. by destruct (providedContract _ _ _); eauto.
  - intros [[[v Hv] He] [c Hc]]. split.
    + exists (p, v). split; [done|]. by apply list_elem_of_In, elem_of_map_to_list.
    + by rewrite Hc.
Qed.

Lemma choose_contract_provider_elem m dep cs : choose_contract_provider D m dep cs = "" \/ choose_contract_provider D m dep cs ∈ cs.
Proof.
  unfold choose_contract_provider. cbv zeta. set (by_lock := if negb (is_None_b _) && _ then _ else _).
  set (by_config := match List.filter (fun n => contains cs n && _) _ with [p] => p | _ => "" end).
  assert (by_lock = "" \/ by_lock ∈ cs) as Hl.
  { unfold by_lock. destruct (_ && _) eqn:E; [|by left]. apply andb_true_iff in E as [_ E%contains_true]. by right. }
  assert (by_config = "" \/ by_config ∈ cs) as Hc.
  { unfold by_config. destruct (List.filter _ _) as [|p []] eqn:Ef; [by left| |by left]. right.
    assert (p ∈ [p]) as Hp by by left. rewrite <-Ef in Hp. apply elem_of_Lfilter in Hp as [_ Hp]. apply andb_true_iff in Hp as [Hp _]. by apply contains_true. }
  destruct (by_lock !=? "") eqn:E1; [tauto|]. destruct (by_config !=? "") eqn:E2; [tauto|].
  destruct cs as [|p []]; [by left|right; by left|by left].
Qed.

Lemma contract_spec m md dep a r a' :
  resolveContractDependency D m md dep a = (r, a') ->
  match r with
  | Ok p => exists iface, iface ∈ cd_Interfaces dep /\ p <> "" /\ p ∈ contract_candidates D (cd_Name dep) iface /\
      records m [(cd_Name dep, p); (cd_Name dep +:+ ".interface", iface)] a a'
  | Err _ => a_resolvedBindings a' = a_resolvedBindings a
  end.
Proof.
  unfold resolveContractDependency. destruct (match d_contracts D with None => _ | Some _ => _ end) as [offered|]; [|by intros [= <- <-]].
  set (key := paramEnvKey _ _ _). unfold bindM at 1.
  destruct (rejectSourceSensitiveSelector D key m _ a) as [[[]|e] a1] eqn:E1; destruct (quiet_reject _ _ _ _ _ _ E1) as [s1 ->]; [|by intros [= <- <-]].
  unfold bindM at 1. cbn [env_at gets]. set (requested := choose_interface _ _ _ _).
  destruct (negb _ || negb _) eqn:Ei; [intros H; by apply raise_shown in H as [[? ->] H]|]. apply orb_false_iff in Ei as [Ei _]. apply negb_false_iff, contains_true in Ei.
  unfold bindM at 1. destruct (resolvedValueForError D key requested _) as [[shown|e] a2] eqn:E2;
    destruct (quiet_value_error _ _ _ _ _ E2) as [s2 ->]; [|by intros [= <- <-]].
  destruct (is_nil _) eqn:En; [by intros [= <- <-]|].
  case_bool_decide as Ep; [by intros [= <- <-]|]. intros [= <- <-].
  exists requested. split_and!; [done|done| |done]. destruct (choose_contract_provider_elem m dep (contract_candidates D (cd_Name dep) requested)); [done|done].
Qed.

(** ** Capabilities *)

Lemma default_interface_spec dep iface : default_interface D dep = Ok iface -> iface = "" \/ iface ∈ rc_AnyOf dep.
Proof.
  unfold default_interface. set (fallback := match capabilityDefinitions !! _ with Some _ => _ | None => _ end).
  cbv zeta. intros E. ok_step E. injection E as <-.
  set (i1 := if (fallback !=? "") && contains (rc_AnyOf dep) fallback then fallback else "").
  assert (i1 = "" \/ i1 ∈ rc_AnyOf dep) as H1.
  { unfold i1. destruct (_ && contains _ _) eqn:E5; [|by left]. apply andb_true_iff in E5 as [_ E5]. right. by apply contains_true. }
  set (i2 := if i1 ==? "" then _ else i1).
  assert (i2 = "" \/ i2 ∈ rc_AnyOf dep) as H2.
  { unfold i2. destruct (i1 ==? ""); [|done]. destruct (find_first _ _) as [i|] eqn:Ef; [|by left].
    apply find_first_some in Ef as [_ Ef]. apply contains_true in Ef. by right. }
  destruct (i2 ==? ""); [|done]. destruct (rc_AnyOf dep); [by left|right; by left].
Qed.

Lemma requested_interface_spec m key dep a r a' :
  requested_interface D m key dep a = (r, a') ->
  a_resolvedBindings a' = a_resolvedBindings a /\ match r with Ok iface => iface = "" \/ iface ∈ rc_AnyOf dep | Err _ => True end.
Proof.
  unfold requested_interface. unfold bindM at 1. cbn [env_at gets]. set (requested := ToLower _).
  destruct ((requested !=? "") && _).
  - destruct (contains _ requested) eqn:Ec; cbn [negb].
    + intros [= <- <-]. split; [done|]. right. by apply contains_true.
    + intros H. by apply raise_shown in H as [[? ->] H].
  - intros [= <- <-]. split; [done|]. destruct (default_interface D dep) eqn:E; [|done]. by apply default_interface_spec.
Qed.

Lemma interface_spec m md dep provider capability a r a' :
  resolveCapabilityInterface D m md dep provider capability a = (r, a') ->
  a_resolvedBindings a' = a_resolvedBindings a /\
  match r with Ok iface => iface ∈ pc_Interfaces capability /\ iface ∈ rc_AnyOf dep | Err _ => True end.
Proof.
  unfold resolveCapabilityInterface. set (key := interface_key _ _ _). unfold bindM at 1.
  destruct (check_interface_selector D m key dep a) as [[[]|e] a1] eqn:E1.
  - assert (a_resolvedBindings a1 = a_resolvedBindings a) as Hb1.
    { unfold check_interface_selector in E1. case_match; [by destruct (quiet_reject _ _ _ _ _ _ E1) as [s1 ->]|by injection E1 as <-]. }
    unfold bindM at 1. destruct (requested_interface D m key dep a1) as [[iface|e] a2] eqn:E2; apply requested_interface_spec in E2 as [Hb2 Hi].
    + rewrite Hb1 in Hb2. case_bool_decide as E3; [intros [= <- <-]; by split|].
      destruct (contains (pc_Interfaces capability) iface) eqn:E4; cbn [negb]; [|intros H; apply raise_shown in H as [[? ->] H]; split; [by rewrite H|done]].
      apply contains_true in E4. unfold bindM. destruct (key !=? ""); intros [= <- <-]; (split; [exact Hb2|]); split; try done; tauto.
    + intros [= <- <-]. split; [by rewrite Hb2|done].
  - intros [= <- <-]. split; [|done]. unfold check_interface_selector in E1. case_match; [by destruct (quiet_reject _ _ _ _ _ _ E1) as [s1 ->]|done].
Qed.

Lemma capability_spec m md dep a r a' :
  resolveCapabilityDependency D m md dep a = (r, a') ->
  match r with
  | Ok p => is_provider p /\ exists c iface, providedCapability (at_reg reg p) (rc_Name dep) = Some c /\
      iface ∈ pc_Interfaces c /\ iface ∈ rc_AnyOf dep /\
      records m ([(rc_Name dep, p); (rc_Name dep +:+ ".interface", iface)] ++
                 (if rc_EnabledBy dep !=? "" then [(rc_Name dep +:+ ".enabled_by", rc_EnabledBy dep)] else [])) a a'
  | Err _ => a_resolvedBindings a' = a_resolvedBindings a
  end.
Proof.
  unfold resolveCapabilityDependency. destruct (capabilityDefinitions !! _) as [k|]; [|by intros [= <- <-]].
  unfold bindM at 1. cbn [lift]. destruct (selectCapabilityProvider _ _ _ _) as [provider|e]; [|by intros [= <- <-]].
  destruct (reg !! provider) as [pm|] eqn:Ep; [|by intros [= <- <-]].
  destruct (providedCapability pm _) as [c|] eqn:Ec; [|by intros [= <- <-]].
  unfold bindM at 1. unfold guard. destruct (enabled D provider) eqn:Ee; cbn [negb]; [|by intros [= <- <-]]. cbn [ret].
  unfold bindM at 1. destruct (resolveCapabilityInterface _ _ _ _ _ _ _) as [[iface|e] a1] eqn:E1; apply interface_spec in E1 as [Hb Hi].
  - intros [= <- <-]. split; [split; [by rewrite Ep|done]|]. exists c, iface. unfold at_reg. rewrite Ep. cbn. split_and!; [done|tauto|tauto|].
    unfold records. rewrite <-Hb. unfold record_capability. destruct (rc_Name dep ==? capabilityIAM), (rc_EnabledBy dep !=? ""); done.
  - by intros [= <- <-].
Qed.
End SelectFacts.
