(* ===== verification/RunnerOrderFacts.v ===== *)
(** * Launcher: the traversal *)

From S2P Require Import Prelude GoText GoStrings ConfigSchema RunnerTypes RunnerBind RunnerSelect RunnerOrder RunnerSortFacts RunnerSelectFacts.

(** ** The record of bindings *)

Definition bindings_of (a : App) (m : string) : gmap string string := default ∅ (a_resolvedBindings a !! m).

Lemma records_lookup m es a a' :
  records m es a a' ->
  (forall m', m' <> m -> a_resolvedBindings a' !! m' = a_resolvedBindings a !! m') /\
  (forall k v, bindings_of a' m !! k = Some v -> (k, v) ∈ es \/ bindings_of a m !! k = Some v) /\
  (forall k, is_Some (bindings_of a m !! k) \/ k ∈ map fst es -> is_Some (bindings_of a' m !! k)).
Proof.
  unfold records, bindings_of. generalize (a_resolvedBindings a') (a_resolvedBindings a). clear. intros b' b. revert b.
  induction es as [|[k0 v0] es IH]; intros b; cbn [fold_left].
  - intros ->. split_and!; auto. intros k [?|?%elem_of_nil]; done.
  - intros (H1 & H2 & H3)%IH. rewrite lookup_insert_eq in H2, H3. cbn in H2, H3. split_and!.
    + intros m' Hm. rewrite H1 by done. by rewrite lookup_insert_ne.
    + intros k v [H|H]%H2; [left; by right|]. destruct (decide (k = k0)) as [->|Hk].
      * rewrite lookup_insert_eq in H. injection H as ->. left. by left.
      * rewrite lookup_insert_ne in H by done. by right.
    + intros k Hk. apply H3. destruct (decide (k = k0)) as [->|Hne]; [left; by rewrite lookup_insert_eq|].
      rewrite lookup_insert_ne by done. destruct Hk as [Hk|Hk]; [by left|]. right. cbn in Hk. by apply elem_of_cons in Hk as [->|Hk].
Qed.

Section OrderFacts.
Context `{CT : CaseTables, SL : SchemaLibs} (D : Deployment).
Context (manifest_ok : string -> bool) (reg_iter : string -> nat -> list string) (dep_iter : gmap string (list string) -> list string).
#[local] Notation reg := (d_reg D).
#[local] Notation cfg := (d_cfg D).

(** Why an entry of the record of a module is there: which dependency of its
    manifest it answers and that the answer is admissible.  [before] are the
    modules that come before it, [present] those that must only be selected. *)
Inductive binding_ok (md : Module) (before present : string -> Prop) (key v : string) : Prop :=
| bk_alternative dep :
    dep ∈ m_RequiresOne md -> key = alt_Capability dep -> v ∈ alt_Providers dep -> is_provider D v -> before v ->
    binding_ok md before present key v
| bk_contract dep iface :
    dep ∈ m_RequiresContracts md -> key = cd_Name dep -> iface ∈ cd_Interfaces dep ->
    v ∈ contract_candidates D (cd_Name dep) iface -> before v -> binding_ok md before present key v
| bk_contract_interface dep :
    dep ∈ m_RequiresContracts md -> key = cd_Name dep +:+ ".interface" -> v ∈ cd_Interfaces dep -> binding_ok md before present key v
| bk_capability dep :
    dep ∈ m_RequiresCapabilities md -> key = rc_Name dep -> is_provider D v ->
    is_Some (providedCapability (at_reg reg v) (rc_Name dep)) ->
    (if rc_Ordering dep ==? orderingAny then present v else before v) -> binding_ok md before present key v
| bk_capability_interface dep :
    dep ∈ m_RequiresCapabilities md -> key = rc_Name dep +:+ ".interface" -> v ∈ rc_AnyOf dep -> binding_ok md before present key v
| bk_switch dep :
    dep ∈ m_RequiresCapabilities md -> key = rc_Name dep +:+ ".enabled_by" -> v = rc_EnabledBy dep -> binding_ok md before present key v.

Lemma binding_ok_mono md (b b' p p' : string -> Prop) key v :
  (forall x, is_Some (reg !! x) -> b x -> b' x) -> (forall x, p x -> p' x) -> binding_ok md b p key v -> binding_ok md b' p' key v.
Proof.
  intros Hb Hp []; [eapply bk_alternative|eapply bk_contract|eapply bk_contract_interface|eapply bk_capability|eapply bk_capability_interface|eapply bk_switch]; try done.
  - apply Hb; [|done]. match goal with H : is_provider _ _ |- _ => apply H end.
  - apply Hb; [|done]. match goal with H : v ∈ contract_candidates _ _ _ |- _ => apply contract_candidates_spec in H as [[? _] _] end. done.
  - case_match; [auto|]. apply Hb; [|done]. match goal with H : is_provider _ _ |- _ => apply H end.
Qed.

(** The keys every module's record has when no choice may be left open. *)
Definition unconditional_keys (md : Module) : list string :=
  map alt_Capability (m_RequiresOne md) ++ map cd_Name (List.filter (fun d => cd_EnabledBy d ==? "") (m_RequiresContracts md)) ++
  map rc_Name (List.filter (fun d => rc_EnabledBy d ==? "") (m_RequiresCapabilities md)).

(** ** Collecting the dependencies of one module *)

Record collected (name : string) (md : Module) (a0 : App) (deps : list string) (u : gset string) (keys : list string) (a : App) : Prop := {
  col_others m : m <> name -> a_resolvedBindings a !! m = a_resolvedBindings a0 !! m;
  col_ok key v : bindings_of a name !! key = Some v -> binding_ok md (fun x => x ∈ deps) (fun x => x ∈ u) key v;
  col_keys : d_allowUnresolved D = false -> forall k, k ∈ keys -> is_Some (bindings_of a name !! k)
}.

Lemma collected_bindings name md a0 deps u keys a a' :
  a_resolvedBindings a' = a_resolvedBindings a -> collected name md a0 deps u keys a -> collected name md a0 deps u keys a'.
Proof. intros E [H1 H2 H3]. split; unfold bindings_of in *; by rewrite E. Qed.

Lemma collected_record name md a0 deps u keys a es deps' u' a' :
  collected name md a0 deps u keys a -> records name es a a' -> (forall x, x ∈ deps -> x ∈ deps') -> (forall x, x ∈ u -> x ∈ u') ->
  (forall k v, (k, v) ∈ es -> binding_ok md (fun x => x ∈ deps') (fun x => x ∈ u') k v) ->
  collected name md a0 deps' u' (keys ++ map fst es) a'.
Proof.
  intros [H1 H2 H3] (R1 & R2 & R3)%records_lookup Hd Hu Hes. split.
  - intros m Hm. by rewrite R1, H1.
  - intros key v [Hk|Hk]%R2; [auto|]. eapply binding_ok_mono; [..|by apply H2]; cbn; auto.
  - intros Ha k [Hk|Hk]%elem_of_app; apply R3; [left; auto|by right].
Qed.

Lemma collected_keys name md a0 deps u keys keys' a :
  (forall k, k ∈ keys' -> k ∈ keys) -> collected name md a0 deps u keys a -> collected name md a0 deps u keys' a.
Proof. intros Hk [H1 H2 H3]. split; auto. Qed.

(** A step that may be deferred: it binds a provider, or leaves the record
    alone. *)
Lemma deferrable_spec (c : M string) a r a' :
  deferrable D c a = (Ok r, a') ->
  match r with
  | Some p => c a = (Ok p, a')
  | None => (exists e, c a = (Err e, a')) /\ d_allowUnresolved D = true
  end.
Proof.
  unfold deferrable. destruct (c a) as [[p|e] a1] eqn:E; [by intros [= <- <-]|].
  unfold canDeferUnresolvedBinding. destruct (d_allowUnresolved D) eqn:Ea; [|done]. destruct e; try done. intros [= <- <-]. split; [by eexists|done].
Qed.

Lemma alternative_step_ok name md a0 deps u keys a dep deps' a' :
  dep ∈ m_RequiresOne md -> collected name md a0 deps u keys a -> alternative_step D name md deps dep a = (Ok deps', a') ->
  collected name md a0 deps' u (keys ++ [alt_Capability dep]) a' /\ (forall x, x ∈ deps -> x ∈ deps').
Proof.
  intros Hdep Hc H. unfold alternative_step in H. m_step H. m_step H. apply deferrable_spec in Hm. destruct x as [p|]; cbn [add_provider].
  - apply alternative_spec in Hm as (Hp & Hip & Hr). split; [|intros x Hx; apply elem_of_app; by left].
    eapply (collected_record _ _ _ _ _ _ _ [(alt_Capability dep, p)]); try done; [intros x Hx; apply elem_of_app; by left|].
    intros k v [= -> ->]%list_elem_of_singleton. eapply bk_alternative; try done. apply elem_of_app. right. by left.
  - destruct Hm as [[e Hm] Ha]. apply alternative_spec in Hm. split; [|done]. split; [|by eapply collected_bindings|].
    + intros m Hmn. rewrite Hm. by eapply col_others.
    + intros ?; congruence.
Qed.

Lemma collected_deferred name md a0 deps u keys a a' k :
  d_allowUnresolved D = true -> a_resolvedBindings a' = a_resolvedBindings a ->
  collected name md a0 deps u keys a -> collected name md a0 deps u (keys ++ k) a'.
Proof.
  intros Ha Hb Hc. apply (collected_bindings _ _ _ _ _ _ _ a') in Hc; [|done]. destruct Hc as [H1 H2 H3]. split; [done|done|]. intros ?; congruence.
Qed.

Lemma contract_step_ok name md a0 deps u keys a dep deps' a' :
  dep ∈ m_RequiresContracts md -> collected name md a0 deps u keys a -> contract_step D name md deps dep a = (Ok deps', a') ->
  collected name md a0 deps' u (keys ++ (if cd_EnabledBy dep ==? "" then [cd_Name dep] else [])) a' /\ (forall x, x ∈ deps -> x ∈ deps').
Proof.
  intros Hdep Hc H. unfold contract_step in H. m_step H. rename x into required, a1 into a1.
  destruct (quiet_required _ _ _ _ _ _ Hm) as [s ->]. assert (collected name md a0 deps u keys (set_cache s a)) as Hc' by (by eapply collected_bindings; [|exact Hc]).
  destruct required; cbn [negb] in H.
  - m_step H. m_step H. apply deferrable_spec in Hm0. destruct x as [p|]; cbn [add_provider].
    + apply contract_spec in Hm0 as (iface & Hi & Hne & Hp & Hr). split; [|intros x Hx; apply elem_of_app; by left].
      apply (collected_keys _ _ _ _ _ (keys ++ map fst [(cd_Name dep, p); (cd_Name dep +:+ ".interface", iface)])).
      { intros k [Hk|Hk]%elem_of_app; apply elem_of_app; [by left|right]. case_match; [|by apply elem_of_nil in Hk]. apply list_elem_of_singleton in Hk as ->. by left. }
      eapply collected_record; try done; [intros x Hx; apply elem_of_app; by left|].
      intros k v [[= -> ->]|[= -> ->]%list_elem_of_singleton]%elem_of_cons; [|by eapply bk_contract_interface].
      eapply bk_contract; try done. apply elem_of_app. right. by left.
    + destruct Hm0 as [[e Hm0] Ha]. apply contract_spec in Hm0. split; [|done]. by eapply collected_deferred.
  - m_step H. split; [|done]. case_match eqn:E; [|by rewrite app_nil_r].
    unfold contractRequired in Hm. rewrite E in Hm. discriminate Hm.
Qed.

Lemma capability_step_ok name md a0 st keys a dep st' a' :
  dep ∈ m_RequiresCapabilities md -> collected name md a0 (fst st) (snd st) keys a -> capability_step D name md st dep a = (Ok st', a') ->
  collected name md a0 (fst st') (snd st') (keys ++ (if rc_EnabledBy dep ==? "" then [rc_Name dep] else [])) a' /\
  (forall x, x ∈ fst st -> x ∈ fst st') /\ snd st ⊆ snd st'.
Proof.
  intros Hdep Hc H. unfold capability_step in H. m_step H. rename x into required.
  destruct (quiet_required _ _ _ _ _ _ Hm) as [s ->]. assert (collected name md a0 (fst st) (snd st) keys (set_cache s a)) as Hc' by (by eapply collected_bindings; [|exact Hc]).
  destruct required; cbn [negb] in H.
  - m_step H. apply deferrable_spec in Hm0. destruct x as [p|].
    + apply capability_spec in Hm0 as (Hip & c & iface & Hpc & Hi1 & Hi2 & Hr).
      set (es := [(rc_Name dep, p); _] ++ _) in Hr.
      set (st1 := if rc_Ordering dep ==? orderingAny then (fst st, snd st ∪ {[p]}) else (fst st ++ [p], snd st)).
      assert (st' = st1 /\ a' = a1) as [-> ->] by (unfold st1; destruct (rc_Ordering dep ==? orderingAny); m_step H; done). clear H.
      assert ((forall x, x ∈ fst st -> x ∈ fst st1) /\ snd st ⊆ snd st1 /\ (if rc_Ordering dep ==? orderingAny then p ∈ snd st1 else p ∈ fst st1)) as (Hd & Hu & Hin).
      { unfold st1. destruct (rc_Ordering dep ==? orderingAny); cbn; (split; [|split]); [done|set_solver|set_solver| |done|].
        - intros x Hx. apply elem_of_app. by left.
        - apply elem_of_app. right. by left. }
      split; [|by split].
      apply (collected_keys _ _ _ _ _ (keys ++ map fst es)).
      { intros k [Hk|Hk]%elem_of_app; apply elem_of_app; [by left|right]. case_match; [|by apply elem_of_nil in Hk]. apply list_elem_of_singleton in Hk as ->. by left. }
      apply (collected_record _ _ _ _ _ _ _ es _ _ _ Hc' Hr Hd Hu).
      intros k v [Hk|Hk]%elem_of_app.
      * apply elem_of_cons in Hk as [[= -> ->]|[= -> ->]%list_elem_of_singleton]; [|by eapply bk_capability_interface].
        eapply bk_capability; [done..|by rewrite Hpc|]. by destruct (rc_Ordering dep ==? orderingAny).
      * destruct (rc_EnabledBy dep !=? ""); [|by apply elem_of_nil in Hk]. apply list_elem_of_singleton in Hk as [= -> ->]. by eapply bk_switch.
    + m_step H. destruct Hm0 as [[e Hm0] Ha]. apply capability_spec in Hm0. split; [|by split]. by eapply collected_deferred.
  - m_step H. split; [|by split]. case_match eqn:E; [|by rewrite app_nil_r].
    unfold capabilityRequired, contractRequired in Hm. rewrite E in Hm. discriminate Hm.
Qed.

Lemma credential_steps_ok name ids : forall i deps deps',
  credential_steps D reg_iter name i ids deps = Ok deps' ->
  (forall x, x ∈ deps -> x ∈ deps') /\ (forall id, id ∈ ids -> exists p, p ∈ deps' /\ id ∈ map crp_ID (m_CredentialProviders (at_reg reg p))).
Proof.
  induction ids as [|id ids IH]; intros i deps deps' H; cbn in H; [injection H as <-; split; [done|]; by intros ? ?%elem_of_nil|].
  destruct (credentialProviderOwner _ _ _) as [p|] eqn:E; [|done]. apply IH in H as [H1 H2].
  apply find_first_some in E as [_ E%contains_true]. split; [intros x Hx; apply H1, elem_of_app; by left|].
  intros id' [->|Hid]%elem_of_cons; [|auto]. exists p. split; [|done]. apply H1, elem_of_app. right. by left.
Qed.

Lemma uniqueStrings_spec l x : x ∈ uniqueStrings l <-> x ∈ l /\ x <> "".
Proof.
  unfold uniqueStrings. assert (forall out, x ∈ unique_from out l <-> x ∈ out \/ x ∈ l /\ x <> "") as H; [|rewrite H, elem_of_nil; tauto].
  induction l as [|y l IH]; intros out; cbn; [rewrite elem_of_nil; tauto|]. rewrite IH, elem_of_cons.
  destruct (y !=? "") eqn:Ey; cbn.
  - breflect_in Ey. destruct (contains out y) eqn:Ec; cbn.
    + apply contains_true in Ec. split; [tauto|]. intros [?|[[->|?] ?]]; tauto.
    + rewrite elem_of_app, list_elem_of_singleton. split; [|tauto]. intros [[?| ->]|?]; tauto.
  - breflect_in Ey. subst y. split; [tauto|]. intros [?|[[->|?] ?]]; tauto.
Qed.

Lemma foldM_collect {A B} (step : B -> A -> M B) (depsof : B -> list string) (uof : B -> gset string) (K : A -> list string) name md a0 l :
  (forall dep st keys a st' a', dep ∈ l -> collected name md a0 (depsof st) (uof st) keys a -> step st dep a = (Ok st', a') ->
     collected name md a0 (depsof st') (uof st') (keys ++ K dep) a' /\ (forall x, x ∈ depsof st -> x ∈ depsof st') /\ uof st ⊆ uof st') ->
  forall st keys a st' a', foldM step st l a = (Ok st', a') -> collected name md a0 (depsof st) (uof st) keys a ->
    collected name md a0 (depsof st') (uof st') (keys ++ concat (map K l)) a' /\ (forall x, x ∈ depsof st -> x ∈ depsof st') /\ uof st ⊆ uof st'.
Proof.
  induction l as [|dep l IH]; intros Hstep st keys a st' a' H Hc; cbn in H |- *.
  - injection H as <- <-. by rewrite app_nil_r.
  - apply bindM_ok in H as (st1 & a1 & H1 & H2). destruct (Hstep dep st keys a st1 a1) as (C1 & D1 & U1); [by left|done..|].
    destruct (IH (fun dep st keys a st' a' Hd => Hstep dep st keys a st' a' (list_elem_of_further _ _ _ Hd)) st1 (keys ++ K dep) a1 st' a' H2 C1) as (C2 & D2 & U2).
    rewrite app_assoc. split_and!; [done|auto|by etrans].
Qed.

(** What the collected dependencies must contain. *)
Record declared_in (name : string) (md : Module) (ds : list string) : Prop := {
  di_requires r : r ∈ m_Requires md -> dep_Optional r = false -> dep_Name r <> "" -> dep_Name r ∈ ds;
  di_config c x : f_Values cfg !! name = Some c -> x ∈ mc_DependsOn c -> x <> "" -> x ∈ ds;
  di_credentials c : c ∈ m_CredentialConsumers md -> exists p, p ∈ ds /\ crc_Credential c ∈ map crp_ID (m_CredentialProviders (at_reg reg p))
}.

Lemma concat_filter {A} (f : A -> string) (p : A -> bool) l :
  concat (map (fun d => if p d then [f d] else []) l) = map f (List.filter p l).
Proof. induction l as [|x l IH]; cbn; [done|]. destruct (p x); cbn; by rewrite IH. Qed.
Lemma concat_map_singleton {A} (f : A -> string) l : concat (map (fun d => [f d]) l) = map f l.
Proof. induction l as [|x l IH]; cbn; [done|]. by rewrite IH. Qed.

Lemma collect_deps_ok name md u a ds u' a' :
  reg !! "" = None -> a_resolvedBindings a !! name = None ->
  collect_deps D reg_iter name md u a = (Ok (ds, u'), a') ->
  collected name md a ds u' (unconditional_keys md) a' /\ u ⊆ u' /\ declared_in name md ds.
Proof.
  intros Hempty Hnone H. unfold collect_deps in H. set (req := map dep_Name _) in H.
  apply bindM_ok in H as (d1 & a1 & H1 & H). apply bindM_ok in H as (d2 & a2 & H2 & H). apply bindM_ok in H as (st & a3 & H3 & H).
  apply bindM_ok in H as (d4 & a4 & H4 & H). injection H4 as H4 ->. injection H as <- <- <-.
  assert (collected name md a req u [] a) as C0.
  { split; [done| |]; [|by intros _ k ?%elem_of_nil]. intros key v Hk. unfold bindings_of in Hk. rewrite Hnone in Hk. cbn in Hk. by rewrite lookup_empty in Hk. }
  apply (foldM_collect _ (fun d => d) (fun _ => u) (fun d => [alt_Capability d]) name md a) with (keys := []) in H1 as (C1 & D1 & _);
    [|intros dep st' keys b st'' b' Hd Hc Hs; destruct (alternative_step_ok _ _ _ _ _ _ _ _ _ _ Hd Hc Hs); auto|done].
  apply (foldM_collect _ (fun d => d) (fun _ => u) (fun d => if cd_EnabledBy d ==? "" then [cd_Name d] else []) name md a _) with (2 := H2) in C1 as (C2 & D2 & _);
    [|intros dep st' keys b st'' b' Hd Hc Hs; destruct (contract_step_ok _ _ _ _ _ _ _ _ _ _ Hd Hc Hs); auto].
  apply (foldM_collect _ fst snd (fun d => if rc_EnabledBy d ==? "" then [rc_Name d] else []) name md a _) with (2 := H3) in C2 as (C3 & D3 & U3);
    [|intros dep st' keys b st'' b' Hd Hc Hs; by apply (capability_step_ok _ _ _ _ _ _ _ _ _ Hd Hc Hs)].
  cbn [fst snd] in *. apply credential_steps_ok in H4 as [D4 Hcred].
  set (all := match f_Values cfg !! name with Some c => d4 ++ mc_DependsOn c | None => d4 end).
  assert (forall x, x ∈ d4 -> x ∈ all) as D5 by (intros x Hx; unfold all; case_match; [apply elem_of_app; by left|done]).
  split_and!.
  - destruct C3 as [C31 C32 C33]. split; [done| |].
    + intros key v Hk%C32. eapply binding_ok_mono; [..|exact Hk]; cbn; [|done]. intros x [mx Hx] Hin. apply uniqueStrings_spec.
      split; [auto|]. intros ->. congruence.
    + intros Ha k Hk. apply C33; [done|]. rewrite concat_map_singleton, !concat_filter. unfold unconditional_keys in Hk. rewrite !elem_of_app in *. tauto.
  - done.
  - split.
    + intros r Hr Ho Hne. apply uniqueStrings_spec. split; [|done]. apply D5, D4, D3, D2, D1. unfold req. apply list_elem_of_In, in_map_iff.
      exists r. split; [done|]. apply filter_In. split; [by apply list_elem_of_In|by rewrite Ho].
    + intros c x Hc Hx Hne. apply uniqueStrings_spec. split; [|done]. unfold all. rewrite Hc. apply elem_of_app. by right.
    + intros cr Hcr. destruct (Hcred (crc_Credential cr)) as (p & Hp & Hid); [apply list_elem_of_In, in_map; by apply list_elem_of_In|]. exists p. split; [|done]. apply uniqueStrings_spec. split; [auto|].
      intros ->. unfold at_reg in Hid. rewrite Hempty in Hid. by apply elem_of_nil in Hid.
Qed.

(** ** The traversal *)

(** A module whose visit is complete. *)
Record settled (t : traversal) (a : App) (n : string) (md : Module) (ds : list string) : Prop := {
  st_reg : reg !! n = Some md;
  st_enabled : enabled D n = true;
  st_manifest : d_registryOnly D || manifest_ok n = true;
  st_deps : t_deps t !! n = Some ds;
  st_declared : declared_in n md ds;
  st_bindings key v : bindings_of a n !! key = Some v -> binding_ok md (fun x => x ∈ ds) (fun x => x ∈ t_unordered t) key v;
  st_keys : d_allowUnresolved D = false -> forall k, k ∈ unconditional_keys md -> is_Some (bindings_of a n !! k)
}.

Record wf (t : traversal) (a : App) : Prop := {
  wf_nodup : NoDup (t_out t);
  wf_out x : x ∈ t_out t <-> x ∈ t_seen t;
  wf_disj : t_seen t ## t_temp t;
  wf_temp : t_temp t ⊆ dom reg;
  wf_dom : dom (t_deps t) = t_seen t;
  wf_settled n : n ∈ t_seen t -> exists md ds, settled t a n md ds;
  wf_order l1 n l2 ds d : t_out t = l1 ++ n :: l2 -> t_deps t !! n = Some ds -> d ∈ ds -> d ∈ l1;
  wf_fresh m : m ∉ t_seen t -> m ∉ t_temp t -> a_resolvedBindings a !! m = None
}.

Record ext (t : traversal) (a : App) (t' : traversal) (a' : App) : Prop := {
  ext_seen : t_seen t ⊆ t_seen t';
  ext_temp : t_temp t' = t_temp t;
  ext_unordered : t_unordered t ⊆ t_unordered t';
  ext_bindings m : m ∈ t_seen t \/ m ∈ t_temp t -> a_resolvedBindings a' !! m = a_resolvedBindings a !! m
}.

Lemma travel_refl t a : ext t a t a.
Proof. split; done. Qed.
Lemma travel_trans t a t1 a1 t2 a2 : ext t a t1 a1 -> ext t1 a1 t2 a2 -> ext t a t2 a2.
Proof.
  intros [S1 T1 U1 B1] [S2 T2 U2 B2]. split; [by etrans|by rewrite T2|by etrans|].
  intros m Hm. rewrite B2, B1; [done|done|]. rewrite T1. destruct Hm as [Hm|Hm]; [left; by apply S1|by right].
Qed.

Lemma settled_ext t a t' a' n md ds :
  settled t a n md ds -> t_deps t' !! n = t_deps t !! n -> t_unordered t ⊆ t_unordered t' ->
  a_resolvedBindings a' !! n = a_resolvedBindings a !! n -> settled t' a' n md ds.
Proof.
  intros [] Hd Hu Hb. split; try done.
  - by rewrite Hd.
  - intros key v Hk. eapply binding_ok_mono; [..|eapply st_bindings0]; cbn; [auto|intros x Hx; by apply Hu|]. unfold bindings_of in *. by rewrite <-Hb.
  - intros Ha k Hk. unfold bindings_of. rewrite Hb. by apply st_keys0.
Qed.

Definition visit_ok (v : traversal -> string -> M traversal) : Prop :=
  forall t name a t' a', wf t a -> v t name a = (Ok t', a') -> wf t' a' /\ ext t a t' a' /\ name ∈ t_seen t'.

Lemma foldM_visit v l : visit_ok v -> forall t a t' a',
  wf t a -> foldM v t l a = (Ok t', a') -> wf t' a' /\ ext t a t' a' /\ (forall x, x ∈ l -> x ∈ t_seen t').
Proof.
  intros Hv. induction l as [|x l IH]; intros t a t' a' Hw H; cbn in H.
  - injection H as <- <-. split_and!; [done|apply travel_refl|by intros x ?%elem_of_nil].
  - apply bindM_ok in H as (t1 & a1 & H1 & H2). apply Hv in H1 as (W1 & E1 & S1); [|done]. apply IH in H2 as (W2 & E2 & S2); [|done].
    split_and!; [done|by eapply travel_trans|]. intros y [->|Hy]%elem_of_cons; [by apply (ext_seen _ _ _ _ E2)|auto].
Qed.

(** Entering a module. *)
Lemma wf_enter t a name md ds u a1 :
  wf t a -> name ∉ t_seen t -> name ∉ t_temp t -> reg !! name = Some md -> t_unordered t ⊆ u ->
  collected name md a ds u (unconditional_keys md) a1 ->
  wf (mkTraversal (t_seen t) (t_temp t ∪ {[name]}) u (t_deps t) (t_out t)) a1.
Proof.
  intros [W1 W2 W3 W4 W5 W6 W7 W8] Hs Ht Hr Hu [C1 C2 C3]. split; cbn; try done.
  - set_solver.
  - apply union_subseteq. split; [done|]. apply singleton_subseteq_l. by apply elem_of_dom_2 in Hr.
  - intros n Hn. destruct (W6 n Hn) as (mn & dn & Hset). exists mn, dn. eapply settled_ext; [done|done|done|]. apply C1. by intros ->.
  - intros m Hm1 Hm2. rewrite C1; [apply W8; set_solver|]. set_solver.
Qed.

(** Leaving it. *)
Lemma wf_leave t a name md ds :
  wf t a -> name ∈ t_temp t -> (forall d, d ∈ ds -> d ∈ t_seen t) ->
  reg !! name = Some md -> enabled D name = true -> d_registryOnly D || manifest_ok name = true -> declared_in name md ds ->
  (forall key v, bindings_of a name !! key = Some v -> binding_ok md (fun x => x ∈ ds) (fun x => x ∈ t_unordered t) key v) ->
  (d_allowUnresolved D = false -> forall k, k ∈ unconditional_keys md -> is_Some (bindings_of a name !! k)) ->
  wf (mkTraversal (t_seen t ∪ {[name]}) (t_temp t ∖ {[name]}) (t_unordered t) (<[name := ds]> (t_deps t)) (t_out t ++ [name])) a.
Proof.
  intros [W1 W2 W3 W4 W5 W6 W7 W8] Ht Hds Hr He Hm Hdecl Hb Hk.
  assert (name ∉ t_seen t) as Hs by set_solver. split; cbn.
  - apply NoDup_app. split_and!; [done| |apply NoDup_singleton]. intros x Hx ->%list_elem_of_singleton. by apply Hs, W2.
  - intros x. rewrite elem_of_app, list_elem_of_singleton, W2. set_solver.
  - set_solver.
  - set_solver.
  - rewrite dom_insert_L, W5. set_solver.
  - intros n Hn. destruct (decide (n = name)) as [->|Hne].
    + exists md, ds. split; cbn; [done|done|done|by rewrite lookup_insert_eq|done|done|done].
    + destruct (W6 n) as (mn & dn & Hset); [set_solver|]. exists mn, dn. eapply settled_ext; [done| |done|done]. cbn. by rewrite lookup_insert_ne.
  - intros l1 n l2 dn d El Hd Hin. destruct l2 as [|z l2 _] using rev_ind.
    + apply app_inj_tail in El as [<- <-]. rewrite lookup_insert_eq in Hd. injection Hd as <-. by apply W2, Hds.
    + rewrite app_comm_cons, app_assoc in El. apply app_inj_tail in El as [El <-].
      rewrite lookup_insert_ne in Hd; [by eapply W7|]. intros ->. apply Hs, W2. rewrite El. apply elem_of_app. right. by left.
  - intros m Hm1 Hm2. apply W8; set_solver.
Qed.

Lemma visit_is_ok fuel : reg !! "" = None -> visit_ok (visit D manifest_ok reg_iter fuel).
Proof.
  intros Hempty. induction fuel as [|fuel IH]; intros t name a t' a' Hw H; [done|]. cbn [visit] in H.
  case_bool_decide as Hs; [injection H as <- <-; split_and!; [done|apply travel_refl|done]|].
  case_bool_decide as Ht; [done|]. destruct (reg !! name) as [md|] eqn:Er; [|done].
  m_step H. m_step Hm. m_step H. m_step Hm. apply bindM_ok in H as ([ds u] & a1 & Hc & H). cbn [fst snd] in H.
  apply bindM_ok in H as (t2 & a2 & Hf & H). injection H as <- <-.
  apply collect_deps_ok in Hc as (Hc & Hu & Hdecl); [|done|by eapply wf_fresh].
  pose proof (wf_enter t a name md ds u a1 Hw Hs Ht Er Hu Hc) as Hw1. set (t1 := mkTraversal _ _ _ _ _) in *.
  destruct (foldM_visit _ ds IH t1 a1 t2 a2 Hw1 Hf) as (Hw2 & He2 & Hds).
  assert (a_resolvedBindings a2 !! name = a_resolvedBindings a1 !! name) as Hsame by (apply (ext_bindings _ _ _ _ He2); right; cbn; set_solver).
  split_and!.
  - apply (wf_leave t2 a2 name md ds); try done.
    + rewrite (ext_temp _ _ _ _ He2). cbn. set_solver.
    + by apply negb_false_iff in Hg.
    + destruct (d_registryOnly D), (manifest_ok name); done.
    + intros key v Hk. eapply binding_ok_mono; [..|eapply (col_ok _ _ _ _ _ _ _ Hc)]; cbn; [auto| |].
      * intros y Hy. by apply (ext_unordered _ _ _ _ He2).
      * unfold bindings_of in *. by rewrite <-Hsame.
    + intros Ha k Hk. unfold bindings_of. rewrite Hsame. by apply (col_keys _ _ _ _ _ _ _ Hc).
  - split; cbn.
    + pose proof (ext_seen _ _ _ _ He2) as Hx. cbn in Hx. set_solver.
    + rewrite (ext_temp _ _ _ _ He2). cbn. set_solver.
    + etrans; [exact Hu|]. apply (ext_unordered _ _ _ _ He2).
    + intros m Hm. rewrite (ext_bindings _ _ _ _ He2) by (cbn; set_solver). apply (col_others _ _ _ _ _ _ _ Hc). intros ->. tauto.
  - cbn. set_solver.
Qed.

(** ** Fuel *)

Definition nofuel {A} (c : M A) : Prop := forall a a', c a <> (Err OutOfFuel, a').

Lemma nofuel_ret {A} (x : A) : nofuel (ret x).
Proof. done. Qed.
Lemma nofuel_gets {A} (f : App -> A) : nofuel (gets f).
Proof. done. Qed.
Lemma nofuel_modify f : nofuel (modify f).
Proof. done. Qed.
Lemma nofuel_raise {A} e : e <> OutOfFuel -> nofuel (@raise A e).
Proof. intros He a a' [= ?]. done. Qed.
Lemma nofuel_guard b e : e <> OutOfFuel -> nofuel (guard b e).
Proof. intros He. unfold guard. destruct b; [by apply nofuel_raise|apply nofuel_ret]. Qed.
Lemma nofuel_lift {A} (r : result runErr A) : r <> Err OutOfFuel -> nofuel (lift r).
Proof. intros Hr a a' [= ?]. done. Qed.
Lemma nofuel_bind {A B} (c : M A) (k : A -> M B) : nofuel c -> (forall x, nofuel (k x)) -> nofuel (bindM c k).
Proof.
  intros Hc Hk a a'. unfold bindM. destruct (c a) as [[x|e] a1] eqn:E; [apply Hk|]. intros [= -> ->]. by apply (Hc a a').
Qed.
Lemma nofuel_foldM {A B} (f : B -> A -> M B) l : (forall b x, nofuel (f b x)) -> forall b, nofuel (foldM f b l).
Proof. intros Hf. induction l as [|x l IH]; intros b; cbn; [apply nofuel_ret|]. apply nofuel_bind; [apply Hf|apply IH]. Qed.
Lemma nofuel_deferrable c : nofuel c -> nofuel (deferrable D c).
Proof.
  intros Hc a a'. unfold deferrable. destruct (c a) as [[p|e] a1] eqn:E; [done|]. case_match; [done|]. intros [= -> ->]. by apply (Hc a a').
Qed.
Lemma nofuel_sensitive : nofuel (sensitiveEnvKeySet D).
Proof. intros a a'. unfold sensitiveEnvKeySet. by destruct (a_sensitiveKeys a). Qed.

(** Close a goal [nofuel c] by following [c]. *)
Ltac nofuel :=
  repeat first
    [ apply nofuel_ret | apply nofuel_gets | apply nofuel_modify | apply nofuel_sensitive
    | apply nofuel_raise; discriminate | apply nofuel_guard; discriminate
    | apply nofuel_bind; [|intros] | apply nofuel_deferrable
    | progress case_match | assumption | apply nofuel_lift ].

Lemma nofuel_value_error key value : nofuel (resolvedValueForError D key value).
Proof. unfold resolvedValueForError, resolvedValueIsSensitive. nofuel. Qed.
Lemma nofuel_reject key m p : nofuel (rejectSourceSensitiveSelector D key m p).
Proof. unfold rejectSourceSensitiveSelector, resolvedValueIsSensitive. nofuel. Qed.
Lemma nofuel_required m md e : nofuel (contractRequired m md e).
Proof. unfold contractRequired, env_at. nofuel. Qed.

Lemma nofuel_alternative m md dep : nofuel (resolveAlternativeDependency D m md dep).
Proof.
  unfold resolveAlternativeDependency, env_at. apply nofuel_bind; [apply nofuel_reject|intros _]. apply nofuel_bind; [nofuel|intros raw].
  cbv zeta. repeat (case_match; [apply nofuel_bind; [apply nofuel_value_error|intros; by apply nofuel_raise]|]). nofuel.
Qed.
Lemma nofuel_contract m md dep : nofuel (resolveContractDependency D m md dep).
Proof.
  unfold resolveContractDependency, env_at. destruct (match d_contracts D with None => _ | Some _ => _ end); [|by apply nofuel_raise].
  apply nofuel_bind; [apply nofuel_reject|intros _]. apply nofuel_bind; [nofuel|intros raw]. cbv zeta.
  case_match; [apply nofuel_bind; [apply nofuel_value_error|intros; by apply nofuel_raise]|].
  apply nofuel_bind; [apply nofuel_value_error|intros shown]. nofuel.
Qed.
Lemma selectCapabilityProvider_fuel m c k : selectCapabilityProvider D m c k <> Err OutOfFuel.
Proof. unfold selectCapabilityProvider. repeat case_match; discriminate. Qed.
Lemma default_interface_fuel dep : default_interface D dep <> Err OutOfFuel.
Proof. unfold default_interface. cbv zeta. case_match; discriminate. Qed.
Lemma nofuel_capability m md dep : nofuel (resolveCapabilityDependency D m md dep).
Proof.
  unfold resolveCapabilityDependency. case_match; [|by apply nofuel_raise].
  apply nofuel_bind; [apply nofuel_lift, selectCapabilityProvider_fuel|intros p]. case_match; [|by apply nofuel_raise]. case_match; [|by apply nofuel_raise].
  apply nofuel_bind; [by apply nofuel_guard|intros _]. apply nofuel_bind; [|intros; nofuel].
  unfold resolveCapabilityInterface, check_interface_selector, requested_interface, env_at. cbv zeta.
  apply nofuel_bind; [case_match; [apply nofuel_reject|nofuel]|intros _]. apply nofuel_bind.
  - apply nofuel_bind; [nofuel|intros raw]. cbv zeta. case_match; [|apply nofuel_lift, default_interface_fuel].
    case_match; [apply nofuel_bind; [apply nofuel_value_error|intros; by apply nofuel_raise]|nofuel].
  - intros iface. case_match; [nofuel|]. case_match; [apply nofuel_bind; [apply nofuel_value_error|intros; by apply nofuel_raise]|nofuel].
Qed.

Lemma credential_steps_fuel name ids : forall i deps, credential_steps D reg_iter name i ids deps <> Err OutOfFuel.
Proof. induction ids as [|id ids IH]; intros i deps; cbn; [done|]. by case_match. Qed.

Lemma nofuel_collect name md u : nofuel (collect_deps D reg_iter name md u).
Proof.
  unfold collect_deps. apply nofuel_bind; [|intros d1; apply nofuel_bind; [|intros d2; apply nofuel_bind; [|intros st; apply nofuel_bind]]].
  - apply nofuel_foldM. intros b dep. apply nofuel_bind; [apply nofuel_deferrable, nofuel_alternative|intros; nofuel].
  - apply nofuel_foldM. intros b dep. apply nofuel_bind; [apply nofuel_required|intros r]. case_match; [nofuel|].
    apply nofuel_bind; [apply nofuel_deferrable, nofuel_contract|intros; nofuel].
  - apply nofuel_foldM. intros b dep. apply nofuel_bind; [apply nofuel_required|intros r]. case_match; [nofuel|].
    apply nofuel_bind; [apply nofuel_deferrable, nofuel_capability|intros; nofuel].
  - apply nofuel_lift, credential_steps_fuel.
  - intros; nofuel.
Qed.

(** A visit has enough fuel for every module that is not on the stack. *)
Lemma visit_fuel_enough fuel : reg !! "" = None -> forall t name a a',
  wf t a -> (size (dom reg ∖ t_temp t) < fuel)%nat -> visit D manifest_ok reg_iter fuel t name a <> (Err OutOfFuel, a').
Proof.
  intros Hempty. induction fuel as [|fuel IH]; intros t name a a' Hw Hf; [lia|]. cbn [visit].
  case_bool_decide as Hs; [done|]. case_bool_decide as Ht; [done|]. destruct (reg !! name) as [md|] eqn:Er; [|done].
  unfold bindM at 1. unfold guard at 1. destruct (enabled D name); cbn [negb ret raise]; [|done].
  unfold bindM at 1. unfold guard at 1. destruct (negb (d_registryOnly D) && _); cbn [ret raise]; [done|].
  unfold bindM at 1. destruct (collect_deps _ _ _ _ _ _) as [[[ds u]|e] a1] eqn:Hc; [|intros [= -> ->]; by apply (nofuel_collect _ _ _ _ _ Hc)].
  apply collect_deps_ok in Hc as (Hc & Hu & _); [|done|by eapply wf_fresh].
  pose proof (wf_enter t a name md ds u a1 Hw Hs Ht Er Hu Hc) as Hw1. cbn [fst snd]. set (t1 := mkTraversal _ _ _ _ _) in *.
  assert (size (dom reg ∖ t_temp t1) < fuel)%nat as Hf1.
  { assert (dom reg ∖ t_temp t1 ⊂ dom reg ∖ t_temp t) as Hlt.
    { apply elem_of_dom_2 in Er. unfold t1; cbn. split; [set_solver|]. intros Hx. specialize (Hx name). set_solver. }
    apply subset_size in Hlt. lia. }
  unfold bindM. assert (forall l t2 a2 a3, wf t2 a2 -> t_temp t2 = t_temp t1 -> foldM (visit D manifest_ok reg_iter fuel) t2 l a2 <> (Err OutOfFuel, a3)) as Hfold.
  { clear -IH Hf1 Hempty. induction l as [|x l IHl]; intros t2 a2 a3 Hw2 Ht2; cbn; [done|]. unfold bindM.
    destruct (visit D manifest_ok reg_iter fuel t2 x a2) as [[t3|e] a4] eqn:Ev.
    - destruct (visit_is_ok fuel Hempty _ _ _ _ _ Hw2 Ev) as (Hw3 & He3 & _). apply IHl; [done|]. by rewrite (ext_temp _ _ _ _ He3).
    - intros [= -> ->]. revert Ev. apply IH; [done|]. by rewrite Ht2. }
  destruct (foldM _ t1 ds a1) as [[t2|e] a2] eqn:Ef; [done|]. intros [= -> ->]. by apply (Hfold _ _ _ _ Hw1 eq_refl) in Ef.
Qed.
End OrderFacts.
