(* ===== verification/RunnerResolve.v ===== *)
(** * Launcher: the resolved order and its bindings

    [resolveOrder] as a whole: it always returns, the order it returns is closed
    and correctly sorted, and every binding it records is one the manifests
    admit. *)

From S2P Require Import Prelude GoText GoStrings ConfigSchema RunnerTypes RunnerBind RunnerSelect RunnerOrder RunnerSortFacts RunnerSelectFacts RunnerOrderFacts ConfigSchemaFacts.

(** [d] comes before [n] in the list. *)
Definition precedes (d n : string) (o : list string) : Prop := exists l1 l2, o = l1 ++ n :: l2 /\ d ∈ l1.

Section Resolve.
Context `{CT : CaseTables, SL : SchemaLibs} (D : Deployment).
Context (manifest_ok : string -> bool) (reg_iter : string -> nat -> list string) (dep_iter : gmap string (list string) -> list string).
#[local] Notation reg := (d_reg D).
#[local] Notation cfg := (d_cfg D).

(** No module has an empty name, and none is called "@deployment"; the
    resolution starts without recorded bindings; ranging over a map visits each
    key once. *)
Record resolvable (a : App) : Prop := {
  rs_empty : reg !! "" = None;
  rs_deployment : reg !! deploymentBindingKey = None;
  rs_bindings : a_resolvedBindings a = ∅;
  rs_iter deps : dep_iter deps ≡ₚ map fst (map_to_list deps)
}.

(** ** The second pass *)

Lemma pending_spec t x : x ∈ pending t <-> x ∈ t_unordered t /\ x ∉ t_seen t.
Proof. unfold pending. rewrite elem_of_SortStrings, elem_of_elements. set_solver. Qed.

Lemma pending_nil t : is_nil (pending t) = true -> t_unordered t ⊆ t_seen t.
Proof.
  intros Hp x Hx. destruct (decide (x ∈ t_seen t)) as [|Hn]; [done|]. exfalso.
  assert (x ∈ pending t) as Hin by by apply pending_spec. destruct (pending t); [by apply elem_of_nil in Hin|done].
Qed.

Lemma drain_ok fuel : reg !! "" = None -> forall t a t' a',
  wf D manifest_ok t a -> drain D manifest_ok reg_iter fuel t a = (Ok t', a') ->
  wf D manifest_ok t' a' /\ ext t a t' a' /\ t_unordered t' ⊆ t_seen t'.
Proof.
  intros He. induction fuel as [|fuel IH]; intros t a t' a' Hw H; cbn [drain] in H; destruct (is_nil (pending t)) eqn:Ep.
  1,3: injection H as <- <-; split_and!; [done|apply travel_refl|by apply pending_nil].
  - done.
  - apply bindM_ok in H as (t1 & a1 & H1 & H2).
    destruct (foldM_visit D manifest_ok _ _ (visit_is_ok D manifest_ok reg_iter _ He) _ _ _ _ Hw H1) as (Hw1 & He1 & _).
    destruct (IH _ _ _ _ Hw1 H2) as (Hw2 & He2 & Hu). split_and!; [done|by eapply travel_trans|done].
Qed.

Lemma settled_reg t a : wf D manifest_ok t a -> t_seen t ⊆ dom reg.
Proof. intros Hw n (md & ds & Hs)%(wf_settled _ _ _ _ Hw). apply elem_of_dom. rewrite (st_reg _ _ _ _ _ _ _ Hs). by eexists. Qed.

Lemma visits_fuel l : reg !! "" = None -> forall t a a',
  wf D manifest_ok t a -> foldM (visit D manifest_ok reg_iter (visit_fuel D)) t l a <> (Err OutOfFuel, a').
Proof.
  intros He. induction l as [|x l IH]; intros t a a' Hw; cbn [foldM]; [done|]. unfold bindM at 1.
  destruct (visit D manifest_ok reg_iter (visit_fuel D) t x a) as [[t1|e] a1] eqn:Ev.
  - destruct (visit_is_ok D manifest_ok reg_iter _ He _ _ _ _ _ Hw Ev) as (Hw1 & _ & _). by apply IH.
  - intros [= -> ->]. revert Ev. apply visit_fuel_enough; [done|done|]. unfold visit_fuel.
    apply Nat.lt_succ_r, subseteq_size. set_solver.
Qed.

Lemma drain_fuel_enough fuel : reg !! "" = None -> forall t a a',
  wf D manifest_ok t a -> (size (dom reg ∖ t_seen t) < fuel)%nat -> drain D manifest_ok reg_iter fuel t a <> (Err OutOfFuel, a').
Proof.
  intros He. induction fuel as [|fuel IH]; intros t a a' Hw Hf; [lia|]. cbn [drain].
  destruct (is_nil (pending t)) eqn:Ep; [done|]. unfold bindM at 1.
  destruct (foldM _ t (pending t) a) as [[t1|e] a1] eqn:Ef; [|intros [= -> ->]; by apply visits_fuel in Ef].
  destruct (foldM_visit D manifest_ok _ _ (visit_is_ok D manifest_ok reg_iter _ He) _ _ _ _ Hw Ef) as (Hw1 & He1 & Hin).
  apply IH; [done|]. destruct (pending t) as [|x l] eqn:El; [done|].
  assert (x ∈ t_unordered t /\ x ∉ t_seen t) as [_ Hx] by (apply pending_spec; rewrite El; by left).
  assert (x ∈ t_seen t1) as Hx1 by (apply Hin; by left).
  assert (dom reg ∖ t_seen t1 ⊂ dom reg ∖ t_seen t) as Hlt.
  { pose proof (ext_seen _ _ _ _ He1). pose proof (settled_reg _ _ Hw1 x Hx1). split; [set_solver|]. intros Hs. specialize (Hs x). set_solver. }
  apply subset_size in Hlt. lia.
Qed.

(** ** The roots *)

Lemma visit_root_ok : reg !! "" = None -> forall t name a t' a',
  wf D manifest_ok t a -> visit_root D manifest_ok reg_iter t name a = (Ok t', a') ->
  wf D manifest_ok t' a' /\ ext t a t' a' /\ (enabled D name = true -> name ∈ t_seen t').
Proof.
  intros He t name a t' a' Hw H. unfold visit_root in H. destruct (enabled D name).
  - destruct (visit_is_ok D manifest_ok reg_iter _ He _ _ _ _ _ Hw H) as (? & ? & ?). auto.
  - injection H as <- <-. split_and!; [done|apply travel_refl|done].
Qed.

Lemma roots_ok l : reg !! "" = None -> forall t a t' a',
  wf D manifest_ok t a -> foldM (visit_root D manifest_ok reg_iter) t l a = (Ok t', a') ->
  wf D manifest_ok t' a' /\ ext t a t' a' /\ (forall x, x ∈ l -> enabled D x = true -> x ∈ t_seen t').
Proof.
  intros He. induction l as [|x l IH]; intros t a t' a' Hw H; cbn [foldM] in H.
  - injection H as <- <-. split_and!; [done|apply travel_refl|by intros x ?%elem_of_nil].
  - apply bindM_ok in H as (t1 & a1 & H1 & H2). apply visit_root_ok in H1 as (W1 & E1 & S1); [|done|done].
    apply IH in H2 as (W2 & E2 & S2); [|done]. split_and!; [done|by eapply travel_trans|].
    intros y [->|Hy]%elem_of_cons Hen; [apply (ext_seen _ _ _ _ E2); auto|auto].
Qed.

Lemma wf_start a : a_resolvedBindings a = ∅ -> wf D manifest_ok start_traversal a.
Proof.
  intros Hb. split; cbn [t_out t_seen t_temp t_deps t_unordered start_traversal].
  - constructor.
  - intros x. rewrite elem_of_nil. set_solver.
  - set_solver.
  - set_solver.
  - apply dom_empty_L.
  - intros n Hn. set_solver.
  - intros l1 n l2 ds d El. by destruct l1.
  - intros m _ _. rewrite Hb. apply lookup_empty.
Qed.

Lemma normalize_env_bindings a r a' : normalize_env D a = (r, a') -> a_resolvedBindings a' = a_resolvedBindings a.
Proof.
  unfold normalize_env, bindM. destruct (sensitiveEnvKeySet D a) as [[s|e] a1] eqn:E; destruct (quiet_sensitive D _ _ _ E) as [c ->]; [|by intros [= <- <-]].
  destruct (normalizeConfiguredParameterEnvWithSensitive _ _ _) as [r' env]. by intros [= <- <-].
Qed.

Lemma resolveDynamicDNS_enabled n : resolveDynamicDNS D = Ok n -> n = "" \/ enabled D n = true.
Proof.
  unfold resolveDynamicDNS. case_match; [intros [= <-]; by left|]. case_match; [|done]. case_match; [|done]. cbv zeta. case_match; intros E.
  - ok_path E. subst n. right. by apply negb_false_iff.
  - destruct (_ && _) in E; [ok_path E; subst n; right; by apply negb_false_iff|].
    destruct (find_first _ _) as [x|] eqn:Ef in E.
    + injection E as <-. apply find_first_some in Ef as [_ Ef]. apply andb_true_iff in Ef. tauto.
    + destruct (find_first _ _) as [x|] eqn:Eg in E; [|done]. injection E as <-. apply find_first_some in Eg as [_ Eg]. apply andb_true_iff in Eg. tauto.
Qed.

(** ** The selected modules *)

Lemma resolve_modules_ok decl mods a t dns a' :
  resolvable a -> resolve_modules D manifest_ok reg_iter decl mods a = (Ok (t, dns), a') ->
  wf D manifest_ok t a' /\ t_temp t = ∅ /\ t_unordered t ⊆ t_seen t /\
  (forall m, m ∈ mods -> enabled D m = true -> m ∈ t_seen t) /\ (dns <> "" -> dns ∈ t_seen t /\ enabled D dns = true).
Proof.
  intros [He _ Hb _] H. unfold resolve_modules in H.
  apply bindM_ok in H as (u1 & a1 & H1 & H). apply guard_ok in H1 as [_ ->].
  apply bindM_ok in H as (u2 & a2 & H2 & H). apply normalize_env_bindings in H2.
  apply bindM_ok in H as (u3 & a3 & H3 & H). injection H3 as _ ->.
  apply bindM_ok in H as (o & a4 & H4 & H). apply bindM_ok in H as (t1 & a5 & H5 & H). apply bindM_ok in H as (t2 & a6 & H6 & H). injection H as <- <- <-.
  assert (a_resolvedBindings a4 = ∅ /\ (default "" o <> "" -> enabled D (default "" o) = true)) as [Hb4 Hdns].
  { apply deferrable_spec in H4. destruct o as [n|].
    - injection H4 as H4 <-. rewrite H2. split; [done|]. intros Hne. destruct (resolveDynamicDNS_enabled n H4); [done|done].
    - destruct H4 as [[e H4] _]. injection H4 as _ <-. by rewrite H2. }
  set (mods' := if _ && _ then _ else _) in H5.
  assert ((forall m, m ∈ mods -> m ∈ mods') /\ (default "" o <> "" -> default "" o ∈ mods')) as [Hsub Hdin].
  { unfold mods'. destruct (_ && _) eqn:E.
    - split; [intros m Hm; apply elem_of_app; by left|]. intros _. apply elem_of_app. right. by left.
    - split; [done|]. intros Hne. rewrite bool_decide_eq_false_2 in E by done. cbn in E. by apply negb_false_iff, contains_true in E. }
  apply roots_ok in H5 as (W1 & E1 & S1); [|done|by apply wf_start]. apply drain_ok in H6 as (W2 & E2 & U2); [|done|done].
  split_and!; [done| |done| |].
  - by rewrite (ext_temp _ _ _ _ E2), (ext_temp _ _ _ _ E1).
  - intros m Hm Hen. apply (ext_seen _ _ _ _ E2). auto.
  - intros Hne. split; [|auto]. apply (ext_seen _ _ _ _ E2). auto.
Qed.

(** ** What is published afterwards *)

(** Publishing environment keys touches neither the bindings nor the
    dependencies. *)
Definition keeps (f : App -> App) : Prop := forall a, a_resolvedBindings (f a) = a_resolvedBindings a /\ a_deps (f a) = a_deps a.

Lemma keeps_owner k o : keeps (setEnvOwner k o).
Proof. intros a. unfold setEnvOwner. by case_match. Qed.
Lemma keeps_publish k v o : keeps (publish k v o).
Proof. intros a. unfold publish. destruct (keeps_owner k o (put_env k v a)) as [-> ->]. done. Qed.
Lemma keeps_fold {A} (f : App -> A -> App) l : (forall x, keeps (fun a => f a x)) -> keeps (fun a => fold_left f l a).
Proof.
  intros Hf. induction l as [|x l IH]; intros a; cbn; [done|]. destruct (IH (f a x)) as [-> ->]. apply (Hf x a).
Qed.
Lemma keeps_comp f g : keeps f -> keeps g -> keeps (fun a => g (f a)).
Proof. intros Hf Hg a. destruct (Hg (f a)) as [-> ->]. apply Hf. Qed.

Lemma keeps_publishIAMEnv selected : keeps (publishIAMEnv reg selected).
Proof.
  intros a. unfold publishIAMEnv. cbv zeta.
  set (a1 := drop_stale_events a). set (a2 := if a_iamProvider a1 ==? "" then a1 else _).
  assert (a_resolvedBindings a2 = a_resolvedBindings a /\ a_deps a2 = a_deps a) as [<- <-].
  { unfold a2. case_match; [done|]. match goal with |- context [publish ?k ?v ?o ?x] => destruct (keeps_publish k v o x) as [-> ->] end.
    match goal with |- context [publish ?k ?v ?o ?x] => destruct (keeps_publish k v o x) as [-> ->] end. done. }
  generalize a2. clear a a1 a2. intros a.
  set (f1 := fun a c => publish (iamBindingKey c "INTERFACE") (str_at (a_iamBindings a) c) (a_iamProvider a) a).
  assert (keeps (fun b => fold_left f1 (iamConsumers a) b)) as K1 by (apply keeps_fold; intros c b; apply keeps_publish).
  specialize (K1 a) as [<- <-]. generalize (fold_left f1 (iamConsumers a) a). clear a f1. intros a.
  set (ifaces := client_interfaces reg a selected).
  match goal with |- context [fold_left ?f (sorted_keys ifaces) ?x] => destruct (keeps_fold f (sorted_keys ifaces) (fun c b => keeps_publish _ _ _ b) x) as [-> ->] end.
  match goal with |- context [fold_left ?f ?l ?x] => destruct (keeps_fold f l (fun c b => keeps_publish _ _ _ b) x) as [-> ->] end.
  match goal with |- context [publish ?k ?v ?o ?x] => destruct (keeps_publish k v o x) as [-> ->] end.
  match goal with |- context [publish ?k ?v ?o ?x] => destruct (keeps_publish k v o x) as [-> ->] end. done.
Qed.

Lemma applyDynamicDNS_bindings dns a :
  a_deps (applyDynamicDNSBinding D dns a) = a_deps a /\
  (dns = "" -> applyDynamicDNSBinding D dns a = a) /\
  (dns <> "" -> records deploymentBindingKey [(capabilityDynamicDNS, dns)] a (applyDynamicDNSBinding D dns a)).
Proof.
  unfold applyDynamicDNSBinding. case_bool_decide as Ed; [done|]. cbv zeta.
  set (a1 := set_dynamicDNS dns _). set (a2 := if TrimSpace _ ==? "" then _ else a1). set (key := envPrefixFor D dns +:+ "_DNS_PROVIDER") in a2.
  assert (a_resolvedBindings a2 = a_resolvedBindings a1 /\ a_deps a2 = a_deps a) as [E2 D2].
  { unfold a2. case_match; [|done]. destruct (keeps_owner key dns (put_env key (f_DynamicDNS_DNSProvider cfg) a1)) as [-> ->]. done. }
  match goal with |- context [fold_left ?f ?l ?x] => destruct (keeps_fold f l (fun e b => keeps_owner _ _ _) x) as [K1 K2] end.
  split_and!; [by rewrite K2|done|]. intros _. unfold records. rewrite K1, E2. done.
Qed.

(** ** The whole resolution *)

Notation resolve := (resolveOrder D manifest_ok reg_iter dep_iter).

(** What a successful run went through. *)
Lemma resolve_run decl mods a order a' :
  resolvable a -> resolve decl mods a = (Ok order, a') ->
  exists t dns a1,
    wf D manifest_ok t a1 /\ t_temp t = ∅ /\ t_unordered t ⊆ t_seen t /\
    (forall m, m ∈ mods -> enabled D m = true -> m ∈ t_seen t) /\ (dns <> "" -> dns ∈ t_seen t /\ enabled D dns = true) /\
    a' = applyDynamicDNSBinding D dns (publishIAMEnv reg (t_out t) (set_deps (t_deps t) a1)) /\
    order ≡ₚ t_out t /\ respects (must_precede (t_deps t) reg) (t_out t) order.
Proof.
  intros Hr H. unfold resolveOrder in H. apply bindM_ok in H as ([t dns] & a1 & H1 & H).
  pose proof (resolve_modules_ok _ _ _ _ _ _ Hr H1) as (W & T & U & R & N).
  apply bindM_ok in H as (u1 & a2 & H2 & H). injection H2 as <- <-. apply bindM_ok in H as (u2 & a3 & H3 & H). injection H3 as <- <-.
  apply bindM_ok in H as (u3 & a4 & H4 & H). injection H4 as <- <-. injection H as H <-.
  exists t, dns, a1. rewrite stableModuleOrder_reference in H by (apply W || apply rs_iter with a; done). cbv zeta in H.
  destruct (_ =? _)%nat eqn:El in H; [|done]. injection H as H. apply Nat.eqb_eq in El. rewrite H in El.
  pose proof (reference_order_ok _ _ _ order (wf_nodup _ _ _ _ W) (eq_sym H) El). split_and!; try done; tauto.
Qed.

Lemma respects_precedes edge initial o d n :
  respects edge initial o -> n ∈ o -> d ∈ initial -> edge d n = true -> precedes d n o.
Proof. intros Hr (l1 & l2 & ->)%list_elem_of_split Hd He. exists l1, l2. split; [done|]. by eapply Hr. Qed.

(** C24.  The order is sound: no module twice; every enabled root is in it;
    every module in it is registered, enabled and (outside read-only checks)
    installed, its recorded dependencies include each mandatory [requires], each
    configured [depends_on] and a provider of each consumed credential; and each
    recorded dependency, and each selected module it declares to run after,
    comes before it. *)
Theorem resolved_order_is_sound decl mods a order a' :
  resolvable a -> resolve decl mods a = (Ok order, a') ->
  NoDup order /\
  (forall m, m ∈ mods -> enabled D m = true -> m ∈ order) /\
  (forall n, n ∈ order -> exists md ds,
     reg !! n = Some md /\ enabled D n = true /\ d_registryOnly D || manifest_ok n = true /\
     a_deps a' !! n = Some ds /\ declared_in D n md ds /\
     (forall d, d ∈ ds -> precedes d n order) /\ (forall d, d ∈ m_RunAfter md -> d ∈ order -> precedes d n order)).
Proof.
  intros Hr H. destruct (resolve_run _ _ _ _ _ Hr H) as (t & dns & a1 & W & T & U & R & N & -> & Hp & Ho).
  split_and!.
  - rewrite Hp. apply (wf_nodup _ _ _ _ W).
  - intros m Hm He. rewrite Hp. apply (wf_out _ _ _ _ W). auto.
  - intros n Hn. rewrite Hp in Hn. apply (wf_out _ _ _ _ W) in Hn. destruct (wf_settled _ _ _ _ W n Hn) as (md & ds & Hs).
    apply (wf_out _ _ _ _ W) in Hn. assert (n ∈ order) as Hno by by rewrite Hp.
    exists md, ds. destruct Hs. split_and!; try done.
    + destruct (applyDynamicDNS_bindings dns (publishIAMEnv reg (t_out t) (set_deps (t_deps t) a1))) as [-> _].
      destruct (keeps_publishIAMEnv (t_out t) (set_deps (t_deps t) a1)) as [_ ->]. done.
    + intros d Hd. apply (respects_precedes _ _ _ _ _ Ho Hno).
      * destruct (list_elem_of_split _ _ Hn) as (l1 & l2 & El). rewrite El. apply elem_of_app. left. by eapply (wf_order _ _ _ _ W).
      * unfold must_precede. rewrite st_deps. cbn. by rewrite (proj2 (contains_true _ _) Hd).
    + intros d Hd Hdo. apply (respects_precedes _ _ _ _ _ Ho Hno); [by rewrite <-Hp|].
      unfold must_precede, at_reg. rewrite st_reg. cbn. by rewrite (proj2 (contains_true _ _) Hd), orb_true_r.
Qed.


(** ** Termination *)

Lemma policyOwnerForEnv_fuel key : policyOwnerForEnv D key <> Err OutOfFuel.
Proof. unfold policyOwnerForEnv. repeat case_match; discriminate. Qed.

Lemma normalize_keys_fuel ss keys : forall values, fst (normalize_keys D ss keys values) <> Err OutOfFuel.
Proof.
  induction keys as [|k keys IH]; intros values; cbn [normalize_keys]; [discriminate|].
  destruct (normalize_key D ss values k) as [v|e] eqn:E; [apply IH|]. cbn. intros [= ->]. revert E. unfold normalize_key.
  destruct (policyOwnerForEnv D k) as [o|e] eqn:Eo; cbn [result_bind]; [|intros [= ->]; by apply policyOwnerForEnv_fuel in Eo].
  repeat case_match; discriminate.
Qed.

Lemma nofuel_normalize_env : nofuel (normalize_env D).
Proof.
  apply nofuel_bind; [apply nofuel_sensitive|]. intros s a a'. pose proof (normalize_keys_fuel s (sorted_keys (a_env a)) (a_env a)) as H.
  unfold normalizeConfiguredParameterEnvWithSensitive. destruct (normalize_keys _ _ _ _) as [r env]. cbn in H. by intros [= ->].
Qed.
Lemma resolveDynamicDNS_fuel : resolveDynamicDNS D <> Err OutOfFuel.
Proof. unfold resolveDynamicDNS. repeat case_match; discriminate. Qed.
Lemma checkSingleIAM_fuel : checkSingleIAM D <> Err OutOfFuel.
Proof. unfold checkSingleIAM. case_match; discriminate. Qed.

Lemma roots_fuel l : reg !! "" = None -> forall t a a',
  wf D manifest_ok t a -> foldM (visit_root D manifest_ok reg_iter) t l a <> (Err OutOfFuel, a').
Proof.
  intros He. induction l as [|x l IH]; intros t a a' Hw; cbn [foldM]; [done|]. unfold bindM at 1.
  destruct (visit_root D manifest_ok reg_iter t x a) as [[t1|e] a1] eqn:Ev.
  - apply visit_root_ok in Ev as (Hw1 & _ & _); [|done|done]. by apply IH.
  - intros [= -> ->]. revert Ev. unfold visit_root. case_match; [|done]. apply visit_fuel_enough; [done|done|].
    unfold visit_fuel. apply Nat.lt_succ_r, subseteq_size. set_solver.
Qed.

(** C3.  Resolution always returns: the depth-first traversal, with its cyclic
    and shared dependencies, and the loop that pulls in unordered providers end
    on every input; neither ever uses up the fuel of the model, which is the
    number of registered modules plus one for each. *)
Theorem resolution_terminates decl mods a a' : resolvable a -> resolve decl mods a <> (Err OutOfFuel, a').
Proof.
  intros Hr. pose proof (rs_empty _ Hr) as He. unfold resolveOrder, bindM at 1.
  destruct (resolve_modules D manifest_ok reg_iter decl mods a) as [[[t dns]|e] a1] eqn:Em.
  - cbn. intros [= H _]. rewrite stableModuleOrder_reference in H; [|apply (resolve_modules_ok _ _ _ _ _ _ Hr Em)|apply (rs_iter _ Hr)].
    cbv zeta in H. by destruct (_ =? _)%nat.
  - intros [= -> ->]. revert Em. unfold resolve_modules. unfold bindM at 1. unfold guard. destruct decl; cbn [negb]; [cbn [ret]|done].
    unfold bindM at 1. destruct (normalize_env D a) as [[u|e] a2] eqn:En; [|intros [= -> ->]; by apply nofuel_normalize_env in En].
    apply normalize_env_bindings in En. unfold bindM at 1. cbn [lift].
    destruct (checkSingleIAM D) as [u1|e] eqn:Es; [|intros [= -> _]; by apply checkSingleIAM_fuel in Es].
    unfold bindM at 1. destruct (deferrable D (lift (resolveDynamicDNS D)) a2) as [[o|e] a3] eqn:Ed.
    2: { intros [= -> ->]. revert Ed. apply nofuel_deferrable, nofuel_lift, resolveDynamicDNS_fuel. }
    assert (a_resolvedBindings a3 = ∅) as Hb.
    { apply deferrable_spec in Ed. rewrite <-(rs_bindings _ Hr), <-En. destruct o; [by injection Ed as _ <-|]. destruct Ed as [[e Ed] _]. by injection Ed as _ <-. }
    unfold bindM at 1. match goal with |- context [foldM _ _ ?l a3] => destruct (foldM (visit_root D manifest_ok reg_iter) start_traversal l a3) as [[t1|e] a4] eqn:Ef end.
    2: { intros [= -> ->]. by apply roots_fuel in Ef; [|done|apply wf_start]. }
    apply roots_ok in Ef as (W1 & _ & _); [|done|by apply wf_start]. unfold bindM at 1.
    destruct (drain D manifest_ok reg_iter (visit_fuel D) t1 a4) as [[t2|e] a5] eqn:Eg; [done|].
    intros [= -> ->]. revert Eg. apply drain_fuel_enough; [done|done|]. unfold visit_fuel. apply Nat.lt_succ_r, subseteq_size. set_solver.
Qed.
End Resolve.

(** C11.  The sort is the greedy one: [stableModuleOrder] returns the list that
    the reference builds by taking, again and again, the earliest module whose
    predecessors are all placed, whatever order the dependency map is visited
    in; a result is a permutation in which every predecessor comes first; and
    it fails exactly when the reference gets stuck, naming the modules left
    over, each of which waits for another of them. *)
Theorem stable_order_is_greedy it initial deps reg :
  NoDup initial -> it ≡ₚ map fst (map_to_list deps) ->
  let o := reference_order initial deps reg in
  let blocked := List.filter (fun n => negb (contains o n)) initial in
  stableModuleOrder it initial deps reg = (if is_nil blocked then Ok o else Err (OrderingCycle blocked)) /\
  (is_nil blocked = true -> o ≡ₚ initial /\ respects (must_precede deps reg) initial o) /\
  (forall x, x ∈ blocked -> exists b, b ∈ blocked /\ must_precede deps reg b x = true).
Proof.
  intros Hn Hit o blocked. pose proof (greedy_order_partial (must_precede deps reg) initial) as Hpart.
  assert (is_nil blocked = (length o =? length initial)%nat) as Hb.
  { destruct (length o =? length initial)%nat eqn:El.
    - apply Nat.eqb_eq in El. destruct (reference_order_ok initial deps reg o Hn eq_refl El) as [Hp _].
      destruct blocked as [|x l] eqn:Eb; [done|]. assert (x ∈ blocked) as Hx by (rewrite Eb; by left).
      apply elem_of_Lfilter in Hx as [Hx Hc]. apply negb_true_iff, contains_false in Hc. by rewrite Hp in Hc.
    - destruct blocked as [|x l] eqn:Eb; [|done]. apply Nat.eqb_neq in El. destruct El.
      apply Nat.le_antisymm; [by apply (partial_length (must_precede deps reg))|]. apply submseteq_length, NoDup_submseteq; [done|]. intros x Hx.
      destruct (decide (x ∈ o)) as [|Ho]; [done|]. assert (x ∈ blocked) as Hx'; [|by rewrite Eb in Hx'; apply elem_of_nil in Hx'].
      apply elem_of_Lfilter. split; [done|]. by apply negb_true_iff, contains_false. }
  split_and!.
  - rewrite stableModuleOrder_reference, Hb by done. done.
  - rewrite Hb. intros El%Nat.eqb_eq. by apply reference_order_ok.
  - intros x [Hx Hc]%elem_of_Lfilter. apply negb_true_iff, contains_false in Hc.
    destruct (greedy_blocked (must_precede deps reg) initial x Hx Hc) as (b & Hbi & Hbn & He). exists b. split; [|done].
    apply elem_of_Lfilter. split; [done|]. by apply negb_true_iff, contains_false.
Qed.

(** ** A concrete deployment

    Five modules: a database that implements a contract, an identity provider
    and a cloud that need it, a gate that provides forward authentication, and a
    proxy that needs the gate without an ordering edge.  The theorems on
    resolution are applied to it, and small variations show the error paths. *)

Module RunnerDemo.
Export SchemaDemo.
#[export] Existing Instance demo_case.
#[export] Existing Instance demo_libs.

Definition base_module (name : string) : Module :=
  mkModule name "1.0.0" 1 "" (defaultEnvPrefix name) ∅ [] [] [] [] [] [] ∅ ∅ [] [] [] [] [] [] [] [] false [] [] "".

Definition db : Module :=
  mkModule "db" "1.0.0" 1 "" "DB" ∅ [] [] [] [] [] [] ∅ ∅ [] [] [] [mkContractProvider "database" "1.0.0" "postgres" ["ensure"]] [] [] [] [] false [mkCredentialProvider "db_root" "DB_ROOT_PASSWORD"] [] "".
Definition idp : Module :=
  mkModule "idp" "1.0.0" 1 "" "IDP" ∅ [] [] [] [] [] [] ∅ ∅ [] [] [mkContractDependency "database" "^1" "database" ["postgres"; "mariadb"] "postgres" ""] []
    [mkProvided "iam" ["oidc"; "saml"]] [] [] [] false [] [mkCredentialConsumer "db_root" "IDP_DB_PASSWORD"] "".
Definition cloud : Module :=
  mkModule "cloud" "1.0.0" 1 "" "CLOUD" {[ "CLOUD_OFFICE" := "true" ]} [] [] [] ["login"; "admin_password"] [] []
    {[ "admin_password" := mkChangePolicy "credential_rotate" true ]} {[ "login" := mkParameter "string" None none "" ]}
    [mkDependency "db" "" false; mkDependency "office" "" true] []
    [mkContractDependency "database" "^1" "database" ["postgres"] "postgres" ""] [] []
    [mkRequired "iam" "login" ["saml"; "oidc"] ["oidc"] "" "before"] ["proxy"] ["ldap"] true [] [] "".
Definition gate : Module :=
  mkModule "gate" "1.0.0" 1 "" "GATE" ∅ [] [] [] [] [] [] ∅ ∅ [mkDependency "idp" "" false] [] [] [] [mkProvided "forward_auth" ["http"]] [] [] [] false [] [] "".
Definition proxy : Module :=
  mkModule "proxy" "1.0.0" 1 "" "PROXY" ∅ [] [] [] [] [] [] ∅ ∅ [] [] [] [] [] [mkRequired "forward_auth" "" ["http"] [] "" "any"] [] [] false [] [] "".

Definition demo_reg : gmap string Module :=
  list_to_map [("db", db); ("idp", idp); ("cloud", cloud); ("gate", gate); ("proxy", proxy)].
Definition demo_cfg : ConfigFile :=
  mkConfigFile ["cloud"; "proxy"] {[ "cloud" := mkModuleConfig "" None ["proxy"] ]} "idp" "" "" "" {[ "cloud_admin_password" := "hunter2" ]}.
Definition demo_globals : globalSchema := mkGlobalSchema [] [] [] ∅ ∅ ∅ ["base_domain"].
Definition demo : Deployment := mkDeployment demo_reg None demo_cfg None true false demo_globals None.
Definition demo_env : gmap string string :=
  list_to_map [("BASE_DOMAIN", "example.org"); ("CLOUD_LOGIN", " SAML"); ("CLOUD_ADMIN_PASSWORD", "hunter2")].
Definition demo_app : App := mkApp demo_env (list_to_map [("BASE_DOMAIN", globalScope)]) ∅ "" ∅ ∅ "" ∅ [] None ∅ None.

Definition map_keys {V} (m : gmap string V) : list string := map fst (map_to_list m).
Definition demo_reg_iter (_ : string) (_ : nat) : list string := map_keys demo_reg.
Notation demo_run := (resolveOrder demo (fun _ => true) demo_reg_iter map_keys true ["cloud"; "proxy"] demo_app).

Definition demo_outcome :=
  let '(r, a) := demo_run in
  (r, map_to_list (bindings_of a "cloud"), map_to_list (bindings_of a "proxy"),
   str_at (a_env a) "ANAS_IDENTITY_CLIENTS", str_at (a_env a) "ANAS_IDENTITY_CLIENT__CLOUD__INTERFACES").
Example demo_order :
  demo_outcome = (Ok ["db"; "idp"; "proxy"; "cloud"; "gate"],
    map_to_list (list_to_map [("database", "db"); ("database.interface", "postgres"); ("iam", "idp"); ("iam.interface", "saml")] : gmap string string),
    map_to_list (list_to_map [("forward_auth", "gate"); ("forward_auth.interface", "http")] : gmap string string), "cloud", "ldap,saml").
Proof. vm_compute. reflexivity. Qed.

Lemma demo_resolvable : resolvable demo map_keys demo_app.
Proof. by split; [vm_compute..|]. Qed.
Lemma demo_fst : fst demo_run = Ok ["db"; "idp"; "proxy"; "cloud"; "gate"].
Proof. vm_compute. reflexivity. Qed.
Lemma demo_result : exists a', demo_run = (Ok ["db"; "idp"; "proxy"; "cloud"; "gate"], a').
Proof. exists (snd demo_run). rewrite <-demo_fst. apply surjective_pairing. Qed.

Lemma resolved_order_is_sound_witness :
  exists order, fst demo_run = Ok order /\ NoDup order /\ precedes "idp" "cloud" order.
Proof.
  destruct demo_result as [a' H].
  destruct (resolved_order_is_sound demo (fun _ => true) demo_reg_iter map_keys true ["cloud"; "proxy"] demo_app _ a' demo_resolvable H) as (Hn & _ & _).
  exists ["db"; "idp"; "proxy"; "cloud"; "gate"]. split; [rewrite H; reflexivity|split; [exact Hn|]].
  exists ["db"; "idp"; "proxy"], ["gate"]. split; [reflexivity|]. right. left.
Defined.


Lemma resolution_terminates_witness :
  resolvable demo map_keys demo_app /\ demo_run <> (Err OutOfFuel, snd demo_run).
Proof.
  split; [exact demo_resolvable|].
  apply (resolution_terminates demo (fun _ => true) demo_reg_iter map_keys true ["cloud"; "proxy"] demo_app (snd demo_run) demo_resolvable).
Defined.

Definition loop_deps : gmap string (list string) := list_to_map [("a", ["b"]); ("b", ["a"]); ("c", [])].
Lemma stable_order_is_greedy_witness : stableModuleOrder (map_keys loop_deps) ["a"; "b"; "c"] loop_deps ∅ = Err (OrderingCycle ["a"; "b"]).
Proof.
  destruct (stable_order_is_greedy (map_keys loop_deps) ["a"; "b"; "c"] loop_deps ∅) as [H _].
  - apply (bool_decide_unpack _). vm_compute. exact I.
  - reflexivity.
  - rewrite H. vm_compute. reflexivity.
Defined.

(** Error paths: a disabled dependency, an unset provider, a secret used as a
    selector. *)
Definition with_cfg (c : ConfigFile) : Deployment := mkDeployment demo_reg None c None true false demo_globals None.
Definition run_with (c : ConfigFile) (a : App) := fst (resolveOrder (with_cfg c) (fun _ => true) demo_reg_iter map_keys true ["cloud"] a).

Example demo_errors :
  run_with (mkConfigFile ["cloud"] {[ "db" := mkModuleConfig "" (Some false) [] ]} "idp" "" "" "" ∅) demo_app = Err (NoContractProvider "cloud" "database" (Some "postgres")) /\
  run_with (mkConfigFile ["cloud"] ∅ "" "" "" "" ∅) demo_app = Err (Unresolved (ProviderNotSet "cloud" "iam")) /\
  run_with (mkConfigFile ["cloud"] ∅ "idp" "" "" "" {[ "cloud_login" := "saml" ]}) demo_app = Err (SensitiveSelector "cloud" "login") /\
  run_with (mkConfigFile ["cloud"] {[ "cloud" := mkModuleConfig "" None ["cloud"] ]} "idp" "" "" "" ∅) demo_app = Err (CycleAt "cloud").
Proof. vm_compute. done. Qed.
End RunnerDemo.
