(* ===== verification/RunnerScope.v ===== *)
(** * Launcher: what a module sees and what it may write

    envscope.go: the scope of a module's rendered environment and secrets, and
    the patches its calculate Hook returns; secrets.go: the Secret Store
    operations of such a patch; credential_manifest.go and capability.go: the
    values projected after it; runner.go: how [calculate] commits a Hook's
    answer. *)

From Stdlib Require Import Ascii.
From S2P Require Import Prelude GoText GoNet GoStrings ConfigSchema RunnerTypes RunnerBind RunnerSelect RunnerOrder.

Section Scope.
Context `{CT : CaseTables, SL : SchemaLibs} (D : Deployment).
#[local] Notation reg := (d_reg D).
#[local] Notation cfg := (d_cfg D).

(** ** The dependency closure *)

Definition deps_of (a : App) (n : string) : list string := default [] (a_deps a !! n).

Fixpoint close (fuel : nat) (a : App) (out : gset string) (n : string) : gset string :=
  match fuel with
  | O => out
  | S fuel => fold_left (fun out dep => if bool_decide (dep ∈ out) then out else close fuel a (out ∪ {[dep]}) dep) (deps_of a n) out
  end.

(** Every name the recursion can add is a recorded dependency. *)
Definition dep_names (a : App) : gset string := list_to_set (concat (map snd (map_to_list (a_deps a)))).
Definition depClosure (a : App) (name : string) : gset string := close (S (size (dep_names a))) a {[name]} name.

(** ** The scope of one module *)

(** [wide] is the answer of [wideEnvScopeRequested], a diagnostic switch. *)
Definition has_any_prefix (prefixes : list string) (key : string) : bool := existsb (HasPrefix key) prefixes.
Definition module_prefixes (name : string) : list string :=
  match reg !! name with Some md => [m_EnvPrefix md +:+ "_"; defaultEnvPrefix name +:+ "_"] | None => [] end.

Definition owned_by (a : App) (key owner : string) : bool := bool_decide (a_envOwner a !! key = Some owner).

Definition declared_by (key name : string) : bool :=
  match policyOwnerForEnv D key with Ok (owner, _) => owner ==? name | Err _ => false end.

Definition scope_wide (a : App) (name key : string) : bool :=
  let closure := depClosure a name in
  match a_envOwner a !! key with
  | Some owner => (owner !=? OwnerUserSecret) && bool_decide (owner ∈ closure)
  | None => false
  end || has_any_prefix (concat (map module_prefixes (elements closure))) key.

Definition scope_test (wide : bool) (a : App) (sensitive : gset string) (name key : string) : bool :=
  let consumes := m_Consumes (at_reg reg name) in
  if bool_decide (key ∈ sensitive) then
    owned_by a key name || declared_by key name || matchEnvPattern consumes key
  else if owned_by a key name || has_any_prefix (module_prefixes name) key then true
  else if owned_by a key globalScope then true
  else (wide && scope_wide a name key) || matchEnvPattern consumes key.

Definition envScopeFor (wide : bool) (name : string) : M (string -> bool) :=
  let* sensitive := sensitiveEnvKeySet D in gets (fun a => scope_test wide a sensitive name).

Definition globalEnv (a : App) : gmap string string := filter (fun kv => owned_by a (fst kv) globalScope = true) (a_env a).

Definition scopedEnv (wide : bool) (name : string) : M (gmap string string) :=
  let* scope := envScopeFor wide name in gets (fun a => filter (fun kv => scope (fst kv) = true) (a_env a)).

(** Whether one stored secret reaches the module. *)
Definition secret_visible (s : secretStore) (scope : string -> bool) (name key : string) : bool :=
  match s_metadata s !! key with
  | Some meta =>
      if (sm_Owner meta !=? "") && (sm_Owner meta !=? runnerScope)
      then (sm_Owner meta ==? name) || matchEnvPattern (m_Consumes (at_reg reg name)) key
      else scope key
  | None => scope key
  end.

Definition scopedSecrets (wide : bool) (name : string) : M (gmap string string) :=
  let* scope := envScopeFor wide name in
  gets (fun a => match a_secrets a with
                 | Some s => filter (fun kv => secret_visible s scope name (fst kv) = true) (s_values s)
                 | None => ∅
                 end).

(** The environment a calculate Hook reads: everything but what the providers of
    its unordered dependencies own. *)
Definition unorderedProvidersFor (a : App) (name : string) : gset string :=
  list_to_set (List.filter (fun p => p !=? "")
    (map (fun dep => str_at2 (a_resolvedBindings a) name (rc_Name dep))
         (List.filter (fun dep => rc_Ordering dep ==? orderingAny) (m_RequiresCapabilities (at_reg reg name))))).

Definition hidden_from (a : App) (name key : string) : bool :=
  match a_envOwner a !! key with Some owner => bool_decide (owner ∈ unorderedProvidersFor a name) | None => false end.
Definition calculateEnvFor (a : App) (name : string) : gmap string string :=
  if bool_decide (unorderedProvidersFor a name = ∅) then a_env a
  else filter (fun kv => hidden_from a name (fst kv) = false) (a_env a).

(** ** Patches *)

Definition requireKeys (env : gmap string string) (keys : list string) : result runErr unit :=
  let missing := List.filter (fun k => TrimSpace (str_at env k) ==? "") keys in
  if is_nil missing then Ok tt else Err (MissingConfig missing).

Definition moduleHookMayWriteKey (md : Module) (key : string) (alreadyOwned : bool) : bool :=
  if HasPrefix key "ANAS_TEMP_" then false
  else existsb (fun prefix => (prefix !=? "") && HasPrefix key (prefix +:+ "_")) (uniqueStrings [m_EnvPrefix md; defaultEnvPrefix (m_Name md)])
       || alreadyOwned || matchEnvPattern (m_Exports md) key.

(** The keys of a patch that are valid but not the module's to write, and those
    it may write but another source owns. *)
Definition patch_violations (md : Module) (a : App) (keys : list string) : list string :=
  List.filter (fun k => isEnvKey k && negb (moduleHookMayWriteKey md k (owned_by a k (m_Name md)))) keys.
Definition patch_conflicts (md : Module) (a : App) (keys : list string) : list string :=
  List.filter (fun k => isEnvKey k && moduleHookMayWriteKey md k (owned_by a k (m_Name md)) &&
                        negb (is_None_b (a_envOwner a !! k)) && negb (owned_by a k (m_Name md))) keys.
Definition invalidHookEnvKeys (patch : gmap string string) : list string := List.filter (fun k => negb (isEnvKey k)) (sorted_keys patch).

Definition write_patch (md : Module) (patch : gmap string string) (a : App) (k : string) : App :=
  setEnvOwner k (m_Name md) (put_env k (str_at patch k) a).

Definition applyCalculatePatch (md : Module) (patch : gmap string string) : M unit :=
  fun a =>
    let keys := sorted_keys patch in
    let violations := patch_violations md a keys in
    let conflicts := patch_conflicts md a keys in
    let invalid := invalidHookEnvKeys patch in
    if negb (is_nil invalid) then (Err (HookInvalidKeys (m_Name md) invalid), a)
    else if negb (is_nil violations) then (Err (HookUndeclaredKeys (m_Name md) violations), a)
    else if negb (is_nil conflicts) then (Err (HookForeignKeys (m_Name md) conflicts), a)
    else
      let a := fold_left (write_patch md patch) keys a in
      (Ok tt, if is_nil keys then a else set_cache None a).

(** ** Secret patches *)

Fixpoint canonicalize (values : gmap string string) (keys : list string) (acc : gmap string string) : result runErr (gmap string string) :=
  match keys with
  | [] => Ok acc
  | raw :: keys' =>
      let key := EnvKey raw in
      reject negb (isEnvKey key) with HookSecretKey raw ;;
      reject negb (is_None_b (acc !! key)) with HookSecretCollision key ;;
      canonicalize values keys' (<[key := str_at values raw]> acc)
  end.
Definition canonicalizeHookSecretPatch (values : gmap string string) : result runErr (gmap string string) :=
  canonicalize values (sorted_keys values) ∅.

(** A record this module's Hook may replace. *)
Definition hook_managed (s : secretStore) (owner key : string) : bool :=
  let meta := default zero_metadata (s_metadata s !! key) in
  (sm_Owner meta ==? owner) && (sm_Kind meta ==? "generated") && (sm_Provenance meta ==? "module-hook").

(** Whether a non-empty value differs from what is stored. *)
Definition secret_changes (s : secretStore) (key value : string) : bool :=
  (value !=? "") && negb (bool_decide (s_values s !! key = Some value)).

Definition validateCanonicalHookSecretPatch (s : secretStore) (owner : string) (canonical : gmap string string) : result runErr unit :=
  reject owner ==? "" with HookSecretOwner ;;
  check_all (fun key =>
    reject secret_changes s key (str_at canonical key) && negb (is_None_b (s_values s !! key)) && negb (hook_managed s owner key)
      with HookSecretProtected key ;; Ok tt) (sorted_keys canonical).

Definition secret_owned (s : secretStore) (key owner : string) : bool :=
  match s_metadata s !! key with Some meta => sm_Owner meta ==? owner | None => false end.

(** Without a Secret Store the code fails too: with the error below for an empty
    patch, by dereferencing nil otherwise. *)
Definition validateCalculateSecretPatch (md : Module) (patch : gmap string string) (a : App) : result runErr unit :=
  match a_secrets a with
  | None => Err SecretStoreUnavailable
  | Some s =>
      let may k := moduleHookMayWriteKey md k (owned_by a k (m_Name md) || secret_owned s k (m_Name md)) in
      let violations := List.filter (fun k => negb (may k)) (sorted_keys patch) in
      let conflicts := List.filter (fun k => may k && secret_changes s k (str_at patch k) &&
                          negb (is_None_b (a_envOwner a !! k)) && negb (owned_by a k (m_Name md))) (sorted_keys patch) in
      reject negb (is_nil violations) with HookSecretUndeclared (m_Name md) violations ;;
      reject negb (is_nil conflicts) with HookSecretForeign (m_Name md) conflicts ;;
      validateCanonicalHookSecretPatch s (m_Name md) patch
  end.

Definition merge_secret (owner : string) (canonical : gmap string string) (s : secretStore) (key : string) : secretStore :=
  let value := str_at canonical key in
  if negb (secret_changes s key value) then s
  else mkSecretStore (<[key := value]> (s_values s))
         (if is_None_b (s_values s !! key) then <[key := mkSecretMetadata owner "generated" "module-hook"]> (s_metadata s) else s_metadata s) true.
Definition mergeCanonicalHookSecrets (owner : string) (canonical : gmap string string) (s : secretStore) : secretStore :=
  fold_left (merge_secret owner canonical) (sorted_keys canonical) s.

(** The keys a Hook's output makes sensitive, computed afresh. *)
Definition hookPatchSensitiveEnv (values pending : gmap string string) : M (gset string) :=
  do* modify (set_cache None) ;;
  let* base := sensitiveEnvKeySet D in
  gets (fun a =>
    let forms := value_forms (map (str_at (a_env a)) (elements base)
      ++ match a_secrets a with Some s => map snd (map_to_list (s_values s)) | None => [] end
      ++ map snd (map_to_list (f_Secrets cfg)) ++ map snd (map_to_list pending)) in
    markSensitiveValueAliases values (base ∪ dom pending) ∪ keys_matching forms values).

(** ** Projections after a Hook *)

Definition project_credential (owner : string) (value : string) (p : CredentialProvider) (c : CredentialConsumer) : M unit :=
  if crc_Credential c !=? crp_ID p then ret tt
  else
    let* existing := gets (fun a => str_at (a_env a) (crc_Projection c)) in
    do* guard ((existing !=? "") && (existing !=? value)) (CredentialConflict (crp_ID p) (crc_Projection c)) ;;
    modify (fun a => setEnvOwner (crc_Projection c) owner (put_env (crc_Projection c) value a)).

Definition projectProvidedCredentials (owner : string) : M unit :=
  foldM (fun _ p =>
    let* value := gets (fun a => str_at (a_env a) (crp_SecretKey p)) in
    do* guard (value ==? "") (CredentialMissing (crp_ID p)) ;;
    let* order := gets a_order in
    foldM (fun _ m => foldM (fun _ c => project_credential owner value p c) tt (m_CredentialConsumers (at_reg reg m))) tt order)
    tt (m_CredentialProviders (at_reg reg owner)).

Definition capabilityOutputBindingKey (o : capabilityOutputDefinition) (consumer suffix : string) : string :=
  co_BindingPrefix o +:+ defaultEnvPrefix consumer +:+ "__" +:+ suffix.

Definition set_output (capability consumer key value : string) (sensitive : bool) : M unit :=
  let* a := gets (fun a => a) in
  let existing := str_at (a_env a) key in
  do* guard ((existing !=? "") && (existing !=? value)) (OutputConflict capability key) ;;
  do* guard (negb (is_None_b (a_envOwner a !! key)) && negb (owned_by a key consumer)) (OutputForeign capability key) ;;
  do* modify (fun a => setEnvOwner key consumer (put_env key value a)) ;;
  if sensitive then modify (markSensitive key) else ret tt.

Definition publish_output (capability provider consumer : string) (o : capabilityOutputDefinition) (suffix : string) : M unit :=
  let source := co_ProviderPrefix o +:+ suffix in
  let* a := gets (fun a => a) in
  let value := TrimSpace (str_at (a_env a) source) in
  do* guard (value ==? "") (OutputMissing capability source) ;;
  do* guard (str_at (a_envOwner a) source !=? provider) (OutputNotOwned capability source) ;;
  let sensitive := contains (co_Sensitive o) suffix in
  do* set_output capability consumer (capabilityOutputBindingKey o consumer suffix) value sensitive ;;
  if sensitive then modify (markSensitive source) else ret tt.

Definition publish_consumer (capability provider consumer : string) (k : capabilityDefinition) : M unit :=
  let* binding := gets (fun a => default ∅ (a_resolvedBindings a !! consumer)) in
  if str_at binding capability !=? provider then ret tt
  else
    let iface := str_at binding (capability +:+ ".interface") in
    match k_Outputs k !! iface with
    | None => raise (NoOutputABI capability iface)
    | Some o =>
        do* set_output capability consumer (capabilityOutputBindingKey o consumer "INTERFACE") iface false ;;
        foldM (fun _ suffix => publish_output capability provider consumer o suffix) tt (co_Required o)
    end.

Definition publishCapabilityOutputs (provider : string) : M unit :=
  let* consumers := gets (fun a => sorted_keys (a_resolvedBindings a)) in
  foldM (fun _ capability =>
    match capabilityDefinitions !! capability with
    | None => ret tt
    | Some k =>
        let* selected := gets (fun a => str_at (a_capabilityProviders a) capability) in
        if bool_decide (k_Outputs k = ∅) || (selected !=? provider) then ret tt
        else foldM (fun _ consumer => publish_consumer capability provider consumer k) tt consumers
    end) tt (sorted_keys capabilityDefinitions).
End Scope.

(** ** The calculate stage

    runner.go's [calculate], from the moment a module's Hook has answered: its
    secret patch is checked, its environment patch applied, the whole
    environment normalised and checked again, and only then are the secrets
    stored and the module's outputs projected.  The Hook process itself and the
    resources materialised before it are not part of the model: the answer is an
    argument.  Also capability.go's checks of what identity providers and their
    clients publish. *)

(** ** Identity endpoints *)

Definition requiredEndpointSuffixes (iface : string) : list string :=
  if iface ==? interfaceOIDC then ["OIDC_ISSUER_URL"; "OIDC_DISCOVERY_URL"]
  else if iface ==? interfaceSAML then ["SAML_METADATA_URL"; "SAML_ENTITY_ID"; "SAML_SSO_URL"] else [].

Definition iamLogoutValues (vocabulary : string) : list string :=
  if vocabulary ==? "OIDC_LOGOUT_METHODS" then ["backchannel"; "frontchannel"]
  else if vocabulary ==? "SAML_SLS_BINDINGS" then ["redirect"; "post"]
  else if vocabulary ==? "OIDC_CAEP_EVENTS" then ["session-revoked"] else [].

Section Calculate.
Context `{CT : CaseTables, SL : SchemaLibs} (D : Deployment).
#[local] Notation reg := (d_reg D).

Definition splitIAMLogoutList (raw : string) : list string :=
  fold_left (fun values item =>
    let item := ToLower (TrimSpace item) in
    if (item !=? "") && negb (contains values item) then values ++ [item] else values) (SplitAt "," raw) [].

Definition validateIAMLogoutValues (key vocabulary : string) (values : list string) : result runErr unit :=
  if forallb (contains (iamLogoutValues vocabulary)) values then Ok tt else Err (IAMClientValue key).

Definition validateIAMHTTPSURL (key raw : string) : result runErr unit :=
  match url_Parse raw with
  | Some u => reject (u_Scheme u !=? "https") || (u_Host u ==? "") || u_User u with IAMClientValue key ;; Ok tt
  | None => Err (IAMClientValue key)
  end.

Definition validateIAMHTTPSList (key raw : string) : result runErr unit :=
  check_all (fun value => let value := TrimSpace value in if value ==? "" then Ok tt else validateIAMHTTPSURL key value) (SplitAt "," raw).

Definition rejectIAMClientFields (env : gmap string string) (prefix : string) (suffixes : list string) : result runErr unit :=
  check_all (fun suffix => reject TrimSpace (str_at env (prefix +:+ suffix)) !=? "" with IAMClientStale (prefix +:+ suffix) ;; Ok tt) suffixes.

(** One consumer's events: supported by its interface, known, published by the
    provider; then the endpoints that are missing. *)
Definition check_iam_consumer (a : App) (consumer : string) : result runErr (list string) :=
  let caepKey := iamBindingKey consumer "OIDC_CAEP_EVENTS" in
  let caep := splitIAMLogoutList (str_at (a_env a) caepKey) in
  let iface := str_at (a_iamBindings a) consumer in
  reject negb (is_nil caep) && (iface !=? interfaceOIDC) with IAMEventInterface caepKey ;;
  do! validateIAMLogoutValues caepKey "OIDC_CAEP_EVENTS" caep ;;
  reject negb (is_nil caep) && (str_at (a_envOwner a) caepKey !=? a_iamProvider a) with IAMEventOwner caepKey ;;
  Ok (List.filter (fun key => TrimSpace (str_at (a_env a) key) ==? "") (map (iamBindingKey consumer) (requiredEndpointSuffixes iface))).

Definition validateIAMEndpoints (a : App) : result runErr unit :=
  if a_iamProvider a ==? "" then Ok tt
  else
    let? missing := result_fold (fun missing consumer => let? more := check_iam_consumer a consumer in Ok (missing ++ more)) [] (iamConsumers a) in
    if is_nil missing then Ok tt else Err (IAMEndpointsMissing missing).

(** ** Identity clients *)

Definition iamClientPrefix (consumer : string) : string := "ANAS_IAM_CLIENT__" +:+ ToUpper (dash_to_underscore consumer) +:+ "__".

(** A list of logout methods needs an endpoint, an endpoint needs methods, the
    methods are known and the endpoint is an HTTPS URL. *)
Definition check_logout (env : gmap string string) (prefix methodsKey uriKey : string) : result runErr unit :=
  let methods := splitIAMLogoutList (str_at env (prefix +:+ methodsKey)) in
  let uri := TrimSpace (str_at env (prefix +:+ uriKey)) in
  reject negb (is_nil methods) && (uri ==? "") with IAMClientIncomplete (prefix +:+ uriKey) ;;
  reject (uri !=? "") && is_nil methods with IAMClientIncomplete (prefix +:+ methodsKey) ;;
  do! validateIAMLogoutValues (prefix +:+ methodsKey) methodsKey methods ;;
  if uri !=? "" then validateIAMHTTPSURL (prefix +:+ uriKey) uri else Ok tt.

Definition check_session_required (env : gmap string string) (prefix : string) : result runErr unit :=
  let key := prefix +:+ "OIDC_LOGOUT_SESSION_REQUIRED" in
  let raw := TrimSpace (str_at env key) in
  if raw ==? "" then Ok tt
  else
    reject is_nil (splitIAMLogoutList (str_at env (prefix +:+ "OIDC_LOGOUT_METHODS"))) with IAMClientIncomplete key ;;
    reject (raw !=? "true") && (raw !=? "false") with IAMClientValue key ;;
    Ok tt.

(** The events a client asks for, and those its provider offers it. *)
Definition check_events (a : App) (consumer prefix : string) : result runErr unit :=
  let env := a_env a in
  let caepKey := prefix +:+ "OIDC_CAEP_EVENTS" in
  let caep := splitIAMLogoutList (str_at env caepKey) in
  do! validateIAMLogoutValues caepKey "OIDC_CAEP_EVENTS" caep ;;
  if is_nil caep then Ok tt
  else
    reject str_at (a_envOwner a) caepKey !=? consumer with IAMEventOwner caepKey ;;
    reject negb (contains (splitIAMLogoutList (str_at env (prefix +:+ "OIDC_LOGOUT_METHODS"))) "backchannel") || (TrimSpace (str_at env (prefix +:+ "OIDC_LOGOUT_URI")) ==? "")
      with IAMClientIncomplete caepKey ;;
    reject TrimSpace (str_at env (prefix +:+ "OIDC_LOGOUT_SESSION_REQUIRED")) ==? "true" with IAMClientValue caepKey ;;
    let supportedKey := iamBindingKey consumer "OIDC_CAEP_EVENTS" in
    let supported := splitIAMLogoutList (str_at env supportedKey) in
    do! validateIAMLogoutValues supportedKey "OIDC_CAEP_EVENTS" supported ;;
    reject negb (is_nil supported) && (str_at (a_envOwner a) supportedKey !=? a_iamProvider a) with IAMEventOwner supportedKey ;;
    check_all (fun event => reject negb (contains supported event) with IAMEventUnsupported caepKey event ;; Ok tt) caep.

Definition check_iam_client (a : App) (consumer : string) : result runErr unit :=
  let prefix := iamClientPrefix consumer in
  let env := a_env a in
  if str_at (a_iamBindings a) consumer ==? interfaceOIDC then
    do! rejectIAMClientFields env prefix ["SAML_SLS_URL"; "SAML_SLS_BINDINGS"] ;;
    do! validateIAMHTTPSList (prefix +:+ "POST_LOGOUT_REDIRECT_URIS") (str_at env (prefix +:+ "POST_LOGOUT_REDIRECT_URIS")) ;;
    do! check_logout env prefix "OIDC_LOGOUT_METHODS" "OIDC_LOGOUT_URI" ;;
    do! check_session_required env prefix ;;
    check_events a consumer prefix
  else if str_at (a_iamBindings a) consumer ==? interfaceSAML then
    do! rejectIAMClientFields env prefix
      ["POST_LOGOUT_REDIRECT_URIS"; "OIDC_LOGOUT_URI"; "OIDC_LOGOUT_METHODS"; "OIDC_LOGOUT_SESSION_REQUIRED"; "OIDC_CAEP_EVENTS"] ;;
    check_logout env prefix "SAML_SLS_BINDINGS" "SAML_SLS_URL"
  else Ok tt.

Definition validateIAMClientRegistrations (a : App) : result runErr unit :=
  if a_iamProvider a ==? "" then Ok tt else check_all (check_iam_client a) (iamConsumers a).

(** ** Committing a Hook's answer *)

Record hookResponse := mkHookResponse { hr_Env : gmap string string; hr_Secrets : gmap string string }.

Definition merge_secrets (name : string) (patch : gmap string string) : M unit :=
  modify (fun a => match a_secrets a with Some s => set_secrets (Some (mergeCanonicalHookSecrets name patch s)) a | None => a end).

Definition normalize_with (sensitive : gset string) : M unit :=
  fun a => let '(r, env) := normalizeConfiguredParameterEnvWithSensitive D (a_env a) sensitive in (r, set_env (fun _ => env) a).

(** Everything that is checked and applied before the secrets are stored. *)
Definition stage_response (name : string) (md : Module) (resp : hookResponse) : M (gmap string string) :=
  let* secretPatch := lift (canonicalizeHookSecretPatch (hr_Secrets resp)) in
  let* valid := gets (validateCalculateSecretPatch md secretPatch) in
  do* lift valid ;;
  do* applyCalculatePatch md (hr_Env resp) ;;
  let* env := gets a_env in
  let* sensitive := hookPatchSensitiveEnv D env secretPatch in
  do* normalize_with sensitive ;;
  let* env := gets a_env in
  do* lift (requireKeys env (finalRequirements md)) ;;
  ret secretPatch.

Definition finish_calculate (name : string) (resp : hookResponse) : M unit :=
  let md := at_reg reg name in
  let* secretPatch := stage_response name md resp in
  do* merge_secrets name secretPatch ;;
  do* projectProvidedCredentials D name ;;
  do* publishCapabilityOutputs name ;;
  do* modify (set_cache None) ;;
  let* a := gets (fun a => a) in
  if name ==? a_iamProvider a then lift (validateIAMEndpoints a) else ret tt.
End Calculate.
