(* ===== verification/RunnerScopeFacts.v ===== *)
(** * Launcher: confidentiality and ownership

    Which keys and secrets a module's environment carries, what a calculate Hook
    may write, what a whole calculate step keeps, and that the dependency closure
    is reachability; with the scopes of a concrete deployment. *)

From S2P Require Import Prelude GoText GoStrings ConfigSchema RunnerTypes RunnerBind RunnerSelect RunnerOrder RunnerScope RunnerSortFacts RunnerSelectFacts ConfigSchemaFacts RunnerResolve.

(** ** Values that give a secret away *)

(** The same text, up to surrounding space. *)
Definition reveals (v s : string) : Prop := v <> "" /\ s <> "" /\ (v = s \/ (TrimSpace s <> "" /\ TrimSpace v = TrimSpace s)).

Lemma add_forms_mono vs x v : v ∈ vs -> v ∈ addSensitiveValueForms vs x.
Proof. intros Hv. unfold addSensitiveValueForms. repeat case_match; set_solver. Qed.
Lemma add_forms_new vs x : x <> "" -> x ∈ addSensitiveValueForms vs x /\ (TrimSpace x <> "" -> TrimSpace x ∈ addSensitiveValueForms vs x).
Proof.
  intros Hx. unfold addSensitiveValueForms. rewrite bool_decide_eq_false_2 by done. cbv zeta.
  destruct (TrimSpace x !=? "") eqn:E; split; try set_solver. intros Ht. breflect. done.
Qed.

Lemma value_forms_elem l x : x ∈ l -> x <> "" -> x ∈ value_forms l /\ (TrimSpace x <> "" -> TrimSpace x ∈ value_forms l).
Proof.
  unfold value_forms. intros Hx Hne. generalize (∅ : gset string) as acc.
  assert (forall l acc v, v ∈ acc -> v ∈ fold_left addSensitiveValueForms l acc) as Hm.
  { clear. induction l as [|y l IH]; intros acc v Hv; cbn; [done|]. apply IH. by apply add_forms_mono. }
  induction l as [|y l IH]; intros acc; [by apply elem_of_nil in Hx|]. cbn. apply elem_of_cons in Hx as [<-|Hx]; [|by apply IH].
  destruct (add_forms_new acc x Hne) as [H1 H2]. split; [by apply Hm|]. intros Ht. by apply Hm, H2.
Qed.

Lemma reveals_matches l v s : s ∈ l -> reveals v s -> matchesSensitiveValue (value_forms l) v = true.
Proof.
  intros Hs (Hv & Hne & He). destruct (value_forms_elem l s Hs Hne) as [H1 H2]. unfold matchesSensitiveValue.
  rewrite bool_decide_eq_false_2 by done. destruct He as [->|[Ht E]]; [by rewrite bool_decide_eq_true_2|].
  rewrite E. rewrite (bool_decide_eq_true_2 (TrimSpace s ∈ _)) by auto. rewrite (bool_decide_eq_false_2 (TrimSpace s = "")) by done. by rewrite orb_true_r.
Qed.

Lemma keys_matching_elem forms m k v : m !! k = Some v -> matchesSensitiveValue forms v = true -> k ∈ keys_matching forms m.
Proof. intros Hk Hv. unfold keys_matching. apply elem_of_dom. exists v. by apply map_lookup_filter_Some. Qed.

Section ScopeFacts.
Context `{CT : CaseTables, SL : SchemaLibs} (D : Deployment).
#[local] Notation reg := (d_reg D).
#[local] Notation cfg := (d_cfg D).

(** A secret of the deployment: a stored value, or the value of a key that the
    configuration, a manifest or the runner declares sensitive. *)
Definition secret_plaintext (a : App) (s : string) : Prop :=
  (exists store k, a_secrets a = Some store /\ s_values store !! k = Some s) \/
  (exists k, k ∈ declared_sensitive D a /\ a_env a !! k = Some s).

Lemma aliases_mono values sensitive k : k ∈ sensitive -> k ∈ markSensitiveValueAliases values sensitive.
Proof. intros Hk. unfold markSensitiveValueAliases. cbv zeta. case_match; set_solver. Qed.

Lemma aliases_elem values sensitive k v k0 s :
  k0 ∈ sensitive -> values !! k0 = Some s -> values !! k = Some v -> reveals v s -> k ∈ markSensitiveValueAliases values sensitive.
Proof.
  intros Hk0 Hs Hv Hr. unfold markSensitiveValueAliases. cbv zeta. set (l := map (str_at values) (elements sensitive)).
  assert (s ∈ l) as Hin.
  { apply list_elem_of_In, in_map_iff. exists k0. unfold str_at. rewrite Hs. split; [done|]. apply list_elem_of_In. by apply elem_of_elements. }
  pose proof (reveals_matches l v s Hin Hr) as Hm. case_bool_decide as E.
  - exfalso. unfold matchesSensitiveValue in Hm. rewrite E in Hm. case_match; [done|]. breflect. set_solver.
  - apply elem_of_union. right. by eapply keys_matching_elem.
Qed.

(** Every key that carries a secret is sensitive. *)
Lemma sensitive_covers a k v s : a_env a !! k = Some v -> secret_plaintext a s -> reveals v s -> k ∈ compute_sensitive D a.
Proof.
  intros Hk Hs Hr. unfold compute_sensitive. destruct Hs as [(store & k0 & Hst & Hs)|(k0 & Hk0 & Hs)].
  - apply aliases_mono, elem_of_union. right. unfold stored_sensitive. rewrite Hst. apply elem_of_union. right.
    eapply keys_matching_elem; [done|]. eapply reveals_matches; [|done]. apply list_elem_of_In, in_map_iff. exists (k0, s).
    split; [done|]. by apply list_elem_of_In, elem_of_map_to_list.
  - eapply aliases_elem; [|exact Hs|exact Hk|exact Hr]. apply elem_of_union. by left.
Qed.

(** C6.  A secret reaches only its audience: whatever key of a module's
    rendered environment carries the plaintext of a deployment secret, up to
    surrounding space, that key is owned by the module, is one of its declared
    parameters, or is claimed in its [config.consumes]; and outside the
    diagnostic wide mode every key of that environment is the module's own,
    global, or claimed. *)
Theorem secrets_reach_only_their_audience wide name a env a' :
  a_sensitiveKeys a = None -> scopedEnv D wide name a = (Ok env, a') ->
  let claimed k := matchEnvPattern (m_Consumes (at_reg reg name)) k = true in
  (forall k v s, env !! k = Some v -> secret_plaintext a s -> reveals v s ->
     a_envOwner a !! k = Some name \/ declared_by D k name = true \/ claimed k) /\
  (wide = false -> forall k, is_Some (env !! k) ->
     a_envOwner a !! k = Some name \/ declared_by D k name = true \/ has_any_prefix (module_prefixes D name) k = true \/
     a_envOwner a !! k = Some globalScope \/ claimed k).
Proof.
  intros Hc H claimed. unfold scopedEnv, envScopeFor, bindM, sensitiveEnvKeySet in H. rewrite Hc in H. cbn in H. injection H as <- _.
  split.
  - intros k v s Hk Hs Hr. apply map_lookup_filter_Some in Hk as [Hk Ht]. cbn in Ht. pose proof (sensitive_covers a k v s Hk Hs Hr) as Hin.
    unfold scope_test in Ht. cbv zeta in Ht. rewrite bool_decide_eq_true_2 in Ht by done. unfold owned_by in Ht. cbn in Ht. breflect_in Ht. unfold claimed. tauto.
  - intros -> k [v Hk]. apply map_lookup_filter_Some in Hk as [Hk Ht]. cbn [fst] in Ht. unfold scope_test, owned_by in Ht. cbv zeta in Ht. cbn [a_envOwner set_cache andb orb] in Ht.
    unfold claimed. destruct (bool_decide (k ∈ _)); [breflect_in Ht; tauto|].
    destruct (bool_decide (a_envOwner a !! k = Some name)) eqn:E1; [breflect_in E1; tauto|].
    destruct (has_any_prefix _ k) eqn:E2; [tauto|]. cbn [orb] in Ht.
    destruct (bool_decide (a_envOwner a !! k = Some globalScope)) eqn:E3; [breflect_in E3; tauto|tauto].
Qed.

(** ** Environment patches *)

Lemma elem_of_sorted_keys {V} (m : gmap string V) k : k ∈ sorted_keys m <-> is_Some (m !! k).
Proof.
  unfold sorted_keys. rewrite elem_of_SortStrings, list_elem_of_In, in_map_iff. split.
  - intros ([k' v] & <- & Hk). apply list_elem_of_In, elem_of_map_to_list in Hk. by eexists.
  - intros [v Hv]. exists (k, v). split; [done|]. by apply list_elem_of_In, elem_of_map_to_list.
Qed.

Lemma owner_write md patch k0 a k :
  a_envOwner (write_patch md patch a k0) !! k =
  match a_envOwner a !! k with Some o => Some o | None => if decide (k = k0) then Some (m_Name md) else None end.
Proof.
  unfold write_patch, setEnvOwner. cbn. destruct (a_envOwner a !! k0) as [o0|] eqn:E0; cbn.
  - destruct (decide (k = k0)) as [->|]; [by rewrite E0|by case_match].
  - destruct (decide (k = k0)) as [->|]; [by rewrite lookup_insert_eq, E0|]. rewrite lookup_insert_ne by done. by case_match.
Qed.
Lemma env_write md patch k0 a : a_env (write_patch md patch a k0) = <[k0 := str_at patch k0]> (a_env a).
Proof. unfold write_patch, setEnvOwner. by case_match. Qed.

Lemma write_all md patch keys : forall a k,
  a_env (fold_left (write_patch md patch) keys a) !! k = (if decide (k ∈ keys) then Some (str_at patch k) else a_env a !! k) /\
  a_envOwner (fold_left (write_patch md patch) keys a) !! k =
    match a_envOwner a !! k with Some o => Some o | None => if decide (k ∈ keys) then Some (m_Name md) else None end.
Proof.
  induction keys as [|k0 keys IH]; intros a k; cbn [fold_left].
  - rewrite decide_False by apply not_elem_of_nil. split; [done|]. by case_match.
  - destruct (IH (write_patch md patch a k0) k) as [-> ->]. rewrite env_write, owner_write.
    destruct (decide (k ∈ keys)) as [Hk|Hk].
    { rewrite !(decide_True (P := k ∈ k0 :: keys)) by (by right). split; [done|].
      destruct (a_envOwner a !! k); [done|]. by destruct (decide (k = k0)). }
    destruct (decide (k = k0)) as [->|Hne].
    + rewrite !(decide_True (P := k0 ∈ k0 :: keys)), lookup_insert_eq by (by left). split; [done|].
      destruct (a_envOwner a !! k0); [done|]. by destruct (decide (k0 = k0)).
    + rewrite !(decide_False (P := k ∈ k0 :: keys)), lookup_insert_ne by (rewrite ?elem_of_cons; tauto || done). split; [done|].
      destruct (a_envOwner a !! k); [done|]. by destruct (decide (k = k0)).
Qed.

Lemma is_nil_true {A} (l : list A) : is_nil l = true <-> l = [].
Proof. by destruct l. Qed.
Lemma filter_nil {A} (p : A -> bool) l : List.filter p l = [] -> forall x, x ∈ l -> p x = false.
Proof.
  intros Hf x Hx. destruct (p x) eqn:E; [|done]. assert (x ∈ List.filter p l) as Hin by by apply elem_of_Lfilter.
  rewrite Hf in Hin. by apply elem_of_nil in Hin.
Qed.

(** A calculate Hook writes only what is its module's to write: an
    accepted patch consists of valid keys under the module's prefixes, keys it
    already owned or exports it declared, none of them owned by another source,
    and afterwards each has the patched value and the module as its owner; every
    other key keeps its value and its owner.  A rejected patch changes
    nothing. *)
Lemma applyCalculatePatch_spec md patch a r a' :
  applyCalculatePatch md patch a = (r, a') ->
  match r with
  | Ok _ =>
      (forall k v, patch !! k = Some v ->
         isEnvKey k = true /\ moduleHookMayWriteKey md k (owned_by a k (m_Name md)) = true /\
         (a_envOwner a !! k = None \/ a_envOwner a !! k = Some (m_Name md)) /\
         a_env a' !! k = Some v /\ a_envOwner a' !! k = Some (m_Name md)) /\
      (forall k, patch !! k = None -> a_env a' !! k = a_env a !! k /\ a_envOwner a' !! k = a_envOwner a !! k)
  | Err _ => a' = a
  end.
Proof.
  unfold applyCalculatePatch. cbv zeta.
  destruct (is_nil (invalidHookEnvKeys patch)) eqn:E1; cbn [negb]; [|by intros [= <- <-]].
  destruct (is_nil (patch_violations md a (sorted_keys patch))) eqn:E2; cbn [negb]; [|by intros [= <- <-]].
  destruct (is_nil (patch_conflicts md a (sorted_keys patch))) eqn:E3; cbn [negb]; [|by intros [= <- <-]].
  apply is_nil_true in E1, E2, E3. unfold invalidHookEnvKeys in E1. unfold patch_violations in E2. unfold patch_conflicts in E3.
  pose proof (filter_nil _ _ E1) as F1. pose proof (filter_nil _ _ E2) as F2. pose proof (filter_nil _ _ E3) as F3. cbn beta in F1, F2, F3. clear E1 E2 E3.
  intros [= <- <-].
  assert (forall k, a_env (if is_nil (sorted_keys patch) then fold_left (write_patch md patch) (sorted_keys patch) a else set_cache None (fold_left (write_patch md patch) (sorted_keys patch) a)) !! k =
      (if decide (k ∈ sorted_keys patch) then Some (str_at patch k) else a_env a !! k) /\
    a_envOwner (if is_nil (sorted_keys patch) then fold_left (write_patch md patch) (sorted_keys patch) a else set_cache None (fold_left (write_patch md patch) (sorted_keys patch) a)) !! k =
      match a_envOwner a !! k with Some o => Some o | None => if decide (k ∈ sorted_keys patch) then Some (m_Name md) else None end) as Hw.
  { intros k. destruct (is_nil (sorted_keys patch)); apply write_all. }
  split.
  - intros k v Hk. assert (k ∈ sorted_keys patch) as Hin by (apply elem_of_sorted_keys; by eexists).
    specialize (F1 k Hin). apply negb_false_iff in F1. specialize (F2 k Hin). rewrite F1 in F2. cbn in F2. apply negb_false_iff in F2.
    specialize (F3 k Hin). rewrite F1, F2 in F3. cbn in F3. destruct (Hw k) as [-> ->]. rewrite !decide_True by done. unfold str_at. rewrite Hk.
    assert (a_envOwner a !! k = None \/ a_envOwner a !! k = Some (m_Name md)) as Ho.
    { destruct (a_envOwner a !! k) as [o|] eqn:Eo; [right|by left]. cbn in F3. apply negb_false_iff in F3. unfold owned_by in F3. apply bool_decide_eq_true in F3. congruence. }
    split_and!; try done. by destruct Ho as [->| ->].
  - intros k Hk. destruct (Hw k) as [-> ->]. assert (k ∉ sorted_keys patch) as Hn by (rewrite elem_of_sorted_keys, Hk; by intros [? ?]).
    rewrite !decide_False by done. split; [done|]. by destruct (a_envOwner a !! k).
Qed.

(** ** What a whole calculate step keeps *)

Definition owners_kept (a a' : App) : Prop := forall k o, a_envOwner a !! k = Some o -> a_envOwner a' !! k = Some o.
Definition steady (a a' : App) : Prop := owners_kept a a' /\ a_secrets a' = a_secrets a.
Definition frames {A} (c : M A) : Prop := forall a r a', c a = (r, a') -> steady a a'.

Lemma steady_refl a : steady a a.
Proof. by split; [intros k o|]. Qed.
Lemma steady_trans a b c : steady a b -> steady b c -> steady a c.
Proof. intros [H1 H2] [H3 H4]. split; [intros k o Ho; by apply H3, H1|by rewrite H4]. Qed.

Lemma frames_quiet {A} (c : M A) : quiet c -> frames c.
Proof. intros Hq a r a' H. destruct (Hq _ _ _ H) as [s ->]. by split; [intros k o|]. Qed.
Lemma frames_bind {A B} (c : M A) (k : A -> M B) : frames c -> (forall x, frames (k x)) -> frames (bindM c k).
Proof.
  intros Hc Hk a r a'. unfold bindM. destruct (c a) as [[x|e] a1] eqn:E; apply Hc in E.
  - intros H. apply Hk in H. by eapply steady_trans.
  - by intros [= <- <-].
Qed.
Lemma frames_foldM {A B} (f : B -> A -> M B) l : (forall b x, frames (f b x)) -> forall b, frames (foldM f b l).
Proof.
  intros Hf. induction l as [|x l IH]; intros b; cbn; [apply frames_quiet, quiet_retM|]. by apply frames_bind.
Qed.
Lemma frames_modify f : (forall a, steady a (f a)) -> frames (modify f).
Proof. intros Hf a r a' [= <- <-]. apply Hf. Qed.
Lemma steady_publish k v o a : steady a (setEnvOwner k o (put_env k v a)).
Proof.
  unfold setEnvOwner. destruct (is_None_b _) eqn:E; [|by split; [intros k' o'|]]. split; [|done].
  intros k' o' Ho. cbn in *. rewrite lookup_insert_ne; [done|]. intros ->. by rewrite Ho in E.
Qed.
Lemma frames_mark k : frames (modify (markSensitive k)).
Proof. apply frames_modify. intros a. by split; [intros k' o'|]. Qed.

#[local] Hint Resolve frames_quiet frames_bind frames_foldM frames_modify frames_mark steady_publish quiet_retM quiet_raise quiet_gets quiet_lift quiet_guard : frames.

Lemma frames_set_output c n k v b : frames (set_output c n k v b).
Proof. unfold set_output. apply frames_bind; [auto with frames|intros]. cbv zeta. repeat (apply frames_bind; [auto with frames|intros]). case_match; auto with frames. Qed.
Lemma frames_outputs p : frames (publishCapabilityOutputs p).
Proof.
  unfold publishCapabilityOutputs. apply frames_bind; [auto with frames|intros consumers]. apply frames_foldM. intros _ capability.
  case_match; [|auto with frames]. apply frames_bind; [auto with frames|intros selected]. case_match; [auto with frames|]. apply frames_foldM. intros _ consumer.
  unfold publish_consumer. apply frames_bind; [auto with frames|intros binding]. case_match; [auto with frames|]. cbv zeta. case_match; [|auto with frames].
  apply frames_bind; [apply frames_set_output|intros _]. apply frames_foldM. intros _ suffix. unfold publish_output. cbv zeta.
  apply frames_bind; [auto with frames|intros a]. do 2 (apply frames_bind; [auto with frames|intros _]).
  apply frames_bind; [apply frames_set_output|intros _]. case_match; auto with frames.
Qed.
Lemma frames_credentials p : frames (projectProvidedCredentials D p).
Proof.
  unfold projectProvidedCredentials. apply frames_foldM. intros _ cp. apply frames_bind; [auto with frames|intros value].
  apply frames_bind; [auto with frames|intros _]. apply frames_bind; [auto with frames|intros order]. apply frames_foldM. intros _ m. apply frames_foldM. intros _ c.
  unfold project_credential. case_match; [auto with frames|]. do 2 (apply frames_bind; [auto with frames|intros]). auto with frames.
Qed.
Lemma frames_patch md patch : frames (applyCalculatePatch md patch).
Proof.
  intros a r a' H. split; [|].
  - apply applyCalculatePatch_spec in H. destruct r as [u|e]; [|by subst; intros k o]. destruct H as [H1 H2]. intros k o Ho.
    destruct (patch !! k) as [v|] eqn:Ek.
    + destruct (H1 k v Ek) as (_ & _ & Hown & _ & ->). destruct Hown as [?|?]; congruence.
    + destruct (H2 k Ek) as [_ ->]. done.
  - unfold applyCalculatePatch in H. cbv zeta in H. repeat case_match; injection H as <- <-; cbn; try done;
      (assert (forall l b, a_secrets (fold_left (write_patch md patch) l b) = a_secrets b) as Hs;
       [induction l as [|x l IH]; intros b; cbn; [done|]; rewrite IH; unfold write_patch, setEnvOwner; by case_match|apply Hs]).
Qed.
Lemma frames_hook_sensitive values pending : frames (hookPatchSensitiveEnv D values pending).
Proof.
  unfold hookPatchSensitiveEnv. apply frames_bind; [apply frames_modify; intros a; by split; [intros k o|]|intros _].
  apply frames_bind; [apply frames_quiet, quiet_sensitive|auto with frames].
Qed.
Lemma frames_normalize s : frames (normalize_with D s).
Proof. intros a r a' H. unfold normalize_with in H. destruct (normalizeConfiguredParameterEnvWithSensitive _ _ _) as [r' env]. injection H as <- <-. by split; [intros k o|]. Qed.

Lemma frames_stage name md resp : frames (stage_response D name md resp).
Proof.
  unfold stage_response. do 3 (apply frames_bind; [auto with frames|intros]). apply frames_bind; [apply frames_patch|intros _].
  apply frames_bind; [auto with frames|intros env]. apply frames_bind; [apply frames_hook_sensitive|intros sens].
  apply frames_bind; [apply frames_normalize|intros _]. do 2 (apply frames_bind; [auto with frames|intros]). auto with frames.
Qed.

(** *** The Secret Store *)

Lemma merge_keeps owner canonical keys : forall s k v,
  s_values s !! k = Some v -> secret_changes s k (str_at canonical k) = false ->
  s_values (fold_left (merge_secret owner canonical) keys s) !! k = Some v /\
  s_metadata (fold_left (merge_secret owner canonical) keys s) !! k = s_metadata s !! k.
Proof.
  induction keys as [|k0 keys IH]; intros s k v Hv Hc; cbn [fold_left]; [done|]. unfold merge_secret at 2 4. cbv zeta.
  destruct (secret_changes s k0 (str_at canonical k0)) eqn:E0; cbn [negb]; [|by apply IH].
  assert (k0 <> k) as Hne by (intros ->; congruence).
  set (s1 := mkSecretStore _ _ _).
  assert (s_values s1 !! k = Some v) as Hv1 by (cbn; by rewrite lookup_insert_ne).
  destruct (IH s1 k v Hv1) as [H1 H2]. { unfold secret_changes in *. by rewrite Hv1, <-Hv. }
  split; [done|]. rewrite H2. cbn. case_match; [by rewrite lookup_insert_ne|done].
Qed.

Lemma merge_new owner canonical keys : forall s k v,
  (s_values s !! k = None \/ s_metadata s !! k = Some (mkSecretMetadata owner "generated" "module-hook")) ->
  s_values (fold_left (merge_secret owner canonical) keys s) !! k = Some v ->
  s_metadata (fold_left (merge_secret owner canonical) keys s) !! k = Some (mkSecretMetadata owner "generated" "module-hook").
Proof.
  induction keys as [|k0 keys IH]; intros s k v Hs Hv; cbn [fold_left] in *; [destruct Hs; [congruence|done]|].
  eapply IH; [|exact Hv]. unfold merge_secret. cbv zeta. destruct (secret_changes s k0 _); cbn [negb]; [|done]. cbn.
  destruct (decide (k0 = k)) as [->|Hne].
  - right. destruct Hs as [Hs|Hs]; [rewrite Hs; cbn; by rewrite lookup_insert_eq|]. case_match; [by rewrite lookup_insert_eq|done].
  - rewrite lookup_insert_ne by done. destruct Hs as [Hs|Hs]; [by left|right]. case_match; [by rewrite lookup_insert_ne|done].
Qed.

(** C12.  A calculate step never takes anything over: whatever its outcome,
    every environment key keeps the owner it had, every stored secret that is
    not one this module's Hook generated keeps its value and its metadata, and
    a secret that is new belongs to the module, as generated by its Hook. *)
Theorem calculate_step_takes_nothing_over name resp a r a' s :
  m_Name (at_reg reg name) = name -> a_secrets a = Some s -> finish_calculate D name resp a = (r, a') ->
  owners_kept a a' /\
  exists s', a_secrets a' = Some s' /\
    (forall k v, s_values s !! k = Some v -> hook_managed s name k = false -> s_values s' !! k = Some v /\ s_metadata s' !! k = s_metadata s !! k) /\
    (forall k v, s_values s !! k = None -> s_values s' !! k = Some v -> s_metadata s' !! k = Some (mkSecretMetadata name "generated" "module-hook")).
Proof.
  intros Hname Hs H. unfold finish_calculate in H. unfold bindM at 1 in H.
  destruct (stage_response D name (at_reg reg name) resp a) as [[patch|e] a1] eqn:Est; pose proof (frames_stage _ _ _ _ _ _ Est) as [Ho1 Hs1].
  2: { injection H as <- <-. split; [done|]. exists s. rewrite Hs1. split_and!; [done|done|]. intros k v Hn Hv; congruence. }
  set (s1 := mergeCanonicalHookSecrets name patch s).
  assert (frames (do* projectProvidedCredentials D name ;; do* publishCapabilityOutputs name ;; do* modify (set_cache None) ;;
    let* a := gets (fun a => a) in if name ==? a_iamProvider a then lift (validateIAMEndpoints a) else ret tt)) as Hf.
  { apply frames_bind; [apply frames_credentials|intros _]. apply frames_bind; [apply frames_outputs|intros _].
    apply frames_bind; [apply frames_modify; intros b; by split; [intros k o|]|intros _]. apply frames_bind; [auto with frames|intros b]. case_match; auto with frames. }
  unfold bindM at 1 in H. cbn [merge_secrets modify] in H. rewrite Hs1, Hs in H. apply Hf in H as [Ho2 Hs2]. cbn in Ho2, Hs2. fold s1 in Hs2.
  split; [intros k o Hk; by apply Ho2, Ho1|]. exists s1. split; [done|].
  assert (validateCalculateSecretPatch (at_reg reg name) patch a = Ok tt) as Hval.
  { unfold stage_response in Est. apply bindM_ok in Est as (p & b0 & E1 & Est). injection E1 as E1 <-. apply bindM_ok in Est as (v & b1 & E2 & Est). injection E2 as E2 <-.
    apply bindM_ok in Est as (u & b2 & E3 & Est). injection E3 as E3 <-.
    assert (p = patch) as ->. { repeat (apply bindM_ok in Est as (? & ? & _ & Est)). by injection Est. }
    rewrite E2, E3. by destruct u. }
  assert (forall k, is_Some (patch !! k) -> secret_changes s k (str_at patch k) && negb (is_None_b (s_values s !! k)) && negb (hook_managed s name k) = false) as Hp.
  { unfold validateCalculateSecretPatch in Hval. rewrite Hs, Hname in Hval. cbv zeta in Hval. do 2 ok_step Hval. unfold validateCanonicalHookSecretPatch in Hval. ok_step Hval.
    apply check_all_ok in Hval. rewrite Forall_forall in Hval. intros k Hk. specialize (Hval k (proj2 (elem_of_sorted_keys patch k) Hk)). cbn in Hval. by ok_step Hval. }
  split.
  - intros k v Hk Hm. apply merge_keeps; [done|]. destruct (patch !! k) as [pv|] eqn:Epk.
    + specialize (Hp k ltac:(by eexists)). rewrite Hm, Hk in Hp. cbn in Hp. by rewrite !andb_true_r in Hp.
    + unfold secret_changes, str_at. by rewrite Epk.
  - intros k v Hn Hv. by eapply merge_new; [left|].
Qed.
End ScopeFacts.

(** ** The dependency closure *)

Section Closure.
Context (a : App).

Definition dep_edge (n d : string) : Prop := d ∈ deps_of a n.

(** What a visit adds is complete: its own dependencies are in. *)
Definition settled (out out' : gset string) : Prop :=
  out ⊆ out' /\ forall x d, x ∈ out' -> x ∉ out -> dep_edge x d -> d ∈ out'.

Lemma settled_refl out : settled out out.
Proof. split; [done|]. intros x d H1 H2. done. Qed.
Lemma settled_trans o1 o2 o3 : settled o1 o2 -> settled o2 o3 -> settled o1 o3.
Proof.
  intros [H1 H2] [H3 H4]. split; [set_solver|]. intros x d Hx Hn Hd. destruct (decide (x ∈ o2)) as [Hx2|Hx2]; [by apply H3, (H2 x)|by apply (H4 x)].
Qed.

Definition visit_dep fuel (out : gset string) (dep : string) : gset string :=
  if bool_decide (dep ∈ out) then out else close fuel a (out ∪ {[dep]}) dep.

Lemma close_sound fuel : forall out n x, x ∈ close fuel a out n -> x ∈ out \/ rtc dep_edge n x.
Proof.
  induction fuel as [|fuel IH]; intros out n x; cbn [close]; [by left|].
  assert (forall l out, (forall d, d ∈ l -> dep_edge n d) -> x ∈ fold_left (visit_dep fuel) l out -> x ∈ out \/ rtc dep_edge n x) as Hf; [|by apply Hf].
  induction l as [|d l IHl]; intros out0 Hl; cbn [fold_left]; [by left|]. intros [H|H]%IHl; [|by right|intros; apply Hl; by right].
  unfold visit_dep in H. case_bool_decide; [by left|]. assert (dep_edge n d) as He by (apply Hl; by left).
  destruct (IH _ _ _ H) as [[Hx|Hx]%elem_of_union|Hx]; [by left| |right; by eapply rtc_l]. apply elem_of_singleton in Hx as ->. right. by apply rtc_once.
Qed.

Lemma dep_edge_names n d : dep_edge n d -> d ∈ dep_names a.
Proof.
  unfold dep_edge, deps_of, dep_names. destruct (a_deps a !! n) as [l|] eqn:E; cbn; [|by intros ?%elem_of_nil]. intros Hd.
  apply elem_of_list_to_set, list_elem_of_In, in_concat. exists l. split; [|by apply list_elem_of_In].
  apply in_map_iff. exists (n, l). split; [done|]. by apply list_elem_of_In, elem_of_map_to_list.
Qed.

Lemma close_complete fuel : forall out n, (size (dep_names a ∖ out) < fuel)%nat ->
  settled out (close fuel a out n) /\ forall d, dep_edge n d -> d ∈ close fuel a out n.
Proof.
  induction fuel as [|fuel IH]; intros out n Hfuel; [lia|]. cbn [close].
  assert (forall l out0, (forall d, d ∈ l -> dep_edge n d) -> (size (dep_names a ∖ out0) < S fuel)%nat ->
    settled out0 (fold_left (visit_dep fuel) l out0) /\ forall d, d ∈ l -> d ∈ fold_left (visit_dep fuel) l out0) as Hf; [|by apply Hf].
  induction l as [|d l IHl]; intros out0 Hl Hsz; cbn [fold_left]; [split; [apply settled_refl|by intros d ?%elem_of_nil]|].
  assert (settled out0 (visit_dep fuel out0 d) /\ d ∈ visit_dep fuel out0 d) as [Hs Hd].
  { unfold visit_dep. case_bool_decide as Hin; [by split; [apply settled_refl|]|].
    assert (d ∈ dep_names a) as Hnm by (apply (dep_edge_names n), Hl; by left).
    destruct (IH (out0 ∪ {[d]}) d) as [[H1 H2] H3].
    { apply Nat.lt_le_trans with (size (dep_names a ∖ out0)); [|lia]. apply subset_size. set_solver. }
    split; [|set_solver]. split; [set_solver|]. intros x e Hx Hn He. destruct (decide (x = d)) as [->|]; [by apply H3|]. apply (H2 x); set_solver. }
  destruct (IHl (visit_dep fuel out0 d)) as [Hs2 Hd2]; [intros; apply Hl; by right| |].
  { eapply Nat.le_lt_trans; [|exact Hsz]. apply subseteq_size. destruct Hs. set_solver. }
  split; [by eapply settled_trans|]. intros e [-> |He]%elem_of_cons; [by apply (proj1 Hs2)|by apply Hd2].
Qed.

(** The closure is exactly what the recorded dependencies reach: its fuel is
    enough, and cycles do no harm. *)
Lemma depClosure_is_reachability name x : x ∈ depClosure a name <-> rtc dep_edge name x.
Proof.
  unfold depClosure. split.
  - intros [->%elem_of_singleton|H]%close_sound; [apply rtc_refl|done].
  - destruct (close_complete (S (size (dep_names a))) {[name]} name) as [[H1 H2] H3].
    { apply Nat.lt_succ_r, subseteq_size. set_solver. }
    intros Hr. assert (forall y, y ∈ close (S (size (dep_names a))) a {[name]} name -> rtc dep_edge y x -> x ∈ close (S (size (dep_names a))) a {[name]} name) as Hc.
    { clear Hr. intros y Hy Hr. induction Hr as [|y z x He _ IH]; [done|]. apply IH. destruct (decide (y = name)) as [->|Hne]; [by apply H3|].
      apply (H2 y); [done|set_solver|done]. }
    apply (Hc name); [|done]. set_solver.
Qed.
End Closure.

(** ** Scopes and Hook answers of the concrete deployment

    The cloud's calculate Hook answers with one environment value and one new
    password; the database holds a password of its own, which the cloud's
    environment must not carry. *)

Module RunnerScopeDemo.
Export RunnerDemo.

Definition scope_env : gmap string string :=
  list_to_map [("BASE_DOMAIN", "example.org"); ("CLOUD_LOGIN", "saml"); ("CLOUD_ADMIN_PASSWORD", "hunter2");
               ("DB_HOST", "db"); ("DB_ROOT_PASSWORD", "tiger"); ("CLOUD_COPY", " tiger")].
Definition scope_owners : gmap string string :=
  list_to_map [("BASE_DOMAIN", globalScope); ("CLOUD_LOGIN", "cloud"); ("CLOUD_ADMIN_PASSWORD", "cloud"); ("DB_HOST", "db"); ("DB_ROOT_PASSWORD", "db")].
Definition scope_store : secretStore :=
  mkSecretStore {[ "DB_ROOT_PASSWORD" := "tiger" ]} {[ "DB_ROOT_PASSWORD" := mkSecretMetadata "db" "generated" "module-hook" ]} false.
Definition scope_app : App :=
  mkApp scope_env scope_owners ∅ "" ∅ ∅ "" {[ "cloud" := ["db"] ]} ["db"; "cloud"] (Some scope_store) ∅ None.

Notation scope_run wide := (scopedEnv demo wide "cloud" scope_app).
Definition scope_keys (wide : bool) : option (list string) :=
  match fst (scope_run wide) with Ok env => Some (sorted_keys env) | Err _ => None end.

(** The dependency's plain [DB_HOST] is in scope in the wide mode only, its
    password never, and neither is the copy of it under the cloud's own
    prefix. *)
Example demo_scopes :
  scope_keys false = Some ["BASE_DOMAIN"; "CLOUD_ADMIN_PASSWORD"; "CLOUD_LOGIN"] /\
  scope_keys true = Some ["BASE_DOMAIN"; "CLOUD_ADMIN_PASSWORD"; "CLOUD_LOGIN"; "DB_HOST"].
Proof. vm_compute. done. Qed.

Lemma demo_scope_ok : exists env a', scope_run false = (Ok env, a') /\ env !! "CLOUD_ADMIN_PASSWORD" = Some "hunter2".
Proof.
  assert (match fst (scope_run false) with Ok env => env !! "CLOUD_ADMIN_PASSWORD" | Err _ => None end = Some "hunter2") as H by (vm_compute; reflexivity).
  destruct (scope_run false) as [[env|e] a']; cbn in H; [by exists env, a'|done].
Qed.
Lemma demo_secret : secret_plaintext demo scope_app "hunter2".
Proof. right. exists "CLOUD_ADMIN_PASSWORD". split; [apply (bool_decide_unpack _); vm_compute; exact I|vm_compute; reflexivity]. Qed.

Lemma secrets_reach_only_their_audience_witness :
  a_envOwner scope_app !! "CLOUD_ADMIN_PASSWORD" = Some "cloud" \/ declared_by demo "CLOUD_ADMIN_PASSWORD" "cloud" = true \/
  matchEnvPattern (m_Consumes (at_reg demo_reg "cloud")) "CLOUD_ADMIN_PASSWORD" = true.
Proof.
  destruct demo_scope_ok as (env & a' & H & Hk).
  apply (proj1 (secrets_reach_only_their_audience demo false "cloud" scope_app env a' eq_refl H) "CLOUD_ADMIN_PASSWORD" "hunter2" "hunter2" Hk demo_secret).
  split; [discriminate|]. split; [discriminate|]. left. reflexivity.
Defined.

(** ** Patches *)

Definition cloud_patch : gmap string string := {[ "CLOUD_URL" := "https://cloud.example.org" ]}.
Notation patch_run p := (applyCalculatePatch cloud p scope_app).

Example demo_patches :
  fst (patch_run cloud_patch) = Ok tt /\
  fst (patch_run {[ "DB_HOST" := "evil" ]}) = Err (HookUndeclaredKeys "cloud" ["DB_HOST"]) /\
  fst (patch_run {[ "cloud url" := "x" ]}) = Err (HookInvalidKeys "cloud" ["cloud url"]).
Proof. vm_compute. done. Qed.

(** ** A whole answer *)

Definition cloud_answer : hookResponse := mkHookResponse cloud_patch {[ "cloud_db_password" := "lion" ]}.
Notation answer_run resp := (finish_calculate demo "cloud" resp scope_app).

Definition answer_outcome (resp : hookResponse) :=
  (fst (answer_run resp), match a_secrets (snd (answer_run resp)) with Some s => sorted_keys (s_values s) | None => [] end).
Example demo_answers :
  answer_outcome cloud_answer = (Ok tt, ["CLOUD_DB_PASSWORD"; "DB_ROOT_PASSWORD"]) /\
  answer_outcome (mkHookResponse cloud_patch {[ "DB_ROOT_PASSWORD" := "lion" ]}) = (Err (HookSecretUndeclared "cloud" ["DB_ROOT_PASSWORD"]), ["DB_ROOT_PASSWORD"]).
Proof. vm_compute. done. Qed.

Lemma calculate_step_takes_nothing_over_witness :
  exists s', a_secrets (snd (answer_run cloud_answer)) = Some s' /\ s_values s' !! "DB_ROOT_PASSWORD" = Some "tiger".
Proof.
  destruct (calculate_step_takes_nothing_over demo "cloud" cloud_answer scope_app _ _ scope_store eq_refl eq_refl (surjective_pairing (answer_run cloud_answer))) as (_ & s' & H & Hk & _).
  exists s'. split; [exact H|]. apply (Hk "DB_ROOT_PASSWORD" "tiger"); vm_compute; reflexivity.
Defined.

(** ** Identity clients *)

Definition iam_app (env : list (string * string)) : App :=
  mkApp (list_to_map env) (list_to_map (map (fun kv => (fst kv, "cloud")) env)) ∅ "idp" {[ "cloud" := "oidc" ]} ∅ "" ∅ [] None ∅ None.
Definition oidc_logout : list (string * string) :=
  [("ANAS_IAM_CLIENT__CLOUD__OIDC_LOGOUT_METHODS", "Backchannel"); ("ANAS_IAM_CLIENT__CLOUD__OIDC_LOGOUT_URI", "https://cloud.example.org/logout")].

Example demo_registrations :
  validateIAMClientRegistrations (iam_app oidc_logout) = Ok tt /\
  validateIAMClientRegistrations (iam_app [("ANAS_IAM_CLIENT__CLOUD__OIDC_LOGOUT_METHODS", "backchannel")]) = Err (IAMClientIncomplete "ANAS_IAM_CLIENT__CLOUD__OIDC_LOGOUT_URI") /\
  validateIAMClientRegistrations (iam_app (("ANAS_IAM_CLIENT__CLOUD__OIDC_CAEP_EVENTS", "session-revoked") :: oidc_logout)) =
    Err (IAMEventUnsupported "ANAS_IAM_CLIENT__CLOUD__OIDC_CAEP_EVENTS" "session-revoked") /\
  validateIAMEndpoints (iam_app oidc_logout) = Err (IAMEndpointsMissing ["ANAS_IAM_BINDING__CLOUD__OIDC_ISSUER_URL"; "ANAS_IAM_BINDING__CLOUD__OIDC_DISCOVERY_URL"]).
Proof. vm_compute. done. Qed.
End RunnerScopeDemo.
