(* ===== verification/ComputeNet.v ===== *)
(** * Compute leases: the network declaration

    Package [internal/computenet] (network.go, directions.go): the egress and
    ingress tiers of a lease, its slots and its port bindings, parsed from the
    resource specification, checked, ordered and encoded.  The specification is
    a decoded YAML or JSON document: a Go [any].  Reading the encoded form back
    ([Decode]) is not modelled. *)

From Stdlib Require Import Ascii.
From S2P Require Import Prelude GoText GoNet GoJson GoStrings ConfigSchema RunnerTypes.

(** ** Decoded documents *)

(** A Go [any].  A map lists its entries in the order the program visits them;
    [AFloat64] carries the integer a float equals, if it equals one that fits an
    [int]; [AOther] is every other dynamic type. *)
Inductive any :=
| ANil
| ABool (b : bool)
| AInt (n : Z)
| AInt64 (n : Z)
| AUint16 (n : Z)
| AFloat64 (whole : option Z)
| AString (s : string)
| AList (l : list any)
| AMap (m : list (string * any))
| AOther.

Definition spec : Type := list (string * any).
Definition any_get (k : string) (m : spec) : option any := snd <$> find_first (fun kv => fst kv ==? k) m.

Definition intValue (value : any) : option Z :=
  match value with AInt n | AInt64 n | AUint16 n => Some n | AFloat64 whole => whole | _ => None end.
Definition portValue (value : any) : option Z :=
  match intValue value with Some n => if (n <? 1) || (65535 <? n) then None else Some n | None => None end.

(** ** Declarations *)

Definition EgressInternet : string := "internet".
Definition EgressInternetLAN : string := "internet_lan".
Definition EgressInternetLANHost : string := "internet_lan_host".
Definition EgressModulesOnly : string := "modules_only".
Definition IngressNone : string := "none".
Definition IngressPublished : string := "published".
Definition ProtocolTCP : string := "tcp".
Definition ProtocolUDP : string := "udp".
Definition MaxSlots : Z := 32.
Definition MaxPortBindings : Z := 64.

Record Slot := mkSlot { sl_Name : string; sl_Instance : string }.

Record PortBinding := mkBinding {
  pb_Protocol : string;
  pb_HostPort : Z;
  pb_Auto : bool;
  pb_Slot : string;
  pb_GuestPort : Z
}.

Record Network := mkNetwork {
  n_Egress : string;
  n_ModuleAccess : bool;
  n_IntraLease : bool;
  n_Ingress : string;
  n_Slots : list Slot;
  n_HTTPPorts : list Z;
  n_Ports : list PortBinding;
  n_TraefikPort : Z
}.

Definition Default : Network := mkNetwork EgressInternet false false IngressNone [] [] [] 0.
Definition with_ports (ports : list PortBinding) (n : Network) : Network :=
  mkNetwork (n_Egress n) (n_ModuleAccess n) (n_IntraLease n) (n_Ingress n) (n_Slots n) (n_HTTPPorts n) ports (n_TraefikPort n).
Definition with_traefik (port : Z) (n : Network) : Network :=
  mkNetwork (n_Egress n) (n_ModuleAccess n) (n_IntraLease n) (n_Ingress n) (n_Slots n) (n_HTTPPorts n) (n_Ports n) port.
Definition with_host_port (port : Z) (b : PortBinding) : PortBinding :=
  mkBinding (pb_Protocol b) port (pb_Auto b) (pb_Slot b) (pb_GuestPort b).

(** [protocol + "/" + strconv.Itoa(port)]. *)
Definition portKey (protocol : string) (port : Z) : string := protocol +:+ "/" +:+ enc_int port.
Definition bindingKey (b : PortBinding) : string := portKey (pb_Protocol b) (pb_HostPort b).

Inductive netErr :=
| NetworkNotObject
| NetworkField
| NetworkFieldType
| SlotsShape
| SlotShape
| PublishNotObject
| PublishField
| HTTPShape
| HTTPPortList
| HTTPPort
| PortsNotList
| BindingShape
| BindingField
| BindingGuestPort
| BindingHostPort
| BadEgress
| BadIngress
| TooManySlots
| SlotsExceedQuota
| SlotName
| SlotInstance
| SlotTwice (instance : string)
| HTTPPortsDistinct
| TooManyBindings
| BindingProtocol
| BindingSlot (slot : string)
| BindingIncomplete
| BindingTwice (key : string)
| IngressNonePublishes
| FrozenUnresolved
| FrozenTraefik.

(** ** Parsing *)

Definition all_keys (allowed : list string) (m : spec) : bool := forallb (fun kv => contains allowed (fst kv)) m.

(** A field that keeps its default when it is absent. *)
Definition string_field (k : string) (m : spec) (initial : string) : result netErr string :=
  match any_get k m with None => Ok initial | Some (AString s) => Ok s | Some _ => Err NetworkFieldType end.
Definition bool_field (k : string) (m : spec) (initial : bool) : result netErr bool :=
  match any_get k m with None => Ok initial | Some (ABool b) => Ok b | Some _ => Err NetworkFieldType end.

Definition parse_slot (kv : string * any) : result netErr Slot :=
  match snd kv with
  | AMap ([_] as slot) =>
      match any_get "instance" slot with Some (AString instance) => Ok (mkSlot (fst kv) instance) | _ => Err SlotShape end
  | _ => Err SlotShape
  end.

Fixpoint map_result {E A B} (f : A -> result E B) (l : list A) : result E (list B) :=
  match l with
  | [] => Ok []
  | x :: l' => let? y := f x in let? ys := map_result f l' in Ok (y :: ys)
  end.

(** Insertion sort: stable. *)
Fixpoint insert_sorted {A} (le : A -> A -> bool) (x : A) (l : list A) : list A :=
  match l with [] => [x] | y :: l' => if le x y then x :: l else y :: insert_sorted le x l' end.
Definition sort_stable {A} (le : A -> A -> bool) (l : list A) : list A := fold_right (insert_sorted le) [] l.

Definition parse_network (raw : any) (n : Network) : result netErr Network :=
  match raw with
  | AMap object =>
      reject negb (all_keys ["egress"; "module_access"; "intra_lease"; "ingress"; "slots"] object) with NetworkField ;;
      let? egress := string_field "egress" object (n_Egress n) in
      let? ingress := string_field "ingress" object (n_Ingress n) in
      let? access := bool_field "module_access" object (n_ModuleAccess n) in
      let? intra := bool_field "intra_lease" object (n_IntraLease n) in
      let? slots :=
        match any_get "slots" object with
        | None => Ok (n_Slots n)
        | Some (AMap slots) => let? l := map_result parse_slot slots in Ok (sort_stable (fun a b => sleb (sl_Name a) (sl_Name b)) l)
        | Some _ => Err SlotsShape
        end in
      Ok (mkNetwork egress access intra ingress slots (n_HTTPPorts n) (n_Ports n) (n_TraefikPort n))
  | _ => Err NetworkNotObject
  end.

Definition parseBinding (raw : any) : result netErr PortBinding :=
  match raw with
  | AMap object =>
      reject negb (all_keys ["protocol"; "host_port"; "slot"; "guest_port"] object) with BindingField ;;
      let text k := match any_get k object with Some (AString s) => s | _ => "" end in
      match any_get "guest_port" object ≫= portValue with
      | None => Err BindingGuestPort
      | Some guest =>
          match any_get "host_port" object with
          | Some (AString value) =>
              reject value !=? "auto" with BindingHostPort ;; Ok (mkBinding (text "protocol") 0 true (text "slot") guest)
          | Some value =>
              match portValue value with
              | Some port => Ok (mkBinding (text "protocol") port false (text "slot") guest)
              | None => Err BindingHostPort
              end
          | None => Err BindingHostPort
          end
      end
  | _ => Err BindingShape
  end.

(** One entry of [publish], and whether it is the HTTP publication. *)
Definition parse_publication (st : bool * Network) (kv : string * any) : result netErr (bool * Network) :=
  let '(publishHTTP, n) := st in
  if fst kv ==? "http" then
    match snd kv with
    | AMap http =>
        match any_get "allowed_ports" http with
        | Some (AList ports) =>
            let? ports := map_result (fun raw => match portValue raw with Some p => Ok p | None => Err HTTPPort end) ports in
            Ok (true, mkNetwork (n_Egress n) (n_ModuleAccess n) (n_IntraLease n) (n_Ingress n) (n_Slots n)
                        (sort_stable Z.leb (n_HTTPPorts n ++ ports)) (n_Ports n) (n_TraefikPort n))
        | _ => Err HTTPPortList
        end
    | _ => Err HTTPShape
    end
  else if fst kv ==? "ports" then
    match snd kv with
    | AList items => let? bs := map_result parseBinding items in Ok (publishHTTP, with_ports (n_Ports n ++ bs) n)
    | _ => Err PortsNotList
    end
  else Err PublishField.

(** ** Checking *)

Definition slot_char (c : ascii) : bool := is_lower c || is_digit c || (c ==? "-"%char).
(** [slotName] and [instanceSuffix]. *)
Definition slotName (s : string) : bool :=
  match s with EmptyString => false | String c s' => is_lower c && sall slot_char s' && (slen s' <=? 30) end.
Definition instanceSuffix (s : string) : bool := negb (is_empty s) && sall slot_char s && (slen s <=? 32).

Definition check_slot (prefix : string) (seen : list string) (slot : Slot) : result netErr (list string) :=
  reject negb (slotName (sl_Name slot)) with SlotName ;;
  reject (prefix ==? "") || negb (HasPrefix (sl_Instance slot) prefix) || negb (instanceSuffix (TrimPrefix (sl_Instance slot) prefix)) with SlotInstance ;;
  reject contains seen (sl_Instance slot) with SlotTwice (sl_Instance slot) ;;
  Ok (sl_Instance slot :: seen).

Definition check_http_port (seen : list Z) (port : Z) : result netErr (list Z) :=
  reject (port =? 0) || bool_decide (port ∈ seen) with HTTPPortsDistinct ;; Ok (port :: seen).

Definition check_binding (slots : list string) (seen : list string) (b : PortBinding) : result netErr (list string) :=
  reject (pb_Protocol b !=? ProtocolTCP) && (pb_Protocol b !=? ProtocolUDP) with BindingProtocol ;;
  reject negb (contains slots (pb_Slot b)) with BindingSlot (pb_Slot b) ;;
  reject (pb_GuestPort b =? 0) || ((pb_HostPort b =? 0) && negb (pb_Auto b)) with BindingIncomplete ;;
  if pb_HostPort b =? 0 then Ok seen
  else reject contains seen (bindingKey b) with BindingTwice (bindingKey b) ;; Ok (bindingKey b :: seen).

Definition validate (n : Network) (prefix : string) (maxInstances : Z) : result netErr unit :=
  reject negb (contains [EgressInternet; EgressInternetLAN; EgressInternetLANHost; EgressModulesOnly] (n_Egress n)) with BadEgress ;;
  reject (n_Ingress n !=? IngressNone) && (n_Ingress n !=? IngressPublished) with BadIngress ;;
  reject MaxSlots <? Z.of_nat (length (n_Slots n)) with TooManySlots ;;
  reject (0 <? maxInstances) && (maxInstances <? Z.of_nat (length (n_Slots n))) with SlotsExceedQuota ;;
  do! result_fold (check_slot prefix) [] (n_Slots n) ;;
  do! result_fold check_http_port [] (n_HTTPPorts n) ;;
  reject MaxPortBindings <? Z.of_nat (length (n_Ports n)) with TooManyBindings ;;
  do! result_fold (check_binding (map sl_Name (n_Slots n))) [] (n_Ports n) ;;
  Ok tt.

(** The order of [sortPorts]: slot, protocol, guest port. *)
Definition port_le (a b : PortBinding) : bool :=
  if pb_Slot a !=? pb_Slot b then sleb (pb_Slot a) (pb_Slot b)
  else if pb_Protocol a !=? pb_Protocol b then sleb (pb_Protocol a) (pb_Protocol b)
  else pb_GuestPort a <=? pb_GuestPort b.
Definition sortPorts (n : Network) : Network := with_ports (sort_stable port_le (n_Ports n)) n.

Definition spec_prefix (s : spec) : string := match any_get "instance_prefix" s with Some (AString p) => p | _ => "" end.
Definition spec_max_instances (s : spec) : Z :=
  match any_get "quota" s with
  | Some (AMap quota) => default 0 (any_get "max_instances" quota ≫= intValue)
  | _ => 0
  end.

Definition ParseSpec (s : spec) : result netErr Network :=
  let? n := match any_get "network" s with None => Ok Default | Some raw => parse_network raw Default end in
  let? published :=
    match any_get "publish" s with
    | None => Ok (false, n)
    | Some (AMap object) => result_fold parse_publication (false, n) object
    | Some _ => Err PublishNotObject
    end in
  let '(publishHTTP, n) := published in
  do! validate n (spec_prefix s) (spec_max_instances s) ;;
  reject (n_Ingress n ==? IngressNone) && (publishHTTP || negb (is_nil (n_Ports n))) with IngressNonePublishes ;;
  Ok (sortPorts n).

(** ** Frozen networks *)

Definition NeedsTraefik (n : Network) : bool :=
  (n_Egress n ==? EgressModulesOnly) || (n_ModuleAccess n && ((n_Egress n ==? EgressInternet) || (n_Egress n ==? EgressInternetLAN)))
  || negb (is_nil (n_HTTPPorts n)).

Definition Network_Validate (n : Network) (prefix : string) (maxInstances : Z) : result netErr unit :=
  do! validate n prefix maxInstances ;;
  reject (n_Ingress n ==? IngressNone) && (negb (is_nil (n_HTTPPorts n)) || negb (is_nil (n_Ports n))) with IngressNonePublishes ;;
  reject existsb (fun b => pb_HostPort b =? 0) (n_Ports n) with FrozenUnresolved ;;
  reject negb (bool_decide (NeedsTraefik n = (n_TraefikPort n !=? 0))) with FrozenTraefik ;;
  Ok tt.

Definition SlotFor (n : Network) (instance : string) : option Slot := find_first (fun s => sl_Instance s ==? instance) (n_Slots n).
Definition SlotByName (n : Network) (name : string) : option Slot := find_first (fun s => sl_Name s ==? name) (n_Slots n).

(** [json.Marshal]. *)
Definition enc_flag (b : bool) : string := if b then "true" else "false".
Definition enc_list {A} (enc : A -> string) (l : list A) : string := "[" +:+ join "," (map enc l) +:+ "]".
Definition omit_list {A} (k : string) (enc : A -> string) (l : list A) : option (string * string) :=
  if is_nil l then None else fld k (enc_list enc l).
Definition enc_slot (s : Slot) : string := enc_struct [fld "name" (enc_string (sl_Name s)); fld "instance" (enc_string (sl_Instance s))].
Definition enc_port_binding (b : PortBinding) : string :=
  enc_struct [fld "protocol" (enc_string (pb_Protocol b)); fld "host_port" (enc_int (pb_HostPort b));
              (if pb_Auto b then fld "auto" "true" else None); fld "slot" (enc_string (pb_Slot b)); fld "guest_port" (enc_int (pb_GuestPort b))].
Definition Encode (n : Network) : string :=
  enc_struct [fld "egress" (enc_string (n_Egress n)); fld "module_access" (enc_flag (n_ModuleAccess n));
              fld "intra_lease" (enc_flag (n_IntraLease n)); fld "ingress" (enc_string (n_Ingress n));
              omit_list "slots" enc_slot (n_Slots n); omit_list "http_ports" enc_int (n_HTTPPorts n); omit_list "ports" enc_port_binding (n_Ports n);
              (if n_TraefikPort n =? 0 then None else fld "traefik_port" (enc_int (n_TraefikPort n)))].

(** ** The view of a lease *)

Record Direction := mkDirection { di_Flow : string; di_Peer : string; di_Allowed : bool }.

Definition Directions (n : Network) : list Direction :=
  let internet := n_Egress n !=? EgressModulesOnly in
  let lan := (n_Egress n ==? EgressInternetLAN) || (n_Egress n ==? EgressInternetLANHost) in
  let host := n_Egress n ==? EgressInternetLANHost in
  let modules := (n_Egress n ==? EgressModulesOnly) || (n_Egress n ==? EgressInternetLANHost) || n_ModuleAccess n in
  let published := n_Ingress n ==? IngressPublished in
  [mkDirection "egress" "gateway_dns_dhcp" true; mkDirection "egress" "internet" internet; mkDirection "egress" "lan" lan;
   mkDirection "egress" "host" host; mkDirection "egress" "docker_published" host; mkDirection "egress" "docker_unpublished" false;
   mkDirection "egress" "modules" modules; mkDirection "egress" "other_leases" false; mkDirection "egress" "link_local" false;
   mkDirection "egress" "same_lease" (n_IntraLease n);
   mkDirection "ingress" "traefik" (published && negb (is_nil (n_HTTPPorts n)));
   mkDirection "ingress" "port_binding_clients" (published && negb (is_nil (n_Ports n)));
   mkDirection "ingress" "lan" false; mkDirection "ingress" "host" false; mkDirection "ingress" "docker_containers" false;
   mkDirection "ingress" "other_leases" false; mkDirection "ingress" "same_lease" (n_IntraLease n)].
