(* ===== verification/RuntimeIssues.v ===== *)
(** * Runtime issues

    Package [internal/runtimeissues]: the store of conditions an operator has to
    act on.  The store is the list of issues in its file; whether the lock, the
    read and the replacement of the file worked is an argument of each update,
    and a failed update leaves the file as it was.  Decoding the file and the log
    lines are not modelled. *)

From Stdlib Require Import Ascii.
From S2P Require Import Prelude GoText GoNet GoJson GoStrings ConfigSchema RunnerTypes.

Definition LevelError : string := "error".
Definition LevelWarning : string := "warning".
Definition SourceApply : string := "apply".
Definition Retention : Z := 30 * 24 * hour_ns.
Definition maxMessage : Z := 512.
Definition maxIssues : Z := 1024.

Record RuntimeIssue := mkIssue {
  is_Key : string;
  is_Source : string;
  is_Level : string;
  is_Message : string;
  is_FirstSeen : Z;
  is_LastSeen : Z;
  is_Count : Z;
  is_ResolvedAt : option Z
}.
Definition issue_open (i : RuntimeIssue) : bool := is_None_b (is_ResolvedAt i).

Record Finding := mkFinding { fi_Key : string; fi_Level : string; fi_Message : string }.

Inductive issueErr := IssueStoreIO | TooManyIssues.

(** ** Messages *)

Definition ellipsis : string := String "226"%char (String "128"%char (String "166"%char EmptyString)).

Definition byte_at (n : nat) (s : string) : option ascii := String.get n s.
Definition utf8Start (b : option ascii) : bool := match b with Some c => negb (cont c) | None => true end.

(** The largest boundary of a rune at or below [cut]. *)
Fixpoint rune_boundary (cut : nat) (s : string) : nat :=
  match cut with O => O | S k => if utf8Start (byte_at cut s) then cut else rune_boundary k s end.

Definition withheld : string := "[message withheld: it carried a sensitive value]".
Definition issue_markers : list string := ["-----BEGIN"; "PRIVATE KEY"; "PASSWORD="; "SECRET="; "TOKEN="].

Definition Sanitize `{CaseTables} (message : string) : string :=
  if existsb (Contains (ToUpper message)) issue_markers then withheld
  else
    let message := TrimSpace (map_runes (fun r => if IsControl r then 32 else r) message) in
    if maxMessage <? slen message then String.substring 0 (rune_boundary (Z.to_nat maxMessage) message) message +:+ ellipsis else message.

(** ** Updates *)

Section Issues.
Context `{CT : CaseTables}.

Definition renew (source level message : string) (now : Z) (i : RuntimeIssue) : RuntimeIssue :=
  if issue_open i
  then mkIssue (is_Key i) source level message (is_FirstSeen i) now (is_Count i + 1) None
  else mkIssue (is_Key i) source level message now now 1 None.

Fixpoint upsert_from (source key level message : string) (now : Z) (issues : list RuntimeIssue) : list RuntimeIssue :=
  match issues with
  | [] => [mkIssue key source level message now now 1 None]
  | i :: issues' =>
      if is_Key i ==? key then renew source level message now i :: issues'
      else i :: upsert_from source key level message now issues'
  end.

Definition upsert (source : string) (now : Z) (issues : list RuntimeIssue) (f : Finding) : list RuntimeIssue :=
  upsert_from source (fi_Key f) (if fi_Level f ==? LevelWarning then LevelWarning else LevelError) (Sanitize (fi_Message f)) now issues.

Definition resolve_issue (source prefix : string) (seen : list string) (now : Z) (i : RuntimeIssue) : RuntimeIssue :=
  if issue_open i && (is_Source i ==? source) && HasPrefix (is_Key i) prefix && negb (contains seen (is_Key i))
  then mkIssue (is_Key i) (is_Source i) (is_Level i) (is_Message i) (is_FirstSeen i) (is_LastSeen i) (is_Count i) (Some now)
  else i.

Definition lapsed (now : Z) (i : RuntimeIssue) : bool :=
  match is_ResolvedAt i with Some t => Retention <? now - t | None => false end.

Definition update (io : bool) (change : list RuntimeIssue -> list RuntimeIssue) (now : Z) (issues : list RuntimeIssue) : result issueErr (list RuntimeIssue) :=
  let kept := List.filter (fun i => negb (lapsed now i)) (change issues) in
  if negb io then Err IssueStoreIO
  else reject maxIssues <? Z.of_nat (length kept) with TooManyIssues ;; Ok kept.

Definition Record_issue (io : bool) (source : string) (f : Finding) (now : Z) : list RuntimeIssue -> result issueErr (list RuntimeIssue) :=
  update io (fun issues => upsert source now issues f) now.

Definition Reconcile (io : bool) (source prefix : string) (found : list Finding) (now : Z) : list RuntimeIssue -> result issueErr (list RuntimeIssue) :=
  update io (fun issues =>
    map (resolve_issue source prefix (map fi_Key found) now) (fold_left (upsert source now) found issues)) now.

(** ** One record per key *)

Definition distinct_keys (issues : list RuntimeIssue) : Prop := NoDup (map is_Key issues).

Lemma renew_key source level message now i : is_Key (renew source level message now i) = is_Key i.
Proof. unfold renew. by case_match. Qed.
Lemma upsert_keys source key level message now issues :
  map is_Key (upsert_from source key level message now issues) =
  (if decide (key ∈ map is_Key issues) then map is_Key issues else map is_Key issues ++ [key]).
Proof.
  induction issues as [|i issues IH]; cbn; [by rewrite decide_False by apply not_elem_of_nil|].
  case_bool_decide as E; cbn.
  - rewrite renew_key, decide_True; [done|]. subst key. left.
  - rewrite IH. destruct (decide (key ∈ map is_Key issues)) as [Hin|Hin].
    + rewrite decide_True; [done|]. by right.
    + rewrite decide_False; [done|]. rewrite elem_of_cons. intros [->|]; done.
Qed.
Lemma upsert_distinct source now issues f : distinct_keys issues -> distinct_keys (upsert source now issues f).
Proof.
  unfold distinct_keys, upsert. rewrite upsert_keys. intros Hn. destruct (decide _); [done|].
  apply NoDup_app. split_and!; [done| |apply NoDup_singleton]. by intros k Hk ->%list_elem_of_singleton.
Qed.
Lemma resolve_keys source prefix seen now issues : map is_Key (map (resolve_issue source prefix seen now) issues) = map is_Key issues.
Proof. rewrite map_map. apply map_ext. intros i. unfold resolve_issue. by case_match. Qed.

Lemma update_distinct io change now issues issues' :
  (distinct_keys issues -> distinct_keys (change issues)) -> distinct_keys issues -> update io change now issues = Ok issues' ->
  distinct_keys issues' /\ Z.of_nat (length issues') <= maxIssues.
Proof.
  intros Hc Hn H. unfold update in H. destruct io; cbn [negb] in H; [|done]. case_match eqn:E; [done|]. injection H as <-. split; [|lia].
  specialize (Hc Hn). unfold distinct_keys in *. clear E Hn. induction (change issues) as [|i l IH]; cbn; [done|].
  cbn in Hc. apply NoDup_cons in Hc as [Hi Hl]. case_match; [|by apply IH]. cbn. apply NoDup_cons. split; [|by apply IH].
  intros Hin. apply Hi. apply list_elem_of_In, in_map_iff in Hin as (j & Hj & Hin). apply filter_In in Hin as [Hin _]. rewrite <-Hj.
  apply list_elem_of_In, in_map_iff. by exists j.
Qed.

(** An update keeps one record per key and the store within its bound. *)
Lemma issue_store_invariant io source prefix found f now issues issues' :
  distinct_keys issues ->
  Record_issue io source f now issues = Ok issues' \/ Reconcile io source prefix found now issues = Ok issues' ->
  distinct_keys issues' /\ Z.of_nat (length issues') <= maxIssues.
Proof.
  intros Hn [H|H]; (eapply update_distinct; [|exact Hn|exact H]); intros _.
  - by apply upsert_distinct.
  - unfold distinct_keys. rewrite resolve_keys. clear H. revert issues Hn.
    induction found as [|g found IH]; intros issues Hn; cbn; [done|]. by apply IH, upsert_distinct.
Qed.

(** A check that found nothing leaves no open issue of its own. *)
Lemma reconcile_closes io source prefix now issues issues' i :
  Reconcile io source prefix [] now issues = Ok issues' -> i ∈ issues' -> is_Source i = source -> HasPrefix (is_Key i) prefix = true -> issue_open i = false.
Proof.
  unfold Reconcile, update. cbn. destruct io; cbn [negb]; [|done]. case_match; [done|]. intros [= <-] Hi Hs Hp.
  apply list_elem_of_In, filter_In in Hi as [Hi _]. apply in_map_iff in Hi as (j & <- & _). unfold resolve_issue in *.
  destruct (issue_open j && (is_Source j ==? source) && HasPrefix (is_Key j) prefix && negb (contains [] (is_Key j))) eqn:E; [done|].
  rewrite Hp in E. case_bool_decide; [|done]. by rewrite !andb_true_r in E.
Qed.

(** A recorded finding is open in the store. *)
Lemma record_opens io source f now issues issues' :
  Record_issue io source f now issues = Ok issues' -> exists i, i ∈ issues' /\ is_Key i = fi_Key f /\ is_Source i = source /\ issue_open i = true.
Proof.
  unfold Record_issue, update. destruct io; cbn [negb]; [|done]. case_match; [done|]. intros [= <-].
  assert (exists i, i ∈ upsert source now issues f /\ is_Key i = fi_Key f /\ is_Source i = source /\ is_ResolvedAt i = None) as (i & Hi & Hk & Hs & Ho).
  { unfold upsert. generalize (if fi_Level f ==? LevelWarning then LevelWarning else LevelError) as level. intros level.
    clear H. induction issues as [|j l IH]; cbn; [eexists; split; [left|done]|]. case_bool_decide as E.
    - eexists. split; [left|]. unfold renew. by case_match.
    - destruct IH as (i & Hi & Hrest). exists i. split; [by right|done]. }
  exists i. split_and!; try done; [|unfold issue_open; by rewrite Ho].
  apply list_elem_of_In, filter_In. split; [by apply list_elem_of_In|]. unfold lapsed. by rewrite Ho.
Qed.
End Issues.
