(* ===== verification/ComputePorts.v ===== *)
(** * Compute leases: freezing networks and assigning host ports

    runner/compute_network.go: [prepareComputeNetwork] freezes the network of
    every compute lease of a deployment, explicit host ports first and then the
    automatic ones, and [validateFrozenComputeNetwork] checks a frozen network
    when a deployment is replayed.  What the host answers (is a port free, which
    ports Docker publishes, random numbers, whether the issue store could be
    written) is the class [HostPorts]: the answer to the [i]th question of a run.
    The networks of the active deployment are the argument [previous].  Not
    modelled: reading the active deployment and Docker's output, the host's
    addresses, the provider's report. *)

From Stdlib Require Import Ascii.
From S2P Require Import Prelude GoText GoNet GoJson GoStrings ConfigSchema RunnerTypes ComputeNet RuntimeIssues.

Record ResourceRequest := mkRequest {
  rr_Consumer : string;
  rr_ID : string;
  rr_Contract : string;
  rr_Provider : string;
  rr_Spec : spec;
  rr_ComputeNetwork : option Network
}.
Definition with_network (n : Network) (r : ResourceRequest) : ResourceRequest :=
  mkRequest (rr_Consumer r) (rr_ID r) (rr_Contract r) (rr_Provider r) (rr_Spec r) (Some n).
Definition identity (r : ResourceRequest) : string := rr_Consumer r +:+ "." +:+ rr_ID r.
Definition is_compute (r : ResourceRequest) : bool := rr_Contract r ==? "compute".
Definition ports_of (r : ResourceRequest) : list PortBinding := match rr_ComputeNetwork r with Some n => n_Ports n | None => [] end.

Inductive prepErr :=
| BadNetwork (lease : string) (e : netErr)
| NoTraefik (lease : string)
| RangeBlocked (lease reason : string)
| RangeInvalid (provider : string)
| OutsideRange (lease key : string)
| PortConflict (lease key other : string)
| PortTaken (lease key reason : string)
| NoFreePort (first last : Z)
| RandomFailed
| NetworkOnOther
| FrozenDiffers.

(** ** The host *)

Inductive listenOutcome := Listened (closeErr : option string) | AddrInUse | ListenFailed (text : string).

Class HostPorts := {
  net_Listen : nat -> string -> Z -> listenOutcome;
  dockerPublishedPorts : nat -> result string (gset string);
  rand_Int : nat -> Z -> option Z;
  issue_io : nat -> bool;
  now_at : nat -> Z
}.

Definition probeHostPort `{HostPorts} (i : nat) (protocol : string) (port : Z) : option string :=
  match net_Listen i protocol port with
  | Listened closeErr => closeErr
  | AddrInUse => Some "port is already in use on this host"
  | ListenFailed text => Some ("port cannot be probed on this host: " +:+ text)
  end.

Definition hostPortFree_at `{HostPorts} (i : nat) (protocol : string) (port : Z) : option string :=
  match probeHostPort i protocol port with
  | Some e => Some e
  | None =>
      match dockerPublishedPorts i with
      | Err e => Some ("read Docker published ports: " +:+ e)
      | Ok published => if bool_decide (portKey protocol port ∈ published) then Some "port is already published by a Docker container" else None
      end
  end.

(** ** Runs *)

Record pstate := mkPState {
  p_calls : nat;
  p_taken : gmap string string;            (* port key to the lease that holds it *)
  p_issues : option (list RuntimeIssue)           (* none without a workspace *)
}.

Definition P (A : Type) : Type := pstate -> result prepErr A * pstate.
Definition retP {A} (x : A) : P A := fun s => (Ok x, s).
Definition raiseP {A} (e : prepErr) : P A := fun s => (Err e, s).
Definition bindP {A B} (c : P A) (k : A -> P B) : P B :=
  fun s => match c s with (Ok x, s') => k x s' | (Err e, s') => (Err e, s') end.
Definition liftP {A} (r : result prepErr A) : P A := fun s => (r, s).
Definition ask : P nat := fun s => (Ok (p_calls s), mkPState (S (p_calls s)) (p_taken s) (p_issues s)).
Definition taken : P (gmap string string) := fun s => (Ok (p_taken s), s).
Definition take (key lease : string) : P unit := fun s => (Ok tt, mkPState (p_calls s) (<[key := lease]> (p_taken s)) (p_issues s)).

Notation "'let+' x ':=' c 'in' k" := (bindP c (fun x => k))
  (at level 10, x name, c at level 99, k at level 200) : go_scope.
Notation "'do+' c ';;' k" := (bindP c (fun _ => k))
  (at level 10, c at level 99, k at level 200) : go_scope.

Fixpoint forP {A} (f : A -> P unit) (l : list A) : P unit :=
  match l with [] => retP tt | x :: l' => do+ f x ;; forP f l' end.
Fixpoint mapP {A B} (f : A -> P B) (l : list A) : P (list B) :=
  match l with [] => retP [] | x :: l' => let+ y := f x in let+ ys := mapP f l' in retP (y :: ys) end.

Definition PortBindingIssuePrefix : string := "incus.port-binding/".
Definition portBindingIssueKey (lease protocol : string) (port : Z) : string :=
  PortBindingIssuePrefix +:+ lease +:+ "/" +:+ protocol +:+ "/" +:+ enc_int port.

(** ** A lease's previous network *)

Definition frozen_holds (old : option Network) (b : PortBinding) : bool :=
  match old with
  | None => false
  | Some n => existsb (fun o => (pb_Protocol o ==? pb_Protocol b) && (pb_HostPort o =? pb_HostPort b)) (n_Ports n)
  end.

Definition same_target (b o : PortBinding) : bool :=
  pb_Auto o && (pb_Protocol o ==? pb_Protocol b) && (pb_Slot o ==? pb_Slot b) && (pb_GuestPort o =? pb_GuestPort b) && negb (pb_HostPort o =? 0).
Definition autoPort (old : option Network) (b : PortBinding) : Z :=
  match old with
  | None => 0
  | Some n => match find_first (same_target b) (n_Ports n) with Some o => pb_HostPort o | None => 0 end
  end.

(** ** The approved range *)

(** [portRangePattern] and the two numbers. *)
Definition range_number (s : string) : option Z :=
  if negb (is_empty s) && (slen s <=? 5) && sall is_digit s then Atoi s else None.
Definition parse_range (s : string) : option (Z * Z) :=
  match CutAt "-" s with
  | Some (x, y) => match range_number x, range_number y with Some a, Some b => Some (a, b) | _, _ => None end
  | None => None
  end.

Definition blocker_reason (blocker : string) : string :=
  if blocker ==? "hostd_missing" then "anas-hostd is not installed as a system service on this host (installed with --no-service, a non-systemd distribution or a development build)"
  else if blocker ==? "host_not_configured" then "the host has not run incus.configure, which approves the port range"
  else if blocker ==? "remote_daemon" then "the Incus daemon is not on this host, so its host has no hostd to apply port bindings"
  else "the compute provider did not publish an approved host port range".

Section Prepare.
Context `{CT : CaseTables} (env : gmap string string) (order : list string).

Definition portBindingRange (r : ResourceRequest) : result prepErr (Z * Z) :=
  let prefix := defaultEnvPrefix (rr_Provider r) in
  let value := TrimSpace (str_at env (prefix +:+ "_PORT_BINDING_RANGE")) in
  if value ==? "" then Err (RangeBlocked (identity r) (blocker_reason (TrimSpace (str_at env (prefix +:+ "_PORT_BINDING_BLOCKER")))))
  else
    match parse_range value with
    | None => Err (RangeInvalid (rr_Provider r))
    | Some (first, last) =>
        reject (first <? 1) || (65535 <? last) || (last <? first) with RangeInvalid (rr_Provider r) ;;
        match find_first (fun b => negb (pb_Auto b) && ((pb_HostPort b <? first) || (last <? pb_HostPort b))) (ports_of r) with
        | Some b => Err (OutsideRange (identity r) (bindingKey b))
        | None => Ok (first, last)
        end
    end.

(** ** Declarations *)

Definition traefik_text : string := TrimSpace (str_at env "TRAEFIK_BASE_PORT").

Definition traefik_port (lease : string) (n : Network) : result prepErr Network :=
  if NeedsTraefik n then
    match Atoi traefik_text with
    | Some port =>
        reject negb (contains order "traefik") || (port <? 1) || (65535 <? port) with NoTraefik lease ;; Ok (with_traefik port n)
    | None => Err (NoTraefik lease)
    end
  else Ok n.

Definition declare_network (r : ResourceRequest) : result prepErr ResourceRequest :=
  if negb (is_compute r) then Ok r
  else
    let? n := map_err (BadNetwork (identity r)) (ParseSpec (rr_Spec r)) in
    let? n := traefik_port (identity r) n in
    let r := with_network n r in
    do! (if is_nil (n_Ports n) then Ok tt else do! portBindingRange r ;; Ok tt) ;;
    Ok r.

(** The ports the deployment itself occupies. *)
Definition initial_taken : gmap string string :=
  if (traefik_text !=? "") && contains order "traefik" then {[ ProtocolTCP +:+ "/" +:+ traefik_text := "traefik" ]} else ∅.

(** [quotaMaxInstances], which knows fewer number types than [intValue]. *)
Definition intFromAny (value : any) : option Z := match value with AInt n | AInt64 n => Some n | AFloat64 whole => whole | _ => None end.
Definition quotaMaxInstances (s : spec) : Z :=
  match any_get "quota" s with Some (AMap quota) => default 0 (any_get "max_instances" quota ≫= intFromAny) | _ => 0 end.

(** ** Ports *)

Context `{HP : HostPorts} (previous : gmap string Network).

Definition hostPortFree (protocol : string) (port : Z) : P (option string) :=
  let+ i := ask in retP (hostPortFree_at i protocol port).

Definition on_issues (change : bool -> Z -> list RuntimeIssue -> result issueErr (list RuntimeIssue)) : P unit :=
  let+ i := ask in
  fun s => (Ok tt, match p_issues s with
    | Some l => match change (issue_io i) (now_at i) l with Ok l' => mkPState (p_calls s) (p_taken s) (Some l') | Err _ => s end
    | None => s
    end).
Definition recordRuntimeIssue (f : Finding) : P unit := on_issues (fun io now => Record_issue io SourceApply f now).
Definition resolveRuntimeIssues (prefix : string) : P unit := on_issues (fun io now => Reconcile io SourceApply prefix [] now).

Definition claim_explicit (lease : string) (old : option Network) (b : PortBinding) : P unit :=
  if pb_Auto b then retP tt
  else
    let key := bindingKey b in
    let+ t := taken in
    match t !! key with
    | Some other => raiseP (PortConflict lease key other)
    | None =>
        do+ take key lease ;;
        if frozen_holds old b then retP tt
        else
          let+ e := hostPortFree (pb_Protocol b) (pb_HostPort b) in
          match e with
          | None => retP tt
          | Some reason =>
              do+ recordRuntimeIssue (mkFinding (portBindingIssueKey lease (pb_Protocol b) (pb_HostPort b)) ""
                    ("explicit host port " +:+ key +:+ " of " +:+ lease +:+ " is taken: " +:+ reason)) ;;
              raiseP (PortTaken lease key reason)
          end
    end.

Definition claim_all (r : ResourceRequest) : P unit :=
  if is_compute r then forP (claim_explicit (identity r) (previous !! identity r)) (ports_of r) else retP tt.

Fixpoint allocateHostPort (attempts : nat) (protocol : string) (first last : Z) : P Z :=
  match attempts with
  | O => raiseP (NoFreePort first last)
  | S attempts =>
      let+ i := ask in
      match rand_Int i (last - first + 1) with
      | None => raiseP RandomFailed
      | Some n =>
          let port := (first + n) mod 65536 in
          let+ t := taken in
          if negb (is_None_b (t !! portKey protocol port)) then allocateHostPort attempts protocol first last
          else
            let+ e := hostPortFree protocol port in
            match e with None => retP port | Some _ => allocateHostPort attempts protocol first last end
      end
  end.

Definition assign_auto (r : ResourceRequest) (old : option Network) (b : PortBinding) : P PortBinding :=
  if negb (pb_Auto b) then retP b
  else
    let port := autoPort old b in
    let+ t := taken in
    if negb (port =? 0) && is_None_b (t !! portKey (pb_Protocol b) port) then
      do+ take (portKey (pb_Protocol b) port) (identity r) ;; retP (with_host_port port b)
    else
      let+ range := liftP (portBindingRange r) in
      let+ port := allocateHostPort 64 (pb_Protocol b) (fst range) (snd range) in
      do+ take (portKey (pb_Protocol b) port) (identity r) ;; retP (with_host_port port b).

Definition freeze_network (r : ResourceRequest) : P ResourceRequest :=
  match (if is_compute r then rr_ComputeNetwork r else None) with
  | None => retP r
  | Some n =>
      let+ ports := mapP (assign_auto r (previous !! identity r)) (n_Ports n) in
      let n := with_ports ports n in
      do+ liftP (map_err (BadNetwork (identity r)) (Network_Validate n (spec_prefix (rr_Spec r)) (quotaMaxInstances (rr_Spec r)))) ;;
      retP (with_network n r)
  end.

Definition prepareComputeNetwork (requests : list ResourceRequest) : P (list ResourceRequest) :=
  do+ (fun s => (Ok tt, mkPState (p_calls s) initial_taken (p_issues s))) ;;
  let+ requests := liftP (map_result declare_network requests) in
  do+ forP claim_all requests ;;
  let+ requests := mapP freeze_network requests in
  do+ resolveRuntimeIssues PortBindingIssuePrefix ;;
  retP requests.
End Prepare.

(** ** Replaying a frozen network *)

Fixpoint adopt_ports (declared frozen : list PortBinding) : list PortBinding :=
  match declared, frozen with
  | d :: declared', f :: frozen' => (if pb_Auto d then with_host_port (pb_HostPort f) d else d) :: adopt_ports declared' frozen'
  | _, _ => declared
  end.

Definition validateFrozenComputeNetwork (r : ResourceRequest) : result prepErr unit :=
  if negb (is_compute r) then (if is_None_b (rr_ComputeNetwork r) then Ok tt else Err NetworkOnOther)
  else
    match rr_ComputeNetwork r with
    | None => Ok tt
    | Some frozen =>
        let? declared := map_err (BadNetwork (identity r)) (ParseSpec (rr_Spec r)) in
        do! map_err (BadNetwork (identity r)) (Network_Validate frozen (spec_prefix (rr_Spec r)) (quotaMaxInstances (rr_Spec r))) ;;
        let declared := with_traefik (n_TraefikPort frozen) declared in
        let declared := with_ports (adopt_ports (n_Ports declared) (n_Ports frozen)) declared in
        reject Encode declared !=? Encode frozen with FrozenDiffers ;; Ok tt
    end.

Definition frozenComputeNetwork (r : ResourceRequest) : Network := default Default (rr_ComputeNetwork r).
