(* ===== verification/ComputePortsFacts.v ===== *)
(** * Compute leases: what the assignment of host ports guarantees

    Preparation gives every binding a port of its own within bounds and freezes
    networks a replay accepts; preparing again keeps every port; with a concrete
    deployment. *)

From S2P Require Import Prelude GoText GoNet GoJson GoStrings ConfigSchema RunnerTypes ComputeNet RuntimeIssues ComputePorts RunnerSortFacts ConfigSchemaFacts.

(** ** Runs *)

Lemma bindP_ok {A B} (c : P A) (k : A -> P B) s y s' : bindP c k s = (Ok y, s') -> exists x s1, c s = (Ok x, s1) /\ k x s1 = (Ok y, s').
Proof. unfold bindP. destruct (c s) as [[x|e] s1]; [|done]. intros H. by exists x, s1. Qed.
Lemma bindP_run {A B} (c : P A) (k : A -> P B) s x s1 : c s = (Ok x, s1) -> bindP c k s = k x s1.
Proof. unfold bindP. by intros ->. Qed.

Ltac p_step H := apply bindP_ok in H as (? & ? & ? & H).

Lemma map_result_ok {E A B} (f : A -> result E B) l l' : map_result f l = Ok l' -> Forall2 (fun x y => f x = Ok y) l l'.
Proof.
  revert l'. induction l as [|x l IH]; intros l' H; cbn in H; [by injection H as <-; constructor|].
  destruct (f x) as [y|e] eqn:Ef; [|done]. cbn in H. destruct (map_result f l) as [ys|e]; [|done]. injection H as <-. constructor; auto.
Qed.

Lemma Forall2_elem_r {A B} (R : A -> B -> Prop) l l' y : Forall2 R l l' -> y ∈ l' -> exists x, x ∈ l /\ R x y.
Proof.
  induction 1 as [|x y' l l' Hxy _ IH]; [by intros ?%elem_of_nil|]. intros [->|Hy]%elem_of_cons; [exists x; by split; [left|]|].
  destruct (IH Hy) as (x' & Hx & HR). exists x'. by split; [right|].
Qed.

Lemma Forall2_elem_l {A B} (R : A -> B -> Prop) l l' x : Forall2 R l l' -> x ∈ l -> exists y, y ∈ l' /\ R x y.
Proof. intros H Hx. apply Forall2_flip in H. exact (Forall2_elem_r _ _ _ _ H Hx). Qed.
Lemma Forall2_of_r {A B} (Q : B -> Prop) (R : A -> B -> Prop) l l' : Forall2 R l l' -> Forall Q l' -> Forall2 (fun _ y => Q y) l l'.
Proof. induction 1; intros HQ; constructor; apply Forall_cons in HQ as [? ?]; auto. Qed.

(** ** Port keys *)

Lemma dec_aux_nonempty fuel n acc : acc <> "" -> dec_aux fuel n acc <> "".
Proof. revert n acc. induction fuel as [|f IH]; intros n acc Ha; cbn [dec_aux]; [done|]. case_match; [done|]. by apply IH. Qed.
Lemma dec_aux_digit fuel n acc : dec_aux (S fuel) n acc <> "".
Proof. cbn [dec_aux]. case_match; [done|]. by apply dec_aux_nonempty. Qed.
Lemma enc_int_nonempty n : enc_int n <> "".
Proof. unfold enc_int. destruct (n <? 0); [done|]. apply (dec_aux_digit 24). Qed.
Lemma NoDup_map_inj {A B} (f : A -> B) l x y : NoDup (map f l) -> x ∈ l -> y ∈ l -> f x = f y -> x = y.
Proof.
  induction l as [|z l IH]; [by intros _ ?%elem_of_nil|]. cbn. intros [Hz Hn]%NoDup_cons Hx Hy E.
  assert (forall w, w ∈ l -> f w = f z -> False) as Hw by (intros w Hw Ew; apply Hz; rewrite <-Ew; by apply list_elem_of_In, in_map, list_elem_of_In).
  apply elem_of_cons in Hx as [->|Hx], Hy as [->|Hy]; [done|exfalso; by eapply Hw|exfalso; by eapply Hw|by apply IH].
Qed.

Definition auto_keys (bs : list PortBinding) : list string := map bindingKey (List.filter pb_Auto bs).
Definition explicit_keys (bs : list PortBinding) : list string := map bindingKey (List.filter (fun b => negb (pb_Auto b)) bs).
Definition all_ports (rs : list ResourceRequest) : list PortBinding := concat (map (fun r => if is_compute r then ports_of r else []) rs).

Lemma keys_split bs : map bindingKey bs ≡ₚ explicit_keys bs ++ auto_keys bs.
Proof.
  unfold explicit_keys, auto_keys. induction bs as [|b bs IH]; [done|]. cbn. destruct (pb_Auto b); cbn; [|by rewrite IH].
  rewrite IH. by rewrite Permutation_middle.
Qed.
Lemma auto_keys_app l1 l2 : auto_keys (l1 ++ l2) = auto_keys l1 ++ auto_keys l2.
Proof. unfold auto_keys. by rewrite List.filter_app, map_app. Qed.
Lemma explicit_keys_app l1 l2 : explicit_keys (l1 ++ l2) = explicit_keys l1 ++ explicit_keys l2.
Proof. unfold explicit_keys. by rewrite List.filter_app, map_app. Qed.

(** A step takes new keys only, and exactly the given ones. *)
Definition takes (keys : list string) (s s' : pstate) : Prop :=
  NoDup keys /\ (forall k, k ∈ keys -> p_taken s !! k = None) /\ (forall k, is_Some (p_taken s' !! k) <-> is_Some (p_taken s !! k) \/ k ∈ keys).

Lemma takes_nil s s' : p_taken s' = p_taken s -> takes [] s s'.
Proof. intros E. split_and!; [constructor|by intros k ?%elem_of_nil|]. intros k. rewrite E. split; [by left|]. by intros [?|?%elem_of_nil]. Qed.
Lemma takes_one k lease s s' : p_taken s !! k = None -> p_taken s' = <[k := lease]> (p_taken s) -> takes [k] s s'.
Proof.
  intros Hk E. split_and!; [apply NoDup_singleton|by intros k' ->%list_elem_of_singleton|]. intros k'. rewrite E, lookup_insert_is_Some', list_elem_of_singleton.
  split; intros [?|?]; subst; tauto.
Qed.
Lemma takes_app l1 l2 s s1 s' : takes l1 s s1 -> takes l2 s1 s' -> takes (l1 ++ l2) s s'.
Proof.
  intros (N1 & F1 & T1) (N2 & F2 & T2). split_and!.
  - apply NoDup_app. split_and!; [done| |done]. intros k H1 H2. specialize (F2 k H2). assert (is_Some (p_taken s1 !! k)) as [? ?] by (apply T1; by right). congruence.
  - intros k [Hk|Hk]%elem_of_app; [by apply F1|]. destruct (p_taken s !! k) eqn:E; [|done].
    assert (is_Some (p_taken s1 !! k)) as [? ?] by (apply T1; left; by eexists). specialize (F2 k Hk). congruence.
  - intros k. rewrite T2, T1, elem_of_app. tauto.
Qed.

Section Facts.
Context `{CT : CaseTables} (env : gmap string string) (order : list string).
Context `{HP : HostPorts} (previous : gmap string Network).
(** [crypto/rand.Int] returns a number below its bound. *)
Context (Hrand : forall i span n, rand_Int i span = Some n -> 0 <= n < span).

#[local] Notation range := (portBindingRange env).

(** ** The passes *)

Lemma hostPortFree_taken protocol port s e s' : hostPortFree protocol port s = (Ok e, s') -> p_taken s' = p_taken s /\ exists i, e = hostPortFree_at i protocol port.
Proof. unfold hostPortFree, bindP. cbn. intros [= <- <-]. split; [done|]. by eexists. Qed.

Lemma claim_explicit_ok lease old b s s' : claim_explicit lease old b s = (Ok tt, s') -> takes (explicit_keys [b]) s s'.
Proof.
  unfold claim_explicit, explicit_keys. cbn [List.filter]. destruct (pb_Auto b); cbn [negb map]; [intros [= <-]; by apply takes_nil|]. cbv zeta.
  intros H. apply bindP_ok in H as (t & s1 & [= <- <-] & H). destruct (p_taken s !! bindingKey b) eqn:E; [done|].
  apply bindP_ok in H as ([] & s1 & [= <-] & H). destruct (frozen_holds old b); [injection H as <-; by eapply takes_one|].
  apply bindP_ok in H as (e & s2 & [Ht _]%hostPortFree_taken & H). destruct e as [reason|].
  - by apply bindP_ok in H as (? & ? & _ & H).
  - injection H as <-. eapply takes_one; [done|by rewrite Ht].
Qed.

Lemma forP_takes {A} (f : A -> P unit) (keys : A -> list string) l s s' :
  (forall x s s', x ∈ l -> f x s = (Ok tt, s') -> takes (keys x) s s') -> forP f l s = (Ok tt, s') -> takes (concat (map keys l)) s s'.
Proof.
  intros Hf. revert s. induction l as [|x l IH]; intros s H; cbn in *; [injection H as <-; by apply takes_nil|].
  apply bindP_ok in H as ([] & s1 & E & H). eapply takes_app; [apply Hf; [by left|done]|]. apply IH; [|done]. intros y ? ? Hy. apply Hf. by right.
Qed.

Lemma explicit_concat bs : concat (map (fun b => explicit_keys [b]) bs) = explicit_keys bs.
Proof. induction bs as [|b bs IH]; [done|]. cbn [map concat]. rewrite IH. by rewrite <-explicit_keys_app. Qed.
Lemma all_ports_cons r rs : all_ports (r :: rs) = (if is_compute r then ports_of r else []) ++ all_ports rs.
Proof. done. Qed.

Lemma all_ports_explicit rs : explicit_keys (all_ports rs) = concat (map (fun r => explicit_keys (if is_compute r then ports_of r else [])) rs).
Proof. induction rs as [|r rs IH]; [done|]. rewrite all_ports_cons, explicit_keys_app, IH. done. Qed.
Lemma claims_ok rs s s' : forP (claim_all previous) rs s = (Ok tt, s') -> takes (explicit_keys (all_ports rs)) s s'.
Proof.
  intros H. rewrite all_ports_explicit.
  eapply forP_takes; [|exact H]. intros r s1 s2 _ E. unfold claim_all in E. destruct (is_compute r); [|injection E as <-; by apply takes_nil].
  rewrite <-explicit_concat. eapply forP_takes; [|exact E]. intros b ? ? _. apply claim_explicit_ok.
Qed.

Lemma allocate_ok attempts protocol first last s port s' :
  1 <= first -> last <= 65535 -> allocateHostPort attempts protocol first last s = (Ok port, s') ->
  p_taken s' = p_taken s /\ p_taken s !! portKey protocol port = None /\ first <= port <= last /\ exists i, hostPortFree_at i protocol port = None.
Proof.
  intros Hf Hl. revert s. induction attempts as [|k IH]; intros s H; cbn [allocateHostPort] in H; [done|].
  apply bindP_ok in H as (i & s1 & [= <- <-] & H). destruct (rand_Int (p_calls s) (last - first + 1)) as [n|] eqn:Er; [|done].
  apply Hrand in Er. cbv zeta in H. apply bindP_ok in H as (t & s2 & [= <- <-] & H). cbn [p_taken] in H.
  destruct (p_taken s !! portKey protocol ((first + n) mod 65536)) eqn:Et; cbn [is_None_b negb] in H; [by apply IH in H|].
  apply bindP_ok in H as (e & s3 & [Ht [j He]]%hostPortFree_taken & H). cbn [p_taken] in Ht. destruct e as [reason|].
  - apply IH in H. rewrite Ht in H. done.
  - injection H as <- <-. rewrite Z.mod_small in * by lia. split_and!; [done|done|lia|lia|by exists j].
Qed.

Lemma range_ok r first last : range r = Ok (first, last) ->
  1 <= first /\ last <= 65535 /\ forall b, b ∈ ports_of r -> pb_Auto b = false -> first <= pb_HostPort b <= last.
Proof.
  unfold portBindingRange. cbv zeta. case_match; [done|]. destruct (parse_range _) as [[f l]|]; [|done].
  destruct ((f <? 1) || (65535 <? l) || (l <? f)) eqn:E; [done|]. destruct (find_first _ (ports_of r)) as [?|] eqn:Ef; [done|]. intros [= <- <-].
  split_and!; [lia|lia|]. intros b Hb Ha. pose proof (proj1 (find_first_none _ _) Ef b Hb) as Hn. cbn in Hn. rewrite Ha in Hn. cbn in Hn. lia.
Qed.

(** Where the host port of a frozen binding comes from. *)
Definition port_from (r : ResourceRequest) (old : option Network) (b : PortBinding) (port : Z) : Prop :=
  (port = autoPort old b /\ port <> 0) \/
  (exists first last, range r = Ok (first, last) /\ first <= port <= last /\ exists i, hostPortFree_at i (pb_Protocol b) port = None).
Definition assigned (r : ResourceRequest) (old : option Network) (b b' : PortBinding) : Prop :=
  if pb_Auto b then exists port, b' = with_host_port port b /\ port_from r old b port else b' = b.

Lemma assign_auto_ok r old b s b' s' : assign_auto env r old b s = (Ok b', s') -> assigned r old b b' /\ takes (auto_keys [b']) s s'.
Proof.
  unfold assign_auto, assigned. destruct (pb_Auto b) eqn:Ea; cbn [negb].
  2: { intros [= <- <-]. split; [done|]. unfold auto_keys. cbn. rewrite Ea. by apply takes_nil. }
  cbv zeta. intros H. apply bindP_ok in H as (t & s1 & [= <- <-] & H).
  assert (forall port, takes (auto_keys [with_host_port port b]) s s' <-> takes [portKey (pb_Protocol b) port] s s') as Hk.
  { intros port. unfold auto_keys. cbn. by rewrite Ea. }
  destruct (negb (autoPort old b =? 0) && is_None_b _) eqn:Ek.
  - apply andb_true_iff in Ek as [E1 E2]. apply bindP_ok in H as ([] & s1 & [= <-] & H). injection H as <- <-.
    split; [eexists; split; [done|]; left; split; [done|lia]|]. apply Hk. eapply takes_one; [|done]. by destruct (p_taken s !! _).
  - apply bindP_ok in H as ([first last] & s1 & [= Er <-] & H). cbn [fst snd] in H. apply bindP_ok in H as (port & s1 & E & H).
    pose proof (range_ok _ _ _ Er) as (Hf & Hl & _). apply allocate_ok in E as (Ht & Hfree & Hp & Hi); [|done..].
    apply bindP_ok in H as ([] & s2 & [= <-] & H). injection H as <- <-.
    split; [eexists; split; [done|]; right; eauto|]. apply Hk. eapply takes_one; [done|]. cbn. by rewrite Ht.
Qed.

Lemma mapP_takes {A B} (f : A -> P B) (R : A -> B -> Prop) (keys : B -> list string) l s l' s' :
  (forall x s y s', f x s = (Ok y, s') -> R x y /\ takes (keys y) s s') -> mapP f l s = (Ok l', s') -> Forall2 R l l' /\ takes (concat (map keys l')) s s'.
Proof.
  intros Hf. revert s l'. induction l as [|x l IH]; intros s l' H; cbn in H; [injection H as <- <-; split; [constructor|by apply takes_nil]|].
  apply bindP_ok in H as (y & s1 & E & H). apply bindP_ok in H as (ys & s2 & E2 & H). injection H as <- <-.
  apply Hf in E as [? ?]. apply IH in E2 as [? ?]. split; [by constructor|]. cbn. by eapply takes_app.
Qed.
Lemma all_ports_auto rs : auto_keys (all_ports rs) = concat (map (fun r => auto_keys (if is_compute r then ports_of r else [])) rs).
Proof. induction rs as [|r rs IH]; [done|]. rewrite all_ports_cons, auto_keys_app, IH. done. Qed.
Lemma auto_concat bs : concat (map (fun b => auto_keys [b]) bs) = auto_keys bs.
Proof. induction bs as [|b bs IH]; [done|]. cbn [map concat]. rewrite IH. by rewrite <-auto_keys_app. Qed.

(** The frozen form of a declared request. *)
Definition frozen_as (r r' : ResourceRequest) : Prop :=
  match (if is_compute r then rr_ComputeNetwork r else None) with
  | None => r' = r
  | Some n => exists bs, Forall2 (assigned r (previous !! identity r)) (n_Ports n) bs /\ r' = with_network (with_ports bs n) r /\
      Network_Validate (with_ports bs n) (spec_prefix (rr_Spec r)) (quotaMaxInstances (rr_Spec r)) = Ok tt
  end.

Lemma freeze_ok r s r' s' : freeze_network env previous r s = (Ok r', s') -> frozen_as r r' /\ takes (auto_keys (if is_compute r' then ports_of r' else [])) s s'.
Proof.
  unfold freeze_network, frozen_as, ports_of. destruct (is_compute r) eqn:Ec.
  2: { intros [= <- <-]. rewrite Ec. split; [done|]. by apply takes_nil. }
  destruct (rr_ComputeNetwork r) as [n|] eqn:En.
  2: { intros [= <- <-]. rewrite Ec, En. split; [done|]. by apply takes_nil. }
  intros H. apply bindP_ok in H as (bs & s1 & E & H). apply (mapP_takes _ _ (fun b => auto_keys [b]) _ _ _ _ (assign_auto_ok r (previous !! identity r))) in E as [Hb Ht].
  rewrite auto_concat in Ht. apply bindP_ok in H as ([] & s2 & [= Hv <-] & H). injection H as <- <-. unfold is_compute in *. cbn. rewrite Ec. cbn.
  split; [|done]. exists bs. split_and!; [done|done|]. by destruct (Network_Validate _ _ _) as [[]|].
Qed.

(** The declared form of a request. *)
Definition declared_as (r r1 : ResourceRequest) : Prop :=
  if is_compute r then
    exists n t, ParseSpec (rr_Spec r) = Ok n /\ r1 = with_network (with_traefik t n) r /\ (n_Ports n = [] \/ exists first last, range r1 = Ok (first, last))
  else r1 = r.

Lemma with_traefik_same n : with_traefik (n_TraefikPort n) n = n.
Proof. by destruct n. Qed.
Lemma declare_ok r r1 : declare_network env order r = Ok r1 -> declared_as r r1.
Proof.
  unfold declare_network, declared_as. destruct (is_compute r) eqn:Ec; cbn [negb]; [|by intros [= <-]].
  destruct (ParseSpec (rr_Spec r)) as [n|] eqn:Ep; cbn; [|done]. destruct (traefik_port env order (identity r) n) as [n1|] eqn:Et; cbn; [|done].
  assert (exists t, n1 = with_traefik t n) as [t ->].
  { revert Et. unfold traefik_port. repeat case_match; try done; intros [= <-]; eauto. exists (n_TraefikPort n). by rewrite with_traefik_same. }
  intros H. exists n, t. split; [done|]. cbn in H. destruct (n_Ports n) as [|b bs] eqn:Eb; cbn in H; [injection H as <-; eauto|].
  destruct (range (with_network (with_traefik t n) r)) as [[first last]|e] eqn:Er; cbn in H; [|done]. injection H as <-. split; [done|]. eauto.
Qed.

Lemma prepare_ok rs s rs' s' :
  prepareComputeNetwork env order previous rs s = (Ok rs', s') ->
  exists rs1, Forall2 declared_as rs rs1 /\ Forall2 frozen_as rs1 rs' /\
    exists s0 s1 s2, p_taken s0 = initial_taken env order /\ takes (explicit_keys (all_ports rs1)) s0 s1 /\ takes (auto_keys (all_ports rs')) s1 s2.
Proof.
  unfold prepareComputeNetwork. intros H. apply bindP_ok in H as ([] & s0 & E0 & H). apply bindP_ok in H as (rs1 & s0' & [= E1 <-] & H).
  apply bindP_ok in H as ([] & s1 & E2 & H). apply bindP_ok in H as (rs2 & s2 & E3 & H). apply bindP_ok in H as ([] & s3 & _ & H). injection H as -> <-.
  exists rs1. split; [|split].
  - apply map_result_ok in E1. eapply Forall2_impl; [exact E1|]. intros r r1. apply declare_ok.
  - by apply (mapP_takes _ _ _ _ _ _ _ freeze_ok) in E3 as [? _].
  - exists s0, s1, s2. injection E0 as <-. split_and!; [done|by apply claims_ok|]. rewrite all_ports_auto. by apply (mapP_takes _ _ _ _ _ _ _ freeze_ok) in E3 as [_ ?].
Qed.

(** ** Assigned bindings *)

Lemma assigned_fields r old b b' : assigned r old b b' ->
  pb_Protocol b' = pb_Protocol b /\ pb_Auto b' = pb_Auto b /\ pb_Slot b' = pb_Slot b /\ pb_GuestPort b' = pb_GuestPort b /\ (pb_Auto b = false -> b' = b).
Proof. unfold assigned. destruct (pb_Auto b) eqn:E; [|intros ->; by rewrite E]. intros (port & -> & _). by cbn. Qed.

Lemma assigned_explicit r old bs bs' : Forall2 (assigned r old) bs bs' -> explicit_keys bs' = explicit_keys bs.
Proof.
  induction 1 as [|b b' bs bs' Hb _ IH]; [done|]. apply assigned_fields in Hb as (_ & Ha & _ & _ & He). unfold explicit_keys in *. cbn. rewrite Ha.
  destruct (pb_Auto b) eqn:E; cbn; [done|]. by rewrite He, IH.
Qed.

Lemma frozen_compute r r' : frozen_as r r' -> is_compute r' = is_compute r.
Proof. unfold frozen_as. destruct (if is_compute r then rr_ComputeNetwork r else None) as [n|]; [by intros (bs & _ & -> & _)|by intros ->]. Qed.

Lemma frozen_explicit rs rs' : Forall2 frozen_as rs rs' -> explicit_keys (all_ports rs') = explicit_keys (all_ports rs).
Proof.
  rewrite !all_ports_explicit. induction 1 as [|r r' rs rs' Hr _ IH]; [done|]. cbn [map concat]. rewrite IH. f_equal. rewrite (frozen_compute _ _ Hr).
  unfold frozen_as in Hr. destruct (is_compute r); [|done]. unfold ports_of. destruct (rr_ComputeNetwork r) as [n|] eqn:En; [|by rewrite Hr, En].
  destruct Hr as (bs & Hb & -> & _). cbn. by eapply assigned_explicit.
Qed.

(** Every binding holds a port of its own, and none the Traefik port. *)
Lemma frozen_keys rs s rs' s' :
  prepareComputeNetwork env order previous rs s = (Ok rs', s') ->
  NoDup (map bindingKey (all_ports rs')) /\ forall k, k ∈ map bindingKey (all_ports rs') -> initial_taken env order !! k = None.
Proof.
  intros (rs1 & _ & Hf & s0 & s1 & s2 & E0 & (N1 & F1 & T1) & (N2 & F2 & T2))%prepare_ok. rewrite <-(frozen_explicit _ _ Hf) in *. rewrite E0 in *.
  assert (forall k, k ∈ auto_keys (all_ports rs') -> k ∉ explicit_keys (all_ports rs') /\ initial_taken env order !! k = None) as Ha.
  { intros k Hk. specialize (F2 k Hk). split.
    - intros He. assert (is_Some (p_taken s1 !! k)) as [? ?] by (apply T1; by right). congruence.
    - destruct (initial_taken env order !! k) eqn:E; [|done]. assert (is_Some (p_taken s1 !! k)) as [? ?] by (apply T1; left; rewrite E; by eexists). congruence. }
  split.
  - rewrite keys_split. apply NoDup_app. split_and!; [done| |done]. intros k He Hk. by apply (Ha k Hk).
  - intros k Hk. rewrite keys_split in Hk. apply elem_of_app in Hk as [Hk|Hk]; [by apply F1|by apply Ha].
Qed.

(** ** Replaying *)

Lemma adopt_assigned r old bs bs' : Forall2 (assigned r old) bs bs' -> adopt_ports bs bs' = bs'.
Proof.
  induction 1 as [|b b' bs bs' Hb _ IH]; [done|]. cbn. rewrite IH. f_equal. unfold assigned in Hb. destruct (pb_Auto b); [|done]. by destruct Hb as (port & -> & _).
Qed.

Lemma frozen_replays r r1 r' : declared_as r r1 -> frozen_as r1 r' -> is_compute r = true -> validateFrozenComputeNetwork r' = Ok tt.
Proof.
  intros Hd Hf Hc. unfold declared_as in Hd. rewrite Hc in Hd. destruct Hd as (n & t & Hp & -> & _). unfold frozen_as in Hf. unfold is_compute in *. cbn in Hf. rewrite Hc in Hf. cbn in Hf.
  destruct Hf as (bs & Hb & -> & Hv). unfold validateFrozenComputeNetwork, is_compute. cbn. rewrite Hc. cbn. rewrite Hp. cbn. rewrite Hv. cbn.
  rewrite (adopt_assigned _ _ _ _ Hb). rewrite bool_decide_eq_true_2; done.
Qed.

Lemma find_first_elem {A} (p : A -> bool) l x : find_first p l = Some x -> x ∈ l /\ p x = true.
Proof. induction l as [|y l IH]; cbn; [done|]. destruct (p y) eqn:E; [intros [= ->]; by split; [left|]|]. intros H. destruct (IH H). by split; [right|]. Qed.

Lemma autoPort_elem old b : autoPort old b <> 0 -> exists n o, old = Some n /\ o ∈ n_Ports n /\ pb_HostPort o = autoPort old b.
Proof.
  unfold autoPort. destruct old as [n|]; [|done]. destruct (find_first _ _) as [o|] eqn:E; [|done]. intros _. apply find_first_elem in E as [? _]. by exists n, o.
Qed.

Lemma frozen_port_bounds r r1 r' b' :
  (forall id n o, previous !! id = Some n -> o ∈ n_Ports n -> 0 <= pb_HostPort o <= 65535) ->
  declared_as r r1 -> frozen_as r1 r' -> is_compute r = true -> b' ∈ ports_of r' -> 1 <= pb_HostPort b' <= 65535.
Proof.
  intros Hprev Hd Hf Hc Hb. unfold declared_as in Hd. rewrite Hc in Hd. destruct Hd as (n & t & _ & -> & Hr).
  unfold frozen_as in Hf. unfold is_compute in *. cbn in Hf. rewrite Hc in Hf. cbn in Hf. destruct Hf as (bs & Hbs & -> & _). cbn in Hb.
  destruct (Forall2_elem_r _ _ _ _ Hbs Hb) as (b & Hbn & Ha). unfold assigned in Ha. destruct (pb_Auto b) eqn:Eb.
  - destruct Ha as (port & -> & [[-> H0]|(first & last & Hrange & Hp & _)]); cbn.
    + destruct (autoPort_elem _ _ H0) as (n0 & o & Ho & Hin & Eo). specialize (Hprev _ _ _ Ho Hin). lia.
    + apply range_ok in Hrange as (? & ? & _). lia.
  - subst b'. destruct Hr as [Hr|(first & last & Hr)]; [rewrite Hr in Hbn; by apply elem_of_nil in Hbn|].
    apply range_ok in Hr as (? & ? & Hall). specialize (Hall b Hbn Eb). lia.
Qed.

End Facts.

(** ** Applying again *)

(** A later run that starts a step with the same ports taken and ends it with
    the same outcome and the same ports. *)
Lemma mapP_replay {A B} (f1 f2 : A -> P B) (Q : A -> B -> Prop) l : forall s1 l' s1' s2,
  (forall x y s1 s1' s2, Q x y -> f1 x s1 = (Ok y, s1') -> p_taken s2 = p_taken s1 -> exists s2', f2 x s2 = (Ok y, s2') /\ p_taken s2' = p_taken s1') ->
  Forall2 Q l l' -> mapP f1 l s1 = (Ok l', s1') -> p_taken s2 = p_taken s1 -> exists s2', mapP f2 l s2 = (Ok l', s2') /\ p_taken s2' = p_taken s1'.
Proof.
  induction l as [|x l IH]; intros s1 l' s1' s2 Hf HQ H Ht; cbn in H; [injection H as <- <-; by exists s2|].
  apply bindP_ok in H as (y & s3 & E & H). apply bindP_ok in H as (ys & s4 & E2 & H). injection H as <- <-. apply Forall2_cons in HQ as [HQ1 HQ2].
  destruct (Hf _ _ _ _ _ HQ1 E Ht) as (s5 & E5 & T5). destruct (IH _ _ _ _ Hf HQ2 E2 T5) as (s6 & E6 & T6).
  exists s6. split; [|done]. cbn. rewrite (bindP_run _ _ _ _ _ E5), (bindP_run _ _ _ _ _ E6). done.
Qed.
Lemma forP_replay {A} (f1 f2 : A -> P unit) l : forall s1 s1' s2,
  (forall x s1 s1' s2, x ∈ l -> f1 x s1 = (Ok tt, s1') -> p_taken s2 = p_taken s1 -> exists s2', f2 x s2 = (Ok tt, s2') /\ p_taken s2' = p_taken s1') ->
  forP f1 l s1 = (Ok tt, s1') -> p_taken s2 = p_taken s1 -> exists s2', forP f2 l s2 = (Ok tt, s2') /\ p_taken s2' = p_taken s1'.
Proof.
  induction l as [|x l IH]; intros s1 s1' s2 Hf H Ht; cbn in H; [injection H as <-; by exists s2|].
  apply bindP_ok in H as ([] & s3 & E & H). destruct (Hf x _ _ _ ltac:(by left) E Ht) as (s5 & E5 & T5).
  destruct (IH s3 s1' s5) as (s6 & E6 & T6); [intros y ? ? ? Hy; apply Hf; by right|done|done|].
  exists s6. split; [|done]. cbn. rewrite (bindP_run _ _ _ _ _ E5). done.
Qed.

Lemma claim_explicit_taken `{HP : HostPorts} `{CT : CaseTables} lease old b s s' :
  claim_explicit lease old b s = (Ok tt, s') -> pb_Auto b = false -> p_taken s !! bindingKey b = None /\ p_taken s' = <[bindingKey b := lease]> (p_taken s).
Proof.
  unfold claim_explicit. intros H Ha. rewrite Ha in H. cbv zeta in H. apply bindP_ok in H as (t & s1 & [= <- <-] & H).
  destruct (p_taken s !! bindingKey b) eqn:E; [done|]. split; [done|].
  apply bindP_ok in H as ([] & s1 & [= <-] & H). destruct (frozen_holds old b); [by injection H as <-|].
  apply bindP_ok in H as (e & s2 & [Ht _]%hostPortFree_taken & H). destruct e as [reason|]; [by apply bindP_ok in H as (? & ? & _ & H)|by injection H as <-].
Qed.

Lemma claim_replay `{CT : CaseTables} (HP1 HP2 : HostPorts) lease old1 old2 b s1 s1' s2 :
  claim_explicit (HP := HP1) lease old1 b s1 = (Ok tt, s1') -> p_taken s2 = p_taken s1 -> (pb_Auto b = false -> frozen_holds old2 b = true) ->
  exists s2', claim_explicit (HP := HP2) lease old2 b s2 = (Ok tt, s2') /\ p_taken s2' = p_taken s1'.
Proof.
  intros H Ht Hh. unfold claim_explicit at 1. destruct (pb_Auto b) eqn:Ea.
  { unfold claim_explicit in H. rewrite Ea in H. injection H as <-. by exists s2. }
  apply claim_explicit_taken in H as [Hn ->]; [|done]. cbv zeta. unfold bindP at 1. cbn [taken]. rewrite Ht, Hn, Hh by done.
  eexists. split; [reflexivity|]. cbn. by rewrite Ht.
Qed.

Lemma assign_replay `{CT : CaseTables} env (HP1 HP2 : HostPorts) r old1 old2 b b' s1 s1' s2 :
  (forall i span n, @rand_Int HP1 i span = Some n -> 0 <= n < span) ->
  assign_auto env (HP := HP1) r old1 b s1 = (Ok b', s1') -> p_taken s2 = p_taken s1 -> (pb_Auto b = true -> autoPort old2 b = pb_HostPort b' /\ pb_HostPort b' <> 0) ->
  exists s2', assign_auto env (HP := HP2) r old2 b s2 = (Ok b', s2') /\ p_taken s2' = p_taken s1'.
Proof.
  intros Hr H Ht Hk. unfold assign_auto at 1. destruct (pb_Auto b) eqn:Ea; cbn [negb].
  2: { unfold assign_auto in H. rewrite Ea in H. injection H as <- <-. by exists s2. }
  destruct (Hk eq_refl) as [E1 E2]. cbv zeta. unfold bindP at 1. cbn [taken]. rewrite E1.
  assert (exists port, b' = with_host_port port b /\ p_taken s1 !! portKey (pb_Protocol b) port = None /\ p_taken s1' = <[portKey (pb_Protocol b) port := identity r]> (p_taken s1)) as (port & -> & Hn & ->).
  { clear Hk E1 E2. unfold assign_auto in H. rewrite Ea in H. cbn [negb] in H. cbv zeta in H. apply bindP_ok in H as (t & s3 & [= <- <-] & H).
    destruct (negb (autoPort old1 b =? 0) && is_None_b _) eqn:Ek.
    - apply andb_true_iff in Ek as [_ Ek]. apply bindP_ok in H as ([] & s3 & [= <-] & H). injection H as <- <-. eexists. split; [done|]. split; [by destruct (p_taken s1 !! _)|done].
    - apply bindP_ok in H as ([first last] & s3 & [= Er <-] & H). cbn [fst snd] in H. apply bindP_ok in H as (port & s3 & E & H).
      pose proof (range_ok _ _ _ _ Er) as (Hf & Hl & _). apply allocate_ok in E as (Ht' & Hfree & _); [|done..].
      apply bindP_ok in H as ([] & s4 & [= <-] & H). injection H as <- <-. eexists. split; [done|]. split; [done|]. cbn. by rewrite Ht'. }
  cbn [pb_HostPort with_host_port] in E2 |- *. rewrite Ht, Hn, (proj2 (Z.eqb_neq _ _) E2). cbn [negb is_None_b andb].
  eexists. split; [reflexivity|]. cbn [p_taken]. by rewrite Ht.
Qed.

Lemma autoPort_own n b b' r old env `{CT : CaseTables} `{HP : HostPorts} :
  assigned env r old b b' -> b' ∈ n_Ports n -> pb_Auto b = true -> pb_HostPort b' <> 0 ->
  NoDup (map (fun b => (pb_Protocol b, pb_Slot b, pb_GuestPort b)) (List.filter pb_Auto (n_Ports n))) -> autoPort (Some n) b = pb_HostPort b'.
Proof.
  intros Ha Hb Hauto Hp Hn. apply assigned_fields in Ha as (F1 & F2 & F3 & F4 & _). unfold autoPort.
  assert (same_target b b' = true) as Hs.
  { unfold same_target. rewrite F1, F2, F3, F4, Hauto, !bool_decide_eq_true_2, Z.eqb_refl, (proj2 (Z.eqb_neq _ _) Hp) by done. done. }
  destruct (find_first (same_target b) (n_Ports n)) as [o|] eqn:Ef.
  2: { by rewrite (proj1 (find_first_none _ _) Ef b' Hb) in Hs. }
  apply find_first_elem in Ef as [Ho Hso]. f_equal. unfold same_target in Hso. apply andb_true_iff in Hso as [Hso _]. repeat apply andb_true_iff in Hso as [Hso ?]. breflect.
  assert (o ∈ List.filter pb_Auto (n_Ports n) /\ b' ∈ List.filter pb_Auto (n_Ports n)) as [Ho' Hb'].
  { split; apply list_elem_of_In, filter_In; (split; [by apply list_elem_of_In|]); congruence. }
  eapply NoDup_map_inj; [exact Hn|done|done|]. congruence.
Qed.

Lemma frozen_holds_own n b bs r old env `{CT : CaseTables} `{HP : HostPorts} :
  Forall2 (assigned env r old) bs (n_Ports n) -> b ∈ bs -> pb_Auto b = false -> frozen_holds (Some n) b = true.
Proof.
  intros Hf Hb Ha. apply existsb_exists. exists b. split; [|by rewrite bool_decide_eq_true_2, Z.eqb_refl].
  apply list_elem_of_In. induction Hf as [|x y l l' Hxy _ IH]; [by apply elem_of_nil in Hb|].
  apply elem_of_cons in Hb as [<-|Hb]; [|right; by apply IH]. unfold assigned in Hxy. rewrite Ha in Hxy. subst y. left.
Qed.

Lemma assigned_nonzero `{CT : CaseTables} `{HP : HostPorts} env r old b b' :
  assigned env r old b b' -> pb_Auto b = true -> pb_HostPort b' <> 0.
Proof.
  unfold assigned. intros H Ha. rewrite Ha in H. destruct H as (port & -> & [[_ H]|(first & last & Hr & Hp & _)]); cbn; [done|].
  apply range_ok in Hr as (? & _). lia.
Qed.

Section Reapply.
Context `{CT : CaseTables} (env : gmap string string) (order : list string) (HP1 HP2 : HostPorts) (previous1 previous2 : gmap string Network).
Context (Hrand : forall i span n, @rand_Int HP1 i span = Some n -> 0 <= n < span).

(** The automatic bindings of a lease are told apart by their target. *)
Definition distinct_targets (r : ResourceRequest) : Prop :=
  NoDup (map (fun b => (pb_Protocol b, pb_Slot b, pb_GuestPort b)) (List.filter pb_Auto (ports_of r))).
(** The lease's network is that of the active deployment. *)
Definition remembered (r' : ResourceRequest) : Prop := is_compute r' = true -> previous2 !! identity r' = rr_ComputeNetwork r' /\ distinct_targets r'.

Lemma frozen_network r r' n : frozen_as env (HP := HP1) previous1 r r' -> is_compute r = true -> rr_ComputeNetwork r = Some n -> remembered r' ->
  exists bs, Forall2 (assigned env (HP := HP1) r (previous1 !! identity r)) (n_Ports n) bs /\ previous2 !! identity r = Some (with_ports bs n) /\ r' = with_network (with_ports bs n) r /\
    NoDup (map (fun b => (pb_Protocol b, pb_Slot b, pb_GuestPort b)) (List.filter pb_Auto bs)).
Proof.
  unfold frozen_as. intros Hf Hc Hn Hr. rewrite Hc, Hn in Hf. destruct Hf as (bs & Hb & -> & _). exists bs.
  destruct Hr as [Hp Hd]; [by unfold is_compute in *|]. by split_and!.
Qed.

Lemma claim_all_replay r r' s1 s1' s2 :
  frozen_as env (HP := HP1) previous1 r r' -> remembered r' ->
  claim_all (HP := HP1) previous1 r s1 = (Ok tt, s1') -> p_taken s2 = p_taken s1 ->
  exists s2', claim_all (HP := HP2) previous2 r s2 = (Ok tt, s2') /\ p_taken s2' = p_taken s1'.
Proof.
  intros Hf Hm H Ht. unfold claim_all in *. destruct (is_compute r) eqn:Ec; [|injection H as <-; by exists s2].
  eapply forP_replay; [|exact H|exact Ht]. intros b t1 t1' t2 Hb Hc Ht'. eapply (claim_replay HP1 HP2); [exact Hc|exact Ht'|]. intros Ha.
  unfold ports_of in Hb. destruct (rr_ComputeNetwork r) as [n|] eqn:En; [|by apply elem_of_nil in Hb].
  destruct (frozen_network _ _ _ Hf Ec En Hm) as (bs & Hbs & -> & _). exact (frozen_holds_own (with_ports bs n) b (n_Ports n) r _ env (HP := HP1) Hbs Hb Ha).
Qed.

Lemma freeze_replay r r' s1 s1' s2 :
  remembered r' -> freeze_network env (HP := HP1) previous1 r s1 = (Ok r', s1') -> p_taken s2 = p_taken s1 ->
  exists s2', freeze_network env (HP := HP2) previous2 r s2 = (Ok r', s2') /\ p_taken s2' = p_taken s1'.
Proof.
  intros Hm H Ht. pose proof (proj1 (freeze_ok _ _ Hrand _ _ _ _ H)) as Hf. unfold freeze_network in *.
  destruct (is_compute r) eqn:Ec; [|injection H as <- <-; by exists s2]. destruct (rr_ComputeNetwork r) as [n|] eqn:En; [|injection H as <- <-; by exists s2].
  destruct (frozen_network _ _ _ Hf Ec En Hm) as (bs & Hb & Hp & -> & Hd). clear Hf Hm. rewrite Hp.
  apply bindP_ok in H as (bs' & s3 & E & H). apply bindP_ok in H as ([] & s4 & [= Hv <-] & H). injection H as -> <-.
  assert (Forall2 (fun b b' => pb_Auto b = true -> autoPort (Some (with_ports bs n)) b = pb_HostPort b' /\ pb_HostPort b' <> 0) (n_Ports n) bs) as HQ.
  { apply Forall2_same_length_lookup_2; [by eapply Forall2_length|]. intros i b b' Hi Hi' Ha.
    pose proof (Forall2_lookup_lr _ _ _ _ _ _ Hb Hi Hi') as Has. pose proof (assigned_nonzero _ _ _ _ _ Has Ha) as Hnz. split; [|done].
    eapply (autoPort_own _ _ _ _ _ env (HP := HP1)); [exact Has| |done|done|done]. cbn. by eapply list_elem_of_lookup_2. }
  destruct (mapP_replay _ (assign_auto env (HP := HP2) r (Some (with_ports bs n))) _ _ _ _ _ s2
    (fun b b' t1 t1' t2 HQ E T => assign_replay env HP1 HP2 r _ _ b b' t1 t1' t2 Hrand E T HQ) HQ E Ht) as (s5 & E5 & T5).
  exists s5. rewrite (bindP_run _ _ _ _ _ E5). unfold bindP, liftP. rewrite Hv. by split.
Qed.

(** C5.  Applying again moves no port: when the active deployment is the result
    of a preparation in which every lease's automatic bindings have distinct
    targets, preparing the same requests again gives exactly the same frozen
    networks, whatever the host answers this time and whatever numbers are
    drawn. *)
Theorem reapply_keeps_every_port rs s1 rs' s1' s2 :
  prepareComputeNetwork env order (HP := HP1) previous1 rs s1 = (Ok rs', s1') -> Forall remembered rs' ->
  fst (prepareComputeNetwork env order (HP := HP2) previous2 rs s2) = Ok rs'.
Proof.
  intros H Hm. unfold prepareComputeNetwork in *. apply bindP_ok in H as ([] & s3 & [= <-] & H). apply bindP_ok in H as (rs1 & s4 & [= Hd <-] & H).
  apply bindP_ok in H as ([] & s5 & Hc & H). apply bindP_ok in H as (rs2 & s6 & Hfz & H). apply bindP_ok in H as ([] & s7 & _ & H). injection H as -> _.
  pose proof (proj1 (mapP_takes _ _ _ _ _ _ _ (freeze_ok env previous1 Hrand) Hfz)) as Hf.
  set (t0 := mkPState (p_calls s2) (initial_taken env order) (p_issues s2)).
  destruct (forP_replay (claim_all (HP := HP1) previous1) (claim_all (HP := HP2) previous2) rs1 _ _ t0 (fun r t1 t1' t2 Hr E T => ltac:(
    destruct (Forall2_elem_l _ _ _ _ Hf Hr) as (r' & Hr' & Hfr); exact (claim_all_replay r r' t1 t1' t2 Hfr (proj1 (Forall_forall _ _) Hm r' Hr') E T))) Hc eq_refl) as (t1 & Ec & Tc).
  destruct (mapP_replay _ (freeze_network env (HP := HP2) previous2) (fun _ r' => remembered r') _ _ _ _ t1
    (fun r r' u1 u1' u2 HQ E T => freeze_replay r r' u1 u1' u2 HQ E T) (Forall2_of_r _ _ _ _ Hf Hm) Hfz Tc) as (t2 & Ef & _).
  rewrite (bindP_run _ _ _ tt t0) by done. rewrite (bindP_run _ _ _ rs1 t0) by (unfold liftP; by rewrite Hd).
  rewrite (bindP_run _ _ _ _ _ Ec), (bindP_run _ _ _ _ _ Ef). done.
Qed.
End Reapply.

(** ** A concrete deployment

    A lease with one explicit and one automatic port binding, prepared on a
    quiet host and again on a busy one; and two deployments whose ports the
    preparation does not keep apart or does not keep. *)

Module ComputeDemo.
Import SchemaDemo.
#[local] Existing Instance demo_case.

Definition binding (host : any) (guest : Z) : any :=
  AMap [("protocol", AString "tcp"); ("host_port", host); ("slot", AString "dev"); ("guest_port", AInt guest)].
Definition lease_spec (ports : list any) : spec :=
  [("instance_prefix", AString "anas-fj-"); ("quota", AMap [("max_instances", AInt 4)]);
   ("network", AMap [("ingress", AString "published"); ("module_access", ABool true); ("slots", AMap [("dev", AMap [("instance", AString "anas-fj-dev")])])]);
   ("publish", AMap [("ports", AList ports)])].
Definition lease (ports : list any) : ResourceRequest := mkRequest "forgejo" "runners" "compute" "incus" (lease_spec ports) None.
Definition host_env (traefik : string) : gmap string string :=
  list_to_map [("INCUS_PORT_BINDING_RANGE", "1024-32767"); ("TRAEFIK_BASE_PORT", traefik)].
Definition modules : list string := ["traefik"; "incus"; "forgejo"].

(** A host where every port is free, and one where none is; the numbers drawn
    start at different points. *)
Definition draw (offset : Z) (i : nat) (span : Z) : option Z := if span <=? 0 then None else Some ((offset + Z.of_nat i) mod span).
Definition quiet_host : HostPorts :=
  {| net_Listen _ _ _ := Listened None; dockerPublishedPorts _ := Ok ∅; rand_Int := draw 7000; issue_io _ := true; now_at _ := 0 |}.
Definition busy_host : HostPorts :=
  {| net_Listen _ _ _ := AddrInUse; dockerPublishedPorts _ := Ok ∅; rand_Int := draw 0; issue_io _ := true; now_at _ := 0 |}.
Definition other_host : HostPorts :=
  {| net_Listen _ _ _ := Listened None; dockerPublishedPorts _ := Ok ∅; rand_Int := draw 9000; issue_io _ := true; now_at _ := 0 |}.

Lemma draw_bounds offset i span n : draw offset i span = Some n -> 0 <= n < span.
Proof. unfold draw. case_match; [done|]. intros [= <-]. apply Z.mod_pos_bound. lia. Qed.

Definition start : pstate := mkPState 0 ∅ (Some []).
Notation prepared traefik host previous ports := (prepareComputeNetwork (host_env traefik) modules (HP := host) previous [lease ports] start).

Definition demo_ports : list any := [binding (AString "auto") 22; binding (AInt 30080) 80].
Notation first_run := (prepared "9000" quiet_host ∅ demo_ports).
Definition frozen : list ResourceRequest := match fst first_run with Ok rs => rs | Err _ => [] end.
Definition host_ports (r : result prepErr (list ResourceRequest)) : option (list Z) :=
  match r with Ok rs => Some (map pb_HostPort (all_ports rs)) | Err _ => None end.

Example demo_prepared : host_ports (fst first_run) = Some [8025; 30080].
Proof. vm_compute. reflexivity. Qed.
Lemma demo_first : first_run = (Ok frozen, snd first_run).
Proof.
  assert (host_ports (fst first_run) <> None) as H by (rewrite demo_prepared; discriminate). unfold frozen.
  destruct first_run as [[rs|e] s]; cbn in *; [reflexivity|by destruct H].
Qed.


Definition active : gmap string Network := match frozen with [r] => match rr_ComputeNetwork r with Some n => {[ "forgejo.runners" := n ]} | None => ∅ end | _ => ∅ end.

Lemma demo_remembered : Forall (remembered active) frozen.
Proof.
  apply Forall_forall. assert (frozen = [default (lease []) (head frozen)]) as -> by (vm_compute; reflexivity).
  intros r ->%list_elem_of_singleton _. split; [vm_compute; reflexivity|]. unfold distinct_targets. apply (bool_decide_unpack _). vm_compute. exact I.
Qed.

Lemma reapply_keeps_every_port_witness : fst (prepared "9000" busy_host active demo_ports) = Ok frozen.
Proof.
  apply (reapply_keeps_every_port (host_env "9000") modules quiet_host busy_host ∅ active (draw_bounds 7000) [lease demo_ports] start frozen (snd first_run) start demo_first demo_remembered).
Defined.

(** On the busy host a new lease is refused, and the operator is told. *)
Example busy_host_refuses :
  fst (prepared "9000" busy_host ∅ demo_ports) = Err (PortTaken "forgejo.runners" "tcp/30080" "port is already in use on this host") /\
  (map (fun i => (is_Key i, issue_open i)) <$> p_issues (snd (prepared "9000" busy_host ∅ demo_ports))) = Some [("incus.port-binding/forgejo.runners/tcp/30080", true)].
Proof. vm_compute. done. Qed.

(** Two automatic bindings to the same guest port are accepted, but only the
    first keeps its port when the deployment is applied again. *)
Definition twin_ports : list any := [binding (AString "auto") 22; binding (AString "auto") 22].
Definition twins : gmap string Network :=
  match fst (prepared "9000" quiet_host ∅ twin_ports) with
  | Ok [r] => match rr_ComputeNetwork r with Some n => {[ "forgejo.runners" := n ]} | None => ∅ end
  | _ => ∅
  end.
Example twin_port_moves :
  host_ports (fst (prepared "9000" quiet_host ∅ twin_ports)) = Some [8024; 8026] /\
  host_ports (fst (prepared "9000" other_host twins twin_ports)) = Some [8024; 10024].
Proof. vm_compute. done. Qed.

(** A Traefik port written with a leading zero is not recognised as taken. *)
Example padded_traefik_port_missed :
  fst (prepared "9000" quiet_host ∅ [binding (AInt 9000) 22]) = Err (PortConflict "forgejo.runners" "tcp/9000" "traefik") /\
  host_ports (fst (prepared "09000" quiet_host ∅ [binding (AInt 9000) 22])) = Some [9000].
Proof. vm_compute. done. Qed.
End ComputeDemo.
