(* ===== verification/GoJsonFacts.v ===== *)
(** * Reading back what [encoding/json] writes

    Parsing the encoding of a value gives the value again, with every byte of a
    string that is not UTF-8 replaced; an instant survives its RFC 3339 text. *)

From Stdlib Require Import Ascii.
From S2P Require Import Prelude GoText GoJson GoStrings.

(** ** Strings *)

Lemma sapp_cons a s t : String a s +:+ t = String a (s +:+ t).
Proof. reflexivity. Qed.
Lemma sapp_nil s : EmptyString +:+ s = s.
Proof. reflexivity. Qed.
Lemma sapp_assoc s t u : (s +:+ t) +:+ u = s +:+ (t +:+ u).
Proof. induction s as [|a s IH]; [done|]. by rewrite !sapp_cons, IH. Qed.
Lemma slength_app s t : String.length (s +:+ t) = (String.length s + String.length t)%nat.
Proof. induction s as [|a s IH]; [done|]. rewrite sapp_cons. cbn [String.length]. lia. Qed.
#[export] Hint Rewrite sapp_cons sapp_nil sapp_assoc : sapp.

(** A string as it comes back: bytes that are not UTF-8 become U+FFFD. *)
Fixpoint read_chars (skip : nat) (s : string) : string :=
  match s with
  | EmptyString => EmptyString
  | String a s' =>
      match skip with
      | S k => String a (read_chars k s')
      | O => if invalid_front s then replacement +:+ read_chars 0 s' else String a (read_chars (snd (DecodeRune s) - 1) s')
      end
  end.
Definition read_string (s : string) : string := read_chars 0 s.

Definition prepend (pre : string) (o : option (string * string)) : option (string * string) :=
  match o with Some (x, r) => Some (pre +:+ x, r) | None => None end.

Lemma parse_chars_S f s : parse_chars (S f) s =
  match s with
  | EmptyString => None
  | String a s1 =>
      if a ==? quote then Some (EmptyString, s1)
      else if byte_val a <? 32 then None
      else if a ==? "\"%char then
        match s1 with
        | EmptyString => None
        | String e s2 =>
            if (e ==? quote) || (e ==? "\"%char) || (e ==? "/"%char) then prepend (String e EmptyString) (parse_chars f s2)
            else if e ==? "b"%char then prepend (String "008"%char EmptyString) (parse_chars f s2)
            else if e ==? "f"%char then prepend (String "012"%char EmptyString) (parse_chars f s2)
            else if e ==? "n"%char then prepend (String "010"%char EmptyString) (parse_chars f s2)
            else if e ==? "r"%char then prepend (String "013"%char EmptyString) (parse_chars f s2)
            else if e ==? "t"%char then prepend (String "009"%char EmptyString) (parse_chars f s2)
            else if e ==? "u"%char then
              match hex4 s2 with
              | None => None
              | Some (hi, s3) =>
                  if surrogate hi then
                    match s3 with
                    | String "\" (String "u" s4) =>
                        match hex4 s4 with
                        | Some (lo, s5) =>
                            if (hi <? 56320) && (56320 <=? lo) && (lo <? 57344)
                            then prepend (enc_rune ((hi - 55296) * 1024 + (lo - 56320) + 65536)) (parse_chars f s5)
                            else prepend replacement (parse_chars f s3)
                        | None => prepend replacement (parse_chars f s3)
                        end
                    | _ => prepend replacement (parse_chars f s3)
                    end
                  else prepend (enc_rune hi) (parse_chars f s3)
              end
            else None
        end
      else if invalid_front s then prepend replacement (parse_chars f s1)
      else prepend (String.substring 0 (snd (DecodeRune s)) s) (parse_chars f (sdrop (snd (DecodeRune s)) s))
  end.
Proof. reflexivity. Qed.

Lemma parse_esc_byte a f t :
  byte_val a <? 128 = true -> parse_chars (S f) (esc_byte a +:+ t) = prepend (String a EmptyString) (parse_chars f t).
Proof.
  intros Ha. rewrite parse_chars_S. generalize (parse_chars f). intros g. revert Ha.
  destruct a as [[] [] [] [] [] [] [] []]; intros Ha; try (vm_compute in Ha; discriminate Ha); clear Ha; first [reflexivity | destruct t; reflexivity].
Qed.

Lemma parse_escaped_fffd f t : parse_chars (S f) ("\ufffd" +:+ t) = prepend replacement (parse_chars f t).
Proof. rewrite parse_chars_S. generalize (parse_chars f). intros g. reflexivity. Qed.

Definition line_separator : string := String "226"%char (String "128"%char (String "168"%char EmptyString)).
Definition paragraph_separator : string := String "226"%char (String "128"%char (String "169"%char EmptyString)).
Lemma parse_escaped_2028 f t : parse_chars (S f) ("\u2028" +:+ t) = prepend line_separator (parse_chars f t).
Proof. rewrite parse_chars_S. generalize (parse_chars f). intros g. reflexivity. Qed.
Lemma parse_escaped_2029 f t : parse_chars (S f) ("\u2029" +:+ t) = prepend paragraph_separator (parse_chars f t).
Proof. rewrite parse_chars_S. generalize (parse_chars f). intros g. reflexivity. Qed.

(** A valid multi-byte rune at the front is copied. *)
Lemma parse_raw_rune f a s :
  byte_val a <? 128 = false -> invalid_front (String a s) = false ->
  parse_chars (S f) (String a s) =
    prepend (String.substring 0 (snd (DecodeRune (String a s))) (String a s))
            (parse_chars f (sdrop (snd (DecodeRune (String a s))) (String a s))).
Proof.
  intros Ha Hi. rewrite parse_chars_S, Hi. apply Z.ltb_ge in Ha.
  rewrite bool_decide_false by (intros ->; by apply Ha).
  replace (byte_val a <? 32) with false by lia.
  by rewrite bool_decide_false by (intros ->; by apply Ha).
Qed.

Lemma substring_sdrop k s : s = String.substring 0 k s +:+ sdrop k s.
Proof. revert s. induction k as [|k IH]; intros [|a s]; try done. cbn [String.substring sdrop]. rewrite sapp_cons. by rewrite <-IH. Qed.
Lemma substring_length k s : (k <= String.length s)%nat -> String.length (String.substring 0 k s) = k.
Proof. revert s. induction k as [|k IH]; intros [|a s] H; cbn [String.length String.substring] in *; try lia. rewrite IH; lia. Qed.
Lemma sdrop_length k s : String.length (sdrop k s) = (String.length s - k)%nat.
Proof. revert s. induction k as [|k IH]; intros [|a s]; cbn [sdrop String.length]; try lia. by rewrite IH. Qed.
Lemma substring_app k s t : String.length s = k -> String.substring 0 k (s +:+ t) = s.
Proof. intros <-. induction s as [|a s IH]; [by destruct t|]. cbn [String.length]. rewrite sapp_cons. cbn [String.substring]. by rewrite IH. Qed.
Lemma sdrop_app k s t : String.length s = k -> sdrop k (s +:+ t) = t.
Proof. intros <-. induction s as [|a s IH]; [by destruct t|]. cbn [String.length]. rewrite sapp_cons. cbn [sdrop]. done. Qed.

Lemma enc_chars_keep k s : (k <= String.length s)%nat -> enc_chars k true s = String.substring 0 k s +:+ enc_chars 0 true (sdrop k s).
Proof.
  revert s. induction k as [|k IH]; intros s H; [by destruct s|]. destruct s as [|a s]; cbn [String.length] in H; [lia|].
  cbn [enc_chars String.substring sdrop]. rewrite IH by lia. by rewrite sapp_cons.
Qed.
Lemma enc_chars_skip k s : (k <= String.length s)%nat -> enc_chars k false s = enc_chars 0 true (sdrop k s).
Proof.
  revert s. induction k as [|k IH]; intros s H; [by destruct s|]. destruct s as [|a s]; cbn [String.length] in H; [lia|].
  cbn [enc_chars sdrop]. apply IH. lia.
Qed.
Lemma read_chars_keep k s : (k <= String.length s)%nat -> read_chars k s = String.substring 0 k s +:+ read_string (sdrop k s).
Proof.
  revert s. induction k as [|k IH]; intros s H; [by destruct s|]. destruct s as [|a s]; cbn [String.length] in H; [lia|].
  cbn [read_chars String.substring sdrop]. rewrite IH by lia. by rewrite sapp_cons.
Qed.

(** The two code points that are escaped have one encoding each. *)
Lemma byte_range a : 0 <= byte_val a < 256.
Proof. unfold byte_val. pose proof (N_ascii_bounded a). lia. Qed.
Lemma land63 z : 128 <= z < 192 -> Z.land z 63 = z - 128.
Proof. intros H. change 63 with (Z.ones 6). rewrite Z.land_ones by lia. change (2 ^ 6) with 64. symmetry. apply (Z.mod_unique _ _ 2); lia. Qed.
Lemma land31 z : 192 <= z < 224 -> Z.land z 31 = z - 192.
Proof. intros H. change 31 with (Z.ones 5). rewrite Z.land_ones by lia. change (2 ^ 5) with 32. symmetry. apply (Z.mod_unique _ _ 6); lia. Qed.
Lemma land15 z : 224 <= z < 240 -> Z.land z 15 = z - 224.
Proof. intros H. change 15 with (Z.ones 4). rewrite Z.land_ones by lia. change (2 ^ 4) with 16. symmetry. apply (Z.mod_unique _ _ 14); lia. Qed.
Lemma land7 z : 240 <= z < 248 -> Z.land z 7 = z - 240.
Proof. intros H. change 7 with (Z.ones 3). rewrite Z.land_ones by lia. change (2 ^ 3) with 8. symmetry. apply (Z.mod_unique _ _ 30); lia. Qed.
Lemma byte_eq a z : byte_val a = z -> a = byte_chr z.
Proof. intros <-. unfold byte_chr, byte_val. rewrite N2Z.id. symmetry. apply ascii_N_embedding. Qed.

Lemma decode_separator a s r w :
  byte_val a <? 128 = false -> DecodeRune (String a s) = (r, w) -> r = 8232 \/ r = 8233 ->
  w = 3%nat /\ exists t, String a s = (if r =? 8232 then line_separator else paragraph_separator) +:+ t.
Proof.
  intros Ha H Hr. unfold DecodeRune in H. rewrite Ha in H.
  destruct s as [|b s2]; [injection H; intros; subst; unfold rune_error in Hr; lia|].
  destruct (between 194 223 a && cont b) eqn:E2.
  { injection H; intros; subst. unfold between, cont in E2. breflect. unfold between in E2. breflect.
    rewrite land31, land63 in Hr by lia. lia. }
  destruct s2 as [|c s3]; [injection H; intros; subst; unfold rune_error in Hr; lia|].
  destruct (between 224 239 a && _ && cont c) eqn:E3.
  { injection H; intros; subst. unfold cont, between in E3. breflect.
    assert (byte_val b < 192 /\ 128 <= byte_val b) by (repeat case_match; lia).
    rewrite land15, !land63 in Hr by lia.
    split; [done|]. rewrite land15, !land63 by lia. exists s3.
    assert (Hb : byte_val a = 226 /\ byte_val b = 128 /\ (byte_val c = 168 \/ byte_val c = 169)) by lia.
    destruct Hb as (Hb0 & Hb1 & Hb2). rewrite (byte_eq _ _ Hb0), (byte_eq _ _ Hb1).
    destruct Hb2 as [Hb2|Hb2]; rewrite (byte_eq _ _ Hb2); reflexivity. }
  destruct s3 as [|d s4]; [injection H; intros; subst; unfold rune_error in Hr; lia|].
  destruct (between 240 244 a && _ && cont c && cont d) eqn:E4; injection H; intros; subst; [|unfold rune_error in Hr; lia].
  unfold cont, between in E4. breflect.
  assert (byte_val b < 192 /\ (128 <= byte_val b) /\ (byte_val a = 240 -> 144 <= byte_val b)) by (repeat case_match; lia).
  rewrite land7, !land63 in Hr by lia. lia.
Qed.

Lemma DecodeRune_extend a t u :
  (1 < snd (DecodeRune (String a t)))%nat -> DecodeRune (String a (t +:+ u)) = DecodeRune (String a t).
Proof.
  destruct t as [|b [|c [|d t]]]; [destruct u as [|b [|c [|d u]]]|destruct u as [|c [|d u]]|destruct u as [|d u]|]; simpl; try done;
    repeat case_match; simpl; try done; try lia.
Qed.

Lemma parse_enc_chars : forall n s f rest,
  (String.length s < n)%nat -> (String.length s < f)%nat ->
  parse_chars f (enc_chars 0 true s +:+ String quote rest) = Some (read_string s, rest).
Proof.
  induction n as [|n IH]; intros s f rest Hn Hf; [lia|].
  destruct f as [|f]; [lia|]. destruct s as [|a s].
  { cbn [enc_chars]. rewrite sapp_nil, parse_chars_S. by rewrite bool_decide_true. }
  cbn [String.length] in Hn, Hf. unfold read_string. cbn [read_chars].
  change (enc_chars 0 true (String a s)) with
    (if byte_val a <? 128 then esc_byte a +:+ enc_chars 0 true s
     else if invalid_front (String a s) then "\ufffd" +:+ enc_chars 0 true s
     else let '(r, w) := DecodeRune (String a s) in
          if r =? 8232 then "\u2028" +:+ enc_chars (w - 1) false s
          else if r =? 8233 then "\u2029" +:+ enc_chars (w - 1) false s
          else String a (enc_chars (w - 1) true s)).
  destruct (byte_val a <? 128) eqn:Ha.
  { rewrite sapp_assoc, parse_esc_byte, IH by (done || lia). cbn [prepend].
    assert (Hv : invalid_front (String a s) = false) by (unfold invalid_front; rewrite Z.leb_antisym, Ha; done).
    rewrite Hv. unfold DecodeRune at 1. rewrite Ha. done. }
  destruct (invalid_front (String a s)) eqn:Hi.
  { rewrite sapp_assoc, parse_escaped_fffd, IH by lia. done. }
  destruct (DecodeRune (String a s)) as [r w] eqn:Ed. pose proof (DecodeRune_width a s) as Hw. rewrite Ed in Hw. cbn [snd] in *.
  assert (Hw1 : w <> 1%nat).
  { unfold invalid_front in Hi. rewrite Ed in Hi. cbn [snd] in Hi. rewrite Z.leb_antisym, Ha in Hi. cbn in Hi. by apply Nat.eqb_neq in Hi. }
  assert (Hsep : r = 8232 \/ r = 8233 -> forall esc sep, (forall t, parse_chars (S f) (esc +:+ t) = prepend sep (parse_chars f t)) ->
    sep = (if r =? 8232 then line_separator else paragraph_separator) ->
    parse_chars (S f) ((esc +:+ enc_chars (w - 1) false s) +:+ String quote rest) = Some (String a (read_chars (w - 1) s), rest)).
  { intros Hr esc sep Hesc Hs. destruct (decode_separator a s r w Ha Ed Hr) as (-> & t & Ht).
    rewrite sapp_assoc, Hesc, enc_chars_skip by lia. rewrite IH by (rewrite sdrop_length; lia). cbn [prepend].
    rewrite read_chars_keep by lia. do 2 f_equal. rewrite Hs, <-sapp_cons. f_equal.
    destruct Hr as [-> | ->]; cbn [Z.eqb Pos.eqb] in *; injection Ht as -> ->; destruct t; reflexivity. }
  destruct (r =? 8232) eqn:E1; [eapply Hsep; [lia|apply parse_escaped_2028|done]|].
  destruct (r =? 8233) eqn:E2; [eapply Hsep; [lia|apply parse_escaped_2029|done]|].
  clear Hsep. rewrite sapp_cons, enc_chars_keep by lia. rewrite sapp_assoc.
  set (sub := String.substring 0 (w - 1) s). set (tail := sdrop (w - 1) s).
  assert (Hs : s = sub +:+ tail) by apply substring_sdrop.
  assert (Hsub : String.length sub = (w - 1)%nat) by (apply substring_length; lia).
  assert (Hd : DecodeRune (String a sub) = (r, w)).
  { rewrite <-Ed, Hs. apply DecodeRune_prefix. rewrite <-Hs, Ed. cbn [snd]. lia. }
  assert (Hx : DecodeRune (String a (sub +:+ enc_chars 0 true tail +:+ String quote rest)) = (r, w)).
  { rewrite DecodeRune_extend; rewrite Hd; cbn [snd]; [done|lia]. }
  rewrite parse_raw_rune; [|done|unfold invalid_front; rewrite Hx; cbn [snd]; rewrite (proj2 (Nat.eqb_neq w 1)) by done; apply andb_false_r].
  rewrite Hx. cbn [snd]. rewrite <-sapp_cons.
  assert (Hl : String.length (String a sub) = w) by (cbn [String.length]; lia).
  rewrite (substring_app w), (sdrop_app w) by done. unfold tail at 1. rewrite IH by (rewrite sdrop_length; lia). cbn [prepend].
  rewrite read_chars_keep by lia. fold sub tail. by rewrite sapp_cons.
Qed.

Lemma enc_chars_length s : forall k (keep : bool), (String.length s <= (if keep then 0 else k) + String.length (enc_chars k keep s))%nat.
Proof.
  induction s as [|a s IH]; intros k keep; cbn [enc_chars String.length]; [lia|].
  assert (IHt : forall k, (String.length s <= String.length (enc_chars k true s))%nat) by (intros j; exact (IH j true)).
  assert (IHf : forall k, (String.length s <= k + String.length (enc_chars k false s))%nat) by (intros j; exact (IH j false)). clear IH.
  destruct k as [|k].
  - replace (if keep then 0%nat else 0%nat) with 0%nat by (by destruct keep).
    destruct (byte_val a <? 128); [|destruct (invalid_front (String a s))].
    + rewrite slength_app. pose proof (IHt 0%nat). assert (1 <= String.length (esc_byte a))%nat; [|lia].
      unfold esc_byte. repeat case_match; rewrite ?slength_app; cbn [String.length]; lia.
    + rewrite slength_app. pose proof (IHt 0%nat). cbn [String.length]. lia.
    + destruct (DecodeRune (String a s)) as [r w] eqn:Ed. pose proof (DecodeRune_width a s) as Hw. rewrite Ed in Hw. cbn [snd] in Hw.
      assert (Hw4 : (w <= 4)%nat) by (revert Ed; clear; destruct s as [|b [|c [|d s]]]; simpl; repeat case_match; intros; simplify_eq; lia).
      destruct (r =? 8232); [|destruct (r =? 8233)]; rewrite ?slength_app; pose proof (IHf (w - 1)%nat); pose proof (IHt (w - 1)%nat);
        cbn [String.length]; lia.
  - destruct keep; pose proof (IHt k); pose proof (IHf k); cbn [String.length]; lia.
Qed.

(** ** Texts that read as a value

    [reads text v]: a parser that finds the text, then a comma, a closing
    bracket or the end, takes exactly the text for [v]. *)

Definition delimited (rest : string) : bool :=
  match rest with EmptyString => true | String c _ => (c ==? ","%char) || (c ==? "}"%char) || (c ==? "]"%char) end.
Definition reads (text : string) (v : json) : Prop :=
  forall fuel rest, (String.length text <= fuel)%nat -> delimited rest = true -> parse_value (S fuel) (text +:+ rest) = Some (v, rest).

Lemma reads_parse text v : reads text v -> parse text = Some v.
Proof.
  intros H. unfold parse. pose proof (H (String.length text) EmptyString) as Hp. rewrite sapp_nil_r in Hp.
  rewrite Hp by (done || lia). reflexivity.
Qed.

Lemma delimited_ws rest : delimited rest = true -> skip_ws rest = rest.
Proof.
  destruct rest as [|c rest]; [done|]. cbn [delimited skip_ws]. intros H.
  assert (is_ws c = false) as ->; [|done]. rewrite !orb_true_iff, !bool_decide_eq_true in H. by destruct H as [[-> | ->] | ->].
Qed.

Lemma reads_string s : reads (enc_string s) (JString (read_string s)).
Proof.
  intros fuel rest Hf _. unfold enc_string in *. rewrite sapp_cons, sapp_assoc. cbn [String.length] in Hf.
  rewrite slength_app in Hf. cbn [String.length] in Hf. pose proof (enc_chars_length s 0 true : (String.length s <= String.length (enc_chars 0 true s))%nat).
  change (parse_value (S fuel) (String quote (enc_chars 0 true s +:+ String quote "" +:+ rest))) with
    (match parse_chars fuel (enc_chars 0 true s +:+ String quote rest) with Some (x, r) => Some (JString x, r) | None => None end).
  rewrite (parse_enc_chars (S (String.length s))) by lia. done.
Qed.
Lemma reads_null : reads "null" JNull.
Proof. intros fuel rest _ _. destruct rest; reflexivity. Qed.
Lemma reads_true : reads "true" (JBool true).
Proof. intros fuel rest _ _. destruct rest; reflexivity. Qed.
Lemma reads_false : reads "false" (JBool false).
Proof. intros fuel rest _ _. destruct rest; reflexivity. Qed.

(** ** Numbers *)

Lemma delimited_cases rest : delimited rest = true ->
  rest = EmptyString \/ exists r, rest = String ","%char r \/ rest = String "}"%char r \/ rest = String "]"%char r.
Proof.
  destruct rest as [|c r]; [by left|]. cbn [delimited]. rewrite !orb_true_iff, !bool_decide_eq_true. intros [[-> | ->] | ->]; right; eauto.
Qed.

Lemma span_split p s x r : span p s = (x, r) -> s = x +:+ r.
Proof.
  revert x r. induction s as [|a s IH]; intros x r H; cbn [span] in H; [by simplify_eq|].
  destruct (p a); [|by simplify_eq]. destruct (span p s) as [y t]. simplify_eq. rewrite sapp_cons. by f_equal; apply IH.
Qed.
Lemma span_digits_app s rest x r : delimited rest = true -> span is_digit s = (x, r) -> span is_digit (s +:+ rest) = (x, r +:+ rest).
Proof.
  intros Hd. revert x r. induction s as [|a s IH]; intros x r H; cbn [span] in H.
  - simplify_eq. rewrite !sapp_nil. destruct (delimited_cases _ Hd) as [->|(t & [-> | [-> | ->]])]; reflexivity.
  - rewrite sapp_cons. cbn [span]. destruct (is_digit a) eqn:Ea; [|by simplify_eq].
    destruct (span is_digit s) as [y t]. simplify_eq. by rewrite (IH _ _ eq_refl).
Qed.

Definition after_exponent (pre : string) (e : ascii) (r3 : string) : option (string * string) :=
  let '(sg, r4) := match r3 with String "+" r' => ("+", r') | String "-" r' => ("-", r') | _ => (EmptyString, r3) end in
  let '(d, r5) := span is_digit r4 in
  if d ==? EmptyString then None else Some (pre +:+ String e (sg +:+ d), r5).
Definition after_fraction (pre s3 : string) : option (string * string) :=
  match s3 with
  | String e r3 => if (e ==? "e"%char) || (e ==? "E"%char) then after_exponent pre e r3 else Some (pre, s3)
  | EmptyString => Some (pre, s3)
  end.
Definition after_integer (pre s2 : string) : option (string * string) :=
  match s2 with
  | String "." r2 => let '(d, r3) := span is_digit r2 in if d ==? EmptyString then None else after_fraction (pre +:+ "." +:+ d) r3
  | _ => after_fraction pre s2
  end.

Definition number_sign (s : string) : string * string := match s with String "-" r => ("-", r) | _ => (EmptyString, s) end.
Definition integer_part (s1 : string) : option (string * string) :=
  match s1 with
  | EmptyString => None
  | String a r => if a ==? "0"%char then Some ("0", r) else if is_digit a then Some (span is_digit s1) else None
  end.
Lemma parse_number_eq s : parse_number s =
  let '(sign, s1) := number_sign s in
  match integer_part s1 with Some (i, s2) => after_integer (sign +:+ i) s2 | None => None end.
Proof.
  unfold parse_number, number_sign. destruct (match s with String "-" r => ("-", r) | _ => (EmptyString, s) end) as [sign s1].
  destruct s1 as [|a r]; [done|]. unfold integer_part.
  destruct (if a ==? "0"%char then Some ("0", r) else if is_digit a then Some (span is_digit (String a r)) else None) as [[i s2]|]; [|done].
  unfold after_integer.
  assert (Hf : forall fr s3, match s3 with
     | String e r3 => if (e ==? "e"%char) || (e ==? "E"%char) then
         let '(sg, r4) := match r3 with String "+" r' => ("+", r') | String "-" r' => ("-", r') | _ => (EmptyString, r3) end in
         let '(d, r5) := span is_digit r4 in
         if d ==? EmptyString then None else Some (sign +:+ i +:+ fr +:+ String e (sg +:+ d), r5)
         else Some (sign +:+ i +:+ fr, s3)
     | EmptyString => Some (sign +:+ i +:+ fr, s3) end = after_fraction ((sign +:+ i) +:+ fr) s3).
  { intros fr s3. unfold after_fraction, after_exponent. destruct s3 as [|e r3]; [by rewrite sapp_assoc|].
    destruct ((e ==? "e"%char) || (e ==? "E"%char)); [|by rewrite sapp_assoc].
    destruct (match r3 with String "+" r' => ("+", r') | String "-" r' => ("-", r') | _ => (EmptyString, r3) end) as [sg r4].
    destruct (span is_digit r4) as [d r5]. destruct (d ==? ""); [done|]. by rewrite !sapp_assoc. }
  assert (H0 : forall s3, after_fraction ((sign +:+ i) +:+ EmptyString) s3 = after_fraction (sign +:+ i) s3) by (intros; by rewrite sapp_nil_r).
  destruct s2 as [|c r2]; [rewrite <-H0, <-Hf; done|].
  destruct (decide (c = "."%char)) as [->|Hc].
  - destruct (span is_digit r2) as [d r3]. destruct (d ==? ""); [done|]. rewrite <-Hf. done.
  - destruct c as [[] [] [] [] [] [] [] []]; try (by destruct Hc); (etransitivity; [|apply H0]; rewrite <-Hf; reflexivity).
Qed.

Lemma after_exponent_app pre e r3 l rest :
  delimited rest = true -> after_exponent pre e r3 = Some (l, EmptyString) ->
  after_exponent pre e (r3 +:+ rest) = Some (l, rest) /\ pre +:+ String e r3 = l.
Proof.
  intros Hd. unfold after_exponent.
  assert (Hs : exists sg r4, r3 = sg +:+ r4 /\
    (match r3 with String "+" r' => ("+", r') | String "-" r' => ("-", r') | _ => (EmptyString, r3) end) = (sg, r4) /\
    (match r3 +:+ rest with String "+" r' => ("+", r') | String "-" r' => ("-", r') | _ => (EmptyString, r3 +:+ rest) end) = (sg, r4 +:+ rest)).
  { destruct r3 as [|c r3].
    - exists "", "". destruct (delimited_cases _ Hd) as [->|(t & [-> | [-> | ->]])]; done.
    - destruct (decide (c = "+"%char)) as [->|H1]; [by exists "+", r3|]. destruct (decide (c = "-"%char)) as [->|H2]; [by exists "-", r3|].
      exists "", (String c r3). destruct c as [[] [] [] [] [] [] [] []]; try (by destruct H1); try (by destruct H2); done. }
  destruct Hs as (sg & r4 & -> & -> & ->). destruct (span is_digit r4) as [d r5] eqn:E.
  intros H. destruct (d ==? "") eqn:Ed; [discriminate|]. simplify_eq. rewrite (span_digits_app _ _ _ _ Hd E), Ed. split; [done|].
  apply span_split in E. rewrite sapp_nil_r in E. by subst.
Qed.
Lemma after_fraction_app pre s3 l rest :
  delimited rest = true -> after_fraction pre s3 = Some (l, EmptyString) ->
  after_fraction pre (s3 +:+ rest) = Some (l, rest) /\ pre +:+ s3 = l.
Proof.
  intros Hd. destruct s3 as [|e r3]; cbn [after_fraction]; intros H.
  - simplify_eq. rewrite sapp_nil, sapp_nil_r. split; [|done]. destruct (delimited_cases _ Hd) as [->|(t & [-> | [-> | ->]])]; done.
  - rewrite sapp_cons. destruct ((e ==? "e"%char) || (e ==? "E"%char)) eqn:E; [|discriminate].
    cbn [after_fraction]. rewrite E. by apply after_exponent_app.
Qed.
Lemma after_integer_app pre s2 l rest :
  delimited rest = true -> after_integer pre s2 = Some (l, EmptyString) ->
  after_integer pre (s2 +:+ rest) = Some (l, rest) /\ pre +:+ s2 = l.
Proof.
  intros Hd. destruct s2 as [|c r2].
  - intros H. destruct (after_fraction_app pre "" l rest Hd H) as [H1 H2]. split; [|done].
    rewrite sapp_nil in *. destruct (delimited_cases _ Hd) as [->|(t & [-> | [-> | ->]])]; exact H1.
  - destruct (decide (c = "."%char)) as [->|Hc].
    + cbn [after_integer]. rewrite sapp_cons. cbn [after_integer]. destruct (span is_digit r2) as [d r3] eqn:E.
      rewrite (span_digits_app _ _ _ _ Hd E). destruct (d ==? ""); [discriminate|]. intros H.
      destruct (after_fraction_app _ _ _ _ Hd H) as [H1 H2]. split; [done|]. apply span_split in E. subst r2.
      rewrite <-H2, !sapp_assoc. done.
    + intros H. assert (H' : after_fraction pre (String c r2) = Some (l, ""))
        by (revert H; destruct c as [[] [] [] [] [] [] [] []]; try (by destruct Hc); done).
      destruct (after_fraction_app _ _ _ _ Hd H') as [H1 H2]. split; [|done]. rewrite <-H1, sapp_cons.
      destruct c as [[] [] [] [] [] [] [] []]; try (by destruct Hc); done.
Qed.

(** A number literal is read back as written. *)
Lemma parse_number_app lit l rest :
  delimited rest = true -> parse_number lit = Some (l, EmptyString) -> parse_number (lit +:+ rest) = Some (lit, rest) /\ l = lit.
Proof.
  intros Hd. rewrite !parse_number_eq.
  assert (Hs : lit <> "" -> exists sg s1, number_sign lit = (sg, s1) /\ number_sign (lit +:+ rest) = (sg, s1 +:+ rest) /\ lit = sg +:+ s1).
  { destruct lit as [|c r]; [done|]. intros _. destruct (decide (c = "-"%char)) as [->|Hc]; [by exists "-", r|].
    exists "", (String c r). destruct c as [[] [] [] [] [] [] [] []]; try (by destruct Hc); done. }
  destruct (decide (lit = "")) as [->|Hl]; [done|]. destruct (Hs Hl) as (sg & s1 & -> & -> & ->).
  destruct s1 as [|a r]; [done|]. rewrite (sapp_cons a r rest). cbn [integer_part].
  destruct (a ==? "0"%char) eqn:E0.
  - apply bool_decide_eq_true in E0 as ->. intros H. destruct (after_integer_app _ _ _ _ Hd H) as [H1 H2].
    rewrite H1. subst l. rewrite !sapp_assoc. done.
  - destruct (is_digit a) eqn:Ea; [|done]. change (String a (r +:+ rest)) with (String a r +:+ rest).
    destruct (span is_digit (String a r)) as [i s2] eqn:E. rewrite (span_digits_app _ _ _ _ Hd E). intros H.
    destruct (after_integer_app _ _ _ _ Hd H) as [H1 H2]. rewrite H1. subst l. apply span_split in E. rewrite E, !sapp_assoc. done.
Qed.

Lemma parse_value_number fuel a s :
  is_digit a || (a ==? "-"%char) = true ->
  parse_value (S fuel) (String a s) = match parse_number (String a s) with Some (l, r) => Some (JNumber l, r) | None => None end.
Proof.
  intros Ha. destruct a as [[] [] [] [] [] [] [] []]; try (vm_compute in Ha; discriminate Ha); clear Ha; reflexivity.
Qed.
Lemma parse_number_head lit l r : parse_number lit = Some (l, r) -> exists a s, lit = String a s /\ is_digit a || (a ==? "-"%char) = true.
Proof.
  rewrite parse_number_eq. destruct lit as [|a s]; [done|]. intros H. exists a, s. split; [done|].
  destruct (decide (a = "-"%char)) as [->|Hc]; [done|].
  assert (Hn : number_sign (String a s) = ("", String a s)) by (destruct a as [[] [] [] [] [] [] [] []]; try (by destruct Hc); done).
  rewrite Hn in H. cbn [integer_part] in H. destruct (a ==? "0"%char) eqn:E; [by apply bool_decide_eq_true in E as ->|].
  by destruct (is_digit a).
Qed.
Lemma reads_number lit l : parse_number lit = Some (l, EmptyString) -> reads lit (JNumber lit).
Proof.
  intros H fuel rest _ Hd. destruct (parse_number_head _ _ _ H) as (a & s & -> & Ha).
  rewrite sapp_cons, (parse_value_number fuel a _ Ha), <-sapp_cons. by destruct (parse_number_app _ _ _ Hd H) as [-> _].
Qed.

(** Integers. *)
Lemma digit_chr d : 0 <= d < 10 -> is_digit (byte_chr (48 + d)) = true /\ byte_val (byte_chr (48 + d)) = 48 + d.
Proof.
  intros H. assert (E : byte_val (byte_chr (48 + d)) = 48 + d).
  { unfold byte_val, byte_chr. rewrite N_ascii_embedding by lia. lia. }
  split; [|done]. unfold is_digit, between. rewrite E. lia.
Qed.
Lemma digit_byte d : 0 <= d < 10 -> is_digit (byte_chr (48 + d)) = true.
Proof. intros H. apply (digit_chr d H). Qed.

Lemma dec_aux_digits : forall f n acc, 0 < n < 10 ^ Z.of_nat f ->
  exists d ds, dec_aux f n acc = String d ds +:+ acc /\ is_digit d = true /\ d <> "0"%char /\ sall is_digit ds = true.
Proof.
  induction f as [|f IH]; intros n acc H; [cbn in H; lia|]. cbn [dec_aux].
  pose proof (Z.mod_pos_bound n 10 ltac:(lia)) as Hm. destruct (n <? 10) eqn:E.
  - rewrite Z.mod_small by lia. destruct (digit_chr n ltac:(lia)) as [Hd Hv].
    exists (byte_chr (48 + n)), EmptyString. repeat split; try done. intros Hc. rewrite Hc in Hv. change (byte_val "0"%char) with 48 in Hv. lia.
  - assert (Hdiv : 0 < n / 10 < 10 ^ Z.of_nat f).
    { rewrite Nat2Z.inj_succ, Z.pow_succ_r in H by lia. split; [apply Z.div_str_pos; lia|apply Z.div_lt_upper_bound; lia]. }
    destruct (IH (n / 10) (String (byte_chr (48 + n mod 10)) acc) Hdiv) as (d & ds & -> & Hd & H0 & Hs).
    exists d, (ds +:+ String (byte_chr (48 + n mod 10)) EmptyString). split; [by rewrite !sapp_cons, !sapp_assoc|].
    split; [done|]. split; [done|]. clear -Hs Hm. induction ds as [|c ds IHd]; cbn [sall] in *.
    + rewrite sapp_nil. cbn [sall]. by rewrite digit_byte.
    + rewrite sapp_cons. cbn [sall]. apply andb_true_iff in Hs as [-> Hs]. by apply IHd.
Qed.
Lemma span_all p s : sall p s = true -> span p s = (s, EmptyString).
Proof.
  induction s as [|a s IH]; [done|]. cbn [sall span]. intros H. apply andb_true_iff in H as [-> H]. by rewrite IH.
Qed.
Lemma parse_digits d ds : is_digit d = true -> d <> "0"%char -> sall is_digit ds = true ->
  integer_part (String d ds) = Some (String d ds, EmptyString).
Proof.
  intros Hd H0 Hs. cbn [integer_part]. rewrite bool_decide_false by done. rewrite Hd.
  rewrite span_all; [done|]. cbn [sall]. by rewrite Hd, Hs.
Qed.
Lemma parse_enc_int n : Z.abs n < 10 ^ 25 -> parse_number (enc_int n) = Some (enc_int n, EmptyString).
Proof.
  intros H. rewrite parse_number_eq. unfold enc_int. destruct (n <? 0) eqn:E.
  - destruct (dec_aux_digits 25 (- n) EmptyString ltac:(change (Z.of_nat 25) with 25; lia)) as (d & ds & -> & Hd & H0 & Hs).
    rewrite sapp_nil_r. change ("-" +:+ String d ds) with (String "-" (String d ds)).
    change (number_sign (String "-" (String d ds))) with ("-", String d ds). cbv beta iota. by rewrite parse_digits.
  - destruct (decide (n = 0)) as [->|Hn]; [reflexivity|].
    destruct (dec_aux_digits 25 n EmptyString ltac:(change (Z.of_nat 25) with 25; lia)) as (d & ds & -> & Hd & H0 & Hs).
    rewrite sapp_nil_r.
    assert (Hm : number_sign (String d ds) = ("", String d ds))
      by (clear -Hd; destruct d as [[] [] [] [] [] [] [] []]; try (vm_compute in Hd; discriminate Hd); done).
    rewrite Hm. cbv beta iota. by rewrite parse_digits.
Qed.
Lemma reads_int n : Z.abs n < 10 ^ 25 -> reads (enc_int n) (JNumber (enc_int n)).
Proof. intros H. eapply reads_number. by apply parse_enc_int. Qed.

(** ** Arrays and objects *)

Definition array_items (f : nat) : nat -> string -> list json -> option (json * string) :=
  fix items (n : nat) (s : string) (acc : list json) : option (json * string) :=
    match n with
    | O => None
    | S n' =>
        match parse_value f s with
        | Some (v, r) =>
            match skip_ws r with
            | String "," r' => items n' r' (acc ++ [v])
            | String "]" r' => Some (JArray (acc ++ [v]), r')
            | _ => None
            end
        | None => None
        end
    end.
Lemma parse_array f s1 : parse_value (S f) (String "[" s1) =
  match skip_ws s1 with String "]" r => Some (JArray [], r) | _ => array_items f f s1 [] end.
Proof. reflexivity. Qed.
Definition object_members (f : nat) : nat -> string -> list (string * json) -> option (json * string) :=
  fix members (n : nat) (s : string) (acc : list (string * json)) : option (json * string) :=
    match n with
    | O => None
    | S n' =>
        match skip_ws s with
        | String q r =>
            if q ==? quote then
              match parse_chars f r with
              | Some (k, r1) =>
                  match skip_ws r1 with
                  | String ":" r2 =>
                      match parse_value f r2 with
                      | Some (v, r3) =>
                          match skip_ws r3 with
                          | String "," r4 => members n' r4 (acc ++ [(k, v)])
                          | String "}" r4 => Some (JObject (acc ++ [(k, v)]), r4)
                          | _ => None
                          end
                      | None => None
                      end
                  | _ => None
                  end
              | None => None
              end
            else None
        | EmptyString => None
        end
    end.
Lemma parse_object f s1 : parse_value (S f) (String "{" s1) =
  match skip_ws s1 with String "}" r => Some (JObject [], r) | _ => object_members f f s1 [] end.
Proof. reflexivity. Qed.

(** What follows a value in a list of values. *)
Lemma reads_at text v f rest :
  reads text v -> (String.length text < f)%nat -> delimited rest = true -> parse_value f (text +:+ rest) = Some (v, rest).
Proof. intros H Hf Hd. destruct f as [|f]; [lia|]. apply H; [lia|done]. Qed.

Lemma array_items_reads f texts vs : Forall2 reads texts vs -> texts <> [] -> Forall (fun t => (String.length t < f)%nat) texts ->
  forall n acc rest, (length texts <= n)%nat ->
  array_items f n (join "," texts +:+ "]" +:+ rest) acc = Some (JArray (acc ++ vs), rest).
Proof.
  induction 1 as [|t v texts vs Ht Hts IH]; [done|]. intros _ Hf n acc rest Hn.
  apply Forall_cons in Hf as [Hf Hfs]. destruct n as [|n]; cbn [length] in Hn; [lia|].
  destruct Hts as [|t2 v2 texts' vs' Ht2 Hts].
  - cbn [join array_items]. rewrite (reads_at t v f) by done. reflexivity.
  - change (join "," (t :: t2 :: texts')) with (t +:+ "," +:+ join "," (t2 :: texts')). rewrite !sapp_assoc. cbn [array_items].
    rewrite (reads_at t v f) by done. change ("," +:+ join "," (t2 :: texts') +:+ "]" +:+ rest) with (String "," (join "," (t2 :: texts') +:+ "]" +:+ rest)).
    change (skip_ws (String "," (join "," (t2 :: texts') +:+ "]" +:+ rest))) with (String "," (join "," (t2 :: texts') +:+ "]" +:+ rest)).
    cbv beta iota. pose proof (IH ltac:(done) Hfs n (acc ++ [v]) rest ltac:(cbn [length] in *; lia)) as H.
    etransitivity; [exact H|]. by rewrite <-app_assoc.
Qed.

(** A text that starts with a closing bracket is no value. *)
Lemma reads_not_close text v rest r : reads text v -> delimited rest = true -> skip_ws (text +:+ rest) <> String "]" r.
Proof.
  intros H Hd E. pose proof (H (String.length text) rest ltac:(done) Hd) as Hp. cbn [parse_value] in Hp. rewrite E in Hp.
  vm_compute in Hp. discriminate Hp.
Qed.

Lemma join_length texts : (fold_right (fun t n => String.length t + n) 0 texts + (length texts - 1) <= String.length (join "," texts))%nat.
Proof.
  induction texts as [|t [|t2 texts] IH]; cbn [fold_right length join] in *; [lia..|]. rewrite !slength_app. cbn [String.length] in *. lia.
Qed.
Lemma join_member texts : Forall (fun t => (String.length t <= String.length (join "," texts))%nat) texts.
Proof.
  induction texts as [|t [|t2 texts] IH]; [done|by repeat constructor|]. apply Forall_cons.
  change (join "," (t :: t2 :: texts)) with (t +:+ "," +:+ join "," (t2 :: texts)). rewrite !slength_app. split; [lia|].
  eapply Forall_impl; [exact IH|]. cbn beta. intros x Hx. lia.
Qed.

Lemma reads_array texts vs : Forall2 reads texts vs -> reads ("[" +:+ join "," texts +:+ "]") (JArray vs).
Proof.
  intros H fuel rest Hf _. rewrite !sapp_assoc. change ("[" +:+ join "," texts +:+ "]" +:+ rest) with (String "[" (join "," texts +:+ "]" +:+ rest)).
  rewrite parse_array. rewrite !slength_app in Hf. cbn [String.length] in Hf.
  destruct H as [|t v texts vs Ht Hts]; [reflexivity|].
  pose proof (join_length (t :: texts)) as Hj. pose proof (join_member (t :: texts)) as Hm. cbn [length] in Hj.
  assert (Hi : array_items fuel fuel (join "," (t :: texts) +:+ "]" +:+ rest) [] = Some (JArray (v :: vs), rest)).
  { apply (array_items_reads fuel (t :: texts) (v :: vs)); [by constructor|done| |cbn [length]; lia].
    eapply Forall_impl; [exact Hm|]. cbn beta. intros x Hx. lia. }
  assert (Hc : forall r, skip_ws (join "," (t :: texts) +:+ "]" +:+ rest) <> String "]" r).
  { intros r. destruct texts as [|t2 texts]; [by apply (reads_not_close t v)|].
    change (join "," (t :: t2 :: texts)) with (t +:+ "," +:+ join "," (t2 :: texts)). rewrite !sapp_assoc. by apply (reads_not_close t v). }
  destruct (skip_ws (join "," (t :: texts) +:+ "]" +:+ rest)) as [|c r]; [done|].
  destruct (decide (c = "]"%char)) as [->|Hne]; [by destruct (Hc r)|].
  destruct c as [[] [] [] [] [] [] [] []]; try (by destruct Hne); exact Hi.
Qed.

(** One member of an object: an encoded name, a colon and the text of a value. *)
Definition member_text (kt : string * string) : string := enc_string kt.1 +:+ ":" +:+ kt.2.
Definition reads_member (kt : string * string) (kv : string * json) : Prop := kv.1 = read_string kt.1 /\ reads kt.2 kv.2.

Lemma parse_enc_key f k rest : (String.length k < f)%nat ->
  parse_chars f (enc_chars 0 true k +:+ String quote rest) = Some (read_string k, rest).
Proof. intros H. by apply (parse_enc_chars (S (String.length k))); [lia|]. Qed.

Lemma object_members_reads f kts kvs : Forall2 reads_member kts kvs -> kts <> [] ->
  Forall (fun kt => (String.length (member_text kt) < f)%nat) kts ->
  forall n acc rest, (length kts <= n)%nat ->
  object_members f n (join "," (map member_text kts) +:+ "}" +:+ rest) acc = Some (JObject (acc ++ kvs), rest).
Proof.
  induction 1 as [|[k t] [k' v] kts kvs [Hk Ht] Hts IH]; [done|]. intros _ Hf n acc rest Hn. cbn [fst snd] in *. subst k'.
  apply Forall_cons in Hf as [Hf Hfs]. destruct n as [|n]; cbn [length] in Hn; [lia|].
  unfold member_text in Hf. cbn [fst snd] in Hf. rewrite !slength_app in Hf. unfold enc_string in Hf. cbn [String.length] in Hf.
  rewrite slength_app in Hf. pose proof (enc_chars_length k 0 true : (String.length k <= String.length (enc_chars 0 true k))%nat) as Hl.
  assert (Hstep : forall tl more, delimited tl = true ->
    match skip_ws tl with
    | String "," r4 => object_members f n r4 (acc ++ [(read_string k, v)])
    | String "}" r4 => Some (JObject (acc ++ [(read_string k, v)]), r4)
    | _ => None
    end = more ->
    object_members f (S n) (member_text (k, t) +:+ tl) acc = more).
  { intros tl more Hd <-. unfold member_text, enc_string. cbn [fst snd]. autorewrite with sapp.
    change (object_members f (S n) (String quote (enc_chars 0 true k +:+ String quote (String ":" (t +:+ tl)))) acc) with
      (match parse_chars f (enc_chars 0 true k +:+ String quote (String ":" (t +:+ tl))) with
       | Some (k, r1) =>
          match skip_ws r1 with
          | String ":" r2 =>
              match parse_value f r2 with
              | Some (v, r3) =>
                  match skip_ws r3 with
                  | String "," r4 => object_members f n r4 (acc ++ [(k, v)])
                  | String "}" r4 => Some (JObject (acc ++ [(k, v)]), r4)
                  | _ => None
                  end
              | None => None
              end
          | _ => None
          end
       | None => None
       end).
    rewrite parse_enc_key by lia. change (skip_ws (String ":" (t +:+ tl))) with (String ":" (t +:+ tl)). cbv beta iota.
    rewrite (reads_at t v f) by (done || lia). done. }
  destruct Hts as [|[k2 t2] kv2 kts' kvs' Ht2 Hts].
  - cbn [map join]. apply Hstep; reflexivity.
  - cbn [map]. change (join "," (member_text (k, t) :: member_text (k2, t2) :: map member_text kts')) with
      (member_text (k, t) +:+ "," +:+ join "," (map member_text ((k2, t2) :: kts'))). rewrite !sapp_assoc.
    apply Hstep; [reflexivity|].
    change ("," +:+ join "," (map member_text ((k2, t2) :: kts')) +:+ "}" +:+ rest) with
      (String "," (join "," (map member_text ((k2, t2) :: kts')) +:+ "}" +:+ rest)).
    change (skip_ws (String "," (join "," (map member_text ((k2, t2) :: kts')) +:+ "}" +:+ rest))) with
      (String "," (join "," (map member_text ((k2, t2) :: kts')) +:+ "}" +:+ rest)). cbv beta iota.
    rewrite IH by (done || (cbn [length] in *; lia)). by rewrite <-app_assoc.
Qed.

Lemma reads_object kts kvs : Forall2 reads_member kts kvs -> reads ("{" +:+ join "," (map member_text kts) +:+ "}") (JObject kvs).
Proof.
  intros H fuel rest Hf _. rewrite !sapp_assoc.
  change ("{" +:+ join "," (map member_text kts) +:+ "}" +:+ rest) with (String "{" (join "," (map member_text kts) +:+ "}" +:+ rest)).
  rewrite parse_object. rewrite !slength_app in Hf. cbn [String.length] in Hf.
  destruct H as [|kt kv kts kvs Ht Hts]; [reflexivity|].
  pose proof (join_length (map member_text (kt :: kts))) as Hj. pose proof (join_member (map member_text (kt :: kts))) as Hm.
  rewrite length_map in Hj. cbn [length] in Hj.
  assert (Hi : object_members fuel fuel (join "," (map member_text (kt :: kts)) +:+ "}" +:+ rest) [] = Some (JObject (kv :: kvs), rest)).
  { apply (object_members_reads fuel (kt :: kts) (kv :: kvs)); [by constructor|done| |cbn [length]; lia].
    rewrite Forall_map in Hm. eapply Forall_impl; [exact Hm|]. cbn beta. intros x Hx. lia. }
  rewrite <-Hi.
  assert (Hq : exists s, join "," (map member_text (kt :: kts)) +:+ "}" +:+ rest = String quote s).
  { destruct kt as [k t]. destruct kts as [|kt2 kts]; cbn [map join]; unfold member_text at 1, enc_string; cbn [fst snd];
      rewrite !sapp_cons; eexists; reflexivity. }
  destruct Hq as (s & ->). reflexivity.
Qed.

(** The encoding of a structure. *)
Lemma enc_struct_members fields :
  enc_struct fields = "{" +:+ join "," (map member_text (omap (fun f => f) fields)) +:+ "}".
Proof.
  unfold enc_struct. do 3 f_equal. unfold omap. induction fields as [|[[k v]|] fields IH]; [done| |exact IH].
  cbn [list_omap map]. by rewrite IH.
Qed.

(** ** Calendar *)

(** The position of a day in its cycle of 400 years: year of the cycle, month
    and day are in range. *)
Definition cycle_day (doe : Z) : Z * Z * Z * Z :=
  let yoe := (doe - doe / 1460 + doe / 36524 - doe / 146096) / 365 in
  let doy := doe - (365 * yoe + yoe / 4 - yoe / 100) in
  let mp := (5 * doy + 2) / 153 in
  (yoe, doy, mp, doy - (153 * mp + 2) / 5 + 1).
Definition month_of (mp : Z) : Z := if mp <? 10 then mp + 3 else mp - 9.
Definition cycle_ok (doe : Z) : bool :=
  let '(yoe, doy, mp, d) := cycle_day doe in
  let m := month_of mp in
  (0 <=? yoe) && (yoe <? 400) && (0 <=? mp) && (mp <? 12) && (1 <=? d) &&
  (d <=? days_in (yoe + (if m <=? 2 then 1 else 0)) m).
Fixpoint cycle_check (n : nat) (doe : Z) : bool :=
  match n with O => true | S k => cycle_ok doe && cycle_check k (doe + 1) end.
Lemma cycle_checked : cycle_check (Z.to_nat 146097) 0 = true.
Proof. vm_compute. reflexivity. Qed.
Lemma cycle_check_all n doe x : cycle_check n doe = true -> doe <= x < doe + Z.of_nat n -> cycle_ok x = true.
Proof.
  revert doe. induction n as [|n IH]; intros doe H Hx; [lia|]. cbn [cycle_check] in H. apply andb_true_iff in H as [H1 H2].
  destruct (decide (x = doe)) as [->|Hne]; [done|]. apply (IH (doe + 1)); [done|lia].
Qed.
Lemma cycle_range doe : 0 <= doe < 146097 -> cycle_ok doe = true.
Proof. intros H. apply (cycle_check_all _ _ _ cycle_checked). rewrite Z2Nat.id; lia. Qed.

Lemma days_in_shift y m k : days_in (y + 400 * k) m = days_in y m.
Proof.
  unfold days_in, leap. replace (y + 400 * k) with (y + (100 * k) * 4) at 1 by lia. rewrite Z.mod_add by lia.
  replace (y + 400 * k) with (y + (4 * k) * 100) at 1 by lia. rewrite Z.mod_add by lia.
  replace (y + 400 * k) with (y + k * 400) by lia. by rewrite Z.mod_add by lia.
Qed.

(** The date of a day is a date, and it is that day's. *)
Lemma civil_days days : let '(y, m, d) := civil days in
  1 <= m <= 12 /\ 1 <= d <= days_in y m /\ days_from_civil y m d = days.
Proof.
  unfold civil. set (z := days + 306). set (era := z / 146097). set (doe := z mod 146097).
  pose proof (Z.mod_pos_bound z 146097 ltac:(lia)) as Hdoe. fold doe in Hdoe.
  pose proof (cycle_range doe Hdoe) as Hc. unfold cycle_ok, cycle_day in Hc.
  set (yoe := (doe - doe / 1460 + doe / 36524 - doe / 146096) / 365) in *.
  set (doy := doe - (365 * yoe + yoe / 4 - yoe / 100)) in *. set (mp := (5 * doy + 2) / 153) in *.
  fold (month_of mp). set (m := month_of mp) in *. set (d := doy - (153 * mp + 2) / 5 + 1) in *.
  rewrite !andb_true_iff in Hc. destruct Hc as [[[[[H1 H2] H3] H4] H5] H6].
  assert (Hm : 1 <= m <= 12 /\ (m + 9) mod 12 = mp).
  { unfold m, month_of. destruct (mp <? 10) eqn:E; (split; [lia|]); [|replace (mp - 9 + 9) with mp by lia; apply Z.mod_small; lia].
    replace (mp + 3 + 9) with (mp + 1 * 12) by lia. rewrite Z.mod_add by lia. apply Z.mod_small; lia. }
  destruct Hm as [Hm Hmp]. split; [done|]. split.
  - replace (yoe + era * 400 + (if m <=? 2 then 1 else 0)) with (yoe + (if m <=? 2 then 1 else 0) + 400 * era) by lia.
    rewrite days_in_shift. lia.
  - unfold days_from_civil. rewrite Hmp.
    replace (if m <=? 2 then yoe + era * 400 + (if m <=? 2 then 1 else 0) - 1 else yoe + era * 400 + (if m <=? 2 then 1 else 0))
      with (yoe + era * 400) by (destruct (m <=? 2); lia).
    rewrite Z.div_add, (Z.div_small yoe), Z.mod_add, (Z.mod_small yoe) by lia.
    assert (z = era * 146097 + doe) by (unfold era, doe; pose proof (Z.div_mod z 146097 ltac:(lia)); lia). unfold d, doy. lia.
Qed.

(** ** Digits *)

Lemma take_digits_app a b acc s : take_digits (a + b) acc s = (p ← take_digits a acc s; take_digits b (fst p) (snd p)).
Proof.
  revert acc s. induction a as [|a IH]; intros acc s; [done|]. cbn [take_digits Nat.add]. destruct s as [|c s]; [done|].
  destruct (digit_value c) as [d|]; [|done]. cbn. apply IH.
Qed.
Lemma digit_value_chr d : 0 <= d < 10 -> digit_value (byte_chr (48 + d)) = Some d.
Proof. intros H. destruct (digit_chr d H) as [Hd Hv]. unfold digit_value. rewrite Hd, Hv. f_equal. lia. Qed.
Lemma take_pad_dec w : forall n acc rest, 0 <= n < 10 ^ Z.of_nat w ->
  take_digits w acc (pad_dec w n +:+ rest) = Some (acc * 10 ^ Z.of_nat w + n, rest).
Proof.
  induction w as [|w IH]; intros n acc rest H; [cbn in *; do 2 f_equal; lia|].
  rewrite Nat2Z.inj_succ, Z.pow_succ_r in H by lia. pose proof (Z.mod_pos_bound n 10 ltac:(lia)) as Hm.
  assert (Hd : 0 <= n / 10 < 10 ^ Z.of_nat w) by (split; [apply Z.div_pos; lia|apply Z.div_lt_upper_bound; lia]).
  cbn [pad_dec]. autorewrite with sapp. replace (S w) with (w + 1)%nat at 1 by lia. rewrite take_digits_app, IH by done.
  cbn [mbind option_bind fst snd take_digits]. rewrite digit_value_chr by done. cbn [mbind option_bind].
  rewrite Nat2Z.inj_succ, Z.pow_succ_r by lia. pose proof (Z.div_mod n 10 ltac:(lia)). do 2 f_equal. lia.
Qed.
Lemma pad_dec_digits w n : sall is_digit (pad_dec w n) = true /\ String.length (pad_dec w n) = w.
Proof.
  revert n. induction w as [|w IH]; intros n; [done|]. cbn [pad_dec]. destruct (IH (n / 10)) as [H1 H2].
  pose proof (Z.mod_pos_bound n 10 ltac:(lia)) as Hm. rewrite slength_app, H2. split; [|cbn [String.length]; lia].
  clear -H1 Hm. induction (pad_dec w (n / 10)) as [|c s IH]; [cbn [String.app sall]; rewrite sapp_nil; cbn [sall]; by rewrite digit_byte|].
  rewrite sapp_cons. cbn [sall] in *. apply andb_true_iff in H1 as [-> H1]. by apply IH.
Qed.
Lemma fraction_snoc n s c : (String.length s < n)%nat ->
  fraction n (10 ^ (Z.of_nat n - 1)) (s +:+ String c EmptyString) =
  fraction n (10 ^ (Z.of_nat n - 1)) s + (byte_val c - 48) * 10 ^ (Z.of_nat n - 1 - Z.of_nat (String.length s)).
Proof.
  revert n. induction s as [|a s IH]; intros n H.
  - destruct n as [|n]; [cbn in H; lia|]. rewrite sapp_nil. cbn [fraction String.length]. rewrite Z.sub_0_r.
    destruct n as [|n]; cbn [fraction]; lia.
  - destruct n as [|n]; [cbn in H; lia|]. rewrite sapp_cons. cbn [fraction String.length] in *.
    assert (Hs : 10 ^ (Z.of_nat (S n) - 1) / 10 = 10 ^ (Z.of_nat n - 1)).
    { replace (Z.of_nat (S n) - 1) with (Z.succ (Z.of_nat n - 1)) by lia. rewrite Z.pow_succ_r by lia. rewrite Z.mul_comm. apply Z.div_mul. lia. }
    rewrite Hs, IH by lia. replace (Z.of_nat (S n) - 1 - Z.of_nat (S (String.length s))) with (Z.of_nat n - 1 - Z.of_nat (String.length s)) by lia. lia.
Qed.
Lemma fraction_pad_dec n w : forall x, (w <= n)%nat -> 0 <= x < 10 ^ Z.of_nat w ->
  fraction n (10 ^ (Z.of_nat n - 1)) (pad_dec w x) = x * 10 ^ (Z.of_nat n - Z.of_nat w).
Proof.
  induction w as [|w IH]; intros x Hw H; [cbn in H; replace x with 0 by lia; by destruct n|].
  rewrite Nat2Z.inj_succ, Z.pow_succ_r in H by lia. pose proof (Z.mod_pos_bound x 10 ltac:(lia)) as Hm.
  cbn [pad_dec]. destruct (pad_dec_digits w (x / 10)) as [_ Hl]. rewrite fraction_snoc by lia. rewrite Hl, IH; [|lia|].
  2: { split; [apply Z.div_pos; lia|apply Z.div_lt_upper_bound; lia]. }
  destruct (digit_chr (x mod 10) Hm) as [_ ->].
  replace (Z.of_nat n - Z.of_nat w) with (Z.succ (Z.of_nat n - Z.of_nat (S w))) by lia. rewrite Z.pow_succ_r by lia.
  replace (Z.of_nat n - 1 - Z.of_nat w) with (Z.of_nat n - Z.of_nat (S w)) by lia.
  pose proof (Z.div_mod x 10 ltac:(lia)). set (p := 10 ^ _). nia.
Qed.
Lemma trim_zeros_spec n : forall w x, (n < w)%nat -> 0 <= x < 10 ^ Z.of_nat w ->
  exists w' x', trim_zeros n w x = pad_dec w' x' /\ (1 <= w' <= w)%nat /\ 0 <= x' < 10 ^ Z.of_nat w' /\ x = x' * 10 ^ (Z.of_nat w - Z.of_nat w').
Proof.
  induction n as [|n IH]; intros w x Hw Hx; cbn [trim_zeros].
  - exists w, x. rewrite Z.sub_diag. repeat split; lia.
  - destruct (x mod 10 =? 0) eqn:E; [|exists w, x; rewrite Z.sub_diag; repeat split; lia].
    destruct w as [|w]; [lia|]. replace (S w - 1)%nat with w by lia. rewrite Nat2Z.inj_succ, Z.pow_succ_r in Hx by lia.
    destruct (IH w (x / 10)) as (w' & x' & -> & H1 & H2 & H3); [lia| |].
    { split; [apply Z.div_pos; lia|apply Z.div_lt_upper_bound; lia]. }
    exists w', x'. repeat split; try lia. pose proof (Z.div_mod x 10 ltac:(lia)).
    replace (Z.of_nat (S w) - Z.of_nat w') with (Z.succ (Z.of_nat w - Z.of_nat w')) by lia. rewrite Z.pow_succ_r by lia. lia.
Qed.

Lemma span_until p s c rest : sall p s = true -> p c = false -> span p (s +:+ String c rest) = (s, String c rest).
Proof.
  intros Hs Hc. induction s as [|a s IH]; [rewrite sapp_nil; cbn [span]; by rewrite Hc|].
  rewrite sapp_cons. cbn [sall span] in *. apply andb_true_iff in Hs as [-> Hs]. by rewrite IH.
Qed.

Definition fraction_text (ns : Z) : string := if ns =? 0 then EmptyString else "." +:+ trim_zeros 8 9 ns.
(** How the fraction and the zone are read. *)
Definition read_fraction (s : string) : Z * string :=
  match s with
  | String c s' =>
      if (c ==? "."%char) || (c ==? ","%char) then
        let '(digits, rest) := span is_digit s' in
        if digits ==? "" then (0, s) else (fraction 9 100000000 digits, rest)
      else (0, s)
  | EmptyString => (0, s)
  end.
Lemma read_fraction_text ns : 0 <= ns < ns_per_s -> read_fraction (fraction_text ns +:+ "Z") = (ns, "Z").
Proof.
  intros H. unfold fraction_text. destruct (ns =? 0) eqn:E; [replace ns with 0 by lia; reflexivity|].
  destruct (trim_zeros_spec 8 9 ns) as (w & x & -> & H1 & H2 & H3); [lia|unfold ns_per_s in H; lia|].
  autorewrite with sapp. change (read_fraction (String "." (pad_dec w x +:+ "Z"))) with
    (let '(digits, rest) := span is_digit (pad_dec w x +:+ "Z") in
     if digits ==? "" then (0, String "." (pad_dec w x +:+ "Z")) else (fraction 9 100000000 digits, rest)).
  destruct (pad_dec_digits w x) as [Hd Hl]. rewrite span_until by done.
  rewrite bool_decide_false by (intros Hc; rewrite Hc in Hl; cbn in Hl; lia).
  change 100000000 with (10 ^ (Z.of_nat 9 - 1)). rewrite fraction_pad_dec by (done || lia).
  f_equal. change (Z.of_nat 9) with 9 in *. lia.
Qed.

Lemma take_char_app c s : take_char c (String c EmptyString +:+ s) = Some s.
Proof. rewrite sapp_cons, sapp_nil. cbn [take_char]. by rewrite bool_decide_true. Qed.
Lemma parse_rfc3339_text y m d h mi sec ns :
  0 <= y <= 9999 -> 1 <= m <= 12 -> 1 <= d <= days_in y m -> 0 <= h < 24 -> 0 <= mi < 60 -> 0 <= sec < 60 -> 0 <= ns < ns_per_s ->
  parse_rfc3339 (pad_dec 4 y +:+ "-" +:+ pad_dec 2 m +:+ "-" +:+ pad_dec 2 d +:+ "T" +:+
    pad_dec 2 h +:+ ":" +:+ pad_dec 2 mi +:+ ":" +:+ pad_dec 2 sec +:+ fraction_text ns +:+ "Z") =
  Some ((days_from_civil y m d * 86400 + h * 3600 + mi * 60 + sec) * ns_per_s + ns).
Proof.
  intros Hy Hm Hd Hh Hmi Hs Hns. assert (Hd' : d <= 31) by (unfold days_in in Hd; repeat case_match; lia).
  unfold parse_rfc3339. rewrite (take_pad_dec 4) by (cbn; lia). cbn [mbind option_bind].
  repeat (rewrite take_char_app; cbn [mbind option_bind]; rewrite (take_pad_dec 2) by (cbn; lia); cbn [mbind option_bind]).
  rewrite !Z.mul_0_l, !Z.add_0_l. fold (read_fraction (fraction_text ns +:+ "Z")). rewrite read_fraction_text by done.
  cbn [mbind option_bind]. 
  replace ((1 <=? m) && (m <=? 12) && (1 <=? d) && (d <=? days_in y m) && (h <? 24) && (mi <? 60) && (sec <? 60)) with true by lia.
  rewrite !bool_decide_true by done. cbn [mbind option_bind]. by rewrite Z.sub_0_r.
Qed.

(** The text of an instant of the years 0 to 9999 is read as the instant. *)
Lemma parse_format_rfc3339 t : (let '(y, _, _) := civil (t / ns_per_s / 86400) in 0 <= y <= 9999) ->
  parse_rfc3339 (format_rfc3339 t) = Some t.
Proof.
  unfold format_rfc3339. pose proof (civil_days (t / ns_per_s / 86400)) as Hc.
  destruct (civil (t / ns_per_s / 86400)) as [[y m] d]. intros Hy. destruct Hc as (Hm & Hd & Hdays).
  set (secs := t / ns_per_s) in *. set (sod := secs mod 86400). fold (fraction_text (t mod ns_per_s)).
  assert (Hsod : 0 <= sod < 86400) by (apply Z.mod_pos_bound; lia).
  assert (Hns : 0 <= t mod ns_per_s < ns_per_s) by (apply Z.mod_pos_bound; done).
  assert (Hh : 0 <= sod / 3600 < 24) by (split; [apply Z.div_pos; lia|apply Z.div_lt_upper_bound; lia]).
  pose proof (Z.mod_pos_bound (sod / 60) 60 ltac:(lia)) as Hmi. pose proof (Z.mod_pos_bound sod 60 ltac:(lia)) as Hs.
  rewrite parse_rfc3339_text by done. f_equal. rewrite Hdays.
  assert (H1 : sod = sod / 3600 * 3600 + (sod / 60) mod 60 * 60 + sod mod 60).
  { pose proof (Z.div_mod sod 60 ltac:(lia)) as Ha. pose proof (Z.div_mod (sod / 60) 60 ltac:(lia)) as Hb.
    rewrite Z.div_div in Hb by lia. change (60 * 60) with 3600 in Hb. lia. }
  replace (secs / 86400 * 86400 + sod / 3600 * 3600 + (sod / 60) mod 60 * 60 + sod mod 60) with secs
    by (pose proof (Z.div_mod secs 86400 ltac:(lia)); unfold sod in *; lia).
  unfold secs. pose proof (Z.div_mod t ns_per_s ltac:(done)). lia.
Qed.

Lemma HasSuffix_app s u : HasSuffix (s +:+ u) u = true.
Proof.
  unfold HasSuffix, slen. rewrite slength_app. apply andb_true_iff. split; [apply Z.leb_le; lia|].
  replace (String.length s + String.length u - String.length u)%nat with (String.length s) by lia.
  rewrite sdrop_app by done. by apply bool_decide_eq_true.
Qed.
Lemma format_rfc3339_utc t : exists s, format_rfc3339 t = s +:+ "Z".
Proof. unfold format_rfc3339. destruct (civil _) as [[y m] d]. eexists. by rewrite <-!sapp_assoc. Qed.

(** ** Strings that come back unchanged *)

Lemma invalid_front_ascii a s : byte_val a <? 128 = true -> invalid_front (String a s) = false.
Proof. intros H. unfold invalid_front. by rewrite Z.leb_antisym, H. Qed.
Lemma read_string_ascii s : sall (fun c => byte_val c <? 128) s = true -> read_string s = s.
Proof.
  induction s as [|a s IH]; [done|]. cbn [sall]. intros H. apply andb_true_iff in H as [Ha Hs]. unfold read_string. cbn [read_chars].
  rewrite invalid_front_ascii by done. unfold DecodeRune. rewrite Ha. cbn [snd Nat.sub]. f_equal. by apply IH.
Qed.
Lemma sall_impl (p q : ascii -> bool) s : (forall c, p c = true -> q c = true) -> sall p s = true -> sall q s = true.
Proof. intros H. induction s as [|a s IH]; [done|]. cbn [sall]. intros Hs. apply andb_true_iff in Hs as [Ha Hs]. by rewrite H, IH. Qed.
Lemma digit_ascii c : is_digit c = true -> byte_val c <? 128 = true.
Proof. unfold is_digit, between. intros H. lia. Qed.
Lemma pad_dec_ascii w n : sall (fun c => byte_val c <? 128) (pad_dec w n) = true.
Proof. eapply sall_impl; [apply digit_ascii|]. apply pad_dec_digits. Qed.
Lemma trim_zeros_ascii n : forall w x, sall (fun c => byte_val c <? 128) (trim_zeros n w x) = true.
Proof. induction n as [|n IH]; intros w x; cbn [trim_zeros]; [apply pad_dec_ascii|]. destruct (_ =? 0); [apply IH|apply pad_dec_ascii]. Qed.
Lemma format_rfc3339_ascii t : sall (fun c => byte_val c <? 128) (format_rfc3339 t) = true.
Proof.
  unfold format_rfc3339. destruct (civil _) as [[y m] d]. rewrite !sall_app, !pad_dec_ascii.
  destruct (_ =? 0); rewrite ?sall_app, ?trim_zeros_ascii; reflexivity.
Qed.
Lemma reads_time t : reads (enc_time t) (JString (format_rfc3339 t)).
Proof. rewrite <-(read_string_ascii _ (format_rfc3339_ascii t)). apply reads_string. Qed.

(** Reading a string twice is reading it once. *)
Lemma read_string_replacement s : read_string (replacement +:+ s) = replacement +:+ read_string s.
Proof.
  unfold read_string, replacement. autorewrite with sapp. cbn [read_chars].
  assert (Hd : DecodeRune (String "239" (String "191" (String "189" s))) = (65533, 3%nat)) by reflexivity.
  unfold invalid_front. rewrite Hd. reflexivity.
Qed.
Lemma read_string_idem : forall n s, (String.length s < n)%nat -> read_string (read_string s) = read_string s.
Proof.
  induction n as [|n IH]; intros s Hn; [lia|]. destruct s as [|a s]; [done|]. cbn [String.length] in Hn.
  unfold read_string at 2 3. cbn [read_chars]. destruct (invalid_front (String a s)) eqn:Hi.
  { change (read_chars 0 s) with (read_string s). rewrite read_string_replacement, IH by lia. done. }
  pose proof (DecodeRune_width a s) as Hw. set (w := snd (DecodeRune (String a s))) in *.
  rewrite read_chars_keep by lia. set (sub := String.substring 0 (w - 1) s). set (tail := sdrop (w - 1) s).
  assert (Hs : s = sub +:+ tail) by apply substring_sdrop.
  assert (Hsub : String.length sub = (w - 1)%nat) by (apply substring_length; lia).
  assert (Hd : DecodeRune (String a sub) = DecodeRune (String a s)).
  { rewrite Hs. apply DecodeRune_prefix. rewrite <-Hs. fold w. lia. }
  assert (Hx : snd (DecodeRune (String a (sub +:+ read_string tail))) = w /\ invalid_front (String a (sub +:+ read_string tail)) = false).
  { destruct (byte_val a <? 128) eqn:Ha.
    - split; [|by apply invalid_front_ascii]. unfold w, DecodeRune. by rewrite !Ha.
    - assert (Hw1 : w <> 1%nat).
      { unfold invalid_front in Hi. fold w in Hi. rewrite Z.leb_antisym, Ha in Hi. cbn in Hi. by apply Nat.eqb_neq in Hi. }
      assert (E : DecodeRune (String a (sub +:+ read_string tail)) = DecodeRune (String a s)).
      { rewrite <-Hd. apply DecodeRune_extend. rewrite Hd. fold w. lia. }
      split; [unfold w; by rewrite E|]. unfold invalid_front. rewrite E. fold w. rewrite (proj2 (Nat.eqb_neq w 1)) by done. apply andb_false_r. }
  destruct Hx as [Hx1 Hx2]. unfold read_string at 1. cbn [read_chars]. rewrite Hx2, Hx1. f_equal.
  rewrite read_chars_keep by (rewrite slength_app; lia). rewrite (substring_app (w - 1)), (sdrop_app (w - 1)) by done. f_equal.
  apply IH. unfold tail. rewrite sdrop_length. lia.
Qed.
