(* ===== verification/AuditJournal.v ===== *)
(** * Audit log: the journal (package [internal/audit])

    journal.go, compaction.go and types.go.  The audit journal is a file of
    lines, each the JSON encoding of one record and a newline.  A journal begins
    with a header or with a sealed checkpoint, or consists of bare events, the
    format of an earlier version.  Recovery reads the file from its first byte,
    validates every record against the state built so far and drops a torn last
    line; the retention policy moves a watermark below which events are gone; a
    checkpoint rewrites the retained events between two boundary records, the
    second of which carries the digest of the lines before it.

    Files are bytes here: lines are decoded by the JSON parser of [GoJson] and
    the field rules of [encoding/json]. *)

From Stdlib Require Import Ascii.
From S2P Require Import Prelude GoText GoJson GoEncoding ActionAbi GoStrings.

(** ** Errors

    The message of an error, or the sentinel value callers test for. *)
Inductive auderr :=
| ErrAuditUnavailable            (* ErrUnavailable *)
| ErrInvalidEvent
| errRecordTooLarge
| errNoValidInitialLockMetadata
| ErrContext                     (* the context is cancelled or past its deadline *)
| ErrIO                          (* a system call failed *)
| PersistenceError (operation : string) (cause : auderr)
| AuditError (message : string).
#[export] Instance auderr_eq_dec : EqDecision auderr. Proof. solve_decision. Defined.
Abbreviation ares := (result auderr).

(** ** Data *)

Definition journalSchemaVersion : Z := 1.
Definition maximumRecordBytes : Z := 2097152.
Definition DefaultAuditLockTimeout : Z := 30 * ns_per_s.
Definition DefaultCompactionThreshold : Z := 67108864.

Record AuditOptions := mkAuditOptions { ao_MaxEvents : Z; ao_Retention : Z; ao_LockTimeout : Z; ao_CompactionThreshold : Z }.

Definition withAuditDefaults (o : AuditOptions) : ares AuditOptions :=
  reject (ao_MaxEvents o <? 0) || (ao_Retention o <? 0) || (ao_LockTimeout o <? 0) || (ao_CompactionThreshold o <? 0)
    with AuditError "invalid audit options: values must not be negative" ;;
  Ok (mkAuditOptions (ao_MaxEvents o) (ao_Retention o)
        (if ao_LockTimeout o =? 0 then DefaultAuditLockTimeout else ao_LockTimeout o)
        (if ao_CompactionThreshold o =? 0 then DefaultCompactionThreshold else ao_CompactionThreshold o)).

(** [Event]; the details are the value [encoding/json] encodes. *)
Record AuditEvent := mkAuditEvent {
  au_Sequence : Z; au_Timestamp : Z; au_Type : string; au_Actor : string; au_WorkspaceID : string; au_Outcome : string;
  au_Details : payload }.
#[export] Instance AuditEvent_eq_dec : EqDecision AuditEvent. Proof. solve_decision. Defined.
Definition zeroAuditEvent : AuditEvent := mkAuditEvent 0 0 "" "" "" "" None.

Record checkpointBoundary := mkCheckpoint {
  cb_Store : string; cb_Generation : Z; cb_LastSequence : Z; cb_PrunedThrough : Z; cb_EventCount : Z; cb_Digest : string }.
#[export] Instance checkpointBoundary_eq_dec : EqDecision checkpointBoundary. Proof. solve_decision. Defined.
Definition zeroCheckpoint : checkpointBoundary := mkCheckpoint "" 0 0 0 0 "".

Definition auditHeader : string := "header".
Definition auditEvent : string := "event".
Definition auditPrune : string := "prune".
Definition auditSnapshotBegin : string := "snapshot_begin".
Definition auditSnapshotEvent : string := "snapshot_event".
Definition auditSnapshotEnd : string := "snapshot_end".

Record auditRecord := mkAuditRecord {
  ar_SchemaVersion : Z; ar_Kind : string; ar_RecordedAt : Z; ar_StoreID : string; ar_Event : option AuditEvent;
  ar_PrunedThrough : Z; ar_Checkpoint : option checkpointBoundary }.
#[export] Instance auditRecord_eq_dec : EqDecision auditRecord. Proof. solve_decision. Defined.
Definition zeroAuditRecord : auditRecord := mkAuditRecord 0 "" 0 "" None 0 None.

Record storedEvent := mkStored { se_event : AuditEvent; se_recordedAt : Z }.
#[export] Instance storedEvent_eq_dec : EqDecision storedEvent. Proof. solve_decision. Defined.

Record auditState := mkAuditState {
  as_storeID : string; as_generation : Z; as_header : bool; as_compacted : bool; as_legacy : bool;
  as_lastSequence : Z; as_prunedThrough : Z; as_lastRecordedAt : Z; as_events : list storedEvent;
  as_hasObsoleteHistory : bool }.
Definition newAuditState (storeID : string) : auditState := mkAuditState storeID 0 false false false 0 0 0 [] false.

(** ** Encoding *)

Definition omit_zero (k : string) (z : Z) : option (string * string) := if z =? 0 then None else fld k (enc_int z).
Definition enc_audit_event (e : AuditEvent) : string :=
  enc_struct [fld "sequence" (enc_int (au_Sequence e)); fld "timestamp" (enc_time (au_Timestamp e));
    fld "type" (enc_string (au_Type e)); omit_str "actor" (au_Actor e); omit_str "workspace_id" (au_WorkspaceID e);
    omit_str "outcome" (au_Outcome e);
    match au_Details e with Some (_ :: _) => fld "details" (marshal_payload (au_Details e)) | _ => None end].
Definition enc_checkpoint (b : checkpointBoundary) : string :=
  enc_struct [fld "store_id" (enc_string (cb_Store b)); fld "generation" (enc_int (cb_Generation b));
    fld "last_sequence" (enc_int (cb_LastSequence b)); fld "pruned_through" (enc_int (cb_PrunedThrough b));
    fld "event_count" (enc_int (cb_EventCount b)); omit_str "digest" (cb_Digest b)].
Definition enc_audit_record (r : auditRecord) : string :=
  enc_struct [fld "schema_version" (enc_int (ar_SchemaVersion r)); fld "record_kind" (enc_string (ar_Kind r));
    fld "recorded_at" (enc_time (ar_RecordedAt r)); omit_str "store_id" (ar_StoreID r);
    omit_enc "event" enc_audit_event (ar_Event r); omit_zero "pruned_through" (ar_PrunedThrough r);
    omit_enc "checkpoint" enc_checkpoint (ar_Checkpoint r)].

(** [json.Marshal] refuses a number that is not a JSON number (a float without
    one, or a malformed [json.Number]) and a year outside [0, 9999]. *)
Definition number_literal (lit : string) : bool :=
  match parse_number lit with Some (_, rest) => rest ==? "" | None => false end.
Fixpoint encodable_json (v : json) : bool :=
  match v with
  | JNumber lit => number_literal lit
  | JArray l => forallb encodable_json l
  | JObject m => forallb (fun kv => encodable_json kv.2) m
  | _ => true
  end.
Definition marshalAuditEvent (e : AuditEvent) : option string :=
  if year_encodable (au_Timestamp e) && match au_Details e with Some m => encodable_json (JObject m) | None => true end
  then Some (enc_audit_event e) else None.

(** The line of a record, without its newline, which counts for the limit. *)
Definition marshalAuditRecord (r : auditRecord) : ares string :=
  reject negb (year_encodable (ar_RecordedAt r)) ||
         match ar_Event r with Some e => match marshalAuditEvent e with Some _ => false | None => true end | None => false end
    with AuditError "json" ;;
  let body := enc_audit_record r in
  reject maximumRecordBytes <? slen body + 1 with errRecordTooLarge ;;
  Ok body.

Definition eventsSemanticallyEqual (left right : AuditEvent) : bool :=
  match marshalAuditEvent left, marshalAuditEvent right with
  | Some l, Some r => l ==? r
  | _, _ => false
  end.

(** ** Decoding: [json.Unmarshal] into the structures above

    Members are assigned in the order of the text.  A name matches a field up to
    case folding; null leaves a field as it is and makes a pointer or map nil; a
    value of another type is an error; unknown names are skipped. *)

Definition fold_rune (r : Z) : Z :=
  if (65 <=? r) && (r <=? 90) then r + 32 else if r =? 383 then 115 else if r =? 8490 then 107 else r.
Definition names_field (key field : string) : bool := map fold_rune (runes key) ==? map fold_rune (runes field).

Fixpoint dec_digits (acc : Z) (s : string) : option Z :=
  match s with
  | EmptyString => Some acc
  | String c s' => if is_digit c then dec_digits (10 * acc + (byte_val c - 48)) s' else None
  end.
Definition dec_literal (lit : string) : option Z :=
  match lit with
  | EmptyString => None
  | String c rest => if c ==? "-"%char then (if rest ==? "" then None else Z.opp <$> dec_digits 0 rest) else dec_digits 0 lit
  end.
Definition dec_uint64 (v : json) (old : Z) : option Z :=
  match v with
  | JNull => Some old
  | JNumber lit => if HasPrefix lit "-" then None else n ← dec_literal lit; if n <=? u64_max then Some n else None
  | _ => None
  end.
Definition dec_int64 (v : json) (old : Z) : option Z :=
  match v with
  | JNull => Some old
  | JNumber lit => n ← dec_literal lit; if (- int64_max - 1 <=? n) && (n <=? int64_max) then Some n else None
  | _ => None
  end.
Definition dec_string (v : json) (old : string) : option string :=
  match v with JNull => Some old | JString s => Some s | _ => None end.

(** [time.Time.UnmarshalJSON] accepts RFC 3339 only: a point before the
    fraction, and an offset below 24:00. *)
Definition strict_offset (s : string) : bool :=
  HasSuffix s "Z" ||
  match sdrop (String.length s - 6) s with
  | String c rest =>
      if (c ==? "+"%char) || (c ==? "-"%char) then
        match take_digits 2 0 rest with
        | Some (oh, String _ r) => (oh <? 24) && match take_digits 2 0 r with Some (om, _) => om <? 60 | None => false end
        | _ => false
        end
      else true
  | EmptyString => true
  end.
Definition dec_time (v : json) (old : Z) : option Z :=
  match v with
  | JNull => Some old
  | JString s => if sany (fun c => c ==? ","%char) s || negb (strict_offset s) then None else parse_rfc3339 s
  | _ => None
  end.

(** A number in a [map[string]any] becomes a float64 and is printed as one.  An
    integer of at most 53 bits keeps its digits; what [strconv] makes of any
    other literal is a parameter ([None]: out of range). *)
Class FloatText := { float64_text : string -> option string }.

Section Journal.
Context {F : FloatText}.

Definition number_any (lit : string) : option string :=
  if lit ==? "-0" then Some lit else
  match dec_literal lit with
  | Some n => if Z.abs n <=? 2 ^ 53 then Some (enc_int n) else float64_text lit
  | None => float64_text lit
  end.
Fixpoint dec_any (v : json) : option json :=
  match v with
  | JNumber lit => JNumber <$> number_any lit
  | JArray l =>
      JArray <$> (fix go (l : list json) : option (list json) :=
        match l with [] => Some [] | x :: rest => x' ← dec_any x; rest' ← go rest; Some (x' :: rest') end) l
  | JObject m =>
      JObject <$> (fix go (m acc : list (string * json)) : option (list (string * json)) :=
        match m with [] => Some acc | (k, x) :: rest => x' ← dec_any x; go rest (obj_set k x' acc) end) m []
  | _ => Some v
  end.
Definition dec_details (v : json) (old : payload) : option payload :=
  match v with
  | JNull => Some None
  | JObject m => acc ← foldl (fun acc kv => acc' ← acc; x ← dec_any kv.2; Some (obj_set kv.1 x acc')) (Some (default [] old)) m;
                 Some (Some acc)
  | _ => None
  end.

Definition dec_struct {A} (assign : A -> string -> json -> option A) (v : json) (old : A) : option A :=
  match v with
  | JNull => Some old
  | JObject m => foldl (fun acc kv => acc' ← acc; assign acc' kv.1 kv.2) (Some old) m
  | _ => None
  end.
Definition dec_pointer {A} (assign : A -> string -> json -> option A) (zero : A) (v : json) (old : option A) : option (option A) :=
  match v with JNull => Some None | _ => Some <$> dec_struct assign v (default zero old) end.

Definition assign_event (e : AuditEvent) (k : string) (v : json) : option AuditEvent :=
  let '(mkAuditEvent sq ts ty actor ws oc d) := e in
  if names_field k "sequence" then x ← dec_uint64 v sq; Some (mkAuditEvent x ts ty actor ws oc d)
  else if names_field k "timestamp" then x ← dec_time v ts; Some (mkAuditEvent sq x ty actor ws oc d)
  else if names_field k "type" then x ← dec_string v ty; Some (mkAuditEvent sq ts x actor ws oc d)
  else if names_field k "actor" then x ← dec_string v actor; Some (mkAuditEvent sq ts ty x ws oc d)
  else if names_field k "workspace_id" then x ← dec_string v ws; Some (mkAuditEvent sq ts ty actor x oc d)
  else if names_field k "outcome" then x ← dec_string v oc; Some (mkAuditEvent sq ts ty actor ws x d)
  else if names_field k "details" then x ← dec_details v d; Some (mkAuditEvent sq ts ty actor ws oc x)
  else Some e.
Definition assign_checkpoint (b : checkpointBoundary) (k : string) (v : json) : option checkpointBoundary :=
  let '(mkCheckpoint id g ls pt ec dg) := b in
  if names_field k "store_id" then x ← dec_string v id; Some (mkCheckpoint x g ls pt ec dg)
  else if names_field k "generation" then x ← dec_uint64 v g; Some (mkCheckpoint id x ls pt ec dg)
  else if names_field k "last_sequence" then x ← dec_uint64 v ls; Some (mkCheckpoint id g x pt ec dg)
  else if names_field k "pruned_through" then x ← dec_uint64 v pt; Some (mkCheckpoint id g ls x ec dg)
  else if names_field k "event_count" then x ← dec_uint64 v ec; Some (mkCheckpoint id g ls pt x dg)
  else if names_field k "digest" then x ← dec_string v dg; Some (mkCheckpoint id g ls pt ec x)
  else Some b.
Definition assign_record (r : auditRecord) (k : string) (v : json) : option auditRecord :=
  let '(mkAuditRecord sv kd at_ id ev pt cp) := r in
  if names_field k "schema_version" then x ← dec_int64 v sv; Some (mkAuditRecord x kd at_ id ev pt cp)
  else if names_field k "record_kind" then x ← dec_string v kd; Some (mkAuditRecord sv x at_ id ev pt cp)
  else if names_field k "recorded_at" then x ← dec_time v at_; Some (mkAuditRecord sv kd x id ev pt cp)
  else if names_field k "store_id" then x ← dec_string v id; Some (mkAuditRecord sv kd at_ x ev pt cp)
  else if names_field k "event" then x ← dec_pointer assign_event zeroAuditEvent v ev; Some (mkAuditRecord sv kd at_ id x pt cp)
  else if names_field k "pruned_through" then x ← dec_uint64 v pt; Some (mkAuditRecord sv kd at_ id ev x cp)
  else if names_field k "checkpoint" then
    x ← dec_pointer assign_checkpoint zeroCheckpoint v cp; Some (mkAuditRecord sv kd at_ id ev pt x)
  else Some r.
Definition assign_kind (kind k : string) (v : json) : option string :=
  if names_field k "record_kind" then dec_string v kind else Some kind.

(** [var envelope struct{Kind}; json.Unmarshal(line, &envelope)]. *)
Definition envelope_kind (line : string) : option string := v ← parse line; dec_struct assign_kind v "".
Definition decodeAuditRecord (line : string) : ares auditRecord :=
  match (v ← parse line; dec_struct assign_record v zeroAuditRecord) with
  | None => Err (AuditError "invalid JSON")
  | Some record =>
      reject ar_SchemaVersion record !=? journalSchemaVersion with AuditError "schema version" ;;
      reject ar_Kind record ==? "" with AuditError "record kind is required" ;;
      Ok record
  end.

Definition validatePersistedEvent (e : AuditEvent) : ares unit :=
  reject au_Sequence e =? 0 with AuditError "sequence must be positive" ;;
  reject au_Timestamp e =? 0 with AuditError "timestamp is required" ;;
  reject au_Type e ==? "" with AuditError "type is required" ;;
  Ok tt.
Definition decodeLine (line : string) : ares AuditEvent :=
  reject sall (fun c => is_space c || (c ==? "011"%char)) line with AuditError "empty JSON line" ;;
  match (v ← parse line; dec_struct assign_event v zeroAuditEvent) with
  | None => Err (AuditError "invalid JSON")
  | Some event => do! validatePersistedEvent event ;; Ok event
  end.

(** ** Applying records *)

(** [hex.DecodeString] accepts both cases. *)
Definition hex_text (s : string) : bool :=
  (slen s mod 2 =? 0) && sall (fun c => is_hex_lower c || between 65 70 c) s.

Definition applyHeaderRecord (st : auditState) (r : auditRecord) : ares auditState :=
  reject (ar_StoreID r ==? "") || (ar_Event r !=? None) || (ar_Checkpoint r !=? None) || negb (ar_PrunedThrough r =? 0) ||
         (ar_RecordedAt r =? 0) with AuditError "header has invalid fields" ;;
  reject negb (slen (ar_StoreID r) =? 32) with AuditError "header has an invalid store ID" ;;
  reject negb (hex_text (ar_StoreID r)) with AuditError "header has an invalid store ID" ;;
  reject (as_storeID st !=? "") && (as_storeID st !=? ar_StoreID r) with AuditError "audit header belongs to a different store" ;;
  Ok (mkAuditState (ar_StoreID r) (as_generation st) true (as_compacted st) (as_legacy st) (as_lastSequence st)
        (as_prunedThrough st) (as_lastRecordedAt st) (as_events st) (as_hasObsoleteHistory st)).

Definition applyLegacyEvent (st : auditState) (event : AuditEvent) (recordedAt : Z) : ares auditState :=
  reject negb (au_Sequence event =? u64_succ (as_lastSequence st)) with AuditError "sequence" ;;
  reject recordedAt =? 0 with AuditError "legacy audit file commit time is unavailable" ;;
  Ok (mkAuditState (as_storeID st) (as_generation st) (as_header st) (as_compacted st) true (au_Sequence event)
        (as_prunedThrough st) recordedAt (as_events st ++ [mkStored event recordedAt]) (as_hasObsoleteHistory st)).

Definition advancePruneWatermark (st : auditState) (through : Z) : ares auditState :=
  if through =? as_prunedThrough st then Ok st else
  let drop_ := u64 (through - as_prunedThrough st) in
  reject Z.of_nat (length (as_events st)) <? drop_ with AuditError "prune watermark skips unavailable events" ;;
  Ok (mkAuditState (as_storeID st) (as_generation st) (as_header st) (as_compacted st) (as_legacy st) (as_lastSequence st)
        through (as_lastRecordedAt st) (drop (Z.to_nat drop_) (as_events st)) true).

(** The state with one more event, before the watermark moves. *)
Definition as_push (st : auditState) (event : AuditEvent) (recordedAt : Z) : auditState :=
  mkAuditState (as_storeID st) (as_generation st) (as_header st) (as_compacted st) (as_legacy st) (au_Sequence event)
    (as_prunedThrough st) recordedAt (as_events st ++ [mkStored event recordedAt]) (as_hasObsoleteHistory st).
Definition moves_backward (st : auditState) (recordedAt : Z) : bool :=
  negb (as_lastRecordedAt st =? 0) && (recordedAt <? as_lastRecordedAt st).

Definition applyEventRecord (st : auditState) (r : auditRecord) : ares auditState :=
  reject (ar_StoreID r !=? "") || (ar_Checkpoint r !=? None) with AuditError "event record has invalid fields" ;;
  match ar_Event r with
  | None => Err (AuditError "event record has invalid fields")
  | Some event =>
      reject ar_RecordedAt r =? 0 with AuditError "event recorded_at is required" ;;
      reject moves_backward st (ar_RecordedAt r) with AuditError "event recorded_at moves backward" ;;
      do! validatePersistedEvent event ;;
      reject negb (au_Sequence event =? u64_succ (as_lastSequence st)) with AuditError "sequence" ;;
      reject (ar_PrunedThrough r <? as_prunedThrough st) || (au_Sequence event <=? ar_PrunedThrough r)
        with AuditError "pruned_through" ;;
      advancePruneWatermark (as_push st event (ar_RecordedAt r)) (ar_PrunedThrough r)
  end.

Definition applyPruneRecord (st : auditState) (r : auditRecord) : ares auditState :=
  reject (ar_StoreID r !=? "") || (ar_Event r !=? None) || (ar_Checkpoint r !=? None) with AuditError "prune record has invalid fields" ;;
  reject ar_RecordedAt r =? 0 with AuditError "prune recorded_at is required" ;;
  reject moves_backward st (ar_RecordedAt r) with AuditError "prune recorded_at moves backward" ;;
  reject (ar_PrunedThrough r <=? as_prunedThrough st) || (as_lastSequence st <? ar_PrunedThrough r) with AuditError "pruned_through" ;;
  advancePruneWatermark
    (mkAuditState (as_storeID st) (as_generation st) (as_header st) (as_compacted st) (as_legacy st) (as_lastSequence st)
       (as_prunedThrough st) (ar_RecordedAt r) (as_events st) (as_hasObsoleteHistory st)) (ar_PrunedThrough r).

(** ** Checkpoints

    The hasher is the text written to it so far. *)
Record checkpointRecovery := mkCheckpointRecovery {
  cp_boundary : checkpointBoundary; cp_recordedAt : Z; cp_hashed : string; cp_seen : Z; cp_sealed : bool }.
Definition line_bytes (line : string) : string := line +:+ String newline EmptyString.

Definition beginCheckpoint (st : auditState) (r : auditRecord) (line : string) : ares (auditState * checkpointRecovery) :=
  reject (ar_StoreID r !=? "") || (ar_Event r !=? None) || negb (ar_PrunedThrough r =? 0) || (ar_RecordedAt r =? 0)
    with AuditError "snapshot_begin has invalid fields" ;;
  match ar_Checkpoint r with
  | None => Err (AuditError "snapshot_begin has invalid fields")
  | Some b =>
      reject (cb_Store b ==? "") || (cb_Generation b =? 0) || (cb_LastSequence b <? cb_PrunedThrough b)
        with AuditError "snapshot_begin has invalid lineage or watermarks" ;;
      reject negb (cb_EventCount b =? cb_LastSequence b - cb_PrunedThrough b)
        with AuditError "snapshot_begin event count does not match watermarks" ;;
      reject cb_Digest b !=? "" with AuditError "snapshot_begin digest must be empty" ;;
      reject (as_storeID st !=? "") && (as_storeID st !=? cb_Store b) with AuditError "audit checkpoint belongs to a different store" ;;
      Ok (mkAuditState (cb_Store b) (cb_Generation b) (as_header st) true (as_legacy st) (as_lastSequence st)
            (cb_PrunedThrough b) (ar_RecordedAt r) (as_events st) (as_hasObsoleteHistory st),
          mkCheckpointRecovery b (ar_RecordedAt r) (line_bytes line) 0 false)
  end.

Definition last_recorded (st : auditState) : Z := from_option se_recordedAt 0 (last (as_events st)).

Definition checkpoint_apply (p : checkpointRecovery) (st : auditState) (r : auditRecord) (line : string)
  : ares (auditState * checkpointRecovery) :=
  let b := cp_boundary p in
  if ar_Kind r ==? auditSnapshotEvent then
    reject cb_EventCount b <=? cp_seen p with AuditError "checkpoint contains too many events" ;;
    reject (ar_StoreID r !=? "") || (ar_Checkpoint r !=? None) || negb (ar_PrunedThrough r =? 0) || (ar_RecordedAt r =? 0)
      with AuditError "snapshot_event has invalid fields" ;;
    match ar_Event r with
    | None => Err (AuditError "snapshot_event has invalid fields")
    | Some event =>
        do! validatePersistedEvent event ;;
        reject negb (au_Sequence event =? u64 (cb_PrunedThrough b + cp_seen p + 1)) with AuditError "snapshot event sequence" ;;
        reject negb (cp_seen p =? 0) && (ar_RecordedAt r <? last_recorded st)
          with AuditError "snapshot event recorded_at moves backward" ;;
        Ok (mkAuditState (as_storeID st) (as_generation st) (as_header st) (as_compacted st) (as_legacy st) (as_lastSequence st)
              (as_prunedThrough st) (as_lastRecordedAt st) (as_events st ++ [mkStored event (ar_RecordedAt r)])
              (as_hasObsoleteHistory st),
            mkCheckpointRecovery b (cp_recordedAt p) (cp_hashed p +:+ line_bytes line) (cp_seen p + 1) false)
    end
  else if ar_Kind r ==? auditSnapshotEnd then
    reject (ar_StoreID r !=? "") || (ar_Event r !=? None) || negb (ar_PrunedThrough r =? 0) || (ar_RecordedAt r =? 0)
      with AuditError "snapshot_end has invalid fields" ;;
    match ar_Checkpoint r with
    | None => Err (AuditError "snapshot_end has invalid fields")
    | Some e =>
        reject negb (ar_RecordedAt r =? cp_recordedAt p) with AuditError "snapshot_end recorded_at does not match snapshot_begin" ;;
        reject (cb_Store e !=? cb_Store b) || negb (cb_Generation e =? cb_Generation b) ||
               negb (cb_LastSequence e =? cb_LastSequence b) || negb (cb_PrunedThrough e =? cb_PrunedThrough b) ||
               negb (cb_EventCount e =? cb_EventCount b) || negb (cp_seen p =? cb_EventCount b)
          with AuditError "snapshot_end does not match snapshot_begin" ;;
        reject (cb_Digest e ==? "") || (cb_Digest e !=? sha256_hex (cp_hashed p)) with AuditError "snapshot checkpoint digest mismatch" ;;
        Ok (mkAuditState (as_storeID st) (as_generation st) (as_header st) (as_compacted st) (as_legacy st) (cb_LastSequence e)
              (as_prunedThrough st) (as_lastRecordedAt st) (as_events st) (as_hasObsoleteHistory st),
            mkCheckpointRecovery b (cp_recordedAt p) (cp_hashed p) (cp_seen p) true)
    end
  else Err (AuditError "checkpoint expected snapshot_event or snapshot_end").

(** ** Recovery *)

(** The variables of the loop in [recoverAuditLog]. *)
Record recovering := mkRecovering {
  rv_state : auditState; rv_lineNumber : Z; rv_sawEnvelope : bool; rv_sawLegacy : bool; rv_checkpoint : option checkpointRecovery }.
Definition startRecovery (expectedStoreID : string) : recovering := mkRecovering (newAuditState expectedStoreID) 0 false false None.
Definition unsealed (cp : option checkpointRecovery) : bool := match cp with Some p => negb (cp_sealed p) | None => false end.

(** One record outside a checkpoint; [n] is its line number. *)
Definition applyRecord (st : auditState) (cp : option checkpointRecovery) (n : Z) (record : auditRecord) (line : string)
  : ares (auditState * option checkpointRecovery) :=
  if ar_Kind record ==? auditHeader then
    reject negb (n =? 1) with AuditError "header must be the first record" ;;
    let? st' := applyHeaderRecord st record in Ok (st', cp)
  else if ar_Kind record ==? auditSnapshotBegin then
    reject negb (n =? 1) || negb (as_lastSequence st =? 0) || match cp with Some _ => true | None => false end
      with AuditError "snapshot_begin must be the first record" ;;
    let? '(st', p) := beginCheckpoint st record line in Ok (st', Some p)
  else if ar_Kind record ==? auditEvent then let? st' := applyEventRecord st record in Ok (st', cp)
  else if ar_Kind record ==? auditPrune then let? st' := applyPruneRecord st record in Ok (st', cp)
  else Err (AuditError "unexpected record kind").

(** One complete line. *)
Definition scanLine (legacyRecordedAt : Z) (v : recovering) (line : string) : ares recovering :=
  reject maximumRecordBytes <? slen line + 1 with errRecordTooLarge ;;
  let n := rv_lineNumber v + 1 in
  match envelope_kind line with
  | None => Err (AuditError "invalid JSON")
  | Some kind =>
      if kind ==? "" then
        reject rv_sawEnvelope v || match rv_checkpoint v with Some _ => true | None => false end
          with AuditError "legacy event follows journal envelope" ;;
        let? event := decodeLine line in
        let? st := applyLegacyEvent (rv_state v) event legacyRecordedAt in
        Ok (mkRecovering st n (rv_sawEnvelope v) true (rv_checkpoint v))
      else
        reject rv_sawLegacy v with AuditError "journal envelope follows legacy events" ;;
        let? record := decodeAuditRecord line in
        match rv_checkpoint v with
        | Some p =>
            if cp_sealed p then
              let? '(st, cp) := applyRecord (rv_state v) (rv_checkpoint v) n record line in
              Ok (mkRecovering st n true (rv_sawLegacy v) cp)
            else
              let? '(st, p') := checkpoint_apply p (rv_state v) record line in
              Ok (mkRecovering st n true (rv_sawLegacy v) (Some p'))
        | None =>
            let? '(st, cp) := applyRecord (rv_state v) None n record line in
            Ok (mkRecovering st n true (rv_sawLegacy v) cp)
        end
  end.
Definition scanLines (legacyRecordedAt : Z) (expectedStoreID : string) (lines : list string) : ares recovering :=
  result_fold (scanLine legacyRecordedAt) (startRecovery expectedStoreID) lines.

Definition headless (v : recovering) : bool :=
  rv_sawEnvelope v && negb (as_header (rv_state v)) && negb (as_compacted (rv_state v)).

(** A torn last line may go once the journal has a header or a sealed
    checkpoint, or is in the old format. *)
Definition repairableTail (v : recovering) (tail : string) (repairTail : bool) : ares unit :=
  reject maximumRecordBytes <? slen tail with errRecordTooLarge ;;
  reject unsealed (rv_checkpoint v) with AuditError "incomplete checkpoint" ;;
  reject headless v with AuditError "cannot repair an incomplete tail before a header or sealed checkpoint" ;;
  reject negb repairTail with AuditError "incomplete final record" ;;
  Ok tt.
(** The end of the loop. *)
Definition finishRecovery (v : recovering) (completeBytes : Z) (expectedStoreID : string) : ares auditState :=
  reject unsealed (rv_checkpoint v) with AuditError "audit checkpoint is missing snapshot_end" ;;
  reject headless v with AuditError "audit journal envelope is missing its header" ;;
  reject (completeBytes =? 0) && (expectedStoreID !=? "") with AuditError "initialized audit journal is empty" ;;
  Ok (rv_state v).

Definition lines_size (lines : list string) : Z := foldr (fun l n => slen l + 1 + n) 0 lines.

(** What a journal that ends with a newline recovers to. *)
Definition recoverLines (legacyRecordedAt : Z) (expectedStoreID : string) (lines : list string) : ares auditState :=
  let? v := scanLines legacyRecordedAt expectedStoreID lines in finishRecovery v (lines_size lines) expectedStoreID.

(** ** The first record, before the lineage is known *)

Inductive auditJournalInitialShape := initialJournalEmpty | initialJournalPartial | initialJournalLegacy | initialJournalEnvelope.
#[export] Instance auditJournalInitialShape_eq_dec : EqDecision auditJournalInitialShape. Proof. solve_decision. Defined.

Definition classifyInitialAuditJournal (lines : list string) (tail : string) : ares (auditJournalInitialShape * string) :=
  match lines with
  | [] => reject maximumRecordBytes <? slen tail with errRecordTooLarge ;;
          Ok (if tail ==? "" then (initialJournalEmpty, "") else (initialJournalPartial, tail))
  | line :: _ =>
      reject maximumRecordBytes <? slen line + 1 with errRecordTooLarge ;;
      match envelope_kind line with
      | None => Err (AuditError "classify first audit record: invalid JSON")
      | Some kind => Ok (if kind ==? "" then (initialJournalLegacy, "") else (initialJournalEnvelope, ""))
      end
  end.

Definition legacy_marker : string := "{" +:+ squote +:+ "sequence" +:+ squote +:+ ":".
Definition isIdentifiableLegacyEventPrefix (body : string) : bool :=
  if slen body <? 4 then false
  else if slen body <=? slen legacy_marker then body ==? String.substring 0 (String.length body) legacy_marker
  else HasPrefix body legacy_marker.

Definition decimalPair (a b : ascii) : Z := (byte_val a - 48) * 10 + (byte_val b - 48).
Definition daysInUTCMonth (year month : Z) : Z :=
  if month =? 2 then (if (year mod 400 =? 0) || ((year mod 4 =? 0) && negb (year mod 100 =? 0)) then 29 else 28)
  else if (month =? 4) || (month =? 6) || (month =? 9) || (month =? 11) then 30 else 31.
Definition byte_at (s : string) (i : nat) : ascii := default "000"%char (String.get i s).
Definition pair_at (s : string) (i : nat) : Z := decimalPair (byte_at s i) (byte_at s (S i)).
Definition decimalQuad (s : string) (i : nat) : Z := pair_at s i * 100 + pair_at s (S (S i)).
Definition separator_at (i : nat) : option ascii :=
  if (i =? 4)%nat || (i =? 7)%nat then Some "-"%char else if (i =? 10)%nat then Some "T"%char
  else if (i =? 13)%nat || (i =? 16)%nat then Some ":"%char else None.
Definition base_ok (value : string) (i : nat) : bool :=
  match separator_at i with Some c => byte_at value i ==? c | None => is_digit (byte_at value i) end.
(** The fraction of a second, from the byte after its point; [i] is the index of
    the byte in the text from the point on, which has [n] bytes. *)
Fixpoint fraction_ok (i n : nat) (s : string) : bool :=
  match s with
  | EmptyString => true
  | String c s' =>
      if c ==? "Z"%char then (i =? n - 1)%nat && (2 <=? i)%nat && (i <=? 10)%nat
      else if negb (is_digit c) || (9 <? i)%nat then false else fraction_ok (S i) n s'
  end.

Definition isPossibleUTCHeaderTimePrefix (value : string) : bool :=
  let n := String.length value in
  if (30 <? n)%nat then false
  else if negb (forallb (base_ok value) (seq 0 (Nat.min n 19))) then false
  else if (7 <=? n)%nat && ((pair_at value 5 <? 1) || (12 <? pair_at value 5)) then false
  else if (10 <=? n)%nat && ((pair_at value 8 <? 1) || (daysInUTCMonth (decimalQuad value 0) (pair_at value 5) <? pair_at value 8)) then false
  else if (13 <=? n)%nat && (23 <? pair_at value 11) then false
  else if (16 <=? n)%nat && (59 <? pair_at value 14) then false
  else if (19 <=? n)%nat && (59 <? pair_at value 17) then false
  else match sdrop 19 value with
       | EmptyString => true
       | String c rest =>
           if c ==? "Z"%char then rest ==? ""
           else if (c !=? "."%char) || (11 <? S (String.length rest))%nat then false
           else fraction_ok 1 (S (String.length rest)) rest
       end.

Definition header_fixed : string :=
  "{" +:+ squote +:+ "schema_version" +:+ squote +:+ ":1," +:+ squote +:+ "record_kind" +:+ squote +:+ ":" +:+ squote +:+
  "header" +:+ squote +:+ "," +:+ squote +:+ "recorded_at" +:+ squote +:+ ":" +:+ squote.
Definition header_suffix (storeID : string) : string :=
  "," +:+ squote +:+ "store_id" +:+ squote +:+ ":" +:+ squote +:+ storeID +:+ squote +:+ "}".
Definition isPossibleAuditHeaderPrefix (body storeID : string) : bool :=
  if slen body <=? slen header_fixed then body ==? String.substring 0 (String.length body) header_fixed
  else if negb (HasPrefix body header_fixed) then false
  else
    let remainder := sdrop (String.length header_fixed) body in
    match CutAt quote remainder with
    | None => isPossibleUTCHeaderTimePrefix remainder
    | Some (timestamp, suffix) =>
        match parse_rfc3339 timestamp with
        | None => false
        | Some _ =>
            if negb (HasSuffix timestamp "Z") then false
            else (slen suffix <=? slen (header_suffix storeID)) &&
                 (suffix ==? String.substring 0 (String.length suffix) (header_suffix storeID))
        end
    end.

(** ** Successive states *)

Definition retained_unchanged (next : auditState) (old : storedEvent) : ares unit :=
  if au_Sequence (se_event old) <=? as_prunedThrough next then Ok tt else
  match as_events next !! Z.to_nat (u64 (au_Sequence (se_event old) - as_prunedThrough next - 1)) with
  | None => Err (AuditError "replacement audit journal changes retained sequence")
  | Some retained =>
      reject negb (se_recordedAt old =? se_recordedAt retained)
        with AuditError "replacement audit journal changes retained sequence commit time" ;;
      reject negb (eventsSemanticallyEqual (se_event old) (se_event retained))
        with AuditError "replacement audit journal changes retained sequence" ;;
      Ok tt
  end.
Definition stateContinues (previous next : auditState) : ares unit :=
  reject (as_storeID previous ==? "") || (as_storeID next !=? as_storeID previous)
    with AuditError "replacement audit journal belongs to a different store" ;;
  reject as_generation next <? as_generation previous with AuditError "audit journal generation moved backward" ;;
  reject (as_lastSequence next <? as_lastSequence previous) || (as_prunedThrough next <? as_prunedThrough previous)
    with AuditError "replacement audit journal rolls back a sequence watermark" ;;
  check_all (retained_unchanged next) (as_events previous).
Definition auditStateAdvances (previous next : auditState) : ares unit :=
  do! stateContinues previous next ;;
  reject negb (as_compacted next) || (as_generation next <=? as_generation previous) with AuditError "replacement audit generation" ;;
  Ok tt.

(** ** Retention and checkpoints (compaction.go) *)

Fixpoint timeDrop (cutoff : Z) (events : list storedEvent) : nat :=
  match events with
  | e :: rest => if se_recordedAt e <? cutoff then S (timeDrop cutoff rest) else O
  | [] => O
  end.
Definition retentionDrop (events : list storedEvent) (recordedAt : Z) (o : AuditOptions) : nat :=
  let byCount := if (0 <? ao_MaxEvents o) && (ao_MaxEvents o <? Z.of_nat (length events))
                 then (length events - Z.to_nat (ao_MaxEvents o))%nat else 0%nat in
  if 0 <? ao_Retention o then Nat.max byCount (timeDrop (recordedAt - ao_Retention o) events) else byCount.
Definition applyRetentionPolicy (st : auditState) (recordedAt : Z) (o : AuditOptions) : ares auditState :=
  match retentionDrop (as_events st) recordedAt o with
  | O => Ok st
  | S n => match as_events st !! n with
           | Some e => advancePruneWatermark st (au_Sequence (se_event e))
           | None => Ok st
           end
  end.

Definition checkpoint_boundary (st : auditState) : checkpointBoundary :=
  mkCheckpoint (as_storeID st) (u64_succ (as_generation st)) (as_lastSequence st) (as_prunedThrough st)
    (Z.of_nat (length (as_events st))) "".
Definition with_digest (b : checkpointBoundary) (digest : string) : checkpointBoundary :=
  mkCheckpoint (cb_Store b) (cb_Generation b) (cb_LastSequence b) (cb_PrunedThrough b) (cb_EventCount b) digest.
Definition boundary_record (kind : string) (recordedAt : Z) (b : checkpointBoundary) : auditRecord :=
  mkAuditRecord journalSchemaVersion kind recordedAt "" None 0 (Some b).
Definition snapshot_record (e : storedEvent) : auditRecord :=
  mkAuditRecord journalSchemaVersion auditSnapshotEvent (se_recordedAt e) "" (Some (se_event e)) 0 None.

(** Measure one more line. *)
Definition add_size (total : Z) (r : auditRecord) : ares Z :=
  let? line := marshalAuditRecord r in
  reject int64_max - total <? slen line + 1 with AuditError "audit checkpoint size overflows int64" ;;
  Ok (total + (slen line + 1)).
Definition zero_digest : string := hex_encode (repeat 0 32).
Definition encodedCheckpointSize (st : auditState) (recordedAt : Z) : ares Z :=
  reject as_generation st =? u64_max with AuditError "audit generation space exhausted" ;;
  let b := checkpoint_boundary st in
  let? begin_ := marshalAuditRecord (boundary_record auditSnapshotBegin recordedAt b) in
  let? total := result_fold add_size (slen begin_ + 1) (map snapshot_record (as_events st)) in
  add_size total (boundary_record auditSnapshotEnd recordedAt (with_digest b zero_digest)).

(** The boundary at which compaction is considered next. *)
Definition resetCompactionBoundary (threshold current : Z) : Z :=
  if threshold <=? 0 then int64_max else
  let delta := threshold - Z.rem current threshold in
  if (delta <=? 0) || (int64_max - delta <? current) then int64_max else current + delta.
Definition minimumCompactionSavings (threshold : Z) : Z := let minimum := Z.quot threshold 8 in if minimum <? 1 then 1 else minimum.
Definition shouldCompactBeforeAppend (threshold nextCompactionBytes : Z) (prospective : auditState) (projected recordedAt : Z)
  : ares (bool * bool) :=
  if projected <? nextCompactionBytes then Ok (false, false)
  else if negb (as_hasObsoleteHistory prospective) then Ok (false, true)
  else let? checkpointBytes := encodedCheckpointSize prospective recordedAt in
       Ok (minimumCompactionSavings threshold <=? projected - checkpointBytes, true).

Definition auditStatesSemanticallyEqual (source checkpoint : auditState) : bool :=
  (as_storeID checkpoint ==? as_storeID source) && (as_generation checkpoint =? u64_succ (as_generation source)) &&
  (as_lastSequence checkpoint =? as_lastSequence source) && (as_prunedThrough checkpoint =? as_prunedThrough source) &&
  (length (as_events checkpoint) =? length (as_events source))%nat &&
  forallb (fun p => (se_recordedAt p.1 =? se_recordedAt p.2) && eventsSemanticallyEqual (se_event p.1) (se_event p.2))
    (zip (as_events source) (as_events checkpoint)).

End Journal.

(** ** The lock file

    The lock file keeps the lineage and the watermarks of the journal, so that a
    journal rolled back to an older state is recognised.  It holds two slots of
    512 bytes; every write takes the slot that does not hold the newest valid
    metadata and carries the next revision and a digest, so that a torn write
    leaves the other slot as it was.  An earlier version kept one JSON line. *)

Definition lockMetadataSlotBytes : nat := 512.
Definition maximumLockMetadataBytes : nat := 2 * lockMetadataSlotBytes.

Record retentionPolicyMetadata := mkRetention { rp_MaxEvents : Z; rp_RetentionNanos : Z }.
#[export] Instance retentionPolicyMetadata_eq_dec : EqDecision retentionPolicyMetadata. Proof. solve_decision. Defined.

Record lockMetadata := mkLockMetadata {
  lm_SchemaVersion : Z; lm_StoreID : string; lm_Generation : Z; lm_LastSequence : Z; lm_PrunedThrough : Z;
  lm_LastRecordedAt : option Z; lm_Retention : option retentionPolicyMetadata }.
#[export] Instance lockMetadata_eq_dec : EqDecision lockMetadata. Proof. solve_decision. Defined.
Definition zeroLockMetadata : lockMetadata := mkLockMetadata 0 "" 0 0 0 None None.

Record lockMetadataEnvelope := mkEnvelope { le_Revision : Z; le_Metadata : lockMetadata; le_Digest : string }.

(** The metadata a lock file holds; slot -1 is none. *)
Record lockMetadataDiskState := mkDiskState { ls_metadata : lockMetadata; ls_revision : Z; ls_slot : Z; ls_legacy : bool }.
Definition noLockMetadata : lockMetadataDiskState := mkDiskState zeroLockMetadata 0 (-1) false.

(** ** Encoding *)

Definition enc_retention (p : retentionPolicyMetadata) : string :=
  enc_struct [fld "max_events" (enc_int (rp_MaxEvents p)); fld "retention_nanoseconds" (enc_int (rp_RetentionNanos p))].
Definition enc_lock_metadata (m : lockMetadata) : string :=
  enc_struct [fld "schema_version" (enc_int (lm_SchemaVersion m)); fld "store_id" (enc_string (lm_StoreID m));
    omit_zero "generation" (lm_Generation m); omit_zero "last_sequence" (lm_LastSequence m);
    omit_zero "pruned_through" (lm_PrunedThrough m); omit_enc "last_recorded_at" enc_time (lm_LastRecordedAt m);
    omit_enc "retention" enc_retention (lm_Retention m)].
Definition enc_lock_payload (revision : Z) (m : lockMetadata) : string :=
  enc_struct [fld "revision" (enc_int revision); fld "metadata" (enc_lock_metadata m)].
Definition enc_lock_envelope (e : lockMetadataEnvelope) : string :=
  enc_struct [fld "revision" (enc_int (le_Revision e)); fld "metadata" (enc_lock_metadata (le_Metadata e));
    fld "digest" (enc_string (le_Digest e))].
Definition lock_encodable (m : lockMetadata) : bool := from_option year_encodable true (lm_LastRecordedAt m).
Definition digestLockMetadata (revision : Z) (m : lockMetadata) : ares string :=
  if lock_encodable m then Ok (sha256_hex (enc_lock_payload revision m)) else Err (AuditError "json").
Definition lockMetadataValuesEqual (left right : lockMetadata) : bool :=
  lock_encodable left && lock_encodable right && (enc_lock_metadata left ==? enc_lock_metadata right).

(** ** Decoding *)

Definition zeroRetention : retentionPolicyMetadata := mkRetention 0 0.
Definition assign_retention (p : retentionPolicyMetadata) (k : string) (v : json) : option retentionPolicyMetadata :=
  if names_field k "max_events" then x ← dec_int64 v (rp_MaxEvents p); Some (mkRetention x (rp_RetentionNanos p))
  else if names_field k "retention_nanoseconds" then x ← dec_int64 v (rp_RetentionNanos p); Some (mkRetention (rp_MaxEvents p) x)
  else Some p.
Definition dec_time_pointer (v : json) (old : option Z) : option (option Z) :=
  match v with JNull => Some None | _ => Some <$> dec_time v (default 0 old) end.
Definition assign_lock_metadata (m : lockMetadata) (k : string) (v : json) : option lockMetadata :=
  let '(mkLockMetadata sv id g ls pt at_ rp) := m in
  if names_field k "schema_version" then x ← dec_int64 v sv; Some (mkLockMetadata x id g ls pt at_ rp)
  else if names_field k "store_id" then x ← dec_string v id; Some (mkLockMetadata sv x g ls pt at_ rp)
  else if names_field k "generation" then x ← dec_uint64 v g; Some (mkLockMetadata sv id x ls pt at_ rp)
  else if names_field k "last_sequence" then x ← dec_uint64 v ls; Some (mkLockMetadata sv id g x pt at_ rp)
  else if names_field k "pruned_through" then x ← dec_uint64 v pt; Some (mkLockMetadata sv id g ls x at_ rp)
  else if names_field k "last_recorded_at" then x ← dec_time_pointer v at_; Some (mkLockMetadata sv id g ls pt x rp)
  else if names_field k "retention" then
    x ← dec_pointer assign_retention zeroRetention v rp; Some (mkLockMetadata sv id g ls pt at_ x)
  else Some m.
Definition assign_envelope (e : lockMetadataEnvelope) (k : string) (v : json) : option lockMetadataEnvelope :=
  let '(mkEnvelope rv md dg) := e in
  if names_field k "revision" then x ← dec_uint64 v rv; Some (mkEnvelope x md dg)
  else if names_field k "metadata" then x ← dec_struct assign_lock_metadata v md; Some (mkEnvelope rv x dg)
  else if names_field k "digest" then x ← dec_string v dg; Some (mkEnvelope rv md x)
  else Some e.

Definition validateLockMetadata (m : lockMetadata) : ares unit :=
  reject negb (lm_SchemaVersion m =? journalSchemaVersion) || negb (slen (lm_StoreID m) =? 32)
    with AuditError "audit lock metadata has invalid schema or store ID" ;;
  reject negb (hex_text (lm_StoreID m)) with AuditError "audit lock metadata store ID is invalid" ;;
  reject lm_LastSequence m <? lm_PrunedThrough m with AuditError "audit lock metadata has invalid sequence watermarks" ;;
  reject lm_LastRecordedAt m ==? Some 0 with AuditError "audit lock metadata has a zero commit time" ;;
  reject match lm_Retention m with Some p => (rp_MaxEvents p <? 0) || (rp_RetentionNanos p <? 0) | None => false end
    with AuditError "audit lock metadata has an invalid retention policy" ;;
  Ok tt.

Definition newline_text : string := String newline EmptyString.
Definition decodeLegacyLockMetadata (body : string) : ares lockMetadata :=
  match CutAt newline body with
  | Some (line, rest) =>
      reject rest !=? "" with AuditError "legacy audit lock metadata must be one complete JSON line" ;;
      match (v ← parse line; dec_struct assign_lock_metadata v zeroLockMetadata) with
      | None => Err (AuditError "legacy audit lock metadata is invalid JSON")
      | Some m => do! validateLockMetadata m ;; Ok m
      end
  | None => Err (AuditError "legacy audit lock metadata must be one complete JSON line")
  end.

(** The old line, while the first slot is being written after it: zero bytes
    fill the gap up to the slot. *)
Definition decodeLegacyLockMetadataPrefix (body : string) : option lockMetadata :=
  match CutAt newline (String.substring 0 lockMetadataSlotBytes body) with
  | Some (line, rest) =>
      if sall (fun c => c ==? "000"%char) rest
      then match decodeLegacyLockMetadata (line +:+ newline_text) with Ok m => Some m | Err _ => None end
      else None
  | None => None
  end.

Definition last_byte_is (c : ascii) (s : string) : bool := HasSuffix s (String c EmptyString).
Definition decodeLockMetadataSlot (slot : string) : ares (lockMetadata * Z) :=
  reject negb (String.length slot =? lockMetadataSlotBytes)%nat || negb (last_byte_is newline slot)
    with AuditError "audit lock metadata slot has an invalid size or terminator" ;;
  match (v ← parse (TrimSpace slot); dec_struct assign_envelope v (mkEnvelope 0 zeroLockMetadata "")) with
  | None => Err (AuditError "audit lock metadata slot is invalid JSON")
  | Some e =>
      reject (le_Revision e =? 0) || negb (slen (le_Digest e) =? 64)
        with AuditError "audit lock metadata slot has an invalid revision or digest" ;;
      do! validateLockMetadata (le_Metadata e) ;;
      let? digest := digestLockMetadata (le_Revision e) (le_Metadata e) in
      reject le_Digest e !=? digest with AuditError "audit lock metadata slot digest mismatch" ;;
      Ok (le_Metadata e, le_Revision e)
  end.

(** ** Reading: the newest valid slot *)

Definition slot_of (body : string) (slot : nat) : option string :=
  if (S slot * lockMetadataSlotBytes <=? String.length body)%nat
  then Some (String.substring (slot * lockMetadataSlotBytes) lockMetadataSlotBytes body) else None.

(** One round of the loop over the slots; [None] is "not found". *)
Definition consider_slot (body : string) (best : option lockMetadataDiskState) (slot : nat) : ares (option lockMetadataDiskState) :=
  match slot_of body slot with
  | None => Ok best
  | Some text =>
      match decodeLockMetadataSlot text with
      | Err _ => Ok best
      | Ok (metadata, revision) =>
          match best with
          | Some b =>
              if revision =? ls_revision b then
                reject negb (lockMetadataValuesEqual metadata (ls_metadata b))
                  with AuditError "audit lock metadata slots reuse a revision with different values" ;;
                Ok best
              else if ls_revision b <? revision then Ok (Some (mkDiskState metadata revision (Z.of_nat slot) false)) else Ok best
          | None => Ok (Some (mkDiskState metadata revision (Z.of_nat slot) false))
          end
      end
  end.

Definition decodeLockFile (body : string) : ares lockMetadataDiskState :=
  let n := String.length body in
  if body ==? "" then Ok noLockMetadata
  else if (maximumLockMetadataBytes <? n)%nat then Err (AuditError "audit lock metadata exceeds size limit")
  else
    match (if (n <=? lockMetadataSlotBytes)%nat then decodeLegacyLockMetadata body else Err ErrIO) with
    | Ok m => Ok (mkDiskState m 0 (-1) true)
    | Err _ =>
        let? best0 := consider_slot body None 0 in
        let? best := consider_slot body best0 1 in
        match best with
        | Some b => Ok b
        | None =>
            match decodeLegacyLockMetadataPrefix body with
            | Some m => Ok (mkDiskState m 0 (-1) true)
            | None => if (n <=? lockMetadataSlotBytes)%nat then Err errNoValidInitialLockMetadata
                      else Err (AuditError "audit lock metadata has no complete valid slot")
            end
        end
    end.

(** ** Writing *)

(** The 512 bytes of a slot: the envelope, spaces, a newline. *)
Fixpoint spaces (n : nat) : string := match n with O => EmptyString | S k => String " "%char (spaces k) end.
Fixpoint zeros (n : nat) : string := match n with O => EmptyString | S k => String "000"%char (zeros k) end.
Definition encodeLockMetadataSlot (metadata : lockMetadata) (revision : Z) : ares (lockMetadata * string) :=
  let m := mkLockMetadata journalSchemaVersion (lm_StoreID metadata) (lm_Generation metadata) (lm_LastSequence metadata)
             (lm_PrunedThrough metadata) (lm_LastRecordedAt metadata) (lm_Retention metadata) in
  do! validateLockMetadata m ;;
  let? digest := digestLockMetadata revision m in
  let body := enc_lock_envelope (mkEnvelope revision m digest) in
  reject (lockMetadataSlotBytes <=? String.length body)%nat with AuditError "encoded audit lock metadata exceeds slot size" ;;
  Ok (m, body +:+ spaces (lockMetadataSlotBytes - 1 - String.length body) +:+ newline_text).

(** [file.WriteAt]: a gap after the end of the file is filled with zero bytes. *)
Definition write_at (body data : string) (offset : nat) : string :=
  String.substring 0 offset body +:+ zeros (offset - String.length body) +:+ data +:+
  sdrop (offset + String.length data) body.

(** Revision and slot of the next write. *)
Definition nextLockWrite (current : lockMetadataDiskState) : ares (Z * nat) :=
  reject ls_revision current =? u64_max with AuditError "audit lock metadata revision space exhausted" ;;
  Ok (u64_succ (ls_revision current), if ls_legacy current || (ls_slot current =? 0) then 1%nat else 0%nat).

Definition committedAs (committed : lockMetadataDiskState) (revision : Z) (slot : nat) (m : lockMetadata) : bool :=
  (ls_revision committed =? revision) && (ls_slot committed =? Z.of_nat slot) && lockMetadataValuesEqual (ls_metadata committed) m.

(** ** Metadata and states *)

Definition retentionPolicyForOptions (o : AuditOptions) : option retentionPolicyMetadata :=
  if (ao_MaxEvents o =? 0) && (ao_Retention o =? 0) then None else Some (mkRetention (ao_MaxEvents o) (ao_Retention o)).
Definition retentionPoliciesEqual (left right : option retentionPolicyMetadata) : bool :=
  match left, right with
  | Some l, Some r => (rp_MaxEvents l =? rp_MaxEvents r) && (rp_RetentionNanos l =? rp_RetentionNanos r)
  | None, None => true
  | _, _ => false
  end.
Definition lockMetadataForState (st : auditState) (retention : option retentionPolicyMetadata) : lockMetadata :=
  mkLockMetadata journalSchemaVersion (as_storeID st) (as_generation st) (as_lastSequence st) (as_prunedThrough st)
    (if as_lastRecordedAt st =? 0 then None else Some (as_lastRecordedAt st)) retention.
Definition lockMetadataIsPristine (m : lockMetadata) : bool :=
  (lm_StoreID m !=? "") && (lm_Generation m =? 0) && (lm_LastSequence m =? 0) && (lm_PrunedThrough m =? 0) &&
  (lm_LastRecordedAt m ==? None).
Definition auditStateCoversLockMetadata (st : auditState) (m : lockMetadata) : ares unit :=
  reject (lm_StoreID m ==? "") || (as_storeID st !=? lm_StoreID m)
    with AuditError "audit journal does not match the fixed lock lineage" ;;
  reject (as_generation st <? lm_Generation m) || (as_lastSequence st <? lm_LastSequence m) || (as_prunedThrough st <? lm_PrunedThrough m)
    with AuditError "audit journal rolls back a fixed lock watermark" ;;
  reject match lm_LastRecordedAt m with Some t => as_lastRecordedAt st <? t | None => false end
    with AuditError "audit journal rolls back the fixed lock commit time" ;;
  Ok tt.
Definition lockMetadataMatchesState (m : lockMetadata) (st : auditState) (retention : option retentionPolicyMetadata) : bool :=
  (lm_StoreID m ==? as_storeID st) && (lm_Generation m =? as_generation st) && (lm_LastSequence m =? as_lastSequence st) &&
  (lm_PrunedThrough m =? as_prunedThrough st) && retentionPoliciesEqual (lm_Retention m) retention &&
  match lm_LastRecordedAt m with
  | None => as_lastRecordedAt st =? 0
  | Some t => negb (as_lastRecordedAt st =? 0) && (t =? as_lastRecordedAt st)
  end.
