(* ===== verification/AuditFacts.v ===== *)
(** * Audit log: the journal as a data structure

    Lines are read back as the records they were written from; the journals
    recovery accepts have no gap; retention, checkpoints and replacements keep
    the events they have to keep. *)

From Stdlib Require Import Ascii.
From S2P Require Import Prelude GoText GoJson GoEncoding GoStrings GoJsonFacts ActionAbi AuditJournal.

(** ** Reading lines back *)

Fixpoint read_json (v : json) : json :=
  match v with
  | JString s => JString (read_string s)
  | JArray l => JArray (map read_json l)
  | JObject m => JObject (map (fun kv => (read_string kv.1, read_json kv.2)) m)
  | _ => v
  end.

Lemma number_literal_parse lit : number_literal lit = true -> exists l, parse_number lit = Some (l, EmptyString).
Proof.
  unfold number_literal. destruct (parse_number lit) as [[l r]|]; [|done]. intros H. apply bool_decide_eq_true in H as ->. by exists l.
Qed.

Lemma Forall2_map_map {A B C} (R : B -> C -> Prop) (f : A -> B) (g : A -> C) l :
  (forall x, x ∈ l -> R (f x) (g x)) -> Forall2 R (map f l) (map g l).
Proof.
  induction l as [|x l IH]; intros H; cbn [map]; constructor; [apply H; by left|]. apply IH. intros y Hy. apply H. by right.
Qed.
Lemma forallb_elem {A} (f : A -> bool) l x : forallb f l = true -> x ∈ l -> f x = true.
Proof. intros H Hx. rewrite forallb_forall in H. apply H. by apply list_elem_of_In. Qed.

Lemma reads_json v : encodable_json v = true -> reads (marshal v) (read_json v).
Proof.
  induction v as [|[]|lit|s|l IH|m IH] using json_ind'; cbn [encodable_json read_json]; intros H.
  - apply reads_null.
  - apply reads_true.
  - apply reads_false.
  - destruct (number_literal_parse _ H) as [l Hl]. by eapply reads_number.
  - apply reads_string.
  - change (marshal (JArray l)) with ("[" +:+ join "," (map marshal l) +:+ "]"). apply reads_array.
    apply Forall2_map_map. intros x Hx. rewrite Forall_forall in IH. apply IH; [done|]. by apply (forallb_elem _ l).
  - assert (E : marshal (JObject m) = "{" +:+ join "," (map member_text (map (fun kv => (kv.1, marshal kv.2)) m)) +:+ "}")
      by (rewrite map_map; reflexivity).
    rewrite E. apply reads_object. apply Forall2_map_map. intros [k x] Hx. split; [done|]. cbn [fst snd].
    rewrite Forall_forall in IH. apply (IH (k, x)); [done|]. by apply (forallb_elem _ m (k, x) H).
Qed.

(** A structure with its optional fields. *)
Definition reads_field (f : option (string * string)) (j : option (string * json)) : Prop :=
  match f, j with
  | Some (k, t), Some (k', v) => k' = read_string k /\ reads t v
  | None, None => True
  | _, _ => False
  end.
Definition present_fields (js : list (option (string * json))) : list (string * json) := omap (fun j => j) js.
Lemma reads_struct fields js : Forall2 reads_field fields js -> reads (enc_struct fields) (JObject (present_fields js)).
Proof.
  intros H. rewrite enc_struct_members. apply reads_object. unfold present_fields, omap.
  induction H as [|[[k t]|] [[k' v]|] fields js Hf H IH]; cbn [list_omap reads_field] in *; try done.
  by constructor.
Qed.

(** ** Numbers *)

Lemma dec_aux_value : forall f n acc s, 0 <= n < 10 ^ Z.of_nat f -> acc = 0 -> dec_digits acc (dec_aux f n s) = dec_digits n s.
Proof.
  induction f as [|f IH]; intros n acc s H ->; [cbn in *; by replace n with 0 by lia|].
  cbn [dec_aux]. rewrite Nat2Z.inj_succ, Z.pow_succ_r in H by lia. pose proof (Z.mod_pos_bound n 10 ltac:(lia)) as Hm.
  destruct (digit_chr (n mod 10) Hm) as [Hd Hv]. destruct (n <? 10) eqn:E.
  - cbn [dec_digits]. rewrite Hd, Hv, Z.mod_small by lia. f_equal. lia.
  - rewrite IH by (done || (split; [apply Z.div_pos; lia|apply Z.div_lt_upper_bound; lia])).
    cbn [dec_digits]. rewrite Hd, Hv. f_equal. pose proof (Z.div_mod n 10 ltac:(lia)). lia.
Qed.
Lemma enc_int_unsigned n : 0 <= n < 10 ^ 25 ->
  dec_literal (enc_int n) = Some n /\ HasPrefix (enc_int n) "-" = false.
Proof.
  intros H. destruct (decide (n = 0)) as [->|Hn]; [by split|].
  unfold enc_int. replace (n <? 0) with false by lia.
  destruct (dec_aux_digits 25 n EmptyString ltac:(change (Z.of_nat 25) with 25; lia)) as (d & ds & E & Hd & _ & _).
  pose proof (dec_aux_value 25 n 0 EmptyString ltac:(change (Z.of_nat 25) with 25; lia) eq_refl) as Hv. rewrite E in *.
  rewrite sapp_nil_r in *. assert (Hm : d <> "-"%char) by (intros ->; discriminate Hd).
  split; [|cbn [HasPrefix]; by rewrite bool_decide_false by (intros <-; done)].
  unfold dec_literal. rewrite bool_decide_false by done. exact Hv.
Qed.
Lemma enc_int_signed n : Z.abs n < 10 ^ 25 -> dec_literal (enc_int n) = Some n.
Proof.
  intros H. destruct (decide (0 <= n)) as [Hn|Hn]; [apply enc_int_unsigned; lia|].
  unfold enc_int. replace (n <? 0) with true by lia.
  destruct (dec_aux_digits 25 (- n) EmptyString ltac:(change (Z.of_nat 25) with 25; lia)) as (d & ds & E & Hd & _ & _).
  pose proof (dec_aux_value 25 (- n) 0 EmptyString ltac:(change (Z.of_nat 25) with 25; lia) eq_refl) as Hv. rewrite E in *.
  rewrite sapp_nil_r in *. change ("-" +:+ String d ds) with (String "-" (String d ds)). unfold dec_literal.
  rewrite bool_decide_true by done. rewrite bool_decide_false by done. rewrite Hv. cbn. f_equal. lia.
Qed.
Lemma u64_small n : is_u64 n -> 0 <= n < 10 ^ 25.
Proof. unfold is_u64, u64_max. lia. Qed.
Lemma dec_uint64_enc n old : is_u64 n -> dec_uint64 (JNumber (enc_int n)) old = Some n.
Proof.
  intros H. destruct (enc_int_unsigned n (u64_small n H)) as [H1 H2]. unfold dec_uint64. rewrite H2, H1. cbn [mbind option_bind].
  unfold is_u64 in H. by replace (n <=? u64_max) with true by lia.
Qed.
Lemma dec_time_enc t old : year_encodable t = true -> dec_time (JString (format_rfc3339 t)) old = Some t.
Proof.
  intros H. unfold dec_time.
  assert (Hc : sany (fun c => c ==? ","%char) (format_rfc3339 t) = false).
  { assert (Ha : forall s, sall (fun c => is_digit c || (c ==? "-"%char) || (c ==? "T"%char) || (c ==? ":"%char) || (c ==? "."%char) || (c ==? "Z"%char)) s = true ->
      sany (fun c => c ==? ","%char) s = false).
    { induction s as [|a s IH]; [done|]. cbn [sall sany]. intros Hs. apply andb_true_iff in Hs as [Ha Hs]. rewrite IH by done.
      rewrite bool_decide_false; [done|]. intros ->. discriminate Ha. }
    apply Ha. unfold format_rfc3339. destruct (civil _) as [[y m] d].
    assert (Hp : forall w n, sall (fun c => is_digit c || (c ==? "-"%char) || (c ==? "T"%char) || (c ==? ":"%char) || (c ==? "."%char) || (c ==? "Z"%char))
      (pad_dec w n) = true) by (intros; eapply sall_impl; [|apply pad_dec_digits]; intros c Hc; cbn beta in *; by rewrite Hc).
    assert (Ht : forall n w x, sall (fun c => is_digit c || (c ==? "-"%char) || (c ==? "T"%char) || (c ==? ":"%char) || (c ==? "."%char) || (c ==? "Z"%char))
      (trim_zeros n w x) = true) by (induction n as [|n IH]; intros w x; cbn [trim_zeros]; [apply Hp|]; destruct (_ =? 0); [apply IH|apply Hp]).
    rewrite !sall_app, !Hp. destruct (_ =? 0); rewrite ?sall_app, ?Ht; reflexivity. }
  destruct (format_rfc3339_utc t) as [s Hs]. assert (Hz : strict_offset (format_rfc3339 t) = true).
  { unfold strict_offset. by rewrite Hs, HasSuffix_app. }
  rewrite Hc, Hz. cbn [negb orb]. apply parse_format_rfc3339. unfold year_encodable in H.
  destruct (civil _) as [[y m] d]. lia.
Qed.

(** ** Records *)

Section Facts.
Context {F : FloatText}.

(** The event that reading the encoding of [e] yields: strings as UTF-8, details
    as decoded values; [None] when a number of the details is out of range. *)
Definition reread_details (p : payload) : option payload :=
  match p with Some (kv :: m) => dec_details (read_json (JObject (kv :: m))) None | _ => Some None end.
Definition reread_event (e : AuditEvent) : option AuditEvent :=
  d ← reread_details (au_Details e);
  Some (mkAuditEvent (au_Sequence e) (au_Timestamp e) (read_string (au_Type e)) (read_string (au_Actor e))
          (read_string (au_WorkspaceID e)) (read_string (au_Outcome e)) d).

Definition opt_text (k v : string) : option (string * json) := if v ==? "" then None else Some (k, JString (read_string v)).
Definition opt_int (k : string) (z : Z) : option (string * json) := if z =? 0 then None else Some (k, JNumber (enc_int z)).
Definition event_json (e : AuditEvent) : list (option (string * json)) :=
  [Some ("sequence", JNumber (enc_int (au_Sequence e))); Some ("timestamp", JString (format_rfc3339 (au_Timestamp e)));
   Some ("type", JString (read_string (au_Type e))); opt_text "actor" (au_Actor e); opt_text "workspace_id" (au_WorkspaceID e);
   opt_text "outcome" (au_Outcome e);
   match au_Details e with Some (kv :: m) => Some ("details", read_json (JObject (kv :: m))) | _ => None end].
Definition checkpoint_json (b : checkpointBoundary) : list (option (string * json)) :=
  [Some ("store_id", JString (read_string (cb_Store b))); Some ("generation", JNumber (enc_int (cb_Generation b)));
   Some ("last_sequence", JNumber (enc_int (cb_LastSequence b))); Some ("pruned_through", JNumber (enc_int (cb_PrunedThrough b)));
   Some ("event_count", JNumber (enc_int (cb_EventCount b))); opt_text "digest" (cb_Digest b)].
Definition record_json (r : auditRecord) : list (option (string * json)) :=
  [Some ("schema_version", JNumber (enc_int (ar_SchemaVersion r))); Some ("record_kind", JString (read_string (ar_Kind r)));
   Some ("recorded_at", JString (format_rfc3339 (ar_RecordedAt r))); opt_text "store_id" (ar_StoreID r);
   match ar_Event r with Some e => Some ("event", JObject (present_fields (event_json e))) | None => None end;
   opt_int "pruned_through" (ar_PrunedThrough r);
   match ar_Checkpoint r with Some b => Some ("checkpoint", JObject (present_fields (checkpoint_json b))) | None => None end].

(** Integers that fit. *)
Definition event_fits (e : AuditEvent) : Prop := is_u64 (au_Sequence e).
Definition checkpoint_fits (b : checkpointBoundary) : Prop :=
  is_u64 (cb_Generation b) /\ is_u64 (cb_LastSequence b) /\ is_u64 (cb_PrunedThrough b) /\ is_u64 (cb_EventCount b).
Definition record_fits (r : auditRecord) : Prop :=
  from_option event_fits True (ar_Event r) /\ is_u64 (ar_PrunedThrough r) /\ from_option checkpoint_fits True (ar_Checkpoint r).

Lemma reads_field_int k n : Z.abs n < 10 ^ 25 -> read_string k = k -> reads_field (fld k (enc_int n)) (Some (k, JNumber (enc_int n))).
Proof. intros H Hk. split; [done|]. by apply reads_int. Qed.
Lemma reads_field_u64 k n : is_u64 n -> read_string k = k -> reads_field (fld k (enc_int n)) (Some (k, JNumber (enc_int n))).
Proof. intros H. apply reads_field_int. unfold is_u64, u64_max in H. lia. Qed.
Lemma reads_field_text k s : read_string k = k -> reads_field (fld k (enc_string s)) (Some (k, JString (read_string s))).
Proof. intros Hk. split; [done|]. apply reads_string. Qed.
Lemma reads_field_time k t : read_string k = k -> reads_field (fld k (enc_time t)) (Some (k, JString (format_rfc3339 t))).
Proof. intros Hk. split; [done|]. apply reads_time. Qed.
Lemma reads_field_opt_text k s : read_string k = k -> reads_field (omit_str k s) (opt_text k s).
Proof. intros Hk. unfold omit_str, opt_text. destruct (s ==? ""); [done|]. by apply reads_field_text. Qed.
Lemma reads_field_opt_int k n : is_u64 n -> read_string k = k -> reads_field (omit_zero k n) (opt_int k n).
Proof. intros H Hk. unfold omit_zero, opt_int. destruct (n =? 0); [done|]. by apply reads_field_u64. Qed.

Ltac fields := repeat (apply List.Forall2_cons || apply List.Forall2_nil);
  try first [apply reads_field_text; reflexivity | apply reads_field_time; reflexivity | apply reads_field_opt_text; reflexivity].

Lemma reads_event e : event_fits e -> marshalAuditEvent e = Some (enc_audit_event e) ->
  reads (enc_audit_event e) (JObject (present_fields (event_json e))).
Proof.
  intros Hf Hm. unfold marshalAuditEvent in Hm. destruct (_ && _) eqn:E; [|done]. apply andb_true_iff in E as [_ Hd].
  apply reads_struct. unfold event_json. fields; [by apply reads_field_u64|].
  destruct (au_Details e) as [[|kv m]|]; [done| |done]. split; [done|]. unfold marshal_payload. by apply reads_json.
Qed.
Lemma reads_checkpoint b : checkpoint_fits b -> reads (enc_checkpoint b) (JObject (present_fields (checkpoint_json b))).
Proof. intros (H1 & H2 & H3 & H4). apply reads_struct. unfold checkpoint_json. fields; by apply reads_field_u64. Qed.
Lemma reads_record r line : Z.abs (ar_SchemaVersion r) < 10 ^ 25 -> record_fits r -> marshalAuditRecord r = Ok line ->
  line = enc_audit_record r /\ reads line (JObject (present_fields (record_json r))) /\ year_encodable (ar_RecordedAt r) = true /\
  slen line + 1 <= maximumRecordBytes /\ from_option (fun e => marshalAuditEvent e = Some (enc_audit_event e)) True (ar_Event r).
Proof.
  intros Hv (He & Hp & Hc) H. unfold marshalAuditRecord in H. ok_path H. subst line. breflect. destruct E as [Hy Hev].
  assert (Hm : from_option (fun e => marshalAuditEvent e = Some (enc_audit_event e)) True (ar_Event r)).
  { destruct (ar_Event r) as [e|]; [|done]. cbn. unfold marshalAuditEvent in *. by destruct (_ && _). }
  split; [done|]. split; [|by repeat split]. apply reads_struct. unfold record_json. fields.
  - by apply reads_field_int.
  - destruct (ar_Event r) as [e|]; [|done]. split; [done|]. by apply reads_event.
  - by apply reads_field_opt_int.
  - destruct (ar_Checkpoint r) as [b|]; [|done]. split; [done|]. by apply reads_checkpoint.
Qed.

(** One field at a time. *)
Section Assign.
Variables (sq ts : Z) (ty actor ws oc : string) (d : payload) (v : json).
Let e := mkAuditEvent sq ts ty actor ws oc d.
Lemma assign_sequence : assign_event e "sequence" v = (x ← dec_uint64 v sq; Some (mkAuditEvent x ts ty actor ws oc d)).
Proof. reflexivity. Qed.
Lemma assign_timestamp : assign_event e "timestamp" v = (x ← dec_time v ts; Some (mkAuditEvent sq x ty actor ws oc d)).
Proof. reflexivity. Qed.
Lemma assign_type : assign_event e "type" v = (x ← dec_string v ty; Some (mkAuditEvent sq ts x actor ws oc d)).
Proof. reflexivity. Qed.
Lemma assign_actor : assign_event e "actor" v = (x ← dec_string v actor; Some (mkAuditEvent sq ts ty x ws oc d)).
Proof. reflexivity. Qed.
Lemma assign_workspace : assign_event e "workspace_id" v = (x ← dec_string v ws; Some (mkAuditEvent sq ts ty actor x oc d)).
Proof. reflexivity. Qed.
Lemma assign_outcome : assign_event e "outcome" v = (x ← dec_string v oc; Some (mkAuditEvent sq ts ty actor ws x d)).
Proof. reflexivity. Qed.
Lemma assign_details : assign_event e "details" v = (x ← dec_details v d; Some (mkAuditEvent sq ts ty actor ws oc x)).
Proof. reflexivity. Qed.
End Assign.
Section AssignCheckpoint.
Variables (id dg : string) (g ls pt ec : Z) (v : json).
Let b := mkCheckpoint id g ls pt ec dg.
Lemma assign_cp_store : assign_checkpoint b "store_id" v = (x ← dec_string v id; Some (mkCheckpoint x g ls pt ec dg)).
Proof. reflexivity. Qed.
Lemma assign_cp_generation : assign_checkpoint b "generation" v = (x ← dec_uint64 v g; Some (mkCheckpoint id x ls pt ec dg)).
Proof. reflexivity. Qed.
Lemma assign_cp_last : assign_checkpoint b "last_sequence" v = (x ← dec_uint64 v ls; Some (mkCheckpoint id g x pt ec dg)).
Proof. reflexivity. Qed.
Lemma assign_cp_pruned : assign_checkpoint b "pruned_through" v = (x ← dec_uint64 v pt; Some (mkCheckpoint id g ls x ec dg)).
Proof. reflexivity. Qed.
Lemma assign_cp_count : assign_checkpoint b "event_count" v = (x ← dec_uint64 v ec; Some (mkCheckpoint id g ls pt x dg)).
Proof. reflexivity. Qed.
Lemma assign_cp_digest : assign_checkpoint b "digest" v = (x ← dec_string v dg; Some (mkCheckpoint id g ls pt ec x)).
Proof. reflexivity. Qed.
End AssignCheckpoint.
Section AssignRecord.
Variables (sv at_ pt : Z) (kd id : string) (ev : option AuditEvent) (cp : option checkpointBoundary) (v : json).
Let r := mkAuditRecord sv kd at_ id ev pt cp.
Lemma assign_version : assign_record r "schema_version" v = (x ← dec_int64 v sv; Some (mkAuditRecord x kd at_ id ev pt cp)).
Proof. reflexivity. Qed.
Lemma assign_record_kind : assign_record r "record_kind" v = (x ← dec_string v kd; Some (mkAuditRecord sv x at_ id ev pt cp)).
Proof. reflexivity. Qed.
Lemma assign_recorded : assign_record r "recorded_at" v = (x ← dec_time v at_; Some (mkAuditRecord sv kd x id ev pt cp)).
Proof. reflexivity. Qed.
Lemma assign_store : assign_record r "store_id" v = (x ← dec_string v id; Some (mkAuditRecord sv kd at_ x ev pt cp)).
Proof. reflexivity. Qed.
Lemma assign_record_event : assign_record r "event" v = (x ← dec_pointer assign_event zeroAuditEvent v ev; Some (mkAuditRecord sv kd at_ id x pt cp)).
Proof. reflexivity. Qed.
Lemma assign_pruned : assign_record r "pruned_through" v = (x ← dec_uint64 v pt; Some (mkAuditRecord sv kd at_ id ev x cp)).
Proof. reflexivity. Qed.
Lemma assign_record_checkpoint :
  assign_record r "checkpoint" v = (x ← dec_pointer assign_checkpoint zeroCheckpoint v cp; Some (mkAuditRecord sv kd at_ id ev pt x)).
Proof. reflexivity. Qed.
End AssignRecord.

(** A sequence of assignments, some of them left out. *)
Definition run_fields {A} (assign : A -> string -> json -> option A) (old : option A) (js : list (option (string * json))) : option A :=
  foldl (fun acc j => match j with Some (k, v) => acc' ← acc; assign acc' k v | None => acc end) old js.
Lemma dec_struct_fields {A} (assign : A -> string -> json -> option A) js old :
  dec_struct assign (JObject (present_fields js)) old = run_fields assign (Some old) js.
Proof.
  cbn [dec_struct]. unfold run_fields, present_fields, omap. generalize (Some old). induction js as [|[[k v]|] js IH]; intros o; [done| |].
  - cbn [list_omap foldl fst snd]. apply IH.
  - cbn [list_omap foldl]. apply IH.
Qed.
Lemma run_fields_none {A} (assign : A -> string -> json -> option A) js : run_fields assign None js = None.
Proof. induction js as [|[[k v]|] js IH]; [done| |]; exact IH. Qed.
Lemma run_fields_cons {A} (assign : A -> string -> json -> option A) a j js :
  run_fields assign (Some a) (j :: js) = run_fields assign (match j with Some (k, v) => assign a k v | None => Some a end) js.
Proof. by destruct j as [[k v]|]. Qed.

Lemma read_string_empty_iff s : (if s ==? "" then "" else read_string s) = read_string s.
Proof. destruct (s ==? "") eqn:E; [|done]. by apply bool_decide_eq_true in E as ->. Qed.


Lemma run_opt_text {A} (assign : A -> string -> json -> option A) (put : string -> A) k s a :
  (forall v, assign a k v = (x ← dec_string v ""; Some (put x))) -> a = put "" ->
  match opt_text k s with Some (k, v) => assign a k v | None => Some a end = Some (put (read_string s)).
Proof.
  intros H Ha. unfold opt_text. destruct (s ==? "") eqn:E; [apply bool_decide_eq_true in E as ->; by rewrite Ha|]. by rewrite H.
Qed.

Lemma event_reread e : event_fits e -> year_encodable (au_Timestamp e) = true ->
  dec_struct assign_event (JObject (present_fields (event_json e))) zeroAuditEvent = reread_event e.
Proof.
  intros Hf Hy. rewrite dec_struct_fields. unfold event_json, zeroAuditEvent, reread_event, reread_details.
  rewrite run_fields_cons, assign_sequence, dec_uint64_enc by done. cbn [mbind option_bind].
  rewrite run_fields_cons, assign_timestamp, dec_time_enc by done. cbn [mbind option_bind].
  rewrite run_fields_cons, assign_type. cbn [dec_string mbind option_bind].
  rewrite run_fields_cons, (run_opt_text _ (fun x => mkAuditEvent _ _ _ x _ _ _)) by done.
  rewrite run_fields_cons, (run_opt_text _ (fun x => mkAuditEvent _ _ _ _ x _ _)) by done.
  rewrite run_fields_cons, (run_opt_text _ (fun x => mkAuditEvent _ _ _ _ _ x _)) by done.
  rewrite run_fields_cons. destruct (au_Details e) as [[|kv m]|]; [done| |done]. rewrite assign_details. done.
Qed.
Lemma checkpoint_reread b : checkpoint_fits b ->
  dec_struct assign_checkpoint (JObject (present_fields (checkpoint_json b))) zeroCheckpoint =
  Some (mkCheckpoint (read_string (cb_Store b)) (cb_Generation b) (cb_LastSequence b) (cb_PrunedThrough b) (cb_EventCount b) (read_string (cb_Digest b))).
Proof.
  intros (H1 & H2 & H3 & H4). rewrite dec_struct_fields. unfold checkpoint_json, zeroCheckpoint.
  rewrite run_fields_cons, assign_cp_store. cbn [dec_string mbind option_bind].
  rewrite run_fields_cons, assign_cp_generation, dec_uint64_enc by done. cbn [mbind option_bind].
  rewrite run_fields_cons, assign_cp_last, dec_uint64_enc by done. cbn [mbind option_bind].
  rewrite run_fields_cons, assign_cp_pruned, dec_uint64_enc by done. cbn [mbind option_bind].
  rewrite run_fields_cons, assign_cp_count, dec_uint64_enc by done. cbn [mbind option_bind].
  rewrite run_fields_cons, (run_opt_text _ (fun x => mkCheckpoint _ _ _ _ _ x)) by done. done.
Qed.

Definition reread_checkpoint (b : checkpointBoundary) : checkpointBoundary :=
  mkCheckpoint (read_string (cb_Store b)) (cb_Generation b) (cb_LastSequence b) (cb_PrunedThrough b) (cb_EventCount b) (read_string (cb_Digest b)).
Definition reread_record (r : auditRecord) : option auditRecord :=
  ev ← match ar_Event r with Some e => Some <$> reread_event e | None => Some None end;
  Some (mkAuditRecord (ar_SchemaVersion r) (read_string (ar_Kind r)) (ar_RecordedAt r) (read_string (ar_StoreID r)) ev (ar_PrunedThrough r)
          (reread_checkpoint <$> ar_Checkpoint r)).

Lemma record_reread r : ar_SchemaVersion r = 1 -> record_fits r -> year_encodable (ar_RecordedAt r) = true ->
  from_option (fun e => year_encodable (au_Timestamp e) = true) True (ar_Event r) ->
  dec_struct assign_record (JObject (present_fields (record_json r))) zeroAuditRecord = reread_record r.
Proof.
  intros Hv (He & Hp & Hc) Hy Hey. rewrite dec_struct_fields. unfold record_json, zeroAuditRecord, reread_record.
  rewrite run_fields_cons, assign_version, Hv. change (dec_int64 (JNumber (enc_int 1)) 0) with (Some 1). cbn [mbind option_bind].
  rewrite run_fields_cons, assign_record_kind. cbn [dec_string mbind option_bind].
  rewrite run_fields_cons, assign_recorded, dec_time_enc by done. cbn [mbind option_bind].
  rewrite run_fields_cons, (run_opt_text _ (fun x => mkAuditRecord _ _ _ x _ _ _)) by done.
  rewrite run_fields_cons.
  assert (Hev : match match ar_Event r with Some e => Some ("event", JObject (present_fields (event_json e))) | None => None end with
    | Some (k, v) => assign_record (mkAuditRecord 1 (read_string (ar_Kind r)) (ar_RecordedAt r) (read_string (ar_StoreID r)) None 0 None) k v
    | None => Some (mkAuditRecord 1 (read_string (ar_Kind r)) (ar_RecordedAt r) (read_string (ar_StoreID r)) None 0 None) end =
    (ev ← match ar_Event r with Some e => Some <$> reread_event e | None => Some None end;
     Some (mkAuditRecord 1 (read_string (ar_Kind r)) (ar_RecordedAt r) (read_string (ar_StoreID r)) ev 0 None))).
  { destruct (ar_Event r) as [e|]; [|done]. rewrite assign_record_event. unfold dec_pointer. cbn [default].
    change (dec_struct assign_event (JObject (present_fields (event_json e))) (default zeroAuditEvent None)) with
      (dec_struct assign_event (JObject (present_fields (event_json e))) zeroAuditEvent).
    rewrite event_reread by done. done. }
  rewrite Hev. clear Hev. destruct (match ar_Event r with Some e => Some <$> reread_event e | None => Some None end) as [ev|]; cbn [mbind option_bind].
  2: apply run_fields_none.
  rewrite run_fields_cons. unfold opt_int.
  assert (Hpt : match (if ar_PrunedThrough r =? 0 then None else Some ("pruned_through", JNumber (enc_int (ar_PrunedThrough r)))) with
    | Some (k, v) => assign_record (mkAuditRecord 1 (read_string (ar_Kind r)) (ar_RecordedAt r) (read_string (ar_StoreID r)) ev 0 None) k v
    | None => Some (mkAuditRecord 1 (read_string (ar_Kind r)) (ar_RecordedAt r) (read_string (ar_StoreID r)) ev 0 None) end =
    Some (mkAuditRecord 1 (read_string (ar_Kind r)) (ar_RecordedAt r) (read_string (ar_StoreID r)) ev (ar_PrunedThrough r) None)).
  { destruct (ar_PrunedThrough r =? 0) eqn:E; [by replace (ar_PrunedThrough r) with 0 by lia|]. by rewrite assign_pruned, dec_uint64_enc. }
  rewrite Hpt, run_fields_cons. destruct (ar_Checkpoint r) as [b|]; [|done].
  rewrite assign_record_checkpoint. unfold dec_pointer. change (default zeroCheckpoint None) with zeroCheckpoint. by rewrite checkpoint_reread.
Qed.

(** A line that was encoded is decoded as the record it encodes. *)
Lemma decode_encoded r line : ar_SchemaVersion r = 1 -> record_fits r -> read_string (ar_Kind r) <> "" -> marshalAuditRecord r = Ok line ->
  decodeAuditRecord line = match reread_record r with Some r' => Ok r' | None => Err (AuditError "invalid JSON") end.
Proof.
  intros Hv Hf Hk Hm. destruct (reads_record r line ltac:(rewrite Hv; lia) Hf Hm) as (-> & Hr & Hy & _ & Hev).
  unfold decodeAuditRecord. rewrite (reads_parse _ _ Hr). cbn [mbind option_bind]. rewrite record_reread; [|done..|].
  2: { destruct (ar_Event r) as [e|]; [|done]. cbn [from_option] in *. unfold marshalAuditEvent in Hev.
       destruct (year_encodable (au_Timestamp e)); [done|discriminate Hev]. }
  unfold reread_record. destruct (match ar_Event r with Some e => Some <$> reread_event e | None => Some None end) as [ev|]; [|done].
  cbn [mbind option_bind ar_SchemaVersion ar_Kind]. rewrite Hv. rewrite bool_decide_true by done. cbn [negb].
  by rewrite bool_decide_false.
Qed.

(** The kind the first look at a line finds is the kind of its record. *)
Lemma names_field_unique k a b : names_field k a = true -> names_field k b = true -> names_field a b = true.
Proof. unfold names_field. rewrite !bool_decide_eq_true. congruence. Qed.
Lemma assign_kind_record r k v r' : assign_record r k v = Some r' -> assign_kind (ar_Kind r) k v = Some (ar_Kind r').
Proof.
  unfold assign_kind. destruct (names_field k "record_kind") eqn:E.
  - assert (Hn : names_field k "schema_version" = false).
    { apply not_true_is_false. intros H. by pose proof (names_field_unique _ _ _ H E). }
    destruct r as [sv kd at_ id ev pt cp]. unfold assign_record. rewrite Hn, E. cbn [ar_Kind]. intros H. apply bind_Some in H as (x & -> & H). by simplify_eq.
  - destruct r as [sv kd at_ id ev pt cp]. unfold assign_record. rewrite E. cbn [ar_Kind]. intros H.
    repeat case_match; first [apply bind_Some in H as (x & _ & H); by simplify_eq | by simplify_eq].
Qed.
Lemma envelope_of_record line r : decodeAuditRecord line = Ok r -> envelope_kind line = Some (ar_Kind r).
Proof.
  unfold decodeAuditRecord, envelope_kind. destruct (parse line) as [v|]; [|done]. cbn [mbind option_bind].
  destruct (dec_struct assign_record v zeroAuditRecord) as [r'|] eqn:E; [|done]. intros H. ok_path H. subst r'.
  destruct v as [| | | | |m]; try discriminate E; cbn [dec_struct] in *; [by simplify_eq|].
  change "" with (ar_Kind zeroAuditRecord). revert E. generalize zeroAuditRecord.
  induction m as [|[k v] m IH]; intros r0 E; cbn [foldl fst snd mbind option_bind] in *; [by simplify_eq|].
  destruct (assign_record r0 k v) as [r1|] eqn:Es.
  - rewrite (assign_kind_record _ _ _ _ Es). by apply IH.
  - exfalso. clear -E. induction m as [|[k' v'] m IH]; cbn [foldl mbind option_bind] in E; [done|]. by apply IH.
Qed.
Lemma decoded_kind line r : decodeAuditRecord line = Ok r -> ar_Kind r <> "" /\ ar_SchemaVersion r = 1.
Proof.
  unfold decodeAuditRecord. destruct (v ← parse line; _) as [r'|]; [|done]. intros H. ok_path H. subst. breflect. by split.
Qed.

(** Decoded integers fit. *)
Lemma is_u64_0 : is_u64 0.
Proof. unfold is_u64, u64_max. lia. Qed.
Lemma dec_digits_nonneg s : forall acc n, 0 <= acc -> dec_digits acc s = Some n -> 0 <= n.
Proof.
  induction s as [|c s IH]; intros acc n Ha H; cbn [dec_digits] in H; [by simplify_eq|]. destruct (is_digit c) eqn:E; [|done].
  apply (IH _ _) in H; [done|]. unfold is_digit, between in E. lia.
Qed.
Lemma dec_uint64_fits v old n : is_u64 old -> dec_uint64 v old = Some n -> is_u64 n.
Proof.
  unfold dec_uint64. intros Ho H. destruct v; try done; [by simplify_eq|]. destruct (HasPrefix lit "-") eqn:Ep; [done|].
  apply bind_Some in H as (x & Hx & H). destruct (x <=? u64_max) eqn:E; [|done]. simplify_eq. split; [|lia].
  unfold dec_literal in Hx. destruct lit as [|c rest]; [done|].
  destruct (c ==? "-"%char) eqn:Ec; [apply bool_decide_eq_true in Ec as ->; by destruct rest|].
  by eapply dec_digits_nonneg; [|exact Hx].
Qed.
Lemma dec_struct_inv {A} (assign : A -> string -> json -> option A) (P : A -> Prop) v old a :
  (forall a k x a', P a -> assign a k x = Some a' -> P a') -> P old -> dec_struct assign v old = Some a -> P a.
Proof.
  intros Hs. destruct v as [| | | | |m]; cbn [dec_struct]; try done; [by intros; simplify_eq|].
  revert old. induction m as [|[k x] m IH]; intros old Ho H; cbn [foldl fst snd mbind option_bind] in H; [by simplify_eq|].
  destruct (assign old k x) as [b|] eqn:E; [by eapply IH; [eapply Hs|]|].
  exfalso. clear -H. induction m as [|[k' v'] m IH]; cbn [foldl mbind option_bind] in H; [done|]. by apply IH.
Qed.
Ltac assign_cases H := repeat case_match; first [apply bind_Some in H as (? & ? & H); simplify_eq | simplify_eq].
Lemma assign_event_fits e k v e' : event_fits e -> assign_event e k v = Some e' -> event_fits e'.
Proof.
  destruct e as [sq ts ty actor ws oc d]. unfold assign_event, event_fits. cbn [au_Sequence]. intros Hf H. assign_cases H; cbn [au_Sequence]; try done. by eapply dec_uint64_fits.
Qed.
Lemma assign_checkpoint_fits b k v b' : checkpoint_fits b -> assign_checkpoint b k v = Some b' -> checkpoint_fits b'.
Proof.
  destruct b as [id g ls pt ec dg]. unfold assign_checkpoint, checkpoint_fits. cbn. intros (H1 & H2 & H3 & H4) H.
  assign_cases H; cbn; refine (conj _ (conj _ (conj _ _))); first [assumption | eapply dec_uint64_fits; [|eassumption]; assumption].
Qed.
Lemma dec_pointer_inv {A} (assign : A -> string -> json -> option A) (P : A -> Prop) zero v old o :
  (forall a k x a', P a -> assign a k x = Some a' -> P a') -> P zero -> from_option P True old -> dec_pointer assign zero v old = Some o ->
  from_option P True o.
Proof.
  intros Hs Hz Ho H. unfold dec_pointer in H. assert (Hd : P (default zero old)) by (by destruct old).
  destruct v; [by simplify_eq|..];
    (destruct (dec_struct assign _ _) as [a|] eqn:E; cbn in H; [|discriminate H]; simplify_eq; cbn [from_option]; by eapply dec_struct_inv).
Qed.
Lemma assign_record_fits r k v r' : record_fits r -> assign_record r k v = Some r' -> record_fits r'.
Proof.
  destruct r as [sv kd at_ id ev pt cp]. unfold assign_record, record_fits. cbn [ar_Event ar_PrunedThrough ar_Checkpoint].
  intros (H1 & H2 & H3) H. assign_cases H; cbn [ar_Event ar_PrunedThrough ar_Checkpoint]; refine (conj _ (conj _ _)); try done.
  - eapply (dec_pointer_inv assign_event event_fits zeroAuditEvent); [apply assign_event_fits|exact is_u64_0|exact H1|eassumption].
  - by eapply dec_uint64_fits.
  - eapply (dec_pointer_inv assign_checkpoint checkpoint_fits zeroCheckpoint); [apply assign_checkpoint_fits| |exact H3|eassumption].
    exact (conj is_u64_0 (conj is_u64_0 (conj is_u64_0 is_u64_0))).
Qed.
Lemma decoded_fits line r : decodeAuditRecord line = Ok r -> record_fits r.
Proof.
  unfold decodeAuditRecord. destruct (parse line) as [v|]; [|done]. cbn [mbind option_bind].
  destruct (dec_struct assign_record v zeroAuditRecord) as [r'|] eqn:E; [|done]. intros H. ok_path H. subst r'.
  eapply (dec_struct_inv assign_record record_fits v zeroAuditRecord); [apply assign_record_fits|exact (conj I (conj is_u64_0 I))|exact E].
Qed.

(** ** States without gaps *)

(** The retained events are those with the sequences after the watermark, up to
    the last one. *)
Definition gapless (st : auditState) : Prop :=
  0 <= as_prunedThrough st <= as_lastSequence st /\ as_lastSequence st <= u64_max /\
  Z.of_nat (length (as_events st)) = as_lastSequence st - as_prunedThrough st /\
  (forall i se, as_events st !! i = Some se -> au_Sequence (se_event se) = as_prunedThrough st + Z.of_nat i + 1).

(** The sequences are fixed by the events and the two watermarks. *)
Lemma gapless_same st st' :
  as_events st' = as_events st -> as_prunedThrough st' = as_prunedThrough st -> as_lastSequence st' = as_lastSequence st ->
  gapless st -> gapless st'.
Proof. unfold gapless. by intros -> -> ->. Qed.
Lemma gapless_new id : gapless (newAuditState id).
Proof. unfold gapless, u64_max; cbn. repeat split; try lia. intros i se H. by rewrite lookup_nil in H. Qed.

Lemma next_sequence last n : is_u64 last -> n = u64_succ last -> n <> 0 -> n = last + 1 /\ last + 1 <= u64_max.
Proof.
  intros Hl -> Hn. rewrite (u64_succ_pos last Hl Hn). split; [done|].
  pose proof (u64_succ_range last) as Hr. rewrite (u64_succ_pos last Hl Hn) in Hr. by destruct Hr.
Qed.
Lemma gapless_u64 st : gapless st -> is_u64 (as_lastSequence st) /\ is_u64 (as_prunedThrough st).
Proof. unfold gapless, is_u64. lia. Qed.

Lemma gapless_push st event at_ : gapless st -> au_Sequence event = as_lastSequence st + 1 -> as_lastSequence st + 1 <= u64_max ->
  gapless (as_push st event at_).
Proof.
  intros (H1 & H2 & H3 & H4) Hs Hm. unfold gapless, as_push. cbn. rewrite length_app. cbn [length]. repeat split; try lia.
  intros i se Hi. apply lookup_app_Some in Hi as [Hi|[Hl Hi]]; [by apply H4|].
  assert (Hz : (i - length (as_events st))%nat = 0%nat) by (apply lookup_lt_Some in Hi; cbn in Hi; lia).
  rewrite Hz in Hi. cbn in Hi. simplify_eq. cbn. lia.
Qed.
Lemma advance_effect st through st' : gapless st -> as_prunedThrough st <= through <= as_lastSequence st ->
  advancePruneWatermark st through = Ok st' ->
  as_events st' = drop (Z.to_nat (through - as_prunedThrough st)) (as_events st) /\ as_prunedThrough st' = through /\
  as_lastSequence st' = as_lastSequence st /\ as_lastRecordedAt st' = as_lastRecordedAt st /\ as_storeID st' = as_storeID st /\
  as_generation st' = as_generation st /\ as_header st' = as_header st /\ as_compacted st' = as_compacted st /\ as_legacy st' = as_legacy st.
Proof.
  intros (H1 & H2 & H3 & H4) Ht. unfold advancePruneWatermark. destruct (through =? as_prunedThrough st) eqn:E.
  - intros H. simplify_eq. replace (through - as_prunedThrough st') with 0 by lia. replace through with (as_prunedThrough st') by lia. done.
  - assert (Hu : u64 (through - as_prunedThrough st) = through - as_prunedThrough st) by (apply Z.mod_small; unfold u64_max in H2; lia).
    rewrite Hu. intros H. ok_path H. subst st'. done.
Qed.
(** Moving the watermark within the retained events succeeds. *)
Lemma advance_total st through : gapless st -> as_prunedThrough st <= through <= as_lastSequence st ->
  exists st', advancePruneWatermark st through = Ok st'.
Proof.
  intros (H1 & H2 & H3 & H4) Ht. unfold advancePruneWatermark. destruct (through =? as_prunedThrough st); [by eexists|].
  assert (Hu : u64 (through - as_prunedThrough st) = through - as_prunedThrough st) by (apply Z.mod_small; unfold u64_max in H2; lia).
  rewrite Hu. replace (_ <? _) with false by lia. by eexists.
Qed.
Lemma gapless_advance st through st' : gapless st -> as_prunedThrough st <= through <= as_lastSequence st ->
  advancePruneWatermark st through = Ok st' -> gapless st'.
Proof.
  intros Hg Ht H. pose proof Hg as (H1 & H2 & H3 & H4). destruct (advance_effect st through st' Hg Ht H) as (He & Hp & Hl & _).
  unfold gapless. rewrite He, Hp, Hl, length_drop. repeat split; try lia. intros i se Hi. rewrite lookup_drop in Hi. apply H4 in Hi. lia.
Qed.

Lemma applyEventRecord_inv st r st' : gapless st -> applyEventRecord st r = Ok st' ->
  exists event, ar_Event r = Some event /\ au_Sequence event = as_lastSequence st + 1 /\ as_lastSequence st + 1 <= u64_max /\
    as_prunedThrough st <= ar_PrunedThrough r < au_Sequence event /\ moves_backward st (ar_RecordedAt r) = false /\ ar_RecordedAt r <> 0 /\
    gapless (as_push st event (ar_RecordedAt r)) /\
    advancePruneWatermark (as_push st event (ar_RecordedAt r)) (ar_PrunedThrough r) = Ok st'.
Proof.
  intros Hg H. unfold applyEventRecord in H. ok_path H. unfold validatePersistedEvent in *.
  match goal with Hv : context [au_Sequence ?e =? 0] |- _ => rename e into event; ok_path Hv end. breflect.
  destruct (next_sequence (as_lastSequence st) (au_Sequence event)) as [Hs Hm]; [by apply gapless_u64|done|done|].
  exists event. split_and!; try done; try lia. by apply gapless_push.
Qed.
Lemma gapless_event st r st' : gapless st -> applyEventRecord st r = Ok st' -> gapless st'.
Proof.
  intros Hg H. destruct (applyEventRecord_inv st r st' Hg H) as (event & _ & Hs & Hm & Hp & _ & _ & Hgp & Ha).
  refine (gapless_advance _ _ _ Hgp _ Ha). cbn. lia.
Qed.
Lemma applyPruneRecord_inv st r st' : applyPruneRecord st r = Ok st' ->
  as_prunedThrough st < ar_PrunedThrough r <= as_lastSequence st /\ moves_backward st (ar_RecordedAt r) = false /\
  advancePruneWatermark (mkAuditState (as_storeID st) (as_generation st) (as_header st) (as_compacted st) (as_legacy st) (as_lastSequence st)
       (as_prunedThrough st) (ar_RecordedAt r) (as_events st) (as_hasObsoleteHistory st)) (ar_PrunedThrough r) = Ok st'.
Proof. unfold applyPruneRecord. intros H. ok_path H. breflect. split_and!; try done; lia. Qed.
Lemma gapless_prune st r st' : gapless st -> applyPruneRecord st r = Ok st' -> gapless st'.
Proof.
  intros Hg H. destruct (applyPruneRecord_inv st r st' H) as (Hp & _ & Ha).
  refine (gapless_advance _ _ _ _ _ Ha); [by eapply gapless_same; [..|exact Hg]|cbn; lia].
Qed.

(** A checkpoint that is being read: nothing but the events seen so far. *)
Definition loading (p : checkpointRecovery) (st : auditState) : Prop :=
  let b := cp_boundary p in
  checkpoint_fits b /\ cb_EventCount b = cb_LastSequence b - cb_PrunedThrough b /\ cb_PrunedThrough b <= cb_LastSequence b /\
  as_prunedThrough st = cb_PrunedThrough b /\ Z.of_nat (length (as_events st)) = cp_seen p /\ 0 <= cp_seen p <= cb_EventCount b /\
  (forall i se, as_events st !! i = Some se -> au_Sequence (se_event se) = cb_PrunedThrough b + Z.of_nat i + 1).
Definition scanned (v : recovering) : Prop :=
  match rv_checkpoint v with
  | Some p => if cp_sealed p then gapless (rv_state v) else loading p (rv_state v)
  | None => gapless (rv_state v)
  end /\ (rv_lineNumber v = 0 -> as_events (rv_state v) = []) /\ 0 <= rv_lineNumber v.

Lemma begin_loading st r line st' p : record_fits r -> as_events st = [] -> beginCheckpoint st r line = Ok (st', p) ->
  loading p st' /\ cp_sealed p = false /\ ar_Checkpoint r = Some (cp_boundary p).
Proof.
  intros (_ & _ & Hc) He H. unfold beginCheckpoint in H. ok_path H. simplify_eq. breflect. cbn [cp_boundary cp_sealed].
  split_and!; try done. cbn [from_option] in Hc.
  unfold loading; cbn. rewrite He. destruct Hc as (H1 & H2 & H3 & H4). unfold is_u64 in *. split_and!; try done; try lia.
Qed.
Lemma loading_step p st r line st' p' : loading p st -> record_fits r -> checkpoint_apply p st r line = Ok (st', p') ->
  if cp_sealed p' then gapless st' else loading p' st'.
Proof.
  intros (Hf & Hc & Hb & Hp & Hl & Hs & He) (Hr & _) H. pose proof Hf as (F1 & F2 & F3 & F4). unfold checkpoint_apply in H.
  destruct (ar_Kind r ==? auditSnapshotEvent).
  - ok_path H. simplify_eq. cbn [cp_sealed]. breflect.
    match goal with E : ar_Event r = Some ?e |- _ => rename e into event end.
    assert (Hu : u64 (cb_PrunedThrough (cp_boundary p) + cp_seen p + 1) = cb_PrunedThrough (cp_boundary p) + cp_seen p + 1).
    { apply Z.mod_small. unfold is_u64, u64_max in *. lia. }
    unfold loading; cbn. rewrite length_app. cbn [length]. split_and!; try done; try lia.
    intros i se Hi. apply lookup_app_Some in Hi as [Hi|[Hli Hi]]; [by apply He|].
    assert (Hz : (i - length (as_events st))%nat = 0%nat) by (apply lookup_lt_Some in Hi; cbn in Hi; lia).
    rewrite Hz in Hi. cbn in Hi. simplify_eq. cbn. lia.
  - destruct (ar_Kind r ==? auditSnapshotEnd); [|discriminate]. ok_path H. simplify_eq. cbn [cp_sealed]. breflect.
    unfold gapless; cbn. unfold is_u64 in *. rewrite Hp. split_and!; try done; try lia.
Qed.
Lemma applyRecord_scanned st cp n r line st' cp' : gapless st -> (n = 1 -> as_events st = []) -> unsealed cp = false -> record_fits r ->
  applyRecord st cp n r line = Ok (st', cp') ->
  match cp' with Some p => if cp_sealed p then gapless st' else loading p st' | None => gapless st' end.
Proof.
  intros Hg Hn Hcp Hr H. unfold applyRecord in H.
  assert (Hk : gapless st' -> cp' = cp -> match cp' with Some p => if cp_sealed p then gapless st' else loading p st' | None => gapless st' end).
  { intros Hg' ->. destruct cp as [p|]; [|done]. cbn in Hcp. by destruct (cp_sealed p). }
  destruct (ar_Kind r ==? auditHeader).
  { ok_path H. simplify_eq. apply Hk; [|done]. unfold applyHeaderRecord in *. match goal with E : _ = Ok st' |- _ => ok_path E end.
    subst st'. by eapply gapless_same; [..|exact Hg]. }
  destruct (ar_Kind r ==? auditSnapshotBegin).
  { ok_path H. simplify_eq. breflect. match goal with E : beginCheckpoint _ _ _ = Ok _ |- _ => apply begin_loading in E as (Hl & -> & _); [done|done|apply Hn; lia] end. }
  destruct (ar_Kind r ==? auditEvent).
  { ok_path H. simplify_eq. apply Hk; [|done]. by eapply gapless_event. }
  destruct (ar_Kind r ==? auditPrune); [|discriminate]. ok_path H. simplify_eq. apply Hk; [|done]. by eapply gapless_prune.
Qed.
Lemma gapless_legacy st event at_ st' : gapless st -> au_Sequence event <> 0 -> applyLegacyEvent st event at_ = Ok st' -> gapless st'.
Proof.
  intros Hg Hn H. unfold applyLegacyEvent in H. ok_path H. subst st'. breflect.
  destruct (next_sequence (as_lastSequence st) (au_Sequence event)) as [Hs Hm]; [by apply gapless_u64|done|done|].
  eapply gapless_same; [| | |by apply (gapless_push st event at_)]; done.
Qed.
Lemma decodeLine_valid line e : decodeLine line = Ok e -> au_Sequence e <> 0.
Proof.
  unfold decodeLine. intros H. ok_path H. subst. unfold validatePersistedEvent in *.
  match goal with E : _ = Ok _ |- _ => ok_path E end. breflect. done.
Qed.
Lemma scanned_step mt v line v' : scanned v -> scanLine mt v line = Ok v' -> scanned v'.
Proof.
  intros (Hs & Hn & Hl) H. unfold scanLine in H. destruct (maximumRecordBytes <? _); [discriminate|].
  destruct (envelope_kind line) as [kind|]; [|discriminate]. destruct (kind ==? "").
  - ok_path H. subst v'. breflect. destruct (rv_checkpoint v) eqn:Ec; [by destruct E|].
    split; [|cbn; split; lia]. cbn [rv_checkpoint rv_state].
    eapply gapless_legacy; [exact Hs|by eapply decodeLine_valid|eassumption].
  - destruct (rv_sawLegacy v); [discriminate|]. destruct (decodeAuditRecord line) as [r|] eqn:Er; [|discriminate]. cbn [result_bind] in H.
    pose proof (decoded_fits _ _ Er) as Hr.
    destruct (rv_checkpoint v) as [p|] eqn:Ec; [destruct (cp_sealed p) eqn:Ep|]; ok_path H; subst v';
      (split; [|cbn; split; lia]); cbn [rv_checkpoint rv_state].
    + refine (applyRecord_scanned _ (Some p) (rv_lineNumber v + 1) r line _ _ Hs _ _ Hr _); [intros; apply Hn; lia|cbn; by rewrite Ep|eassumption].
    + eapply loading_step; [exact Hs|exact Hr|eassumption].
    + refine (applyRecord_scanned _ None (rv_lineNumber v + 1) r line _ _ Hs _ _ Hr _); [intros; apply Hn; lia|done|eassumption].
Qed.
Lemma scanned_start id : scanned (startRecovery id).
Proof. split; [apply gapless_new|by split]. Qed.
Lemma scanLines_scanned mt id lines v : scanLines mt id lines = Ok v -> scanned v.
Proof. apply (result_fold_inv (scanLine mt) scanned lines); [intros; by eapply scanned_step|apply scanned_start]. Qed.
Lemma finish_gapless v bytes id st : scanned v -> finishRecovery v bytes id = Ok st -> gapless st.
Proof.
  intros (Hs & _) H. unfold finishRecovery in H. ok_path H. subst st. destruct (rv_checkpoint v) as [p|]; [|done].
  cbn in E. by destruct (cp_sealed p).
Qed.
Lemma recovered_gapless mt id lines st : recoverLines mt id lines = Ok st -> gapless st.
Proof. unfold recoverLines. intros H. ok_path H. eapply finish_gapless; [by eapply scanLines_scanned|exact H]. Qed.

(** ** Events that are kept *)

Definition same_event (a b : AuditEvent) : Prop := enc_audit_event a = enc_audit_event b.
(** The journal has the event, or retention removed it. *)
Definition kept (e : AuditEvent) (st : auditState) : Prop :=
  au_Sequence e <= as_prunedThrough st \/
  exists se, se ∈ as_events st /\ au_Sequence (se_event se) = au_Sequence e /\ same_event e (se_event se).

Lemma eventsSemanticallyEqual_same a b : eventsSemanticallyEqual a b = true -> same_event a b.
Proof.
  unfold eventsSemanticallyEqual, marshalAuditEvent, same_event. destruct (_ && _); [|done]. destruct (_ && _); [|done].
  by intros H%bool_decide_eq_true.
Qed.
Lemma sequence_in_range st se : gapless st -> se ∈ as_events st ->
  exists i, as_events st !! i = Some se /\ au_Sequence (se_event se) = as_prunedThrough st + Z.of_nat i + 1 /\
    as_prunedThrough st < au_Sequence (se_event se) <= as_lastSequence st.
Proof.
  intros (H1 & H2 & H3 & H4) Hse. apply list_elem_of_lookup in Hse as [i Hi]. exists i. split; [done|].
  pose proof (H4 _ _ Hi) as Hs. apply lookup_lt_Some in Hi. lia.
Qed.
Lemma kept_advance e st through st' : gapless st -> as_prunedThrough st <= through <= as_lastSequence st ->
  advancePruneWatermark st through = Ok st' -> kept e st -> kept e st'.
Proof.
  intros Hg Ht H. destruct (advance_effect st through st' Hg Ht H) as (He & Hp & _). unfold kept. rewrite Hp, He.
  intros [Hk|(se & Hse & Hs & Hsame)]; [left; lia|]. destruct (sequence_in_range st se Hg Hse) as (i & Hi & Hsi & _).
  destruct (decide (au_Sequence e <= through)); [by left|]. right. exists se. split; [|done].
  apply list_elem_of_lookup. exists (i - Z.to_nat (through - as_prunedThrough st))%nat. rewrite lookup_drop.
  replace (_ + _)%nat with i by lia. done.
Qed.
Lemma kept_push e st event at_ : kept e st -> kept e (as_push st event at_).
Proof. unfold kept; cbn. intros [H|(se & H & Hs)]; [by left|]. right. exists se. split; [apply elem_of_app; by left|done]. Qed.
Lemma event_generation st r st' : gapless st -> applyEventRecord st r = Ok st' -> as_generation st' = as_generation st.
Proof.
  intros Hg H. destruct (applyEventRecord_inv st r st' Hg H) as (event & _ & Hs & _ & Hp & _ & _ & Hgp & Ha).
  by destruct (advance_effect _ (ar_PrunedThrough r) st' Hgp ltac:(cbn; lia) Ha) as (_ & _ & _ & _ & _ & -> & _).
Qed.
Lemma kept_last e st : gapless st -> kept e st -> au_Sequence e <= as_lastSequence st.
Proof.
  intros Hg [Hk|(se & Hse & Hs & _)]; [destruct Hg as (H1 & _); lia|]. destruct (sequence_in_range st se Hg Hse) as (i & _ & _ & Hr). lia.
Qed.
Lemma kept_event e st r st' : gapless st -> applyEventRecord st r = Ok st' -> kept e st -> kept e st'.
Proof.
  intros Hg H Hk. destruct (applyEventRecord_inv st r st' Hg H) as (event & _ & Hs & _ & Hp & _ & _ & Hgp & Ha).
  refine (kept_advance e _ _ _ Hgp _ Ha _); [cbn; lia|by apply kept_push].
Qed.
(** The appended event itself is retained. *)
Lemma kept_appended st r st' event : gapless st -> applyEventRecord st r = Ok st' -> ar_Event r = Some event ->
  exists before, as_events st' = before ++ [mkStored event (ar_RecordedAt r)].
Proof.
  intros Hg H Hev. destruct (applyEventRecord_inv st r st' Hg H) as (event' & Hev' & Hs & _ & Hp & _ & _ & Hgp & Ha).
  assert (event' = event) as -> by congruence.
  destruct (advance_effect (as_push st event (ar_RecordedAt r)) (ar_PrunedThrough r) st' Hgp ltac:(cbn; lia) Ha) as (He & _). rewrite He. cbn [as_push as_events as_prunedThrough].
  destruct Hg as (H1 & H2 & H3 & H4). rewrite drop_app_le by lia. by eexists.
Qed.
Lemma retention_effect st at_ o st' : gapless st -> applyRetentionPolicy st at_ o = Ok st' ->
  gapless st' /\ as_generation st' = as_generation st /\ forall e, kept e st -> kept e st'.
Proof.
  intros Hg H. unfold applyRetentionPolicy in H. destruct (retentionDrop (as_events st) at_ o) as [|n]; [by simplify_eq|].
  destruct (as_events st !! n) as [se|] eqn:En; [|by simplify_eq].
  destruct (sequence_in_range st se Hg (list_elem_of_lookup_2 _ _ _ En)) as (i & _ & _ & Hr).
  assert (Ht : as_prunedThrough st <= au_Sequence (se_event se) <= as_lastSequence st) by lia.
  split_and!; [by eapply gapless_advance|by destruct (advance_effect _ _ _ Hg Ht H) as (_ & _ & _ & _ & _ & -> & _)|intros e; by eapply kept_advance].
Qed.
Lemma kept_checkpoint e source recovered : gapless source -> gapless recovered -> auditStatesSemanticallyEqual source recovered = true ->
  kept e source -> kept e recovered.
Proof.
  intros Hs Hr H. unfold auditStatesSemanticallyEqual in H. rewrite !andb_true_iff in H.
  destruct H as [[[[[_ _] Hl] Hp] Hn] Hall]. apply Z.eqb_eq in Hp. apply Nat.eqb_eq in Hn. unfold kept. rewrite Hp.
  intros [Hk|(se & Hse & Hq & Hsame)]; [by left|]. right.
  destruct (sequence_in_range source se Hs Hse) as (i & Hi & Hsi & _).
  destruct (as_events recovered !! i) as [se'|] eqn:Ei.
  2: { apply lookup_ge_None in Ei. apply lookup_lt_Some in Hi. lia. }
  exists se'. split; [by eapply list_elem_of_lookup_2|]. destruct Hr as (_ & _ & _ & H4). rewrite (H4 _ _ Ei). split; [lia|].
  assert (Hz : (se, se') ∈ zip (as_events source) (as_events recovered)).
  { apply list_elem_of_lookup. exists i. unfold zip. apply lookup_zip_with_Some. by exists se, se'. }
  pose proof (forallb_elem _ _ _ Hall Hz) as Hb. apply andb_true_iff in Hb as [_ Hb]. cbn in Hb.
  apply eventsSemanticallyEqual_same in Hb. unfold same_event in *. congruence.
Qed.

(** ** Recovery of longer journals, and by other readers *)

Definition flags (st : auditState) : bool * bool * bool := (as_header st, as_compacted st, as_legacy st).
Lemma flags_advance st through st' : advancePruneWatermark st through = Ok st' -> flags st' = flags st.
Proof. unfold advancePruneWatermark. destruct (_ =? _); [by intros; simplify_eq|]. intros H. ok_path H. by subst. Qed.
Lemma flags_event st r st' : applyEventRecord st r = Ok st' -> flags st' = flags st.
Proof. unfold applyEventRecord. intros H. ok_path H. by rewrite (flags_advance _ _ _ H). Qed.
Lemma flags_prune st r st' : applyPruneRecord st r = Ok st' -> flags st' = flags st.
Proof. unfold applyPruneRecord. intros H. ok_path H. by rewrite (flags_advance _ _ _ H). Qed.
Lemma flags_checkpoint p st r line st' p' : checkpoint_apply p st r line = Ok (st', p') -> flags st' = flags st.
Proof.
  unfold checkpoint_apply. destruct (ar_Kind r ==? auditSnapshotEvent); [intros H; ok_path H; by simplify_eq|].
  destruct (ar_Kind r ==? auditSnapshotEnd); [|done]. intros H; ok_path H; by simplify_eq.
Qed.
Lemma flags_legacy st st' : flags st' = flags st -> as_legacy st' = as_legacy st.
Proof. unfold flags. congruence. Qed.
Lemma applyRecord_flags st cp n r line st' cp' : applyRecord st cp n r line = Ok (st', cp') ->
  as_legacy st' = as_legacy st /\ (n <> 1 -> flags st' = flags st /\ cp' = cp).
Proof.
  unfold applyRecord. destruct (ar_Kind r ==? auditHeader).
  { intros H. ok_path H. simplify_eq. breflect. unfold applyHeaderRecord in *. match goal with E : _ = Ok st' |- _ => ok_path E end. by subst st'. }
  destruct (ar_Kind r ==? auditSnapshotBegin).
  { intros H. ok_path H. simplify_eq. breflect. unfold beginCheckpoint in *. match goal with E : _ = Ok (st', _) |- _ => ok_path E end.
    simplify_eq. split; [done|]. intros. exfalso. tauto. }
  destruct (ar_Kind r ==? auditEvent).
  { intros H. ok_path H. simplify_eq. match goal with E : applyEventRecord _ _ = Ok _ |- _ => apply flags_event in E as Hf end.
    split; [by apply flags_legacy|done]. }
  destruct (ar_Kind r ==? auditPrune); [|done]. intros H. ok_path H. simplify_eq.
  match goal with E : applyPruneRecord _ _ = Ok _ |- _ => apply flags_prune in E as Hf end. split; [by apply flags_legacy|done].
Qed.

(** What a step does to the variables of the loop. *)
Lemma scan_step_facts mt v line v' : scanLine mt v line = Ok v' ->
  rv_lineNumber v' = rv_lineNumber v + 1 /\
  ((rv_sawLegacy v' = true /\ rv_sawEnvelope v = false /\ rv_sawEnvelope v' = false /\ as_legacy (rv_state v') = true) \/
   (rv_sawLegacy v = false /\ rv_sawLegacy v' = false /\ rv_sawEnvelope v' = true /\ as_legacy (rv_state v') = as_legacy (rv_state v))).
Proof.
  unfold scanLine. destruct (maximumRecordBytes <? _); [done|]. destruct (envelope_kind line) as [kind|]; [|done]. destruct (kind ==? "").
  - intros H. ok_path H. subst v'. cbn. breflect. split; [done|]. left. destruct E as [-> _]. split_and!; try done.
    unfold applyLegacyEvent in *. match goal with E : _ = Ok _ |- _ => ok_path E end. by subst.
  - destruct (rv_sawLegacy v) eqn:El; [done|]. destruct (decodeAuditRecord line) as [r|]; [|done]. cbn [result_bind].
    destruct (rv_checkpoint v) as [p|]; [destruct (cp_sealed p)|]; intros H; ok_path H; subst v'; cbn; (split; [done|]); right; split_and!; try done;
      match goal with
      | E : applyRecord _ _ _ _ _ = Ok _ |- _ => apply applyRecord_flags in E; by destruct E
      | E : checkpoint_apply _ _ _ _ = Ok _ |- _ => apply flags_checkpoint in E; by apply flags_legacy
      end.
Qed.
Definition scan_shape (v : recovering) : Prop :=
  0 <= rv_lineNumber v /\ as_legacy (rv_state v) = rv_sawLegacy v /\ (rv_lineNumber v <> 0 -> rv_sawEnvelope v = negb (rv_sawLegacy v)).
Lemma scan_shape_step mt v line v' : scan_shape v -> scanLine mt v line = Ok v' -> scan_shape v'.
Proof.
  intros (H0 & H1 & H2) H. destruct (scan_step_facts _ _ _ _ H) as [Hn [(Ha & Hb & Hc & Hd)|(Ha & Hb & Hc & Hd)]]; unfold scan_shape; rewrite Hn.
  - rewrite Ha, Hc, Hd. split_and!; try done; lia.
  - rewrite Hb, Hc, Hd, H1, Ha. split_and!; try done; lia.
Qed.
Lemma scan_shape_all mt id lines v : scanLines mt id lines = Ok v -> scan_shape v.
Proof. apply (result_fold_inv (scanLine mt) scan_shape lines); [intros; by eapply scan_shape_step|by split_and!]. Qed.
Lemma scan_count mt lines : forall v v', result_fold (scanLine mt) v lines = Ok v' -> rv_lineNumber v' = rv_lineNumber v + Z.of_nat (length lines).
Proof.
  induction lines as [|l lines IH]; intros v v' H; cbn [result_fold length] in *; [simplify_eq; lia|]. ok_step H.
  apply IH in H. apply scan_step_facts in E as [E _]. lia.
Qed.
Lemma lines_size_pos lines : lines <> [] -> 0 < lines_size lines.
Proof.
  destruct lines as [|l lines]; [done|]. intros _. unfold lines_size. cbn [foldr]. unfold slen at 1.
  assert (0 <= foldr (fun l n => slen l + 1 + n) 0 lines); [|lia]. induction lines as [|x lines IH]; cbn [foldr]; [lia|]. unfold slen at 1. lia.
Qed.
Lemma lines_size_app a b : lines_size (a ++ b) = lines_size a + lines_size b.
Proof. induction a as [|x a IH]; [done|]. cbn [lines_size app foldr]. unfold lines_size in *. lia. Qed.

(** One more event record at the end of an accepted journal. *)
Lemma recover_extend mt id lines st line r st' :
  recoverLines mt id lines = Ok st -> as_legacy st = false -> lines <> [] -> decodeAuditRecord line = Ok r -> ar_Kind r = auditEvent ->
  slen line + 1 <= maximumRecordBytes -> applyEventRecord st r = Ok st' -> recoverLines mt id (lines ++ [line]) = Ok st'.
Proof.
  intros H Hl Hne Hr Hk Hm Ha. unfold recoverLines in *. destruct (scanLines mt id lines) as [v|] eqn:Es; [|done]. cbn [result_bind] in H.
  unfold scanLines in *. rewrite result_fold_app, Es. cbn [result_bind result_fold].
  pose proof (scan_shape_all _ _ _ _ Es) as (_ & Hsl & Hse). pose proof (scan_count _ _ _ _ Es) as Hc.
  unfold finishRecovery in H. ok_path H. subst st. rewrite Hl in Hsl.
  assert (Hn : rv_lineNumber v <> 0) by (rewrite Hc; destruct lines; [done|cbn [length startRecovery rv_lineNumber]; lia]).
  assert (Hscan : scanLine mt v line = Ok (mkRecovering st' (rv_lineNumber v + 1) true false (rv_checkpoint v))).
  { unfold scanLine. replace (maximumRecordBytes <? _) with false by lia. rewrite (envelope_of_record _ _ Hr), Hk, Hr. cbn [result_bind].
    change (auditEvent ==? "") with false. cbv iota. rewrite <-Hsl.
    assert (Hap : applyRecord (rv_state v) (rv_checkpoint v) (rv_lineNumber v + 1) r line = Ok (st', rv_checkpoint v)).
    { unfold applyRecord. rewrite Hk. change (auditEvent ==? auditHeader) with false. change (auditEvent ==? auditSnapshotBegin) with false.
      change (auditEvent ==? auditEvent) with true. cbv iota. by rewrite Ha. }
    destruct (rv_checkpoint v) as [p|] eqn:Ec; [|by rewrite Hap]. cbn in E. apply negb_false_iff in E. rewrite E. by rewrite Hap. }
  rewrite Hscan. cbn [result_bind]. unfold finishRecovery. cbn [rv_checkpoint rv_state]. rewrite E.
  pose proof (flags_event _ _ _ Ha) as Hf. unfold flags in Hf. injection Hf as Hf1 Hf2 Hf3.
  unfold headless in *. cbn [rv_sawEnvelope rv_state]. rewrite Hf1, Hf2. rewrite (Hse Hn), <-Hsl in E0. cbn in E0. cbn [andb]. rewrite E0.
  pose proof (lines_size_pos (lines ++ [line]) ltac:(by destruct lines)). by replace (lines_size (lines ++ [line]) =? 0) with false by lia.
Qed.

Lemma scan_after_envelope mt1 mt2 lines : forall v, rv_sawEnvelope v = true ->
  result_fold (scanLine mt1) v lines = result_fold (scanLine mt2) v lines.
Proof.
  induction lines as [|l lines IH]; intros v Hv; [done|]. cbn [result_fold].
  assert (E : scanLine mt1 v l = scanLine mt2 v l).
  { unfold scanLine. destruct (_ <? _); [done|]. destruct (envelope_kind l) as [kind|]; [|done]. destruct (kind ==? ""); [|done]. by rewrite Hv. }
  rewrite E. destruct (scanLine mt2 v l) as [v'|] eqn:E2; [|done]. cbn [result_bind]. apply IH.
  destruct (scan_step_facts _ _ _ _ E2) as [_ [(_ & Hb & _)|(_ & _ & Hb & _)]]; [congruence|done].
Qed.
(** A journal of records that began without a header or checkpoint never gets one. *)
Definition stuck (v : recovering) : Prop :=
  rv_sawEnvelope v = true /\ rv_checkpoint v = None /\ as_header (rv_state v) = false /\ as_compacted (rv_state v) = false /\ 1 <= rv_lineNumber v.
Lemma stuck_step mt v line v' : stuck v -> scanLine mt v line = Ok v' -> stuck v'.
Proof.
  intros (H1 & H2 & H3 & H4 & H5) H. destruct (scan_step_facts _ _ _ _ H) as [Hn [(_ & Hb & _)|(_ & _ & Hb & _)]]; [congruence|].
  unfold scanLine in H. destruct (_ <? _); [done|]. destruct (envelope_kind line) as [kind|]; [|done].
  destruct (kind ==? ""); [rewrite H1 in H; discriminate|]. destruct (rv_sawLegacy v); [done|]. destruct (decodeAuditRecord line) as [r|]; [|done].
  cbn [result_bind] in H. rewrite H2 in H. ok_path H. subst v'. cbn in *.
  match goal with E : applyRecord _ _ _ _ _ = Ok _ |- _ => apply applyRecord_flags in E as [_ E]; destruct E as [Hf ->]; [lia|] end.
  unfold flags in Hf. unfold stuck; cbn. split_and!; try done; try lia; congruence.
Qed.
Lemma stuck_finish v bytes id st : stuck v -> finishRecovery v bytes id <> Ok st.
Proof. intros (H1 & H2 & H3 & H4 & H5). unfold finishRecovery, headless. rewrite H2, H1, H3, H4. done. Qed.
Lemma first_line mt1 mt2 id1 id2 line v1 v2 :
  scanLine mt1 (startRecovery id1) line = Ok v1 -> scanLine mt2 (startRecovery id2) line = Ok v2 ->
  rv_sawLegacy v1 = true \/ stuck v1 \/ (v1 = v2 /\ rv_sawEnvelope v1 = true).
Proof.
  unfold scanLine. destruct (_ <? _); [done|]. destruct (envelope_kind line) as [kind|]; [|done]. destruct (kind ==? "").
  { intros H _. left. ok_path H. by subst v1. }
  cbn [startRecovery rv_sawLegacy rv_checkpoint rv_state rv_lineNumber]. destruct (decodeAuditRecord line) as [r|]; [|done]. cbn [result_bind].
  intros H1 H2. right. ok_path H1. ok_path H2. subst v1 v2.
  match goal with E1 : applyRecord (newAuditState id1) _ _ _ _ = Ok (?s1, ?c1), E2 : applyRecord (newAuditState id2) _ _ _ _ = Ok (?s2, ?c2) |- _ =>
    rename E1 into A1; rename E2 into A2 end.
  unfold applyRecord in A1, A2. destruct (ar_Kind r ==? auditHeader).
  { right. ok_path A1. ok_path A2. simplify_eq. unfold applyHeaderRecord in *.
    repeat match goal with E : _ = Ok _ |- _ => ok_path E; subst end. done. }
  destruct (ar_Kind r ==? auditSnapshotBegin).
  { right. ok_path A1. ok_path A2. simplify_eq. unfold beginCheckpoint in *.
    repeat match goal with E : _ = Ok (_, _) |- _ => ok_path E; simplify_eq end. done. }
  left. destruct (ar_Kind r ==? auditEvent).
  { ok_path A1. simplify_eq. match goal with E : applyEventRecord _ _ = Ok _ |- _ => apply flags_event in E as Hf end.
    unfold flags in Hf. unfold stuck; cbn in *. split_and!; congruence || lia. }
  destruct (ar_Kind r ==? auditPrune); [|done]. ok_path A1. simplify_eq.
  match goal with E : applyPruneRecord _ _ = Ok _ |- _ => apply flags_prune in E as Hf end.
  unfold flags in Hf. unfold stuck; cbn in *. split_and!; congruence || lia.
Qed.
(** Whoever reads a journal of records, whenever, reads the same state. *)
Lemma recover_deterministic mt1 mt2 id1 id2 lines st1 st2 :
  recoverLines mt1 id1 lines = Ok st1 -> as_legacy st1 = false -> lines <> [] -> recoverLines mt2 id2 lines = Ok st2 -> st2 = st1.
Proof.
  intros H1 Hl Hne H2. destruct lines as [|line lines]; [done|]. unfold recoverLines, scanLines in *. cbn [result_fold] in *.
  destruct (scanLine mt1 (startRecovery id1) line) as [v1|] eqn:E1; [|done].
  destruct (scanLine mt2 (startRecovery id2) line) as [v2|] eqn:E2; [|done]. cbn [result_bind] in *.
  destruct (result_fold (scanLine mt1) v1 lines) as [w1|] eqn:F1; [|done].
  destruct (result_fold (scanLine mt2) v2 lines) as [w2|] eqn:F2; [|done]. cbn [result_bind] in *.
  destruct (first_line _ _ _ _ _ _ _ E1 E2) as [Hv|[Hv|[-> Hv]]].
  - exfalso. assert (Hk : rv_sawLegacy w1 = true /\ scan_shape w1).
    { pose proof (scan_shape_step _ _ _ _ (ltac:(by split_and!) : scan_shape (startRecovery id1)) E1) as Hs.
      refine (result_fold_inv (scanLine mt1) (fun v => rv_sawLegacy v = true /\ scan_shape v) lines _ v1 w1 (conj Hv Hs) F1).
      intros s a s' [Ha Hb] H. split; [|by eapply scan_shape_step].
      destruct (scan_step_facts _ _ _ _ H) as [_ [(Hx & _)|(Hx & _)]]; congruence. }
    destruct Hk as [Hk (_ & Hs & _)]. unfold finishRecovery in H1. ok_path H1. subst st1. congruence.
  - exfalso. refine (stuck_finish w1 _ _ _ _ H1).
    refine (result_fold_inv (scanLine mt1) stuck lines _ v1 w1 Hv F1). intros. by eapply stuck_step.
  - rewrite (scan_after_envelope mt1 mt2 lines v2 Hv) in F1. rewrite F1 in F2. simplify_eq.
    unfold finishRecovery in *. ok_path H1. ok_path H2. congruence.
Qed.
(** What recovery of a journal that is not in the old format yields is stamped
    with a store. *)
Lemma lines_size_zero lines : lines_size lines = 0 -> lines = [].
Proof. intros H. destruct lines as [|l lines]; [done|]. pose proof (lines_size_pos (l :: lines) ltac:(done)). lia. Qed.
Lemma recover_nonempty mt id lines st : recoverLines mt id lines = Ok st -> id <> "" -> lines <> [].
Proof.
  unfold recoverLines. intros H Hid ->. cbn [scanLines result_fold result_bind] in H. unfold finishRecovery in H. ok_path H.
  cbn in *. by rewrite bool_decide_false in *.
Qed.

(** Further facts about the recovered state: the generation fits, the old format
    has none, and a journal of records names its store. *)
Definition stamped (v : recovering) : Prop :=
  is_u64 (as_generation (rv_state v)) /\ (as_legacy (rv_state v) = true -> as_generation (rv_state v) = 0) /\
  (as_header (rv_state v) || as_compacted (rv_state v) = true -> as_storeID (rv_state v) <> "") /\
  (rv_sawEnvelope v = false -> as_generation (rv_state v) = 0).
Lemma advance_stamp st through st' : advancePruneWatermark st through = Ok st' ->
  as_generation st' = as_generation st /\ as_storeID st' = as_storeID st /\ flags st' = flags st.
Proof. unfold advancePruneWatermark. destruct (_ =? _); [by intros; simplify_eq|]. intros H. ok_path H. by subst. Qed.
Lemma applyRecord_stamp st cp n r line st' cp' : record_fits r -> applyRecord st cp n r line = Ok (st', cp') ->
  (as_generation st' = as_generation st /\ as_storeID st' = as_storeID st /\ flags st' = flags st) \/
  (as_storeID st' <> "" /\ as_legacy st' = as_legacy st /\ (as_generation st' = as_generation st \/ n = 1 /\ is_u64 (as_generation st'))).
Proof.
  intros Hf. unfold applyRecord. destruct (ar_Kind r ==? auditHeader).
  { intros H. ok_path H. simplify_eq. breflect. unfold applyHeaderRecord in *. match goal with E : _ = Ok st' |- _ => ok_path E end.
    subst st'. breflect. right. cbn. split_and!; [tauto|done|by left]. }
  destruct (ar_Kind r ==? auditSnapshotBegin).
  { intros H. ok_path H. simplify_eq. breflect. unfold beginCheckpoint in *. match goal with E : _ = Ok (st', _) |- _ => ok_path E end.
    simplify_eq. breflect. right. cbn. destruct Hf as (_ & _ & Hc).
    match goal with E : ar_Checkpoint r = Some _ |- _ => rewrite E in Hc end. destruct Hc as (Hg & _). split_and!; [tauto|done|right; split; [lia|done]]. }
  destruct (ar_Kind r ==? auditEvent).
  { intros H. ok_path H. simplify_eq. left. unfold applyEventRecord in *. match goal with E : _ = Ok st' |- _ => ok_path E; by apply advance_stamp in E end. }
  destruct (ar_Kind r ==? auditPrune); [|done]. intros H. ok_path H. simplify_eq. left.
  unfold applyPruneRecord in *. match goal with E : _ = Ok st' |- _ => ok_path E; by apply advance_stamp in E end.
Qed.
Lemma checkpoint_stamp p st r line st' p' : checkpoint_apply p st r line = Ok (st', p') ->
  as_generation st' = as_generation st /\ as_storeID st' = as_storeID st /\ flags st' = flags st.
Proof.
  unfold checkpoint_apply. destruct (ar_Kind r ==? auditSnapshotEvent); [intros H; ok_path H; by simplify_eq|].
  destruct (ar_Kind r ==? auditSnapshotEnd); [|done]. intros H; ok_path H; by simplify_eq.
Qed.
Lemma stamped_step mt v line v' : scan_shape v /\ stamped v -> scanLine mt v line = Ok v' -> scan_shape v' /\ stamped v'.
Proof.
  intros [Hsh (H1 & H2 & H3 & H4)] H. split; [by eapply scan_shape_step|]. destruct Hsh as (_ & Hsl & _).
  unfold scanLine in H. destruct (_ <? _); [done|]. destruct (envelope_kind line) as [kind|]; [|done]. destruct (kind ==? "").
  - ok_path H. subst v'. breflect_in E. destruct E as [E _]. unfold applyLegacyEvent in *.
    match goal with E : _ = Ok _ |- _ => ok_path E end. subst. specialize (H4 E).
    unfold stamped; cbn. rewrite H4. split_and!; try assumption; try done; unfold is_u64, u64_max; lia.
  - destruct (rv_sawLegacy v) eqn:El; [done|]. destruct (decodeAuditRecord line) as [r|] eqn:Er; [|done]. cbn [result_bind] in H.
    pose proof (decoded_fits _ _ Er) as Hf.
    assert (Hsame : forall st' n cp, as_generation st' = as_generation (rv_state v) /\ as_storeID st' = as_storeID (rv_state v) /\ flags st' = flags (rv_state v) ->
      stamped (mkRecovering st' n true false cp)).
    { intros st' n cp (Hg & Hi & Hfl). unfold flags in Hfl. injection Hfl as Ha Hb Hc. unfold stamped; cbn. rewrite Hg, Hi, Ha, Hb, Hc. by split_and!. }
    assert (Hnew : forall st' n cp, as_storeID st' <> "" /\ as_legacy st' = as_legacy (rv_state v) /\
      (as_generation st' = as_generation (rv_state v) \/ n = 1 /\ is_u64 (as_generation st')) -> stamped (mkRecovering st' n true false cp)).
    { intros st' n cp (Hi & Hl & Hg). unfold stamped; cbn. rewrite Hl, Hsl. split_and!; try done. destruct Hg as [->|[_ Hg]]; done. }
    destruct (rv_checkpoint v) as [p|]; [destruct (cp_sealed p)|]; ok_path H; subst v';
      match goal with
      | E : applyRecord _ _ _ _ _ = Ok _ |- _ => destruct (applyRecord_stamp _ _ _ _ _ _ _ Hf E); [by apply Hsame|by apply Hnew]
      | E : checkpoint_apply _ _ _ _ = Ok _ |- _ => apply Hsame; by eapply checkpoint_stamp
      end.
Qed.
Lemma stamped_all mt id lines v : scanLines mt id lines = Ok v -> scan_shape v /\ stamped v.
Proof.
  apply (result_fold_inv (scanLine mt) (fun v => scan_shape v /\ stamped v) lines); [intros; by eapply stamped_step|].
  split; [by split_and!|]. unfold stamped; cbn. split_and!; try assumption; try done; unfold is_u64, u64_max; lia.
Qed.
Lemma recover_stamp mt id lines st : recoverLines mt id lines = Ok st ->
  is_u64 (as_generation st) /\ (as_legacy st = true -> as_generation st = 0) /\ (lines <> [] -> as_legacy st = false -> as_storeID st <> "").
Proof.
  unfold recoverLines. intros H. destruct (scanLines mt id lines) as [v|] eqn:Es; [|done]. cbn [result_bind] in H.
  destruct (stamped_all _ _ _ _ Es) as [(Ha & Hb & Hc) (H1 & H2 & H3 & _)]. unfold finishRecovery in H. ok_path H. subst st. split_and!; try done.
  intros Hne Hl. apply H3. pose proof (scan_count _ _ _ _ Es) as Hn. cbn [startRecovery rv_lineNumber] in Hn.
  assert (Hz : rv_lineNumber v <> 0) by (destruct lines; [done|cbn [length] in Hn; lia]). specialize (Hc Hz). rewrite <-Hb, Hl in Hc.
  unfold headless in E0. rewrite Hc in E0. cbn in E0. destruct (as_header (rv_state v)), (as_compacted (rv_state v)); done.
Qed.
End Facts.
