(* ===== verification/AuditWriter.v ===== *)
(** * Audit log: redaction and the writer (package [internal/audit])

    redact.go, writer.go and the file handling of journal.go, compaction.go and
    metadata.go.  Any number of processes, each with a writer of its own, share a
    directory that holds the journal, the lock file and, while a checkpoint is
    prepared, a temporary file.  An operation runs under the lock of the
    directory from its first access to its last, so operations of different
    processes do not overlap; a process may stop, and any system call may fail,
    at any point of one.

    An operation is a computation over the directory, the writer of its process
    and a list of answers, one per system call in the order of the code: whether
    the call succeeds, fails or never returns because the process dies, how many
    bytes of a write reached the file, and what a clock or a source of randomness
    delivered.  An exhausted list answers with success. *)

From Stdlib Require Import Ascii.
From S2P Require Import Prelude GoText GoJson ActionAbi JobTypes JobSanitize AuditJournal.

(** ** Redaction (redact.go) *)

Definition maximumRedactionDepth : nat := 64.
Definition Redacted : string := "<redacted>".
Definition redactedMapKey : string := "<redacted-key>".

(** The three patterns are those of the job journal ([JobSanitize]). *)
Definition redactString (value : string) : string :=
  let value := ReplaceAll headerSecretPattern (fun m _ =>
    match through_sep m with Some p => p +:+ " " +:+ Redacted | None => Redacted end) value in
  let value := ReplaceAll schemeSecretPattern (fun _ t => cap 1 t +:+ " " +:+ Redacted) value in
  ReplaceAll assignmentSecretPattern (fun _ t => cap 1 t +:+ cap 2 t +:+ Redacted) value.

(** A Go value as [reflect] sees it: [GNil] is the invalid value and a nil
    interface or pointer, [GPointer] any other interface or pointer; a float is
    the number [encoding/json] prints, if it prints one. *)
Inductive gval :=
| GNil | GPointer (v : gval)
| GTime (t : Z) | GJsonNumber (lit : string) | GError (text : string) | GBytes (s : string) | GRawMessage (text : string)
| GString (s : string) | GBool (b : bool) | GInt (n : Z) | GUint (n : Z) | GFloat (text : option string)
| GMap (stringKeys : bool) (m : list (string * gval)) | GSlice (l : list gval) | GByteArray (s : string) | GUnsupported.

(** What [json.Marshal] refuses: a float that is not a number, a time out of
    range. *)
Definition unencodable : json := JNumber "".
Definition time_value (t : Z) : json := if year_encodable t then JString (format_rfc3339 t) else unencodable.
Definition key_le {V} (a b : string * V) : Prop := sle a.1 b.1.
#[export] Instance key_le_dec {V} (a b : string * V) : Decision (key_le a b).
Proof. unfold key_le, sle. apply _. Defined.
Definition depth_error : auderr := AuditError "maximum nesting depth exceeded".

(** An event before it is stored: its details are Go values. *)
Record RawEvent := mkRawEvent {
  re_Sequence : Z; re_Timestamp : Z; re_Type : string; re_Actor : string; re_WorkspaceID : string; re_Outcome : string;
  re_Details : option (list (string * gval)) }.

Section Redact.
Context {U : UnicodeTables} {F : FloatText}.

Definition sensitiveKey (key : string) : bool := isSensitiveKey key.
Definition uniqueMapKey (candidate : string) (used : list string) : string := uniqueSanitizedKey candidate used.

(** The loop over the entries of a map, in the order of the keys; the value of a
    sensitive key is not looked at. *)
Fixpoint redact_entries (m : list (string * ares json)) (acc : list (string * json)) (used : list string)
  : ares (list (string * json)) :=
  match m with
  | [] => Ok acc
  | (key, x) :: rest =>
      if sensitiveKey key then
        let candidate := uniqueMapKey redactedMapKey used in
        redact_entries rest (obj_set candidate (JString Redacted) acc) (candidate :: used)
      else
        let? nested := x in
        let candidate := uniqueMapKey (ToValidUTF8 (redactString key)) used in
        redact_entries rest (obj_set candidate nested acc) (candidate :: used)
  end.

(** A decoded JSON value: a member of an object or array is an interface, which
    counts for the depth once more unless it is nil.  The keys of a decoded
    object are sorted. *)
Fixpoint sanitizeJson (depth : nat) (v : json) : ares json :=
  reject (maximumRedactionDepth <? depth)%nat with depth_error ;;
  let member (x : json) : ares json :=
    reject (maximumRedactionDepth <? S depth)%nat with depth_error ;;
    match x with JNull => Ok JNull | _ => sanitizeJson (S (S depth)) x end in
  match v with
  | JNull | JBool _ | JNumber _ => Ok v
  | JString s => Ok (JString (redactString s))
  | JArray l =>
      let? l' := (fix go (l : list json) : ares (list json) :=
        match l with [] => Ok [] | x :: rest => let? x' := member x in let? rest' := go rest in Ok (x' :: rest') end) l in
      Ok (JArray l')
  | JObject m =>
      let values := (fix go (m : list (string * json)) : list (string * ares json) :=
        match m with [] => [] | (k, x) :: rest => (k, member x) :: go rest end) m in
      let? m' := redact_entries values [] [] in
      Ok (JObject m')
  end.

Fixpoint sanitizeValue (depth : nat) (v : gval) : ares json :=
  reject (maximumRedactionDepth <? depth)%nat with depth_error ;;
  match v with
  | GNil => Ok JNull
  | GPointer x => sanitizeValue (S depth) x
  | GTime t => Ok (time_value t)
  | GJsonNumber lit => Ok (JNumber (if lit ==? "" then "0" else lit))
  | GError text => Ok (JString (redactString text))
  | GBytes s | GByteArray s => Ok (JString (redactString (ToValidUTF8 s)))
  | GRawMessage text =>
      match (x ← parse text; dec_any x) with
      | None => Err (AuditError "invalid raw JSON")
      | Some decoded => sanitizeJson (S depth) decoded
      end
  | GString s => Ok (JString (redactString s))
  | GBool b => Ok (JBool b)
  | GInt n | GUint n => Ok (JNumber (enc_int n))
  | GFloat text => Ok (match text with Some lit => JNumber lit | None => unencodable end)
  | GMap stringKeys m =>
      reject negb stringKeys with AuditError "map keys must be strings" ;;
      let values := (fix go (m : list (string * gval)) : list (string * ares json) :=
        match m with [] => [] | (k, x) :: rest => (k, sanitizeValue (S depth) x) :: go rest end) m in
      let? m' := redact_entries (merge_sort key_le values) [] [] in
      Ok (JObject m')
  | GSlice l =>
      let? l' := (fix go (l : list gval) : ares (list json) :=
        match l with [] => Ok [] | x :: rest => let? x' := sanitizeValue (S depth) x in let? rest' := go rest in Ok (x' :: rest') end) l in
      Ok (JArray l')
  | GUnsupported => Err (AuditError "unsupported value kind")
  end.

Definition details_of (v : json) : ares payload :=
  match v with JObject m => Ok (Some m) | _ => Err (AuditError "details must be an object") end.
Definition sanitizeEvent (e : RawEvent) : ares AuditEvent :=
  let? details := match re_Details e with
                  | None => Ok None
                  | Some m => let? v := sanitizeValue 0 (GMap true m) in details_of v
                  end in
  Ok (mkAuditEvent (re_Sequence e) (re_Timestamp e) (redactString (re_Type e)) (redactString (re_Actor e))
        (redactString (re_WorkspaceID e)) (redactString (re_Outcome e)) details).
(** [sanitizeEvent] on a stored event. *)
Definition sanitizeStored (e : AuditEvent) : ares AuditEvent :=
  let? details := match au_Details e with
                  | None => Ok None
                  | Some m => let? v := sanitizeJson 0 (JObject m) in details_of v
                  end in
  Ok (mkAuditEvent (au_Sequence e) (au_Timestamp e) (redactString (au_Type e)) (redactString (au_Actor e))
        (redactString (au_WorkspaceID e)) (redactString (au_Outcome e)) details).

(** 9999-12-31T23:59:59.999999999Z *)
Definition last_instant : Z := 3652059 * 86400 * ns_per_s - 1.
Definition with_sequence (e : AuditEvent) (sequence timestamp : Z) : AuditEvent :=
  mkAuditEvent sequence timestamp (au_Type e) (au_Actor e) (au_WorkspaceID e) (au_Outcome e) (au_Details e).
Definition event_record (recordedAt : Z) (e : AuditEvent) (prunedThrough : Z) : auditRecord :=
  mkAuditRecord journalSchemaVersion auditEvent recordedAt "" (Some e) prunedThrough None.
Definition prepareAuditEvent (e : RawEvent) : ares AuditEvent :=
  reject negb (re_Sequence e =? 0) with ErrInvalidEvent ;;
  reject re_Type e ==? "" with ErrInvalidEvent ;;
  match sanitizeEvent e with
  | Err _ => Err ErrInvalidEvent
  | Ok persisted =>
      let probe := with_sequence persisted u64_max (if au_Timestamp persisted =? 0 then last_instant else au_Timestamp persisted) in
      match marshalAuditRecord (event_record last_instant probe (u64_max - 1)) with
      | Err _ => Err ErrInvalidEvent
      | Ok _ => Ok persisted
      end
  end.

End Redact.

(** ** The directory *)

(** An open file: its complete lines, the bytes after the last newline, how many
    of the lines are known to be on stable storage, and its modification time. *)
Record jfile := mkFile { jf_lines : list string; jf_tail : string; jf_durable : nat; jf_mtime : Z }.
Definition emptyFile : jfile := mkFile [] "" 0 0.
Definition jf_size (f : jfile) : Z := lines_size (jf_lines f) + slen (jf_tail f).

(** Append the first [n] bytes of a line and its newline. *)
Definition jf_append (f : jfile) (line : string) (n : nat) (mtime : Z) : jfile :=
  if (String.length line <? n)%nat
  then mkFile (jf_lines f ++ [jf_tail f +:+ line]) "" (jf_durable f) mtime
  else mkFile (jf_lines f) (jf_tail f +:+ String.substring 0 n line) (jf_durable f) mtime.

(** The directory: files by number, the file each name refers to, and the file
    the name of the journal refers to on stable storage. *)
Record disk := mkDisk {
  dk_files : gmap nat jfile; dk_next : nat; dk_journal : option nat; dk_durable : option nat; dk_temp : option nat;
  dk_lock : option string; dk_lockSynced : bool }.
Definition dk_file (d : disk) (ino : nat) : jfile := default emptyFile (dk_files d !! ino).
Definition dk_put (d : disk) (ino : nat) (f : jfile) : disk :=
  mkDisk (<[ino := f]> (dk_files d)) (dk_next d) (dk_journal d) (dk_durable d) (dk_temp d) (dk_lock d) (dk_lockSynced d).
Definition dk_with_lock (d : disk) (body : string) (synced : bool) : disk :=
  mkDisk (dk_files d) (dk_next d) (dk_journal d) (dk_durable d) (dk_temp d) (Some body) synced.
Definition dk_sync (d : disk) : disk :=
  mkDisk (dk_files d) (dk_next d) (dk_journal d) (dk_journal d) (dk_temp d) (dk_lock d) (dk_lockSynced d).
Definition dk_with_temp (d : disk) (temp : option nat) : disk :=
  mkDisk (dk_files d) (dk_next d) (dk_journal d) (dk_durable d) temp (dk_lock d) (dk_lockSynced d).
Definition dk_with_journal (d : disk) (journal : option nat) : disk :=
  mkDisk (dk_files d) (dk_next d) journal (dk_durable d) (dk_temp d) (dk_lock d) (dk_lockSynced d).
Definition dk_create (d : disk) (mtime : Z) : disk :=
  mkDisk (<[dk_next d := mkFile [] "" 0 mtime]> (dk_files d)) (S (dk_next d)) (dk_journal d) (dk_durable d) (dk_temp d) (dk_lock d)
    (dk_lockSynced d).

Record auditSnapshot := mkSnapshotOf { sn_completeBytes : Z; sn_modTime : Z }.
Definition snapshot_matches (s : auditSnapshot) (f : jfile) : bool :=
  (sn_completeBytes s =? jf_size f) && (sn_modTime s =? jf_mtime f).

(** ** The writer and its computations *)

Record Writer := mkWriter {
  w_file : nat; w_options : AuditOptions; w_state : auditState; w_journal : auditSnapshot; w_nextCompactionBytes : Z;
  w_unavailable : option auderr; w_closed : bool }.

Inductive reply := Succeeds | Fails (n : nat) | Dies (n : nat).
Record answer := mkAnswer { an_reply : reply; an_time : Z; an_text : string }.
Definition silent : answer := mkAnswer Succeeds 0 "".

Record Process := mkProcess { pr_disk : disk; pr_writer : Writer; pr_answers : list answer }.

Inductive outcome (A : Type) := Done (a : A) | Failed (e : auderr) | Crashed.
Arguments Done {A} a. Arguments Failed {A} e. Arguments Crashed {A}.

Definition M (A : Type) : Type := Process -> Process * outcome A.
Definition ret {A} (a : A) : M A := fun p => (p, Done a).
Definition fail {A} (e : auderr) : M A := fun p => (p, Failed e).
Definition bind {A B} (m : M A) (k : A -> M B) : M B := fun p =>
  match m p with (p', Done a) => k a p' | (p', Failed e) => (p', Failed e) | (p', Crashed) => (p', Crashed) end.
(** The error of a call as a value. *)
Definition attempt {A} (m : M A) : M (ares A) := fun p =>
  match m p with (p', Done a) => (p', Done (Ok a)) | (p', Failed e) => (p', Done (Err e)) | (p', Crashed) => (p', Crashed) end.
Definition lift {A} (r : ares A) : M A := match r with Ok a => ret a | Err e => fail e end.
Notation "'let*' x ':=' m 'in' k" := (bind m (fun x => k)) (at level 10, x name, m at level 99, k at level 200) : go_scope.
Notation "'let*' ' p ':=' m 'in' k" := (bind m (fun x => match x with p => k end)) (at level 10, p pattern, m at level 99, k at level 200) : go_scope.
Notation "'exec' m ';;' k" := (bind m (fun _ => k)) (at level 10, m at level 99, k at level 200) : go_scope.
Notation "'refuse' b 'with' e ';;' k" := (if (b : bool) then fail e else k) (at level 10, b at level 99, e at level 99, k at level 200) : go_scope.

Definition the_disk : M disk := fun p => (p, Done (pr_disk p)).
Definition the_writer : M Writer := fun p => (p, Done (pr_writer p)).
Definition change_disk (f : disk -> disk) : M unit := fun p => (mkProcess (f (pr_disk p)) (pr_writer p) (pr_answers p), Done tt).
Definition set_writer (w : Writer) : M unit := fun p => (mkProcess (pr_disk p) w (pr_answers p), Done tt).
Definition next_answer : M answer := fun p =>
  match pr_answers p with
  | a :: rest => (mkProcess (pr_disk p) (pr_writer p) rest, Done a)
  | [] => (p, Done silent)
  end.
Definition conclude (a : answer) : M unit := fun p =>
  match an_reply a with Succeeds => (p, Done tt) | Fails _ => (p, Failed ErrIO) | Dies _ => (p, Crashed) end.
(** How much of the effect of a call took place, of [all]. *)
Definition extent (a : answer) (all : nat) : nat := match an_reply a with Succeeds => all | Fails n | Dies n => n end.

(** A system call that leaves the directory as it is. *)
Definition io : M unit := let* a := next_answer in conclude a.
(** A call that takes effect as a whole or not at all. *)
Definition effect (f : answer -> disk -> disk) : M unit :=
  let* a := next_answer in
  exec (if (extent a 1 =? 0)%nat then ret tt else change_disk (f a)) ;;
  conclude a.
(** A call that promises durability only when it succeeds. *)
Definition flush (f : disk -> disk) : M unit :=
  let* a := next_answer in
  exec (match an_reply a with Succeeds => change_disk f | _ => ret tt end) ;;
  conclude a.

Definition writeLine (ino : nat) (line : string) : M unit :=
  let* a := next_answer in
  exec change_disk (fun d => dk_put d ino (jf_append (dk_file d ino) line (extent a (S (String.length line))) (an_time a))) ;;
  conclude a.
Definition file_sync (ino : nat) : M unit :=
  flush (fun d => let f := dk_file d ino in dk_put d ino (mkFile (jf_lines f) (jf_tail f) (length (jf_lines f)) (jf_mtime f))).
Definition truncateTail (ino : nat) : M unit :=
  effect (fun a d => let f := dk_file d ino in dk_put d ino (mkFile (jf_lines f) "" (jf_durable f) (an_time a))).
Definition truncateAll (ino : nat) : M unit := effect (fun a d => dk_put d ino (mkFile [] "" 0 (an_time a))).
Definition directory_sync : M unit := flush dk_sync.
Definition ctx_err : M bool := let* a := next_answer in ret (match an_reply a with Succeeds => false | _ => true end).
Definition check_context : M unit := let* cancelled := ctx_err in if (cancelled : bool) then fail ErrContext else ret tt.
Definition clock : M Z := let* a := next_answer in ret (an_time a).
(** The file behind a descriptor, as a call on it finds it. *)
Definition inspect (ino : nat) : M jfile := exec io ;; let* d := the_disk in ret (dk_file d ino).

Definition verifyJournalPath (ino : nat) : M unit :=
  exec io ;; let* d := the_disk in
  refuse dk_journal d !=? Some ino with AuditError "audit path no longer names the opened file" ;; ret tt.
Definition verifyTempPath (ino : nat) : M unit :=
  exec io ;; let* d := the_disk in
  refuse dk_temp d !=? Some ino with AuditError "audit path no longer names the opened file" ;; ret tt.
(** Directory and lock file. *)
Definition verifyStablePaths : M unit := exec io ;; io.
Definition verifyPaths : M unit := exec verifyStablePaths ;; let* w := the_writer in verifyJournalPath (w_file w).

Section Writer.
Context {U : UnicodeTables} {F : FloatText}.

(** ** Recovery of a file (journal.go) *)

Definition snapshotAuditLog (ino : nat) : M auditSnapshot := let* f := inspect ino in ret (mkSnapshotOf (jf_size f) (jf_mtime f)).

Definition recoverAuditLog (ino : nat) (repairTail : bool) (expectedStoreID : string) : M (auditState * auditSnapshot) :=
  let* f := inspect ino in
  exec io ;; (* seek *)
  exec io ;; (* read *)
  let* v := lift (scanLines (jf_mtime f) expectedStoreID (jf_lines f)) in
  exec (if jf_tail f ==? "" then ret tt else
          exec lift (repairableTail v (jf_tail f) repairTail) ;;
          exec truncateTail ino ;;
          file_sync ino) ;;
  let* st := lift (finishRecovery v (lines_size (jf_lines f)) expectedStoreID) in
  exec io ;; (* seek *)
  let* snapshot := snapshotAuditLog ino in
  refuse negb (sn_completeBytes snapshot =? lines_size (jf_lines f)) with AuditError "audit log size after recovery" ;;
  ret (st, snapshot).

(** ** The lock file (metadata.go) *)

Definition readLockMetadataDiskState : M lockMetadataDiskState :=
  exec io ;; exec io ;;
  let* d := the_disk in lift (decodeLockFile (default "" (dk_lock d))).
Definition writeLockMetadataSlot (metadata : lockMetadata) (revision : Z) (targetSlot : nat) : M unit :=
  let* '(m, slot) := lift (encodeLockMetadataSlot metadata revision) in
  exec (let* a := next_answer in
        exec change_disk (fun d => dk_with_lock d (write_at (default "" (dk_lock d))
          (String.substring 0 (extent a lockMetadataSlotBytes) slot) (targetSlot * lockMetadataSlotBytes)) false) ;;
        conclude a) ;;
  exec flush (fun d => dk_with_lock d (default "" (dk_lock d)) true) ;;
  exec directory_sync ;;
  let* committed := readLockMetadataDiskState in
  refuse negb (committedAs committed revision targetSlot m)
    with AuditError "verify audit lock metadata: committed slot does not match the requested state" ;;
  ret tt.
Definition writeLockMetadata (metadata : lockMetadata) : M unit :=
  let* current := readLockMetadataDiskState in
  let* '(revision, targetSlot) := lift (nextLockWrite current) in
  writeLockMetadataSlot metadata revision targetSlot.
Definition replaceTornInitialLockMetadata (metadata : lockMetadata) : M unit :=
  exec io ;;
  let* d := the_disk in
  let n := String.length (default "" (dk_lock d)) in
  refuse (n =? 0)%nat || (lockMetadataSlotBytes <? n)%nat with AuditError "torn initial audit lock metadata has an invalid size" ;;
  writeLockMetadataSlot metadata 1 0.

(** ** State of the writer *)

Definition boundary_of (o : AuditOptions) (s : auditSnapshot) : Z := resetCompactionBoundary (ao_CompactionThreshold o) (sn_completeBytes s).
(** A state read from a file becomes the state of the writer. *)
Definition adopt (ino : nat) (st : auditState) (s : auditSnapshot) : M unit :=
  let* w := the_writer in
  set_writer (mkWriter ino (w_options w) st s (boundary_of (w_options w) s) (w_unavailable w) (w_closed w)).
Definition markUnavailable {A} (e : auderr) : M A :=
  let* w := the_writer in
  let cause := default e (w_unavailable w) in
  exec set_writer (mkWriter (w_file w) (w_options w) (w_state w) (w_journal w) (w_nextCompactionBytes w) (Some cause) (w_closed w)) ;;
  fail (PersistenceError "audit writer failed closed" cause).
(** [if err := ...; err != nil { unlock; return w.markUnavailable(err) }]. *)
Definition failClosed {A} (m : M A) : M A :=
  let* r := attempt m in
  match r with
  | Ok a => ret a
  | Err e => exec attempt io ;; markUnavailable e
  end.

Definition readVerifiedLockMetadataLocked : M lockMetadata :=
  let* disk := readLockMetadataDiskState in
  let m := ls_metadata disk in
  let* w := the_writer in
  refuse (lm_StoreID m ==? "") || (lm_StoreID m !=? as_storeID (w_state w)) with AuditError "audit lock metadata belongs to a different store" ;;
  refuse negb (retentionPoliciesEqual (lm_Retention m) (retentionPolicyForOptions (w_options w)))
    with AuditError "audit retention policy changed for an open Writer" ;;
  ret m.
Definition persistLockMetadataLocked (st : auditState) : M unit :=
  refuse as_storeID st ==? "" with AuditError "cannot persist audit metadata for an uninitialized state" ;;
  let* w := the_writer in
  writeLockMetadata (lockMetadataForState st (retentionPolicyForOptions (w_options w))).

Definition ensureCanonicalLocked : M unit :=
  exec io ;; exec io ;;
  let* w := the_writer in
  let* d := the_disk in
  match dk_journal d with
  | None => fail (AuditError "inspect canonical audit.jsonl")
  | Some current =>
      if current ==? w_file w then verifyJournalPath (w_file w)
      else
        exec io ;; (* open *)
        let* '(fresh, snapshot) := recoverAuditLog current true (as_storeID (w_state w)) in
        exec lift (auditStateAdvances (w_state w) fresh) ;;
        exec verifyJournalPath current ;;
        exec adopt current fresh snapshot ;;
        io (* close the superseded file *)
  end.

Definition refreshLocked : M unit :=
  exec verifyStablePaths ;;
  let* metadata := readVerifiedLockMetadataLocked in
  exec ensureCanonicalLocked ;;
  let* w := the_writer in
  let* f := inspect (w_file w) in
  if snapshot_matches (w_journal w) f then
    exec lift (auditStateCoversLockMetadata (w_state w) metadata) ;;
    verifyPaths
  else
    let* '(recovered, snapshot) := recoverAuditLog (w_file w) true (as_storeID (w_state w)) in
    refuse negb (as_generation recovered =? as_generation (w_state w))
      with AuditError "audit generation changed without replacing the canonical inode" ;;
    exec lift (stateContinues (w_state w) recovered) ;;
    exec adopt (w_file w) recovered snapshot ;;
    exec lift (auditStateCoversLockMetadata recovered metadata) ;;
    verifyPaths.

Definition commitTime : M Z :=
  let* recordedAt := clock in
  let* w := the_writer in
  refuse recordedAt =? 0 with AuditError "audit commit clock returned zero time" ;;
  ret (if moves_backward (w_state w) recordedAt then as_lastRecordedAt (w_state w) else recordedAt).

(** ** Compaction (compaction.go) *)

Definition cleanupStaleCompactionFile : M unit :=
  exec io ;;
  let* d := the_disk in
  match dk_temp d with
  | None => ret tt
  | Some _ => exec effect (fun _ d => dk_with_temp d None) ;; directory_sync
  end.
Definition removeCompactionFileIfSame (temp : nat) : M unit :=
  exec io ;; exec io ;;
  let* d := the_disk in
  match dk_temp d with
  | None => ret tt
  | Some current =>
      refuse current !=? temp with AuditError "audit compaction path no longer names the opened file" ;;
      effect (fun _ d => dk_with_temp d None)
  end.
Definition createTemp : M nat :=
  let* d := the_disk in
  exec effect (fun a d => dk_with_temp (dk_create d (an_time a)) (Some (dk_next d))) ;;
  ret (dk_next d).

(** Write one record of a checkpoint; the result is the text hashed so far. *)
Definition writeRecord (ino : nat) (hashed : string) (r : auditRecord) : M string :=
  let* line := lift (marshalAuditRecord r) in
  exec writeLine ino line ;;
  ret (hashed +:+ line_bytes line).
Fixpoint writeEvents (ino : nat) (hashed : string) (events : list storedEvent) : M string :=
  match events with
  | [] => ret hashed
  | e :: rest =>
      exec check_context ;;
      let* hashed' := writeRecord ino hashed (snapshot_record e) in
      writeEvents ino hashed' rest
  end.
Definition writeAuditCheckpoint (ino : nat) (source : auditState) (recordedAt : Z) : M (auditState * auditSnapshot) :=
  let b := checkpoint_boundary source in
  let* h0 := writeRecord ino "" (boundary_record auditSnapshotBegin recordedAt b) in
  let* hashed := writeEvents ino h0 (as_events source) in
  exec writeRecord ino hashed (boundary_record auditSnapshotEnd recordedAt (with_digest b (GoEncoding.sha256_hex hashed))) ;;
  exec file_sync ino ;;
  recoverAuditLog ino false (as_storeID source).

Inductive compaction := Committed | CleanCancellation | NotCommitted (e : auderr).

(** [cleanupTemp]; nothing is removed once the file was renamed. *)
Definition cleanupTemp (temp : nat) (cause : auderr) (cancellationObserved renameAttempted renamed : bool) : M compaction :=
  let* removed := (if renamed then ret (Ok tt) else attempt (exec removeCompactionFileIfSame temp ;; directory_sync)) in
  let* closed := attempt io in
  ret (if cancellationObserved && negb renameAttempted && negb renamed && is_ok removed && is_ok closed
       then CleanCancellation else NotCommitted cause).

(** The rename; its error does not count when the name turns out to refer to the
    new file. *)
Definition renameTemp (temp : nat) : M unit :=
  let* renamed := attempt (effect (fun _ d => dk_with_temp (dk_with_journal d (Some temp)) None)) in
  match renamed with
  | Ok _ => ret tt
  | Err e => exec io ;; let* d := the_disk in refuse dk_journal d !=? Some temp with e ;; ret tt
  end.

Definition afterRename (temp : nat) (recovered : auditState) (snapshot : auditSnapshot) : M compaction :=
  let* verified := attempt (verifyJournalPath temp) in
  match verified with
  | Err e => cleanupTemp temp e false true true
  | Ok _ =>
      let* w := the_writer in
      let old := w_file w in
      exec adopt temp recovered snapshot ;;
      let* synced := attempt directory_sync in
      match synced with
      | Err e => exec attempt io ;; ret (NotCommitted e)
      | Ok _ => exec attempt (truncateAll old) ;; exec attempt (file_sync old) ;; exec attempt io ;; ret Committed
      end
  end.

(** What has to hold before the checkpoint may take the name of the journal. *)
Definition checkpointReady (temp : nat) (source recovered : auditState) : M unit :=
  exec verifyTempPath temp ;;
  refuse negb (auditStatesSemanticallyEqual source recovered)
    with AuditError "audit checkpoint is not semantically equivalent to its source" ;;
  directory_sync.

Definition compactStateLocked (source : auditState) (recordedAt : Z) : M compaction :=
  if as_storeID source ==? "" then ret (NotCommitted (AuditError "cannot compact an uninitialized audit journal"))
  else if as_generation source =? u64_max then ret (NotCommitted (AuditError "audit generation space exhausted"))
  else
  let* cancelled := ctx_err in
  if (cancelled : bool) then ret CleanCancellation else
  let* created := attempt (exec verifyPaths ;; exec cleanupStaleCompactionFile ;; createTemp) in
  match created with
  | Err e => ret (NotCommitted e)
  | Ok temp =>
      let* written := attempt (writeAuditCheckpoint temp source recordedAt) in
      match written with
      | Err e => let* cancelled := ctx_err in cleanupTemp temp e ((e ==? ErrContext) && cancelled) false false
      | Ok (recovered, snapshot) =>
          let* ready := attempt (checkpointReady temp source recovered) in
          match ready with
          | Err e => cleanupTemp temp e false false false
          | Ok _ =>
              let* cancelled := ctx_err in
              if (cancelled : bool) then cleanupTemp temp ErrContext true false false else
              let* verified := attempt verifyPaths in
              match verified with
              | Err e => cleanupTemp temp e false false false
              | Ok _ =>
                  let* renamed := attempt (renameTemp temp) in
                  match renamed with
                  | Err e => cleanupTemp temp e false true false
                  | Ok _ => afterRename temp recovered snapshot
                  end
              end
          end
      end
  end.

(** ** Operations *)

Definition isContext (e : auderr) : bool := e ==? ErrContext.
(** The lock of the directory: granted, given up because the context ended or
    the writer closed, or failed. *)
Definition lockAuditFile : M unit :=
  let* a := next_answer in
  match an_reply a with
  | Succeeds => ret tt
  | Fails O => fail ErrContext
  | Fails _ => fail ErrIO
  | Dies _ => fun p => (p, Crashed)
  end.
(** Waiting for the lock ends without harm to the writer; any other failure
    closes it. *)
Definition enterLock (operation : string) : M unit :=
  let* r := attempt lockAuditFile in
  match r with
  | Ok _ => ret tt
  | Err e => if isContext e then fail (PersistenceError operation e) else markUnavailable e
  end.
(** Release the lock at the end of an operation that did what it could. *)
Definition releaseLock : M unit :=
  let* r := attempt io in match r with Ok _ => ret tt | Err e => markUnavailable e end.
(** [interruptAfterLock]. *)
Definition interruptAfterLock {A} (operation : string) (cause : auderr) : M A :=
  exec releaseLock ;; fail (PersistenceError operation cause).
Definition checkInterrupt (operation : string) : M unit :=
  let* cancelled := ctx_err in if (cancelled : bool) then interruptAfterLock operation ErrContext else ret tt.

(** Before the lock: the gate of the process, and whether the writer is usable. *)
Definition acquire (refused : auderr) : M unit := let* gate := attempt io in match gate with Err _ => fail refused | Ok _ => ret tt end.
Definition requireUsable : M unit :=
  let* w := the_writer in
  refuse w_closed w with ErrAuditUnavailable ;;
  match w_unavailable w with Some e => markUnavailable e | None => ret tt end.

(** The line of the next event and the state after it, computed from the bytes
    that will be written. *)
Definition prospectiveEvent (w : Writer) (persisted : AuditEvent) (recordedAt : Z) : ares (AuditEvent * auditRecord * auditState) :=
  reject as_lastSequence (w_state w) =? u64_max with AuditError "sequence space exhausted" ;;
  let event := with_sequence persisted (u64_succ (as_lastSequence (w_state w)))
                 (if au_Timestamp persisted =? 0 then recordedAt else au_Timestamp persisted) in
  let? preview := applyRetentionPolicy (as_push (w_state w) event recordedAt) recordedAt (w_options w) in
  Ok (event, event_record recordedAt event (as_prunedThrough preview), preview).

(** Write the line, make it durable and record the watermark. *)
Definition appendLine (line : string) (prospective : auditState) (evaluated : bool) : M unit :=
  let* w := the_writer in
  let* snapshot := failClosed
    (exec writeLine (w_file w) line ;;
     exec file_sync (w_file w) ;;
     exec directory_sync ;;
     exec verifyPaths ;;
     let* s := snapshotAuditLog (w_file w) in
     exec persistLockMetadataLocked prospective ;;
     ret s) in
  exec releaseLock ;;
  let* w := the_writer in
  set_writer (mkWriter (w_file w) (w_options w) prospective snapshot
                (if evaluated then boundary_of (w_options w) snapshot else w_nextCompactionBytes w) (w_unavailable w) (w_closed w)).

Definition appendByCompaction (prospective : auditState) (recordedAt : Z) : M unit :=
  let* r := compactStateLocked prospective recordedAt in
  match r with
  | CleanCancellation => interruptAfterLock "append audit event" ErrContext
  | NotCommitted e => failClosed (fail e)
  | Committed =>
      let* w := the_writer in
      exec failClosed (persistLockMetadataLocked (w_state w)) ;;
      releaseLock
  end.

Definition AppendContext (event : RawEvent) : M AuditEvent :=
  exec acquire ErrAuditUnavailable ;;
  let* cancelled := ctx_err in
  refuse cancelled with PersistenceError "append audit event" ErrContext ;;
  exec requireUsable ;;
  let* persisted := lift (prepareAuditEvent event) in
  exec enterLock "acquire audit lock" ;;
  exec failClosed refreshLocked ;;
  exec checkInterrupt "append audit event" ;;
  let* recordedAt := failClosed commitTime in
  exec checkInterrupt "append audit event" ;;
  let* w := the_writer in
  let* '(stored, record, preview) := failClosed (lift (prospectiveEvent w persisted recordedAt)) in
  match marshalAuditRecord record with
  | Err _ => exec attempt io ;; fail ErrInvalidEvent
  | Ok line =>
      let* prospective := failClosed (lift (let? decoded := decodeAuditRecord line in applyEventRecord (w_state w) decoded)) in
      let size := slen line + 1 in
      exec failClosed (refuse int64_max - sn_completeBytes (w_journal w) <? size with AuditError "audit journal size overflows int64" ;; ret tt) ;;
      let projected := sn_completeBytes (w_journal w) + size in
      let* '(compact, evaluated) := (if as_legacy (w_state w) then ret (true, true)
        else failClosed (lift (shouldCompactBeforeAppend (ao_CompactionThreshold (w_options w)) (w_nextCompactionBytes w)
                                 prospective projected recordedAt))) in
      exec (if (compact : bool) then appendByCompaction prospective recordedAt
            else exec checkInterrupt "append audit event" ;; appendLine line prospective evaluated) ;;
      ret stored
  end.

Definition Compact : M unit :=
  exec acquire (PersistenceError "compact audit log" ErrContext) ;;
  exec requireUsable ;;
  exec enterLock "compact audit log" ;;
  exec failClosed refreshLocked ;;
  let* recordedAt := failClosed commitTime in
  let* w := the_writer in
  let* prospective := failClosed (lift (applyRetentionPolicy (w_state w) recordedAt (w_options w))) in
  if negb (as_hasObsoleteHistory prospective) && as_compacted prospective then releaseLock
  else
    let* r := compactStateLocked prospective recordedAt in
    match r with
    | CleanCancellation => interruptAfterLock "compact audit log" ErrContext
    | NotCommitted e => failClosed (fail e)
    | Committed =>
        let* w := the_writer in
        exec failClosed (persistLockMetadataLocked (w_state w)) ;;
        releaseLock
    end.

Fixpoint sanitizeAll (events : list storedEvent) : ares (list AuditEvent) :=
  match events with
  | [] => Ok []
  | e :: rest => let? cloned := sanitizeStored (se_event e) in let? rest' := sanitizeAll rest in Ok (cloned :: rest')
  end.
Definition List : M (list AuditEvent) :=
  exec acquire (PersistenceError "query audit events" ErrContext) ;;
  exec requireUsable ;;
  exec enterLock "query audit events" ;;
  exec failClosed refreshLocked ;;
  exec checkInterrupt "query audit events" ;;
  let* w := the_writer in
  let* events := failClosed (lift (sanitizeAll (as_events (w_state w)))) in
  exec releaseLock ;;
  ret events.

(** A peer that holds the lock verifies the paths itself. *)
Definition verifyPathsForClose : M unit :=
  exec verifyStablePaths ;;
  let* a := next_answer in
  match an_reply a with
  | Fails O => ret tt                      (* the lock is taken *)
  | Fails _ => fail ErrIO
  | Dies _ => fun p => (p, Crashed)
  | Succeeds =>
      let* r := attempt (exec verifyStablePaths ;; exec ensureCanonicalLocked ;; verifyPaths) in
      let* u := attempt io in
      exec lift r ;; lift u
  end.
Definition Close : M unit :=
  let* w := the_writer in
  if w_closed w then ret tt else
  exec set_writer (mkWriter (w_file w) (w_options w) (w_state w) (w_journal w) (w_nextCompactionBytes w) (w_unavailable w) true) ;;
  let* integrity := attempt (let* r := attempt verifyPathsForClose in match r with Ok _ => ret tt | Err e => markUnavailable e end) in
  let* fileErr := attempt io in
  let* lockErr := attempt io in
  let* directoryErr := attempt io in
  exec lift integrity ;; exec lift fileErr ;; exec lift lockErr ;; lift directoryErr.

(** ** Opening *)

(** The journal, created when its name is free. *)
Definition openJournal : M (nat * bool) :=
  let* d := the_disk in
  match dk_journal d with
  | Some ino => exec io ;; ret (ino, false)
  | None =>
      exec effect (fun a d => dk_with_journal (dk_create d (an_time a)) (Some (dk_next d))) ;;
      ret (dk_next d, true)
  end.

(** The guards between the metadata and the first record of the journal; the
    result is the store the journal has to belong to. *)
Definition admitInitialShape (disk : lockMetadataDiskState) (resetTorn fileCreated : bool) (shape : auditJournalInitialShape)
  (partialRecord : string) : ares string :=
  let metadata := ls_metadata disk in
  let pristine := (0 <? ls_revision disk) && negb (ls_legacy disk) && lockMetadataIsPristine metadata in
  do! (if resetTorn then
         reject fileCreated || ((shape !=? initialJournalEmpty) && (shape !=? initialJournalLegacy)) with errNoValidInitialLockMetadata ;; Ok tt
       else if lm_StoreID metadata ==? "" then
         reject (shape ==? initialJournalEnvelope) ||
                ((shape ==? initialJournalPartial) && negb (isIdentifiableLegacyEventPrefix partialRecord))
           with AuditError "audit lock metadata is missing for an initialized or ambiguous journal" ;; Ok tt
       else if pristine then
         reject shape ==? initialJournalLegacy with AuditError "pristine audit lock metadata cannot initialize a legacy journal" ;;
         reject (shape ==? initialJournalPartial) && negb (isPossibleAuditHeaderPrefix partialRecord (lm_StoreID metadata))
           with AuditError "partial audit header does not match the pristine lock metadata" ;; Ok tt
       else
         reject shape ==? initialJournalPartial with AuditError "initialized audit journal has no complete record" ;; Ok tt) ;;
  Ok (if pristine && ((shape ==? initialJournalEmpty) || (shape ==? initialJournalPartial)) then "" else lm_StoreID metadata).

Definition with_storeID (st : auditState) (storeID : string) : auditState :=
  mkAuditState storeID (as_generation st) (as_header st) (as_compacted st) (as_legacy st) (as_lastSequence st) (as_prunedThrough st)
    (as_lastRecordedAt st) (as_events st) (as_hasObsoleteHistory st).

(** The identity of a recovered journal: its own, that of pristine metadata, or
    a new one. *)
Definition identifyStore (disk : lockMetadataDiskState) (st : auditState) (completeBytes : Z) : M auditState :=
  let metadata := ls_metadata disk in
  refuse (lm_StoreID metadata ==? "") && (0 <? completeBytes) && negb (as_legacy st)
    with AuditError "audit lock metadata is missing for an initialized journal" ;;
  let* st := (if (lm_StoreID metadata !=? "") && (as_storeID st ==? "") then
                refuse (ls_revision disk =? 0) || ls_legacy disk || negb (lockMetadataIsPristine metadata)
                  with AuditError "initialized audit journal is empty" ;;
                ret (with_storeID st (lm_StoreID metadata))
              else ret st) in
  if as_storeID st ==? "" then let* a := next_answer in exec conclude a ;; ret (with_storeID st (an_text a)) else ret st.

(** Write the header of an empty journal. *)
Definition writeHeader (ino : nat) (storeID : string) : M (auditState * auditSnapshot) :=
  let* recordedAt := clock in
  let* line := lift (marshalAuditRecord (mkAuditRecord journalSchemaVersion auditHeader recordedAt storeID None 0 None)) in
  exec writeLine ino line ;;
  exec file_sync ino ;;
  exec directory_sync ;;
  recoverAuditLog ino false storeID.

(** The metadata after the journal was read, and the journal itself once its
    header is written when it was empty. *)
Definition initializeJournal (ino : nat) (disk : lockMetadataDiskState) (resetTorn : bool) (retention : option retentionPolicyMetadata)
  (st : auditState) (snapshot : auditSnapshot) : M (lockMetadata * auditState * auditSnapshot) :=
  let initial := lockMetadataForState st retention in
  if 0 <? sn_completeBytes snapshot then
    if resetTorn then exec replaceTornInitialLockMetadata initial ;; ret (initial, st, snapshot)
    else ret (ls_metadata disk, st, snapshot)
  else
    let* metadata :=
      (if resetTorn then exec replaceTornInitialLockMetadata initial ;; ret initial
       else if negb (lockMetadataMatchesState (ls_metadata disk) st retention) then exec writeLockMetadata initial ;; ret initial
       else ret (ls_metadata disk)) in
    let* '(st', snapshot') := writeHeader ino (as_storeID st) in
    ret (metadata, st', snapshot').

Definition readInitialMetadata : M (lockMetadataDiskState * bool) :=
  let* r := attempt readLockMetadataDiskState in
  match r with
  | Ok disk => ret (disk, false)
  | Err e => if e ==? errNoValidInitialLockMetadata then ret (mkDiskState zeroLockMetadata 0 0 false, true) else fail e
  end.

(** The lock file, created when it is missing. *)
Definition openLockFile : M unit :=
  let* d := the_disk in
  match dk_lock d with
  | Some _ => io
  | None => exec effect (fun _ d => dk_with_lock d "" false) ;; directory_sync
  end.

Definition OpenWithOptions (options : AuditOptions) : M unit :=
  let* resolved := lift (withAuditDefaults options) in
  exec io ;; exec io ;; (* the directory, and the entries created for it *)
  exec openLockFile ;;
  exec io ;; (* lock *)
  exec verifyStablePaths ;;
  let* '(disk, resetTorn) := readInitialMetadata in
  let metadata := ls_metadata disk in
  let retention := retentionPolicyForOptions resolved in
  refuse negb resetTorn && match lm_Retention metadata with Some _ => negb (retentionPoliciesEqual (lm_Retention metadata) retention) | None => false end
    with AuditError "audit retention policy does not match the fixed lock metadata" ;;
  exec cleanupStaleCompactionFile ;;
  exec (if (lm_StoreID metadata !=? "") || resetTorn then io else ret tt) ;; (* lstat *)
  let* d := the_disk in
  refuse ((lm_StoreID metadata !=? "") || resetTorn) && (dk_journal d ==? None) with AuditError "initialized audit journal is missing" ;;
  let* '(ino, fileCreated) := openJournal in
  exec (if (fileCreated : bool) then
          refuse (lm_StoreID metadata !=? "") || resetTorn with AuditError "initialized audit journal was replaced while opening" ;;
          directory_sync
        else ret tt) ;;
  let* f := inspect ino in
  let* '(shape, partialRecord) := lift (classifyInitialAuditJournal (jf_lines f) (jf_tail f)) in
  let* expectedStoreID := lift (admitInitialShape disk resetTorn fileCreated shape partialRecord) in
  let* '(recovered, snapshot) := recoverAuditLog ino true expectedStoreID in
  let* identified := identifyStore disk recovered (sn_completeBytes snapshot) in
  let* '(metadata, st, snapshot) := initializeJournal ino disk resetTorn retention identified snapshot in
  exec (if lm_StoreID metadata !=? "" then lift (auditStateCoversLockMetadata st metadata) else ret tt) ;;
  exec (if lockMetadataMatchesState metadata st retention then ret tt else writeLockMetadata (lockMetadataForState st retention)) ;;
  exec set_writer (mkWriter ino resolved st snapshot (boundary_of resolved snapshot) None false) ;;
  exec verifyPaths ;;
  io. (* unlock *)

(** ** The system: processes over one directory *)

Inductive operation := OpOpen (o : AuditOptions) | OpAppend (e : RawEvent) | OpCompact | OpList | OpClose.
Inductive happening :=
| Runs (process : nat) (op : operation) (answers : list answer)
| PowerLoss (journal : bool) (kept : nat -> nat) (torn : nat -> string) (temp : bool) (lock : option string).

Record system := mkSystem { sy_disk : disk; sy_writers : gmap nat Writer; sy_acknowledged : list AuditEvent }.
Definition noWriter : Writer := mkWriter 0 (mkAuditOptions 0 0 0 0) (newAuditState "") (mkSnapshotOf 0 0) 0 (Some ErrAuditUnavailable) true.

(** A process whose call returned keeps its writer; one that died, and one whose
    [Open] failed, has none. *)
Definition survive (ws : gmap nat Writer) (i : nat) (opening : bool) {A} (p : Process) (r : outcome A) : gmap nat Writer :=
  match r with
  | Done _ => <[i := pr_writer p]> ws
  | Failed _ => if opening then ws else <[i := pr_writer p]> ws
  | Crashed => delete i ws
  end.
Definition runs (s : system) (i : nat) (w : Writer) (opening : bool) {A} (m : M A) (answers : list answer) (ack : A -> list AuditEvent) : system :=
  let '(p, r) := m (mkProcess (sy_disk s) w answers) in
  mkSystem (pr_disk p) (survive (sy_writers s) i opening p r)
    (match r with Done a => sy_acknowledged s ++ ack a | _ => sy_acknowledged s end).

(** After a loss of power a file keeps at least its durable lines, in order, and
    perhaps a part of the next; a name keeps its durable file or the new one; the
    lock file keeps what was synced. *)
Definition cut_file (kept : nat) (torn : string) (f : jfile) : jfile :=
  let k := Nat.max kept (jf_durable f) in
  if (length (jf_lines f) <=? k)%nat then mkFile (jf_lines f) (if HasPrefix (jf_tail f) torn then torn else jf_tail f) (length (jf_lines f)) (jf_mtime f)
  else mkFile (take k (jf_lines f)) (if HasPrefix (default "" (jf_lines f !! k)) torn then torn else "") k (jf_mtime f).
Definition power_loss (d : disk) (journal : bool) (kept : nat -> nat) (torn : nat -> string) (temp : bool) (lock : option string) : disk :=
  let name := if journal then dk_journal d else dk_durable d in
  mkDisk (map_imap (fun ino f => Some (cut_file (kept ino) (torn ino) f)) (dk_files d)) (dk_next d) name name
    (if temp then dk_temp d else None) (if dk_lockSynced d then dk_lock d else lock) true.

Definition happen (s : system) (h : happening) : system :=
  match h with
  | Runs i (OpOpen o) answers =>
      match sy_writers s !! i with Some _ => s | None => runs s i noWriter true (OpenWithOptions o) answers (fun _ => []) end
  | Runs i op answers =>
      match sy_writers s !! i with
      | None => s
      | Some w =>
          match op with
          | OpAppend e => runs s i w false (AppendContext e) answers (fun stored => [stored])
          | OpCompact => runs s i w false Compact answers (fun _ => [])
          | OpList => runs s i w false List answers (fun _ => [])
          | OpClose => runs s i w false Close answers (fun _ => [])
          | OpOpen _ => s
          end
      end
  | PowerLoss journal kept torn temp lock => mkSystem (power_loss (sy_disk s) journal kept torn temp lock) ∅ (sy_acknowledged s)
  end.
Definition history (s : system) (hs : list happening) : system := foldl happen s hs.
Definition emptyDirectory : disk := mkDisk ∅ 0 None None None None true.
Definition initialSystem (d : disk) : system := mkSystem d ∅ [].

End Writer.
