(* ===== verification/AuditWriterFacts.v ===== *)
(** * Audit log: the writers of a directory

    An invariant of the directory that every operation keeps at every point where
    its process may die, and what follows for the events whose appending was
    acknowledged. *)

From Stdlib Require Import Ascii.
From S2P Require Import Prelude GoText GoJson GoJsonFacts ActionAbi JobSanitize AuditJournal AuditFacts AuditWriter.

Ltac skip := let u := fresh "u" in intros u; cbv beta; try clear u.

Section WriterFacts.
Context {U : UnicodeTables} {F : FloatText}.

(** ** The invariant *)

(** The lines recover to the state; a journal in the old format gets its store
    from the metadata. *)
Definition reads_as (lines : list string) (st : auditState) : Prop :=
  exists mt id st0, recoverLines mt id lines = Ok st0 /\ (st = st0 \/ (as_legacy st0 = true /\ exists id', st = with_storeID st0 id')).
Definition covered (e : AuditEvent) (lines : list string) : Prop :=
  exists mt id st, recoverLines mt id lines = Ok st /\ as_legacy st = false /\ kept e st.
(** However much of the unsynced lines is lost. *)
Definition file_covers (f : jfile) (e : AuditEvent) : Prop :=
  forall k, (jf_durable f <= k <= length (jf_lines f))%nat -> covered e (take k (jf_lines f)).
Definition file_sane (d : disk) : Prop :=
  forall ino f, dk_files d !! ino = Some f -> (jf_durable f <= length (jf_lines f))%nat /\ (ino < dk_next d)%nat.
Definition name_of (d : disk) (ino : nat) : Prop := dk_journal d = Some ino \/ dk_durable d = Some ino \/ dk_temp d = Some ino.
Definition safe (d : disk) (e : AuditEvent) : Prop :=
  1 <= au_Sequence e /\ (exists c, dk_journal d = Some c /\ file_covers (dk_file d c) e) /\
  (exists c, dk_durable d = Some c /\ file_covers (dk_file d c) e).
Definition names_sane (d : disk) : Prop :=
  (forall ino, name_of d ino -> is_Some (dk_files d !! ino)) /\
  (forall t, dk_temp d = Some t -> dk_journal d <> Some t /\ dk_durable d <> Some t).

Definition writer_reads (d : disk) (w : Writer) (k : nat) : Prop :=
  let lines := jf_lines (dk_file d (w_file w)) in
  (k <= length lines)%nat /\ take k lines <> [] /\ reads_as (take k lines) (w_state w) /\
  sn_completeBytes (w_journal w) = lines_size (take k lines).
Definition writer_sound (d : disk) (w : Writer) : Prop :=
  w_closed w = false -> (w_file w < dk_next d)%nat /\ (dk_journal d = Some (w_file w) -> exists k, writer_reads d w k).
(** What the operations of one process may do to the directory of the others. *)
Definition grows (d d' : disk) : Prop :=
  (dk_next d <= dk_next d')%nat /\
  ((dk_journal d' = dk_journal d /\ forall c, dk_journal d = Some c -> jf_lines (dk_file d c) `prefix_of` jf_lines (dk_file d' c)) \/
   exists c', dk_journal d' = Some c' /\ (dk_next d <= c')%nat).

Lemma grows_refl d : grows d d.
Proof. split; [done|]. left. done. Qed.
Lemma grows_trans d1 d2 d3 : (forall c, dk_journal d1 = Some c -> (c < dk_next d1)%nat) -> grows d1 d2 -> grows d2 d3 -> grows d1 d3.
Proof.
  intros Hc [Hn1 H1] [Hn2 H2]. split; [lia|]. destruct H2 as [[Hj2 Hp2]|(c' & Hj2 & Hle)]; [|right; exists c'; split; [done|lia]].
  destruct H1 as [[Hj1 Hp1]|(c' & Hj1 & Hle)]; [|right; exists c'; split; [congruence|lia]].
  left. split; [congruence|]. intros c H. etransitivity; [by apply Hp1|]. apply Hp2. congruence.
Qed.
Lemma writer_sound_grows d d' w : writer_sound d w -> grows d d' -> writer_sound d' w.
Proof.
  intros Hw [Hn Hg] Hcl. destruct (Hw Hcl) as [Hlt Hk]. split; [lia|]. intros Hj.
  destruct Hg as [[Hj' Hp]|(c' & Hj' & Hle)]; [|assert (c' = w_file w) by congruence; lia].
  rewrite Hj' in Hj. destruct (Hk Hj) as (k & Hk1 & Hk2 & Hk3 & Hk4). destruct (Hp _ Hj) as [more Hm].
  exists k. unfold writer_reads. rewrite Hm, take_app_le, length_app by done. split_and!; try done. lia.
Qed.

(** The parts of the directory that recovery, metadata and synchronisation leave
    alone. *)
Definition core (d d' : disk) : Prop :=
  dk_next d' = dk_next d /\ dk_journal d' = dk_journal d /\ dk_temp d' = dk_temp d /\
  (dk_durable d' = dk_durable d \/ dk_durable d' = dk_journal d') /\
  (forall ino, is_Some (dk_files d' !! ino) <-> is_Some (dk_files d !! ino)) /\
  (forall ino, jf_lines (dk_file d' ino) = jf_lines (dk_file d ino) /\
    (jf_durable (dk_file d ino) <= jf_durable (dk_file d' ino) <= length (jf_lines (dk_file d ino)))%nat /\
    (jf_tail (dk_file d' ino) = jf_tail (dk_file d ino) \/ jf_tail (dk_file d' ino) = "")).
Lemma file_sane_at d ino : file_sane d -> (jf_durable (dk_file d ino) <= length (jf_lines (dk_file d ino)))%nat.
Proof. intros H. unfold dk_file. destruct (dk_files d !! ino) as [f|] eqn:E; [by apply (H ino f)|done]. Qed.
Lemma core_refl d : file_sane d -> core d d.
Proof. intros H. split_and!; try done; [by left|]. intros ino. pose proof (file_sane_at d ino H). by split_and!; [..|left]. Qed.
Lemma core_trans d1 d2 d3 : core d1 d2 -> core d2 d3 -> core d1 d3.
Proof.
  intros (A1 & A2 & A3 & A4 & A5 & A6) (B1 & B2 & B3 & B4 & B5 & B6). split_and!; try congruence.
  - destruct B4 as [->| ->]; [|by right]. destruct A4 as [->| ->]; [by left|right; congruence].
  - intros ino. by rewrite B5.
  - intros ino. destruct (A6 ino) as (Ha & Ha' & Ha2), (B6 ino) as (Hb & Hb' & Hb2). rewrite Ha in Hb'.
    split; [congruence|]. split; [lia|]. destruct Hb2 as [->|Hb2]; [done|by right].
Qed.

Lemma dk_put_file d ino f : dk_file (dk_put d ino f) ino = f.
Proof. unfold dk_file, dk_put; cbn. by rewrite lookup_insert_eq. Qed.
Lemma dk_put_other d ino f i : i <> ino -> dk_file (dk_put d ino f) i = dk_file d i.
Proof. intros H. unfold dk_file, dk_put; cbn. by rewrite lookup_insert_ne. Qed.
Lemma core_sane d d' : file_sane d -> core d d' -> file_sane d'.
Proof.
  intros Hf (C1 & _ & _ & _ & C5 & C6) ino f Hi. pose proof (C6 ino) as (Hl & Hd & _). unfold dk_file in Hl, Hd. rewrite Hi in Hl, Hd. cbn in Hl, Hd.
  destruct (proj1 (C5 ino) ltac:(by eexists)) as [f0 Hf0]. rewrite Hf0 in *. cbn in *. destruct (Hf ino f0 Hf0). rewrite Hl, C1. lia.
Qed.
Lemma core_put d ino f : file_sane d -> is_Some (dk_files d !! ino) -> jf_lines f = jf_lines (dk_file d ino) ->
  (jf_durable (dk_file d ino) <= jf_durable f <= length (jf_lines (dk_file d ino)))%nat ->
  jf_tail f = jf_tail (dk_file d ino) \/ jf_tail f = "" -> core d (dk_put d ino f).
Proof.
  intros Hs Hi Hl Hd Ht. split_and!; try done; [by left| |].
  - intros i. cbn. destruct (decide (i = ino)) as [->|Hne]; [rewrite lookup_insert_eq|by rewrite lookup_insert_ne]. split; [done|by eexists].
  - intros i. destruct (decide (i = ino)) as [->|Hne]; [by rewrite dk_put_file|].
    rewrite dk_put_other by done. pose proof (file_sane_at d i Hs). by split_and!; [..|left].
Qed.
Lemma core_lock d body synced : file_sane d -> core d (dk_with_lock d body synced).
Proof. intros H. exact (core_refl d H). Qed.
Lemma core_sync d : file_sane d -> core d (dk_sync d).
Proof. intros H. destruct (core_refl d H) as (H1&H2&H3&_&H5&H6). exact (conj H1 (conj H2 (conj H3 (conj (or_intror eq_refl) (conj H5 H6))))). Qed.

(** ** Assertions about computations *)

Definition assertion := disk -> Writer -> Prop.

Section Triples.
Variable I : assertion.
(** A computation that starts where [P] holds ends where [Q] does; where it fails
    or its process dies, [I] holds. *)
Definition triple {A} (P : assertion) (m : M A) (Q : A -> assertion) : Prop :=
  forall p, P (pr_disk p) (pr_writer p) ->
    match m p with (p', Done a) => Q a (pr_disk p') (pr_writer p') | (p', _) => I (pr_disk p') (pr_writer p') end.

Lemma triple_bind {A B} P (m : M A) (R : A -> assertion) (k : A -> M B) Q :
  triple P m R -> (forall a, triple (R a) (k a) Q) -> triple P (bind m k) Q.
Proof.
  intros Hm Hk p Hp. unfold bind. specialize (Hm p Hp). destruct (m p) as [p' [a|e|]]; [|exact Hm|exact Hm]. by apply Hk.
Qed.
Lemma triple_ret {A} (P : assertion) (a : A) (Q : A -> assertion) : (forall d w, P d w -> Q a d w) -> triple P (ret a) Q.
Proof. intros H p Hp. by apply H. Qed.
Lemma triple_fail {A} (P : assertion) e (Q : A -> assertion) : (forall d w, P d w -> I d w) -> triple P (fail e) Q.
Proof. intros H p Hp. by apply H. Qed.
Lemma triple_attempt {A} P (m : M A) (Q : A -> assertion) :
  triple P m Q -> triple P (attempt m) (fun r d w => match r with Ok a => Q a d w | Err _ => I d w end).
Proof. intros H p Hp. unfold attempt. specialize (H p Hp). destruct (m p) as [p' [a|e|]]; exact H. Qed.
Lemma triple_weaken {A} (P P' : assertion) (m : M A) (Q Q' : A -> assertion) :
  triple P m Q -> (forall d w, P' d w -> P d w) -> (forall a d w, Q a d w -> Q' a d w) -> triple P' m Q'.
Proof. intros H HP HQ p Hp. specialize (H p (HP _ _ Hp)). destruct (m p) as [p' [a|e|]]; [by apply HQ|exact H|exact H]. Qed.
Lemma triple_pre {A} (P P' : assertion) (m : M A) (Q : A -> assertion) : triple P m Q -> (forall d w, P' d w -> P d w) -> triple P' m Q.
Proof. intros H HP. by eapply triple_weaken. Qed.
Lemma triple_post {A} (P : assertion) (m : M A) (Q Q' : A -> assertion) : triple P m Q -> (forall a d w, Q a d w -> Q' a d w) -> triple P m Q'.
Proof. intros H HQ. by eapply triple_weaken. Qed.
Lemma triple_lift {A} (P : assertion) (r : ares A) : (forall d w, P d w -> I d w) -> triple P (lift r) (fun a d w => P d w /\ r = Ok a).
Proof. intros H p Hp. destruct r as [a|e]; cbn; [by split|by apply H]. Qed.
Lemma triple_disk (P : assertion) : triple P the_disk (fun a d w => P d w /\ d = a).
Proof. intros p Hp. by split. Qed.
Lemma triple_writer (P : assertion) : triple P the_writer (fun a d w => P d w /\ w = a).
Proof. intros p Hp. by split. Qed.
Lemma triple_set_writer (P : assertion) w' : triple P (set_writer w') (fun _ d w => w = w' /\ exists w0, P d w0).
Proof. intros p Hp. cbn. split; [done|]. by eexists. Qed.

(** Computations that consume answers only. *)
Lemma next_answer_same p : let '(p', r) := next_answer p in pr_disk p' = pr_disk p /\ pr_writer p' = pr_writer p /\ exists a, r = Done a.
Proof. unfold next_answer. destruct (pr_answers p); cbn; split_and!; try done; by eexists. Qed.
Lemma triple_answer (P : assertion) : triple P next_answer (fun _ => P).
Proof.
  intros p Hp. pose proof (next_answer_same p) as H. destruct (next_answer p) as [p' r]. destruct H as (H1 & H2 & a & ->). by rewrite H1, H2.
Qed.
Lemma triple_conclude (P : assertion) a : (forall d w, P d w -> I d w) -> triple P (conclude a) (fun _ d w => P d w /\ an_reply a = Succeeds).
Proof. intros H p Hp. unfold conclude. destruct (an_reply a); [by split|by apply H|by apply H]. Qed.
Lemma triple_io (P : assertion) : (forall d w, P d w -> I d w) -> triple P io (fun _ => P).
Proof.
  intros H. eapply triple_bind; [apply triple_answer|]. intros a. eapply triple_weaken; [by apply triple_conclude|done|]. by intros ? ? ? [? _].
Qed.
Lemma triple_ctx_err (P : assertion) : triple P ctx_err (fun _ => P).
Proof. eapply triple_bind; [apply triple_answer|]. intros a. by apply triple_ret. Qed.
Lemma triple_clock (P : assertion) : triple P clock (fun _ => P).
Proof. eapply triple_bind; [apply triple_answer|]. intros a. by apply triple_ret. Qed.
Lemma triple_change (P : assertion) f (Q : assertion) : (forall d w, P d w -> Q (f d) w) -> triple P (change_disk f) (fun _ => Q).
Proof. intros H p Hp. by apply H. Qed.
Lemma triple_effect (P Q : assertion) f : (forall d w, P d w -> I d w) -> (forall d w, Q d w -> I d w) -> (forall a d w, P d w -> Q (f a d) w) ->
  triple P (effect f) (fun _ => Q).
Proof.
  intros HP HQ Hf p Hp. unfold effect, bind. pose proof (next_answer_same p) as Hn. destruct (next_answer p) as [p' r].
  destruct Hn as (H1 & H2 & a & ->). unfold extent, conclude, change_disk, ret.
  destruct (an_reply a) as [|n|n] eqn:Er; cbn; rewrite ?H1, ?H2; [by apply Hf| |];
    (destruct (n =? 0)%nat; cbn; rewrite ?Er; cbn; rewrite ?H1, ?H2; [by apply HP|by apply HQ, Hf]).
Qed.
Lemma triple_flush (P Q : assertion) f : (forall d w, P d w -> I d w) -> (forall d w, P d w -> Q (f d) w) -> triple P (flush f) (fun _ => Q).
Proof.
  intros HP Hf p Hp. unfold flush, bind. pose proof (next_answer_same p) as Hn. destruct (next_answer p) as [p' r].
  destruct Hn as (H1 & H2 & a & ->). unfold conclude, change_disk, ret.
  destruct (an_reply a) eqn:Er; cbn; rewrite ?Er; cbn; rewrite ?H1, ?H2; [by apply Hf|by apply HP|by apply HP].
Qed.

(** ** Calls that do not change the journal *)



Lemma triple_inspect (P : assertion) ino : (forall d w, P d w -> I d w) -> triple P (inspect ino) (fun f d w => P d w /\ f = dk_file d ino).
Proof.
  intros H. eapply triple_bind; [by apply triple_io|]. skip. eapply triple_bind; [apply triple_disk|].
  intros a. apply triple_ret. intros d w [Hp <-]. done.
Qed.
Lemma triple_verify (P : assertion) : (forall d w, P d w -> I d w) -> triple P verifyStablePaths (fun _ => P).
Proof. intros H. eapply triple_bind; [by apply triple_io|]. skip. by apply triple_io. Qed.
Lemma triple_verifyJournalPath (P : assertion) ino : (forall d w, P d w -> I d w) ->
  triple P (verifyJournalPath ino) (fun _ d w => P d w /\ dk_journal d = Some ino).
Proof.
  intros H. eapply triple_bind; [by apply triple_io|]. skip. eapply triple_bind; [apply triple_disk|]. intros a.
  destruct (dk_journal a !=? Some ino) eqn:E; [by apply triple_fail; intros d w [Hp _]; apply H|].
  apply triple_ret. intros d w [Hp <-]. breflect. done.
Qed.
Lemma triple_verifyPaths (P : assertion) : (forall d w, P d w -> I d w) -> triple P verifyPaths (fun _ d w => P d w /\ dk_journal d = Some (w_file w)).
Proof.
  intros H. eapply triple_bind; [by apply triple_verify|]. skip. eapply triple_bind; [apply triple_writer|]. intros w1.
  eapply triple_weaken; [apply (triple_verifyJournalPath (fun d w => P d w /\ w = w1))|done|]; [by intros d w [Hp _]; apply H|].
  intros ? d w [[Hp ->] Hj]; done.
Qed.
Lemma triple_readLock (P : assertion) : (forall d w, P d w -> I d w) -> triple P readLockMetadataDiskState (fun _ => P).
Proof.
  intros H. eapply triple_bind; [by apply triple_io|]. skip. eapply triple_bind; [by apply triple_io|]. skip.
  eapply triple_bind; [apply triple_disk|]. intros a. eapply triple_weaken; [apply (triple_lift P)|by intros d w [Hp _]|by intros ? ? ? [Hp _]]. done.
Qed.
Lemma triple_readVerified (P : assertion) : (forall d w, P d w -> I d w) -> triple P readVerifiedLockMetadataLocked (fun _ => P).
Proof.
  intros H. eapply triple_bind; [by apply triple_readLock|]. intros disk. eapply triple_bind; [apply triple_writer|]. intros w1. cbv zeta.
  destruct (_ || _); [apply triple_fail; intros d w [Hp _]; by apply H|].
  destruct (negb _); [apply triple_fail; intros d w [Hp _]; by apply H|]. apply triple_ret. by intros d w [Hp _].
Qed.
End Triples.

(** ** Calls within the frame *)

Section Frame.
Variables (I : assertion) (d1 : disk) (w1 : Writer).
Definition frame : assertion := fun d w => core d1 d /\ w = w1.
Hypothesis Hsane : file_sane d1.
Hypothesis frame_J : forall d w, frame d w -> I d w.
Lemma frame_sane d w : frame d w -> file_sane d.
Proof. intros [Hc _]. by eapply core_sane. Qed.
Lemma frame_step d w d' : frame d w -> core d d' -> frame d' w.
Proof. intros [Hc Hw] H. split; [by eapply core_trans|done]. Qed.

Lemma frame_truncateTail ino : is_Some (dk_files d1 !! ino) -> triple I frame (truncateTail ino) (fun _ => frame).
Proof.
  intros Hi. apply triple_effect; [apply frame_J..|]. intros a d w H. cbv zeta. eapply frame_step; [exact H|]. pose proof (frame_sane _ _ H) as Hs.
  apply core_put; [done|by destruct H as [(_&_&_&_&Hx&_) _]; apply Hx|done|cbn; split; [done|by apply file_sane_at]|by right].
Qed.
Lemma frame_file_sync ino : is_Some (dk_files d1 !! ino) ->
  triple I frame (file_sync ino) (fun _ d w => frame d w /\ jf_durable (dk_file d ino) = length (jf_lines (dk_file d1 ino))).
Proof.
  intros Hi. apply triple_flush; [apply frame_J|]. intros d w H. cbv zeta. pose proof (frame_sane _ _ H) as Hs.
  destruct H as [Hc Hw]. pose proof Hc as (_&_&_&_&Hx&Hl). split; [|rewrite dk_put_file; cbn; by destruct (Hl ino) as [-> _]].
  split; [|done]. eapply core_trans; [exact Hc|]. apply core_put; [done|by apply Hx|done|cbn; split; [by apply file_sane_at|done]|by left].
Qed.
Lemma frame_directory_sync : triple I frame directory_sync (fun _ d w => frame d w /\ dk_durable d = dk_journal d).
Proof.
  apply triple_flush; [apply frame_J|]. intros d w H. split; [|done]. eapply frame_step; [exact H|]. apply core_sync. by eapply frame_sane.
Qed.

Lemma frame_recover ino repair id : is_Some (dk_files d1 !! ino) ->
  triple I frame (recoverAuditLog ino repair id) (fun r d w => frame d w /\ jf_tail (dk_file d ino) = "" /\
    (exists mt, recoverLines mt id (jf_lines (dk_file d1 ino)) = Ok r.1) /\ sn_completeBytes r.2 = lines_size (jf_lines (dk_file d1 ino))).
Proof.
  intros Hi. unfold recoverAuditLog. eapply triple_bind; [apply (triple_inspect I frame), frame_J|]. intros f.
  set (P := fun d w => frame d w /\ jf_lines f = jf_lines (dk_file d1 ino)).
  assert (HP : forall d w, P d w -> I d w) by (intros d w [H _]; by eapply frame_J).
  eapply (triple_weaken I P); [|intros d w [H ->]; split; [done|]; destruct H as [(_&_&_&_&_&Hl) _]; by destruct (Hl ino)|intros a d w H; exact H].
  eapply triple_bind; [by apply triple_io|]. skip. eapply triple_bind; [by apply triple_io|]. skip.
  eapply triple_bind; [by apply triple_lift|]. intros v.
  set (R := fun d w => P d w /\ scanLines (jf_mtime f) id (jf_lines f) = Ok v).
  assert (HR : forall d w, R d w -> I d w) by (intros d w [H _]; by apply HP).
  eapply (triple_bind I R _ (fun _ => R)).
  { destruct (jf_tail f ==? ""); [by apply triple_ret|].
    eapply triple_bind; [eapply triple_weaken; [by apply (triple_lift I R)|done|intros a d w [H _]; exact H]|]. skip.
    eapply (triple_bind I _ _ (fun _ => R)).
    - intros p ((Hp & Hl) & Hs). pose proof (frame_truncateTail ino Hi p Hp) as H. destruct (truncateTail ino p) as [p' [a|e|]]; [|done..].
      by split.
    - intros _ p ((Hp & Hl) & Hs). pose proof (frame_file_sync ino Hi p Hp) as H. destruct (file_sync ino p) as [p' [a|e|]]; [|done..].
      destruct H as [H _]. by split. }
  skip. eapply triple_bind; [by apply triple_lift|]. intros st.
  set (R2 := fun d w => R d w /\ finishRecovery v (lines_size (jf_lines f)) id = Ok st).
  assert (HR2 : forall d w, R2 d w -> I d w) by (intros d w [H _]; by apply HR).
  eapply triple_bind; [by apply (triple_io I R2)|]. skip.
  eapply (triple_bind I R2 _ (fun s d w => R2 d w /\ sn_completeBytes s = jf_size (dk_file d ino))).
  { unfold snapshotAuditLog. eapply triple_bind; [by apply triple_inspect|]. intros g. apply triple_ret. by intros d w [H ->]. }
  intros s. destruct (negb _) eqn:E; [apply triple_fail; intros d w [H _]; by apply HR2|]. apply triple_ret.
  intros d w [[[[Hfr Hl] Hs] Hfin] Hsz]. breflect. cbn [fst snd]. split; [done|].
  assert (Hlines : jf_lines (dk_file d ino) = jf_lines f) by (destruct Hfr as [(_&_&_&_&_&Hx) _]; destruct (Hx ino); congruence).
  split; [|split; [exists (jf_mtime f); unfold recoverLines; rewrite <-Hl, Hs; exact Hfin|congruence]].
  unfold jf_size in Hsz. rewrite Hlines in Hsz. assert (Hz : slen (jf_tail (dk_file d ino)) = 0) by lia.
  unfold slen in Hz. destruct (jf_tail (dk_file d ino)); [done|cbn in Hz; lia].
Qed.

Lemma frame_write_slot m revision slot : triple I frame (writeLockMetadataSlot m revision slot) (fun _ => frame).
Proof.
  unfold writeLockMetadataSlot. eapply triple_bind; [apply triple_lift, frame_J|]. intros [m' text].
  eapply triple_weaken; [|by intros d w [H _]; exact H|intros a d w H; exact H].
  eapply (triple_bind I frame _ (fun _ => frame)).
  { eapply triple_bind; [apply triple_answer|]. intros a. eapply (triple_bind I frame _ (fun _ => frame)).
    - apply triple_change. intros d w H. eapply frame_step; [exact H|]. apply core_lock. by eapply frame_sane.
    - skip. eapply triple_weaken; [apply (triple_conclude I frame a), frame_J|done|by intros ? ? ? [? _]]. }
  skip. eapply (triple_bind I frame _ (fun _ => frame)).
  { apply triple_flush; [apply frame_J|]. intros d w H. eapply frame_step; [exact H|]. apply core_lock. by eapply frame_sane. }
  skip. eapply triple_bind; [apply frame_directory_sync|]. skip. eapply triple_weaken; [|by intros d w [H _]; exact H|intros a d w H; exact H].
  eapply triple_bind; [apply (triple_readLock I frame), frame_J|]. intros c. destruct (negb _); [apply triple_fail, frame_J|by apply triple_ret].
Qed.
Lemma frame_write_lock m : triple I frame (writeLockMetadata m) (fun _ => frame).
Proof.
  unfold writeLockMetadata. eapply triple_bind; [apply (triple_readLock I frame), frame_J|]. intros c.
  eapply triple_bind; [apply triple_lift, frame_J|]. intros [rev slot].
  eapply triple_weaken; [apply frame_write_slot|by intros d w [H _]|done].
Qed.
Lemma frame_persist st : triple I frame (persistLockMetadataLocked st) (fun _ => frame).
Proof.
  unfold persistLockMetadataLocked. destruct (as_storeID st ==? ""); [apply triple_fail, frame_J|].
  eapply triple_bind; [apply triple_writer|]. intros w'. eapply triple_weaken; [apply frame_write_lock|by intros d w [H _]|done].
Qed.
Lemma frame_replace_torn m : triple I frame (replaceTornInitialLockMetadata m) (fun _ => frame).
Proof.
  unfold replaceTornInitialLockMetadata. eapply triple_bind; [apply triple_io, frame_J|]. skip.
  eapply triple_bind; [apply triple_disk|]. intros d'. cbv zeta. destruct (_ || _); [apply triple_fail; intros d w [H _]; by eapply frame_J|].
  eapply triple_weaken; [apply frame_write_slot|by intros d w [H _]|done].
Qed.
End Frame.

(** ** The invariant of a process that runs *)

Section Invariant.
Variables (acked : list AuditEvent) (d0 : disk).

Definition sound (d : disk) : Prop := file_sane d /\ names_sane d /\ Forall (safe d) acked.
Definition J : assertion := fun d w => sound d /\ writer_sound d w /\ grows d0 d.

Lemma J_sane d w : J d w -> file_sane d.
Proof. by intros [(H & _) _]. Qed.
Lemma file_covers_core d d' ino e : core d d' -> file_covers (dk_file d ino) e -> file_covers (dk_file d' ino) e.
Proof. intros (_ & _ & _ & _ & _ & H) Hc k Hk. destruct (H ino) as (Hl & Hd & _). rewrite Hl in *. apply Hc. lia. Qed.
Lemma names_core d d' : names_sane d -> core d d' -> names_sane d'.
Proof.
  intros [Hn1 Hn2] (C1 & C2 & C3 & C4 & C5 & C6). split.
  - intros ino Hi. apply C5, Hn1. unfold name_of in *. rewrite C2, C3 in Hi. destruct C4 as [E|E]; rewrite E in Hi; [done|]. rewrite C2 in Hi. tauto.
  - rewrite C2, C3. intros t Ht. destruct (Hn2 t Ht). destruct C4 as [->| ->]; [done|by rewrite C2].
Qed.
Lemma safe_core d d' e : safe d e -> core d d' -> safe d' e.
Proof.
  intros (H1 & (c & Hj & Hcv) & (c2 & Hj2 & Hcv2)) Hc. pose proof Hc as (_ & C2 & _ & C4 & _). split; [done|].
  split; [exists c; rewrite C2; split; [done|by eapply file_covers_core]|].
  destruct C4 as [->| ->]; [exists c2; split; [done|by eapply file_covers_core]|]. exists c. rewrite C2. split; [done|by eapply file_covers_core].
Qed.
Lemma grows_core d d' : core d d' -> grows d d'.
Proof. intros (C1 & C2 & _ & _ & _ & C6). split; [by rewrite C1|]. left. split; [done|]. intros c _. by destruct (C6 c) as [-> _]. Qed.
Lemma J_next d w c : J d w -> name_of d c -> (c < dk_next d)%nat.
Proof. intros [(Hf & [Hn _] & _) _] H. destruct (Hn c H) as [f Hi]. by destruct (Hf c f Hi). Qed.
Lemma J_exists d w c : J d w -> name_of d c -> is_Some (dk_files d !! c).
Proof. intros [(_ & [Hn _] & _) _] H. by apply Hn. Qed.
(** A change of the directory keeps the invariant when it keeps its parts. *)
Lemma J_change d d' w : J d w -> file_sane d' -> names_sane d' -> Forall (safe d') acked -> grows d d' ->
  (forall c, dk_journal d0 = Some c -> (c < dk_next d0)%nat) -> J d' w.
Proof.
  intros (_ & Hw & Hg) Hf Hn Ha Hs H0. split_and!; [done|by eapply writer_sound_grows|]. by eapply grows_trans.
Qed.
Hypothesis d0_next : forall c, dk_journal d0 = Some c -> (c < dk_next d0)%nat.
Lemma J_core d d' w : J d w -> core d d' -> J d' w.
Proof.
  intros H Hc. pose proof H as ((Hf & Hn & Ha) & _). apply (J_change d); [done|by eapply core_sane|by eapply names_core| |by apply grows_core|done].
  eapply Forall_impl; [exact Ha|]. intros e He. by eapply safe_core.
Qed.

(** The writer as far as the invariant goes. *)
Definition same_reading (w w' : Writer) : Prop :=
  w_file w' = w_file w /\ w_state w' = w_state w /\ sn_completeBytes (w_journal w') = sn_completeBytes (w_journal w) /\ w_closed w' = w_closed w.
Lemma J_same d w w' : J d w -> same_reading w w' -> J d w'.
Proof.
  intros (H1 & H2 & H3) (E1 & E2 & E3 & E4). split_and!; [done| |done]. unfold writer_sound, writer_reads. rewrite E1, E2, E3, E4. exact H2.
Qed.
Lemma J_closed d w w' : J d w -> w_closed w' = true -> J d w'.
Proof. intros (H1 & H2 & H3) E. split_and!; [done| |done]. intros H. congruence. Qed.

Notation tri := (triple J).

Lemma tri_unavailable {A} (P : assertion) e (Q : A -> assertion) : (forall d w, P d w -> J d w) -> tri P (markUnavailable e) Q.
Proof.
  intros H. eapply triple_bind; [apply triple_writer|]. intros w1. cbv zeta.
  eapply triple_bind; [apply triple_set_writer|]. skip. apply triple_fail. intros d w (-> & w0 & Hp & ->). apply (J_same d w1); [by apply H|by split_and!].
Qed.
Lemma tri_attempt_io : tri J (attempt io) (fun _ => J).
Proof. eapply triple_weaken; [apply triple_attempt, (triple_io J J); done|done|]. by intros [] d w. Qed.
Lemma tri_failClosed {A} P (m : M A) (Q : A -> assertion) : tri P m Q -> tri P (failClosed m) Q.
Proof.
  intros H. unfold failClosed. eapply triple_bind; [by apply triple_attempt|]. intros [a|e]; [by apply triple_ret|].
  eapply triple_bind; [apply tri_attempt_io|]. skip. by apply tri_unavailable.
Qed.
(** A call whose failure leaves the assertion as it was. *)
Lemma triple_attempt_io (I P : assertion) : (forall d w, P d w -> I d w) -> triple I P (attempt io) (fun _ => P).
Proof.
  intros H p Hp. pose proof (triple_io P P (fun _ _ x => x) p Hp) as Hi. unfold attempt.
  destruct (io p) as [p' [a|e|]]; [exact Hi|exact Hi|by apply H].
Qed.
Lemma tri_releaseLock (P : assertion) : (forall d w, P d w -> J d w) -> tri P releaseLock (fun _ => P).
Proof.
  intros H. eapply triple_bind; [by apply triple_attempt_io|]. intros [|e]; [by apply triple_ret|by apply tri_unavailable].
Qed.
Lemma tri_interrupt {A} (P : assertion) op c (Q : A -> assertion) : (forall d w, P d w -> J d w) -> tri P (interruptAfterLock op c) Q.
Proof. intros H. eapply triple_bind; [by apply tri_releaseLock|]. skip. by apply triple_fail. Qed.
Lemma tri_checkInterrupt (P : assertion) op : (forall d w, P d w -> J d w) -> tri P (checkInterrupt op) (fun _ => P).
Proof.
  intros H. eapply triple_bind; [apply triple_ctx_err|]. intros [|]; [by apply tri_interrupt|by apply triple_ret].
Qed.
Lemma tri_commitTime (P : assertion) : (forall d w, P d w -> J d w) -> tri P commitTime (fun _ => P).
Proof.
  intros H. eapply triple_bind; [apply triple_clock|]. intros t. eapply triple_bind; [apply triple_writer|]. intros w1.
  destruct (t =? 0); [apply triple_fail; intros d w [Hp _]; by apply H|]. apply triple_ret. by intros d w [Hp _].
Qed.
Lemma tri_acquire (P : assertion) e : (forall d w, P d w -> J d w) -> tri P (acquire e) (fun _ => P).
Proof. intros H. eapply triple_bind; [by apply triple_attempt_io|]. intros [|x]; [by apply triple_ret|by apply triple_fail]. Qed.
Lemma tri_requireUsable : tri J requireUsable (fun _ d w => J d w /\ w_closed w = false).
Proof.
  eapply triple_bind; [apply triple_writer|]. intros w1. destruct (w_closed w1) eqn:E; [by apply triple_fail; intros d w [Hp _]|].
  destruct (w_unavailable w1); [by apply tri_unavailable; intros d w [Hp _]|]. apply triple_ret. by intros d w [Hp ->].
Qed.
Lemma tri_enterLock (P : assertion) op : (forall d w, P d w -> J d w) -> tri P (enterLock op) (fun _ => P).
Proof.
  intros H. eapply (triple_bind J P _ (fun _ => P)).
  - intros p Hp. unfold attempt, lockAuditFile, bind. pose proof (next_answer_same p) as Hn. destruct (next_answer p) as [p' r].
    destruct Hn as (H1 & H2 & a & ->). destruct (an_reply a) as [|[|n]|n]; cbn; rewrite H1, H2; try exact Hp. by apply H.
  - intros [|e]; [by apply triple_ret|]. destruct (isContext e); [by apply triple_fail|by apply tri_unavailable].
Qed.
(** Proofs that name the directory and the writer at the start. *)
Lemma triple_start {A} (I P : assertion) (m : M A) Q :
  (forall d1 w1, P d1 w1 -> triple I (fun d w => d = d1 /\ w = w1) m Q) -> triple I P m Q.
Proof. intros H p Hp. by apply (H _ _ Hp). Qed.
Lemma triple_frame {A} (P : assertion) (m : M A) Q : (forall d w, P d w -> J d w) ->
  (forall d1 w1, P d1 w1 -> file_sane d1 -> (forall d w, frame d1 w1 d w -> J d w) -> tri (frame d1 w1) m Q) -> tri P m Q.
Proof.
  intros HP H. apply triple_start. intros d1 w1 Hp. pose proof (J_sane _ _ (HP _ _ Hp)) as Hs.
  eapply triple_weaken; [apply (H d1 w1 Hp Hs)| |done].
  - intros d w [Hc ->]. eapply J_core; [by apply HP|done].
  - intros d w [-> ->]. split; [by apply core_refl|done].
Qed.
Lemma triple_attempt_same {A} (I P : assertion) (m : M A) : (forall d w, P d w -> I d w) -> triple P P m (fun _ => P) -> triple I P (attempt m) (fun _ => P).
Proof.
  intros H Hm p Hp. specialize (Hm p Hp). unfold attempt. destruct (m p) as [p' [a|e|]]; [exact Hm|exact Hm|by apply H].
Qed.
Lemma tri_stable {A} (P : assertion) (m : M A) : (forall d w, P d w -> J d w) -> (forall d d' w, P d w -> core d d' -> P d' w) ->
  (forall d1 w1, file_sane d1 -> (forall d w, frame d1 w1 d w -> J d w) -> tri (frame d1 w1) m (fun _ => frame d1 w1)) -> tri P m (fun _ => P).
Proof.
  intros HP Hc Hm. apply triple_frame; [done|]. intros d1 w1 Hp Hs HF. eapply triple_post; [by apply Hm|]. intros _ d w [Hcore ->]. by eapply Hc.
Qed.

(** ** The writer takes over what the journal holds *)

Definition usable (closed : bool) : assertion := fun d w =>
  J d w /\ w_closed w = closed /\ (closed = false -> as_storeID (w_state w) <> "").
Definition named (closed : bool) : assertion := fun d w => usable closed d w /\ dk_journal d = Some (w_file w).
(** The journal is the file of the writer, and the writer has read all of it. *)
Definition canonical : assertion := fun d w =>
  let f := dk_file d (w_file w) in
  J d w /\ w_closed w = false /\ dk_journal d = Some (w_file w) /\ jf_tail f = "" /\ jf_lines f <> [] /\ reads_as (jf_lines f) (w_state w) /\
  sn_completeBytes (w_journal w) = lines_size (jf_lines f).
Lemma canonical_J d w : canonical d w -> J d w.
Proof. by intros [H _]. Qed.

Lemma J_adopt d w w' : J d w -> (w_file w' < dk_next d)%nat -> jf_lines (dk_file d (w_file w')) <> [] ->
  reads_as (jf_lines (dk_file d (w_file w'))) (w_state w') -> sn_completeBytes (w_journal w') = lines_size (jf_lines (dk_file d (w_file w'))) -> J d w'.
Proof.
  intros (H1 & _ & H3) Hn Hl Hr Hs. split_and!; [done| |done]. intros _. split; [done|]. intros _.
  exists (length (jf_lines (dk_file d (w_file w')))). unfold writer_reads. by rewrite firstn_all.
Qed.
Lemma recovered_reads mt id lines st : recoverLines mt id lines = Ok st -> reads_as lines st.
Proof. intros H. exists mt, id, st. split; [done|by left]. Qed.
Lemma continues_store a b : stateContinues a b = Ok tt -> as_storeID a <> "" /\ as_storeID b = as_storeID a.
Proof. unfold stateContinues. intros H. ok_path H. breflect. tauto. Qed.
Lemma advances_store a b : auditStateAdvances a b = Ok tt -> as_storeID a <> "" /\ as_storeID b = as_storeID a.
Proof. unfold auditStateAdvances. destruct (stateContinues a b) as [[]|] eqn:E; [|done]. intros _. by apply continues_store. Qed.

Definition adopted (ino : nat) (st : auditState) (s : auditSnapshot) (w : Writer) : Writer :=
  mkWriter ino (w_options w) st s (boundary_of (w_options w) s) (w_unavailable w) (w_closed w).
Lemma triple_adopt (I P : assertion) ino st s : triple I P (adopt ino st s) (fun _ d w => exists w0, P d w0 /\ w = adopted ino st s w0).
Proof. intros p Hp. by exists (pr_writer p). Qed.

Lemma tri_ensureCanonical b : tri (usable b) ensureCanonicalLocked (fun _ => named b).
Proof.
  assert (HU : forall d w, usable b d w -> J d w) by by intros d w [H _].
  unfold ensureCanonicalLocked. eapply triple_bind; [by apply triple_io|]. skip. eapply triple_bind; [by apply triple_io|]. skip.
  eapply triple_bind; [apply triple_writer|]. intros w1. eapply triple_bind; [apply triple_disk|]. intros d1.
  destruct (dk_journal d1) as [current|] eqn:Ej; [|by apply triple_fail; intros d w [[Hu _] _]; apply HU].
  set (P := fun d w => (usable b d w /\ w = w1) /\ d = d1). assert (HP : forall d w, P d w -> J d w) by (intros d w [[Hu _] _]; by apply HU).
  destruct (current ==? w_file w1) eqn:Ec.
  { eapply triple_weaken; [by apply (triple_verifyJournalPath J P)|done|]. intros _ d w [[[Hu ->] _] Hj]. by split. }
  eapply triple_bind; [by apply (triple_io J P)|]. skip.
  eapply (triple_frame P); [done|]. intros d2 w2 [[Hu ->] ->] Hs HF. pose proof (HU _ _ Hu) as HJ.
  assert (Hi : is_Some (dk_files d1 !! current)) by (eapply J_exists; [exact HJ|by left]).
  assert (Hlt : (current < dk_next d1)%nat) by (eapply J_next; [exact HJ|by left]).
  eapply triple_bind; [by apply (frame_recover J d1 w1 Hs HF)|]. intros [fresh snapshot]. cbn [fst snd].
  eapply triple_bind; [apply triple_lift; intros d w [Hf _]; by apply HF|]. intros [].
  eapply triple_bind; [apply triple_verifyJournalPath; intros d w [[Hf _] _]; by apply HF|]. skip.
  eapply triple_bind; [apply triple_adopt|]. skip.
  eapply (triple_weaken J (named b)); [by apply triple_io; intros d w [Hu' _]; apply HU| |done].
  intros d w (w0 & ((([Hcore ->] & _ & [mt Hr] & Hsz) & Hadv) & Hj) & ->).
  destruct (advances_store _ _ Hadv) as [Hst Hst2]. pose proof Hcore as (Hn & _ & _ & _ & _ & Hl). destruct (Hl current) as [Hl' _].
  destruct Hu as (_ & Hcl & _).
  split; [|done]. split; [|split; [done|intros _; cbn; congruence]].
  apply (J_adopt _ w1); cbn; rewrite ?Hl', ?Hn; try done; [by apply HF| |by eapply recovered_reads].
  eapply recover_nonempty; [exact Hr|done].
Qed.
Lemma canonical_core d d' w : canonical d w -> core d d' -> canonical d' w.
Proof.
  intros (H1 & H2 & H3 & H4 & H5 & H6 & H7) Hc. pose proof Hc as (_ & C2 & _ & _ & _ & C6). destruct (C6 (w_file w)) as (Hl & _ & Ht).
  unfold canonical. rewrite Hl, C2. split_and!; try done; [by eapply J_core|]. destruct Ht as [->|Ht]; [done|done].
Qed.
Lemma canonical_same d w w' : canonical d w -> same_reading w w' -> canonical d w'.
Proof.
  intros (H1 & H2 & H3 & H4 & H5 & H6 & H7) Hs. pose proof Hs as (E1 & E2 & E3 & E4). unfold canonical. rewrite E1, E2, E3, E4.
  split_and!; try done. by eapply J_same.
Qed.
Lemma lines_size_nonneg lines : 0 <= lines_size lines.
Proof. destruct lines as [|l lines]; [done|]. pose proof (lines_size_pos (l :: lines) ltac:(done)). lia. Qed.
(** The snapshot matches: nothing was written since. *)
Lemma matches_canonical d w : J d w -> w_closed w = false -> dk_journal d = Some (w_file w) ->
  snapshot_matches (w_journal w) (dk_file d (w_file w)) = true -> canonical d w.
Proof.
  intros HJ Hcl Hj Hm. pose proof HJ as (_ & Hw & _). destruct (Hw Hcl) as [_ Hk]. destruct (Hk Hj) as (k & Hk1 & Hk2 & Hk3 & Hk4).
  unfold snapshot_matches in Hm. apply andb_true_iff in Hm as [Hm _]. apply Z.eqb_eq in Hm. unfold jf_size in Hm. rewrite Hk4 in Hm.
  set (lines := jf_lines (dk_file d (w_file w))) in *. set (f := dk_file d (w_file w)) in *.
  assert (Hsz : lines_size lines = lines_size (take k lines) + lines_size (drop k lines)) by (by rewrite <-lines_size_app, take_drop).
  pose proof (lines_size_nonneg (drop k lines)) as Hd. assert (Ht : slen (jf_tail f) = 0) by (unfold slen in *; lia).
  assert (Hdrop : drop k lines = []) by (apply lines_size_zero; unfold slen in *; lia).
  assert (Htake : take k lines = lines) by (rewrite <-(take_drop k lines) at 2; by rewrite Hdrop, app_nil_r). rewrite Htake in *.
  unfold canonical. fold f lines. split_and!; try done. unfold slen in Ht. destruct (jf_tail f); [done|cbn in Ht; lia].
Qed.
Lemma triple_case {A} (I : assertion) (b : bool) (P : assertion) (m1 m2 : M A) Q :
  (b = true -> triple I P m1 Q) -> (b = false -> triple I P m2 Q) -> triple I P (if b then m1 else m2) Q.
Proof. intros H1 H2. destruct b; [by apply H1|by apply H2]. Qed.
Lemma triple_refuse {A} (I : assertion) (b : bool) e (P : assertion) (m : M A) Q : (forall d w, P d w -> I d w) ->
  (b = false -> triple I P m Q) -> triple I P (if b then fail e else m) Q.
Proof. intros HP H. apply triple_case; [intros _; by apply triple_fail|done]. Qed.
(** The result of a pure step. *)
Lemma triple_lifted {A B} (I P : assertion) (r : ares A) (k : A -> M B) Q : (forall d w, P d w -> I d w) ->
  (forall a, r = Ok a -> triple I P (k a) Q) -> triple I P (bind (lift r) k) Q.
Proof.
  intros HP H. destruct r as [a|e]; [|by apply triple_fail]. intros p Hp. exact (H a eq_refl p Hp).
Qed.

Lemma tri_verifyCanonical : tri canonical verifyPaths (fun _ => canonical).
Proof. eapply triple_weaken; [apply (triple_verifyPaths J canonical), canonical_J|done|by intros _ d w [H _]]. Qed.
Lemma tri_refresh : tri (fun d w => J d w /\ w_closed w = false) refreshLocked (fun _ => canonical).
Proof.
  set (P := fun d w => J d w /\ w_closed w = false). assert (HP : forall d w, P d w -> J d w) by by intros d w [H _].
  unfold refreshLocked. eapply triple_bind; [by apply (triple_verify J P)|]. skip.
  eapply (triple_bind J P _ (fun _ d w => P d w /\ as_storeID (w_state w) <> "")).
  { eapply triple_bind; [by apply (triple_readLock J P)|]. intros disk. eapply triple_bind; [apply triple_writer|]. intros w1. cbv zeta.
    apply triple_refuse; [by intros d w [Hp _]; apply HP|]. intros E1. apply triple_refuse; [by intros d w [Hp _]; apply HP|]. intros _.
    apply triple_ret. intros d w [Hp ->]. split; [done|]. apply orb_false_iff in E1 as [E1 E2].
    apply bool_decide_eq_false in E1. apply negb_false_iff, bool_decide_eq_true in E2. congruence. }
  intros metadata.
  eapply (triple_bind J _ _ (fun _ => named false)).
  { eapply triple_weaken; [apply (tri_ensureCanonical false)| |done]. by intros d w [[HJ Hcl] Hst]. }
  skip. assert (HN : forall d w, named false d w -> J d w) by by intros d w [[H _] _].
  eapply triple_bind; [apply triple_writer|]. intros w1.
  eapply triple_bind; [apply triple_inspect; intros d w [Hn _]; by apply HN|]. intros f.
  apply triple_case; intros Em.
  - apply (triple_pre J canonical).
    + apply triple_lifted; [apply canonical_J|]. intros _ _. apply tri_verifyCanonical.
    + intros d w [[[(HJ & Hcl & Hst) Hj] <-] ->].
      by apply matches_canonical.
  - apply triple_start. intros d1 w1' [[[(HJ & Hcl & Hst) Hj] ->] ->].
    assert (HF : forall d w, frame d1 w1 d w -> J d w) by (intros d w [Hc ->]; by eapply J_core).
    apply (triple_pre J (frame d1 w1)); [|intros d w [-> ->]; split; [apply core_refl; by eapply J_sane|done]].
    assert (Hi : is_Some (dk_files d1 !! w_file w1)) by (eapply J_exists; [exact HJ|by left]).
    assert (Hlt : (w_file w1 < dk_next d1)%nat) by (eapply J_next; [exact HJ|by left]).
    eapply triple_bind; [apply (frame_recover J d1 w1 (J_sane _ _ HJ) HF); done|]. intros [fresh snapshot]. cbn [fst snd].
    apply triple_refuse; [intros d w [Hf _]; by apply HF|]. intros _.
    apply triple_lifted; [intros d w [Hf _]; by apply HF|]. intros [] Hcont.
    eapply triple_bind; [apply triple_adopt|]. skip.
    apply (triple_pre J canonical).
    + apply triple_lifted; [apply canonical_J|]. intros _ _. apply tri_verifyCanonical.
    + intros d w (w0 & ([Hcore ->] & Ht & [mt Hr] & Hsz) & ->). pose proof Hcore as (Hn & Hjj & _ & _ & _ & Hl). destruct (Hl (w_file w1)) as [Hl' _].
      assert (Hne : jf_lines (dk_file d1 (w_file w1)) <> []) by (eapply recover_nonempty; [exact Hr|by apply Hst]).
      unfold canonical. cbn. rewrite Hl'. split_and!; try done; [|by rewrite Hjj|by eapply recovered_reads].
      apply (J_adopt _ w1); cbn; rewrite ?Hl', ?Hn; try done; [by apply HF|by eapply recovered_reads].
Qed.

(** ** Appending a line *)

(** A state from which nothing acknowledged is missing. *)
Definition complete (st : auditState) : Prop := gapless st /\ is_u64 (as_generation st) /\ Forall (fun e => kept e st) acked.
Lemma reads_gapless lines st : reads_as lines st -> gapless st /\ is_u64 (as_generation st).
Proof.
  intros (mt & id & st0 & Hr & Hst). pose proof (recovered_gapless _ _ _ _ Hr) as Hg. destruct (recover_stamp _ _ _ _ Hr) as [Hu _].
  destruct Hst as [->|(_ & id' & ->)]; [done|]. split; [by eapply gapless_same; [..|exact Hg]|done].
Qed.
Lemma reads_same lines st mt id st0 : reads_as lines st -> lines <> [] -> recoverLines mt id lines = Ok st0 -> as_legacy st0 = false -> st = st0.
Proof.
  intros (mt' & id' & st1 & Hr & Hst) Hne H0 Hl. pose proof (recover_deterministic _ _ _ _ _ _ _ H0 Hl Hne Hr) as ->.
  destruct Hst as [->|(Hl' & _)]; [done|congruence].
Qed.
(** The journal covers what was acknowledged; so does the state of the writer. *)
Lemma covers_all f e : (jf_durable f <= length (jf_lines f))%nat -> file_covers f e -> covered e (jf_lines f).
Proof. intros Hs H. specialize (H (length (jf_lines f)) ltac:(lia)). by rewrite firstn_all in H. Qed.
Lemma acked_journal d w e : J d w -> e ∈ acked -> exists c, dk_journal d = Some c /\ covered e (jf_lines (dk_file d c)).
Proof.
  intros ((Hf & _ & Ha) & _) He. rewrite Forall_forall in Ha. destruct (Ha e He) as (_ & (c & Hj & Hc) & _). exists c. split; [done|].
  apply covers_all; [by apply file_sane_at|done].
Qed.
Lemma canonical_complete d w : canonical d w -> complete (w_state w).
Proof.
  intros (HJ & _ & Hj & _ & Hne & Hr & _). destruct (reads_gapless _ _ Hr) as [Hg Hu]. split_and!; [done|done|].
  apply Forall_forall. intros e He. destruct (acked_journal _ _ _ HJ He) as (c & Hj' & mt & id & st & Hst & Hl & Hk).
  rewrite Hj in Hj'. simplify_eq. by rewrite (reads_same _ _ _ _ _ Hr Hne Hst Hl).
Qed.

(** The writer's file ends with the state; nothing of it can get lost once it is
    settled. *)
Definition holding (st : auditState) : assertion := fun d w =>
  let f := dk_file d (w_file w) in
  J d w /\ w_closed w = false /\ dk_journal d = Some (w_file w) /\ jf_tail f = "" /\ jf_lines f <> [] /\
  (exists mt id, recoverLines mt id (jf_lines f) = Ok st) /\ as_legacy st = false.
Definition settled (st : auditState) : assertion := fun d w =>
  holding st d w /\ jf_durable (dk_file d (w_file w)) = length (jf_lines (dk_file d (w_file w))) /\ dk_durable d = dk_journal d.
Lemma holding_J st d w : holding st d w -> J d w.
Proof. by intros [H _]. Qed.
Lemma settled_J st d w : settled st d w -> J d w.
Proof. by intros [[H _] _]. Qed.
Lemma holding_core st d d' w : holding st d w -> core d d' -> holding st d' w.
Proof.
  intros (H1 & H2 & H3 & H4 & H5 & H6 & H7) Hc. pose proof Hc as (_ & C2 & _ & _ & _ & C6). destruct (C6 (w_file w)) as (Hl & _ & Ht).
  unfold holding. rewrite Hl, C2. split_and!; try done; [by eapply J_core|]. destruct Ht as [->|Ht]; [done|done].
Qed.
Lemma settled_core st d d' w : settled st d w -> core d d' -> settled st d' w.
Proof.
  intros (H1 & H2 & H3) Hc. split; [by eapply holding_core|]. pose proof Hc as (_ & C2 & _ & C4 & _ & C6). destruct (C6 (w_file w)) as (Hl & Hd & _).
  rewrite Hl. split; [lia|]. destruct C4 as [E|E]; [congruence|done].
Qed.
(** An event of a settled state is safe. *)
Lemma settled_safe st d w e : settled st d w -> 1 <= au_Sequence e -> kept e st -> safe d e.
Proof.
  intros ((_ & _ & Hj & _ & _ & (mt & id & Hr) & Hl) & Hd & Hdj) H1 Hk.
  assert (Hc : file_covers (dk_file d (w_file w)) e).
  { intros k Hk'. assert (k = length (jf_lines (dk_file d (w_file w)))) as -> by lia. rewrite firstn_all. by exists mt, id, st. }
  split; [done|]. split; [by exists (w_file w)|exists (w_file w); by rewrite Hdj].
Qed.

(** A line that reached the file, wholly or in part. *)
Definition extends_by (f f' : jfile) (line : string) : Prop :=
  jf_durable f' = jf_durable f /\ (jf_lines f' = jf_lines f \/ jf_lines f' = jf_lines f ++ [line]).
Lemma append_extends f line n mt : jf_tail f = "" -> extends_by f (jf_append f line n mt) line.
Proof. intros Ht. unfold extends_by, jf_append. destruct (_ <? n)%nat; cbn; rewrite ?Ht; tauto. Qed.
Lemma append_whole f line mt : jf_tail f = "" ->
  jf_lines (jf_append f line (S (String.length line)) mt) = jf_lines f ++ [line] /\ jf_tail (jf_append f line (S (String.length line)) mt) = "".
Proof. intros Ht. unfold jf_append. replace (_ <? _)%nat with true by (symmetry; apply Nat.ltb_lt; lia). cbn. by rewrite Ht. Qed.
Lemma put_sane d ino f : file_sane d -> (ino < dk_next d)%nat -> (jf_durable f <= length (jf_lines f))%nat -> file_sane (dk_put d ino f).
Proof.
  intros Hs Hi Hf i g. cbn. destruct (decide (i = ino)) as [->|Hne]; [rewrite lookup_insert_eq; intros; by simplify_eq|].
  rewrite lookup_insert_ne by done. apply Hs.
Qed.
Lemma put_names d ino f : names_sane d -> names_sane (dk_put d ino f).
Proof.
  intros [H1 H2]. split; [|exact H2]. intros i Hi. cbn. destruct (decide (i = ino)) as [->|Hne]; [rewrite lookup_insert_eq; by eexists|].
  rewrite lookup_insert_ne by done. by apply H1.
Qed.
Lemma put_grows d ino f : jf_lines (dk_file d ino) `prefix_of` jf_lines f -> grows d (dk_put d ino f).
Proof.
  intros H. split; [done|]. left. split; [done|]. intros c _. destruct (decide (c = ino)) as [->|Hne]; [by rewrite dk_put_file|by rewrite dk_put_other].
Qed.
Lemma put_safe d ino f e : safe d e -> (dk_file d ino = f \/ (file_covers (dk_file d ino) e -> file_covers f e)) -> safe (dk_put d ino f) e.
Proof.
  intros (H1 & (c & Hj & Hc) & (c2 & Hj2 & Hc2)) Hf. split; [done|].
  assert (Hall : forall i, file_covers (dk_file d i) e -> file_covers (dk_file (dk_put d ino f) i) e).
  { intros i Hi. destruct (decide (i = ino)) as [->|Hne]; [rewrite dk_put_file; destruct Hf as [<-|Hf]; by auto|by rewrite dk_put_other]. }
  split; [exists c|exists c2]; by auto.
Qed.
Section AppendLine.
Variables (line : string) (r : auditRecord) (st prospective : auditState).
Hypothesis line_decodes : decodeAuditRecord line = Ok r.
Hypothesis line_kind : ar_Kind r = auditEvent.
Hypothesis line_size : slen line + 1 <= maximumRecordBytes.
Hypothesis line_applies : applyEventRecord st r = Ok prospective.
Hypothesis st_record : as_legacy st = false.

Lemma extended_recovers mt id lines : recoverLines mt id lines = Ok st -> lines <> [] -> recoverLines mt id (lines ++ [line]) = Ok prospective.
Proof. intros H Hne. by eapply recover_extend. Qed.
Lemma extended_covers f f' e : jf_lines f <> [] -> reads_as (jf_lines f) st -> (jf_durable f <= length (jf_lines f))%nat ->
  extends_by f f' line -> file_covers f e -> file_covers f' e.
Proof.
  intros Hne Hr Hd [Hd' Hl] Hc k Hk. rewrite Hd' in Hk. destruct Hl as [Hl|Hl]; rewrite Hl in *; [by apply Hc|].
  rewrite length_app in *. cbn [length] in Hk. destruct (decide (k <= length (jf_lines f))%nat) as [Hle|Hgt].
  - rewrite take_app_le by done. apply Hc. lia.
  - rewrite take_ge by (rewrite length_app; cbn [length]; lia).
    destruct (covers_all f e Hd Hc) as (mt & id & st0 & Hst & Hleg & Hk0). pose proof (reads_same _ _ _ _ _ Hr Hne Hst Hleg) as <-.
    exists mt, id, prospective. split_and!; [by apply extended_recovers|by rewrite (flags_legacy _ _ (flags_event _ _ _ line_applies))|].
    eapply kept_event; [by eapply recovered_gapless|exact line_applies|done].
Qed.
Lemma write_J d w f' : canonical d w -> w_state w = st -> extends_by (dk_file d (w_file w)) f' line -> J (dk_put d (w_file w) f') w.
Proof.
  intros (HJ & Hcl & Hj & Ht & Hne & Hr & Hsz) Hst Hx. rewrite Hst in Hr. pose proof HJ as ((Hf & Hn & Ha) & _). pose proof (file_sane_at d (w_file w) Hf) as Hd.
  pose proof Hx as [Hd' Hl]. apply (J_change d); [done| | | | |done].
  - apply put_sane; [done|by eapply J_next; [exact HJ|left]|]. rewrite Hd'. destruct Hl as [->| ->]; rewrite ?length_app; lia.
  - by apply put_names.
  - eapply Forall_impl; [exact Ha|]. intros e He. apply put_safe; [done|]. right. by apply extended_covers.
  - apply put_grows. destruct Hl as [->| ->]; [done|by apply prefix_app_r].
Qed.
Lemma tri_writeLine ino : tri (fun d w => canonical d w /\ w_state w = st /\ ino = w_file w) (writeLine ino line)
  (fun _ d w => holding prospective d w /\ w_file w = ino).
Proof.
  intros p (Hc & Hst & ->). unfold writeLine, bind. pose proof (next_answer_same p) as Hn. destruct (next_answer p) as [p' x].
  destruct Hn as (H1 & H2 & a & ->). unfold change_disk. set (f' := jf_append _ line _ _).
  assert (HJ' : forall n, J (dk_put (pr_disk p') (w_file (pr_writer p)) (jf_append (dk_file (pr_disk p') (w_file (pr_writer p))) line n (an_time a))) (pr_writer p')).
  { intros n. rewrite H1, H2. apply write_J; [done|done|]. apply append_extends. by destruct Hc as (_ & _ & _ & Ht & _). }
  unfold conclude. destruct (an_reply a) as [|n|n] eqn:Er; cbn [pr_disk pr_writer]; [|apply HJ'..].
  destruct Hc as (HJ & Hcl & Hj & Ht & Hne & Hr & Hsz). rewrite H2. split; [|done].
  assert (Hw := append_whole (dk_file (pr_disk p) (w_file (pr_writer p))) line (an_time a) Ht). destruct Hw as [Hw1 Hw2].
  unfold holding. rewrite H1, dk_put_file. unfold f', extent. rewrite Er, H1, Hw1, Hw2.
  pose proof (HJ' (S (String.length line))) as HJ1. rewrite H1, H2 in HJ1.
  split_and!; try done; [by destruct (jf_lines _)| |by rewrite (flags_legacy _ _ (flags_event _ _ _ line_applies))].
  destruct Hr as (mt & id & st0 & Hr & Hst0). exists mt, id. apply extended_recovers; [|done].
  destruct Hst0 as [Hst0|(Hl0 & id' & Hst0)]; [congruence|]. pose proof st_record as Hleg. rewrite <-Hst, Hst0 in Hleg. cbn in Hleg. congruence.
Qed.
End AppendLine.

(** Synchronising the file and the directory. *)
Definition flushed (st : auditState) (ino : nat) : assertion := fun d w =>
  holding st d w /\ w_file w = ino /\ jf_durable (dk_file d ino) = length (jf_lines (dk_file d ino)).
Definition settled_in (st : auditState) (ino : nat) : assertion := fun d w => settled st d w /\ w_file w = ino.
Lemma settled_in_J st ino d w : settled_in st ino d w -> J d w.
Proof. intros [H _]. by eapply settled_J. Qed.
Lemma tri_flush_file st ino : tri (fun d w => holding st d w /\ w_file w = ino) (file_sync ino) (fun _ => flushed st ino).
Proof.
  apply triple_frame; [by intros d w [H _]; eapply holding_J|]. intros d1 w1 [Hp <-] Hs HF.
  assert (Hi : is_Some (dk_files d1 !! w_file w1)) by (destruct Hp as (HJ & _ & Hj & _); eapply J_exists; [exact HJ|by left]).
  eapply triple_weaken; [by apply (frame_file_sync J d1 w1)|done|]. intros _ d w [[Hc ->] Hd].
  split; [by eapply holding_core|]. split; [done|]. rewrite Hd. destruct Hc as (_ & _ & _ & _ & _ & Hl). by destruct (Hl (w_file w1)) as [-> _].
Qed.
Lemma tri_flush_directory st ino : tri (flushed st ino) directory_sync (fun _ => settled_in st ino).
Proof.
  apply triple_flush; [intros d w [H _]; by eapply holding_J|]. intros d w (Hh & <- & Hd).
  pose proof (core_sync d (J_sane _ _ (holding_J _ _ _ Hh))) as Hc. split; [|done]. split; [by eapply holding_core|]. by split.
Qed.
Definition measured (st : auditState) (s : auditSnapshot) : assertion := fun d w =>
  settled st d w /\ sn_completeBytes s = lines_size (jf_lines (dk_file d (w_file w))).
Lemma measured_J st s d w : measured st s d w -> J d w.
Proof. intros [H _]. by eapply settled_J. Qed.
Lemma tri_snapshot st ino : tri (settled_in st ino) (snapshotAuditLog ino) (fun s => measured st s).
Proof.
  eapply triple_bind; [apply triple_inspect; intros d w [H _]; by eapply settled_J|]. intros f. apply triple_ret.
  intros d w [[Hs <-] ->]. split; [done|]. destruct Hs as [(_ & _ & _ & Ht & _) _]. unfold jf_size. cbn. rewrite Ht. change (slen "") with 0. lia.
Qed.
Lemma tri_persist_measured st s m : tri (measured st s) (persistLockMetadataLocked m) (fun _ => measured st s).
Proof.
  apply triple_frame; [apply measured_J|]. intros d1 w1 [Hp Hs] Hf HF. eapply triple_weaken; [by apply (frame_persist J d1 w1)|done|].
  intros _ d w [Hc ->]. split; [by eapply settled_core|]. destruct Hc as (_ & _ & _ & _ & _ & Hl). by destruct (Hl (w_file w1)) as [-> _].
Qed.
(** The state of a settled journal becomes the state of the writer. *)
Lemma settled_adopt st d w w' : settled st d w -> w_file w' = w_file w -> w_state w' = st -> w_closed w' = false ->
  sn_completeBytes (w_journal w') = lines_size (jf_lines (dk_file d (w_file w))) -> settled st d w'.
Proof.
  intros ((HJ & Hcl & Hj & Ht & Hne & (mt & id & Hr) & Hl) & Hd & Hdj) Ef Es Ec Esz. unfold settled, holding. rewrite Ef.
  split_and!; try done; [|by exists mt, id]. apply (J_adopt d w); rewrite ?Ef, ?Es; try done; [by eapply J_next; [exact HJ|left]|].
  by eapply recovered_reads.
Qed.

Lemma tri_appendLine line r st prospective evaluated : decodeAuditRecord line = Ok r -> ar_Kind r = auditEvent ->
  slen line + 1 <= maximumRecordBytes -> applyEventRecord st r = Ok prospective -> as_legacy st = false ->
  tri (fun d w => canonical d w /\ w_state w = st) (appendLine line prospective evaluated) (fun _ => settled prospective).
Proof.
  intros H1 H2 H3 H4 H5. unfold appendLine. eapply triple_bind; [apply triple_writer|]. intros w1.
  set (P := fun d w => canonical d w /\ w_state w = st /\ w_file w1 = w_file w).
  apply (triple_pre J P); [|by intros d w [[Hc Hs] ->]].
  eapply (triple_bind J P _ (fun s => measured prospective s)).
  { apply tri_failClosed. eapply triple_bind; [by apply (tri_writeLine line r st prospective)|]. skip.
    eapply triple_bind; [apply tri_flush_file|]. skip. eapply triple_bind; [apply tri_flush_directory|]. skip.
    eapply (triple_bind J _ _ (fun _ => settled_in prospective (w_file w1))).
    { eapply triple_weaken; [apply (triple_verifyPaths J (settled_in prospective (w_file w1))), settled_in_J|done|by intros _ d w [H _]]. }
    skip. eapply triple_bind; [apply tri_snapshot|]. intros s. eapply triple_bind; [apply tri_persist_measured|]. skip. by apply triple_ret. }
  intros s. eapply triple_bind; [apply tri_releaseLock, measured_J|]. skip. eapply triple_bind; [apply triple_writer|]. intros w2.
  eapply triple_post; [apply triple_set_writer|]. intros _ d w (-> & w0 & [[Hs Hsz] ->]).
  eapply settled_adopt; try done.
  by destruct Hs as [(_ & Hcl & _) _].
Qed.

(** ** Compaction *)

(** A change that leaves the files with a name, other than the temporary one, as
    they are. *)
Definition aside (d d' : disk) : Prop :=
  dk_journal d' = dk_journal d /\ dk_durable d' = dk_durable d /\ (dk_next d <= dk_next d')%nat /\
  forall c, dk_journal d = Some c \/ dk_durable d = Some c -> dk_file d' c = dk_file d c.
Lemma J_aside d d' w : J d w -> aside d d' -> file_sane d' -> names_sane d' -> J d' w.
Proof.
  intros HJ (A1 & A2 & A3 & A4) Hs Hn. pose proof HJ as ((_ & _ & Ha) & _). apply (J_change d); [done..| | |done].
  - eapply Forall_impl; [exact Ha|]. intros e (H1 & (c & Hj & Hc) & (c2 & Hj2 & Hc2)). split; [done|].
    split; [exists c; rewrite A1, A4 by (by left)|exists c2; rewrite A2, A4 by (by right)]; done.
  - split; [done|]. left. split; [done|]. intros c Hc. rewrite A4 by (by left). done.
Qed.
Lemma canonical_aside d d' w : canonical d w -> aside d d' -> file_sane d' -> names_sane d' -> canonical d' w.
Proof.
  intros (H1 & H2 & H3 & H4 & H5 & H6 & H7) Ha Hs Hn. pose proof Ha as (A1 & _ & _ & A4). unfold canonical. rewrite A1, (A4 (w_file w)) by (by left).
  split_and!; try done. by eapply J_aside.
Qed.
Lemma aside_temp d t : aside d (dk_with_temp d t).
Proof. by split_and!. Qed.
Lemma names_no_temp d : names_sane d -> names_sane (dk_with_temp d None).
Proof. intros [H1 H2]. split; [|done]. intros i Hi. apply H1. unfold name_of in *. cbn in Hi. destruct Hi as [Hi|[Hi|Hi]]; [tauto|tauto|done]. Qed.
Lemma create_file d mt i : dk_file (dk_create d mt) i = if decide (i = dk_next d) then mkFile [] "" 0 mt else dk_file d i.
Proof.
  unfold dk_file. cbn. destruct (decide (i = dk_next d)) as [->|Hne]; [by rewrite lookup_insert_eq|by rewrite lookup_insert_ne].
Qed.
Lemma create_sane d mt : file_sane d -> file_sane (dk_create d mt).
Proof.
  intros Hs i f. cbn. destruct (decide (i = dk_next d)) as [->|Hne]; [rewrite lookup_insert_eq; intros; simplify_eq; cbn; lia|].
  rewrite lookup_insert_ne by done. intros Hi. destruct (Hs i f Hi). lia.
Qed.
Lemma name_next d c : file_sane d -> names_sane d -> name_of d c -> (c < dk_next d)%nat.
Proof. intros Hf [Hn _] H. destruct (Hn c H) as [f Hi]. by destruct (Hf c f Hi). Qed.
Lemma create_temp_names d mt : file_sane d -> names_sane d -> names_sane (dk_with_temp (dk_create d mt) (Some (dk_next d))).
Proof.
  intros Hf Hn. pose proof Hn as [H1 H2]. split.
  - intros i Hi. cbn. destruct (decide (i = dk_next d)) as [->|Hne]; [rewrite lookup_insert_eq; by eexists|].
    rewrite lookup_insert_ne by done. apply H1. unfold name_of in *. cbn in Hi. destruct Hi as [Hi|[Hi|Hi]]; [tauto|tauto|congruence].
  - cbn. intros t [= <-]. split; intros E; [pose proof (name_next d (dk_next d) Hf Hn (or_introl E))|
      pose proof (name_next d (dk_next d) Hf Hn (or_intror (or_introl E)))]; lia.
Qed.

(** A temporary file of this process, next to the canonical journal. *)
Definition preparing (ino : nat) : assertion := fun d w => canonical d w /\ dk_temp d = Some ino /\ (dk_next d0 <= ino)%nat.
Lemma preparing_J ino d w : preparing ino d w -> J d w.
Proof. intros [H _]. by apply canonical_J. Qed.
Lemma preparing_core ino d d' w : preparing ino d w -> core d d' -> preparing ino d' w.
Proof. intros (H1 & H2 & H3) Hc. pose proof Hc as (_ & _ & C3 & _). split; [by eapply canonical_core|]. by rewrite C3. Qed.
Lemma preparing_put ino d w f : preparing ino d w -> (jf_durable f <= length (jf_lines f))%nat -> preparing ino (dk_put d ino f) w.
Proof.
  intros (Hc & Ht & Hn) Hf. pose proof (canonical_J _ _ Hc) as HJ. pose proof HJ as ((Hs & Hnm & _) & _). pose proof Hnm as [_ Hd].
  destruct (Hd ino Ht) as [Hd1 Hd2]. split; [|done]. apply (canonical_aside d); [done| | |by apply put_names].
  - split_and!; try done. intros c Hcn. apply dk_put_other. intros ->. by destruct Hcn.
  - apply put_sane; [done| |done]. eapply J_next; [exact HJ|by right; right].
Qed.

Lemma tri_cleanupStale (P : assertion) : (forall d w, P d w -> J d w) -> (forall d w, P d w -> P (dk_with_temp d None) w) ->
  (forall d w, P d w -> P (dk_sync d) w) -> tri P cleanupStaleCompactionFile (fun _ => P).
Proof.
  intros HP Ht Hs. unfold cleanupStaleCompactionFile. eapply triple_bind; [by apply triple_io|]. skip.
  eapply triple_bind; [apply triple_disk|]. intros d1. destruct (dk_temp d1); [|by apply triple_ret; intros d w [Hp _]].
  apply (triple_pre J P); [|by intros d w [Hp _]]. eapply triple_bind; [apply (triple_effect J P P); auto|]. skip. by apply triple_flush.
Qed.
Lemma canonical_no_temp d w : canonical d w -> canonical (dk_with_temp d None) w.
Proof.
  intros Hc. pose proof (canonical_J _ _ Hc) as ((Hs & Hn & _) & _). apply (canonical_aside d); [done|apply aside_temp|done|by apply names_no_temp].
Qed.
Lemma tri_createTemp : tri canonical createTemp (fun ino => preparing ino).
Proof.
  eapply triple_bind; [apply triple_disk|]. intros d1. eapply (triple_bind J _ _ (fun _ => preparing (dk_next d1))); [|skip; by apply triple_ret].
  apply triple_effect; [intros d w [H _]; by apply canonical_J|apply preparing_J|]. intros a d w [Hc ->].
  pose proof (canonical_J _ _ Hc) as HJ. pose proof HJ as ((Hs & Hn & _) & _ & Hg & _). split; [|done].
  apply (canonical_aside d1); [done| |by apply create_sane|by apply create_temp_names]. split_and!; [done|done|cbn; lia|].
  intros c Hcn. change (dk_file (dk_create d1 (an_time a)) c = dk_file d1 c). rewrite create_file. rewrite decide_False; [done|].
  assert (name_of d1 c) as Hnm by (unfold name_of; tauto). pose proof (name_next _ _ Hs Hn Hnm). lia.
Qed.
Lemma tri_removeIfSame (P : assertion) temp : (forall d w, P d w -> J d w) -> (forall d w, P d w -> P (dk_with_temp d None) w) ->
  tri P (removeCompactionFileIfSame temp) (fun _ => P).
Proof.
  intros HP Ht. unfold removeCompactionFileIfSame. eapply triple_bind; [by apply triple_io|]. skip. eapply triple_bind; [by apply triple_io|]. skip.
  eapply triple_bind; [apply triple_disk|]. intros d1. destruct (dk_temp d1); [|by apply triple_ret; intros d w [Hp _]].
  apply triple_refuse; [intros d w [Hp _]; by apply HP|]. intros _. apply (triple_pre J P); [|by intros d w [Hp _]]. apply (triple_effect J P P); auto.
Qed.
Lemma J_no_temp d w : J d w -> J (dk_with_temp d None) w.
Proof. intros HJ. pose proof HJ as ((Hs & Hn & _) & _). apply (J_aside d); [done|apply aside_temp|done|by apply names_no_temp]. Qed.
Lemma J_sync d w : J d w -> J (dk_sync d) w.
Proof. intros HJ. eapply J_core; [exact HJ|]. apply core_sync. by eapply J_sane. Qed.
Lemma tri_cleanupTemp temp cause a b c : tri J (cleanupTemp temp cause a b c) (fun r d w => J d w /\ r <> Committed).
Proof.
  unfold cleanupTemp. eapply (triple_bind J J _ (fun _ => J)).
  { destruct c; [by apply triple_ret|]. apply triple_attempt_same; [done|]. eapply triple_bind; [apply tri_removeIfSame; [done|apply J_no_temp]|].
    skip. apply triple_flush; [done|apply J_sync]. }
  intros removed. eapply triple_bind; [by apply (triple_attempt_io J J)|]. intros closed. apply triple_ret. intros d w HJ. split; [done|]. by destruct (_ && _).
Qed.

(** The checkpoint as it was read back. *)
Definition checkpoint_file (st : auditState) (s : auditSnapshot) (f : jfile) : Prop :=
  jf_durable f = length (jf_lines f) /\ jf_tail f = "" /\ jf_lines f <> [] /\ (exists mt id, recoverLines mt id (jf_lines f) = Ok st) /\
  sn_completeBytes s = lines_size (jf_lines f).
Definition prepared (ino : nat) (st : auditState) (s : auditSnapshot) : assertion := fun d w =>
  preparing ino d w /\ checkpoint_file st s (dk_file d ino).
Lemma prepared_J ino st s d w : prepared ino st s d w -> J d w.
Proof. intros [H _]. by eapply preparing_J. Qed.
Lemma checkpoint_file_core st s d d' ino : checkpoint_file st s (dk_file d ino) -> core d d' -> checkpoint_file st s (dk_file d' ino).
Proof.
  intros (H1 & H2 & H3 & H4 & H5) (_ & _ & _ & _ & _ & C6). destruct (C6 ino) as (Hl & Hd & Ht). unfold checkpoint_file. rewrite Hl.
  split_and!; try done; [lia|]. by destruct Ht as [->|Ht].
Qed.
Lemma prepared_core ino st s d d' w : prepared ino st s d w -> core d d' -> prepared ino st s d' w.
Proof. intros [H1 H2] Hc. split; [by eapply preparing_core|by eapply checkpoint_file_core]. Qed.

Lemma tri_writeTemp ino line : tri (preparing ino) (writeLine ino line) (fun _ => preparing ino).
Proof.
  eapply triple_bind; [apply triple_answer|]. intros a. eapply (triple_bind J _ _ (fun _ => preparing ino)).
  - apply triple_change. intros d w Hp. apply preparing_put; [done|].
    pose proof (file_sane_at d ino (J_sane _ _ (preparing_J _ _ _ Hp))) as Hd. unfold jf_append. destruct (_ <? _)%nat; cbn; rewrite ?length_app; lia.
  - skip. eapply triple_post; [apply (triple_conclude J (preparing ino)), preparing_J|]. by intros _ d w [H _].
Qed.
Lemma tri_writeRecord ino hashed r : tri (preparing ino) (writeRecord ino hashed r) (fun _ => preparing ino).
Proof.
  unfold writeRecord. apply triple_lifted; [apply preparing_J|]. intros line _. eapply triple_bind; [apply tri_writeTemp|]. skip. by apply triple_ret.
Qed.
Lemma tri_writeEvents ino events : forall hashed, tri (preparing ino) (writeEvents ino hashed events) (fun _ => preparing ino).
Proof.
  induction events as [|e events IH]; intros hashed; cbn [writeEvents]; [by apply triple_ret|].
  eapply (triple_bind J _ _ (fun _ => preparing ino)).
  { eapply triple_bind; [apply triple_ctx_err|]. intros b. apply triple_case; intros _; [apply triple_fail, preparing_J|by apply triple_ret]. }
  skip. eapply triple_bind; [apply tri_writeRecord|]. intros h. apply IH.
Qed.
Lemma tri_writeCheckpoint ino source t : as_storeID source <> "" ->
  tri (preparing ino) (writeAuditCheckpoint ino source t) (fun r => prepared ino r.1 r.2).
Proof.
  intros Hid. unfold writeAuditCheckpoint. eapply triple_bind; [apply tri_writeRecord|]. intros h0.
  eapply triple_bind; [apply tri_writeEvents|]. intros h. eapply triple_bind; [apply tri_writeRecord|]. skip.
  set (P := fun d w => preparing ino d w /\ jf_durable (dk_file d ino) = length (jf_lines (dk_file d ino))).
  assert (HP : forall d w, P d w -> J d w) by (intros d w [H _]; by eapply preparing_J).
  eapply (triple_bind J _ _ (fun _ => P)).
  { apply triple_flush; [apply preparing_J|]. intros d w Hp. cbv zeta. split; [by apply preparing_put|]. by rewrite dk_put_file. }
  skip. apply triple_frame; [done|]. intros d1 w1 [Hp Hd] Hs HF.
  assert (Hi : is_Some (dk_files d1 !! ino)) by (destruct Hp as (Hc & Ht & _); eapply J_exists; [by apply canonical_J|right; by right]).
  eapply triple_post; [by apply (frame_recover J d1 w1)|]. intros [st s] d w ([Hcore ->] & Ht & [mt Hr] & Hsz). cbn [fst snd] in *.
  split; [by eapply preparing_core|]. destruct Hcore as (_ & _ & _ & _ & _ & Hl). destruct (Hl ino) as (Hl' & Hdl & _).
  unfold checkpoint_file. rewrite Hl'. split_and!; try done; [lia|by eapply recover_nonempty|by exists mt, (as_storeID source)].
Qed.

Lemma tri_checkpointReady ino source st s :
  tri (prepared ino st s) (checkpointReady ino source st) (fun _ d w => prepared ino st s d w /\ auditStatesSemanticallyEqual source st = true).
Proof.
  unfold checkpointReady. eapply (triple_bind J _ _ (fun _ => prepared ino st s)).
  { eapply triple_bind; [apply triple_io, prepared_J|]. skip. eapply triple_bind; [apply triple_disk|]. intros d1.
    apply triple_refuse; [intros d w [H _]; by eapply prepared_J|]. intros _. apply triple_ret. by intros d w [H _]. }
  skip. apply triple_refuse; [apply prepared_J|]. intros E. apply negb_false_iff in E. apply triple_flush; [apply prepared_J|].
  intros d w Hp. split; [|done]. eapply prepared_core; [exact Hp|]. apply core_sync. eapply J_sane. by eapply prepared_J.
Qed.

(** The checkpoint has the name of the journal; the writer still has the old
    file. *)
Definition renamed (ino : nat) (st : auditState) (s : auditSnapshot) : assertion := fun d w =>
  J d w /\ w_closed w = false /\ w_file w <> ino /\ dk_journal d = Some ino /\ dk_temp d = None /\ checkpoint_file st s (dk_file d ino).
Lemma renamed_J ino st s d w : renamed ino st s d w -> J d w.
Proof. by intros [H _]. Qed.
Lemma checkpoint_covers st s f e : checkpoint_file st s f -> as_legacy st = false -> kept e st -> file_covers f e.
Proof.
  intros (Hd & _ & _ & (mt & id & Hr) & _) Hl Hk k Hk'. assert (k = length (jf_lines f)) as -> by lia. rewrite firstn_all. by exists mt, id, st.
Qed.
Lemma prepared_renamed ino st s d w : as_legacy st = false -> Forall (fun e => kept e st) acked -> prepared ino st s d w ->
  renamed ino st s (dk_with_temp (dk_with_journal d (Some ino)) None) w.
Proof.
  intros Hl Hk ((Hc & Ht & Hn) & Hf). pose proof (canonical_J _ _ Hc) as HJ. pose proof HJ as ((Hs & Hnm & Ha) & _). pose proof Hnm as [Hn1 Hn2].
  destruct (Hn2 ino Ht) as [Hj Hd]. pose proof Hc as (_ & Hcl & Hjn & _). unfold renamed.
  split; [|split_and!; try done; by intros E; rewrite Hjn, E in Hj]. split_and!.
  - split_and!; [done| |].
    + split; [|done]. intros i Hi. apply Hn1. unfold name_of in *. cbn in Hi. destruct Hi as [Hi|[Hi|Hi]]; [|tauto|done].
      simplify_eq. tauto.
    + rewrite Forall_forall in *. intros e He. destruct (Ha e He) as (H1 & _ & (c2 & Hj2 & Hc2)). split; [done|]. split; [|by exists c2].
      exists ino. split; [done|]. eapply (checkpoint_covers st s); [done|done|by apply Hk].
  - intros _. split; [eapply (J_next _ _ _ HJ); by left|]. cbn. intros [= ->]. by rewrite Hjn in Hj.
  - split; [by destruct HJ as (_ & _ & Hg & _)|]. right. by exists ino.
Qed.
Lemma tri_rename ino st s : as_legacy st = false -> Forall (fun e => kept e st) acked ->
  tri (prepared ino st s) (renameTemp ino) (fun _ => renamed ino st s).
Proof.
  intros Hl Hk. set (E := fun d w => prepared ino st s d w \/ renamed ino st s d w).
  assert (HE : forall d w, E d w -> J d w) by (intros d w [H|H]; [by eapply prepared_J|by eapply renamed_J]).
  unfold renameTemp. eapply (triple_bind J _ _ (fun r d w => match r with Ok _ => renamed ino st s d w | Err _ => E d w end)).
  { intros p Hp. pose proof (triple_effect E (prepared ino st s) (renamed ino st s) (fun _ d => dk_with_temp (dk_with_journal d (Some ino)) None)
      (fun d w H => or_introl H) (fun d w H => or_intror H) (fun _ d w => prepared_renamed ino st s d w Hl Hk) p Hp) as H.
    unfold attempt. destruct (effect _ p) as [p' [a|e|]]; [exact H|exact H|by apply HE]. }
  intros [[]|e]; [by apply triple_ret|]. eapply triple_bind; [by apply (triple_io J E)|]. skip. eapply triple_bind; [apply triple_disk|]. intros d1.
  apply triple_refuse; [intros d w [H _]; by apply HE|]. intros Hj. apply triple_ret. intros d w [[H|H] <-]; [|done].
  destruct H as [(Hc & Ht & _) _]. pose proof (canonical_J _ _ Hc) as ((_ & [_ Hn2] & _) & _). destruct (Hn2 ino Ht) as [Hne _].
  apply negb_false_iff, bool_decide_eq_true in Hj. congruence.
Qed.

(** The end of a compaction. *)
Definition compacted_to (source : auditState) : assertion := fun d w =>
  settled (w_state w) d w /\ gapless (w_state w) /\ auditStatesSemanticallyEqual source (w_state w) = true /\
  sn_completeBytes (w_journal w) = lines_size (jf_lines (dk_file d (w_file w))).
Definition compaction_result (source : auditState) (r : compaction) : assertion := fun d w =>
  match r with Committed => compacted_to source d w | _ => J d w end.
Lemma compacted_J source d w : compacted_to source d w -> J d w.
Proof. intros [H _]. by eapply settled_J. Qed.
Lemma result_J source r d w : J d w /\ r <> Committed -> compaction_result source r d w.
Proof. intros [H Hr]. by destruct r. Qed.
Lemma tri_notCommitted source (P : assertion) (m : M compaction) :
  tri P m (fun r d w => J d w /\ r <> Committed) -> tri P m (compaction_result source).
Proof. intros H. eapply triple_post; [exact H|]. intros r d w. apply result_J. Qed.
Lemma tri_giveUp source (P : assertion) temp cause a b c : (forall d w, P d w -> J d w) ->
  tri P (cleanupTemp temp cause a b c) (compaction_result source).
Proof. intros H. apply tri_notCommitted. eapply triple_pre; [apply tri_cleanupTemp|done]. Qed.

(** An old file: nothing refers to it any more. *)
Lemma compacted_put source d w ino f : compacted_to source d w -> ino <> w_file w -> (ino < dk_next d)%nat ->
  (jf_durable f <= length (jf_lines f))%nat -> compacted_to source (dk_put d ino f) w.
Proof.
  intros (((HJ & Hcl & Hj & Ht & Hne & Hr & Hl) & Hd & Hdj) & Hg & Heq & Hsz) Hino Hlt Hf. pose proof HJ as ((Hs & Hnm & _) & _).
  assert (HJ' : J (dk_put d ino f) w).
  { apply (J_aside d); [done| |by apply put_sane|by apply put_names]. split_and!; try done. intros c Hc. apply dk_put_other. intros ->.
    cbn in *. destruct Hc as [E|E]; [congruence|]. rewrite Hdj in E. congruence. }
  unfold compacted_to, settled, holding. rewrite dk_put_other by done. by split_and!.
Qed.
Lemma tri_afterRename ino source st s : as_legacy st = false -> auditStatesSemanticallyEqual source st = true ->
  tri (renamed ino st s) (afterRename ino st s) (compaction_result source).
Proof.
  intros Hl Heq. unfold afterRename. set (R := renamed ino st s). assert (HR : forall d w, R d w -> J d w) by apply renamed_J.
  eapply (triple_bind J R _ (fun _ => R)).
  { apply triple_attempt_same; [done|]. eapply triple_post; [by apply (triple_verifyJournalPath R R)|]. by intros _ d w [H _]. }
  intros [_|e]; [|by apply tri_giveUp]. eapply triple_bind; [apply triple_writer|]. intros w1. cbv zeta.
  eapply triple_bind; [apply triple_adopt|]. skip.
  set (A := fun d w => J d w /\ holding st d w /\ w_state w = st /\ w_file w = ino /\ checkpoint_file st s (dk_file d ino) /\
    sn_completeBytes (w_journal w) = lines_size (jf_lines (dk_file d ino)) /\ w_file w1 <> ino /\ (w_file w1 < dk_next d)%nat).
  apply (triple_pre J A).
  2: { intros d w (w0 & [(HJ & Hcl & Hne & Hj & Ht & Hf) ->] & ->). pose proof Hf as (F1 & F2 & F3 & (mt & id & F4) & F5).
       assert (HJ' : J d (adopted ino st s w1)).
       { apply (J_adopt d w1); cbn; try done; [eapply J_next; [exact HJ|by left]|by eapply recovered_reads]. }
       destruct HJ as (_ & Hw & _). destruct (Hw Hcl) as [Hlt _]. unfold A, holding. cbn. split_and!; try done. by exists mt, id. }
  eapply (triple_bind J A _ (fun r => match r with Ok _ => fun d w => compacted_to source d w /\ w_file w1 <> w_file w /\ (w_file w1 < dk_next d)%nat | Err _ => J end)).
  { eapply triple_post; [apply triple_attempt, (triple_flush J A (fun d w => compacted_to source d w /\ w_file w1 <> w_file w /\ (w_file w1 < dk_next d)%nat))|].
    - by intros d w [H _].
    - intros d w (HJ & Hh & Hst & <- & (F1 & F2 & F3 & (mt & id & F4) & F5) & Hsz & Hne & Hlt). split; [|by split].
      split; [|split_and!; rewrite ?Hst; try done; by eapply recovered_gapless]. rewrite Hst. split; [|by split].
      eapply holding_core; [exact Hh|]. apply core_sync. by eapply J_sane.
    - by intros [[]|e] d w. }
  intros [_|e].
  2: { eapply triple_bind; [by apply (triple_attempt_io J J)|]. skip. by apply triple_ret. }
  set (C := fun d w => compacted_to source d w /\ w_file w1 <> w_file w /\ (w_file w1 < dk_next d)%nat).
  assert (HC : forall d w, C d w -> J d w) by (intros d w [H _]; by eapply compacted_J).
  assert (Hput : forall d w f, C d w -> (jf_durable f <= length (jf_lines f))%nat -> C (dk_put d (w_file w1) f) w).
  { intros d w f (H1 & H2 & H3) Hf. split; [by apply compacted_put|done]. }
  eapply (triple_bind J C _ (fun _ => C)).
  { apply triple_attempt_same; [done|]. apply (triple_effect C C C); [done|done|]. intros a d w H. by apply Hput. }
  skip. eapply (triple_bind J C _ (fun _ => C)).
  { apply triple_attempt_same; [done|]. apply (triple_flush C C C); [done|]. intros d w H. by apply Hput. }
  skip. eapply triple_bind; [by apply (triple_attempt_io J C)|]. skip. apply triple_ret. by intros d w [H _].
Qed.

Lemma checkpoint_record source st mt id lines : recoverLines mt id lines = Ok st -> is_u64 (as_generation source) ->
  as_generation source <> u64_max -> auditStatesSemanticallyEqual source st = true -> as_legacy st = false.
Proof.
  intros Hr Hu Hn Heq. destruct (recover_stamp _ _ _ _ Hr) as (_ & Hz & _). destruct (as_legacy st); [|done]. exfalso. specialize (Hz eq_refl).
  unfold auditStatesSemanticallyEqual in Heq. rewrite !andb_true_iff in Heq. destruct Heq as (((((_ & Hg) & _) & _) & _) & _).
  apply Z.eqb_eq in Hg. rewrite Hz in Hg. unfold u64_succ, u64, is_u64, u64_max in *. rewrite Z.mod_small in Hg by lia. lia.
Qed.
Lemma tri_compact source t : complete source -> tri canonical (compactStateLocked source t) (compaction_result source).
Proof.
  intros (Hg & Hu & Hk). unfold compactStateLocked.
  destruct (as_storeID source ==? "") eqn:Eid; [apply triple_ret; intros d w H; by apply canonical_J|]. apply bool_decide_eq_false in Eid.
  destruct (as_generation source =? u64_max) eqn:Eg; [apply triple_ret; intros d w H; by apply canonical_J|].
  eapply triple_bind; [apply triple_ctx_err|]. intros b. apply triple_case; intros _; [apply triple_ret; intros d w H; by apply canonical_J|].
  eapply (triple_bind J canonical _ (fun r => match r with Ok temp => preparing temp | Err _ => J end)).
  { eapply triple_post; [apply triple_attempt|by intros [a|e] d w H].
    eapply triple_bind; [apply tri_verifyCanonical|]. skip. eapply triple_bind; [|skip; apply tri_createTemp].
    apply tri_cleanupStale; [apply canonical_J|apply canonical_no_temp|]. intros d w H. eapply canonical_core; [exact H|]. apply core_sync.
    eapply J_sane. by apply canonical_J. }
  intros [temp|e]; [|by apply triple_ret].
  eapply (triple_bind J (preparing temp) _ (fun r => match r with Ok a => prepared temp a.1 a.2 | Err _ => J end)).
  { eapply triple_post; [by apply triple_attempt, tri_writeCheckpoint|by intros [a|e] d w H]. }
  intros [[st s]|e]; [|eapply triple_bind; [by apply triple_ctx_err|]; intros c; by apply tri_giveUp]. cbn [fst snd].
  eapply (triple_bind J _ _ (fun r => match r with Ok _ => fun d w => prepared temp st s d w /\ auditStatesSemanticallyEqual source st = true | Err _ => J end)).
  { eapply triple_post; [by apply triple_attempt, tri_checkpointReady|by intros [a|e] d w H]. }
  intros [_|e]; [|by apply tri_giveUp].
  set (P := fun d w => prepared temp st s d w /\ auditStatesSemanticallyEqual source st = true).
  assert (HP : forall d w, P d w -> J d w) by (intros d w [H _]; by eapply prepared_J).
  eapply (triple_bind J P _ (fun _ => P)); [apply triple_ctx_err|]. intros c. apply triple_case; intros _; [by apply tri_giveUp|].
  eapply (triple_bind J P _ (fun _ => P)).
  { apply triple_attempt_same; [done|]. eapply triple_post; [by apply (triple_verifyPaths P P)|by intros _ d w [H _]]. }
  intros [_|e]; [|by apply tri_giveUp].
  apply triple_start. intros d1 w1 [Hp Heq]. pose proof Hp as [_ (_ & _ & _ & (mt & id & Hr) & _)].
  pose proof (recovered_gapless _ _ _ _ Hr) as Hgs.
  assert (Hl : as_legacy st = false) by (eapply checkpoint_record; [exact Hr|done|lia|done]).
  assert (Hks : Forall (fun e => kept e st) acked) by (eapply Forall_impl; [exact Hk|]; intros e; by apply kept_checkpoint).
  apply (triple_pre J (prepared temp st s)); [|by intros d w [-> ->]].
  eapply (triple_bind J _ _ (fun r => match r with Ok _ => renamed temp st s | Err _ => J end)).
  { eapply triple_post; [by apply triple_attempt, tri_rename|by intros [a|e] d w H]. }
  intros [_|e]; [by apply tri_afterRename|by apply tri_giveUp].
Qed.

(** ** Operations *)

Lemma complete_event st r st' : complete st -> applyEventRecord st r = Ok st' -> complete st'.
Proof.
  intros (Hg & Hu & Hk) H. split_and!; [by eapply gapless_event|by rewrite (event_generation _ _ _ Hg H)|].
  eapply Forall_impl; [exact Hk|]. intros e. by eapply kept_event.
Qed.
Lemma complete_retention st t o st' : complete st -> applyRetentionPolicy st t o = Ok st' -> complete st'.
Proof.
  intros (Hg & Hu & Hk) H. destruct (retention_effect _ _ _ _ Hg H) as (Hg' & Hgen & Hke). split_and!; [done|by rewrite Hgen|].
  eapply Forall_impl; [exact Hk|exact Hke].
Qed.
Lemma compacted_measured source d w : compacted_to source d w -> measured (w_state w) (w_journal w) d w.
Proof. by intros (H1 & _ & _ & H2). Qed.
(** What a compaction leaves, whatever is written to the lock file afterwards. *)
Lemma tri_persist_compacted source st : tri (compacted_to source) (persistLockMetadataLocked st) (fun _ => compacted_to source).
Proof.
  apply triple_frame; [apply compacted_J|]. intros d1 w1 (H1 & H2 & H3 & H4) Hs HF. eapply triple_post; [by apply (frame_persist J d1 w1)|].
  intros _ d w [Hc ->]. split; [by eapply settled_core|]. destruct Hc as (_ & _ & _ & _ & _ & Hl). by destruct (Hl (w_file w1)) as [-> _].
Qed.
Lemma tri_afterCompaction source : tri (compacted_to source)
  (let* w := the_writer in exec failClosed (persistLockMetadataLocked (w_state w)) ;; releaseLock) (fun _ => compacted_to source).
Proof.
  eapply triple_bind; [apply triple_writer|]. intros w1. apply (triple_pre J (compacted_to source)); [|by intros d w [H _]].
  eapply triple_bind; [apply tri_failClosed, tri_persist_compacted|]. skip. apply tri_releaseLock, compacted_J.
Qed.
Lemma tri_appendByCompaction prospective t : complete prospective ->
  tri canonical (appendByCompaction prospective t) (fun _ => compacted_to prospective).
Proof.
  intros Hc. unfold appendByCompaction. eapply triple_bind; [by apply tri_compact|]. intros [| |e]; cbn [compaction_result].
  - apply tri_afterCompaction.
  - by apply tri_interrupt.
  - apply tri_failClosed. by apply triple_fail.
Qed.

Lemma appended_event w persisted t stored record preview line decoded : gapless (w_state w) ->
  prospectiveEvent w persisted t = Ok (stored, record, preview) -> marshalAuditRecord record = Ok line -> decodeAuditRecord line = Ok decoded ->
  exists e', reread_event stored = Some e' /\ ar_Event decoded = Some e' /\ ar_Kind decoded = auditEvent /\ slen line + 1 <= maximumRecordBytes /\
    au_Sequence stored = as_lastSequence (w_state w) + 1 /\ au_Sequence e' = au_Sequence stored.
Proof.
  intros Hg H Hm Hd. unfold prospectiveEvent in H. ok_path H. simplify_eq. destruct (gapless_u64 _ Hg) as [Hu _].
  set (event := with_sequence _ _ _) in *. assert (Hs : au_Sequence event = as_lastSequence (w_state w) + 1) by (cbn; apply u64_succ_small; [done|lia]).
  assert (Hmax : as_lastSequence (w_state w) + 1 <= u64_max) by (unfold is_u64 in Hu; lia).
  pose proof (gapless_push (w_state w) event t Hg Hs Hmax) as Hgp.
  match goal with E : applyRetentionPolicy _ _ _ = Ok preview |- _ => destruct (retention_effect _ _ _ _ Hgp E) as (Hg2 & _) end.
  assert (Hf : record_fits (event_record t event (as_prunedThrough preview))).
  { split; [cbn; unfold event_fits; rewrite Hs; unfold is_u64 in *; lia|split; [by apply gapless_u64|done]]. }
  set (record := event_record t event (as_prunedThrough preview)) in *.
  rewrite (decode_encoded record line eq_refl Hf ltac:(done) Hm) in Hd. unfold reread_record in Hd. cbn [record event_record ar_Event] in Hd.
  destruct (reread_event event) as [e'|] eqn:Er; [|done]. cbn in Hd. simplify_eq. exists e'. split_and!; try done.
  - by destruct (reads_record record line ltac:(done) Hf Hm) as (_ & _ & _ & Hlen & _).
  - unfold reread_event in Er. destruct (reread_details _); [|done]. cbn in Er. by simplify_eq.
Qed.
(** What an acknowledgement promises. *)
Definition promised (stored : AuditEvent) : assertion := fun d w =>
  J d w /\ (forall a, a ∈ acked -> au_Sequence a < au_Sequence stored) /\
  exists e', reread_event stored = Some e' /\ safe d e'.
Lemma settled_promised st d w stored e' : settled st d w -> (forall a, a ∈ acked -> au_Sequence a < au_Sequence stored) ->
  reread_event stored = Some e' -> 1 <= au_Sequence e' -> kept e' st -> promised stored d w.
Proof.
  intros Hs Ha Hr H1 Hk. split; [by eapply settled_J|]. split; [done|]. exists e'. split; [done|]. by eapply settled_safe.
Qed.
Lemma kept_new st r st' e : gapless st -> applyEventRecord st r = Ok st' -> ar_Event r = Some e -> kept e st'.
Proof.
  intros Hg H He. destruct (kept_appended _ _ _ _ Hg H He) as [before Hb]. right. exists (mkStored e (ar_RecordedAt r)).
  rewrite Hb. split; [apply elem_of_app; right; by left|]. by split.
Qed.
Lemma tri_Append event : tri J (AppendContext event) (fun stored => promised stored).
Proof.
  unfold AppendContext. eapply triple_bind; [by apply (tri_acquire J)|]. skip. eapply triple_bind; [apply triple_ctx_err|]. intros b.
  apply triple_refuse; [done|]. intros _. eapply triple_bind; [apply tri_requireUsable|]. skip.
  set (P := fun d w => J d w /\ w_closed w = false). assert (HP : forall d w, P d w -> J d w) by by intros d w [H _].
  apply triple_lifted; [done|]. intros persisted _. eapply triple_bind; [by apply (tri_enterLock P)|]. skip.
  eapply triple_bind; [apply tri_failClosed, tri_refresh|]. skip. eapply triple_bind; [apply (tri_checkInterrupt canonical), canonical_J|]. skip.
  eapply triple_bind; [apply tri_failClosed, (tri_commitTime canonical), canonical_J|]. intros t.
  eapply triple_bind; [apply (tri_checkInterrupt canonical), canonical_J|]. skip. eapply triple_bind; [apply triple_writer|]. intros w1.
  set (C := fun d w => canonical d w /\ w = w1). assert (HC : forall d w, C d w -> J d w) by (intros d w [H _]; by apply canonical_J).
  eapply (triple_bind J C _ (fun r d w => C d w /\ prospectiveEvent w1 persisted t = Ok r)).
  { apply tri_failClosed. by apply triple_lift. }
  intros [[stored record] preview]. destruct (marshalAuditRecord record) as [line|e] eqn:Em.
  2: { eapply triple_bind; [apply (triple_attempt_io J (fun d w => C d w /\ _)); intros d w [H _]; by apply HC|]. skip.
       apply triple_fail. intros d w [H _]. by apply HC. }
  apply triple_start. intros d1 w2 [[Hcan ->] Hp]. apply (triple_pre J C); [|by intros d w [-> ->]].
  pose proof (canonical_complete _ _ Hcan) as Hcomp. pose proof Hcomp as (Hg & _ & Hka).
  eapply (triple_bind J C _ (fun st d w => C d w /\ (let? decoded := decodeAuditRecord line in applyEventRecord (w_state w1) decoded) = Ok st)).
  { apply tri_failClosed. by apply triple_lift. }
  intros prospective. apply triple_start. intros d2 w2 [Hc2 Hdec]. apply (triple_pre J C); [|by intros d w [-> ->]]. clear d2 w2 Hc2.
  destruct (decodeAuditRecord line) as [decoded|] eqn:Ed; [|done]. cbn [result_bind] in Hdec.
  destruct (appended_event _ _ _ _ _ _ _ _ Hg Hp Em Ed) as (e' & Hre & Hev & Hkind & Hsize & Hseq & Hseq').
  assert (Hnew : kept e' prospective) by by eapply kept_new.
  assert (H1 : 1 <= au_Sequence e') by (destruct (gapless_u64 _ Hg) as [[? ?] _]; lia).
  assert (Hlt : forall a, a ∈ acked -> au_Sequence a < au_Sequence stored).
  { intros a Ha. rewrite Forall_forall in Hka. pose proof (kept_last _ _ Hg (Hka a Ha)). lia. }
  cbv zeta. eapply (triple_bind J C _ (fun _ => C)).
  { apply tri_failClosed. apply triple_refuse; [done|]. intros _. by apply triple_ret. }
  skip. eapply (triple_bind J C _ (fun r d w => C d w /\ (as_legacy (w_state w1) = true -> r.1 = true))).
  { destruct (as_legacy (w_state w1)); [by apply triple_ret|]. apply tri_failClosed. eapply triple_post; [by apply triple_lift|]. by intros r d w [H _]. }
  intros [compact evaluated]. apply triple_start. intros d2 w2 [[Hc2 ->] Hleg]. apply (triple_pre J C); [|by intros d w [-> ->]]. cbn [fst] in Hleg.
  eapply (triple_bind J C _ (fun _ => promised stored)); [|skip; by apply triple_ret]. destruct compact.
  - apply (triple_pre J canonical); [|by intros d w [H _]]. eapply triple_post; [apply tri_appendByCompaction; by eapply complete_event|].
    intros _ d w (Hs & Hgw & Heq & _). eapply settled_promised; [exact Hs|done|done|done|]. eapply kept_checkpoint; [|exact Hgw|exact Heq|done].
    exact (gapless_event _ _ _ Hg Hdec).
  - eapply triple_bind; [by apply (tri_checkInterrupt C)|]. skip. apply (triple_pre J (fun d w => canonical d w /\ w_state w = w_state w1)); [|by intros d w [H ->]].
    assert (Hrec : as_legacy (w_state w1) = false) by (destruct (as_legacy (w_state w1)); [discriminate (Hleg eq_refl)|done]).
    eapply triple_post; [by apply (tri_appendLine line decoded (w_state w1))|].
    intros ? d w Hs.
    by eapply (settled_promised prospective).
Qed.
Lemma tri_Compact : tri J Compact (fun _ => J).
Proof.
  unfold Compact. eapply triple_bind; [by apply (tri_acquire J)|]. skip. eapply triple_bind; [apply tri_requireUsable|]. skip.
  set (P := fun d w => J d w /\ w_closed w = false). assert (HP : forall d w, P d w -> J d w) by by intros d w [H _].
  eapply triple_bind; [by apply (tri_enterLock P)|]. skip. eapply triple_bind; [apply tri_failClosed, tri_refresh|]. skip.
  eapply triple_bind; [apply tri_failClosed, (tri_commitTime canonical), canonical_J|]. intros t. eapply triple_bind; [apply triple_writer|]. intros w1.
  set (C := fun d w => canonical d w /\ w = w1). assert (HC : forall d w, C d w -> J d w) by (intros d w [H _]; by apply canonical_J).
  eapply (triple_bind J C _ (fun st d w => C d w /\ applyRetentionPolicy (w_state w1) t (w_options w1) = Ok st)).
  { apply tri_failClosed. by apply triple_lift. }
  intros prospective. apply triple_start. intros d1 w2 [[Hcan ->] Hret].
  apply (triple_pre J canonical); [|by intros d w [-> ->]]. pose proof (complete_retention _ _ _ _ (canonical_complete _ _ Hcan) Hret) as Hcomp.
  apply triple_case; intros _.
  { eapply triple_post; [apply (tri_releaseLock canonical), canonical_J|]. intros ? d w. apply canonical_J. }
  eapply triple_bind; [by apply tri_compact|]. intros [| |e]; cbn [compaction_result].
  - eapply triple_post; [apply tri_afterCompaction|]. intros ? d w. apply compacted_J.
  - by apply tri_interrupt.
  - apply tri_failClosed. by apply triple_fail.
Qed.
(** What [List] returns is what a complete state holds. *)
Definition lists (events : list AuditEvent) : assertion := fun d w =>
  J d w /\ exists st, complete st /\ sanitizeAll (as_events st) = Ok events.
Lemma tri_List : tri J List lists.
Proof.
  unfold List. eapply triple_bind; [by apply (tri_acquire J)|]. skip. eapply triple_bind; [apply tri_requireUsable|]. skip.
  set (P := fun d w => J d w /\ w_closed w = false). assert (HP : forall d w, P d w -> J d w) by by intros d w [H _].
  eapply triple_bind; [by apply (tri_enterLock P)|]. skip. eapply triple_bind; [apply tri_failClosed, tri_refresh|]. skip.
  eapply triple_bind; [apply (tri_checkInterrupt canonical), canonical_J|]. skip.
  eapply triple_bind; [apply triple_writer|]. intros w1. apply triple_start. intros d1 w2 [Hcan ->].
  apply (triple_pre J J); [|by intros d w [-> ->]; apply canonical_J].
  eapply (triple_bind J J _ (fun events d w => J d w /\ sanitizeAll (as_events (w_state w1)) = Ok events)); [by apply tri_failClosed, triple_lift|].
  intros events. eapply triple_bind; [apply (tri_releaseLock (fun d w => J d w /\ _)); by intros d w [H _]|]. skip. apply triple_ret.
  intros d w [HJ Hev]. split; [done|]. exists (w_state w1). split; [by eapply canonical_complete|done].
Qed.
Lemma tri_verifyForClose : tri (fun d w => J d w /\ w_closed w = true) verifyPathsForClose (fun _ => J).
Proof.
  set (P := fun d w => J d w /\ w_closed w = true). assert (HP : forall d w, P d w -> J d w) by by intros d w [H _].
  unfold verifyPathsForClose. eapply triple_bind; [by apply (triple_verify J P)|]. skip. eapply triple_bind; [apply triple_answer|]. intros a.
  destruct (an_reply a) as [|[|n]|n]; [|by apply triple_ret|by apply triple_fail|by intros p Hp; apply HP].
  eapply (triple_bind J P _ (fun _ => J)).
  { eapply triple_post; [apply triple_attempt|by intros [x|e] d w H; exact H].
    eapply triple_bind; [by apply (triple_verify J P)|]. skip. eapply (triple_bind J P _ (fun _ => J)).
    - eapply triple_weaken; [apply (tri_ensureCanonical true)|by intros d w [H1 H2]|]. by intros ? d w [[H _] _].
    - skip. eapply triple_post; [by apply (triple_verifyPaths J J)|]. by intros ? d w [H _]. }
  intros r. eapply triple_bind; [by apply (triple_attempt_io J J)|]. intros u. apply triple_lifted; [done|]. intros _ _.
  eapply triple_post; [by apply (triple_lift J J)|]. by intros ? d w [H _].
Qed.
Lemma tri_attempt {A} (P : assertion) (m : M A) : tri P m (fun _ => J) -> tri P (attempt m) (fun _ => J).
Proof. intros H. eapply triple_post; [by apply triple_attempt|]. by intros [a|e] d w. Qed.
Lemma tri_Close : tri J Close (fun _ => J).
Proof.
  unfold Close. eapply triple_bind; [apply triple_writer|]. intros w1. apply triple_case; intros E; [apply triple_ret; by intros d w [H _]|].
  eapply triple_bind; [apply triple_set_writer|]. skip. apply (triple_pre J (fun d w => J d w /\ w_closed w = true)).
  2: { intros d w (-> & w0 & [HJ _]). split; [by eapply J_closed|done]. }
  eapply (triple_bind J _ _ (fun _ => J)).
  { apply tri_attempt. eapply (triple_bind J _ _ (fun _ => J)); [apply tri_attempt, tri_verifyForClose|].
    intros [x|e]; [by apply triple_ret|by apply tri_unavailable]. }
  intros integrity. do 3 (eapply triple_bind; [by apply (triple_attempt_io J J)|]; intros ?; cbv beta).
  do 3 (apply triple_lifted; [done|]; intros ? ?; cbv beta). eapply triple_post; [by apply (triple_lift J J)|]. by intros ? d w [Hp _].
Qed.

(** ** Opening *)

Definition opened (ino : nat) : assertion := fun d w => J d w /\ dk_journal d = Some ino.
Definition scanned_file (ino : nat) (s : auditSnapshot) (P : list string -> Prop) : assertion := fun d w =>
  opened ino d w /\ jf_tail (dk_file d ino) = "" /\ sn_completeBytes s = lines_size (jf_lines (dk_file d ino)) /\ P (jf_lines (dk_file d ino)).
Lemma opened_J ino d w : opened ino d w -> J d w.
Proof. by intros [H _]. Qed.
Lemma opened_core ino d d' w : opened ino d w -> core d d' -> opened ino d' w.
Proof. intros [H1 H2] Hc. split; [by eapply J_core|]. by destruct Hc as (_ & -> & _). Qed.
Lemma scanned_J ino s P d w : scanned_file ino s P d w -> J d w.
Proof. by intros [[H _] _]. Qed.
Lemma scanned_core ino s P d d' w : scanned_file ino s P d w -> core d d' -> scanned_file ino s P d' w.
Proof.
  intros (H1 & H2 & H3 & H4) Hc. split; [by eapply opened_core|]. destruct Hc as (_ & _ & _ & _ & _ & C6). destruct (C6 ino) as (-> & _ & Ht).
  split_and!; try done. by destruct Ht as [-> | ->].
Qed.
Lemma tri_syncDirectory (P : assertion) : (forall d w, P d w -> J d w) -> (forall d d' w, P d w -> core d d' -> P d' w) ->
  tri P directory_sync (fun _ => P).
Proof.
  intros HP Hc. apply triple_flush; [done|]. intros d w Hp. eapply Hc; [exact Hp|]. apply core_sync. eapply J_sane. by apply HP.
Qed.
Lemma tri_openLock : tri J openLockFile (fun _ => J).
Proof.
  unfold openLockFile. eapply triple_bind; [apply triple_disk|]. intros d1. apply (triple_pre J J); [|by intros d w [H _]].
  destruct (dk_lock d1); [by apply triple_io|]. eapply (triple_bind J J _ (fun _ => J)).
  - apply triple_effect; [done|done|]. intros a d w H. eapply J_core; [exact H|]. apply core_lock. by eapply J_sane.
  - skip. apply tri_syncDirectory; [done|apply J_core].
Qed.
Lemma tri_readInitial : tri J readInitialMetadata (fun _ => J).
Proof.
  unfold readInitialMetadata. eapply (triple_bind J J _ (fun _ => J)); [by apply tri_attempt, (triple_readLock J J)|].
  intros [x|e]; [by apply triple_ret|]. destruct (_ ==? _); [by apply triple_ret|by apply triple_fail].
Qed.
(** A new journal: nothing was acknowledged. *)
Lemma create_journal d w mt : J d w -> dk_journal d = None -> opened (dk_next d) (dk_with_journal (dk_create d mt) (Some (dk_next d))) w.
Proof.
  intros HJ Hj. split; [|done]. pose proof HJ as ((Hs & Hn & _) & _). apply (J_change d); [done|by apply create_sane| | | |done].
  - pose proof Hn as [H1 H2]. split.
    + intros i Hi. cbn. destruct (decide (i = dk_next d)) as [->|Hne]; [rewrite lookup_insert_eq; by eexists|]. rewrite lookup_insert_ne by done.
      apply H1. unfold name_of in *. cbn in Hi. destruct Hi as [Hi|[Hi|Hi]]; [congruence|tauto|tauto].
    + cbn. intros t Ht. destruct (H2 t Ht) as [_ Hd]. split; [|done]. intros [= Heq].
      pose proof (name_next _ _ Hs Hn (or_intror (or_intror Ht)) : (t < dk_next d)%nat). lia.
  - apply Forall_forall. intros e He. destruct (acked_journal _ _ _ HJ He) as (c & Hc & _). congruence.
  - split; [cbn; lia|]. right. by exists (dk_next d).
Qed.
Lemma tri_openJournal : tri J openJournal (fun r => opened r.1).
Proof.
  unfold openJournal. eapply triple_bind; [apply triple_disk|]. intros d1. set (P := fun d w => J d w /\ d = d1).
  assert (HP : forall d w, P d w -> J d w) by by intros d w [H _]. destruct (dk_journal d1) as [ino|] eqn:Ej.
  - eapply triple_bind; [by apply (triple_io J P)|]. skip. apply triple_ret. by intros d w [H ->].
  - eapply (triple_bind J P _ (fun _ => opened (dk_next d1))); [|skip; by apply triple_ret].
    apply triple_effect; [done|apply opened_J|]. intros a d w [H ->]. by apply create_journal.
Qed.
Lemma tri_recoverOpened ino repair id (Q : list string -> Prop) : tri (fun d w => opened ino d w /\ Q (jf_lines (dk_file d ino))) (recoverAuditLog ino repair id)
  (fun r => scanned_file ino r.2 (fun lines => Q lines /\ (exists mt, recoverLines mt id lines = Ok r.1))).
Proof.
  apply triple_frame; [by intros d w [[H _] _]|]. intros d1 w1 [[HJ Hj] HQ] Hs HF.
  eapply triple_post; [apply (frame_recover J d1 w1); try done; eapply J_exists; [exact HJ|by left]|]. intros [st s] d w ([Hc ->] & Ht & Hr & Hsz).
  cbn [fst snd] in *. split; [by eapply opened_core|]. destruct Hc as (_ & _ & _ & _ & _ & C6). by destruct (C6 ino) as (-> & _).
Qed.
(** The store of an old or empty journal is filled in. *)
Lemma tri_identify ino s disk st n : tri (scanned_file ino s (fun lines => True /\ exists mt id, recoverLines mt id lines = Ok st)) (identifyStore disk st n)
  (fun st' => scanned_file ino s (fun lines => lines <> [] -> reads_as lines st')).
Proof.
  set (P := scanned_file ino s _). assert (HP : forall d w, P d w -> J d w) by apply scanned_J.
  set (named_by := fun st' => st' = st \/ (as_storeID st = "" /\ exists id', st' = with_storeID st id')).
  assert (Hdone : forall st' d w, P d w -> named_by st' -> scanned_file ino s (fun lines => lines <> [] -> reads_as lines st') d w).
  { intros st' d w (H1 & H2 & H3 & _ & (mt & id & Hr)) Hst. split_and!; [by destruct H1..|done|done|]. intros Hne. exists mt, id, st. split; [done|].
    destruct Hst as [->|[Hid Hst]]; [by left|right]. split; [|done]. destruct (recover_stamp _ _ _ _ Hr) as (_ & _ & Hx).
    destruct (as_legacy st); [done|]. by destruct (Hx Hne eq_refl). }
  unfold identifyStore. apply triple_refuse; [done|]. intros _.
  eapply (triple_bind J P _ (fun st' d w => P d w /\ named_by st')).
  { apply triple_case; intros E; [|apply triple_ret; intros d w Hp; split; [done|by left]]. apply triple_refuse; [done|]. intros _. apply triple_ret.
    intros d w Hp. split; [done|]. right. apply andb_true_iff in E as [_ E%bool_decide_eq_true]. split; [done|by eexists]. }
  intros st1. apply triple_case; intros E; [|apply triple_ret; intros d w [Hp Hst]; by apply Hdone].
  eapply triple_bind; [apply triple_answer|]. intros a.
  eapply triple_bind; [apply (triple_conclude J (fun d w => P d w /\ named_by st1)); intros d w [H _]; by apply HP|]. skip.
  apply triple_ret. intros d w [[Hp Hst] _]. apply Hdone; [done|]. right. apply bool_decide_eq_true in E. destruct Hst as [->|[Hid [id' ->]]].
  - split; [done|by eexists].
  - split; [done|by exists (an_text a)].
Qed.

(** The journal that [Open] hands to the writer. *)
Definition read_journal (ino : nat) (st : auditState) (s : auditSnapshot) : assertion :=
  scanned_file ino s (fun lines => lines <> [] /\ reads_as lines st).
Lemma read_journal_J ino st s d w : read_journal ino st s d w -> J d w.
Proof. apply scanned_J. Qed.
Lemma tri_writeMetadata (P : assertion) m : (forall d w, P d w -> J d w) -> (forall d d' w, P d w -> core d d' -> P d' w) ->
  tri P (writeLockMetadata m) (fun _ => P).
Proof. intros HP Hc. apply tri_stable; [done|done|]. intros d1 w1 Hs HF. by apply frame_write_lock. Qed.
Lemma tri_replaceTorn (P : assertion) m : (forall d w, P d w -> J d w) -> (forall d d' w, P d w -> core d d' -> P d' w) ->
  tri P (replaceTornInitialLockMetadata m) (fun _ => P).
Proof. intros HP Hc. apply tri_stable; [done|done|]. intros d1 w1 Hs HF. by apply frame_replace_torn. Qed.

(** Nothing acknowledged is in an empty journal. *)
Lemma empty_acknowledges d w ino : opened ino d w -> jf_lines (dk_file d ino) = [] -> acked = [].
Proof.
  intros [HJ Hj] He. destruct acked as [|e l] eqn:Ea; [done|]. exfalso. assert (Hin : e ∈ acked) by (rewrite Ea; by left).
  destruct (acked_journal _ _ e HJ Hin) as (c & Hc & mt & id & st & Hr & Hl & Hk). rewrite Hj in Hc. simplify_eq. rewrite He in Hr.
  assert (Hst : st = newAuditState id) by (unfold recoverLines, scanLines, finishRecovery in Hr; cbn [result_fold result_bind] in Hr; ok_path Hr; by subst).
  destruct HJ as ((_ & _ & Ha) & _). rewrite Forall_forall in Ha. destruct (Ha e Hin) as [H1 _]. subst st.
  destruct Hk as [Hk|(se & Hse & _)]; cbn in *; [lia|]. by apply not_elem_of_nil in Hse.
Qed.
Lemma write_opened d w ino f : opened ino d w -> acked = [] -> (jf_durable f <= length (jf_lines f))%nat ->
  jf_lines (dk_file d ino) `prefix_of` jf_lines f -> opened ino (dk_put d ino f) w.
Proof.
  intros [HJ Hj] He Hf Hp. split; [|done]. pose proof HJ as ((Hs & Hn & _) & _). apply (J_change d); [done| | | |by apply put_grows|done].
  - apply put_sane; [done| |done]. eapply (J_next _ _ _ HJ). by left.
  - by apply put_names.
  - rewrite He. constructor.
Qed.
Definition empty_journal (ino : nat) : assertion := fun d w => opened ino d w /\ jf_lines (dk_file d ino) = [] /\ jf_tail (dk_file d ino) = "".
Definition started (ino : nat) : assertion := fun d w => opened ino d w /\ jf_lines (dk_file d ino) <> [].
Lemma started_core ino d d' w : started ino d w -> core d d' -> started ino d' w.
Proof. intros [H1 H2] Hc. split; [by eapply opened_core|]. destruct Hc as (_ & _ & _ & _ & _ & C6). by destruct (C6 ino) as (-> & _). Qed.
Lemma started_J ino d w : started ino d w -> J d w.
Proof. by intros [[H _] _]. Qed.
Lemma tri_writeFirst ino line : tri (empty_journal ino) (writeLine ino line) (fun _ => started ino).
Proof.
  intros p (Ho & Hl & Ht). pose proof (empty_acknowledges _ _ _ Ho Hl) as He.
  assert (Hput : forall n a, opened ino (dk_put (pr_disk p) ino (jf_append (dk_file (pr_disk p) ino) line n a)) (pr_writer p)).
  { intros n a. apply write_opened; [done|done| |].
    - pose proof (file_sane_at _ ino (J_sane _ _ (proj1 Ho))). unfold jf_append. destruct (_ <? _)%nat; cbn; rewrite ?length_app; lia.
    - rewrite Hl. apply prefix_nil. }
  unfold writeLine, bind. pose proof (next_answer_same p) as Hn. destruct (next_answer p) as [p' x].
  destruct Hn as (H1 & H2 & a & ->). unfold change_disk, conclude. rewrite H1, H2.
  destruct (an_reply a) as [|n|n] eqn:Er; cbn [pr_disk pr_writer]; [|exact (proj1 (Hput _ _))..]. split; [apply Hput|].
  rewrite dk_put_file. unfold extent. rewrite Er. destruct (append_whole (dk_file (pr_disk p) ino) line (an_time a) Ht) as [-> _]. by rewrite Hl.
Qed.
Lemma tri_writeHeader ino id : tri (empty_journal ino) (writeHeader ino id) (fun r => read_journal ino r.1 r.2).
Proof.
  unfold writeHeader. eapply triple_bind; [apply triple_clock|]. intros t. apply triple_lifted; [by intros d w [[H _] _]|]. intros line _.
  eapply triple_bind; [apply tri_writeFirst|]. skip. eapply (triple_bind J _ _ (fun _ => started ino)).
  { apply triple_frame; [apply started_J|]. intros d1 w1 Hp Hs HF. eapply triple_post.
    - apply (frame_file_sync J d1 w1); try done. destruct Hp as [[HJ Hj] _]. eapply J_exists; [exact HJ|by left].
    - intros _ d w [[Hc ->] _]. by eapply started_core. }
  skip. eapply triple_bind; [apply tri_syncDirectory; [apply started_J|apply started_core]|]. skip.
  eapply triple_weaken; [apply (tri_recoverOpened ino false id (fun lines => lines <> []))|done|].
  intros [st s] d w (H1 & H2 & H3 & H4 & mt & H5). cbn [fst snd] in *. split; [done|]. split_and!; try done. by eapply recovered_reads.
Qed.
Lemma tri_initialize ino disk torn retention st s :
  tri (scanned_file ino s (fun lines => lines <> [] -> reads_as lines st)) (initializeJournal ino disk torn retention st s)
    (fun r => read_journal ino r.1.2 r.2).
Proof.
  set (P := scanned_file ino s _). unfold initializeJournal. cbv zeta. apply triple_case; intros E.
  - apply (triple_pre J (read_journal ino st s)).
    2: { intros d w (H1 & H2 & H3 & H4). assert (Hne : jf_lines (dk_file d ino) <> []).
         { intros Hn. rewrite Hn in H3. change (lines_size []) with 0 in H3. lia. } split; [done|]. split_and!; try done. by apply H4. }
    apply triple_case; intros _; [|by apply triple_ret]. eapply triple_bind; [apply tri_replaceTorn; [apply read_journal_J|apply scanned_core]|].
    skip. by apply triple_ret.
  - apply (triple_pre J (empty_journal ino)).
    2: { intros d w (H1 & H2 & H3 & H4). split; [done|]. split; [|done]. apply lines_size_zero.
         pose proof (lines_size_nonneg (jf_lines (dk_file d ino))). lia. }
    assert (HE : forall d w, empty_journal ino d w -> J d w) by by intros d w [[H _] _].
    assert (HC : forall d d' w, empty_journal ino d w -> core d d' -> empty_journal ino d' w).
    { intros d d' w (H1 & H2 & H3) Hc. split; [by eapply opened_core|]. destruct Hc as (_ & _ & _ & _ & _ & C6).
      destruct (C6 ino) as (-> & _ & Ht). split; [done|]. by destruct Ht as [-> | ->]. }
    eapply (triple_bind J _ _ (fun _ => empty_journal ino)).
    + apply triple_case; intros _; [eapply triple_bind; [by apply tri_replaceTorn|]; skip; by apply triple_ret|].
      apply triple_case; intros _; [eapply triple_bind; [by apply tri_writeMetadata|]; skip; by apply triple_ret|by apply triple_ret].
    + intros m. eapply triple_bind; [apply tri_writeHeader|]. intros [st' s']. by apply triple_ret.
Qed.
Lemma tri_Open options : tri J (OpenWithOptions options) (fun _ => J).
Proof.
  unfold OpenWithOptions. apply triple_lifted; [done|]. intros resolved _. do 2 (eapply triple_bind; [by apply (triple_io J J)|]; skip).
  eapply triple_bind; [apply tri_openLock|]. skip. eapply triple_bind; [by apply (triple_io J J)|]. skip.
  eapply triple_bind; [by apply (triple_verify J J)|]. skip. eapply triple_bind; [apply tri_readInitial|]. intros [disk torn]. cbv zeta.
  apply triple_refuse; [done|]. intros _. eapply triple_bind; [apply tri_cleanupStale; [done|apply J_no_temp|apply J_sync]|]. skip.
  eapply (triple_bind J J _ (fun _ => J)); [destruct (_ || _); [by apply (triple_io J J)|by apply triple_ret]|]. skip.
  eapply triple_bind; [apply triple_disk|]. intros d1. apply triple_refuse; [by intros d w [H _]|]. intros _.
  apply (triple_pre J J); [|by intros d w [H _]]. eapply triple_bind; [apply tri_openJournal|]. intros [ino created]. cbn [fst].
  eapply (triple_bind J _ _ (fun _ => opened ino)).
  { destruct created; [|by apply triple_ret]. apply triple_refuse; [apply opened_J|]. intros _.
    apply tri_syncDirectory; [apply opened_J|apply opened_core]. }
  skip. eapply triple_bind; [apply triple_inspect, opened_J|]. intros f. apply (triple_pre J (opened ino)); [|by intros d w [H _]].
  apply triple_lifted; [apply opened_J|]. intros [shape part] _. apply triple_lifted; [apply opened_J|]. intros expected _.
  eapply triple_bind; [eapply triple_pre; [apply (tri_recoverOpened ino true expected (fun _ => True))|done]|]. intros [st s]. cbn [fst snd].
  eapply triple_bind; [eapply triple_pre; [apply (tri_identify ino s disk st (sn_completeBytes s))|]|].
  { intros d w (H1 & H2 & H3 & _ & mt & H4). split; [done|]. split_and!; try done. by exists mt, expected. }
  intros identified. eapply triple_bind; [apply tri_initialize|]. intros [[metadata st'] s']. cbn [fst snd].
  set (R := read_journal ino st' s'). assert (HR : forall d w, R d w -> J d w) by apply read_journal_J.
  eapply (triple_bind J R _ (fun _ => R)).
  { apply triple_case; intros _; [|by apply triple_ret]. eapply triple_post; [by apply (triple_lift J R)|]. by intros _ d w [H _]. }
  skip. eapply (triple_bind J R _ (fun _ => R)).
  { apply triple_case; intros _; [by apply triple_ret|]. apply tri_writeMetadata; [done|apply scanned_core]. }
  skip. eapply triple_bind; [apply triple_set_writer|]. skip. apply (triple_pre J J).
  - eapply (triple_bind J J _ (fun _ => J)); [eapply triple_post; [by apply (triple_verifyPaths J J)|by intros ? d w [H _]]|]. skip. by apply triple_io.
  - intros d w (-> & w0 & ([HJ Hj] & Ht & Hsz & Hne & Hr)). apply (J_adopt d w0); cbn; try done. eapply J_next; [exact HJ|by left].
Qed.

End Invariant.

(** ** The system *)

(** What holds between operations. *)
Definition system_sound (s : system) : Prop :=
  file_sane (sy_disk s) /\ names_sane (sy_disk s) /\
  (forall i w, sy_writers s !! i = Some w -> writer_sound (sy_disk s) w) /\
  Forall (fun stored => exists e, reread_event stored = Some e /\ safe (sy_disk s) e) (sy_acknowledged s) /\
  StronglySorted (fun a b => au_Sequence a < au_Sequence b) (sy_acknowledged s).

(** What the acknowledged events become when they are read. *)
Definition reread_all (l : list AuditEvent) : list AuditEvent := omap reread_event l.
Lemma safe_all d l : Forall (fun stored => exists e, reread_event stored = Some e /\ safe d e) l <->
  Forall (safe d) (reread_all l) /\ Forall (fun stored => is_Some (reread_event stored)) l.
Proof.
  unfold reread_all. rewrite !Forall_forall. split.
  - intros H. split; [|intros e He; destruct (H e He) as (e' & -> & _); by eexists].
    intros e' He'. apply list_elem_of_omap in He' as (e & He & Hr). destruct (H e He) as (e2 & Hr2 & Hs). congruence.
  - intros [H1 H2] e He. destruct (H2 e He) as [e' Hr]. exists e'. split; [done|]. apply H1. apply list_elem_of_omap. by exists e.
Qed.
Lemma reread_sequence e e' : reread_event e = Some e' -> au_Sequence e' = au_Sequence e.
Proof. unfold reread_event. destruct (reread_details _); [|done]. intros [= <-]. done. Qed.

Lemma run_start s w : system_sound s -> (exists i, sy_writers s !! i = Some w) \/ w = noWriter -> J (reread_all (sy_acknowledged s)) (sy_disk s) (sy_disk s) w.
Proof.
  intros (Hf & Hn & Hw & Ha & _) H. split; [|split; [|apply grows_refl]].
  - split_and!; [done|done|]. by apply safe_all in Ha as [Ha _].
  - destruct H as [[i H]| ->]; [by eapply Hw|]. intros Hcl. discriminate Hcl.
Qed.
Lemma run_next s : system_sound s -> forall c, dk_journal (sy_disk s) = Some c -> (c < dk_next (sy_disk s))%nat.
Proof. intros (Hf & Hn & _) c Hc. eapply name_next; [done|done|by left]. Qed.
(** An operation keeps the system sound when it keeps the invariant of its
    process and acknowledges what is safe. *)
Lemma runs_sound {A} s i w opening (m : M A) answers ack (Q : A -> assertion) :
  system_sound s -> (exists i, sy_writers s !! i = Some w) \/ w = noWriter ->
  triple (J (reread_all (sy_acknowledged s)) (sy_disk s)) (J (reread_all (sy_acknowledged s)) (sy_disk s)) m Q ->
  (forall a d w', Q a d w' -> J (reread_all (sy_acknowledged s)) (sy_disk s) d w') ->
  (forall a d w', Q a d w' -> ack a = [] \/ exists stored, ack a = [stored] /\ promised (reread_all (sy_acknowledged s)) (sy_disk s) stored d w') ->
  system_sound (runs s i w opening m answers ack).
Proof.
  intros Hs Hw Hm HQ Hack. pose proof (run_start s w Hs Hw) as HJ. pose proof (Hm (mkProcess (sy_disk s) w answers) HJ) as H.
  unfold runs. destruct (m _) as [p r].
  assert (HJ' : J (reread_all (sy_acknowledged s)) (sy_disk s) (pr_disk p) (pr_writer p)) by (destruct r; [by eapply HQ|done|done]).
  pose proof Hs as (_ & _ & Hws & Ha & Hsort). pose proof HJ' as ((Hf & Hn & Hsafe) & Hw' & Hg).
  assert (Hall : Forall (fun stored => exists e, reread_event stored = Some e /\ safe (pr_disk p) e) (sy_acknowledged s)).
  { apply safe_all in Ha as [_ Hre]. apply safe_all. by split. }
  assert (Hwriters : forall j x, survive (sy_writers s) i opening p r !! j = Some x -> writer_sound (pr_disk p) x).
  { assert (Hold : forall j x, sy_writers s !! j = Some x -> writer_sound (pr_disk p) x) by (intros j x Hx; eapply writer_sound_grows; [by eapply Hws|done]).
    intros j x. unfold survive. destruct r as [a|e|]; [|destruct opening; [apply Hold|]|].
    1,2: rewrite lookup_insert_Some; intros [[_ <-]|[_ Hx]]; [done|by eapply Hold].
    rewrite lookup_delete_Some. intros [_ Hx]. by eapply Hold. }
  split_and!; cbn [sy_disk sy_writers sy_acknowledged]; [done|done|done|destruct r as [a|e|]; [|done|done]..].
  - destruct (Hack _ _ _ H) as [->|(stored & -> & _ & _ & e & Hre & He)]; [by rewrite app_nil_r|]. apply Forall_app. split; [done|].
    constructor; [by exists e|constructor].
  - destruct (Hack _ _ _ H) as [->|(stored & -> & _ & Hlt & _)]; [by rewrite app_nil_r|]. apply StronglySorted_app_2; [|done|by repeat constructor].
    intros a' b Ha' Hb. apply list_elem_of_singleton in Hb as ->. apply safe_all in Ha as [_ Hre]. rewrite Forall_forall in Hre.
    destruct (Hre a' Ha') as [e' He']. rewrite <-(reread_sequence _ _ He'). apply Hlt. apply list_elem_of_omap. by exists a'.
Qed.

Lemma cut_file_lines kept torn f : (jf_durable f <= length (jf_lines f))%nat ->
  exists k, (jf_durable f <= k <= length (jf_lines f))%nat /\ jf_lines (cut_file kept torn f) = take k (jf_lines f) /\
    jf_durable (cut_file kept torn f) = length (jf_lines (cut_file kept torn f)).
Proof.
  intros Hd. unfold cut_file. destruct (length (jf_lines f) <=? _)%nat eqn:E.
  - exists (length (jf_lines f)). cbn. rewrite firstn_all. split_and!; done || lia.
  - apply Nat.leb_gt in E. exists (Nat.max kept (jf_durable f)). cbn. rewrite length_take. split_and!; done || lia.
Qed.
Lemma cut_file_covers kept torn f e : (jf_durable f <= length (jf_lines f))%nat -> file_covers f e -> file_covers (cut_file kept torn f) e.
Proof.
  intros Hd Hc k Hk. destruct (cut_file_lines kept torn f Hd) as (n & Hn & Hl & Hdur).
  assert (k = length (jf_lines (cut_file kept torn f))) as -> by lia. rewrite firstn_all, Hl. by apply Hc.
Qed.
Lemma power_loss_file d j kept torn tmp lk ino : is_Some (dk_files d !! ino) ->
  dk_file (power_loss d j kept torn tmp lk) ino = cut_file (kept ino) (torn ino) (dk_file d ino).
Proof. intros [f Hf]. unfold dk_file, power_loss; cbn. by rewrite map_lookup_imap, Hf. Qed.
Lemma power_loss_sane d j kept torn tmp lk : file_sane d -> names_sane d ->
  file_sane (power_loss d j kept torn tmp lk) /\ names_sane (power_loss d j kept torn tmp lk).
Proof.
  intros Hf [Hn1 Hn2]. split; [|split].
  - intros ino f. cbn. rewrite map_lookup_imap. destruct (dk_files d !! ino) as [g|] eqn:E; [|done]. cbn. intros [= <-].
    destruct (Hf ino g E) as [Hd Hlt]. split; [|done]. by destruct (cut_file_lines (kept ino) (torn ino) g Hd) as (k & _ & _ & ->).
  - intros ino Hi. cbn. rewrite map_lookup_imap. destruct (Hn1 ino) as [f Hf']; [|rewrite Hf'; by eexists].
    unfold name_of in *. cbn in Hi. destruct j, tmp; destruct Hi as [Hi|[Hi|Hi]]; try discriminate Hi; tauto.
  - cbn. intros t Ht. destruct tmp; [|done]. destruct (Hn2 t Ht). by destruct j.
Qed.
Lemma power_loss_safe d j kept torn tmp lk e : file_sane d -> names_sane d -> safe d e -> safe (power_loss d j kept torn tmp lk) e.
Proof.
  intros Hf [Hn _] (H1 & (c & Hj & Hc) & (c2 & Hj2 & Hc2)). split; [done|].
  assert (Hall : forall i, name_of d i -> file_covers (dk_file d i) e -> file_covers (dk_file (power_loss d j kept torn tmp lk) i) e).
  { intros i Hi Hci. rewrite power_loss_file by by apply Hn. apply cut_file_covers; [by apply file_sane_at|done]. }
  destruct j; [split; exists c|split; exists c2]; (split; [done|]); apply Hall; try done; [by left|by left|by right; left|by right; left].
Qed.
Lemma power_loss_sound s j kept torn tmp lk : system_sound s -> system_sound (happen s (PowerLoss j kept torn tmp lk)).
Proof.
  intros (Hf & Hn & _ & Ha & Hs). destruct (power_loss_sane (sy_disk s) j kept torn tmp lk Hf Hn) as [Hf' Hn']. split; [done|]. split; [done|].
  split; [by intros i w|]. split; [|done]. eapply Forall_impl; [exact Ha|]. intros stored (e & He & Hsafe). exists e. split; [done|].
  by apply power_loss_safe.
Qed.

Lemma happen_sound s h : system_sound s -> system_sound (happen s h).
Proof.
  intros Hs. destruct h as [i op answers|j kept torn tmp lk]; [|by apply power_loss_sound].
  pose proof (run_next s Hs) as H0. destruct op as [o|e| | |]; cbn [happen]; destruct (sy_writers s !! i) as [w|] eqn:Ew; try done.
  - eapply runs_sound; [done|by right|by apply tri_Open|by intros|]. intros ? d w _. by left.
  - eapply runs_sound; [done|left; by exists i|by apply tri_Append|by intros a d w' [H _]|]. intros stored d w' H. right. by exists stored.
  - eapply runs_sound; [done|left; by exists i|by apply tri_Compact|by intros|]. intros ? d w' _. by left.
  - eapply runs_sound; [done|left; by exists i|by apply tri_List|by intros a d w' [H _]|]. intros ? d w' _. by left.
  - eapply runs_sound; [done|left; by exists i|by apply tri_Close|by intros|]. intros ? d w' _. by left.
Qed.
Lemma history_sound hs : forall s, system_sound s -> system_sound (history s hs).
Proof. induction hs as [|h hs IH]; intros s Hs; [done|]. cbn. apply IH. by apply happen_sound. Qed.
Lemma initial_sound d : file_sane d -> names_sane d -> system_sound (initialSystem d).
Proof. intros Hf Hn. split_and!; [done|done|by intros i w|constructor|constructor]. Qed.
Lemma empty_sane : file_sane emptyDirectory /\ names_sane emptyDirectory.
Proof.
  split; [by intros ino f|]. split; [|by intros t]. intros ino [H|[H|H]]; done.
Qed.

End WriterFacts.
