(* ===== verification/AuditClaims.v ===== *)
(** * Audit log: what it promises

    The statements about the directory as a whole, over every interleaving of the
    processes, failures, crashes and losses of power; what a refresh, retention
    and redaction guarantee; and runs of the system on concrete inputs. *)

From Stdlib Require Import Ascii.
From S2P Require Import Prelude GoText GoJson GoJsonFacts ActionAbi JobSanitize AuditJournal AuditFacts AuditWriter AuditWriterFacts.

Section Claims.
Context {U : UnicodeTables} {F : FloatText}.

(** ** Acknowledged events *)

(** Every reader of the journal, whenever it reads and whatever store it expects,
    finds a state that keeps the event or fails. *)
Definition readable (d : disk) (e : AuditEvent) : Prop :=
  exists c st, dk_journal d = Some c /\ kept e st /\ (exists mt id, recoverLines mt id (jf_lines (dk_file d c)) = Ok st) /\
    forall mt id st', recoverLines mt id (jf_lines (dk_file d c)) = Ok st' -> st' = st.
Lemma safe_readable d e : file_sane d -> safe d e -> readable d e.
Proof.
  intros Hf (H1 & (c & Hj & Hc) & _). destruct (covers_all _ _ (file_sane_at d c Hf) Hc) as (mt & id & st & Hr & Hl & Hk).
  exists c, st. split_and!; [done|done|by exists mt, id|]. intros mt' id' st' H'. destruct (jf_lines (dk_file d c)) as [|l lines] eqn:E.
  - exfalso. assert (Hst : st = newAuditState id) by (unfold recoverLines, scanLines, finishRecovery in Hr; cbn [result_fold result_bind] in Hr; ok_path Hr; by subst).
    subst st. destruct Hk as [Hk|(se & Hse & _)]; cbn in *; [lia|]. by apply not_elem_of_nil in Hse.
  - by eapply recover_deterministic; [exact Hr|..].
Qed.

(** C2: Whatever happens - calls of any processes, failing or killed at any system
    call, and losses of power - every event whose appending was acknowledged can be
    read back, and is in the journal unless retention removed it. *)
Theorem acknowledged_events_survive d hs stored : file_sane d -> names_sane d ->
  let s := history (initialSystem d) hs in
  stored ∈ sy_acknowledged s -> exists e, reread_event stored = Some e /\ readable (sy_disk s) e.
Proof.
  intros Hf Hn s Hin. destruct (history_sound hs _ (initial_sound d Hf Hn)) as (Hf' & _ & _ & Ha & _). rewrite Forall_forall in Ha.
  destruct (Ha stored Hin) as (e & He & Hs). exists e. split; [done|]. by apply safe_readable.
Qed.

(** No sequence number is handed out twice, and later events have larger ones. *)
Theorem acknowledged_sequences_increase d hs : file_sane d -> names_sane d ->
  StronglySorted (fun a b => au_Sequence a < au_Sequence b) (sy_acknowledged (history (initialSystem d) hs)).
Proof. intros Hf Hn. by destruct (history_sound hs _ (initial_sound d Hf Hn)) as (_ & _ & _ & _ & Hs). Qed.

(** ** What a query returns *)

Lemma sanitized_all events : forall out, sanitizeAll events = Ok out -> Forall2 (fun se ev => sanitizeStored (se_event se) = Ok ev) events out.
Proof.
  induction events as [|se events IH]; intros out H; cbn [sanitizeAll] in H; [simplify_eq; constructor|]. ok_path H. simplify_eq.
  constructor; [done|by apply IH].
Qed.
Lemma sanitized_sequence e ev : sanitizeStored e = Ok ev -> au_Sequence ev = au_Sequence e.
Proof. unfold sanitizeStored. intros H. ok_path H. by simplify_eq. Qed.
(** The answer of a query: consecutive events after a watermark. *)
Definition answers_query (acked out : list AuditEvent) : Prop :=
  exists n, (forall i ev, out !! i = Some ev -> au_Sequence ev = n + Z.of_nat i + 1) /\
    forall stored, stored ∈ acked -> au_Sequence stored <= n \/
      exists e x ev, reread_event stored = Some e /\ same_event e x /\ sanitizeStored x = Ok ev /\ ev ∈ out /\ au_Sequence ev = au_Sequence stored.


(** ** Refreshing *)

(** The state of a writer only moves forward. *)
Definition moves_forward (st st' : auditState) : Prop :=
  as_storeID st' = as_storeID st /\ as_generation st <= as_generation st' /\ as_lastSequence st <= as_lastSequence st' /\
  as_prunedThrough st <= as_prunedThrough st' /\ gapless st' /\ forall e, kept e st -> kept e st'.
Lemma forward_refl st : gapless st -> moves_forward st st.
Proof. intros H. by split_and!. Qed.
Lemma forward_trans a b c : moves_forward a b -> moves_forward b c -> moves_forward a c.
Proof. intros (A1 & A2 & A3 & A4 & A5 & A6) (B1 & B2 & B3 & B4 & B5 & B6). split_and!; [congruence|lia|lia|lia|done|auto]. Qed.
Lemma continues_forward st st' : gapless st -> gapless st' -> stateContinues st st' = Ok tt -> moves_forward st st'.
Proof.
  intros Hg Hg' H. unfold stateContinues in H. ok_path H. breflect. apply check_all_ok in H. rewrite Forall_forall in H. rename H into Hall.
  assert (Hp : as_prunedThrough st <= as_prunedThrough st') by lia. assert (Hl : as_lastSequence st <= as_lastSequence st') by lia.
  split_and!; [tauto|lia|done|done|done|]. intros e [Hk|(se & Hse & Hs & Hsame)]; [left; lia|].
  pose proof (Hall se Hse) as Hr. unfold retained_unchanged in Hr.
  destruct (_ <=? _) eqn:Ele; [left; lia|]. destruct (as_events st' !! _) as [x|] eqn:Ex; [|done]. ok_path Hr. breflect.
  destruct (sequence_in_range st se Hg Hse) as (i & _ & _ & Hrange). destruct Hg as (G1 & G2 & _), Hg' as (G1' & _ & _ & G4).
  assert (Hu : u64 (au_Sequence (se_event se) - as_prunedThrough st' - 1) = au_Sequence (se_event se) - as_prunedThrough st' - 1)
    by (apply Z.mod_small; unfold u64_max in G2; lia).
  rewrite Hu in Ex. right. exists x. split; [by eapply list_elem_of_lookup_2|]. split; [rewrite (G4 _ _ Ex); lia|].
  assert (Hxx : same_event (se_event se) (se_event x)) by (by apply eventsSemanticallyEqual_same). unfold same_event in *. congruence.
Qed.

(** Assertions about the writer alone; failures do not matter. *)
Definition anything : assertion := fun _ _ => True.
Definition with_state (R : auditState -> Prop) : assertion := fun _ w => R (w_state w).
Notation quiet P m Q := (triple anything P m Q).
Lemma quiet_recover (P : Writer -> Prop) ino repair id :
  quiet (fun _ w => P w) (recoverAuditLog ino repair id) (fun r _ w => P w /\ exists mt lines, recoverLines mt id lines = Ok r.1).
Proof.
  set (K := fun (_ : disk) w => P w). assert (Any : forall d w, K d w -> anything d w) by done. unfold recoverAuditLog.
  eapply triple_bind; [by apply (triple_inspect anything K)|]. intros f. apply (triple_pre anything K); [|by intros d w [H _]].
  eapply triple_bind; [by apply (triple_io anything K)|]. skip. eapply triple_bind; [by apply (triple_io anything K)|]. skip.
  apply triple_lifted; [done|]. intros v Hv. eapply (triple_bind anything K _ (fun _ => K)).
  { apply triple_case; intros _; [by apply triple_ret|]. apply triple_lifted; [done|]. intros _ _.
    eapply (triple_bind anything K _ (fun _ => K)); [by apply (triple_effect anything K K)|]. skip. by apply triple_flush. }
  skip. apply triple_lifted; [done|]. intros st Hst. eapply triple_bind; [by apply (triple_io anything K)|]. skip.
  eapply (triple_bind anything K _ (fun _ => K)).
  { eapply triple_bind; [by apply (triple_inspect anything K)|]. intros g. apply triple_ret. by intros d w [H _]. }
  intros s. apply triple_refuse; [done|]. intros _. apply triple_ret. intros d w Hk. split; [done|]. exists (jf_mtime f), (jf_lines f).
  unfold recoverLines. by rewrite Hv.
Qed.
Lemma quiet_adopt (st0 : auditState) ino st s : moves_forward st0 st -> quiet (with_state (moves_forward st0)) (adopt ino st s) (fun _ => with_state (moves_forward st0)).
Proof. intros H. eapply triple_post; [apply triple_adopt|]. by intros _ d w (w0 & _ & ->). Qed.
Lemma quiet_verify (P : assertion) : quiet P verifyPaths (fun _ => P).
Proof. eapply triple_post; [by apply triple_verifyPaths|]. by intros _ d w [H _]. Qed.
Lemma quiet_ensure st0 : quiet (with_state (moves_forward st0)) ensureCanonicalLocked (fun _ => with_state (moves_forward st0)).
Proof.
  set (P := with_state (moves_forward st0)). unfold ensureCanonicalLocked.
  eapply triple_bind; [by apply (triple_io anything P)|]. skip. eapply triple_bind; [by apply (triple_io anything P)|]. skip.
  eapply triple_bind; [apply triple_writer|]. intros w1. eapply triple_bind; [apply triple_disk|]. intros d1.
  apply triple_start. intros d2 w2 [[Hp ->] ->]. apply (triple_pre anything P); [|by intros d w [-> ->]].
  destruct (dk_journal d1) as [current|]; [|by apply triple_fail]. apply triple_case; intros _.
  { eapply triple_post; [by apply (triple_verifyJournalPath anything P)|]. by intros _ d w [H _]. }
  eapply triple_bind; [by apply (triple_io anything P)|]. skip. eapply triple_bind; [apply (quiet_recover (fun w => moves_forward st0 (w_state w)))|].
  intros [fresh s]. cbn [fst]. apply triple_start. intros d3 w3 [Hp3 (mt & lines & Hr)]. apply (triple_pre anything P); [|by intros d w [-> ->]].
  apply triple_lifted; [done|]. intros [] Hadv. unfold auditStateAdvances in Hadv. destruct (stateContinues (w_state w1) fresh) as [[]|] eqn:Ec; [|done].
  assert (Hf : moves_forward st0 fresh).
  { eapply forward_trans; [exact Hp|]. apply continues_forward; [by destruct Hp as (_ & _ & _ & _ & Hg & _)|by eapply recovered_gapless|done]. }
  eapply (triple_bind anything P _ (fun _ => P)); [eapply triple_post; [by apply (triple_verifyJournalPath anything P)|by intros _ d w [H _]]|].
  skip. eapply triple_bind; [by apply quiet_adopt|]. skip. by apply triple_io.
Qed.
Lemma quiet_refresh st0 : quiet (with_state (moves_forward st0)) refreshLocked (fun _ => with_state (moves_forward st0)).
Proof.
  set (P := with_state (moves_forward st0)). unfold refreshLocked. eapply triple_bind; [by apply (triple_verify anything P)|]. skip.
  eapply triple_bind; [by apply (triple_readVerified anything P)|]. intros metadata. eapply triple_bind; [apply quiet_ensure|]. skip.
  eapply triple_bind; [apply triple_writer|]. intros w1. eapply triple_bind; [by apply triple_inspect|]. intros f.
  apply triple_start. intros d2 w2 [[Hp ->] _]. apply (triple_pre anything P); [|by intros d w [-> ->]]. apply triple_case; intros _.
  - apply triple_lifted; [done|]. intros _ _. apply quiet_verify.
  - eapply triple_bind; [apply (quiet_recover (fun w => moves_forward st0 (w_state w)))|]. intros [fresh s]. cbn [fst].
    apply triple_start. intros d3 w3 [Hp3 (mt & lines & Hr)]. apply (triple_pre anything P); [|by intros d w [-> ->]].
    apply triple_refuse; [done|]. intros _. apply triple_lifted; [done|]. intros [] Hc.
    eapply triple_bind; [apply quiet_adopt|].
    + eapply forward_trans; [exact Hp|]. apply continues_forward; [by destruct Hp as (_ & _ & _ & _ & Hg & _)|by eapply recovered_gapless|done].
    + skip. apply triple_lifted; [done|]. intros _ _. apply quiet_verify.
Qed.
(** C4: Whatever the directory holds - an older journal, one with an event altered or
    missing, another store - a refresh that succeeds leaves the writer with a state
    that continues the one it had. *)
Theorem refresh_never_rolls_back p p' : gapless (w_state (pr_writer p)) -> refreshLocked p = (p', Done tt) ->
  moves_forward (w_state (pr_writer p)) (w_state (pr_writer p')).
Proof. intros Hg H. pose proof (quiet_refresh _ p (forward_refl _ Hg)) as Hq. by rewrite H in Hq. Qed.

(** ** Retention *)

(** What the options allow to keep: so many events, the oldest not too old. *)
Definition within (o : AuditOptions) (t : Z) (retained : list storedEvent) : Prop :=
  (0 < ao_MaxEvents o -> Z.of_nat (length retained) <= ao_MaxEvents o) /\
  (0 < ao_Retention o -> forall se, retained !! 0%nat = Some se -> t - ao_Retention o <= se_recordedAt se).
Definition in_order (events : list storedEvent) : Prop := StronglySorted (fun a b => se_recordedAt a <= se_recordedAt b) events.
Lemma timeDrop_spec c events : (timeDrop c events <= length events)%nat /\
  (forall se, events !! timeDrop c events = Some se -> c <= se_recordedAt se) /\
  (forall m, (m < timeDrop c events)%nat -> exists se, events !! m = Some se /\ se_recordedAt se < c).
Proof.
  induction events as [|e events (IH1 & IH2 & IH3)]; [split_and!; [done|done|cbn; lia]|]. cbn [timeDrop]. destruct (se_recordedAt e <? c) eqn:E.
  - split_and!; [cbn; lia|exact IH2|]. intros [|m] Hm; [exists e; split; [done|lia]|]. apply IH3. lia.
  - split_and!; [cbn; lia| |lia]. cbn. intros se [= <-]. lia.
Qed.
Lemma in_order_le events i j a b : in_order events -> (i <= j)%nat -> events !! i = Some a -> events !! j = Some b -> se_recordedAt a <= se_recordedAt b.
Proof.
  intros Hs Hij Ha Hb. destruct (decide (i = j)) as [->|Hne]; [simplify_eq; lia|].
  revert i j Hij Hne Ha Hb. induction Hs as [|x l Hs IH Hall]; intros i j Hij Hne Ha Hb; [done|]. destruct j as [|j]; [lia|]. cbn in Hb.
  destruct i as [|i]; cbn in Ha; [|by eapply (IH i j); [lia|lia|..]]. simplify_eq. rewrite Forall_forall in Hall. apply Hall.
  by eapply list_elem_of_lookup_2.
Qed.
Lemma retentionDrop_spec events t o : in_order events -> (retentionDrop events t o <= length events)%nat /\
  within o t (drop (retentionDrop events t o) events) /\ forall m, (m < retentionDrop events t o)%nat -> ~ within o t (drop m events).
Proof.
  intros Hs. unfold retentionDrop, within. destruct (timeDrop_spec (t - ao_Retention o) events) as (T1 & T2 & T3).
  set (by_count := if (0 <? ao_MaxEvents o) && _ then _ else _).
  assert (Hc : (by_count <= length events)%nat /\ (0 < ao_MaxEvents o -> Z.of_nat (length events - by_count) <= ao_MaxEvents o) /\
    ((0 < by_count)%nat -> 0 < ao_MaxEvents o /\ Z.of_nat by_count = Z.of_nat (length events) - ao_MaxEvents o)).
  { unfold by_count. destruct (_ && _) eqn:E; [apply andb_true_iff in E as [E1 E2]|apply andb_false_iff in E as [E|E]]; split_and!; lia. }
  destruct Hc as (C1 & C2 & C3).
  assert (Hcount : forall m, (m < by_count)%nat -> 0 < ao_MaxEvents o -> ~ Z.of_nat (length events - m) <= ao_MaxEvents o) by (intros m Hm Hx; destruct C3; lia).
  setoid_rewrite length_drop. setoid_rewrite lookup_drop. setoid_rewrite Nat.add_0_r. destruct (0 <? ao_Retention o) eqn:Er.
  - split; [lia|]. split; [split|].
    + intros Hm. specialize (C2 Hm). lia.
    + intros _ se Hse. assert (Hlt : (timeDrop (t - ao_Retention o) events < length events)%nat) by (apply lookup_lt_Some in Hse; lia).
      destruct (lookup_lt_is_Some_2 _ _ Hlt) as [x Hx]. transitivity (se_recordedAt x); [by apply T2|].
      eapply in_order_le; [exact Hs| |exact Hx|exact Hse]. lia.
    + intros m Hm [W1 W2]. destruct (decide (m < by_count)%nat) as [Hlt|Hge].
      * destruct C3 as [C3 _]; [lia|]. by eapply Hcount, W1.
      * destruct (T3 m) as (se & Hse & Hlt); [lia|]. specialize (W2 ltac:(lia) se Hse). lia.
  - split; [lia|]. split; [split; [done|lia]|]. intros m Hm [W1 _]. destruct C3 as [C3 _]; [lia|]. by eapply Hcount, W1.
Qed.
(** C25: Retention always succeeds and drops the oldest events, exactly as many as the
    options require; the watermark moves by their number. *)
Theorem retention_drops_what_it_must st t o : gapless st -> in_order (as_events st) ->
  exists n st', applyRetentionPolicy st t o = Ok st' /\ as_events st' = drop n (as_events st) /\
    as_prunedThrough st' = as_prunedThrough st + Z.of_nat n /\ as_lastSequence st' = as_lastSequence st /\
    within o t (as_events st') /\ forall m, (m < n)%nat -> ~ within o t (drop m (as_events st)).
Proof.
  intros Hg Hs. destruct (retentionDrop_spec (as_events st) t o Hs) as (H1 & H2 & H3). exists (retentionDrop (as_events st) t o).
  unfold applyRetentionPolicy. destruct (retentionDrop (as_events st) t o) as [|n] eqn:En.
  - exists st. split_and!; try done; lia.
  - destruct (lookup_lt_is_Some_2 (as_events st) n) as [se Hse]; [lia|]. rewrite Hse.
    pose proof Hg as (_ & _ & _ & G4). pose proof (G4 _ _ Hse) as Hq. destruct (sequence_in_range st se Hg (list_elem_of_lookup_2 _ _ _ Hse)) as (_ & _ & _ & Hr).
    assert (Ht : as_prunedThrough st <= au_Sequence (se_event se) <= as_lastSequence st) by lia.
    destruct (advance_total st _ Hg Ht) as [st' Ha]. exists st'. destruct (advance_effect _ _ _ Hg Ht Ha) as (He & Hp & Hl & _).
    replace (Z.to_nat (au_Sequence (se_event se) - as_prunedThrough st)) with (S n) in He by lia. rewrite He.
    split_and!; try done. lia.
Qed.

(** ** Redaction *)

(** A value without what stands under sensitive keys. *)
Fixpoint without_secret_values (v : gval) : gval :=
  match v with
  | GPointer x => GPointer (without_secret_values x)
  | GMap strings m =>
      GMap strings ((fix go (m : list (string * gval)) : list (string * gval) :=
        match m with [] => [] | (k, x) :: rest => (k, if sensitiveKey k then GNil else without_secret_values x) :: go rest end) m)
  | GSlice l => GSlice ((fix go (l : list gval) : list gval := match l with [] => [] | x :: rest => without_secret_values x :: go rest end) l)
  | _ => v
  end.
Definition without_secret_details (e : RawEvent) : RawEvent :=
  mkRawEvent (re_Sequence e) (re_Timestamp e) (re_Type e) (re_Actor e) (re_WorkspaceID e) (re_Outcome e)
    ((fun m => map (fun kx => (kx.1, if sensitiveKey kx.1 then GNil else without_secret_values kx.2)) m) <$> re_Details e).

(** Sorting by the key does not look at the values. *)
Section SortByKey.
Context {V : Type} (f : string * V -> string * V) (keeps : forall x, (f x).1 = x.1).
Lemma decide_key a b (A : Type) (x y : A) : (if decide (key_le (f a) (f b)) then x else y) = (if decide (key_le a b) then x else y).
Proof.
  assert (H : key_le (f a) (f b) <-> key_le a b) by (unfold key_le; by rewrite !keeps).
  destruct (decide (key_le (f a) (f b))), (decide (key_le a b)); tauto.
Qed.
Lemma merge_map l1 : forall l2, list_merge key_le (map f l1) (map f l2) = map f (list_merge key_le l1 l2).
Proof.
  induction l1 as [|a l1 IH]; intros l2; [by destruct l2|]. induction l2 as [|b l2 IH2]; [done|]. cbn [map list_merge] in *.
  rewrite decide_key. destruct (decide _); cbn [map]; f_equal; [apply (IH (b :: l2))|apply IH2].
Qed.
Definition map_stack (st : list (option (list (string * V)))) : list (option (list (string * V))) := map (fmap (map f)) st.
Lemma to_stack_map st : forall l, merge_list_to_stack key_le (map_stack st) (map f l) = map_stack (merge_list_to_stack key_le st l).
Proof.
  induction st as [|[l'|] st IH]; intros l; [done| |done]. cbn [map_stack map fmap option_fmap option_map merge_list_to_stack].
  rewrite merge_map. f_equal. apply IH.
Qed.
Lemma stack_map st : merge_stack key_le (map_stack st) = map f (merge_stack key_le st).
Proof.
  induction st as [|[l|] st IH]; [done| |done]. cbn [map_stack map fmap option_fmap option_map merge_stack]. fold (map_stack st). by rewrite IH, merge_map.
Qed.
Lemma sort_map l : merge_sort key_le (map f l) = map f (merge_sort key_le l).
Proof.
  unfold merge_sort. change (@nil (option (list (string * V)))) with (map_stack []) at 1. generalize (@nil (option (list (string * V)))).
  induction l as [|x l IH]; intros st; cbn [map merge_sort_aux]; [apply stack_map|]. rewrite <-(IH (merge_list_to_stack key_le st [x])). f_equal.
  apply (to_stack_map st [x]).
Qed.
End SortByKey.

Definition mask (depth : nat) (kr : string * ares json) : string * ares json :=
  (kr.1, if sensitiveKey kr.1 then sanitizeValue (S depth) GNil else kr.2).
Lemma mask_entries depth l : forall acc used, redact_entries (map (mask depth) l) acc used = redact_entries l acc used.
Proof.
  induction l as [|[k r] l IH]; intros acc used; [done|]. cbn [map redact_entries mask fst snd]. destruct (sensitiveKey k); [apply IH|].
  destruct r as [v|e]; [|done]. cbn [result_bind]. apply IH.
Qed.
Lemma gval_ind' (P : gval -> Prop) :
  (forall v, match v with GPointer _ | GMap _ _ | GSlice _ => False | _ => True end -> P v) -> (forall v, P v -> P (GPointer v)) ->
  (forall b m, Forall (fun kx => P kx.2) m -> P (GMap b m)) -> (forall l, Forall P l -> P (GSlice l)) -> forall v, P v.
Proof.
  intros Hb Hp Hm Hs. fix IH 1. intros v. destruct v; try (apply Hb; exact I); [apply Hp, IH|apply Hm|apply Hs].
  - induction m as [|[k x] m IHm]; constructor; [apply IH|exact IHm].
  - induction l as [|x l IHl]; constructor; [apply IH|exact IHl].
Qed.
Definition map_values (depth : nat) (m : list (string * gval)) : list (string * ares json) := map (fun kx => (kx.1, sanitizeValue (S depth) kx.2)) m.
Definition mask_value (kx : string * gval) : string * gval := (kx.1, if sensitiveKey kx.1 then GNil else without_secret_values kx.2).
Lemma sanitize_map depth b m : sanitizeValue depth (GMap b m) =
  if (maximumRedactionDepth <? depth)%nat then Err depth_error else
  if negb b then Err (AuditError "map keys must be strings") else
  let? m' := redact_entries (merge_sort key_le (map_values depth m)) [] [] in Ok (JObject m').
Proof.
  cbn [sanitizeValue]. destruct (_ <? _)%nat; [done|]. destruct (negb b); [done|]. do 3 f_equal.
  unfold map_values. induction m as [|[k x] m IH]; [done|]. cbn [map fst snd]. by f_equal.
Qed.
Lemma without_map b m : without_secret_values (GMap b m) = GMap b (map mask_value m).
Proof. cbn [without_secret_values]. f_equal. induction m as [|[k x] m IH]; [done|]. cbn [map]. by f_equal. Qed.
Lemma masked_values depth m : Forall (fun kx => forall depth, sanitizeValue depth (without_secret_values kx.2) = sanitizeValue depth kx.2) m ->
  map_values depth (map mask_value m) = map (mask depth) (map_values depth m).
Proof.
  intros H. unfold map_values. rewrite !map_map. apply map_ext_Forall. eapply Forall_impl; [exact H|]. intros [k x] Hx.
  unfold mask, mask_value; cbn [fst snd] in *. by destruct (sensitiveKey k); rewrite ?Hx.
Qed.
Lemma sanitize_without v : forall depth, sanitizeValue depth (without_secret_values v) = sanitizeValue depth v.
Proof.
  induction v as [v Hv|v IH|b m IH|l IH] using gval_ind'; intros depth.
  - by destruct v.
  - cbn [without_secret_values sanitizeValue]. by rewrite IH.
  - rewrite without_map, !sanitize_map, masked_values by done. rewrite sort_map by done. by rewrite mask_entries.
  - cbn [without_secret_values sanitizeValue]. destruct (_ <? _)%nat; [done|]. f_equal.
    induction IH as [|x l Hx IH IH2]; [done|]. by rewrite Hx, IH2.
Qed.
Lemma prepare_without e : prepareAuditEvent (without_secret_details e) = prepareAuditEvent e.
Proof.
  unfold prepareAuditEvent, without_secret_details. cbn [re_Sequence re_Type]. destruct (negb _); [done|]. destruct (re_Type e ==? ""); [done|].
  assert (H : sanitizeEvent (without_secret_details e) = sanitizeEvent e); [|unfold without_secret_details in H; by rewrite H].
  unfold sanitizeEvent, without_secret_details. cbn [re_Sequence re_Timestamp re_Type re_Actor re_WorkspaceID re_Outcome re_Details].
  destruct (re_Details e) as [m|]; [|done]. cbn [fmap option_fmap option_map].
  change (map (fun kx => (kx.1, if sensitiveKey kx.1 then GNil else without_secret_values kx.2)) m) with (map mask_value m).
  by rewrite <-(sanitize_without (GMap true m)), without_map.
Qed.
(** C22: Appending an event does the same, byte for byte in the directory and in its
    answer, whatever the values under sensitive keys are, at any depth of the
    details. *)
Theorem append_ignores_secrets e p : AppendContext (without_secret_details e) p = AppendContext e p.
Proof. unfold AppendContext. by rewrite prepare_without. Qed.
End Claims.

(** ** Runs on concrete inputs *)

Module AuditDemo.
#[local] Instance plainUnicode : UnicodeTables := {| uni_letter_or_digit := fun _ => true; uni_is_upper := fun _ => false |}.
(** Every number with a fraction or an exponent is out of range. *)
#[local] Instance integersOnly : FloatText := {| float64_text := fun _ => None |}.

Definition store_id : string := "0123456789abcdef0123456789abcdef".
Definition noon : Z := 63000000000 * ns_per_s.
Definition smoothly (n : nat) : list answer := repeat (mkAnswer Succeeds (noon + Z.of_nat n) store_id) 60.
Definition keep_two : AuditOptions := mkAuditOptions 2 0 0 0.
Definition login (outcome : string) (details : list (string * gval)) : RawEvent := mkRawEvent 0 0 "login" "owner" "" outcome (Some details).
Definition first_login : RawEvent := login "ok" [("token", GPointer (GString "abc"))].
Definition first_stored : AuditEvent :=
  mkAuditEvent 1 (noon + 2) "login" "owner" "" "ok" (Some [("<redacted-key>", JString "<redacted>")]).
(** An append, one that dies while its line is written, a loss of power that
    keeps a part of that line, and another process. *)
Definition troubled : list happening :=
  [Runs 1 (OpOpen keep_two) (smoothly 1); Runs 1 (OpAppend first_login) (smoothly 2);
   Runs 1 (OpAppend first_login) (repeat (mkAnswer Succeeds (noon + 3) store_id) 18 ++ [mkAnswer (Dies 40) (noon + 3) ""]);
   PowerLoss false (fun _ => 0%nat) (fun _ => "{") false None; Runs 2 (OpOpen keep_two) (smoothly 4)].
Definition after_trouble : system := Eval vm_compute in history (initialSystem emptyDirectory) troubled.
Lemma after_trouble_eq : history (initialSystem emptyDirectory) troubled = after_trouble.
Proof. vm_compute. reflexivity. Qed.
Definition second_writer : Writer := default noWriter (sy_writers after_trouble !! 2%nat).
Definition query : Process * outcome (list AuditEvent) := Eval vm_compute in List (mkProcess (sy_disk after_trouble) second_writer (smoothly 5)).
Definition listed : list AuditEvent := match snd query with Done out => out | _ => [] end.

Lemma first_acknowledged : first_stored ∈ sy_acknowledged after_trouble.
Proof. by left. Qed.

Lemma acknowledged_events_survive_witness :
  exists e, reread_event first_stored = Some e /\ readable (sy_disk (history (initialSystem emptyDirectory) troubled)) e.
Proof.
  apply (acknowledged_events_survive emptyDirectory troubled first_stored (proj1 empty_sane) (proj2 empty_sane)).
  rewrite after_trouble_eq. exact first_acknowledged.
Defined.

Definition refreshed : Process * outcome unit := Eval vm_compute in refreshLocked (mkProcess (sy_disk after_trouble) second_writer []).
Lemma second_gapless : gapless (w_state second_writer).
Proof.
  unfold gapless. split_and!; [vm_compute; congruence..|reflexivity|].
  change (as_events (w_state second_writer)) with [mkStored first_stored (noon + 2)]. intros [|i] se H; cbn in H; [by simplify_eq|done].
Qed.
Lemma refresh_never_rolls_back_witness : moves_forward (w_state second_writer) (w_state (pr_writer (fst refreshed))).
Proof.
  apply (refresh_never_rolls_back (mkProcess (sy_disk after_trouble) second_writer []) (fst refreshed)); [exact second_gapless|vm_compute; reflexivity].
Defined.

Definition event_at (n t : Z) : storedEvent := mkStored (mkAuditEvent n t "login" "owner" "" "ok" None) t.
Definition three_events : auditState := mkAuditState "s" 0 true false false 3 0 30 [event_at 1 10; event_at 2 20; event_at 3 30] false.
Lemma retention_drops_what_it_must_witness :
  exists n st', applyRetentionPolicy three_events 35 (mkAuditOptions 2 0 10 0) = Ok st' /\ as_events st' = drop n (as_events three_events) /\
    as_prunedThrough st' = as_prunedThrough three_events + Z.of_nat n /\ as_lastSequence st' = as_lastSequence three_events /\
    within (mkAuditOptions 2 0 10 0) 35 (as_events st') /\ forall m, (m < n)%nat -> ~ within (mkAuditOptions 2 0 10 0) 35 (drop m (as_events three_events)).
Proof.
  apply (retention_drops_what_it_must three_events 35 (mkAuditOptions 2 0 10 0)).
  - unfold gapless. split_and!; [vm_compute; congruence..|reflexivity|]. cbn [three_events as_events as_prunedThrough].
    intros [|[|[|i]]] se H; cbn in H; [by simplify_eq..|done].
  - unfold in_order. repeat constructor; cbn; lia.
Defined.

(** An event that passes the checks before the lock, and whose line cannot be read
    back: the writer is closed for every later caller. *)
Definition out_of_range : RawEvent := login "ok" [("n", GJsonNumber "1e999")].
Lemma out_of_range_number_closes_writer :
  let s := history (initialSystem emptyDirectory) [Runs 1 (OpOpen keep_two) (smoothly 1); Runs 1 (OpAppend out_of_range) (smoothly 2)] in
  is_ok (prepareAuditEvent out_of_range) = true /\ w_unavailable <$> sy_writers s !! 1%nat = Some (Some (AuditError "invalid JSON")) /\
  sy_acknowledged (happen s (Runs 1 (OpAppend first_login) (smoothly 3))) = [].
Proof. vm_compute. split_and!; reflexivity. Qed.
End AuditDemo.
